(* ===== verification/_CoqProject ===== *)
-Q . S2P
Prelude.v
BTree.v
Net.v
Ip.v
Flow.v
FlowTable.v
Checksum.v
Nat.v
AppKey.v
AppRouting.v
Reset.v
Owner.v
Native.v
ProcEvents.v
WinTables.v
Conntrack.v
Pcblist.v
Routes.v
RoutePlan.v
Selection.v
SelectionSpec.v
SelectionRun.v
Migration.v
DesktopPlan.v
DesktopSpec.v
SelectionWitness.v
Router.v
RouterInv.v
RouterWorld.v
RouterSpec.v
RouterWitness.v
Datapath.v
DatapathSpec.v
Controller.v
ControllerInv.v
ControllerSpec.v
ControllerRun.v
AppRoutes.v
AppRoutesWitness.v
Networks.v
Lan.v
NetworksModel.v
Tunnel.v
Refusals.v
TunnelMachine.v
TunnelInv.v
TunnelTurn.v
TunnelSpec.v
TunnelWitness.v
Tailnet.v
Nft.v
Firewall.v
FirewallSpec.v
FirewallPath.v
FirewallLock.v
NoLeak.v
FirewallWitness.v
Decimal.v
Regex.v
Version.v
Update.v
UpdateSpec.v
Upgrade.v
UpgradeSpec.v
VersionRouter.v
VersionRun.v
UpdateWitness.v
PeerFence.v
Preflight.v
Guards.v
EgressGuard.v
Verdicts.v
Updater.v
UpdaterRun.v
