(* ===== verification/Prelude.v ===== *)
(** * The Warren client: a verification development

    The Warren client (src/) is a VPN client: a daemon that keeps one main
    tunnel behind a firewall, sends the connections of chosen programs through
    exits of their own beside it, picks the relays of both, and updates itself.
    This library models those parts, from the bytes of a packet and the rules
    of the firewall to the state machine that drives them, and proves them.

    ** The program and its parts

    - Per-app routing.  The packet library, [src/talpid-app-routing], decides
      for each packet of the TUN device which session takes it: a packet is
      located (ip.rs), classified into a flow (flow.rs), attributed to the
      program that owns its socket (owner/, app.rs) under the policy in force
      (router.rs), its address translated for the route's tunnel (nat.rs), or
      answered with a reset where its connection can no longer go on (reset.rs).
      The route sessions, [src/warren-app-routes], plan the settings' apps over
      the signed relay directory (plan.rs), keep one session per planned route
      (controller.rs) and share one router between the TUN device, the sessions
      and the threads that look owners up (datapath.rs).  The settings are
      [src/mullvad-types/src/app_routing.rs].
    - The choice of relays: the circuits of the main tunnel and of the routes,
      over the relay directory ([src/mullvad-daemon/src/warren_multi_hop_directory.rs]),
      and the desktop planner that publishes the routes (warren_app_routes.rs).
    - The tunnel: the state machine ([src/talpid-core/src/tunnel_state_machine])
      that dials, holds, retries and blocks, the refusals of the exits and the
      pace of the dials, the local networks and the tailnets it lets through.
    - The firewall of Linux ([src/talpid-core/src/firewall/linux.rs]): the
      nftables rules of each policy of that machine, and of the lock of the
      apps that must wait for the tunnel.
    - The guards of a live session ([src/talpid-warren-tunnel]): the relays the
      firewall names during a migration (peer_fence.rs), the ports pinned on the
      exit it goes to (natpmp_preflight.rs), what is done about an exit that
      drains, a session that is lost, a leg that delivers nothing
      (drain_reactor.rs, session_liveness.rs, leg_stall.rs), whether its carrier
      leaves the host (carrier_egress_guard.rs), and what is remembered of each
      network's carrier (carrier_verdict_cache.rs).
    - The updates: the application's version ([src/mullvad-version]), the signed
      manifest ([src/mullvad-update]), the router of version checks and the
      upgrade on Linux ([src/mullvad-daemon/src/version]).

    ** The files

    - [Prelude]: outcomes, bytes, slices, time, hash maps.  [BTree]: ordered
      maps.  [Net]: addresses.  [Native]: integers in the host's byte order.
      [Networks]: the interface of the library of IP networks, and
      [NetworksModel] an implementation of it, of sets of addresses.
      [Decimal]: decimal numbers.  [Regex]: regular expressions, as the
      regex_lite crate matches them.
    - Per-app routing, the packets: [Ip] (ip.rs), [Flow] and [FlowTable]
      (flow.rs), [Checksum] and [Nat] (nat.rs), [AppKey] (app.rs), [Reset]
      (reset.rs), [Owner] (owner/mod.rs); [ProcEvents], [Conntrack], [WinTables],
      [Pcblist], the parsers of what the kernels answer (owner/proc_events.rs,
      conntrack.rs, win_tables.rs, pcblist.rs and the refresh of macos.rs);
      [Router] (router.rs), with [RouterInv] its invariant, [RouterWorld] the
      contract of the host's resolver and what it makes of the flows of one
      program, [RouterSpec] the theorems, [RouterWitness] their instances.
    - Per-app routing, the sessions: [AppRouting] (mullvad-types/src/app_routing.rs),
      [Routes] (warren-app-routes/src/lib.rs, circuit.rs), [RoutePlan] (plan.rs),
      [Datapath] (datapath.rs) with [DatapathSpec], [Controller] (controller.rs)
      with [ControllerInv], [ControllerSpec] and [ControllerRun]; [AppRoutes], the
      controller over the table, end to end, and [AppRoutesWitness].
    - The choice of relays: [Selection] (warren_multi_hop_directory.rs) with
      [SelectionSpec] and [SelectionRun], [Migration] (its migrations within a
      country), [Updater] (the task of that file that owns the main connection's
      circuit, a pass at a time) with [UpdaterRun] its runs, [DesktopPlan]
      (warren_app_routes.rs, warren_relay_list_view.rs) with [DesktopSpec], and
      [SelectionWitness].
    - The tunnel: [Lan] (settings/lan.rs, allowed_nets.rs), [Tunnel] (the types of
      talpid-types/src/net and tunnel.rs, talpid-tunnel, talpid-dns, the policies
      of firewall/mod.rs, backend_params.rs), [Refusals] (exit_refusal.rs, the
      pacing and the flap detector of connecting_state.rs), [TunnelMachine]
      (mod.rs and a state per file) with [TunnelInv] its invariant, [TunnelTurn]
      what a turn does, [TunnelSpec] the theorems and [TunnelWitness].
    - The firewall: [Tailnet] (firewall/tailnet.rs), [Nft] what nftables does with
      the expressions the client uses, [Firewall] (firewall/linux.rs, a function
      per rule builder), [FirewallSpec] the decision the output chain implements,
      [FirewallPath] the path of a packet through all the chains, [FirewallLock]
      the lock table and when the rules can be built, [NoLeak] the machine and
      the firewall together, [FirewallWitness].
    - The updates: [Version] (mullvad-version/src/lib.rs), [Update]
      (mullvad-update/src/format, version; the verdicts of the phones) with
      [UpdateSpec], [Upgrade] (mullvad-update/src/linux.rs, linux_upgrade.rs) with
      [UpgradeSpec], [VersionRouter] (router.rs, check.rs, downloader.rs) with
      [VersionRun] its runs behind the poller, and [UpdateWitness].
    - The guards: [PeerFence] (peer_fence.rs), [Preflight] (natpmp_preflight.rs,
      the rules of lib.rs), [Guards] (drain_reactor.rs, session_liveness.rs,
      leg_stall.rs), [EgressGuard] (carrier_egress_guard.rs), [Verdicts]
      (carrier_verdict_cache.rs, carrier_bind_reclaim.rs).

    ** How the model reads the code

    A definition has its function's name, a method taken by another type its
    type's prefix ([rt_uplink] is [RoutingTable::uplink]).  A method that takes
    [&mut self] takes and returns the state; one that rewrites a buffer returns
    the buffer; [Instant::now()] inside it is an argument.  A panic is a value,
    [Panic], of the outcome type [comp], apart from the errors, so "does not
    panic" is proved and not assumed: indexing, slicing, [expect] and the
    subtractions that could underflow yield it.

    The tunnel state machine calls the firewall, the DNS monitor, the route
    manager and the tunnel through [&mut] references: it is a state monad
    ([TunnelMachine.TM]) over the shared values and the log of those calls; what
    they answer, and the clock, are functions of the log so far, so that any
    history of answers is one of them.  A lap of the tunnel monitor starts when
    it is spawned.  The number of a retry is a [u32] that wraps.

    The exchange of [Preflight] is a tree of what it sends and awaits, run to
    its end or until a deadline after any of its awaits; a guard of [Guards] is
    a function of what its IO answers, turn by turn.

    The firewall's functions return the rules they add, in order, each a list of
    expressions; [Nft] runs a chain of them over a packet as nftables does (the
    first expression that does not match ends its rule, a verdict ends the
    chain), and [FirewallPath.sent], [FirewallPath.opened] chain the hooks a
    packet meets.  What differs from host to host is the packet's own data.

    What differs from platform to platform, and what other code answers, is a
    class: [Platform] the host's conventions and what the system answers about a
    path, [ByteOrder] its byte order, [HashOrder] the order a hash map iterates
    in, [UnstableSort] the order an unstable sort leaves equal keys in,
    [Networks] the library of IP networks, [Host] the interfaces of a host,
    [TunnelMachine.World] what the system answers to the tunnel state machine,
    [Discovery] what the directory says of the paths, [RegexLite] the regular
    expressions, [ManifestFormat], [RolloutHash] and [HexDecode] the
    libraries that read, sign and hash a manifest, [NatPmpProtocol] the
    messages of NAT-PMP, [DrainPolicy] the engine's jitter and cooldown,
    [UpdaterPolicy] a directory's generation and the time a node is kept away
    from.  So are the interfaces
    between the components: [OwnerResolver] (the host's resolver, for the
    router), [RouteTable] (the table, for the controller, which [AppRoutes]
    implements with the real one), [RouteSessions] (what starts sessions),
    [PlanRules] (each client's rules, for the planner), [Descriptors] (what is
    read of the signed descriptors).

    ** What the theorems show

    - No leak of the routed apps: a packet of a program that is due a route is
      never sent by the main path, for the router over any history of packets,
      policies, lookups and clocks ([RouterSpec.routed_app_never_leaks]), and for
      the table and the controller taking turns on it
      ([AppRoutes.planned_apps_never_leak]).  What is assumed of the host is
      what the resolver's trait documents, [RouterWorld.HostView]: it answers
      from the view of its last refresh, which lists the sockets as they were
      when that refresh began to read, and is empty after one that failed.
      What is assumed of the program is [RouterWorld.AppFlow]: from some instant
      on its process holds the flow's socket, keeps its pid and runs it, and the
      tables can be read; views taken before may say anything.  A flow that is
      not listed goes by main, as the code says
      ([RouterSpec.unlisted_flow_takes_main]).
    - The kill switch: in every reachable state of the machine the policy in
      force is the one that state calls for while it dials or is connected, and
      what was last asked of the firewall, in force if it was granted, while it
      blocks or is disconnected ([TunnelSpec.kill_switch]), a tunnel
      is dialed behind its firewall ([TunnelSpec.dials_behind_firewall]), and
      only disconnecting lifts it ([TunnelSpec.reset_only_to_disconnect],
      [TunnelSpec.shutdown_follows_lockdown]).
    - No leak of the host: with the rules of those policies in the kernel, what
      an ordinary program sends in the full tunnel leaves by the ways its state
      allows and no other, for a blocked (the block granted), a connecting and a
      connected machine; in include-only mode so do the included apps, and the
      other programs lose their DNS only ([NoLeak]); every packet gets the verdict of a decision
      written as the policy reads ([FirewallSpec.output_filtered]); the excluded
      apps leave outside, the locked ones wait ([FirewallPath], [FirewallLock]).
    - The machine goes on: it disconnects when told to, gives up flapping, holds
      an offline tunnel for a bounded time, tells the state it is in, and says
      why it blocks ([TunnelSpec], [Refusals]).
    - No panic and no growth: every reachable router, table and controller keeps
      its invariant and its bounds, on the hosts whose app keys are total
      ([RouterSpec.router_never_panics], [DatapathSpec.table_never_panics],
      [FlowTable.flow_table_bounded]); no packet, datagram or kernel table
      makes a parser panic ([Flow.classify_total], [Nat.rewrite_total],
      [ProcEvents], [WinTables], [Pcblist]).  On macOS a program's path can make
      [macos_key] panic, and the router with it
      ([AppKey.macos_key_outermost_bundle], [RouterWitness.macos_uplink_panics]).
    - What a packet becomes: the translation touches the address, the checksums
      and the quoted packet only, keeps a right checksum right, and is undone on
      the way back ([Nat], [RouterSpec.reply_comes_back]); the packets built
      toward an app are accepted by its stack ([Reset]).
    - What a policy change does to each flow, what an eviction forgets, when a
      flow expires, which app an executable is ([RouterSpec], [FlowTable],
      [AppKey], [Owner]).
    - The choice of relays: a circuit picked is admissible
      ([SelectionRun.select_admissible]), a refusal never moves the exit, the
      choice settles ([SelectionRun]); the circuit the tunnel is dialed with is
      one that some pass of the updater picked so, and is kept as it is when a
      pass finds no candidate ([UpdaterRun.dialed_circuit_admitted]); the desktop plan serves every
      app it can and is published once ([DesktopSpec]); the plan serves every
      app, by circuits that admit its choice, and does not move when planned
      again ([RoutePlan]); the controller follows it without cutting a session
      it keeps, names every relay to the firewall before it is dialed, hears no
      replaced session, and ends blocked ([ControllerRun]).
    - The settings: the apps' lists obey their precedence ([AppRouting]), the
      local networks accepted stay apart from the prefixes that embed IPv4 and
      within the widths allowed, and a list refused names its first offence
      ([Lan]).
    - The updates: all that is installed is the file of a newer release that a
      trusted manifest offered to this client, with the manifest's hash, and no
      path is told under another version ([VersionRun.installs_only_offered_upgrades]);
      manifests never roll back, every request for the version is answered
      ([VersionRun]); what a manifest offers, and who must update ([UpdateSpec]);
      root only runs a verified package, whose path, a UTF-8 one, the shell reads
      as it is, and one at a time where requests do not overlap ([UpgradeSpec]); a version is read back as printed
      ([Version]).
    - The guards of a session: a migration is dialed under a firewall that names
      its relay and no stranger ([PeerFence]), and commits only when the exit it
      goes to granted the ports the user pinned, over datagrams that are well
      formed and read back ([Preflight]); a drain moves the session off its own
      exit and does not storm, a lost session is reported when it has not come
      back in time, and leg counts are published once confirmed ([Guards]); a
      carrier is judged on evidence within a window ([EgressGuard]), and a
      verdict on a network is such a judgement less than a week old; a reclaim
      takes an unproven bind back, not one that black-holes ([Verdicts]).

    ** Bounds and fuel

    The parsers that skip through a buffer recurse on fuel, the length of the
    buffer: each turn takes at least one byte, and the fuel lemmas
    ([parse_loop_fuel], [find_loop_fuel], [export_loop_fuel]) show that more
    would change nothing; [Decimal.decimal] has a digit per bit and
    [Upgrade.trim_start] a turn per byte, which bound theirs the same way
    ([Decimal.decimal_spec]).  An upgrade request takes seven steps at most
    ([UpgradeSpec.one_upgrade_at_a_time] says it has ended by then), and the
    pre-flight ten awaits a rule ([Preflight.swap_keeps_pinned_ports]); a carrier's
    guard ends by its twelfth round, its window over ([EgressGuard.PHASE_ROUNDS]).  Every other
    recursion is structural.  A [usize] has 64 bits and never overflows where it
    adds lengths of buffers in memory; 32 and 16 bit fields wrap as the code
    makes them wrap; counters and generations (u64) and clocks are unbounded
    integers.  A rollout is an [f32] between 0 and 1, exact in units of 2^-149.

    ** Not modelled

    - The runtime: a method under a lock is one step, an async function runs
      from await to await; the interleavings of [AppRoutes] and of [Upgrade] are
      those of such steps.  Wake-ups, worker threads and sockets are not
      modelled, the calls they make are.
    - The system calls: of owner/linux.rs, macos.rs and windows.rs, whose results
      are the [OwnerResolver], the buffers, or the function [refresh] reads from;
      of the firewall (the netlink batch, the sysctls, the removal of old
      tables), of the DNS and route back ends (talpid-dns, talpid-routing), of
      the upgrade (processes, files), whose answers are parameters.
    - The other platforms' firewalls and drivers (Windows, macOS, split
      tunneling), and what the state machine does only there.
    - The tunnel engine ([src/talpid-warren-tunnel/src/lib.rs], the egress probe,
      the migration watchdog, the port mappings once reserved) and
      the route sessions ([warren-app-routes/src/session.rs]), QUIC tunnels of
      libraries outside the repository; the tokens they spend (tokens.rs), the
      admission of the exit (admission.rs), the main tunnel's anchor
      (main_anchor.rs).
    - The fetching, verification and caching of the relay directory; the
      daemon's own loop and its settings ([mullvad-daemon/src/lib.rs]), the
      management interface, the account and API clients, the forum and the
      standing of an account.
    - The graphical interfaces, the command line, the glue of Android and iOS,
      the installers, the tests and the vendored code. *)

From stdpp Require Export base gmap strings list fin_maps sorting.
From Stdlib Require Export ZArith Lia.

#[export] Set Default Goal Selector "!".
Open Scope Z_scope.

(** ** Outcomes of Rust code

    A Rust function of type [Result<A, E>] returns [Ok] or [Err], and any
    function may panic (an index or a slice out of range, an [expect]).  The
    three cases are kept apart, so that "never panics" is a statement. *)
Inductive comp (E A : Type) : Type :=
| Ok (a : A)
| Err (e : E)
| Panic.
Arguments Ok {E A} a.
Arguments Err {E A} e.
Arguments Panic {E A}.

#[export] Instance comp_ret E : MRet (comp E) := fun A a => Ok a.
#[export] Instance comp_bind E : MBind (comp E) := fun A B f m =>
  match m with Ok a => f a | Err e => Err e | Panic => Panic end.

(** [opt.ok_or(e)?] *)
Definition ok_or {E A} (o : option A) (e : E) : comp E A :=
  match o with Some a => Ok a | None => Err e end.

(** [res.map_err(f)], the conversion [?] applies to an error. *)
Definition map_err {E F A} (f : E -> F) (m : comp E A) : comp F A :=
  match m with Ok a => Ok a | Err e => Err (f e) | Panic => Panic end.

(** The computation returns: it does not panic. *)
Definition no_panic {E A} (m : comp E A) : Prop :=
  match m with Panic => False | _ => True end.

(** The weakest precondition of a computation that must not panic: [Q] holds of what
    it returns, errors satisfying [QE]. *)
Definition yields {E A} (m : comp E A) (QE : E -> Prop) (Q : A -> Prop) : Prop :=
  match m with Ok a => Q a | Err e => QE e | Panic => False end.

Section Comp.
Context {E : Type}.

Lemma bind_ok {A B} (m : comp E A) (f : A -> comp E B) b :
  (a ← m; f a) = Ok b <-> exists a, m = Ok a /\ f a = Ok b.
Proof.
  destruct m; simpl; split; try (intros [a' [H1 H2]]; congruence); try congruence.
  eauto.
Qed.

Lemma Ok_inj {A} (a b : A) : @Ok E A a = Ok b -> a = b.
Proof. by injection 1. Qed.

(** By rewriting, not by conversion: the kernel compares two chains of binds badly. *)
Lemma bind_Ok {A B} (a : A) (f : A -> comp E B) : (Ok a ≫= f) = f a.
Proof. done. Qed.

Lemma yields_bind {A B} (m : comp E A) (f : A -> comp E B) QE Q :
  yields m QE (fun a => yields (f a) QE Q) -> yields (a ← m; f a) QE Q.
Proof. by destruct m. Qed.

Lemma yields_mono {A} (m : comp E A) (QE QE' : E -> Prop) (Q Q' : A -> Prop) :
  yields m QE Q -> (forall e, QE e -> QE' e) -> (forall a, Q a -> Q' a) -> yields m QE' Q'.
Proof. destruct m; simpl; eauto. Qed.

Lemma yields_and {A} (m : comp E A) QE (P Q : A -> Prop) :
  yields m QE P -> yields m QE Q -> yields m QE (fun a => P a /\ Q a).
Proof. by destruct m. Qed.

Lemma yields_ok {A} (m : comp E A) QE (Q : A -> Prop) a :
  yields m QE Q -> m = Ok a -> Q a.
Proof. intros H ->. exact H. Qed.

Lemma yields_no_panic {A} (m : comp E A) QE Q : yields m QE Q -> no_panic m.
Proof. by destruct m. Qed.
End Comp.

(** ** Bytes and slices

    A byte is a [Z] between 0 and 255, a buffer (and a UTF-8 string) a list of
    them, an offset (a [usize]) a [Z]. *)
Abbreviation bytes := (list Z) (only parsing).
Abbreviation str := (list Z) (only parsing).

(** A literal's bytes. *)
Definition lit (s : string) : str :=
  (fun c => Z.of_N (Ascii.N_of_ascii c)) <$> String.list_ascii_of_string s.
#[global] Arguments lit : simpl never.

Definition is_byte (b : Z) : Prop := 0 <= b < 256.
Definition bytes_ok (l : bytes) : Prop := Forall is_byte l.

Definition zlen {A} (l : list A) : Z := Z.of_nat (length l).

(** [l.get(i)] and [l[i]]. *)
Definition get {A} (l : list A) (i : Z) : option A :=
  if 0 <=? i then l !! Z.to_nat i else None.
Definition index {E} (l : bytes) (i : Z) : comp E Z :=
  match get l i with Some b => Ok b | None => Panic end.

(** The bytes of [l] from [a] up to [b], in range or not. *)
Definition sub (l : bytes) (a b : Z) : bytes :=
  take (Z.to_nat (b - a)) (drop (Z.to_nat a) l).

(** [l.get(a..b)] and [&l[a..b]]. *)
Definition get_slice (l : bytes) (a b : Z) : option bytes :=
  if (0 <=? a) && (a <=? b) && (b <=? zlen l) then Some (sub l a b) else None.
Definition slice {E} (l : bytes) (a b : Z) : comp E bytes :=
  match get_slice l a b with Some s => Ok s | None => Panic end.

(** [l[a..a + new.len()].copy_from_slice(new)]. *)
Definition overwrite (l : bytes) (a : Z) (new : bytes) : bytes :=
  take (Z.to_nat a) l ++ new ++ drop (Z.to_nat (a + zlen new)) l.
Definition copy_at {E} (l : bytes) (a : Z) (new : bytes) : comp E bytes :=
  if (0 <=? a) && (a + zlen new <=? zlen l) then Ok (overwrite l a new) else Panic.

(** The byte at [i], 0 out of range: what the proofs reason about once an
    access is known to be in range. *)
Definition byte_at (l : bytes) (i : Z) : Z := default 0 (get l i).

(** [u16::from_be_bytes], [u32::from_be_bytes] and their converses. *)
Definition u16_be (hi lo : Z) : Z := hi * 256 + lo.
Definition u32_be (a b c d : Z) : Z := ((a * 256 + b) * 256 + c) * 256 + d.
Definition be16 (v : Z) : bytes := [v / 256 mod 256; v mod 256].
Definition be32 (v : Z) : bytes :=
  [v / 16777216 mod 256; v / 65536 mod 256; v / 256 mod 256; v mod 256].

Definition is_u16 (v : Z) : Prop := 0 <= v < 65536.
Definition is_u32 (v : Z) : Prop := 0 <= v < 4294967296.

(** Wrapping arithmetic on 32 bits, and [u32::cast_signed]. *)
Definition wrap32 (v : Z) : Z := v mod 4294967296.
Definition cast_signed32 (v : Z) : Z := if v <? 2147483648 then v else v - 4294967296.

(** ** Time

    An [Instant] is a number of nanoseconds on the monotonic clock, a
    [Duration] a number of nanoseconds. *)
Definition secs (n : Z) : Z := n * 1000000000.
Definition saturating_duration_since (later earlier : Z) : Z := Z.max 0 (later - earlier).

(** A [tokio::sync::watch] sender: the value published, and how many times one was. *)
Record Watch (A : Type) : Type := mkWatch { w_value : A; w_sent : Z }.
Arguments mkWatch {A}.
Arguments w_value {A}.
Arguments w_sent {A}.

(** [send_if_modified], the closure replacing the value by [new] when it [changed]. *)
Definition send_if_modified {A : Type} (w : Watch A) (changed : A -> bool) (new : A) : Watch A :=
  if changed (w_value w) then mkWatch new (w_sent w + 1) else w.

Section Bytes.
Implicit Types (l new : bytes) (a b i : Z).

Lemma zlen_nonneg {A} (l : list A) : 0 <= zlen l.
Proof. unfold zlen. lia. Qed.

Lemma zlen_app {A} (l1 l2 : list A) : zlen (l1 ++ l2) = zlen l1 + zlen l2.
Proof. unfold zlen. rewrite length_app. lia. Qed.

Lemma zlen_cons {A} (x : A) (l : list A) : zlen (x :: l) = 1 + zlen l.
Proof. unfold zlen. simpl. lia. Qed.

Lemma index_ok {E} l i : 0 <= i < zlen l -> @index E l i = Ok (byte_at l i).
Proof.
  intros H. unfold index, byte_at, get, zlen in *.
  destruct (Z.leb_spec 0 i); [|lia].
  destruct (lookup_lt_is_Some_2 l (Z.to_nat i)) as [x Hx]; [lia|]. by rewrite Hx.
Qed.

Lemma get_slice_Some l a b s :
  get_slice l a b = Some s <-> 0 <= a <= b /\ b <= zlen l /\ s = sub l a b.
Proof.
  unfold get_slice.
  destruct (Z.leb_spec 0 a), (Z.leb_spec a b), (Z.leb_spec b (zlen l)); simpl;
    (split; [intros [= <-]|intros (?&?&->)]); first [done | lia].
Qed.

Lemma get_slice_ok l a b : 0 <= a <= b -> b <= zlen l -> get_slice l a b = Some (sub l a b).
Proof. intros. by apply get_slice_Some. Qed.

Lemma slice_ok {E} l a b : 0 <= a <= b -> b <= zlen l -> @slice E l a b = Ok (sub l a b).
Proof. intros. unfold slice. by rewrite get_slice_ok. Qed.

Lemma copy_at_ok {E} l a new :
  0 <= a -> a + zlen new <= zlen l -> @copy_at E l a new = Ok (overwrite l a new).
Proof.
  intros. unfold copy_at. destruct (Z.leb_spec 0 a); [|lia].
  destruct (Z.leb_spec (a + zlen new) (zlen l)); [done|lia].
Qed.

Lemma zlen_sub l a b : 0 <= a <= b -> b <= zlen l -> zlen (sub l a b) = b - a.
Proof. intros. unfold sub, zlen in *. rewrite length_take, length_drop. lia. Qed.

Lemma zlen_overwrite l a new :
  0 <= a -> a + zlen new <= zlen l -> zlen (overwrite l a new) = zlen l.
Proof.
  intros. unfold overwrite, zlen in *.
  rewrite !length_app, length_take, length_drop. lia.
Qed.

Lemma byte_at_sub l a b i :
  0 <= a -> 0 <= i < b - a -> byte_at (sub l a b) i = byte_at l (a + i).
Proof.
  intros. unfold byte_at, get, sub.
  destruct (Z.leb_spec 0 i); [|lia]. destruct (Z.leb_spec 0 (a + i)); [|lia].
  rewrite lookup_take_lt by lia. rewrite lookup_drop.
  by replace (Z.to_nat a + Z.to_nat i)%nat with (Z.to_nat (a + i)) by lia.
Qed.

Lemma byte_at_overwrite l a new i :
  0 <= a -> a + zlen new <= zlen l -> 0 <= i ->
  byte_at (overwrite l a new) i =
    if (a <=? i) && (i <? a + zlen new) then byte_at new (i - a) else byte_at l i.
Proof.
  intros. unfold byte_at, get, overwrite, zlen in *.
  destruct (Z.leb_spec 0 i); [|lia].
  destruct (Z.leb_spec a i) as [Hai|Hai].
  2: { simpl. rewrite lookup_app_l by (rewrite length_take; lia).
       by rewrite lookup_take_lt by lia. }
  rewrite lookup_app_r by (rewrite length_take; lia). rewrite length_take.
  destruct (Z.ltb_spec i (a + Z.of_nat (length new))) as [Hn|Hn]; simpl.
  - destruct (Z.leb_spec 0 (i - a)); [|lia].
    rewrite lookup_app_l by lia. do 2 f_equal. lia.
  - rewrite lookup_app_r by lia. rewrite lookup_drop. do 2 f_equal. lia.
Qed.

Lemma byte_at_range l i : bytes_ok l -> is_byte (byte_at l i).
Proof.
  intros H. unfold byte_at, get. destruct (0 <=? i); simpl; [|unfold is_byte; lia].
  destruct (l !! Z.to_nat i) eqn:E; simpl; [|unfold is_byte; lia].
  by eapply Forall_lookup_1 in E.
Qed.

Lemma byte_at_out l i : zlen l <= i -> byte_at l i = 0.
Proof.
  intros. unfold byte_at, get, zlen in *. destruct (0 <=? i); [|done].
  by rewrite lookup_ge_None_2 by lia.
Qed.

Lemma bytes_ok_sub l a b : bytes_ok l -> bytes_ok (sub l a b).
Proof. intros. by apply Forall_take, Forall_drop. Qed.

Lemma bytes_ok_overwrite l a new : bytes_ok l -> bytes_ok new -> bytes_ok (overwrite l a new).
Proof.
  intros. unfold overwrite.
  apply Forall_app; split; [by apply Forall_take|].
  apply Forall_app; split; [done|by apply Forall_drop].
Qed.

(** Two buffers of one length that agree at every offset are equal. *)
Lemma bytes_ext l l' :
  zlen l = zlen l' -> (forall i, 0 <= i < zlen l -> byte_at l i = byte_at l' i) -> l = l'.
Proof.
  intros Hlen Hi. apply list_eq_same_length with (length l); [unfold zlen in *; lia|done|].
  intros i x y Hb Hx Hy. specialize (Hi (Z.of_nat i)). unfold byte_at, get, zlen in Hi.
  destruct (Z.leb_spec 0 (Z.of_nat i)); [|lia]. rewrite Nat2Z.id, Hx, Hy in Hi.
  apply Hi. lia.
Qed.

Lemma get_slice_ext l l' a b :
  zlen l = zlen l' -> (forall i, a <= i < b -> byte_at l i = byte_at l' i) ->
  get_slice l a b = get_slice l' a b.
Proof.
  intros Hlen Hi. unfold get_slice. rewrite <- Hlen.
  destruct (Z.leb_spec 0 a), (Z.leb_spec a b), (Z.leb_spec b (zlen l)); simpl; try done.
  f_equal. apply bytes_ext; [rewrite !zlen_sub by lia; lia|].
  intros i. rewrite zlen_sub by lia. intros. rewrite !byte_at_sub by lia. apply Hi. lia.
Qed.

Lemma index_ext {E} l l' i :
  zlen l = zlen l' -> byte_at l i = byte_at l' i -> @index E l i = index l' i.
Proof.
  intros Hlen Hi. destruct (decide (0 <= i < zlen l)).
  - rewrite !index_ok by lia. congruence.
  - unfold index, get, zlen in *. destruct (Z.leb_spec 0 i); [|done].
    by rewrite !lookup_ge_None_2 by lia.
Qed.

Lemma sub_sub l x y a b :
  0 <= x -> 0 <= a -> b <= y - x -> sub (sub l x y) a b = sub l (x + a) (x + b).
Proof.
  intros. unfold sub. rewrite skipn_firstn_comm, take_take, drop_drop.
  f_equal; [lia|]. f_equal. lia.
Qed.

Lemma get_0 l : get l 0 = if 0 <? zlen l then Some (byte_at l 0) else None.
Proof. by destruct l. Qed.

Lemma be16_ok v : bytes_ok (be16 v).
Proof. repeat constructor; by apply Z.mod_pos_bound. Qed.

Lemma be32_ok v : bytes_ok (be32 v).
Proof. repeat constructor; by apply Z.mod_pos_bound. Qed.

Lemma u16_be_be16 v : is_u16 v -> u16_be (v / 256 mod 256) (v mod 256) = v.
Proof. unfold u16_be, is_u16. intros. Z.div_mod_to_equations. lia. Qed.

Lemma u32_be_be32 v :
  is_u32 v ->
  u32_be (v / 16777216 mod 256) (v / 65536 mod 256) (v / 256 mod 256) (v mod 256) = v.
Proof. unfold u32_be, is_u32. intros. Z.div_mod_to_equations. lia. Qed.

Lemma u16_be_range hi lo : is_byte hi -> is_byte lo -> is_u16 (u16_be hi lo).
Proof. unfold is_byte, is_u16, u16_be. lia. Qed.

Lemma land_low b k : 0 <= k -> Z.land b (Z.ones k) = b mod 2 ^ k.
Proof. apply Z.land_ones. Qed.
End Bytes.

Create HintDb packet.
#[export] Hint Resolve bytes_ok_sub bytes_ok_overwrite byte_at_range be16_ok be32_ok : packet.

(** Steps over an access known to be in range. *)
Ltac in_range :=
  repeat first
    [ rewrite index_ok by (unfold zlen in *; simpl in *; lia)
    | rewrite slice_ok by lia
    | rewrite copy_at_ok by lia
    | progress cbn [mbind comp_bind ok_or] ].

(** Turns the boolean comparisons of the code into propositions. *)
Ltac zbool :=
  repeat match goal with
  | H : context [_ && _] |- _ => rewrite andb_true_iff in H || rewrite andb_false_iff in H
  | H : context [_ || _] |- _ => rewrite orb_true_iff in H || rewrite orb_false_iff in H
  | H : negb _ = true |- _ => apply negb_true_iff in H
  | H : negb _ = false |- _ => apply negb_false_iff in H
  | H : (_ =? _) = true |- _ => apply Z.eqb_eq in H
  | H : (_ =? _) = false |- _ => apply Z.eqb_neq in H
  | H : (_ <? _) = true |- _ => apply Z.ltb_lt in H
  | H : (_ <? _) = false |- _ => apply Z.ltb_ge in H
  | H : (_ <=? _) = true |- _ => apply Z.leb_le in H
  | H : (_ <=? _) = false |- _ => apply Z.leb_gt in H
  end.

(** ** Hash maps

    A [HashMap] is a [gmap].  Its iteration order is not specified by the
    standard library, so everything that depends on it is generic in an order,
    a permutation of the entries. *)
Class HashOrder : Type := {
  hash_iter : forall {K A : Type} `{Countable K}, gmap K A -> list (K * A);
  hash_iter_perm : forall {K A : Type} `{Countable K} (m : gmap K A),
    hash_iter m ≡ₚ map_to_list m
}.

(** An order to compute with. *)
Definition default_order : HashOrder :=
  {| hash_iter := fun K A _ _ m => map_to_list m; hash_iter_perm := fun _ _ _ _ _ => reflexivity _ |}.

(** [m.len()]. *)
Definition zsize {K A} `{Countable K} (m : gmap K A) : Z := Z.of_nat (size m).

Section HashOrder.
Context {K A : Type} `{Countable K} `{!HashOrder}.
Implicit Types (m : gmap K A) (l : list (K * A)).

Lemma hash_iter_NoDup m : NoDup (hash_iter m).*1.
Proof. rewrite hash_iter_perm. apply NoDup_fst_map_to_list. Qed.

Lemma elem_of_hash_iter m k a : (k, a) ∈ hash_iter m <-> m !! k = Some a.
Proof. rewrite hash_iter_perm. apply elem_of_map_to_list. Qed.

Lemma length_hash_iter m : length (hash_iter m) = size m.
Proof. rewrite hash_iter_perm. apply length_map_to_list. Qed.

(** A [retain] keeps a sublist of the entries visited. *)
Lemma retained_lookup m l k a :
  l.*1 `sublist_of` (hash_iter m).*1 ->
  (list_to_map l : gmap K A) !! k = Some a <-> (k, a) ∈ l.
Proof.
  intros Hs. assert (NoDup l.*1).
  { eapply sublist_NoDup; [apply hash_iter_NoDup|done]. }
  split; [apply elem_of_list_to_map_2|by apply elem_of_list_to_map_1].
Qed.

Lemma retained_size m l :
  l.*1 `sublist_of` (hash_iter m).*1 -> size (list_to_map l : gmap K A) = length l.
Proof.
  intros Hs. rewrite <- length_map_to_list, map_to_list_to_map; [done|].
  eapply sublist_NoDup; [apply hash_iter_NoDup|done].
Qed.
End HashOrder.

Lemma sorted_nth_count (l : list Z) i c :
  Sorted Z.le l -> l !! i = Some c ->
  (length (filter (fun x => x < c)%Z l) <= i /\ i < length (filter (fun x => x <= c)%Z l))%nat.
Proof.
  intros Hs%Sorted_StronglySorted Hi; [|intros ???; lia].
  revert i Hi. induction l as [|x l IH]; intros i Hi; [done|].
  apply StronglySorted_inv in Hs as [Hs Hx]. destruct i as [|i]; simpl in Hi.
  - injection Hi as ->. rewrite filter_cons_False, filter_cons_True by lia. simpl.
    destruct (filter (fun x => x < c)%Z l) as [|y l'] eqn:E; [simpl; lia|].
    assert (y ∈ filter (fun x => x < c)%Z l) as Hy by (rewrite E; left).
    apply list_elem_of_filter in Hy as [? Hy]. rewrite Forall_forall in Hx.
    specialize (Hx y Hy). lia.
  - destruct (IH Hs i Hi) as [H1 H2].
    assert (x <= c)%Z.
    { rewrite Forall_forall in Hx. apply Hx. by eapply list_elem_of_lookup_2. }
    rewrite (filter_cons_True (fun x => x <= c)%Z) by lia.
    destruct (decide (x < c)%Z).
    + rewrite filter_cons_True by done. simpl. lia.
    + rewrite filter_cons_False by done. simpl. lia.
Qed.
