(* ===== verification/BTree.v ===== *)
(** * Ordered maps: what the code uses of [std::collections::BTreeMap]

    A [BTreeMap] is a [gmap] (a [BTreeSet] a [gset]) whose keys have a total
    order, the one [derive(Ord)] gives.  What depends on the order goes through
    [btree_iter], the entries in increasing order of their keys. *)

From S2P Require Import Prelude.
Open Scope Z_scope.

Class RustOrd (A : Type) `{EqDecision A} : Type := {
  ord_le : A -> A -> bool;
  ord_total : forall a b, ord_le a b = true \/ ord_le b a = true;
  ord_trans : forall a b c, ord_le a b = true -> ord_le b c = true -> ord_le a c = true;
  ord_antisym : forall a b, ord_le a b = true -> ord_le b a = true -> a = b
}.

(** Strictly before. *)
Definition ord_lt {A : Type} `{RustOrd A} (a b : A) : Prop := ord_le a b = true /\ a <> b.

Lemma ord_refl {A : Type} `{RustOrd A} (a : A) : ord_le a a = true.
Proof. by destruct (ord_total a a). Qed.

(** ** The orders of the keys *)

Definition Z_ord : RustOrd Z.
Proof. refine {| ord_le := Z.leb |}; intros; rewrite ?Z.leb_le in *; lia. Defined.
#[export] Existing Instance Z_ord.

Section Orders.
Context {A B : Type} `{RustOrd A} `{RustOrd B}.

(** Lexicographic, as [String], [Vec] and the fields of a struct. *)
Fixpoint list_le (l l' : list A) : bool :=
  match l, l' with
  | [], _ => true
  | _ :: _, [] => false
  | x :: l, y :: l' => if bool_decide (x = y) then list_le l l' else ord_le x y
  end.

Definition pair_le (p q : A * B) : bool :=
  if bool_decide (p.1 = q.1) then ord_le p.2 q.2 else ord_le p.1 q.1.

(** [None] comes before every [Some]. *)
Definition option_le (o o' : option A) : bool :=
  match o, o' with
  | None, _ => true
  | Some _, None => false
  | Some x, Some y => ord_le x y
  end.

Definition list_ord : RustOrd (list A).
Proof.
  refine {| ord_le := list_le |}.
  - intros a. induction a as [|x a IH]; intros [|y b]; simpl; auto.
    destruct (decide (x = y)) as [->|Hn].
    + rewrite !bool_decide_eq_true_2 by done. apply IH.
    + rewrite !bool_decide_eq_false_2 by congruence. apply ord_total.
  - intros a. induction a as [|x a IH]; intros [|y b] [|z c]; simpl; try done.
    repeat case_bool_decide; subst; try done; [by eauto| |by apply ord_trans].
    intros Hx Hy. match goal with H : ?u <> ?v |- _ => destruct H; by apply ord_antisym end.
  - intros a. induction a as [|x a IH]; intros [|y b]; simpl; try done.
    repeat case_bool_decide; subst; try done; intros Hx Hy.
    + f_equal. by apply IH.
    + by assert (x = y) by (by apply ord_antisym).
Defined.

Definition pair_ord : RustOrd (A * B).
Proof.
  refine {| ord_le := pair_le |}; unfold pair_le.
  - intros [a1 a2] [b1 b2]; simpl. repeat case_bool_decide; subst; try done; apply ord_total.
  - intros [a1 a2] [b1 b2] [c1 c2]; simpl.
    repeat case_bool_decide; subst; try done; [by apply ord_trans| |by apply ord_trans].
    intros Hx Hy. match goal with H : ?u <> ?v |- _ => destruct H; by apply ord_antisym end.
  - intros [a1 a2] [b1 b2]; simpl. repeat case_bool_decide; subst; try done; intros Hx Hy.
    + f_equal. by apply ord_antisym.
    + by assert (a1 = b1) by (by apply ord_antisym).
Defined.

Definition option_ord : RustOrd (option A).
Proof.
  refine {| ord_le := option_le |}.
  - intros [a|] [b|]; simpl; auto. apply ord_total.
  - intros [a|] [b|] [c|]; simpl; try done. apply ord_trans.
  - intros [a|] [b|]; simpl; try done. intros. f_equal. by apply ord_antisym.
Defined.
End Orders.
#[export] Existing Instances list_ord pair_ord option_ord.

(** An order carried along an injection. *)
Definition via_ord {A B : Type} `{EqDecision A} `{RustOrd B} (f : A -> B) (Hf : Inj (=) (=) f) : RustOrd A.
Proof.
  refine {| ord_le := fun a b => ord_le (f a) (f b) |}.
  - intros. apply ord_total.
  - intros a b c. apply ord_trans.
  - intros a b Ha Hb. apply Hf. by apply ord_antisym.
Defined.

(** ** Iteration *)

Section BTree.
Context {K : Type} `{RustOrd K} `{!Countable K} {A : Type}.
Implicit Types (m : gmap K A) (s : gset K) (k : K).

Definition entry_le (p q : K * A) : Prop := ord_le p.1 q.1 = true.
Definition key_le (k k' : K) : Prop := ord_le k k' = true.

#[export] Instance entry_le_dec : RelDecision entry_le.
Proof. intros p q. unfold entry_le. apply _. Defined.
#[export] Instance key_le_dec : RelDecision key_le.
Proof. intros p q. unfold key_le. apply _. Defined.

(** [m.iter()], [m.into_iter()] and [s.iter()]. *)
Definition btree_iter m : list (K * A) := merge_sort entry_le (map_to_list m).
Definition btree_elems s : list K := merge_sort key_le (elements s).

(** [m.entry(k).or_default().push(a)] on a map of [Vec]s. *)
Definition entry_push (g : gmap K (list A)) k (a : A) : gmap K (list A) :=
  <[k := default [] (g !! k) ++ [a]]> g.

Instance entry_le_total : Total entry_le.
Proof. intros p q. apply ord_total. Qed.
Instance entry_le_trans : Transitive entry_le.
Proof. intros p q r. apply ord_trans. Qed.
Instance key_le_total : Total key_le.
Proof. intros p q. apply ord_total. Qed.
Instance key_le_trans : Transitive key_le.
Proof. intros p q r. apply ord_trans. Qed.

Lemma btree_iter_perm m : btree_iter m ≡ₚ map_to_list m.
Proof. apply merge_sort_Permutation. Qed.

Lemma btree_elems_perm s : btree_elems s ≡ₚ elements s.
Proof. apply merge_sort_Permutation. Qed.

Lemma elem_of_btree_iter m k a : (k, a) ∈ btree_iter m <-> m !! k = Some a.
Proof. rewrite btree_iter_perm. apply elem_of_map_to_list. Qed.

Lemma elem_of_btree_elems s k : k ∈ btree_elems s <-> k ∈ s.
Proof. rewrite btree_elems_perm. apply elem_of_elements. Qed.

Lemma btree_iter_NoDup m : NoDup (btree_iter m).*1.
Proof. rewrite btree_iter_perm. apply NoDup_fst_map_to_list. Qed.

Lemma sorted_strictly (l : list K) :
  StronglySorted key_le l -> NoDup l -> StronglySorted ord_lt l.
Proof.
  induction l as [|k l IH]; [constructor|].
  intros [Hs Hk]%StronglySorted_inv [Hn Hd]%NoDup_cons. constructor; [by auto|].
  apply Forall_forall. intros k' Hk'. split; [by eapply Forall_forall in Hk|].
  by intros ->.
Qed.

(** The keys come in strictly increasing order. *)
Lemma btree_iter_sorted m : StronglySorted ord_lt (btree_iter m).*1.
Proof.
  apply sorted_strictly; [|apply btree_iter_NoDup].
  assert (StronglySorted entry_le (btree_iter m)) as Hs
    by apply (StronglySorted_merge_sort entry_le _).
  induction Hs as [|p l Hs IH Hp]; simpl; constructor; [done|].
  apply Forall_fmap. eapply Forall_impl; [exact Hp|]. done.
Qed.

(** [pairs] grouped by their key: the values of one key in their order. *)
Definition grouped (pairs : list (K * A)) : gmap K (list A) :=
  foldl (fun g p => entry_push g p.1 p.2) ∅ pairs.

Definition values_of k (pairs : list (K * A)) : list A := (filter (fun p => p.1 = k) pairs).*2.

Lemma grouped_snoc pairs p : grouped (pairs ++ [p]) = entry_push (grouped pairs) p.1 p.2.
Proof. unfold grouped. by rewrite foldl_app. Qed.

Lemma grouped_lookup pairs k :
  grouped pairs !! k = match values_of k pairs with [] => None | l => Some l end.
Proof.
  induction pairs as [|p pairs IH] using rev_ind; [apply lookup_empty|].
  rewrite grouped_snoc. unfold values_of, entry_push in *. rewrite filter_app, fmap_app.
  rewrite filter_cons. case_decide as Hk; simpl.
  - subst k. rewrite lookup_insert_eq, IH. destruct (_.*2) as [|x l]; done.
  - rewrite lookup_insert_ne by done. by rewrite app_nil_r, IH.
Qed.

Lemma elem_of_values_of k pairs a : a ∈ values_of k pairs <-> (k, a) ∈ pairs.
Proof.
  unfold values_of. rewrite list_elem_of_fmap. setoid_rewrite list_elem_of_filter.
  split; [|by exists (k, a)]. intros ([k' a'] & -> & <- & Hin). done.
Qed.

Lemma grouped_Some pairs k l :
  grouped pairs !! k = Some l <-> l <> [] /\ l = values_of k pairs.
Proof.
  rewrite grouped_lookup. split.
  - destruct (values_of k pairs); intros [= <-]. done.
  - intros [Hne ->]. by destruct (values_of k pairs).
Qed.
End BTree.
