(* ===== verification/Net.v ===== *)
(** * Addresses: what the code uses of [std::net]

    An address is its octets in network order; [ip_wf] says they are 4 or 16
    bytes.  The map keys built from them get their decidable equality and
    countability here. *)

From S2P Require Import Prelude.
Open Scope Z_scope.

Inductive IpAddr : Type :=
| V4 (octets : bytes)
| V6 (octets : bytes).

Record SocketAddr : Type := mkSocketAddr { ip : IpAddr; port : Z }.

Definition octets (a : IpAddr) : bytes := match a with V4 o | V6 o => o end.

Definition ip_wf (a : IpAddr) : Prop :=
  bytes_ok (octets a) /\ zlen (octets a) = match a with V4 _ => 4 | V6 _ => 16 end.

(** Two addresses of one IP version. *)
Definition same_family (a b : IpAddr) : bool :=
  match a, b with V4 _, V4 _ | V6 _, V6 _ => true | _, _ => false end.

(** [Ipv4Addr::to_ipv6_mapped().octets()]. *)
Definition to_ipv6_mapped (o : bytes) : bytes :=
  [0; 0; 0; 0; 0; 0; 0; 0; 0; 0; 255; 255] ++ o.

(** [IpAddr::to_canonical]: an IPv4-mapped IPv6 address is the IPv4 address. *)
Definition to_canonical (a : IpAddr) : IpAddr :=
  match a with
  | V4 o => V4 o
  | V6 o => if bool_decide (take 12 o = [0; 0; 0; 0; 0; 0; 0; 0; 0; 0; 255; 255])
            then V4 (drop 12 o) else V6 o
  end.

(** [IpAddr::is_unspecified]. *)
Definition is_unspecified (a : IpAddr) : bool := forallb (Z.eqb 0) (octets a).

#[export] Instance IpAddr_eq_dec : EqDecision IpAddr.
Proof. solve_decision. Defined.
#[export] Instance SocketAddr_eq_dec : EqDecision SocketAddr.
Proof. solve_decision. Defined.

#[export] Instance IpAddr_countable : Countable IpAddr.
Proof.
  apply (inj_countable'
    (fun a => match a with V4 o => inl o | V6 o => inr o end)
    (fun s => match s with inl o => V4 o | inr o => V6 o end)).
  by intros [].
Defined.
#[export] Instance SocketAddr_countable : Countable SocketAddr.
Proof.
  apply (inj_countable' (fun s => (ip s, port s)) (fun p => mkSocketAddr p.1 p.2)).
  by intros [].
Defined.

Lemma same_family_refl a : same_family a a = true.
Proof. by destruct a. Qed.

Lemma same_family_sym a b : same_family a b = true -> same_family b a = true.
Proof. by destruct a, b. Qed.

Lemma to_canonical_idemp a : ip_wf a -> to_canonical (to_canonical a) = to_canonical a.
Proof.
  intros [_ Hlen]. destruct a as [o|o]; simpl in *; [done|].
  case_bool_decide as H; simpl; [done|]. by rewrite bool_decide_eq_false_2.
Qed.

Lemma to_canonical_mapped o : to_canonical (V6 (to_ipv6_mapped o)) = V4 o.
Proof. done. Qed.
