(* ===== verification/Ip.v ===== *)
(** * Where the headers of a raw IP packet are (talpid-app-routing/src/ip.rs) *)

From S2P Require Import Prelude Net.
Open Scope Z_scope.

Definition PROTO_ICMP : Z := 1.
Definition PROTO_TCP : Z := 6.
Definition PROTO_UDP : Z := 17.
Definition PROTO_ICMPV6 : Z := 58.

Definition V6_HOP_BY_HOP : Z := 0.
Definition V6_ROUTING : Z := 43.
Definition V6_FRAGMENT : Z := 44.
Definition V6_AUTH : Z := 51.
Definition V6_DEST_OPTS : Z := 60.

Definition MAX_V6_EXTENSIONS : nat := 8.

Inductive PacketError : Type := Truncated | NotIp | Unsupported.

Inductive Family : Type := FamilyV4 | FamilyV6.

Record Fragment : Type := mkFragment { frag_id : Z; frag_protocol : Z; frag_first : bool }.

Record Layout : Type := mkLayout {
  family : Family;
  protocol : Z;
  l4_offset : Z;
  end_ : Z;
  fragment : option Fragment
}.

#[export] Instance PacketError_eq_dec : EqDecision PacketError.
Proof. solve_decision. Defined.
#[export] Instance Family_eq_dec : EqDecision Family.
Proof. solve_decision. Defined.
#[export] Instance Fragment_eq_dec : EqDecision Fragment.
Proof. solve_decision. Defined.

Definition has_transport (l : Layout) : bool :=
  match fragment l with None => true | Some f => frag_first f end.

Definition src_range (l : Layout) : Z * Z :=
  match family l with FamilyV4 => (12, 16) | FamilyV6 => (8, 24) end.

Definition dst_range (l : Layout) : Z * Z :=
  match family l with FamilyV4 => (16, 20) | FamilyV6 => (24, 40) end.

Definition read_addr {E} (f : Family) (b : bytes) : comp E IpAddr :=
  match f with
  | FamilyV4 =>
      b0 ← index b 0; b1 ← index b 1; b2 ← index b 2; b3 ← index b 3;
      Ok (V4 [b0; b1; b2; b3])
  | FamilyV6 => s ← slice b 0 16; Ok (V6 s)
  end.

Definition src {E} (l : Layout) (packet : bytes) : comp E IpAddr :=
  s ← slice packet (src_range l).1 (src_range l).2; read_addr (family l) s.

Definition dst {E} (l : Layout) (packet : bytes) : comp E IpAddr :=
  s ← slice packet (dst_range l).1 (dst_range l).2; read_addr (family l) s.

Definition locate_v4 (packet : bytes) (quoted : bool) : comp PacketError Layout :=
  if zlen packet <? 20 then Err Truncated else
  b0 ← index packet 0;
  let header_len := Z.land b0 15 * 4 in
  b2 ← index packet 2; b3 ← index packet 3;
  let total_len := u16_be b2 b3 in
  let total_len := if quoted then Z.min total_len (zlen packet) else total_len in
  if (header_len <? 20) || (total_len <? header_len) || (zlen packet <? total_len)
  then Err Truncated else
  b6 ← index packet 6; b7 ← index packet 7;
  let flags_offset := u16_be b6 b7 in
  let more_fragments := negb (Z.land flags_offset 8192 =? 0) in
  let offset := Z.land flags_offset 8191 in
  b4 ← index packet 4; b5 ← index packet 5; b9 ← index packet 9;
  let fragment :=
    if more_fragments || negb (offset =? 0)
    then Some (mkFragment (u16_be b4 b5) b9 (offset =? 0)) else None in
  Ok (mkLayout FamilyV4 b9 header_len total_len fragment).

(** The length of the extension header [next] at [offset], and the fragment
    seen so far. *)
Definition v6_header (packet : bytes) (next offset : Z) (fragment : option Fragment)
    : comp PacketError (Z * option Fragment) :=
  if (next =? V6_HOP_BY_HOP) || (next =? V6_ROUTING) || (next =? V6_DEST_OPTS) then
    header ← ok_or (get_slice packet offset (offset + 2)) Truncated;
    h1 ← index header 1;
    Ok ((h1 + 1) * 8, fragment)
  else if next =? V6_AUTH then
    header ← ok_or (get_slice packet offset (offset + 2)) Truncated;
    h1 ← index header 1;
    Ok ((h1 + 2) * 4, fragment)
  else if next =? V6_FRAGMENT then
    header ← ok_or (get_slice packet offset (offset + 8)) Truncated;
    h2 ← index header 2; h3 ← index header 3;
    let field := u16_be h2 h3 in
    h4 ← index header 4; h5 ← index header 5; h6 ← index header 6; h7 ← index header 7;
    h0 ← index header 0;
    Ok (8, Some (mkFragment (u32_be h4 h5 h6 h7) h0 (Z.shiftr field 3 =? 0)))
  else Err Unsupported.

(** The loop of [locate_v6], [n] headers at most. *)
Fixpoint v6_walk (n : nat) (packet : bytes) (end_ next offset : Z)
    (fragment : option Fragment) : comp PacketError Layout :=
  match n with
  | O => Err Unsupported
  | S n =>
      if (next =? PROTO_TCP) || (next =? PROTO_UDP) || (next =? PROTO_ICMPV6) then
        Ok (mkLayout FamilyV6 next offset end_ fragment)
      else
        hf ← v6_header packet next offset fragment;
        let '(header_len, fragment) := hf in
        if end_ <? offset + header_len then Err Truncated else
        next ← index packet offset;
        let offset := offset + header_len in
        match fragment with
        | Some f =>
            if negb (frag_first f)
            then Ok (mkLayout FamilyV6 next offset end_ fragment)
            else v6_walk n packet end_ next offset fragment
        | None => v6_walk n packet end_ next offset fragment
        end
  end.

Definition locate_v6 (packet : bytes) (quoted : bool) : comp PacketError Layout :=
  if zlen packet <? 40 then Err Truncated else
  b4 ← index packet 4; b5 ← index packet 5;
  let end_ := 40 + u16_be b4 b5 in
  let end_ := if quoted then Z.min end_ (zlen packet) else end_ in
  if zlen packet <? end_ then Err Truncated else
  next ← index packet 6;
  v6_walk (S MAX_V6_EXTENSIONS) packet end_ next 40 None.

Definition locate_with (packet : bytes) (quoted : bool) : comp PacketError Layout :=
  match get packet 0 with
  | Some byte =>
      let version := Z.shiftr byte 4 in
      if version =? 4 then locate_v4 packet quoted
      else if version =? 6 then locate_v6 packet quoted
      else Err NotIp
  | None => Err Truncated
  end.

Definition locate (packet : bytes) : comp PacketError Layout := locate_with packet false.
Definition locate_quoted (packet : bytes) : comp PacketError Layout := locate_with packet true.

(** ** What a located layout guarantees *)

Record layout_ok (packet : bytes) (l : Layout) : Prop := {
  lo_min : match family l with FamilyV4 => 20 | FamilyV6 => 40 end <= l4_offset l;
  lo_l4 : l4_offset l <= end_ l;
  lo_end : end_ l <= zlen packet;
  lo_align : l4_offset l mod 4 = 0
}.

(** The bytes [locate] reads: the fixed header but its addresses (and the IPv4
    header checksum), and the IPv6 extension headers. *)
Definition reads_header (l : Layout) (i : Z) : Prop :=
  match family l with
  | FamilyV4 => 0 <= i < 10
  | FamilyV6 => 0 <= i < 8 \/ 40 <= i < l4_offset l
  end.

Lemma v6_header_yields packet next offset fragment :
  bytes_ok packet -> 0 <= offset ->
  yields (v6_header packet next offset fragment) (fun _ => True)
    (fun hf => 8 <= hf.1 /\ hf.1 mod 4 = 0 /\ offset + 2 <= zlen packet).
Proof.
  intros Hb Ho. unfold v6_header.
  repeat match goal with
  | |- yields (if ?b then _ else _) _ _ => destruct b
  | |- context [get_slice packet offset ?e] =>
      destruct (get_slice packet offset e) as [h|] eqn:Hh; [|done];
      apply get_slice_Some in Hh as (? & ? & ->);
      assert (bytes_ok (sub packet offset e)) by (by apply bytes_ok_sub);
      pose proof (zlen_sub packet offset e ltac:(lia) ltac:(lia))
  end; in_range; simpl; try done.
  - assert (is_byte (byte_at (sub packet offset (offset + 2)) 1)) by (by apply byte_at_range).
    unfold is_byte in *. split_and!; [lia| |lia]. Z.div_mod_to_equations. lia.
  - assert (is_byte (byte_at (sub packet offset (offset + 2)) 1)) by (by apply byte_at_range).
    unfold is_byte in *. split_and!; [lia| |lia]. Z.div_mod_to_equations. lia.
  - split_and!; [lia|done|lia].
Qed.

Lemma v6_walk_yields n packet e next offset fragment :
  bytes_ok packet -> 40 <= offset <= e -> e <= zlen packet -> offset mod 4 = 0 ->
  yields (v6_walk n packet e next offset fragment) (fun _ => True)
    (fun l => family l = FamilyV6 /\ end_ l = e /\ offset <= l4_offset l <= e
              /\ l4_offset l mod 4 = 0).
Proof.
  intros Hb. revert next offset fragment.
  induction n as [|n IH]; intros next offset fragment Ho He Ha; simpl; [done|].
  destruct (_ || _); [by simpl; split_and!; try lia|].
  apply yields_bind.
  eapply yields_mono; [apply v6_header_yields; [done|lia]|done|].
  intros [hl fr] (H1 & H2 & H3); simpl in *.
  destruct (Z.ltb_spec e (offset + hl)); [done|]. in_range.
  assert ((offset + hl) mod 4 = 0) by (Z.div_mod_to_equations; lia).
  assert (yields (v6_walk n packet e (byte_at packet offset) (offset + hl) fr)
    (fun _ => True) (fun l => family l = FamilyV6 /\ end_ l = e
      /\ offset <= l4_offset l <= e /\ l4_offset l mod 4 = 0)) as Hrest.
  { eapply yields_mono; [apply IH; lia|done|]. intros l ?; simpl in *. naive_solver lia. }
  destruct fr as [f|]; [|exact Hrest]. destruct (negb _); [|exact Hrest].
  simpl. split_and!; try done; lia.
Qed.

Lemma locate_v4_yields packet quoted :
  bytes_ok packet ->
  yields (locate_v4 packet quoted) (fun _ => True)
    (fun l => family l = FamilyV4 /\ layout_ok packet l).
Proof.
  intros Hb. unfold locate_v4. destruct (Z.ltb_spec (zlen packet) 20); [done|]. in_range.
  destruct (_ || _) eqn:E; [done|]. zbool. destruct E as [[E1 E2] E3]. in_range. simpl.
  split; [done|]. split; simpl; try lia. Z.div_mod_to_equations. lia.
Qed.

Lemma locate_v6_yields packet quoted :
  bytes_ok packet ->
  yields (locate_v6 packet quoted) (fun _ => True)
    (fun l => family l = FamilyV6 /\ layout_ok packet l).
Proof.
  intros Hb. unfold locate_v6. destruct (Z.ltb_spec (zlen packet) 40); [done|]. in_range.
  set (e := if quoted then _ else _).
  destruct (Z.ltb_spec (zlen packet) e); [done|]. in_range.
  assert (is_u16 (u16_be (byte_at packet 4) (byte_at packet 5))) as Hu.
  { apply u16_be_range; by apply byte_at_range. }
  assert (40 <= e) by (unfold e, is_u16 in *; destruct quoted; lia).
  eapply yields_mono; [apply v6_walk_yields; try done; lia|done|].
  intros l (Hf & He & Hl & Ha); simpl in *. split; [done|].
  split; rewrite ?Hf; try lia.
Qed.

(** The layout of a packet whose bytes are bytes is in range, and finding it never
    panics. *)
Lemma locate_with_yields packet quoted :
  bytes_ok packet ->
  yields (locate_with packet quoted) (fun _ => True) (layout_ok packet).
Proof.
  intros Hb. unfold locate_with. destruct (get packet 0); [|done].
  destruct (_ =? 4).
  { eapply yields_mono; [by apply locate_v4_yields|done|naive_solver]. }
  destruct (_ =? 6); [|done].
  eapply yields_mono; [by apply locate_v6_yields|done|naive_solver].
Qed.

(** ** Locating reads only the headers *)

Lemma v6_header_ext p p' next offset fragment :
  zlen p = zlen p' -> (forall i, offset <= i < offset + 8 -> byte_at p i = byte_at p' i) ->
  v6_header p next offset fragment = v6_header p' next offset fragment.
Proof.
  intros Hlen Hi. unfold v6_header.
  rewrite (get_slice_ext p p' offset (offset + 2)) by (try done; intros; apply Hi; lia).
  by rewrite (get_slice_ext p p' offset (offset + 8)) by (try done; intros; apply Hi; lia).
Qed.

Lemma v6_walk_ext n p p' e next offset fragment l :
  bytes_ok p -> zlen p = zlen p' -> 40 <= offset <= e -> e <= zlen p -> offset mod 4 = 0 ->
  v6_walk n p e next offset fragment = Ok l ->
  (forall i, offset <= i < l4_offset l -> byte_at p i = byte_at p' i) ->
  v6_walk n p' e next offset fragment = Ok l.
Proof.
  intros Hb Hlen. revert next offset fragment.
  induction n as [|n IH]; intros next offset fragment Ho He Ha Hw Hi; simpl in *; [done|].
  destruct (_ || _); [done|].
  apply bind_ok in Hw as ([hl fr] & Hh & Hw).
  pose proof (v6_header_yields p next offset fragment Hb ltac:(lia)) as Hy.
  rewrite Hh in Hy. destruct Hy as (H1 & H2 & H3); simpl in *.
  destruct (Z.ltb_spec e (offset + hl)); [done|].
  rewrite index_ok in Hw by lia. cbn [mbind comp_bind] in Hw.
  assert ((offset + hl) mod 4 = 0) by (Z.div_mod_to_equations; lia).
  assert (offset + hl <= l4_offset l) as Hl4.
  { destruct fr as [f|].
    - destruct (negb _) in Hw; [injection Hw as <-; simpl; lia|].
      pose proof (v6_walk_yields n p e (byte_at p offset) (offset + hl) (Some f) Hb
        ltac:(lia) ltac:(lia) ltac:(lia)) as Hy. rewrite Hw in Hy. simpl in Hy. lia.
    - pose proof (v6_walk_yields n p e (byte_at p offset) (offset + hl) None Hb
        ltac:(lia) ltac:(lia) ltac:(lia)) as Hy. rewrite Hw in Hy. simpl in Hy. lia. }
  rewrite <- (v6_header_ext p p'), Hh by (try done; intros; apply Hi; lia).
  cbn [mbind comp_bind]. destruct (Z.ltb_spec e (offset + hl)); [lia|].
  rewrite index_ok by lia. cbn [mbind comp_bind].
  rewrite <- (Hi offset) by lia.
  assert (forall fr', v6_walk n p e (byte_at p offset) (offset + hl) fr' = Ok l ->
    v6_walk n p' e (byte_at p offset) (offset + hl) fr' = Ok l) as Hrest.
  { intros fr' Hw'. apply IH; try done; try lia. intros; apply Hi; lia. }
  destruct fr as [f|]; [|by apply Hrest]. destruct (negb _); [done|by apply Hrest].
Qed.

(** The layout stands when every byte [locate] reads is the same. *)
Lemma locate_with_ext p p' quoted l :
  bytes_ok p -> zlen p = zlen p' -> locate_with p quoted = Ok l ->
  (forall i, reads_header l i -> byte_at p i = byte_at p' i) ->
  locate_with p' quoted = Ok l.
Proof.
  intros Hb Hlen Hl Hi. unfold locate_with in *. rewrite get_0 in *. rewrite <- Hlen.
  destruct (Z.ltb_spec 0 (zlen p)); [|done].
  assert (byte_at p 0 = byte_at p' 0) as H0.
  { apply Hi. unfold reads_header. destruct (family l); lia. }
  rewrite <- H0. destruct (_ =? 4).
  - pose proof (locate_v4_yields p quoted Hb) as Hy. rewrite Hl in Hy. destruct Hy as [Hf _].
    unfold reads_header in Hi. rewrite Hf in Hi.
    revert Hl. unfold locate_v4. rewrite <- Hlen. destruct (Z.ltb_spec (zlen p) 20); [done|].
    in_range. by rewrite !(Hi 0), !(Hi 2), !(Hi 3), !(Hi 4), !(Hi 5), !(Hi 6), !(Hi 7), !(Hi 9) by lia.
  - destruct (_ =? 6); [|done].
    pose proof (locate_v6_yields p quoted Hb) as Hy. rewrite Hl in Hy. destruct Hy as [Hf Hlo].
    unfold reads_header in Hi. rewrite Hf in Hi.
    revert Hl. unfold locate_v6. rewrite <- Hlen. destruct (Z.ltb_spec (zlen p) 40); [done|].
    in_range. rewrite <- !(Hi 4), <- !(Hi 5), <- !(Hi 6) by lia.
    set (e := if quoted then _ else _). destruct (Z.ltb_spec (zlen p) e); [done|]. intros Hl.
    assert (is_u16 (u16_be (byte_at p 4) (byte_at p 5))) as Hu.
    { apply u16_be_range; by apply byte_at_range. }
    assert (40 <= e) by (unfold e, is_u16 in *; destruct quoted; lia).
    eapply v6_walk_ext; try done; try lia. intros i ?. apply Hi. lia.
Qed.

(** ** Addresses of a located packet *)

Lemma addr_range_ok packet l quoted :
  bytes_ok packet -> locate_with packet quoted = Ok l ->
  layout_ok packet l /\ (src_range l).2 <= zlen packet /\ (dst_range l).2 <= zlen packet.
Proof.
  intros Hb Hl. pose proof (locate_with_yields packet quoted Hb) as Hy. rewrite Hl in Hy.
  destruct Hy. split; [done|]. unfold src_range, dst_range. destruct (family l); simpl; lia.
Qed.

Definition addr_of (f : Family) (b : bytes) : IpAddr :=
  match f with FamilyV4 => V4 b | FamilyV6 => V6 b end.

Lemma read_addr_ok {E} f b :
  zlen b = match f with FamilyV4 => 4 | FamilyV6 => 16 end ->
  @read_addr E f b = Ok (addr_of f b).
Proof.
  intros Hl. destruct f; simpl; in_range.
  - do 2 f_equal. destruct b as [|a [|c [|d [|e [|]]]]]; unfold zlen in *; simpl in *; try lia.
    done.
  - do 2 f_equal. unfold sub. rewrite drop_0. apply firstn_all2. unfold zlen in *. lia.
Qed.

Definition src_of (l : Layout) (packet : bytes) : IpAddr :=
  addr_of (family l) (sub packet (src_range l).1 (src_range l).2).
Definition dst_of (l : Layout) (packet : bytes) : IpAddr :=
  addr_of (family l) (sub packet (dst_range l).1 (dst_range l).2).

Lemma src_ok {E} packet l :
  (src_range l).2 <= zlen packet -> @src E l packet = Ok (src_of l packet).
Proof.
  intros Hl. unfold src, src_of, src_range in *.
  destruct (family l); cbn [fst snd] in *; in_range; apply read_addr_ok; rewrite zlen_sub; lia.
Qed.

Lemma dst_ok {E} packet l :
  (dst_range l).2 <= zlen packet -> @dst E l packet = Ok (dst_of l packet).
Proof.
  intros Hl. unfold dst, dst_of, dst_range in *.
  destruct (family l); cbn [fst snd] in *; in_range; apply read_addr_ok; rewrite zlen_sub; lia.
Qed.

Lemma src_of_wf packet l :
  bytes_ok packet -> (src_range l).2 <= zlen packet -> ip_wf (src_of l packet).
Proof.
  intros Hb Hl. unfold src_of, src_range, ip_wf in *.
  destruct (family l); simpl in *; (split; [by apply bytes_ok_sub|rewrite zlen_sub; lia]).
Qed.

Lemma dst_of_wf packet l :
  bytes_ok packet -> (dst_range l).2 <= zlen packet -> ip_wf (dst_of l packet).
Proof.
  intros Hb Hl. unfold dst_of, dst_range, ip_wf in *.
  destruct (family l); simpl in *; (split; [by apply bytes_ok_sub|rewrite zlen_sub; lia]).
Qed.
