(* ===== verification/Flow.v ===== *)
(** * Flow identities parsed from packets (talpid-app-routing/src/flow.rs) *)

From S2P Require Import Prelude Net Ip.
Open Scope Z_scope.

Inductive Transport : Type := Tcp | Udp | IcmpEcho.

Record FlowKey : Type := mkFlowKey {
  transport : Transport;
  local : SocketAddr;
  remote : SocketAddr
}.

Inductive Direction : Type := Uplink | Downlink.

Record FragmentKey : Type := mkFragmentKey {
  fk_src : IpAddr;
  fk_dst : IpAddr;
  fk_protocol : Z;
  fk_id : Z
}.

Inductive Classified : Type :=
| Flow (key : FlowKey) (tcp_flags : Z) (fragment : option FragmentKey)
| LaterFragment (key : FragmentKey)
| IcmpError (key : FlowKey)
| Other.

Inductive IcmpKind : Type := KindEcho | KindError | KindOther.

#[export] Instance Transport_eq_dec : EqDecision Transport.
Proof. solve_decision. Defined.
#[export] Instance FlowKey_eq_dec : EqDecision FlowKey.
Proof. solve_decision. Defined.
#[export] Instance Direction_eq_dec : EqDecision Direction.
Proof. solve_decision. Defined.
#[export] Instance FragmentKey_eq_dec : EqDecision FragmentKey.
Proof. solve_decision. Defined.
#[export] Instance IcmpKind_eq_dec : EqDecision IcmpKind.
Proof. solve_decision. Defined.

#[export] Instance Transport_countable : Countable Transport.
Proof.
  apply (inj_countable'
    (fun t => match t with Tcp => inl () | Udp => inr (inl ()) | IcmpEcho => inr (inr ()) end)
    (fun s => match s with inl () => Tcp | inr (inl ()) => Udp | inr (inr ()) => IcmpEcho end)).
  by intros [].
Defined.
#[export] Instance FlowKey_countable : Countable FlowKey.
Proof.
  apply (inj_countable' (fun k => (transport k, local k, remote k))
    (fun '(t, l, r) => mkFlowKey t l r)).
  by intros [].
Defined.
#[export] Instance FragmentKey_countable : Countable FragmentKey.
Proof.
  apply (inj_countable' (fun k => (fk_src k, fk_dst k, fk_protocol k, fk_id k))
    (fun '(s, d, p, i) => mkFragmentKey s d p i)).
  by intros [].
Defined.

Definition icmp_kind (f : Family) (message_type : Z) : IcmpKind :=
  match f with
  | FamilyV4 =>
      if (message_type =? 0) || (message_type =? 8) then KindEcho
      else if (message_type =? 3) || (message_type =? 11) || (message_type =? 12) then KindError
      else KindOther
  | FamilyV6 =>
      if (message_type =? 128) || (message_type =? 129) then KindEcho
      else if (1 <=? message_type) && (message_type <=? 4) then KindError
      else KindOther
  end.

Definition oriented (s d : SocketAddr) (direction : Direction) : SocketAddr * SocketAddr :=
  match direction with Uplink => (s, d) | Downlink => (d, s) end.

Definition ports {E} (header : bytes) : comp E (Z * Z) :=
  h0 ← index header 0; h1 ← index header 1; h2 ← index header 2; h3 ← index header 3;
  Ok (u16_be h0 h1, u16_be h2 h3).

Definition echo_flow (src dst : IpAddr) (id : Z) (direction : Direction)
    (fragment : option FragmentKey) : Classified :=
  let '(local, remote) := match direction with Uplink => (src, dst) | Downlink => (dst, src) end in
  Flow (mkFlowKey IcmpEcho (mkSocketAddr local id) (mkSocketAddr remote 0)) 0 fragment.

Definition opposite (direction : Direction) : Direction :=
  match direction with Uplink => Downlink | Downlink => Uplink end.

Definition quoted_flow (quoted : bytes) (direction : Direction) : comp PacketError Classified :=
  layout ← locate_quoted quoted;
  if negb (has_transport layout) then Ok Other else
  let quoted_direction := opposite direction in
  s ← src layout quoted;
  d ← dst layout quoted;
  l4 ← slice quoted (l4_offset layout) (end_ layout);
  let with_ports transport :=
    header ← ok_or (get_slice l4 0 4) Truncated;
    sd ← ports header;
    let '(local, remote) :=
      oriented (mkSocketAddr s sd.1) (mkSocketAddr d sd.2) quoted_direction in
    Ok (IcmpError (mkFlowKey transport local remote)) in
  if protocol layout =? PROTO_TCP then with_ports Tcp
  else if protocol layout =? PROTO_UDP then with_ports Udp
  else if (protocol layout =? PROTO_ICMP) || (protocol layout =? PROTO_ICMPV6) then
    header ← ok_or (get_slice l4 0 6) Truncated;
    h0 ← index header 0;
    if negb (bool_decide (icmp_kind (family layout) h0 = KindEcho)) then Ok Other else
    h4 ← index header 4; h5 ← index header 5;
    match echo_flow s d (u16_be h4 h5) quoted_direction None with
    | Flow key _ _ => Ok (IcmpError key)
    | _ => Panic
    end
  else Ok Other.

Definition classify_transport (packet : bytes) (layout : Layout) (s d : IpAddr)
    (direction : Direction) (fragment : option FragmentKey) : comp PacketError Classified :=
  l4 ← slice packet (l4_offset layout) (end_ layout);
  let flow transport src_port dst_port tcp_flags :=
    let '(local, remote) :=
      oriented (mkSocketAddr s src_port) (mkSocketAddr d dst_port) direction in
    Flow (mkFlowKey transport local remote) tcp_flags fragment in
  if protocol layout =? PROTO_TCP then
    header ← ok_or (get_slice l4 0 20) Truncated;
    sd ← ports header;
    flags ← index header 13;
    Ok (flow Tcp sd.1 sd.2 flags)
  else if protocol layout =? PROTO_UDP then
    header ← ok_or (get_slice l4 0 8) Truncated;
    sd ← ports header;
    Ok (flow Udp sd.1 sd.2 0)
  else if (protocol layout =? PROTO_ICMP) || (protocol layout =? PROTO_ICMPV6) then
    header ← ok_or (get_slice l4 0 8) Truncated;
    h0 ← index header 0;
    match icmp_kind (family layout) h0 with
    | KindEcho =>
        h4 ← index header 4; h5 ← index header 5;
        Ok (echo_flow s d (u16_be h4 h5) direction fragment)
    | KindError => quoted ← slice l4 8 (zlen l4); quoted_flow quoted direction
    | KindOther => Ok Other
    end
  else Ok Other.

Definition classify (packet : bytes) (direction : Direction) : comp PacketError Classified :=
  layout ← locate packet;
  s ← src layout packet;
  d ← dst layout packet;
  match fragment layout with
  | None => classify_transport packet layout s d direction None
  | Some f =>
      let key := mkFragmentKey s d (frag_protocol f) (frag_id f) in
      if frag_first f
      then classify_transport packet layout s d direction (Some key)
      else Ok (LaterFragment key)
  end.

(** ** Classification never panics *)

(** A flow's ends are well-formed addresses with 16-bit ports, and of one family. *)
Definition flow_wf (k : FlowKey) : Prop :=
  ip_wf (ip (local k)) /\ ip_wf (ip (remote k)) /\ is_u16 (port (local k))
  /\ is_u16 (port (remote k)) /\ same_family (ip (local k)) (ip (remote k)) = true.

Definition classified_wf (c : Classified) : Prop :=
  match c with
  | Flow k flags _ => flow_wf k /\ is_byte flags
  | IcmpError k => flow_wf k
  | LaterFragment k => ip_wf (fk_src k) /\ ip_wf (fk_dst k)
  | Other => True
  end.

Lemma flow_wf_intro t a b p q :
  ip_wf a -> ip_wf b -> same_family a b = true -> is_u16 p -> is_u16 q ->
  flow_wf (mkFlowKey t (mkSocketAddr a p) (mkSocketAddr b q)).
Proof. intros. by unfold flow_wf. Qed.
#[export] Hint Resolve flow_wf_intro : packet.

Lemma echo_flow_wf s d id direction fragment :
  ip_wf s -> ip_wf d -> same_family s d = true -> is_u16 id ->
  classified_wf (echo_flow s d id direction fragment).
Proof.
  intros Hs Hd Hsd Hid. assert (is_u16 0) by (unfold is_u16; lia).
  pose proof (same_family_sym _ _ Hsd).
  unfold echo_flow. destruct direction; simpl; (split; [|unfold is_byte; lia]);
    auto with packet.
Qed.

Lemma addrs_wf packet l quoted :
  bytes_ok packet -> locate_with packet quoted = Ok l ->
  ip_wf (src_of l packet) /\ ip_wf (dst_of l packet)
  /\ same_family (src_of l packet) (dst_of l packet) = true
  /\ same_family (dst_of l packet) (src_of l packet) = true.
Proof.
  intros Hb Hl. destruct (addr_range_ok _ _ _ Hb Hl) as (Ho & Hs & Hd).
  split_and!; [by apply src_of_wf|by apply dst_of_wf| |];
    unfold src_of, dst_of; by destruct (family l).
Qed.

Lemma byte_pair_u16 l i j : bytes_ok l -> is_u16 (u16_be (byte_at l i) (byte_at l j)).
Proof. intros. apply u16_be_range; by apply byte_at_range. Qed.
#[export] Hint Resolve byte_pair_u16 : packet.

(** The header [get_slice] returned, with what is known of it. *)
Ltac take_header :=
  match goal with
  | |- context [get_slice ?p ?a ?b] =>
      let h := fresh "header" in let Hh := fresh "Hh" in
      destruct (get_slice p a b) as [h|] eqn:Hh; [|done];
      apply get_slice_Some in Hh as (_ & ? & ->);
      pose proof (zlen_sub p a b ltac:(lia) ltac:(lia));
      assert (bytes_ok (sub p a b)) by auto with packet;
      cbn [ok_or mbind comp_bind]
  end.

Lemma ports_ok {E} h :
  4 <= zlen h ->
  @ports E h = Ok (u16_be (byte_at h 0) (byte_at h 1), u16_be (byte_at h 2) (byte_at h 3)).
Proof. intros. unfold ports. by in_range. Qed.

Lemma quoted_flow_yields quoted direction :
  bytes_ok quoted -> yields (quoted_flow quoted direction) (fun _ => True) classified_wf.
Proof.
  intros Hb. unfold quoted_flow, locate_quoted. apply yields_bind.
  destruct (locate_with quoted true) as [l| |] eqn:Hl; [|done|].
  2: { pose proof (locate_with_yields quoted true Hb) as Hy. by rewrite Hl in Hy. }
  destruct (addr_range_ok _ _ _ Hb Hl) as (Ho & Hs & Hd).
  destruct (addrs_wf _ _ _ Hb Hl) as (Hsw & Hdw & Hsd & Hds).
  destruct Ho as [Hmin Hl4 Hend _]. simpl.
  destruct (negb _); [done|]. rewrite src_ok, dst_ok by done. cbn [mbind comp_bind].
  assert (0 <= l4_offset l) by (destruct (family l); lia).
  rewrite slice_ok by lia. cbn [mbind comp_bind].
  set (l4 := sub quoted (l4_offset l) (end_ l)).
  assert (bytes_ok l4) by (unfold l4; auto with packet).
  destruct (_ =? PROTO_TCP).
  { take_header. rewrite ports_ok by lia. destruct direction; simpl;
      auto with packet. }
  destruct (_ =? PROTO_UDP).
  { take_header. rewrite ports_ok by lia. destruct direction; simpl;
      auto with packet. }
  destruct (_ || _); [|done]. take_header. in_range.
  destruct (negb _); [done|]. in_range.
  pose proof (echo_flow_wf (src_of l quoted) (dst_of l quoted)
    (u16_be (byte_at (sub l4 0 6) 4) (byte_at (sub l4 0 6) 5)) (opposite direction) None
    Hsw Hdw Hsd ltac:(auto with packet)) as He.
  unfold echo_flow in *. destruct (opposite direction); simpl in *; apply He.
Qed.

Lemma classify_transport_yields packet l s d direction fragment :
  bytes_ok packet -> layout_ok packet l -> ip_wf s -> ip_wf d -> same_family s d = true ->
  yields (classify_transport packet l s d direction fragment) (fun _ => True) classified_wf.
Proof.
  intros Hb [Hmin Hl4 Hend _] Hs Hd Hsd. pose proof (same_family_sym _ _ Hsd).
  unfold classify_transport.
  assert (0 <= l4_offset l) by (destruct (family l); lia). in_range.
  set (l4 := sub packet (l4_offset l) (end_ l)).
  assert (bytes_ok l4) by (unfold l4; auto with packet).
  destruct (_ =? PROTO_TCP).
  { take_header. rewrite ports_ok by lia. in_range.
    destruct direction; simpl; (split; [|by apply byte_at_range]);
      auto with packet. }
  destruct (_ =? PROTO_UDP).
  { take_header. rewrite ports_ok by lia. in_range.
    destruct direction; simpl; (split; [|unfold is_byte; lia]);
      auto with packet. }
  destruct (_ || _); [|done]. take_header. in_range.
  destruct (icmp_kind _ _); [| |done].
  - in_range. apply echo_flow_wf; auto with packet.
  - in_range. apply quoted_flow_yields. auto with packet.
Qed.

Lemma classify_yields packet direction :
  bytes_ok packet -> yields (classify packet direction) (fun _ => True) classified_wf.
Proof.
  intros Hb. unfold classify, locate. apply yields_bind.
  destruct (locate_with packet false) as [l| |] eqn:Hl; [|done|].
  2: { pose proof (locate_with_yields packet false Hb) as Hy. by rewrite Hl in Hy. }
  destruct (addr_range_ok _ _ _ Hb Hl) as (Ho & Hs & Hd).
  destruct (addrs_wf _ _ _ Hb Hl) as (Hsw & Hdw & Hsd & Hds). simpl.
  rewrite src_ok, dst_ok by done. cbn [mbind comp_bind].
  destruct (fragment l) as [f|]; [destruct (frag_first f)|];
    [by apply classify_transport_yields| |by apply classify_transport_yields].
  by split.
Qed.

(** ** Classification in terms of the packet's bytes *)

Definition u16_at (p : bytes) (i : Z) : Z := u16_be (byte_at p i) (byte_at p (i + 1)).

(** A flow seen from [s] to [d]. *)
Definition flow_of (t : Transport) (s d : IpAddr) (sp dp : Z) (direction : Direction) : FlowKey :=
  match direction with
  | Uplink => mkFlowKey t (mkSocketAddr s sp) (mkSocketAddr d dp)
  | Downlink => mkFlowKey t (mkSocketAddr d dp) (mkSocketAddr s sp)
  end.

(** An echo carries its identifier on the local side, whatever the direction. *)
Definition echo_key (s d : IpAddr) (id : Z) (direction : Direction) : FlowKey :=
  match direction with
  | Uplink => mkFlowKey IcmpEcho (mkSocketAddr s id) (mkSocketAddr d 0)
  | Downlink => mkFlowKey IcmpEcho (mkSocketAddr d id) (mkSocketAddr s 0)
  end.

Lemma echo_flow_eq s d id direction fragment :
  echo_flow s d id direction fragment = Flow (echo_key s d id direction) 0 fragment.
Proof. by destruct direction. Qed.

Lemma get_slice_eq p a b :
  0 <= a <= b -> get_slice p a b = if b <=? zlen p then Some (sub p a b) else None.
Proof.
  intros. unfold get_slice. destruct (Z.leb_spec 0 a), (Z.leb_spec a b); try lia. done.
Qed.

(** Offsets added up. *)
Ltac norm_offsets :=
  rewrite ?Z.add_0_r, <- ?Z.add_assoc; cbn [Z.add Pos.add Pos.succ Pos.add_carry].

Lemma classify_transport_eq p l s d direction fragment :
  layout_ok p l ->
  classify_transport p l s d direction fragment =
    let l4 := l4_offset l in
    let available := end_ l - l4 in
    if protocol l =? PROTO_TCP then
      if 20 <=? available
      then Ok (Flow (flow_of Tcp s d (u16_at p l4) (u16_at p (l4 + 2)) direction)
                 (byte_at p (l4 + 13)) fragment)
      else Err Truncated
    else if protocol l =? PROTO_UDP then
      if 8 <=? available
      then Ok (Flow (flow_of Udp s d (u16_at p l4) (u16_at p (l4 + 2)) direction) 0 fragment)
      else Err Truncated
    else if (protocol l =? PROTO_ICMP) || (protocol l =? PROTO_ICMPV6) then
      if 8 <=? available
      then match icmp_kind (family l) (byte_at p l4) with
           | KindEcho => Ok (Flow (echo_key s d (u16_at p (l4 + 4)) direction) 0 fragment)
           | KindError => quoted_flow (sub p (l4 + 8) (end_ l)) direction
           | KindOther => Ok Other
           end
      else Err Truncated
    else Ok Other.
Proof.
  intros [Hmin Hl4 Hend _]. assert (0 <= l4_offset l) by (destruct (family l); lia).
  unfold classify_transport. rewrite slice_ok by lia. cbn [mbind comp_bind]. cbv zeta.
  rewrite !get_slice_eq by lia. rewrite zlen_sub by lia. unfold u16_at.
  destruct (_ =? PROTO_TCP); [|destruct (_ =? PROTO_UDP); [|destruct (_ || _); [|done]]].
  - destruct (Z.leb_spec 20 (end_ l - l4_offset l)); [|done]. cbn [ok_or mbind comp_bind].
    rewrite sub_sub by lia. rewrite ports_ok by (rewrite zlen_sub; lia). cbn [mbind comp_bind].
    rewrite index_ok by (rewrite zlen_sub; lia). cbn [mbind comp_bind fst snd].
    rewrite !byte_at_sub by lia.
    norm_offsets. by destruct direction.
  - destruct (Z.leb_spec 8 (end_ l - l4_offset l)); [|done]. cbn [ok_or mbind comp_bind].
    rewrite sub_sub by lia. rewrite ports_ok by (rewrite zlen_sub; lia). cbn [mbind comp_bind fst snd].
    rewrite !byte_at_sub by lia. norm_offsets. by destruct direction.
  - destruct (Z.leb_spec 8 (end_ l - l4_offset l)); [|done]. cbn [ok_or mbind comp_bind].
    rewrite sub_sub by lia. rewrite !index_ok by (rewrite zlen_sub; lia). cbn [mbind comp_bind].
    rewrite !byte_at_sub by lia. rewrite !Z.add_0_r. destruct (icmp_kind _ _); [| |done].
    + rewrite echo_flow_eq. by norm_offsets.
    + rewrite slice_ok by (rewrite ?zlen_sub by lia; lia). cbn [mbind comp_bind].
      rewrite sub_sub by lia. do 2 f_equal; lia.
Qed.

(** Everything [classify] says of a located packet. *)
Lemma classify_eq p l direction :
  bytes_ok p -> locate p = Ok l ->
  classify p direction =
    let s := src_of l p in
    let d := dst_of l p in
    match fragment l with
    | None => classify_transport p l s d direction None
    | Some f =>
        let key := mkFragmentKey s d (frag_protocol f) (frag_id f) in
        if frag_first f then classify_transport p l s d direction (Some key)
        else Ok (LaterFragment key)
    end.
Proof.
  intros Hb Hl. unfold classify. rewrite Hl. unfold locate in Hl.
  destruct (addr_range_ok _ _ _ Hb Hl) as (_ & Hs & Hd). cbn [mbind comp_bind].
  rewrite src_ok, dst_ok by done. done.
Qed.

Lemma classify_locates p direction c :
  classify p direction = Ok c -> exists l, locate p = Ok l.
Proof. unfold classify. intros (l & Hl & _)%bind_ok. eauto. Qed.

(** A quoted packet is never taken for a flow of its own. *)
Lemma quoted_flow_not_flow q direction k flags frag :
  quoted_flow q direction <> Ok (Flow k flags frag).
Proof.
  unfold quoted_flow. intros (l & _ & H)%bind_ok. destruct (negb _); [done|].
  apply bind_ok in H as (s & _ & H). apply bind_ok in H as (d & _ & H).
  apply bind_ok in H as (l4 & _ & H).
  destruct (_ =? PROTO_TCP); [|destruct (_ =? PROTO_UDP); [|destruct (_ || _); [|done]]].
  1,2: apply bind_ok in H as (h & _ & H); apply bind_ok in H as (sd & _ & H);
    destruct (oriented _ _ _); done.
  apply bind_ok in H as (h & _ & H). apply bind_ok in H as (h0 & _ & H).
  destruct (negb _); [done|]. apply bind_ok in H as (h4 & _ & H). apply bind_ok in H as (h5 & _ & H).
  rewrite echo_flow_eq in H. done.
Qed.

(** C39: classifying a packet read from the TUN device or from a route session never panics,
    whatever its bytes: every index and slice of the header walk, of the transport header and
    of the packet an ICMP error quotes is in range.  A flow it finds has two well-formed
    addresses of one IP version and 16-bit ports. *)
Theorem classify_total p direction :
  bytes_ok p ->
  no_panic (classify p direction) /\
  (forall c, classify p direction = Ok c -> classified_wf c).
Proof.
  intros Hb. pose proof (classify_yields p direction Hb) as Hy. split.
  - by eapply yields_no_panic.
  - intros c Hc. by eapply yields_ok in Hc.
Qed.

(** An IPv4 UDP datagram from 10.0.0.2:1000 to 10.0.0.9:53. *)
Definition sample_udp : bytes :=
  [69; 0; 0; 28; 0; 0; 64; 0; 64; 17; 38; 199; 10; 0; 0; 2; 10; 0; 0; 9;
   3; 232; 0; 53; 0; 8; 231; 182].

Lemma classify_total_witness :
  no_panic (classify sample_udp Uplink) /\
  (forall c, classify sample_udp Uplink = Ok c -> classified_wf c).
Proof. apply classify_total. repeat constructor; lia. Defined.

Example classify_sample :
  classify sample_udp Uplink =
    Ok (Flow (mkFlowKey Udp (mkSocketAddr (V4 [10; 0; 0; 2]) 1000)
                (mkSocketAddr (V4 [10; 0; 0; 9]) 53)) 0 None).
Proof. reflexivity. Qed.
