(* ===== verification/FlowTable.v ===== *)
(** * The bounded table of live flows (talpid-app-routing/src/flow.rs) *)

From S2P Require Import Prelude Net Flow.
Open Scope Z_scope.

Definition TCP_IDLE : Z := secs (2 * 60 * 60).
Definition UDP_IDLE : Z := secs 180.
Definition ICMP_IDLE : Z := secs 30.
Definition CLOSING_LINGER : Z := secs 10.

Definition FLAG_FIN : Z := 1.
Definition FLAG_RST : Z := 4.

Inductive Revision : Type := Keep | Close | Forget.

Inductive Lifecycle : Type := Open | HalfClosed (from : Direction) | Closing.

#[export] Instance Lifecycle_eq_dec : EqDecision Lifecycle.
Proof. solve_decision. Defined.

Record Entry (V : Type) : Type := mkEntry { value : V; last_seen : Z; lifecycle : Lifecycle }.
Arguments mkEntry {V}.
Arguments value {V}.
Arguments last_seen {V}.
Arguments lifecycle {V}.

(** [eviction], a buffer reused between evictions, holds nothing from one to the
    next and has no field here. *)
Record FlowTable (V : Type) : Type := mkFlowTable {
  entries : gmap FlowKey (Entry V);
  capacity : Z
}.
Arguments mkFlowTable {V}.
Arguments entries {V}.
Arguments capacity {V}.

Definition timeout_of (l : Lifecycle) (t : Transport) : Z :=
  match l, t with
  | Closing, _ => CLOSING_LINGER
  | _, Tcp => TCP_IDLE
  | _, Udp => UDP_IDLE
  | _, IcmpEcho => ICMP_IDLE
  end.

Definition is_expired {V} (t : Transport) (entry : Entry V) (now : Z) : bool :=
  let timeout := timeout_of (lifecycle entry) t in
  timeout <? saturating_duration_since now (last_seen entry).

Definition advance (l : Lifecycle) (direction : Direction) (tcp_flags : Z) : Lifecycle :=
  if negb (Z.land tcp_flags FLAG_RST =? 0) then Closing
  else if Z.land tcp_flags FLAG_FIN =? 0 then l
  else match l with
       | Open => HalfClosed direction
       | HalfClosed from => if bool_decide (from = direction) then HalfClosed from else Closing
       | Closing => Closing
       end.

Section FlowTable.
Context {V : Type} `{!HashOrder}.
Implicit Types (t : FlowTable V) (e : Entry V) (k : FlowKey) (v : V) (now : Z).

Definition with_entries (m : gmap FlowKey (Entry V)) t : FlowTable V :=
  mkFlowTable m (capacity t).

Definition table_new (cap : Z) : FlowTable V := mkFlowTable ∅ (Z.max cap 1).

Definition lookup_mut t k (direction : Direction) (tcp_flags now : Z)
    : FlowTable V * option V :=
  match entries t !! k with
  | Some entry =>
      if is_expired (transport k) entry now then (t, None)
      else
        let entry := mkEntry (value entry) now
                       (advance (lifecycle entry) direction tcp_flags) in
        (with_entries (<[k := entry]> (entries t)) t, Some (value entry))
  | None => (t, None)
  end.

Definition table_lookup t k (direction : Direction) (tcp_flags now : Z)
    : FlowTable V * option V :=
  lookup_mut t k direction tcp_flags now.

(** What the caller of [lookup_mut] or [get_mut] writes through the reference. *)
Definition write_value k (f : V -> V) t : FlowTable V :=
  with_entries
    (alter (fun e => mkEntry (f (value e)) (last_seen e) (lifecycle e)) k (entries t)) t.

(** [retain] visits the entries in some order, threading what its closure captured. *)
Fixpoint revise_loop {S} (revise : S -> FlowKey -> V -> S * V * Revision) (now : Z)
    (s : S) (l : list (FlowKey * Entry V)) : S * list (FlowKey * Entry V) :=
  match l with
  | [] => (s, [])
  | (k, e) :: l =>
      let '(s, v, r) := revise s k (value e) in
      let '(s, kept) := revise_loop revise now s l in
      match r with
      | Keep => (s, (k, mkEntry v (last_seen e) (lifecycle e)) :: kept)
      | Close => (s, (k, mkEntry v now Closing) :: kept)
      | Forget => (s, kept)
      end
  end.

Definition revise {S} t (now : Z) (f : S -> FlowKey -> V -> S * V * Revision) (s : S)
    : S * FlowTable V :=
  let '(s, kept) := revise_loop f now s (hash_iter (entries t)) in
  (s, with_entries (list_to_map kept) t).

Definition expire t (now : Z) : FlowTable V :=
  with_entries (filter (fun ke => is_expired (transport ke.1) ke.2 now = false) (entries t)) t.

Fixpoint evict_loop (cutoff ties : Z) (l : list (FlowKey * Entry V))
    : list (FlowKey * Entry V) :=
  match l with
  | [] => []
  | (k, e) :: l =>
      if last_seen e <? cutoff then evict_loop cutoff ties l
      else if (last_seen e =? cutoff) && (0 <? ties) then evict_loop cutoff (ties - 1) l
      else (k, e) :: evict_loop cutoff ties l
  end.

(** [select_nth_unstable] gives the element a sort would put at that index,
    and panics past the end; so does the subtraction [count - older] below 0. *)
Definition evict_least_recent {E} t : comp E (FlowTable V) :=
  let count := Z.max (zsize (entries t) / 16) 1 in
  let eviction := (fun ke => last_seen ke.2) <$> hash_iter (entries t) in
  match get (merge_sort Z.le eviction) (count - 1) with
  | None => Panic
  | Some cutoff =>
      let older := zlen (filter (fun seen => seen < cutoff) eviction) in
      if count <? older then Panic else
      let ties := count - older in
      Ok (with_entries (list_to_map (evict_loop cutoff ties (hash_iter (entries t)))) t)
  end.

Definition insert_flow {E} t k v (direction : Direction) (tcp_flags now : Z)
    : comp E (FlowTable V) :=
  t ← (if (capacity t <=? zsize (entries t)) && bool_decide (entries t !! k = None) then
         let t := expire t now in
         if capacity t <=? zsize (entries t) then evict_least_recent t else Ok t
       else Ok t);
  let lifecycle :=
    if bool_decide (transport k = Tcp) then advance Open direction tcp_flags else Open in
  Ok (with_entries (<[k := mkEntry v now lifecycle]> (entries t)) t).

Definition peek t k (now : Z) : option V :=
  match entries t !! k with
  | Some entry => if is_expired (transport k) entry now then None else Some (value entry)
  | None => None
  end.

Definition get_mut t k : option V := value <$> entries t !! k.

Definition table_remove t k : FlowTable V := with_entries (delete k (entries t)) t.

Definition values t : list V := (fun ke => value ke.2) <$> hash_iter (entries t).

Definition table_len t : Z := zsize (entries t).
Definition table_is_empty t : bool := table_len t =? 0.
Definition table_clear t : FlowTable V := with_entries ∅ t.
End FlowTable.

(** ** The table stays within its capacity *)

Definition table_wf {V} (t : FlowTable V) : Prop :=
  1 <= capacity t /\ table_len t <= capacity t.

Section FlowTableFacts.
Context {V : Type} `{!HashOrder}.
Implicit Types (t : FlowTable V) (e : Entry V) (k : FlowKey) (v : V) (now : Z)
  (l : list (FlowKey * Entry V)).

Lemma evict_loop_sublist cutoff ties l : evict_loop cutoff ties l `sublist_of` l.
Proof.
  revert ties. induction l as [|[k e] l IH]; intros ties; simpl; [done|].
  destruct (_ <? _); [by apply sublist_cons|].
  destruct (_ && _); [by apply sublist_cons|by apply sublist_skip].
Qed.

Lemma revise_loop_sublist {S} (f : S -> FlowKey -> V -> S * V * Revision) now s l :
  (revise_loop f now s l).2.*1 `sublist_of` l.*1.
Proof.
  revert s. induction l as [|[k e] l IH]; intros s; simpl; [done|].
  destruct (f s k (value e)) as [[s' v] r]. specialize (IH s').
  destruct (revise_loop f now s' l) as [s'' kept]; simpl in *.
  destruct r; simpl; first [by apply sublist_skip|by apply sublist_cons].
Qed.

Lemma zsize_sublist (m : gmap FlowKey (Entry V)) l :
  l.*1 `sublist_of` (hash_iter m).*1 -> zsize (list_to_map l : gmap FlowKey (Entry V)) <= zsize m.
Proof.
  intros Hs. unfold zsize. rewrite (retained_size m) by done.
  rewrite <- (length_hash_iter m). apply sublist_length in Hs. rewrite !length_fmap in Hs. lia.
Qed.

(** How many entries [evict_loop] keeps. *)
Lemma evict_loop_length cutoff ties l :
  0 <= ties ->
  zlen (evict_loop cutoff ties l) =
    zlen l - zlen (filter (fun seen => seen < cutoff) ((fun ke => last_seen ke.2) <$> l))
    - Z.min ties (zlen (filter (fun seen => seen = cutoff) ((fun ke => last_seen ke.2) <$> l))).
Proof.
  revert ties. induction l as [|[k e] l IH]; intros ties Ht; [unfold zlen; simpl; lia|].
  simpl evict_loop. rewrite fmap_cons. cbn [snd].
  destruct (Z.ltb_spec (last_seen e) cutoff).
  { rewrite filter_cons_True, filter_cons_False by lia. rewrite IH by done.
    rewrite !zlen_cons. lia. }
  rewrite (filter_cons_False (fun seen => seen < cutoff)) by lia.
  destruct (Z.eqb_spec (last_seen e) cutoff).
  - rewrite filter_cons_True by done. destruct (Z.ltb_spec 0 ties); cbn [andb].
    + rewrite IH by lia. rewrite !zlen_cons. pose proof (zlen_nonneg
        (filter (fun seen => seen = cutoff) ((fun ke => last_seen ke.2) <$> l))). lia.
    + rewrite zlen_cons, IH by lia. rewrite !zlen_cons. pose proof (zlen_nonneg
        (filter (fun seen => seen = cutoff) ((fun ke => last_seen ke.2) <$> l))). lia.
  - rewrite filter_cons_False by done. cbn [andb]. rewrite zlen_cons, IH by lia.
    rewrite zlen_cons. lia.
Qed.
End FlowTableFacts.

Lemma filter_le_split (l : list Z) c :
  zlen (filter (fun x => x <= c) l) =
    zlen (filter (fun x => x < c) l) + zlen (filter (fun x => x = c) l).
Proof.
  induction l as [|x l IH]; [done|].
  destruct (decide (x < c)); [|destruct (decide (x = c))].
  - rewrite !(filter_cons_True (fun x => x <= c)), (filter_cons_True (fun x => x < c)),
      (filter_cons_False (fun x => x = c)) by lia. rewrite !zlen_cons. lia.
  - rewrite !(filter_cons_True (fun x => x <= c)), (filter_cons_False (fun x => x < c)),
      (filter_cons_True (fun x => x = c)) by lia. rewrite !zlen_cons. lia.
  - rewrite !(filter_cons_False (fun x => x <= c)), (filter_cons_False (fun x => x < c)),
      (filter_cons_False (fun x => x = c)) by lia. done.
Qed.


Section Eviction.
Context {V : Type} `{!HashOrder}.
Implicit Types (t : FlowTable V) (e : Entry V) (k : FlowKey) (v : V) (now : Z)
  (l : list (FlowKey * Entry V)).

Lemma evict_loop_old cutoff ties l k e :
  (k, e) ∈ l -> (k, e) ∉ evict_loop cutoff ties l -> last_seen e <= cutoff.
Proof.
  revert ties. induction l as [|[k' e'] l IH]; intros ties Hin Hout; [by apply not_elem_of_nil in Hin|].
  simpl in Hout. apply elem_of_cons in Hin as [[= <- <-]|Hin].
  - destruct (Z.ltb_spec (last_seen e) cutoff); [lia|].
    destruct (Z.eqb_spec (last_seen e) cutoff); [lia|]. cbn [andb] in Hout. set_solver.
  - destruct (_ <? _); [by eapply IH|]. destruct (_ && _); [by eapply IH|].
    eapply IH; [done|]. intros ?. apply Hout. by right.
Qed.

Lemma evict_loop_recent cutoff ties l k e :
  (k, e) ∈ evict_loop cutoff ties l -> cutoff <= last_seen e.
Proof.
  revert ties. induction l as [|[k' e'] l IH]; intros ties Hin; simpl in Hin;
    [by apply not_elem_of_nil in Hin|].
  destruct (Z.ltb_spec (last_seen e') cutoff); [by eapply IH|].
  destruct (_ && _); [by eapply IH|].
  apply elem_of_cons in Hin as [[= <- <-]|Hin]; [lia|by eapply IH].
Qed.

(** An eviction frees the announced number of entries, none of them seen after one it
    keeps. *)
Lemma evict_spec {E} t :
  1 <= table_len t ->
  exists m, @evict_least_recent V _ E t = Ok (with_entries m t) /\
    m ⊆ entries t /\ zsize m = table_len t - Z.max (table_len t / 16) 1 /\
    (forall k e k' e', entries t !! k = Some e -> m !! k = None -> m !! k' = Some e' ->
       last_seen e <= last_seen e').
Proof.
  intros Hne. unfold evict_least_recent, table_len in *.
  set (l := hash_iter (entries t)). set (ev := (fun ke => last_seen ke.2) <$> l).
  set (count := Z.max (zsize (entries t) / 16) 1).
  assert (zlen ev = zsize (entries t)) as Hlen.
  { unfold ev, l, zlen, zsize. by rewrite length_fmap, length_hash_iter. }
  assert (1 <= count <= zsize (entries t)) as Hcount.
  { unfold count. Z.div_mod_to_equations. lia. }
  assert (merge_sort Z.le ev ≡ₚ ev) as Hperm by apply merge_sort_Permutation.
  unfold get. destruct (Z.leb_spec 0 (count - 1)); [|lia].
  destruct (lookup_lt_is_Some_2 (merge_sort Z.le ev) (Z.to_nat (count - 1))) as [c Hc].
  { rewrite Hperm. unfold zlen in *. lia. }
  rewrite Hc.
  destruct (sorted_nth_count _ _ _ (Sorted_merge_sort Z.le ev) Hc) as [Hlt Hle].
  rewrite Hperm in Hlt, Hle. pose proof (filter_le_split ev c) as Hsplit.
  fold (zlen (filter (fun x => x < c)%Z ev)) in *. unfold zlen in Hsplit.
  assert (zlen (filter (fun x => x < c) ev) <= count - 1) by (unfold zlen; lia).
  destruct (Z.ltb_spec count (zlen (filter (fun x => x < c) ev))); [lia|].
  set (kept := evict_loop c _ l). assert (kept.*1 `sublist_of` l.*1) as Hsub.
  { apply fmap_sublist, evict_loop_sublist. }
  assert (forall k e, (list_to_map kept : gmap FlowKey (Entry V)) !! k = Some e <-> (k, e) ∈ kept)
    as Hk by (intros; by apply (retained_lookup (entries t))).
  exists (list_to_map kept). split_and!; [done| | |].
  - apply map_subseteq_spec. intros k e Hke%Hk. apply elem_of_hash_iter.
    eapply elem_of_sublist; [exact Hke|apply evict_loop_sublist].
  - unfold zsize at 1. rewrite (retained_size (entries t)) by done. fold (zlen kept).
    unfold kept. rewrite evict_loop_length by lia. fold ev. unfold zlen in *.
    rewrite <- (length_fmap (fun ke => last_seen ke.2) l). fold ev. lia.
  - intros k e k' e' He Hm He'%Hk. apply elem_of_hash_iter in He.
    assert ((k, e) ∉ kept) as Hout by (intros Hin%Hk; congruence).
    apply (evict_loop_old _ _ _ _ _ He) in Hout.
    apply evict_loop_recent in He'. lia.
Qed.

Lemma expire_subseteq t now : entries (expire t now) ⊆ entries t.
Proof. apply map_filter_subseteq. Qed.

Lemma zsize_subseteq (m m' : gmap FlowKey (Entry V)) : m ⊆ m' -> zsize m <= zsize m'.
Proof. intros ?%map_subseteq_size. unfold zsize. lia. Qed.

(** What an insert leaves: the new flow, and of the others some that were there; nothing
    else leaves while there is room. *)
Lemma insert_spec {E} t k v direction tcp_flags now :
  table_wf t ->
  exists m, @insert_flow V _ E t k v direction tcp_flags now =
      Ok (with_entries (<[k := mkEntry v now
        (if bool_decide (transport k = Tcp) then advance Open direction tcp_flags else Open)]> m) t)
    /\ m ⊆ entries t
    /\ zsize (<[k := mkEntry v now Open]> m) <= capacity t
    /\ (table_len t < capacity t \/ is_Some (entries t !! k) -> m = entries t).
Proof.
  intros [Hc Hl]. unfold insert_flow, table_len in *.
  assert (forall m, zsize m < capacity t \/ (zsize m <= capacity t /\ is_Some (m !! k)) ->
    zsize (<[k := mkEntry v now Open]> m) <= capacity t) as Hsize.
  { intros m Hm. unfold zsize in *. rewrite map_size_insert.
    destruct (m !! k) eqn:Hmk; unfold id; [lia|].
    destruct Hm as [?|[? [e He]]]; [lia|congruence]. }
  destruct (Z.leb_spec (capacity t) (zsize (entries t))).
  2: { exists (entries t). split_and!; [by destruct t|done|apply Hsize; lia|done]. }
  destruct (bool_decide (entries t !! k = None)) eqn:Hk; cbn [andb].
  2: { apply bool_decide_eq_false in Hk. exists (entries t).
       split_and!; [by destruct t|done| |done].
       apply Hsize. right. split; [lia|]. by apply not_eq_None_Some. }
  apply bool_decide_eq_true in Hk.
  cbv zeta. change (capacity (expire t now)) with (capacity t).
  destruct (Z.leb_spec (capacity t) (zsize (entries (expire t now)))).
  - destruct (@evict_spec E (expire t now)) as (m & Heq & Hm & Hz & _).
    { unfold table_len. lia. }
    exists m. rewrite Heq. cbn [mbind comp_bind].
    pose proof (zsize_subseteq _ _ (expire_subseteq t now)). unfold table_len in Hz.
    split_and!; [done|by etrans; [|apply expire_subseteq]|apply Hsize; left; lia|].
    intros [?|[? ?]]; [lia|congruence].
  - exists (entries (expire t now)). split_and!; [done|apply expire_subseteq| |].
    + apply Hsize. left. done.
    + intros [?|[? ?]]; [lia|congruence].
Qed.
End Eviction.

(** ** Every operation *)

Section Operations.
Context {V : Type} `{!HashOrder}.
Implicit Types (t : FlowTable V) (e : Entry V) (k : FlowKey) (v : V) (now : Z)
  (l : list (FlowKey * Entry V)).

(** What a closure that ignores its captured state makes of an entry. *)
Definition revised (now : Z) (g : FlowKey -> V -> V * Revision) k e : option (Entry V) :=
  match g k (value e) with
  | (v, Keep) => Some (mkEntry v (last_seen e) (lifecycle e))
  | (v, Close) => Some (mkEntry v now Closing)
  | (_, Forget) => None
  end.

Lemma revise_loop_kept {S} (f : S -> FlowKey -> V -> S * V * Revision) g now s l :
  (forall s k v, let '(_, v', r) := f s k v in (v', r) = g k v) ->
  (revise_loop f now s l).2 =
    omap (fun ke => e ← revised now g ke.1 ke.2; Some (ke.1, e)) l.
Proof.
  intros Hg. revert s. induction l as [|[k e] l IH]; intros s; simpl; [done|].
  specialize (Hg s k (value e)). destruct (f s k (value e)) as [[s' v] r].
  specialize (IH s'). destruct (revise_loop f now s' l) as [s'' kept]; simpl in *.
  unfold revised. rewrite <- Hg. destruct r; simpl; by rewrite IH.
Qed.

Lemma revise_lookup {S} t now (f : S -> FlowKey -> V -> S * V * Revision) g s k :
  (forall s k v, let '(_, v', r) := f s k v in (v', r) = g k v) ->
  entries (revise t now f s).2 !! k = (e ← entries t !! k; revised now g k e).
Proof.
  intros Hg. unfold revise.
  pose proof (revise_loop_kept f g now s (hash_iter (entries t)) Hg) as Hk.
  pose proof (revise_loop_sublist f now s (hash_iter (entries t))) as Hs.
  destruct (revise_loop f now s (hash_iter (entries t))) as [s' kept]; simpl in *.
  apply option_eq. intros e. rewrite (retained_lookup (entries t)) by done. rewrite Hk.
  rewrite list_elem_of_omap. split.
  - intros ([k' e'] & Hin & He). simpl in He.
    apply elem_of_hash_iter in Hin. destruct (revised now g k' e') eqn:Hr; simpl in He; [|done].
    injection He as <- <-. by rewrite Hin.
  - destruct (entries t !! k) as [e'|] eqn:He'; simpl; [|done]. intros Hr.
    exists (k, e'). rewrite elem_of_hash_iter. simpl. by rewrite Hr.
Qed.

Lemma revise_state {S} (P : S -> Prop) t now (f : S -> FlowKey -> V -> S * V * Revision) s :
  (forall s k e, entries t !! k = Some e -> P s -> P (f s k (value e)).1.1) -> P s ->
  P (revise t now f s).1.
Proof.
  intros Hf. unfold revise.
  assert (forall k e, (k, e) ∈ hash_iter (entries t) -> forall s, P s -> P (f s k (value e)).1.1) as Hl.
  { intros k e He%elem_of_hash_iter s0. by apply Hf. }
  revert Hl s. generalize (hash_iter (entries t)) as l. intros l Hl.
  assert (forall s, P s -> P (revise_loop f now s l).1) as Hloop.
  { induction l as [|[k e] l IH]; intros s0 H0; simpl; [done|].
    specialize (Hl k e ltac:(left) s0 H0) as H1. destruct (f s0 k (value e)) as [[s' v] r].
    specialize (IH ltac:(intros; apply Hl; [by right|done]) s' H1).
    destruct (revise_loop f now s' l) as [s'' kept]. by destruct r. }
  intros s H0. specialize (Hloop s H0). by destruct (revise_loop f now s l).
Qed.

Lemma revise_size {S} t now (f : S -> FlowKey -> V -> S * V * Revision) s :
  table_len (revise t now f s).2 <= table_len t.
Proof.
  unfold revise. pose proof (revise_loop_sublist f now s (hash_iter (entries t))) as Hs.
  destruct (revise_loop f now s (hash_iter (entries t))) as [s' kept]. by apply zsize_sublist.
Qed.

Lemma lookup_mut_size t k direction flags now :
  table_len (lookup_mut t k direction flags now).1 = table_len t
  /\ capacity (lookup_mut t k direction flags now).1 = capacity t.
Proof.
  unfold lookup_mut. destruct (entries t !! k) eqn:Hk; [|done].
  destruct (is_expired _ _ _); [done|]. split; [|done]. unfold table_len, zsize. cbn.
  rewrite map_size_insert, Hk. done.
Qed.

Lemma write_value_size k (f : V -> V) t :
  table_len (write_value k f t) = table_len t /\ capacity (write_value k f t) = capacity t.
Proof.
  split; [|done]. unfold table_len, zsize, write_value. cbn.
  rewrite <- !size_dom. by rewrite dom_alter_L.
Qed.

Lemma expire_size t now : table_len (expire t now) <= table_len t.
Proof. apply zsize_subseteq, expire_subseteq. Qed.

Lemma table_new_wf cap : table_wf (table_new cap : FlowTable V).
Proof. split; unfold table_new, table_len, zsize; cbn; [lia|]. rewrite map_size_empty. lia. Qed.

(** The operations a caller may run, in any order. *)
Inductive table_op : Type :=
| OpLookup (k : FlowKey) (d : Direction) (flags now : Z)
| OpWrite (k : FlowKey) (f : V -> V)
| OpInsert (k : FlowKey) (v : V) (d : Direction) (flags now : Z)
| OpRevise (g : FlowKey -> V -> V * Revision) (now : Z)
| OpExpire (now : Z)
| OpRemove (k : FlowKey)
| OpClear.

Definition run_op (t : FlowTable V) (op : table_op) : comp Empty_set (FlowTable V) :=
  match op with
  | OpLookup k d flags now => Ok (lookup_mut t k d flags now).1
  | OpWrite k f => Ok (write_value k f t)
  | OpInsert k v d flags now => insert_flow t k v d flags now
  | OpRevise g now =>
      Ok (revise t now (fun (s : unit) k v => (s, (g k v).1, (g k v).2)) ()).2
  | OpExpire now => Ok (expire t now)
  | OpRemove k => Ok (table_remove t k)
  | OpClear => Ok (table_clear t)
  end.

Fixpoint run_ops (t : FlowTable V) (ops : list table_op) : comp Empty_set (FlowTable V) :=
  match ops with [] => Ok t | op :: ops => t ← run_op t op; run_ops t ops end.

Lemma run_op_wf t op :
  table_wf t -> exists t', run_op t op = Ok t' /\ table_wf t' /\ capacity t' = capacity t.
Proof.
  intros [Hc Hl]. destruct op as [k d fl now|k f|k v d fl now|g now|now|k|]; simpl.
  - eexists; split; [done|]. destruct (lookup_mut_size t k d fl now). unfold table_wf. lia.
  - eexists; split; [done|]. destruct (write_value_size k f t). unfold table_wf. lia.
  - destruct (@insert_spec V _ Empty_set t k v d fl now) as (m & Heq & _ & Hz & _); [done|].
    eexists; split; [exact Heq|]. split; [|done]. split; [done|].
    unfold table_len, zsize in *. cbn. rewrite map_size_insert in *. done.
  - eexists; split; [done|].
    pose proof (revise_size t now (fun (s : unit) k v => (s, (g k v).1, (g k v).2)) ()).
    assert (capacity (revise t now (fun (s : unit) k v => (s, (g k v).1, (g k v).2)) ()).2
      = capacity t) as Hcap by (unfold revise; by destruct (revise_loop _ _ _ _)).
    unfold table_wf. rewrite Hcap. lia.
  - eexists; split; [done|]. pose proof (expire_size t now). unfold table_wf. cbn in *. lia.
  - eexists; split; [done|]. split; [|done]. split; [done|].
    unfold table_len in *. cbn. etrans; [apply zsize_subseteq, delete_subseteq|done].
  - eexists; split; [done|]. split; [|done]. split; [done|].
    unfold table_len, zsize. cbn. rewrite map_size_empty. lia.
Qed.

(** However a caller mixes lookups, inserts, policy revisions, sweeps and removals, no
    operation panics (the eviction's selection and subtraction included) and the table
    never holds more flows than the capacity it was created with (at least one). *)
Theorem flow_table_bounded (cap : Z) (ops : list table_op) :
  exists t, run_ops (table_new cap) ops = Ok t /\ table_len t <= Z.max cap 1.
Proof.
  assert (forall t, table_wf t -> exists t', run_ops t ops = Ok t' /\ table_wf t'
    /\ capacity t' = capacity t) as Hall.
  { induction ops as [|op ops IH]; intros t Ht; simpl; [by exists t|].
    destruct (run_op_wf t op Ht) as (t1 & -> & Ht1 & Hc1). simpl.
    destruct (IH t1 Ht1) as (t2 & -> & Ht2 & Hc2). exists t2. by rewrite Hc2. }
  destruct (Hall _ (table_new_wf cap)) as (t & Hrun & [_ Hl] & Hc).
  exists t. split; [done|]. rewrite Hc in Hl. exact Hl.
Qed.

(** A full table that must evict frees exactly a sixteenth of its flows (one at least):
    the flows it keeps are unchanged, and every flow it drops was last seen no later than
    every flow it keeps, so a batch sharing one timestamp never empties the table. *)
Theorem evict_oldest_first (t : FlowTable V) :
  1 <= table_len t ->
  exists t', @evict_least_recent V _ Empty_set t = Ok t' /\
    entries t' ⊆ entries t /\
    table_len t' = table_len t - Z.max (table_len t / 16) 1 /\
    (forall k e k' e', entries t !! k = Some e -> entries t' !! k = None ->
       entries t' !! k' = Some e' -> last_seen e <= last_seen e').
Proof. intros Hne. destruct (@evict_spec V _ Empty_set t Hne) as (m & ? & ?). by eexists. Qed.

(** A flow inserted at [now] answers lookups until it has been silent past the timeout of
    its transport (2 h for TCP, 180 s for UDP, 30 s for an echo, 10 s once its first segment
    was a reset), and not after; the other flows of a table with room are untouched. *)
Theorem inserted_flow_lives (t : FlowTable V) k v d flags now later :
  table_wf t -> now <= later ->
  exists t', @insert_flow V _ Empty_set t k v d flags now = Ok t' /\
    peek t' k later =
      (let idle := match transport k with
                   | Tcp => if Z.land flags FLAG_RST =? 0 then TCP_IDLE else CLOSING_LINGER
                   | Udp => UDP_IDLE
                   | IcmpEcho => ICMP_IDLE
                   end in
       if later - now <=? idle then Some v else None) /\
    (table_len t < capacity t -> forall k', k' <> k -> entries t' !! k' = entries t !! k').
Proof.
  intros Hwf Hle. destruct (@insert_spec V _ Empty_set t k v d flags now Hwf)
    as (m & -> & Hm & _ & Hroom).
  eexists; split; [done|]. split.
  - unfold peek. cbn [entries with_entries]. rewrite lookup_insert_eq. cbn [value].
    unfold is_expired. cbn [lifecycle last_seen]. unfold saturating_duration_since.
    rewrite Z.max_r by lia. unfold timeout_of, advance.
    destruct (transport k); [rewrite bool_decide_eq_true_2 by done|..].
    + destruct (Z.land flags FLAG_RST =? 0); cbn [negb];
        [destruct (Z.land flags FLAG_FIN =? 0)|];
        destruct (Z.ltb_spec TCP_IDLE (later - now)), (Z.leb_spec (later - now) TCP_IDLE),
          (Z.ltb_spec CLOSING_LINGER (later - now)), (Z.leb_spec (later - now) CLOSING_LINGER);
          try done; lia.
    + rewrite bool_decide_eq_false_2 by done.
      destruct (Z.ltb_spec UDP_IDLE (later - now)), (Z.leb_spec (later - now) UDP_IDLE);
        try done; lia.
    + rewrite bool_decide_eq_false_2 by done.
      destruct (Z.ltb_spec ICMP_IDLE (later - now)), (Z.leb_spec (later - now) ICMP_IDLE);
        try done; lia.
  - intros Hr k' Hk'. rewrite Hroom by (by left). cbn. by rewrite lookup_insert_ne.
Qed.
End Operations.

(** ** The life of a TCP connection *)

Section Lifecycle.
(** What a connection's segments say, each with the way it crossed the device. *)
Definition follow_segments (segments : list (Direction * Z)) : Lifecycle :=
  fold_left (fun l s => advance l s.1 s.2) segments Open.

Definition is_rst (s : Direction * Z) : bool := negb (Z.land s.2 FLAG_RST =? 0).
Definition is_fin (d : Direction) (s : Direction * Z) : bool :=
  bool_decide (s.1 = d) && negb (Z.land s.2 FLAG_FIN =? 0).

(** The reference: closing once a reset was seen or both sides sent a FIN. *)
Definition lifecycle_spec (segments : list (Direction * Z)) : Lifecycle :=
  if existsb is_rst segments then Closing
  else match existsb (is_fin Uplink) segments, existsb (is_fin Downlink) segments with
       | true, true => Closing
       | true, false => HalfClosed Uplink
       | false, true => HalfClosed Downlink
       | false, false => Open
       end.

(** The incremental lifecycle of a tracked TCP flow is the one its whole history of
    segments defines, in whatever order they came: closing exactly when some segment was a
    reset or a FIN was seen in both directions, half closed when in one only. *)
Theorem lifecycle_follows_history segments :
  follow_segments segments = lifecycle_spec segments.
Proof.
  unfold follow_segments, lifecycle_spec.
  induction segments as [|[d f] l IH] using rev_ind; [done|].
  rewrite fold_left_app, !existsb_app, IH. simpl. unfold advance, is_rst, is_fin. simpl.
  destruct (existsb (fun s => negb (Z.land s.2 FLAG_RST =? 0)) l);
    destruct (Z.land f FLAG_RST =? 0), (Z.land f FLAG_FIN =? 0), d; simpl;
    repeat match goal with |- context [existsb ?g ?x] => destruct (existsb g x) end;
    try done; simpl; by repeat case_bool_decide.
Qed.
End Lifecycle.

(** ** Witnesses *)

Definition sample_ip (d : Z) : IpAddr := V4 [10; 0; 0; d].
Definition sample_key (p : Z) : FlowKey :=
  mkFlowKey Udp (mkSocketAddr (sample_ip 2) p) (mkSocketAddr (sample_ip 9) 53).
Definition sample_table : FlowTable Z :=
  mkFlowTable {[ sample_key 1 := mkEntry 10 (secs 1) Open;
                 sample_key 2 := mkEntry 20 (secs 2) Open ]} 2.

Lemma evict_oldest_first_witness :
  exists t', @evict_least_recent Z default_order Empty_set sample_table = Ok t' /\
    entries t' ⊆ entries sample_table /\
    table_len t' = table_len sample_table - Z.max (table_len sample_table / 16) 1 /\
    (forall k e k' e', entries sample_table !! k = Some e -> entries t' !! k = None ->
       entries t' !! k' = Some e' -> last_seen e <= last_seen e').
Proof. apply (@evict_oldest_first Z default_order sample_table). vm_compute. discriminate. Defined.

Lemma inserted_flow_lives_witness :
  exists t', @insert_flow Z default_order Empty_set sample_table (sample_key 3) 30 Uplink 0 (secs 5)
      = Ok t' /\
    peek t' (sample_key 3) (secs 100) = Some 30.
Proof.
  destruct (@inserted_flow_lives Z default_order sample_table (sample_key 3) 30 Uplink 0
    (secs 5) (secs 100)) as (t' & Heq & Hpeek & _).
  - split; vm_compute; discriminate.
  - vm_compute. discriminate.
  - exists t'. split; [exact Heq|]. rewrite Hpeek. reflexivity.
Defined.

(** A full table evicts the flow seen longest ago. *)
Example insert_evicts_oldest :
  match @insert_flow Z default_order Empty_set sample_table (sample_key 3) 30 Uplink 0 (secs 5) with
  | Ok t => entries t !! sample_key 1 = None /\ value <$> entries t !! sample_key 2 = Some 20
  | _ => False
  end.
Proof. vm_compute. done. Qed.
