(* ===== verification/Checksum.v ===== *)
(** * One's complement sums: the arithmetic of the Internet checksum

    Shared by the translation (nat.rs) and by the packets built toward an app
    (reset.rs).  A checksum is right when the 16-bit words it covers, itself
    included, sum to a multiple of 65535 (RFC 1071); what each rewrite has to
    keep is that sum, modulo 65535. *)

From S2P Require Import Prelude.
From Stdlib Require Export Setoid Morphisms.
Open Scope Z_scope.

(** Congruence modulo 65535, as a setoid. *)
Definition cong (a b : Z) : Prop := exists k, a = b + k * 65535.
Infix "≡₁" := cong (at level 70).

#[export] Instance cong_equivalence : Equivalence cong.
Proof.
  split.
  - intros a. exists 0. lia.
  - intros a b [k ->]. exists (- k). lia.
  - intros a b c [k ->] [j ->]. exists (k + j). lia.
Qed.
#[export] Instance cong_add : Proper (cong ==> cong ==> cong) Z.add.
Proof. intros a b [k ->] c d [j ->]. exists (k + j). lia. Qed.
#[export] Instance cong_sub : Proper (cong ==> cong ==> cong) Z.sub.
Proof. intros a b [k ->] c d [j ->]. exists (k - j). lia. Qed.

Lemma cong_mod a b : a ≡₁ b <-> a mod 65535 = b mod 65535.
Proof.
  split.
  - intros [k ->]. apply Z.mod_add. lia.
  - intros H. exists (a / 65535 - b / 65535).
    pose proof (Z.div_mod a 65535 ltac:(lia)). pose proof (Z.div_mod b 65535 ltac:(lia)). lia.
Qed.

(** The sum of the big-endian 16-bit words of a buffer, an odd last byte
    padded with a zero (RFC 1071). *)
Fixpoint wsum (l : bytes) : Z :=
  match l with
  | a :: b :: l => u16_be a b + wsum l
  | [a] => u16_be a 0
  | [] => 0
  end.

(** [chunks_exact(2)], each as a [u16]. *)
Fixpoint words (l : bytes) : list Z :=
  match l with a :: b :: l => u16_be a b :: words l | _ => [] end.

(** [while sum > 0xffff { sum = (sum & 0xffff) + (sum >> 16) }], [n] rounds
    at most; [Panic] stands for a loop that did not end in that many. *)
Fixpoint fold_carries {E} (n : nat) (sum : Z) : comp E Z :=
  match n with
  | O => if sum <=? 65535 then Ok sum else Panic
  | S n =>
      if sum <=? 65535 then Ok sum
      else fold_carries n (Z.land sum 65535 + Z.shiftr sum 16)
  end.

(** Two bytes at a time. *)
Lemma bytes_ind2 (P : bytes -> Prop) :
  P [] -> (forall a, P [a]) -> (forall a b l, P l -> P (a :: b :: l)) -> forall l, P l.
Proof.
  intros H0 H1 H2. fix IH 1. intros [|a [|b l]]; [exact H0|apply H1|apply H2, IH].
Qed.

Lemma fold_step s :
  0 <= s -> Z.land s 65535 + Z.shiftr s 16 = s mod 65536 + s / 65536.
Proof.
  intros. change 65535 with (Z.ones 16). rewrite Z.land_ones, Z.shiftr_div_pow2 by lia. done.
Qed.

(** Three rounds are enough for any [u32], and keep the sum modulo 65535. *)
Lemma fold_carries_ok {E} s :
  is_u32 s ->
  exists r, @fold_carries E 3 s = Ok r /\ is_u16 r /\ r ≡₁ s /\ (0 < s -> 0 < r).
Proof.
  unfold is_u32. intros Hs.
  assert (forall s n, 0 <= s -> 65535 < s ->
    @fold_carries E (S n) s = fold_carries n (s mod 65536 + s / 65536)) as Hstep.
  { intros s' n H0 H1. cbn [fold_carries]. destruct (Z.leb_spec s' 65535); [lia|].
    by rewrite fold_step. }
  assert (forall s n, s <= 65535 -> @fold_carries E n s = Ok s) as Hdone.
  { intros s' n H. destruct n; cbn [fold_carries]; by destruct (Z.leb_spec s' 65535); try lia. }
  assert (forall s, s mod 65536 + s / 65536 ≡₁ s) as Hc.
  { intros s'. exists (- (s' / 65536)). Z.div_mod_to_equations. lia. }
  destruct (Z.le_gt_cases s 65535).
  { exists s. rewrite Hdone by done. unfold is_u16. split_and!; [done|lia|lia|done|done]. }
  rewrite Hstep by lia. set (s1 := s mod 65536 + s / 65536).
  assert (0 < s1 <= 131070) by (unfold s1; Z.div_mod_to_equations; lia).
  assert (s1 ≡₁ s) as H1 by apply Hc.
  destruct (Z.le_gt_cases s1 65535).
  { exists s1. rewrite Hdone by done. unfold is_u16. split_and!; [done|lia|lia|done|lia]. }
  rewrite Hstep by lia. set (s2 := s1 mod 65536 + s1 / 65536).
  assert (0 < s2 <= 65535) by (unfold s2; Z.div_mod_to_equations; lia).
  exists s2. rewrite Hdone by lia. unfold is_u16.
  split_and!; [done|lia|lia|by rewrite <- H1; apply Hc|lia].
Qed.

(** ** Word sums of parts of a buffer *)

Lemma wsum_app l1 l2 : zlen l1 mod 2 = 0 -> wsum (l1 ++ l2) = wsum l1 + wsum l2.
Proof.
  induction l1 as [| |a b l1 IH] using bytes_ind2; intros H; [done| |].
  - by vm_compute in H.
  - simpl. rewrite IH; [lia|]. rewrite !zlen_cons in H. rewrite <- H.
    rewrite Z.add_assoc. change (1 + 1 + zlen l1) with (1 * 2 + zlen l1).
    by rewrite Z.add_comm, Z.mod_add by lia.
Qed.

Lemma wsum_nonneg l : bytes_ok l -> 0 <= wsum l <= 65535 * zlen l.
Proof.
  unfold u16_be. induction l as [|a|a b l IH] using bytes_ind2; intros Hb.
  - unfold zlen. simpl. lia.
  - apply Forall_cons in Hb as [Ha _]. unfold zlen, is_byte, u16_be in *. simpl. unfold u16_be. lia.
  - apply Forall_cons in Hb as [Ha Hb]. apply Forall_cons in Hb as [Hb Hl].
    specialize (IH Hl). rewrite !zlen_cons. simpl. unfold u16_be, is_byte in *.
    pose proof (zlen_nonneg l). lia.
Qed.

Lemma wsum_be16 v : is_u16 v -> wsum (be16 v) = v.
Proof. intros. simpl. rewrite u16_be_be16 by done. lia. Qed.

Lemma split_at l a b :
  0 <= a <= b -> b <= zlen l ->
  l = sub l 0 a ++ sub l a b ++ sub l b (zlen l).
Proof.
  intros. unfold sub, zlen in *. rewrite drop_0.
  rewrite <- (take_drop (Z.to_nat a) l) at 1. rewrite Z.sub_0_r. f_equal.
  rewrite <- (take_drop (Z.to_nat (b - a)) (drop (Z.to_nat a) l)) at 1. f_equal.
  rewrite drop_drop. replace (Z.to_nat a + Z.to_nat (b - a))%nat with (Z.to_nat b) by lia.
  symmetry. apply firstn_all2. rewrite length_drop. lia.
Qed.

Lemma overwrite_split l a new :
  0 <= a -> a + zlen new <= zlen l ->
  overwrite l a new = sub l 0 a ++ new ++ sub l (a + zlen new) (zlen l).
Proof.
  intros. unfold overwrite, sub, zlen in *. rewrite drop_0, Z.sub_0_r. do 2 f_equal.
  symmetry. apply firstn_all2. rewrite length_drop. lia.
Qed.

Lemma wsum_overwrite l a new :
  0 <= a -> a + zlen new <= zlen l -> a mod 2 = 0 -> zlen new mod 2 = 0 ->
  wsum (overwrite l a new) = wsum l - wsum (sub l a (a + zlen new)) + wsum new.
Proof.
  intros. pose proof (zlen_nonneg new). set (b := a + zlen new).
  assert (wsum l = wsum (sub l 0 a) + (wsum (sub l a b) + wsum (sub l b (zlen l)))) as Hl.
  { rewrite (split_at l a b) at 1 by lia.
    rewrite !wsum_app; [done|..]; rewrite zlen_sub by lia; unfold b; Z.div_mod_to_equations; lia. }
  rewrite overwrite_split by done. fold b.
  rewrite !wsum_app; [lia|done|]. rewrite zlen_sub by lia. by rewrite Z.sub_0_r.
Qed.

Lemma sub_overwrite_out l a new x y :
  0 <= a -> a + zlen new <= zlen l -> 0 <= x <= y -> y <= zlen l ->
  a + zlen new <= x \/ y <= a ->
  sub (overwrite l a new) x y = sub l x y.
Proof.
  intros. pose proof (zlen_nonneg new).
  apply bytes_ext; rewrite !zlen_sub by (rewrite ?zlen_overwrite by done; lia); [done|].
  intros i ?. rewrite !byte_at_sub by lia. rewrite byte_at_overwrite by lia.
  destruct (Z.leb_spec a (x + i)), (Z.ltb_spec (x + i) (a + zlen new)); simpl; try done; lia.
Qed.

Lemma sub_overwrite_in l a new x y :
  0 <= a -> a + zlen new <= zlen l -> 0 <= x <= a -> a + zlen new <= y -> y <= zlen l ->
  sub (overwrite l a new) x y = overwrite (sub l x y) (a - x) new.
Proof.
  intros. pose proof (zlen_nonneg new).
  apply bytes_ext; rewrite ?zlen_overwrite, !zlen_sub by
    (rewrite ?zlen_overwrite, ?zlen_sub by lia; lia); [done|].
  intros i ?. rewrite byte_at_sub by lia. rewrite !byte_at_overwrite by (rewrite ?zlen_sub by lia; lia).
  rewrite byte_at_sub by lia.
  destruct (Z.leb_spec a (x + i)), (Z.leb_spec (a - x) i), (Z.ltb_spec (x + i) (a + zlen new)),
    (Z.ltb_spec i (a - x + zlen new)); simpl; try lia; try done.
  f_equal. lia.
Qed.

Lemma sub_overwrite_same l a new :
  0 <= a -> a + zlen new <= zlen l -> sub (overwrite l a new) a (a + zlen new) = new.
Proof.
  intros. pose proof (zlen_nonneg new).
  apply bytes_ext; rewrite zlen_sub by (rewrite ?zlen_overwrite; lia); [lia|].
  intros i ?. rewrite byte_at_sub by lia. rewrite byte_at_overwrite by lia.
  destruct (Z.leb_spec a (a + i)), (Z.ltb_spec (a + i) (a + zlen new)); simpl; try lia.
  f_equal. lia.
Qed.

(** The sum over a range a write falls inside. *)
Lemma wsum_sub_overwrite l a new x y :
  0 <= a -> a + zlen new <= zlen l -> 0 <= x <= a -> a + zlen new <= y -> y <= zlen l ->
  x mod 2 = 0 -> a mod 2 = 0 -> zlen new mod 2 = 0 ->
  wsum (sub (overwrite l a new) x y) =
    wsum (sub l x y) - wsum (sub l a (a + zlen new)) + wsum new.
Proof.
  intros. pose proof (zlen_nonneg new). rewrite sub_overwrite_in by lia.
  rewrite wsum_overwrite; [|lia|rewrite zlen_sub by lia; lia|Z.div_mod_to_equations; lia|done].
  rewrite sub_sub by lia. do 3 f_equal; f_equal; lia.
Qed.

Lemma sub_pair l a :
  0 <= a -> a + 2 <= zlen l -> sub l a (a + 2) = [byte_at l a; byte_at l (a + 1)].
Proof.
  intros. apply bytes_ext; rewrite zlen_sub by lia; [unfold zlen; simpl; lia|].
  intros i ?. rewrite byte_at_sub by lia. assert (i = 0 \/ i = 1) as [->| ->] by lia.
  - by rewrite Z.add_0_r.
  - done.
Qed.

Lemma words_sum l :
  zlen l mod 2 = 0 -> foldr Z.add 0 (words l) = wsum l
    /\ foldr Z.add 0 ((fun w => 65535 - w) <$> words l) ≡₁ - wsum l.
Proof.
  induction l as [|a|a b l IH] using bytes_ind2; intros H; [done|by vm_compute in H|].
  rewrite !zlen_cons in H. destruct IH as [IH1 IH2].
  { rewrite <- H. rewrite Z.add_assoc. change (1 + 1 + zlen l) with (1 * 2 + zlen l).
    by rewrite (Z.add_comm (1 * 2)), Z.mod_add by lia. }
  simpl. rewrite IH1. split; [done|]. rewrite IH2. exists 1. lia.
Qed.
