(* ===== verification/Nat.v ===== *)
(** * In-place address translation for routed flows (talpid-app-routing/src/nat.rs) *)

From S2P Require Import Prelude Net Ip Flow Checksum.
Open Scope Z_scope.

Inductive NatError : Type := NatPacket (e : PacketError) | FamilyMismatch.

Inductive Side : Type := Source | Destination.

#[export] Instance Side_eq_dec : EqDecision Side.
Proof. solve_decision. Defined.

(** An address as the bytes it occupies in a header: 16 bytes, [ab_len] of them used. *)
Record AddrBytes : Type := mkAddrBytes { ab_bytes : bytes; ab_len : Z }.

Definition AddrBytes_of (addr : IpAddr) : AddrBytes :=
  match addr with
  | V4 o => mkAddrBytes (overwrite (replicate 16 0) 0 o) 4
  | V6 o => mkAddrBytes o 16
  end.

Definition AddrBytes_from_slice {E} (s : bytes) : comp E AddrBytes :=
  b ← copy_at (replicate 16 0) 0 s; Ok (mkAddrBytes b (zlen s)).

Definition as_slice (a : AddrBytes) : bytes := sub (ab_bytes a) 0 (ab_len a).

Definition is_icmp_error (f : Family) (message_type : Z) : bool :=
  match f with
  | FamilyV4 => (message_type =? 3) || (message_type =? 11) || (message_type =? 12)
  | FamilyV6 => (1 <=? message_type) && (message_type <=? 4)
  end.

(** The sum accumulates in a [u32], at most 17 words of 16 bits. *)
Definition update_checksum {E} (packet : bytes) (at_ : Z) (old new : bytes) : comp E bytes :=
  s0 ← index packet at_; s1 ← index packet (at_ + 1);
  let stored := u16_be s0 s1 in
  let sum := 65535 - stored in
  let sum := fold_left (fun sum word => sum + (65535 - word)) (words old) sum in
  let sum := fold_left (fun sum word => sum + word) (words new) sum in
  sum ← fold_carries 3 sum;
  copy_at packet at_ (be16 (65535 - sum)).

(** The end of [rewrite_quoted_source], once the quoted source is rewritten. *)
Definition fix_quoted_checksums {E} (packet : bytes) (icmp quoted_start : Z)
    (quoted_family : Family) (old new : bytes) : comp E bytes :=
  packet ← update_checksum packet (icmp + 2) old new;
  match quoted_family with
  | FamilyV4 =>
      let field := quoted_start + 10 in
      b0 ← index packet field; b1 ← index packet (field + 1);
      packet ← update_checksum packet field old new;
      a0 ← index packet field; a1 ← index packet (field + 1);
      update_checksum packet (icmp + 2) [b0; b1] [a0; a1]
  | FamilyV6 => Ok packet
  end.

Definition rewrite_quoted_source {E} (packet : bytes) (layout : Layout) (old new : AddrBytes)
    : comp E bytes :=
  let icmp := l4_offset layout in
  let quoted_start := icmp + 8 in
  quoted_bytes ← slice packet quoted_start (end_ layout);
  match locate_quoted quoted_bytes with
  | Panic => Panic
  | Err _ => Ok packet
  | Ok quoted =>
      if negb (bool_decide (family quoted = family layout)) then Ok packet else
      let '(a, b) := src_range quoted in
      let s := quoted_start + a in
      cur ← slice packet s (quoted_start + b);
      if negb (bool_decide (cur = as_slice old)) then Ok packet else
      packet ← copy_at packet s (as_slice new);
      fix_quoted_checksums packet icmp quoted_start (family quoted) (as_slice old) (as_slice new)
  end.

Definition rewrite_transport {E} (packet : bytes) (layout : Layout) (old new : AddrBytes)
    (side : Side) : comp E bytes :=
  let l4 := l4_offset layout in
  let available := Z.max 0 (end_ layout - l4) in
  if (protocol layout =? PROTO_TCP) && (18 <=? available) then
    update_checksum packet (l4 + 16) (as_slice old) (as_slice new)
  else if (protocol layout =? PROTO_UDP) && (8 <=? available) then
    c0 ← index packet (l4 + 6); c1 ← index packet (l4 + 7);
    let absent := (c0 =? 0) && (c1 =? 0) in
    if bool_decide (family layout = FamilyV6) || negb absent then
      packet ← update_checksum packet (l4 + 6) (as_slice old) (as_slice new);
      c0 ← index packet (l4 + 6); c1 ← index packet (l4 + 7);
      if (c0 =? 0) && (c1 =? 0) then
        packet ← copy_at packet (l4 + 6) [255];
        copy_at packet (l4 + 7) [255]
      else Ok packet
    else Ok packet
  else if ((protocol layout =? PROTO_ICMP) || (protocol layout =? PROTO_ICMPV6))
          && (8 <=? available) then
    packet ← (if protocol layout =? PROTO_ICMPV6
              then update_checksum packet (l4 + 2) (as_slice old) (as_slice new)
              else Ok packet);
    t ← index packet l4;
    if bool_decide (side = Destination) && is_icmp_error (family layout) t
    then rewrite_quoted_source packet layout old new
    else Ok packet
  else Ok packet.

(** The address and IPv4 checksum part of a rewrite. *)
Definition rewrite_header {E} (packet : bytes) (l : Layout) (old new : bytes) (a : Z) : comp E bytes :=
  packet ← copy_at packet a new;
  match family l with
  | FamilyV4 => update_checksum packet 10 old new
  | FamilyV6 => Ok packet
  end.

(** The packet afterwards, and the error when there is one. *)
Definition rewrite {E} (packet : bytes) (new : IpAddr) (side : Side)
    : comp E (bytes * option NatError) :=
  match locate packet with
  | Panic => Panic
  | Err e => Ok (packet, Some (NatPacket e))
  | Ok layout =>
      let new := AddrBytes_of new in
      let family_len := match family layout with FamilyV4 => 4 | FamilyV6 => 16 end in
      if negb (ab_len new =? family_len) then Ok (packet, Some FamilyMismatch) else
      let '(a, b) := match side with Source => src_range layout | Destination => dst_range layout end in
      cur ← slice packet a b;
      old ← AddrBytes_from_slice cur;
      packet ← rewrite_header packet layout (as_slice old) (as_slice new) a;
      packet ← (if has_transport layout
                then rewrite_transport packet layout old new side
                else Ok packet);
      Ok (packet, None)
  end.

Definition rewrite_source {E} (packet : bytes) (new : IpAddr) : comp E (bytes * option NatError) :=
  rewrite packet new Source.

Definition rewrite_destination {E} (packet : bytes) (new : IpAddr)
    : comp E (bytes * option NatError) :=
  rewrite packet new Destination.

(** ** The incremental update *)

Definition even_bytes (l : bytes) : Prop := bytes_ok l /\ zlen l mod 2 = 0 /\ zlen l <= 16.

Lemma words_bound l :
  bytes_ok l ->
  Forall is_u16 (words l) /\ (2 * length (words l) <= length l)%nat.
Proof.
  induction l as [|a|a b l IH] using bytes_ind2; intros Hb; simpl; [by split; [|lia]|by split; [|lia]|].
  apply Forall_cons in Hb as [Ha Hb]. apply Forall_cons in Hb as [Hb Hl].
  destruct (IH Hl). split; [|lia]. constructor; [|done]. by apply u16_be_range.
Qed.

Lemma fold_left_add (f : Z -> Z) l s :
  fold_left (fun s w => s + f w) l s = s + foldr Z.add 0 (f <$> l).
Proof.
  revert s. induction l as [|x l IH]; intros s; [simpl; lia|].
  cbn [fold_left]. rewrite IH, fmap_cons. cbn [foldr]. lia.
Qed.

Lemma foldr_add_bound (f : Z -> Z) l :
  Forall is_u16 l -> (forall w, is_u16 w -> 0 <= f w <= 65535) ->
  0 <= foldr Z.add 0 (f <$> l) <= 65535 * zlen l.
Proof.
  intros Hl Hf. induction Hl as [|x l Hx Hl IH]; [unfold zlen; simpl; lia|].
  rewrite zlen_cons, fmap_cons. cbn [foldr]. specialize (Hf x Hx). lia.
Qed.

(** The update writes one 16-bit word, congruent to the stored one plus the old words
    minus the new ones (RFC 1624, equation 3). *)
Lemma update_checksum_ok {E} packet at_ old new :
  bytes_ok packet -> 0 <= at_ -> at_ + 2 <= zlen packet -> even_bytes old -> even_bytes new ->
  exists c, @update_checksum E packet at_ old new = Ok (overwrite packet at_ (be16 c)) /\
    is_u16 c /\
    c ≡₁ u16_be (byte_at packet at_) (byte_at packet (at_ + 1)) + wsum old - wsum new.
Proof.
  intros Hb Hat Hlen (Ho & Ho2 & Ho16) (Hn & Hn2 & Hn16). unfold update_checksum. in_range.
  set (stored := u16_be _ _).
  assert (is_u16 stored) as Hs by (unfold stored; auto with packet).
  rewrite (fold_left_add (fun w => 65535 - w)), (fold_left_add id), list_fmap_id.
  destruct (words_bound old Ho) as [Hwo Hlo]. destruct (words_bound new Hn) as [Hwn Hln].
  destruct (words_sum old Ho2) as [_ Hso]. destruct (words_sum new Hn2) as [Hsn _].
  pose proof (foldr_add_bound (fun w => 65535 - w) _ Hwo ltac:(unfold is_u16; lia)) as Hbo.
  pose proof (foldr_add_bound id _ Hwn ltac:(unfold is_u16, id; lia)) as Hbn.
  rewrite list_fmap_id in Hbn.
  set (sum := 65535 - stored + _ + _).
  destruct (@fold_carries_ok E sum) as (r & -> & Hr & Hc & _).
  { unfold is_u32, is_u16, sum, zlen in *. lia. }
  simpl. unfold is_u16 in *. exists (65535 - r). rewrite copy_at_ok by (unfold zlen in *; simpl; lia).
  split_and!; [done|lia|lia|]. rewrite Hc. unfold sum. rewrite Hsn, Hso. exists 0. lia.
Qed.

(** [p'] differs from [p] at most where [W] holds. *)
Definition differs (W : Z -> Prop) (p p' : bytes) : Prop :=
  zlen p' = zlen p /\ bytes_ok p' /\ forall i, 0 <= i -> ~ W i -> byte_at p' i = byte_at p i.

Definition at_range (a b : Z) : Z -> Prop := fun i => a <= i < b.

Lemma differs_refl W p : bytes_ok p -> differs W p p.
Proof. done. Qed.

Lemma differs_trans W p q r : differs W p q -> differs W q r -> differs W p r.
Proof.
  intros (H1 & H2 & H3) (H4 & H5 & H6).
  split_and!; [lia|done|]. intros i Hi HW. by rewrite H6, H3.
Qed.

Lemma differs_mono (W W' : Z -> Prop) p q :
  (forall i, W i -> W' i) -> differs W p q -> differs W' p q.
Proof. intros HW (H1 & H2 & H3). split_and!; [done|done|]. intros i Hi HW'. apply H3; auto. Qed.

Lemma differs_overwrite p a new :
  bytes_ok p -> bytes_ok new -> 0 <= a -> a + zlen new <= zlen p ->
  differs (at_range a (a + zlen new)) p (overwrite p a new).
Proof.
  intros. split_and!; [by apply zlen_overwrite|by apply bytes_ok_overwrite|].
  unfold at_range. intros i Hi HW. rewrite byte_at_overwrite by lia.
  destruct (Z.leb_spec a i), (Z.ltb_spec i (a + zlen new)); simpl; try done; lia.
Qed.

Lemma differs_sub W p p' a b :
  differs W p p' -> 0 <= a <= b -> b <= zlen p -> (forall i, a <= i < b -> ~ W i) ->
  sub p' a b = sub p a b.
Proof.
  intros (Hl & _ & Hi) ???. apply bytes_ext; rewrite !zlen_sub by lia; [done|].
  intros i ?. rewrite !byte_at_sub by lia. apply Hi; [lia|]. auto with lia.
Qed.

(** One update of a 16-bit field, as a change of the sums that cover it. *)
Lemma update_checksum_sum {E} p at_ old new :
  bytes_ok p -> 0 <= at_ -> at_ mod 2 = 0 -> at_ + 2 <= zlen p -> even_bytes old -> even_bytes new ->
  exists p', @update_checksum E p at_ old new = Ok p' /\
    differs (at_range at_ (at_ + 2)) p p' /\
    u16_be (byte_at p' at_) (byte_at p' (at_ + 1)) ≡₁
      u16_be (byte_at p at_) (byte_at p (at_ + 1)) + wsum old - wsum new /\
    (forall x y, 0 <= x <= at_ -> x mod 2 = 0 -> at_ + 2 <= y <= zlen p ->
       wsum (sub p' x y) ≡₁ wsum (sub p x y) + wsum old - wsum new).
Proof.
  intros Hb H0 H2 Hl Ho Hn. destruct (@update_checksum_ok E p at_ old new) as (c & Heq & Hc & Hcc);
    [done..|]. assert (zlen (be16 c) = 2) as Hz by done.
  exists (overwrite p at_ (be16 c)). split_and!; [exact Heq| | |].
  - rewrite <- Hz at 1. by apply differs_overwrite; auto with packet.
  - rewrite !byte_at_overwrite by lia. rewrite Hz.
    destruct (Z.leb_spec at_ at_), (Z.ltb_spec at_ (at_ + 2)), (Z.leb_spec at_ (at_ + 1)),
      (Z.ltb_spec (at_ + 1) (at_ + 2)); try lia. cbn [andb].
    replace (at_ - at_) with 0 by lia. replace (at_ + 1 - at_) with 1 by lia.
    unfold byte_at at 1 2. simpl. by rewrite u16_be_be16.
  - intros x y Hx Hx2 Hy. rewrite wsum_sub_overwrite by (rewrite ?Hz; first [done|lia]).
    rewrite Hz, sub_pair by lia. rewrite wsum_be16 by done. rewrite Hcc. simpl. exists 0. lia.
Qed.

(** The address of a header being rewritten, as a change of the sums that cover it. *)
Lemma overwrite_sum p a new x y :
  bytes_ok p -> even_bytes new -> 0 <= x <= a -> x mod 2 = 0 -> a mod 2 = 0 ->
  a + zlen new <= y -> y <= zlen p ->
  wsum (sub (overwrite p a new) x y) =
    wsum (sub p x y) - wsum (sub p a (a + zlen new)) + wsum new.
Proof. intros ? (? & ? & ?) ?????. by apply wsum_sub_overwrite; try lia. Qed.

(** ** The packet an ICMP error quotes *)

(** What the translated error quotes: the header of a packet from [old], now from [new]. *)
Definition quotes_source (p : bytes) (l : Layout) (addr : bytes) : Prop :=
  exists q, locate_quoted (sub p (l4_offset l + 8) (end_ l)) = Ok q /\ family q = family l /\
    sub p (l4_offset l + 8 + (src_range q).1) (l4_offset l + 8 + (src_range q).2) = addr.

(** The quoted source and the ICMP checksum over it. *)
Lemma quoted_source_step {E} p l4 s e old new :
  bytes_ok p -> 0 <= l4 -> l4 mod 2 = 0 -> s mod 2 = 0 -> l4 + 8 <= s ->
  s + zlen old <= e -> e <= zlen p -> even_bytes old -> even_bytes new -> zlen new = zlen old ->
  sub p s (s + zlen old) = old ->
  exists p2, @update_checksum E (overwrite p s new) (l4 + 2) old new = Ok p2 /\
    differs (fun i => at_range (l4 + 2) (l4 + 4) i \/ at_range s (s + zlen old) i) p p2 /\
    wsum (sub p2 l4 e) ≡₁ wsum (sub p l4 e) /\
    sub p2 s (s + zlen old) = new /\
    (forall x y, l4 + 8 <= x <= s -> x mod 2 = 0 -> s + zlen old <= y <= e ->
       wsum (sub p2 x y) = wsum (sub p x y) - wsum old + wsum new).
Proof.
  intros Hb H0 H2 Hs2 Hs He Hep Ho Hn Hlen Hold. pose proof (zlen_nonneg old).
  assert (bytes_ok new) by apply Hn.
  assert (differs (at_range s (s + zlen old)) p (overwrite p s new)) as Hd1.
  { rewrite <- Hlen. apply differs_overwrite; auto with packet; lia. }
  pose proof Hd1 as (Hz1 & Hb1 & _).
  destruct (@update_checksum_sum E (overwrite p s new) (l4 + 2) old new) as (p2 & Heq & Hd2 & _ & Hs3);
    [done|lia|Z.div_mod_to_equations; lia|lia|done|done|].
  replace (l4 + 2 + 2) with (l4 + 4) in * by lia.
  assert (sub p2 s (s + zlen old) = sub (overwrite p s new) s (s + zlen old)) as Hsub.
  { eapply differs_sub; [exact Hd2|lia|lia|]. unfold at_range. lia. }
  exists p2. split_and!; [exact Heq| | | |].
  - eapply differs_trans; (eapply differs_mono; [|eassumption]); auto.
  - rewrite Hs3 by lia. rewrite overwrite_sum by (try done; lia). rewrite Hlen, Hold.
    exists 0. lia.
  - rewrite Hsub, <- Hlen. by apply sub_overwrite_same; lia.
  - intros x y Hx Hx2 Hy. assert (sub p2 x y = sub (overwrite p s new) x y) as ->.
    { eapply differs_sub; [exact Hd2|lia|lia|]. unfold at_range. lia. }
    rewrite overwrite_sum by (try done; lia). by rewrite Hlen, Hold.
Qed.

(** The quoted IPv4 header checksum, and the ICMP checksum over that one. *)
Lemma quoted_header_step {E} p l4 field e old new :
  bytes_ok p -> 0 <= l4 -> l4 mod 2 = 0 -> field mod 2 = 0 -> l4 + 8 <= field ->
  field + 2 <= e -> e <= zlen p -> even_bytes old -> even_bytes new ->
  exists p4,
    (p3 ← update_checksum p field old new;
     a0 ← index p3 field; a1 ← index p3 (field + 1);
     @update_checksum E p3 (l4 + 2) [byte_at p field; byte_at p (field + 1)] [a0; a1]) = Ok p4 /\
    differs (fun i => at_range (l4 + 2) (l4 + 4) i \/ at_range field (field + 2) i) p p4 /\
    wsum (sub p4 l4 e) ≡₁ wsum (sub p l4 e) /\
    (forall x y, l4 + 8 <= x <= field -> x mod 2 = 0 -> field + 2 <= y <= e ->
       wsum (sub p4 x y) ≡₁ wsum (sub p x y) + wsum old - wsum new).
Proof.
  intros Hb H0 H2 Hf2 Hf He Hep Ho Hn.
  destruct (@update_checksum_sum E p field old new) as (p3 & Heq3 & Hd3 & Hf3 & Hs3);
    [done|lia|done|lia|done|done|]. rewrite Heq3. cbn [mbind comp_bind].
  pose proof Hd3 as (Hz3 & Hb3 & _). in_range.
  assert (forall q i j, bytes_ok q -> even_bytes [byte_at q i; byte_at q j]) as Hpair.
  { intros q i j Hq. split_and!; [|done|done]. repeat constructor; by apply byte_at_range. }
  destruct (@update_checksum_sum E p3 (l4 + 2) [byte_at p field; byte_at p (field + 1)]
    [byte_at p3 field; byte_at p3 (field + 1)]) as (p4 & Heq4 & Hd4 & _ & Hs4);
    [done|lia|Z.div_mod_to_equations; lia|lia|by apply Hpair|by apply Hpair|].
  replace (l4 + 2 + 2) with (l4 + 4) in * by lia.
  exists p4. split_and!; [exact Heq4| | |].
  - eapply differs_trans; (eapply differs_mono; [|eassumption]); auto.
  - rewrite Hs4 by lia. rewrite Hs3 by lia. simpl. rewrite Z.add_0_r, Z.add_0_r, Hf3.
    exists 0. lia.
  - intros x y Hx Hx2 Hy. assert (sub p4 x y = sub p3 x y) as ->.
    { eapply differs_sub; [exact Hd4|lia|lia|]. unfold at_range. lia. }
    apply Hs3; lia.
Qed.

Lemma ranges_of l :
  (src_range l).2 - (src_range l).1 = match family l with FamilyV4 => 4 | FamilyV6 => 16 end
  /\ (dst_range l).2 - (dst_range l).1 = match family l with FamilyV4 => 4 | FamilyV6 => 16 end
  /\ (src_range l).1 mod 2 = 0 /\ (dst_range l).1 mod 2 = 0.
Proof. unfold src_range, dst_range. by destruct (family l). Qed.

Lemma src_range_low l :
  match family l with FamilyV4 => 12 | FamilyV6 => 8 end <= (src_range l).1.
Proof. unfold src_range. by destruct (family l). Qed.

Lemma src_range_family l l' : family l = family l' -> src_range l = src_range l'.
Proof. unfold src_range. by intros ->. Qed.

(** The quoted packet keeps its layout when only its source and IPv4 checksum change. *)
Lemma quoted_layout_kept p p' qs e q :
  bytes_ok p -> 0 <= qs -> qs <= e -> e <= zlen p -> zlen p' = zlen p ->
  locate_quoted (sub p qs e) = Ok q ->
  (forall i, qs <= i < e -> byte_at p' i <> byte_at p i ->
     match family q with FamilyV4 => 10 <= i - qs < 16 | FamilyV6 => 8 <= i - qs < 24 end) ->
  locate_quoted (sub p' qs e) = Ok q.
Proof.
  intros Hb H0 Hqe He Hz Hq Hd. assert (bytes_ok (sub p qs e)) as HbQ by auto with packet.
  destruct (addr_range_ok _ _ true HbQ Hq) as ([Hmin Hl4 Hend _] & _).
  eapply (locate_with_ext (sub p qs e)); [done| |exact Hq|].
  - rewrite !zlen_sub by lia. done.
  - unfold reads_header. intros i Hi. rewrite zlen_sub in Hend by lia.
    assert (0 <= i < e - qs) by (destruct (family q); lia).
    rewrite !byte_at_sub by lia.
    destruct (decide (byte_at p' (qs + i) = byte_at p (qs + i))) as [->|Hne]; [done|].
    apply Hd in Hne; [|lia]. destruct (family q); lia.
Qed.

(** The bytes the translation of a quoted packet may touch. *)
Definition quoted_touched (l4 s n qs : Z) (f : Family) (i : Z) : Prop :=
  at_range (l4 + 2) (l4 + 4) i \/ at_range s (s + n) i
  \/ (f = FamilyV4 /\ at_range (qs + 10) (qs + 12) i).

Lemma fix_quoted_checksums_spec {E} p l4 a e f old new :
  bytes_ok p -> 0 <= l4 -> l4 mod 2 = 0 -> a mod 2 = 0 ->
  match f with FamilyV4 => 12 | FamilyV6 => 8 end <= a ->
  l4 + 8 + a + zlen old <= e -> e <= zlen p -> even_bytes old -> even_bytes new ->
  zlen new = zlen old -> sub p (l4 + 8 + a) (l4 + 8 + a + zlen old) = old ->
  exists p', @fix_quoted_checksums E (overwrite p (l4 + 8 + a) new) l4 (l4 + 8) f old new = Ok p' /\
    differs (quoted_touched l4 (l4 + 8 + a) (zlen old) (l4 + 8) f) p p' /\
    wsum (sub p' l4 e) ≡₁ wsum (sub p l4 e) /\
    sub p' (l4 + 8 + a) (l4 + 8 + a + zlen old) = new.
Proof.
  intros Hb H0 H2 Ha2 Ha He Hep Ho Hn Hlen Hold. set (s := l4 + 8 + a) in *.
  assert (s mod 2 = 0) by (unfold s; Z.div_mod_to_equations; lia).
  assert (8 <= a) by (destruct f; lia). pose proof (zlen_nonneg old).
  destruct (@quoted_source_step E p l4 s e old new) as (p2 & Heq & Hd2 & Hw2 & Hn2 & _);
    [try done; lia..|]. pose proof Hd2 as (Hz2 & Hb2 & _).
  unfold fix_quoted_checksums. rewrite Heq. cbn [mbind comp_bind]. destruct f.
  - destruct (@quoted_header_step E p2 l4 (l4 + 8 + 10) e old new) as (p4 & Heq4 & Hd4 & Hw4 & _);
      [done|lia|done|Z.div_mod_to_equations; lia|lia|lia|lia|done|done|].
    in_range. exists p4. split_and!; [exact Heq4| |by rewrite Hw4|].
    + eapply differs_trans; (eapply differs_mono; [|eassumption]); unfold quoted_touched;
        [naive_solver|]. replace (l4 + 8 + 10 + 2) with (l4 + 8 + 12) by lia. naive_solver.
    + rewrite <- Hn2. eapply differs_sub; [exact Hd4|lia|lia|]. unfold at_range, s. lia.
  - exists p2. split_and!; [done| |done|done]. eapply differs_mono; [|exact Hd2].
    unfold quoted_touched. naive_solver.
Qed.

Lemma rewrite_quoted_source_spec {E} p l old new :
  bytes_ok p -> layout_ok p l -> l4_offset l + 8 <= end_ l ->
  even_bytes (as_slice old) -> even_bytes (as_slice new) ->
  zlen (as_slice new) = zlen (as_slice old) ->
  exists p', @rewrite_quoted_source E p l old new = Ok p' /\
    differs (fun i => at_range (l4_offset l + 2) (l4_offset l + 4) i
                      \/ at_range (l4_offset l + 8) (end_ l) i) p p' /\
    wsum (sub p' (l4_offset l) (end_ l)) ≡₁ wsum (sub p (l4_offset l) (end_ l)) /\
    (quotes_source p l (as_slice old) -> quotes_source p' l (as_slice new)).
Proof.
  intros Hb [Hmin Hl4 Hend Hal] H8 Ho Hn Hno.
  assert (0 <= l4_offset l) by (destruct (family l); lia).
  assert (l4_offset l mod 2 = 0) by (Z.div_mod_to_equations; lia).
  unfold rewrite_quoted_source, quotes_source. rewrite slice_ok by lia. cbn [mbind comp_bind].
  set (qs := l4_offset l + 8) in *. set (Q := sub p qs (end_ l)).
  assert (bytes_ok Q) as HbQ by (unfold Q; auto with packet).
  assert (zlen Q = end_ l - qs) as HzQ by (unfold Q; rewrite zlen_sub; lia).
  pose proof (locate_with_yields Q true HbQ) as Hy.
  change (locate_with Q true) with (locate_quoted Q) in Hy.
  assert (forall R : Prop, (R -> False) -> exists p', @Ok E _ p = Ok p' /\
    differs (fun i => at_range (l4_offset l + 2) (l4_offset l + 4) i \/ at_range qs (end_ l) i) p p' /\
    wsum (sub p' (l4_offset l) (end_ l)) ≡₁ wsum (sub p (l4_offset l) (end_ l)) /\
    (R -> quotes_source p' l (as_slice new))) as Hsame.
  { intros R HR. exists p. split_and!; [done|by apply differs_refl|done|]. intros; by exfalso. }
  destruct (locate_quoted Q) as [q|e|] eqn:Hq; [|apply Hsame; intros (? & ? & _); congruence|done].
  destruct (bool_decide (family q = family l)) eqn:Hf; cbn [negb];
    [apply bool_decide_eq_true in Hf|apply bool_decide_eq_false in Hf; apply Hsame; intros (? & ? & ? & _); congruence].
  destruct (addr_range_ok _ _ true HbQ Hq) as ([Hqmin Hql4 Hqend _] & Hqs & _).
  destruct (ranges_of q) as (Hab & _ & Ha2 & _). pose proof (src_range_low q) as Hlow.
  destruct (src_range q) as [a b] eqn:Hsr. cbn [fst snd] in *.
  assert (8 <= a /\ a + 4 <= b) as [??] by (destruct (family q); lia).
  rewrite slice_ok by lia. cbn [mbind comp_bind].
  destruct (bool_decide (sub p (qs + a) (qs + b) = as_slice old)) eqn:Hcur; cbn [negb];
    [apply bool_decide_eq_true in Hcur|apply bool_decide_eq_false in Hcur; apply Hsame].
  2: { intros (q' & [= <-] & _ & Hc). by rewrite Hsr in Hc. }
  assert (zlen (as_slice old) = b - a) as Hlo by (rewrite <- Hcur, zlen_sub; lia).
  assert (qs + a + zlen (as_slice old) = qs + b) as Hqb by lia.
  rewrite copy_at_ok by lia. cbn [mbind comp_bind].
  destruct (@fix_quoted_checksums_spec E p (l4_offset l) a (end_ l) (family q) (as_slice old)
    (as_slice new)) as (p' & Heq & Hd & Hw & Hnew); [try done; lia..|by fold qs; rewrite Hqb|].
  fold qs in Heq, Hd, Hnew. rewrite Heq. rewrite Hqb in Hnew. exists p'. split_and!; [done| |done|].
  - eapply differs_mono; [|exact Hd]. unfold quoted_touched, at_range. intros i.
    destruct (family q); intuition (try lia). all: right; lia.
  - intros _. exists q. rewrite Hsr. split_and!; [|done|exact Hnew]. destruct Hd as (Hz & _ & Hi).
    eapply (quoted_layout_kept p); try done; try lia. intros i ? Hne.
    destruct (decide (quoted_touched (l4_offset l) (qs + a) (zlen (as_slice old)) qs (family q) i))
      as [Ht|Ht]; [|by rewrite Hi in Hne by (try done; lia)].
    unfold quoted_touched, at_range in Ht. unfold src_range in Hsr.
    destruct (family q); injection Hsr as <- <-; intuition (try lia; try discriminate).
Qed.

(** ** The transport checksum *)

(** Whether a rewrite updates the transport checksum: it covers the addresses, and for UDP
    over IPv4 it is not absent. *)
Definition fixes_transport (p : bytes) (l : Layout) : bool :=
  let available := end_ l - l4_offset l in
  ((protocol l =? PROTO_TCP) && (18 <=? available))
  || ((protocol l =? PROTO_UDP) && (8 <=? available)
      && (bool_decide (family l = FamilyV6)
          || negb ((byte_at p (l4_offset l + 6) =? 0) && (byte_at p (l4_offset l + 7) =? 0))))
  || ((protocol l =? PROTO_ICMPV6) && (8 <=? available)).

(** The bytes of the transport part a rewrite may touch. *)
Definition transport_touched (p : bytes) (l : Layout) (side : Side) (i : Z) : Prop :=
  let l4 := l4_offset l in
  (protocol l = PROTO_TCP /\ at_range (l4 + 16) (l4 + 18) i)
  \/ (protocol l = PROTO_UDP /\ at_range (l4 + 6) (l4 + 8) i)
  \/ ((protocol l = PROTO_ICMP \/ protocol l = PROTO_ICMPV6) /\
      (at_range (l4 + 2) (l4 + 4) i
       \/ (side = Destination /\ is_icmp_error (family l) (byte_at p l4) = true
           /\ at_range (l4 + 8) (end_ l) i))).

Lemma udp_update_spec {E} p u e old new :
  bytes_ok p -> 0 <= u -> u mod 2 = 0 -> u + 8 <= e -> e <= zlen p ->
  even_bytes old -> even_bytes new ->
  exists p',
    (packet ← update_checksum p (u + 6) old new;
     c0 ← index packet (u + 6); c1 ← index packet (u + 7);
     if (c0 =? 0) && (c1 =? 0) then
       packet ← copy_at packet (u + 6) [255]; @copy_at E packet (u + 7) [255]
     else Ok packet) = Ok p' /\
    differs (at_range (u + 6) (u + 8)) p p' /\
    wsum (sub p' u e) ≡₁ wsum (sub p u e) + wsum old - wsum new /\
    ~ (byte_at p' (u + 6) = 0 /\ byte_at p' (u + 7) = 0).
Proof.
  intros Hb H0 H2 He Hep Ho Hn.
  destruct (@update_checksum_sum E p (u + 6) old new) as (p1 & -> & Hd1 & _ & Hs1);
    [done|lia|Z.div_mod_to_equations; lia|lia|done|done|].
  replace (u + 6 + 2) with (u + 8) in * by lia. replace (u + 6 + 1) with (u + 7) in * by lia.
  cbn [mbind comp_bind]. pose proof Hd1 as (Hz1 & Hb1 & _). in_range.
  destruct (Z.eqb_spec (byte_at p1 (u + 6)) 0), (Z.eqb_spec (byte_at p1 (u + 7)) 0); cbn [andb].
  2-4: exists p1; split_and!; [done|done|by apply Hs1; lia|lia].
  assert (bytes_ok [255]) by (repeat constructor; unfold is_byte; lia).
  rewrite copy_at_ok by (unfold zlen in *; simpl; lia). cbn [mbind comp_bind].
  assert (zlen (overwrite p1 (u + 6) [255]) = zlen p1) as Hz2.
  { apply zlen_overwrite; unfold zlen in *; simpl; lia. }
  rewrite copy_at_ok by (rewrite ?Hz2; unfold zlen in *; simpl; lia).
  assert (overwrite (overwrite p1 (u + 6) [255]) (u + 7) [255] = overwrite p1 (u + 6) [255; 255])
    as Hoo.
  { apply bytes_ext; rewrite ?zlen_overwrite by (rewrite ?Hz2; unfold zlen in *; simpl in *; lia);
      [done|]. intros i ?. rewrite !byte_at_overwrite by (rewrite ?Hz2; unfold zlen in *; simpl in *; lia).
    change (zlen [255]) with 1. change (zlen [255; 255]) with 2.
    destruct (Z.leb_spec (u + 7) i), (Z.ltb_spec i (u + 7 + 1)), (Z.leb_spec (u + 6) i),
      (Z.ltb_spec i (u + 6 + 1)), (Z.ltb_spec i (u + 6 + 2)); cbn [andb]; try lia; try done.
    - by replace (i - (u + 7)) with 0 by lia; replace (i - (u + 6)) with 1 by lia.
    - by replace (i - (u + 6)) with 0 by lia. }
  rewrite Hoo. assert (differs (at_range (u + 6) (u + 8)) p1 (overwrite p1 (u + 6) [255; 255])) as Hd2.
  { replace (u + 8) with (u + 6 + zlen [255; 255]) by (unfold zlen; simpl; lia).
    apply differs_overwrite; [done|repeat constructor; unfold is_byte; lia|lia|].
    unfold zlen in *; simpl; lia. }
  eexists. split_and!; [done|by eapply differs_trans| |].
  - rewrite wsum_sub_overwrite by (change (zlen [255; 255]) with 2; try done; Z.div_mod_to_equations; lia).
    change (zlen [255; 255]) with 2. rewrite sub_pair by lia. replace (u + 6 + 1) with (u + 7) by lia.
    rewrite Hs1 by lia. simpl. rewrite e0, e1. exists 1. unfold u16_be. lia.
  - rewrite !byte_at_overwrite by (change (zlen [255; 255]) with 2; lia).
    change (zlen [255; 255]) with 2.
    destruct (Z.leb_spec (u + 6) (u + 6)), (Z.ltb_spec (u + 6) (u + 6 + 2)); cbn [andb]; try lia.
    replace (u + 6 - (u + 6)) with 0 by lia. by intros [? _].
Qed.

Lemma icmp_update_spec {E} p l old new side :
  bytes_ok p -> layout_ok p l -> l4_offset l + 8 <= end_ l ->
  even_bytes (as_slice old) -> even_bytes (as_slice new) ->
  zlen (as_slice new) = zlen (as_slice old) ->
  exists p',
    (packet ← (if protocol l =? PROTO_ICMPV6
               then update_checksum p (l4_offset l + 2) (as_slice old) (as_slice new)
               else Ok p);
     t ← index packet (l4_offset l);
     if bool_decide (side = Destination) && is_icmp_error (family l) t
     then @rewrite_quoted_source E packet l old new else Ok packet) = Ok p' /\
    differs (fun i => at_range (l4_offset l + 2) (l4_offset l + 4) i \/
      (side = Destination /\ is_icmp_error (family l) (byte_at p (l4_offset l)) = true
       /\ at_range (l4_offset l + 8) (end_ l) i)) p p' /\
    wsum (sub p' (l4_offset l) (end_ l)) ≡₁ wsum (sub p (l4_offset l) (end_ l))
      + (if protocol l =? PROTO_ICMPV6 then wsum (as_slice old) - wsum (as_slice new) else 0) /\
    (side = Destination -> is_icmp_error (family l) (byte_at p (l4_offset l)) = true ->
     quotes_source p l (as_slice old) -> quotes_source p' l (as_slice new)).
Proof.
  intros Hb Hlo H8 Ho Hn Hno. pose proof Hlo as [Hmin Hl4 Hend Hal].
  assert (0 <= l4_offset l) by (destruct (family l); lia).
  assert (exists p1, (if protocol l =? PROTO_ICMPV6
      then @update_checksum E p (l4_offset l + 2) (as_slice old) (as_slice new) else Ok p) = Ok p1 /\
    differs (at_range (l4_offset l + 2) (l4_offset l + 4)) p p1 /\
    wsum (sub p1 (l4_offset l) (end_ l)) ≡₁ wsum (sub p (l4_offset l) (end_ l))
      + (if protocol l =? PROTO_ICMPV6 then wsum (as_slice old) - wsum (as_slice new) else 0))
    as (p1 & -> & Hd1 & Hs1).
  { destruct (_ =? _).
    - destruct (@update_checksum_sum E p (l4_offset l + 2) (as_slice old) (as_slice new))
        as (p1 & -> & Hd1 & _ & Hs1); [done|lia|Z.div_mod_to_equations; lia|lia|done|done|].
      replace (l4_offset l + 2 + 2) with (l4_offset l + 4) in * by lia.
      exists p1. split_and!; [done|done|]. rewrite Hs1 by (try (Z.div_mod_to_equations; lia); lia).
      exists 0. lia.
    - exists p. split_and!; [done|by apply differs_refl|exists 0; lia]. }
  pose proof Hd1 as (Hz1 & Hb1 & Hi1). in_range.
  assert (byte_at p1 (l4_offset l) = byte_at p (l4_offset l)) as Ht.
  { apply Hi1; [lia|]. unfold at_range. lia. }
  rewrite Ht. destruct (bool_decide (side = Destination)) eqn:Hside;
    [apply bool_decide_eq_true in Hside|apply bool_decide_eq_false in Hside]; cbn [andb].
  2: { exists p1. split_and!; [done| |done|done]. eapply differs_mono; [|exact Hd1]. auto. }
  destruct (is_icmp_error (family l) (byte_at p (l4_offset l))) eqn:Herr.
  2: { exists p1. split_and!; [done| |done|done]. eapply differs_mono; [|exact Hd1]. auto. }
  destruct (@rewrite_quoted_source_spec E p1 l old new) as (p2 & -> & Hd2 & Hs2 & Hq2);
    [done|split; try done; lia|done|done|done|done|].
  exists p2. split_and!; [done| |by rewrite Hs2|].
  - eapply differs_trans; (eapply differs_mono; [|eassumption]); naive_solver.
  - intros _ _ Hq. apply Hq2. unfold quotes_source in *.
    rewrite (differs_sub _ p p1 (l4_offset l + 8) (end_ l) Hd1) by (unfold at_range; lia).
    destruct Hq as (q & Hq & Hfq & Hsrc). exists q. split_and!; [done|done|].
    assert (bytes_ok (sub p (l4_offset l + 8) (end_ l))) as HbQ by auto with packet.
    destruct (addr_range_ok _ _ true HbQ Hq) as (_ & Hqs & _).
    pose proof (src_range_low q). destruct (ranges_of q) as (Hr & _).
    rewrite zlen_sub in Hqs by lia. rewrite <- Hsrc.
    eapply differs_sub; [exact Hd1|destruct (family q); lia|destruct (family q); lia|].
    unfold at_range. destruct (family q); lia.
Qed.

Lemma rewrite_transport_spec {E} p l old new side :
  bytes_ok p -> layout_ok p l -> even_bytes (as_slice old) -> even_bytes (as_slice new) ->
  zlen (as_slice new) = zlen (as_slice old) ->
  exists p', @rewrite_transport E p l old new side = Ok p' /\
    differs (transport_touched p l side) p p' /\
    wsum (sub p' (l4_offset l) (end_ l)) ≡₁ wsum (sub p (l4_offset l) (end_ l))
      + (if fixes_transport p l then wsum (as_slice old) - wsum (as_slice new) else 0) /\
    (side = Destination -> protocol l = PROTO_ICMP \/ protocol l = PROTO_ICMPV6 ->
     is_icmp_error (family l) (byte_at p (l4_offset l)) = true ->
     l4_offset l + 8 <= end_ l ->
     quotes_source p l (as_slice old) -> quotes_source p' l (as_slice new)).
Proof.
  intros Hb Hlo Ho Hn Hno. pose proof Hlo as [Hmin Hl4 Hend Hal].
  assert (0 <= l4_offset l) by (destruct (family l); lia).
  assert (l4_offset l mod 2 = 0) by (Z.div_mod_to_equations; lia).
  unfold rewrite_transport, fixes_transport, transport_touched. rewrite Z.max_r by lia.
  assert (forall (W : Z -> Prop) (R : bytes -> Prop),
    (protocol l = PROTO_ICMP \/ protocol l = PROTO_ICMPV6 -> l4_offset l + 8 <= end_ l -> False) ->
    exists p', @Ok E _ p = Ok p' /\ differs W p p' /\
    wsum (sub p' (l4_offset l) (end_ l)) ≡₁ wsum (sub p (l4_offset l) (end_ l)) + 0 /\
    (side = Destination -> protocol l = PROTO_ICMP \/ protocol l = PROTO_ICMPV6 ->
     is_icmp_error (family l) (byte_at p (l4_offset l)) = true ->
     l4_offset l + 8 <= end_ l -> R p')) as Hsame.
  { intros W R HR. exists p. split_and!; [done|by apply differs_refl|exists 0; lia|].
    intros _ Hp _ He. by destruct (HR Hp He). }
  assert (forall n, protocol l <> n -> (protocol l =? n) = false) as Hneq by (intros; by apply Z.eqb_neq).
  unfold PROTO_TCP, PROTO_UDP, PROTO_ICMP, PROTO_ICMPV6 in *.
  destruct (Z.eqb_spec (protocol l) 6) as [HP|HP];
    [rewrite !(Hneq 17), !(Hneq 1), !(Hneq 58) by lia|]; cbn [andb orb].
  { destruct (Z.leb_spec 18 (end_ l - l4_offset l)); cbn [orb]; [|apply Hsame; lia].
    destruct (@update_checksum_sum E p (l4_offset l + 16) (as_slice old) (as_slice new))
      as (p' & -> & Hd & _ & Hs); [done|lia|Z.div_mod_to_equations; lia|lia|done|done|].
    replace (l4_offset l + 16 + 2) with (l4_offset l + 18) in * by lia.
    exists p'. split_and!; [done| |rewrite Hs by lia; exists 0; lia|lia].
    eapply differs_mono; [|exact Hd]. auto. }
  destruct (Z.eqb_spec (protocol l) 17) as [HQ|HQ];
    [rewrite !(Hneq 1), !(Hneq 58) by lia|]; cbn [andb orb].
  { destruct (Z.leb_spec 8 (end_ l - l4_offset l)); cbn [andb orb]; [|apply Hsame; lia].
    in_range. rewrite orb_false_r. destruct (_ || _); [|apply Hsame; lia].
    destruct (@udp_update_spec E p (l4_offset l) (end_ l) (as_slice old) (as_slice new))
      as (p' & -> & Hd & Hs & _); [done|lia|lia|lia|lia|done|done|].
    exists p'. split_and!; [done| |rewrite Hs; exists 0; lia|lia].
    eapply differs_mono; [|exact Hd]. auto. }
  destruct (Z.leb_spec 8 (end_ l - l4_offset l)); rewrite ?andb_true_r, ?andb_false_r;
    [|apply Hsame; lia].
  destruct ((protocol l =? 1) || (protocol l =? 58)) eqn:Hicmp; zbool.
  2: { destruct Hicmp as [HN1 HN58]. rewrite HN58. apply Hsame. lia. }
  rewrite !Z.eqb_eq in Hicmp.
  destruct (@icmp_update_spec E p l old new side) as (p' & Heq & Hd & Hs & Hq); try done; try lia.
  exists p'. split_and!; [exact Heq| |exact Hs|by intros; apply Hq].
  eapply differs_mono; [|exact Hd]. intros i Hi. right; right. by split.
Qed.

(** ** The whole rewrite *)

Definition addr_size (f : Family) : Z := match f with FamilyV4 => 4 | FamilyV6 => 16 end.

Definition matches_family (a : IpAddr) (f : Family) : bool :=
  match a, f with V4 _, FamilyV4 | V6 _, FamilyV6 => true | _, _ => false end.

Definition side_range (l : Layout) (side : Side) : Z * Z :=
  match side with Source => src_range l | Destination => dst_range l end.

Lemma as_slice_of a : ip_wf a -> as_slice (AddrBytes_of a) = octets a.
Proof.
  intros [Hb Hl]. unfold as_slice. destruct a as [o|o]; cbn in *.
  - rewrite <- Hl at 1. apply (sub_overwrite_same (replicate 16 0) 0 o); [lia|].
    unfold zlen in *. rewrite length_replicate. lia.
  - unfold sub. rewrite drop_0. apply firstn_all2. unfold zlen in *. lia.
Qed.

Lemma AddrBytes_from_slice_ok {E} s :
  zlen s <= 16 -> exists a, @AddrBytes_from_slice E s = Ok a /\ as_slice a = s.
Proof.
  intros Hl. unfold AddrBytes_from_slice. pose proof (zlen_nonneg s).
  rewrite copy_at_ok by (unfold zlen in *; rewrite ?length_replicate; lia).
  eexists; split; [done|]. unfold as_slice. cbn.
  apply (sub_overwrite_same (replicate 16 0) 0 s); [lia|]. unfold zlen in *.
  rewrite length_replicate. lia.
Qed.

Lemma even_octets a : ip_wf a -> even_bytes (octets a).
Proof. intros [Hb Hl]. unfold even_bytes. destruct a; rewrite Hl; split_and!; try done; lia. Qed.

Lemma side_range_facts l side :
  (side_range l side).2 - (side_range l side).1 = addr_size (family l)
  /\ (side_range l side).1 mod 2 = 0
  /\ match family l with FamilyV4 => 12 | FamilyV6 => 8 end <= (side_range l side).1
  /\ (side_range l side).2 <= match family l with FamilyV4 => 20 | FamilyV6 => 40 end.
Proof.
  unfold side_range, src_range, dst_range, addr_size.
  destruct side, (family l); cbn; split_and!; try done; lia.
Qed.

(** The bytes of [p] a rewrite may touch. *)
Definition touched (p : bytes) (l : Layout) (side : Side) (i : Z) : Prop :=
  at_range (side_range l side).1 (side_range l side).2 i
  \/ (family l = FamilyV4 /\ at_range 10 12 i)
  \/ (has_transport l = true /\ transport_touched p l side i).

Lemma transport_touched_low p l side i : transport_touched p l side i -> l4_offset l + 2 <= i.
Proof. unfold transport_touched, at_range. intuition lia. Qed.

Lemma touched_not_read p l side i :
  layout_ok p l -> touched p l side i -> ~ reads_header l i.
Proof.
  intros [Hmin _ _ _] Ht. destruct (side_range_facts l side) as (_ & _ & Hlo & Hhi).
  unfold reads_header. destruct Ht as [Ht|[[Hf Ht]|[_ Ht%transport_touched_low]]];
    unfold at_range in *; destruct (family l); try discriminate; lia.
Qed.

Definition pseudo_sum (p : bytes) (l : Layout) : Z :=
  wsum (octets (src_of l p)) + wsum (octets (dst_of l p))
  + wsum (sub p (l4_offset l) (end_ l)).

Lemma rewrite_header_spec {E} p l side old new :
  bytes_ok p -> layout_ok p l -> even_bytes new -> zlen new = addr_size (family l) ->
  old = sub p (side_range l side).1 (side_range l side).2 ->
  exists p', @rewrite_header E p l old new (side_range l side).1 = Ok p' /\
    differs (fun i => at_range (side_range l side).1 (side_range l side).2 i
                      \/ (family l = FamilyV4 /\ at_range 10 12 i)) p p' /\
    sub p' (side_range l side).1 (side_range l side).2 = new /\
    (family l = FamilyV4 -> wsum (sub p' 0 (l4_offset l)) ≡₁ wsum (sub p 0 (l4_offset l))).
Proof.
  intros Hb [Hmin Hl4 Hend Hal] Hn Hnl Hold.
  destruct (side_range_facts l side) as (Hsz & Ha2 & Hlo & Hhi).
  destruct (side_range l side) as [a b]; cbn [fst snd] in *.
  assert (b = a + zlen new) as -> by lia. assert (bytes_ok new) by apply Hn.
  assert (0 <= a) by (destruct (family l); lia). pose proof (zlen_nonneg new).
  assert (a + zlen new <= l4_offset l) by (destruct (family l); lia).
  assert (even_bytes old) as Ho.
  { rewrite Hold. split_and!; [auto with packet|..]; rewrite zlen_sub by lia;
      replace (a + zlen new - a) with (zlen new) by lia; apply Hn. }
  unfold rewrite_header. rewrite copy_at_ok by lia. cbn [mbind comp_bind].
  pose proof (differs_overwrite p a new Hb ltac:(done) ltac:(lia) ltac:(lia)) as Hd1.
  pose proof Hd1 as (Hz1 & Hb1 & _). pose proof (sub_overwrite_same p a new ltac:(lia) ltac:(lia)).
  destruct (family l) eqn:Hf; cbn [addr_size] in *.
  - destruct (@update_checksum_sum E (overwrite p a new) 10 old new) as (p' & -> & Hd & _ & Hs);
      [done|lia|done|lia|done|done|]. exists p'. split_and!; [done| | |].
    + eapply differs_trans; (eapply differs_mono; [|eassumption]); auto.
    + rewrite (differs_sub _ _ _ a (a + zlen new) Hd) by (unfold at_range; lia). done.
    + intros _. rewrite Hs by (try done; lia). rewrite overwrite_sum by (try done; lia). rewrite <- Hold.
      exists 0. lia.
  - eexists. split_and!; [done|by eapply differs_mono; [|exact Hd1]; auto|done|done].
Qed.

(** Everything a rewrite of a located packet does. *)
Record rewritten (p p' : bytes) (l : Layout) (new : IpAddr) (side : Side) : Prop := {
  rw_differs : differs (touched p l side) p p';
  rw_layout : locate p' = Ok l;
  rw_addr : sub p' (side_range l side).1 (side_range l side).2 = octets new;
  rw_header : family l = FamilyV4 -> wsum (sub p' 0 (l4_offset l)) ≡₁ wsum (sub p 0 (l4_offset l));
  rw_transport : has_transport l = true ->
    wsum (sub p' (l4_offset l) (end_ l)) ≡₁ wsum (sub p (l4_offset l) (end_ l))
      + (if fixes_transport p l
         then wsum (sub p (side_range l side).1 (side_range l side).2) - wsum (octets new) else 0);
  rw_quoted : side = Destination -> has_transport l = true ->
    protocol l = PROTO_ICMP \/ protocol l = PROTO_ICMPV6 ->
    is_icmp_error (family l) (byte_at p (l4_offset l)) = true -> l4_offset l + 8 <= end_ l ->
    quotes_source p l (octets (dst_of l p)) -> quotes_source p' l (octets new)
}.

Lemma octets_addr_of f b : octets (addr_of f b) = b.
Proof. by destruct f. Qed.

(** The transport part of a packet whose header alone changed. *)
Lemma quotes_source_sub p p1 l addr :
  bytes_ok p -> layout_ok p l -> l4_offset l + 8 <= end_ l ->
  differs (fun i => i < l4_offset l) p p1 -> quotes_source p l addr -> quotes_source p1 l addr.
Proof.
  intros Hb [Hmin Hl4 Hend _] H8 Hd (q & Hq & Hf & Hs).
  assert (0 <= l4_offset l) by (destruct (family l); lia).
  assert (bytes_ok (sub p (l4_offset l + 8) (end_ l))) as HbQ by auto with packet.
  destruct (addr_range_ok _ _ true HbQ Hq) as (_ & Hqs & _). rewrite zlen_sub in Hqs by lia.
  pose proof (src_range_low q). destruct (ranges_of q) as (Hr & _).
  exists q. rewrite (differs_sub _ p p1 _ (end_ l) Hd) by lia. split_and!; [done|done|].
  rewrite <- Hs. eapply differs_sub; [exact Hd|destruct (family q); lia..].
Qed.

Lemma rewrite_transport_after {E} p p1 l old new side :
  bytes_ok p -> layout_ok p l -> differs (fun i => i < l4_offset l) p p1 ->
  even_bytes (as_slice old) -> even_bytes (as_slice new) ->
  zlen (as_slice new) = zlen (as_slice old) ->
  exists p', @rewrite_transport E p1 l old new side = Ok p' /\
    differs (transport_touched p l side) p1 p' /\
    wsum (sub p' (l4_offset l) (end_ l)) ≡₁ wsum (sub p (l4_offset l) (end_ l))
      + (if fixes_transport p l then wsum (as_slice old) - wsum (as_slice new) else 0) /\
    (side = Destination -> protocol l = PROTO_ICMP \/ protocol l = PROTO_ICMPV6 ->
     is_icmp_error (family l) (byte_at p (l4_offset l)) = true ->
     l4_offset l + 8 <= end_ l ->
     quotes_source p l (as_slice old) -> quotes_source p' l (as_slice new)).
Proof.
  intros Hb Hlo Hd Ho Hn Hno. pose proof Hlo as [Hmin Hl4 Hend Hal].
  pose proof Hd as (Hz1 & Hb1 & Hi1). assert (0 <= l4_offset l) by (destruct (family l); lia).
  assert (byte_at p1 (l4_offset l) = byte_at p (l4_offset l)) as H0 by (apply Hi1; lia).
  assert (byte_at p1 (l4_offset l + 6) = byte_at p (l4_offset l + 6)) as H6 by (apply Hi1; lia).
  assert (byte_at p1 (l4_offset l + 7) = byte_at p (l4_offset l + 7)) as H7 by (apply Hi1; lia).
  destruct (@rewrite_transport_spec E p1 l old new side) as (p' & Heq & Hd' & Hs & Hq);
    [done|split; try done; lia|done|done|done|].
  exists p'. split_and!; [exact Heq| | |].
  - eapply differs_mono; [|exact Hd']. intros i. unfold transport_touched. by rewrite H0.
  - rewrite Hs. unfold fixes_transport. rewrite H6, H7.
    by rewrite (differs_sub _ p p1 _ _ Hd) by lia.
  - rewrite H0 in Hq. intros. apply Hq; try done. by apply (quotes_source_sub p).
Qed.

Lemma rewrite_finish {E} p p1 l new side old :
  bytes_ok p -> ip_wf new -> locate p = Ok l -> layout_ok p l ->
  zlen (octets new) = addr_size (family l) ->
  as_slice old = sub p (side_range l side).1 (side_range l side).2 ->
  differs (fun i => at_range (side_range l side).1 (side_range l side).2 i
                    \/ (family l = FamilyV4 /\ at_range 10 12 i)) p p1 ->
  sub p1 (side_range l side).1 (side_range l side).2 = octets new ->
  (family l = FamilyV4 -> wsum (sub p1 0 (l4_offset l)) ≡₁ wsum (sub p 0 (l4_offset l))) ->
  exists p',
    (packet ← (if has_transport l then rewrite_transport p1 l old (AddrBytes_of new) side else Ok p1);
     @Ok E _ (packet, @None NatError)) = Ok (p', None) /\ rewritten p p' l new side.
Proof.
  intros Hb Hnew Hl Hlo Hsize Hold Hd1 Hn1 Hh1. pose proof Hlo as [Hmin Hl4 Hend Hal].
  destruct (side_range_facts l side) as (Hsz & Ha2 & Hlow & Hhi).
  assert (0 <= l4_offset l) by (destruct (family l); lia).
  assert (differs (fun i => i < l4_offset l) p p1) as Hlow1.
  { eapply differs_mono; [|exact Hd1]. unfold at_range. intros i. destruct (family l); lia. }
  pose proof Hlow1 as (Hz1 & Hb1 & Hi1).
  assert (zlen (as_slice old) = addr_size (family l)) as Hosz.
  { rewrite Hold, zlen_sub; unfold addr_size in *; destruct (family l); lia. }
  assert (even_bytes (as_slice old)) as Ho.
  { split_and!; [rewrite Hold; auto with packet|rewrite Hosz; by destruct (family l)|].
    rewrite Hosz. destruct (family l); cbn; lia. }
  assert (exists p2, (if has_transport l then @rewrite_transport E p1 l old (AddrBytes_of new) side
      else Ok p1) = Ok p2 /\
    differs (fun i => has_transport l = true /\ transport_touched p l side i) p1 p2 /\
    (has_transport l = true -> wsum (sub p2 (l4_offset l) (end_ l)) ≡₁
      wsum (sub p (l4_offset l) (end_ l)) + (if fixes_transport p l
        then wsum (as_slice old) - wsum (octets new) else 0)) /\
    (side = Destination -> has_transport l = true ->
     protocol l = PROTO_ICMP \/ protocol l = PROTO_ICMPV6 ->
     is_icmp_error (family l) (byte_at p (l4_offset l)) = true -> l4_offset l + 8 <= end_ l ->
     quotes_source p l (as_slice old) -> quotes_source p2 l (octets new)))
    as (p2 & -> & Hd2 & Hs2 & Hq2).
  { destruct (has_transport l); [|by exists p1; split_and!; [|by apply differs_refl|..]].
    destruct (@rewrite_transport_after E p p1 l old (AddrBytes_of new) side)
      as (p2 & -> & Hd2 & Hs2 & Hq2); rewrite ?as_slice_of in * by done; try done;
      [by apply even_octets|lia|].
    exists p2. split_and!; [done| |done|by intros; apply Hq2].
    eapply differs_mono; [|exact Hd2]. done. }
  cbn [mbind comp_bind]. exists p2. split; [done|].
  assert (forall x y, 0 <= x <= y -> y <= l4_offset l -> sub p2 x y = sub p1 x y) as Hlow2.
  { intros x y ??. eapply differs_sub; [exact Hd2|lia|lia|].
    intros i ? [_ Ht%transport_touched_low]. lia. }
  assert (differs (touched p l side) p p2) as Hd.
  { apply (differs_trans _ p p1 p2); [eapply differs_mono; [|exact Hd1]|
      eapply differs_mono; [|exact Hd2]]; unfold touched; tauto. }
  split.
  - exact Hd.
  - unfold locate in *. destruct Hd as (Hz & _ & Hi).
    eapply (locate_with_ext p); [done|done|done|]. intros i Hr. symmetry. apply Hi.
    + unfold reads_header in Hr. destruct (family l); lia.
    + intros Ht. by apply (touched_not_read p l side i).
  - rewrite Hlow2; [done|unfold addr_size in *; destruct (family l); lia..].
  - intros Hf. rewrite Hlow2 by lia. by apply Hh1.
  - intros Ht. rewrite <- Hold. by apply Hs2.
  - intros -> ? ? ? ? Hq. apply Hq2; try done. rewrite Hold. unfold dst_of in Hq.
    by rewrite octets_addr_of in Hq.
Qed.

Lemma rewrite_spec {E} p l new side :
  bytes_ok p -> ip_wf new -> locate p = Ok l ->
  if matches_family new (family l)
  then exists p', @rewrite E p new side = Ok (p', None) /\ rewritten p p' l new side
  else @rewrite E p new side = Ok (p, Some FamilyMismatch).
Proof.
  intros Hb Hnew Hl. unfold rewrite. rewrite Hl. pose proof Hl as Hl'. unfold locate in Hl'.
  destruct (addr_range_ok _ _ _ Hb Hl') as (Hlo & _). pose proof Hlo as [Hmin Hl4 Hend Hal].
  assert (ab_len (AddrBytes_of new) = zlen (octets new)) as Hlen by (destruct new, Hnew; cbn in *; lia).
  pose proof Hnew as [Hnb Hnl]. destruct (matches_family new (family l)) eqn:Hmf.
  2: { rewrite Hlen, Hnl. by destruct new, (family l). }
  assert (zlen (octets new) = addr_size (family l)) as Hsize.
  { rewrite Hnl. destruct new, (family l); done. }
  rewrite Hlen. replace (zlen (octets new) =? _) with true by (symmetry; by apply Z.eqb_eq).
  cbn [negb]. rewrite as_slice_of by done.
  destruct (side_range_facts l side) as (Hsz & Ha2 & Hlow & Hhi).
  change (match side with Source => src_range l | Destination => dst_range l end)
    with (side_range l side).
  rewrite (surjective_pairing (side_range l side)).
  set (a := (side_range l side).1) in *. set (b := (side_range l side).2) in *.
  assert (addr_size (family l) <= 16) by (destruct (family l); cbn; lia).
  assert (0 <= a <= b /\ b <= zlen p) as [??] by (unfold addr_size in *; destruct (family l); lia).
  rewrite slice_ok by lia. cbn [mbind comp_bind].
  destruct (@AddrBytes_from_slice_ok E (sub p a b)) as (old & -> & Hold); [rewrite zlen_sub; lia|].
  cbn [mbind comp_bind]. rewrite Hold.
  assert (even_bytes (octets new)) as Hev by (apply even_octets; by split).
  destruct (@rewrite_header_spec E p l side (sub p a b) (octets new)) as (p1 & Heq1 & Hd1 & Hn1 & Hh1);
    [done..|]. fold a in Heq1. rewrite Heq1. cbn [mbind comp_bind].
  by eapply rewrite_finish.
Qed.

(** ** A translated packet, classified again *)

Lemma is_icmp_error_kind f t : is_icmp_error f t = bool_decide (icmp_kind f t = KindError).
Proof.
  unfold is_icmp_error, icmp_kind. destruct f.
  - destruct (Z.eqb_spec t 0), (Z.eqb_spec t 8), (Z.eqb_spec t 3), (Z.eqb_spec t 11),
      (Z.eqb_spec t 12); subst; done.
  - destruct (Z.eqb_spec t 128), (Z.eqb_spec t 129), (Z.leb_spec 1 t), (Z.leb_spec t 4); subst;
      done || lia.
Qed.

Lemma addr_of_octets a f : matches_family a f = true -> addr_of f (octets a) = a.
Proof. by destruct a, f. Qed.

Lemma rewritten_src p p' l new side :
  bytes_ok p -> locate p = Ok l -> matches_family new (family l) = true ->
  rewritten p p' l new side ->
  src_of l p' = (if bool_decide (side = Source) then new else src_of l p) /\
  dst_of l p' = (if bool_decide (side = Source) then dst_of l p else new).
Proof.
  intros Hb Hl Hm Hrw. unfold locate in Hl.
  destruct (addr_range_ok _ _ _ Hb Hl) as ([Hmin _ _ _] & Hs & Hd).
  destruct Hrw as [Hdiff _ Haddr _ _ _]. unfold src_of, dst_of.
  assert (forall a b, 0 <= a <= b -> b <= zlen p ->
    (forall i, a <= i < b -> ~ touched p l side i) -> sub p' a b = sub p a b) as Hkeep.
  { intros. by eapply differs_sub. }
  destruct side; cbn [side_range] in *; [rewrite bool_decide_eq_true_2 by done|
    rewrite bool_decide_eq_false_2 by done]; rewrite Haddr, addr_of_octets by done;
    (split; [try done|try done]); f_equal; unfold src_range, dst_range in *;
    apply Hkeep; destruct (family l) eqn:Hf; cbn in *; try lia;
    intros i Hi [Ht|[[? Ht]|[_ Ht%transport_touched_low]]];
    unfold at_range, side_range, src_range, dst_range in *; rewrite ?Hf in *; cbn in *;
    try discriminate; lia.
Qed.

(** The fields of the transport header a classification reads are left alone. *)
Lemma rewritten_fields p p' l new side i :
  bytes_ok p -> layout_ok p l -> rewritten p p' l new side ->
  l4_offset l <= i < end_ l -> ~ transport_touched p l side i -> byte_at p' i = byte_at p i.
Proof.
  intros Hb [Hmin Hl4 Hend _] [(_ & _ & Hi) _ _ _ _ _] Hr Ht.
  destruct (side_range_facts l side) as (_ & _ & _ & Hhi).
  apply Hi; [destruct (family l); lia|].
  unfold touched, at_range. destruct (family l); intuition lia.
Qed.

Definition retarget (side : Side) (direction : Direction) (new : IpAddr) (k : FlowKey) : FlowKey :=
  match side, direction with
  | Source, Uplink | Destination, Downlink =>
      mkFlowKey (transport k) (mkSocketAddr new (port (local k))) (remote k)
  | Source, Downlink | Destination, Uplink =>
      mkFlowKey (transport k) (local k) (mkSocketAddr new (port (remote k)))
  end.

Definition retarget_fragment (side : Side) (new : IpAddr) (k : FragmentKey) : FragmentKey :=
  match side with
  | Source => mkFragmentKey new (fk_dst k) (fk_protocol k) (fk_id k)
  | Destination => mkFragmentKey (fk_src k) new (fk_protocol k) (fk_id k)
  end.

Lemma classify_transport_rewritten p p' l new side direction s d s' d' f k flags frag :
  bytes_ok p -> layout_ok p l -> layout_ok p' l -> rewritten p p' l new side ->
  classify_transport p l s d direction f = Ok (Flow k flags frag) ->
  s' = (if bool_decide (side = Source) then new else s) ->
  d' = (if bool_decide (side = Source) then d else new) ->
  classify_transport p' l s' d' direction (retarget_fragment side new <$> f)
    = Ok (Flow (retarget side direction new k) flags (retarget_fragment side new <$> frag)).
Proof.
  intros Hb Hlo Hlo' Hrw. pose proof (fun i => rewritten_fields p p' l new side i Hb Hlo Hrw) as Hf.
  rewrite (classify_transport_eq p), (classify_transport_eq p') by done. cbv zeta.
  unfold transport_touched, at_range in Hf. unfold u16_at.
  unfold PROTO_TCP, PROTO_UDP, PROTO_ICMP, PROTO_ICMPV6 in *.
  destruct (Z.eqb_spec (protocol l) 6) as [HP|HP].
  { destruct (Z.leb_spec 20 (end_ l - l4_offset l)); [|done]. intros [= <- <- <-] -> ->.
    rewrite !Hf by intuition lia. by destruct side, direction. }
  destruct (Z.eqb_spec (protocol l) 17) as [HQ|HQ].
  { destruct (Z.leb_spec 8 (end_ l - l4_offset l)); [|done]. intros [= <- <- <-] -> ->.
    rewrite !Hf by intuition lia. by destruct side, direction. }
  destruct (_ || _); [|done]. destruct (Z.leb_spec 8 (end_ l - l4_offset l)); [|done].
  rewrite is_icmp_error_kind in Hf. rewrite (Hf (l4_offset l)) by intuition lia.
  destruct (icmp_kind (family l) (byte_at p (l4_offset l))); [| |done].
  - intros [= <- <- <-] -> ->. rewrite !Hf by intuition (lia || discriminate).
    by destruct side, direction.
  - by intros ?%quoted_flow_not_flow.
Qed.

(** A translated packet of a flow is of the same flow, at the new address. *)
Lemma classify_rewritten p p' l new side direction k flags frag :
  bytes_ok p -> locate p = Ok l -> matches_family new (family l) = true ->
  rewritten p p' l new side ->
  classify p direction = Ok (Flow k flags frag) ->
  classify p' direction =
    Ok (Flow (retarget side direction new k) flags (retarget_fragment side new <$> frag)).
Proof.
  intros Hb Hl Hm Hrw Hc. pose proof Hl as Hl'. unfold locate in Hl'.
  destruct (addr_range_ok _ _ _ Hb Hl') as (Hlo & _). clear Hl'.
  destruct (rewritten_src _ _ _ _ _ Hb Hl Hm Hrw) as [Hsrc Hdst].
  pose proof (rw_differs _ _ _ _ _ Hrw) as (Hz & Hb' & _).
  rewrite (classify_eq p' l) by (try done; apply Hrw). rewrite (classify_eq p l) in Hc by done.
  cbv zeta in *. rewrite Hsrc, Hdst.
  assert (layout_ok p' l) as Hlo' by (destruct Hlo; split; try done; lia).
  assert (forall s d s' d' f, classify_transport p l s d direction f = Ok (Flow k flags frag) ->
    s' = (if bool_decide (side = Source) then new else s) ->
    d' = (if bool_decide (side = Source) then d else new) ->
    classify_transport p' l s' d' direction (retarget_fragment side new <$> f)
      = Ok (Flow (retarget side direction new k) flags (retarget_fragment side new <$> frag))) as Hct.
  { intros s d s' d' f H1 H2 H3. by apply (classify_transport_rewritten p p' l new side direction s d). }
  destruct (fragment l) as [f|]; [destruct (frag_first f); [|done]|].
  - rewrite <- (Hct _ _ _ _ _ Hc eq_refl eq_refl). f_equal. cbn. by destruct side.
  - by rewrite <- (Hct _ _ _ _ _ Hc eq_refl eq_refl).
Qed.

(** ** Properties *)

(** A translation never panics and has three outcomes.  A packet whose headers cannot be
    located, or an address of the other IP version, leaves every byte as it was and says why.
    Otherwise the packet keeps its length and its layout, the chosen address becomes the new
    one, the other address stays, and no byte changes outside the address, the checksums that
    cover it and, for a destination, what an ICMP error quotes. *)
Theorem rewrite_total p new side :
  bytes_ok p -> ip_wf new ->
  match locate p with
  | Panic => False
  | Err e => @rewrite Empty_set p new side = Ok (p, Some (NatPacket e))
  | Ok l =>
      if matches_family new (family l) then
        exists p', @rewrite Empty_set p new side = Ok (p', None) /\ zlen p' = zlen p /\
          bytes_ok p' /\ locate p' = Ok l /\
          src_of l p' = (if bool_decide (side = Source) then new else src_of l p) /\
          dst_of l p' = (if bool_decide (side = Source) then dst_of l p else new) /\
          (forall i, 0 <= i -> ~ touched p l side i -> byte_at p' i = byte_at p i)
      else @rewrite Empty_set p new side = Ok (p, Some FamilyMismatch)
  end.
Proof.
  intros Hb Hnew. destruct (locate p) as [l|e|] eqn:Hl.
  - pose proof (@rewrite_spec Empty_set p l new side Hb Hnew Hl) as Hr.
    destruct (matches_family new (family l)) eqn:Hm; [|done].
    destruct Hr as (p' & Heq & Hrw). exists p'. pose proof (rw_differs _ _ _ _ _ Hrw) as (Hz & Hb' & Hi).
    destruct (rewritten_src _ _ _ _ _ Hb Hl Hm Hrw). split_and!; try done. apply Hrw.
  - unfold rewrite. by rewrite Hl.
  - pose proof (locate_with_yields p false Hb) as Hy. unfold locate in Hl. by rewrite Hl in Hy.
Qed.

(** A translation keeps every checksum right that was right.  The IPv4 header still sums to
    the same value modulo 65535; so does the transport segment together with the addresses of
    its pseudo header, whenever its checksum covers them (TCP, ICMPv6, and UDP but for the
    absent checksum of IPv4, which stays absent), first fragments included; and an ICMPv4
    message still sums to the same value, the packet an error quotes rewritten with it. *)
Theorem rewrite_keeps_checksums p p' l new side :
  bytes_ok p -> ip_wf new -> locate p = Ok l ->
  @rewrite Empty_set p new side = Ok (p', None) ->
  (family l = FamilyV4 -> wsum (sub p' 0 (l4_offset l)) ≡₁ wsum (sub p 0 (l4_offset l))) /\
  (has_transport l = true ->
     if fixes_transport p l
     then pseudo_sum p' l ≡₁ pseudo_sum p l
     else wsum (sub p' (l4_offset l) (end_ l)) ≡₁ wsum (sub p (l4_offset l) (end_ l))).
Proof.
  intros Hb Hnew Hl Heq. pose proof (@rewrite_spec Empty_set p l new side Hb Hnew Hl) as Hr.
  destruct (matches_family new (family l)) eqn:Hm; [|by rewrite Hr in Heq].
  destruct Hr as (p1 & Heq1 & Hrw). rewrite Heq1 in Heq. injection Heq as ->.
  destruct (rewritten_src _ _ _ _ _ Hb Hl Hm Hrw) as [Hs Hd].
  destruct Hrw as [_ _ _ Hh Ht _]. split; [exact Hh|]. intros Htr. specialize (Ht Htr).
  unfold pseudo_sum. rewrite Hs, Hd.
  destruct (fixes_transport p l); rewrite Ht; [|exists 0; lia].
  destruct side; cbn [side_range]; [rewrite bool_decide_eq_true_2 by done|
    rewrite bool_decide_eq_false_2 by done]; unfold src_of, dst_of; rewrite !octets_addr_of;
    exists 0; lia.
Qed.

(** When a route session delivers an ICMP error about a packet this host sent from the
    route's address, restoring the destination restores the source of the quoted packet too,
    so the local stack finds its own packet in it. *)
Theorem icmp_error_quote_restored p p' l new :
  bytes_ok p -> ip_wf new -> locate p = Ok l -> has_transport l = true ->
  protocol l = PROTO_ICMP \/ protocol l = PROTO_ICMPV6 ->
  icmp_kind (family l) (byte_at p (l4_offset l)) = KindError -> l4_offset l + 8 <= end_ l ->
  quotes_source p l (octets (dst_of l p)) ->
  @rewrite_destination Empty_set p new = Ok (p', None) ->
  quotes_source p' l (octets new).
Proof.
  intros Hb Hnew Hl Ht Hp Hk H8 Hq Heq. unfold rewrite_destination in Heq.
  pose proof (@rewrite_spec Empty_set p l new Destination Hb Hnew Hl) as Hr.
  destruct (matches_family new (family l)) eqn:Hm; [|by rewrite Hr in Heq].
  destruct Hr as (p1 & Heq1 & Hrw). rewrite Heq1 in Heq. injection Heq as ->.
  apply Hrw; try done. rewrite is_icmp_error_kind. by apply bool_decide_eq_true_2.
Qed.

(** ** Witnesses *)

Definition route_ip : IpAddr := V4 [10; 64; 0; 2].

(** A destination unreachable quoting [sample_udp], to the address it was sent from. *)
Definition sample_icmp_error : bytes :=
  [69; 0; 0; 56; 0; 0; 64; 0; 64; 1; 38; 187; 10; 0; 0; 9; 10; 0; 0; 2; 3; 3; 17; 33; 0; 0; 0; 0]
  ++ sample_udp.

Definition sample_layout : Layout := mkLayout FamilyV4 PROTO_UDP 20 28 None.
Definition sample_icmp_layout : Layout := mkLayout FamilyV4 PROTO_ICMP 20 56 None.

Lemma sample_udp_ok : bytes_ok sample_udp.
Proof. repeat constructor; lia. Qed.
Lemma sample_icmp_error_ok : bytes_ok sample_icmp_error.
Proof. repeat constructor; lia. Qed.
Lemma route_ip_wf : ip_wf route_ip.
Proof. split; [repeat constructor; lia|done]. Qed.

Definition sample_udp_routed : bytes :=
  match @rewrite Empty_set sample_udp route_ip Source with Ok (p, _) => p | _ => [] end.
Definition sample_icmp_restored : bytes :=
  match @rewrite_destination Empty_set sample_icmp_error route_ip with Ok (p, _) => p | _ => [] end.

Lemma rewrite_total_witness :
  exists p', @rewrite Empty_set sample_udp route_ip Source = Ok (p', None) /\
    src_of sample_layout p' = route_ip.
Proof.
  destruct (rewrite_total sample_udp route_ip Source sample_udp_ok route_ip_wf)
    as (p' & Heq & _ & _ & _ & Hs & _).
  exists p'. split; [exact Heq|exact Hs].
Defined.

Lemma rewrite_keeps_checksums_witness :
  pseudo_sum sample_udp_routed sample_layout ≡₁ pseudo_sum sample_udp sample_layout.
Proof.
  apply (rewrite_keeps_checksums sample_udp sample_udp_routed sample_layout route_ip Source
    sample_udp_ok route_ip_wf eq_refl eq_refl). reflexivity.
Defined.

Lemma icmp_error_quote_restored_witness :
  quotes_source sample_icmp_restored sample_icmp_layout (octets route_ip).
Proof.
  apply (icmp_error_quote_restored sample_icmp_error sample_icmp_restored sample_icmp_layout
    route_ip sample_icmp_error_ok route_ip_wf eq_refl eq_refl (or_introl eq_refl) eq_refl).
  - vm_compute. discriminate.
  - exists sample_layout. split; [reflexivity|]. split; reflexivity.
  - reflexivity.
Defined.
