(* ===== verification/AppKey.v ===== *)
(** * Which app an executable belongs to (talpid-app-routing/src/app.rs)

    A path is the UTF-8 text [to_string_lossy] gives of it, as bytes.  What the
    standard library and the system answer about it (the host's conventions,
    [fs::canonicalize], Unicode lowercasing) is the [Platform] a development
    is generic in. *)

From S2P Require Import Prelude.
From Stdlib Require Ascii String.
Open Scope Z_scope.

Inductive PathFlavor : Type := MacOs | Windows | Linux.

#[export] Instance PathFlavor_eq_dec : EqDecision PathFlavor.
Proof. solve_decision. Defined.

(** [PathFlavor::HOST], [std::fs::canonicalize] and [str::to_lowercase]. *)
Class Platform : Type := {
  HOST : PathFlavor;
  canonicalize : str -> option str;
  to_lowercase : str -> str
}.

(** ** Strings as the standard library has them *)

Definition to_ascii_lower (b : Z) : Z := if (65 <=? b) && (b <=? 90) then b + 32 else b.

Definition eq_ignore_ascii_case (a b : str) : bool :=
  bool_decide (to_ascii_lower <$> a = to_ascii_lower <$> b).

(** [str::is_char_boundary]: not before a UTF-8 continuation byte. *)
Definition is_char_boundary (s : str) (i : Z) : bool :=
  if i =? 0 then true
  else if i =? zlen s then true
  else match get s i with
       | Some b => negb ((128 <=? b) && (b <? 192))
       | None => false
       end.

(** [&s[i..]] on a [str], and [&s[..i]]. *)
Definition str_from {E : Type} (s : str) (i : Z) : comp E str :=
  if is_char_boundary s i then slice s i (zlen s) else Panic.
Definition str_to {E : Type} (s : str) (i : Z) : comp E str :=
  if is_char_boundary s i then slice s 0 i else Panic.

(** [s.split(sep)], never empty. *)
Fixpoint split (sep : Z) (s : str) : list str :=
  match s with
  | [] => [[]]
  | b :: s =>
      if b =? sep then [] :: split sep s
      else match split sep s with
           | [] => [[b]]
           | c :: cs => (b :: c) :: cs
           end
  end.

Fixpoint join (sep : Z) (cs : list str) : str :=
  match cs with
  | [] => []
  | [c] => c
  | c :: cs => c ++ sep :: join sep cs
  end.

Definition strip_prefix (p s : str) : option str :=
  if bool_decide (take (length p) s = p) then Some (drop (length p) s) else None.

Definition strip_suffix (p s : str) : option str :=
  if (zlen p <=? zlen s) && bool_decide (drop (length s - length p) s = p)
  then Some (take (length s - length p) s) else None.

(** ** Keys *)

Definition SLASH : Z := 47.
Definition BACKSLASH : Z := 92.

Definition is_bundle {E : Type} (component : str) : comp E bool :=
  if 4 <? zlen component then
    suffix ← str_from component (zlen component - 4);
    Ok (eq_ignore_ascii_case suffix (lit ".app"))
  else Ok false.

Fixpoint macos_key_loop {E : Type} (path : str) (end_ : Z) (components : list str) : comp E str :=
  match components with
  | [] => Ok path
  | component :: components =>
      let end_ := end_ + zlen component in
      bundle ← is_bundle component;
      if bundle : bool then str_to path end_
      else macos_key_loop path (end_ + 1) components
  end.

Definition macos_key {E : Type} (path : str) : comp E str :=
  macos_key_loop path 0 (split SLASH path).

Definition windows_key `{!Platform} (path : str) : str :=
  let path := default path (strip_prefix (lit "\\?\") path) in
  to_lowercase ((fun b => if b =? SLASH then BACKSLASH else b) <$> path).

Definition linux_key (path : str) : str :=
  default path (strip_suffix (lit " (deleted)") path).

Definition app_key `{!Platform} {E : Type} (flavor : PathFlavor) (path : str) : comp E str :=
  match flavor with
  | MacOs => macos_key path
  | Windows => Ok (windows_key path)
  | Linux => Ok (linux_key path)
  end.

(** ** The matcher *)

Record AppMatcher (V : Type) : Type := mkAppMatcher { flavor : PathFlavor; apps : gmap str V }.
Arguments mkAppMatcher {V}.
Arguments flavor {V}.
Arguments apps {V}.

Section AppMatcher.
Context `{!Platform} {V : Type}.

Fixpoint matcher_new_loop {E : Type} (f : PathFlavor) (l : list (str * V)) (map : gmap str V)
    : comp E (gmap str V) :=
  match l with
  | [] => Ok map
  | (app, value) :: l =>
      map ← (if bool_decide (f = HOST) then
               match canonicalize app with
               | Some resolved => k ← app_key f resolved; Ok (<[k := value]> map)
               | None => Ok map
               end
             else Ok map);
      k ← app_key f app;
      matcher_new_loop f l (<[k := value]> map)
  end.

Definition matcher_new {E : Type} (f : PathFlavor) (l : list (str * V)) : comp E (AppMatcher V) :=
  map ← matcher_new_loop f l ∅; Ok (mkAppMatcher f map).

Definition matcher_is_empty (m : AppMatcher V) : bool := bool_decide (apps m = ∅).

Definition apps_only (m : AppMatcher V) : AppMatcher unit :=
  mkAppMatcher (flavor m) ((fun _ => ()) <$> apps m).

Definition matcher_lookup {E : Type} (m : AppMatcher V) (executable : str) : comp E (option V) :=
  k ← app_key (flavor m) executable; Ok (apps m !! k).
End AppMatcher.

(** ** Decisions per process *)

Record ProcessKey : Type := mkProcessKey { pid : Z; start_time : Z; image : Z }.

#[export] Instance ProcessKey_eq_dec : EqDecision ProcessKey.
Proof. solve_decision. Defined.
#[export] Instance ProcessKey_countable : Countable ProcessKey.
Proof.
  apply (inj_countable' (fun k => (pid k, start_time k, image k))
    (fun '(p, s, i) => mkProcessKey p s i)).
  by intros [].
Defined.

Record DecisionCache (V : Type) : Type := mkDecisionCache {
  decisions : gmap ProcessKey (option V);
  cache_capacity : Z
}.
Arguments mkDecisionCache {V}.
Arguments decisions {V}.
Arguments cache_capacity {V}.

Section DecisionCache.
Context {V : Type}.
Implicit Types (c : DecisionCache V).

Definition cache_new (capacity : Z) : DecisionCache V := mkDecisionCache ∅ (Z.max capacity 1).

Definition cache_get c (process : ProcessKey) : option (option V) := decisions c !! process.

Definition cache_insert c (process : ProcessKey) (decision : option V) : DecisionCache V :=
  let m := if (cache_capacity c <=? zsize (decisions c))
              && bool_decide (decisions c !! process = None)
           then ∅ else decisions c in
  mkDecisionCache (<[process := decision]> m) (cache_capacity c).

Definition cache_len c : Z := zsize (decisions c).

Definition cache_clear c : DecisionCache V := mkDecisionCache ∅ (cache_capacity c).
End DecisionCache.

(** ** Splitting and joining *)

Lemma split_nonempty sep s : split sep s <> [].
Proof. destruct s as [|b s]; simpl; [done|]. destruct (b =? sep); [done|]. by destruct (split sep s). Qed.

Lemma join_split sep s : join sep (split sep s) = s.
Proof.
  induction s as [|b s IH]; simpl; [done|]. pose proof (split_nonempty sep s).
  destruct (Z.eqb_spec b sep) as [->|].
  - simpl. destruct (split sep s) as [|c cs]; [done|]. by rewrite IH.
  - destruct (split sep s) as [|c [|c' cs]]; [done| |]; simpl in *; by rewrite <- IH.
Qed.

Lemma split_app sep s t : split sep (s ++ sep :: t) = split sep s ++ split sep t.
Proof.
  induction s as [|b s IH]; simpl; [by rewrite Z.eqb_refl|]. rewrite IH.
  destruct (b =? sep); [done|]. pose proof (split_nonempty sep s). by destruct (split sep s).
Qed.

(** Joined components, each followed by the separator. *)
Definition joined (sep : Z) (cs : list str) : str := concat ((fun c => c ++ [sep]) <$> cs).

Lemma joined_snoc sep pre c : joined sep (pre ++ [c]) = joined sep pre ++ c ++ [sep].
Proof. unfold joined. rewrite fmap_app, concat_app. simpl. by rewrite app_nil_r. Qed.

Lemma join_joined sep pre c post :
  join sep (pre ++ c :: post) = joined sep pre ++ join sep (c :: post).
Proof.
  induction pre as [|a pre IH]; [done|]. unfold joined in *. cbn [app fmap list_fmap concat].
  rewrite <- app_assoc. simpl. destruct (pre ++ c :: post) eqn:E; [by destruct pre|].
  simpl in IH. rewrite <- IH. simpl. by rewrite <- app_assoc.
Qed.

(** ** The key of a macOS path *)

(** A bundle's name, and a name whose last four bytes start inside a character. *)
Definition bundle_name (c : str) : bool :=
  (4 <? zlen c) && eq_ignore_ascii_case (sub c (zlen c - 4) (zlen c)) (lit ".app").

Definition cuts_char (c : str) : bool := (4 <? zlen c) && negb (is_char_boundary c (zlen c - 4)).

Definition plain (c : str) : bool := negb (bundle_name c) && negb (cuts_char c).

Lemma is_bundle_eq {E : Type} (c : str) :
  @is_bundle E c = if cuts_char c then Panic else Ok (bundle_name c).
Proof.
  unfold is_bundle, cuts_char, bundle_name, str_from. destruct (Z.ltb_spec 4 (zlen c)); [|done].
  cbn [andb]. destruct (is_char_boundary _ _); cbn [negb]; [|done].
  by rewrite slice_ok by lia.
Qed.

Lemma byte_at_app_l (s t : str) i : 0 <= i < zlen s -> byte_at (s ++ t) i = byte_at s i.
Proof.
  intros. unfold byte_at, get, zlen in *. destruct (Z.leb_spec 0 i); [|lia].
  by rewrite lookup_app_l by lia.
Qed.

Lemma sub_app_l (s t : str) : sub (s ++ t) 0 (zlen s) = s.
Proof.
  unfold sub, zlen. rewrite drop_0, Z.sub_0_r, Nat2Z.id. apply take_app_length.
Qed.

(** Taking the path up to the end of a component never cuts a character. *)
Lemma str_to_component {E : Type} (s : str) (post : list str) :
  @str_to E (match post with [] => s | c :: cs => s ++ SLASH :: join SLASH (c :: cs) end) (zlen s) = Ok s.
Proof.
  unfold str_to. pose proof (zlen_nonneg s).
  assert (forall t, @slice E (s ++ t) 0 (zlen s) = Ok s) as Hs.
  { intros t. pose proof (zlen_nonneg t). rewrite slice_ok by (rewrite ?zlen_app; lia).
    by rewrite sub_app_l. }
  destruct post as [|c cs].
  - unfold is_char_boundary. destruct (zlen s =? 0); rewrite ?Z.eqb_refl;
      rewrite <- (app_nil_r s) at 1; apply Hs.
  - assert (is_char_boundary (s ++ SLASH :: join SLASH (c :: cs)) (zlen s) = true) as ->; [|apply Hs].
    unfold is_char_boundary. destruct (zlen s =? 0); [done|]. destruct (zlen s =? _); [done|].
    unfold get. destruct (Z.leb_spec 0 (zlen s)); [|lia]. unfold zlen. rewrite Nat2Z.id.
    by rewrite list_lookup_middle.
Qed.

Lemma bundle_uncut c : bundle_name c = true -> cuts_char c = false.
Proof.
  unfold bundle_name, cuts_char, is_char_boundary, eq_ignore_ascii_case. intros H. zbool.
  destruct H as [H4 Hs]. apply bool_decide_eq_true in Hs. zbool.
  destruct (Z.ltb_spec 4 (zlen c)); [|lia]. cbn [andb].
  destruct (Z.eqb_spec (zlen c - 4) 0); [lia|]. destruct (Z.eqb_spec (zlen c - 4) (zlen c)); [lia|].
  assert (byte_at (sub c (zlen c - 4) (zlen c)) 0 = byte_at c (zlen c - 4)) as Hb.
  { rewrite byte_at_sub by lia. f_equal. lia. }
  destruct (sub c _ _) as [|b l] eqn:E; [done|]. apply (f_equal head) in Hs. simpl in Hs.
  injection Hs as Hs. change (byte_at (b :: l) 0) with b in Hb.
  unfold byte_at in Hb. destruct (get c (zlen c - 4)) as [x|] eqn:Ex; simpl in Hb.
  - subst x. unfold to_ascii_lower in Hs. destruct (Z.leb_spec 65 b), (Z.leb_spec b 90); simpl in Hs;
      destruct (Z.leb_spec 128 b); simpl; try done; lia.
  - subst b. done.
Qed.

(** Components the loop passes over. *)
Lemma macos_key_loop_plain {E : Type} path pre q r :
  Forall (fun c => plain c = true) q ->
  @macos_key_loop E path (zlen (joined SLASH pre)) (q ++ r) =
  macos_key_loop path (zlen (joined SLASH (pre ++ q))) r.
Proof.
  intros Hq. revert pre. induction Hq as [|c q Hc _ IH]; intros pre; [by rewrite app_nil_r|].
  simpl. rewrite is_bundle_eq. unfold plain in Hc. zbool. destruct Hc as [Hb Hc]. zbool.
  rewrite Hc, Hb. cbn [mbind comp_bind].
  replace (zlen (joined SLASH pre) + zlen c + 1) with (zlen (joined SLASH (pre ++ [c])))
    by (rewrite joined_snoc, !zlen_app; unfold zlen; simpl; lia).
  rewrite IH. by rewrite <- app_assoc.
Qed.

Lemma macos_key_bundle {E : Type} pre c post :
  Forall (fun c => plain c = true) pre -> bundle_name c = true ->
  @macos_key_loop E (join SLASH (pre ++ c :: post)) 0 (pre ++ c :: post) = Ok (join SLASH (pre ++ [c])).
Proof.
  intros Hpre Hc. change 0 with (zlen (joined SLASH [])). rewrite macos_key_loop_plain by done.
  simpl. rewrite is_bundle_eq, bundle_uncut, Hc by done. cbn [mbind comp_bind].
  rewrite !join_joined. simpl (join SLASH [c]). rewrite <- zlen_app.
  rewrite <- (str_to_component (joined SLASH pre ++ c) post). f_equal.
  destruct post; [done|]. simpl. by rewrite <- app_assoc.
Qed.

Lemma macos_key_cut {E : Type} pre c post :
  Forall (fun c => plain c = true) pre -> cuts_char c = true ->
  @macos_key_loop E (join SLASH (pre ++ c :: post)) 0 (pre ++ c :: post) = Panic.
Proof.
  intros Hpre Hc. change 0 with (zlen (joined SLASH [])). rewrite macos_key_loop_plain by done.
  simpl. by rewrite is_bundle_eq, Hc.
Qed.

(** The first component that is not plain. *)
Lemma first_not_plain cs :
  Forall (fun c => plain c = true) cs \/
  exists pre c post, cs = pre ++ c :: post /\ Forall (fun c => plain c = true) pre /\ plain c = false.
Proof.
  induction cs as [|c cs IH]; [by left|]. destruct (plain c) eqn:Hc.
  - destruct IH as [IH|(pre & d & post & -> & Hp & Hd)]; [left; by constructor|].
    right. exists (c :: pre), d, post. split; [done|]. split; [by constructor|done].
  - right. exists [], c, cs. done.
Qed.

(** C40: the key of a macOS path, in full.  Reading the path's components from
    the left up to the first that is a bundle's name or whose last four bytes
    begin inside a UTF-8 character: a bundle there gives the path up to and
    including it (the outermost bundle, so helpers nested in it share its
    key); a component cut inside a character makes the function panic; and if
    there is neither, the path is its own key. *)
Theorem macos_key_outermost_bundle (path : str) :
  (Forall (fun c => plain c = true) (split SLASH path) /\ @macos_key Empty_set path = Ok path) \/
  exists pre c post,
    split SLASH path = pre ++ c :: post /\ Forall (fun c => plain c = true) pre /\
    ((bundle_name c = true /\ @macos_key Empty_set path = Ok (join SLASH (pre ++ [c]))) \/
     (cuts_char c = true /\ @macos_key Empty_set path = Panic)).
Proof.
  destruct (first_not_plain (split SLASH path)) as [H|(pre & c & post & Hs & Hpre & Hc)].
  - left. split; [done|]. unfold macos_key. change 0 with (zlen (joined SLASH [])).
    rewrite <- (app_nil_r (split SLASH path)). by rewrite macos_key_loop_plain.
  - right. exists pre, c, post. split; [done|]. split; [done|].
    unfold macos_key. rewrite <- (join_split SLASH path) at 1 3. rewrite Hs.
    unfold plain in Hc. zbool. destruct Hc as [Hc|Hc]; zbool.
    + left. split; [done|]. by apply macos_key_bundle.
    + right. split; [done|]. by apply macos_key_cut.
Qed.

(** Everything inside a bundle belongs to it.  A path whose last
    component is its first bundle name is its own key, and so is it the key of
    every path below it, nested bundles and components of any spelling
    included. *)
Theorem macos_bundle_owns_nested (pre : list str) (c : str) (app rest : str)
    (Hsplit : split SLASH app = pre ++ [c])
    (Hpre : Forall (fun c => plain c = true) pre) (Hc : bundle_name c = true) :
  @macos_key Empty_set app = Ok app /\ @macos_key Empty_set (app ++ SLASH :: rest) = Ok app.
Proof.
  assert (app = join SLASH (pre ++ [c])) as Happ by (by rewrite <- Hsplit, join_split).
  split.
  - unfold macos_key. rewrite Hsplit, Happ at 1. by rewrite Happ, macos_key_bundle.
  - unfold macos_key. rewrite <- (join_split SLASH (app ++ SLASH :: rest)) at 1.
    rewrite split_app, Hsplit, <- app_assoc. simpl. rewrite macos_key_bundle by done. by rewrite Happ.
Qed.

Lemma macos_bundle_owns_nested_witness :
  @macos_key Empty_set (lit "/Applications/Chromium.app") = Ok (lit "/Applications/Chromium.app") /\
  @macos_key Empty_set (lit "/Applications/Chromium.app" ++ SLASH :: lit "Contents/Helper.app/Helper")
    = Ok (lit "/Applications/Chromium.app").
Proof.
  apply (macos_bundle_owns_nested [[]; lit "Applications"] (lit "Chromium.app")).
  - vm_compute; reflexivity.
  - repeat constructor; vm_compute; reflexivity.
  - vm_compute; reflexivity.
Defined.

(** A component whose fourth byte from the end continues a UTF-8 character
    makes the key of every path through it panic, unless a bundle encloses
    it.  The fixed-width slice is taken before any check that it starts on a
    character boundary. *)
Theorem macos_key_panics_inside_character (pre post : list str) (stem t path : str) (b : Z)
    (Hsplit : split SLASH path = pre ++ (stem ++ b :: t) :: post)
    (Hpre : Forall (fun c => plain c = true) pre)
    (Hstem : 0 < zlen stem) (Hb : 128 <= b < 192) (Ht : zlen t = 3) :
  @macos_key Empty_set path = Panic.
Proof.
  unfold macos_key. rewrite <- (join_split SLASH path) at 1. rewrite Hsplit.
  apply macos_key_cut; [done|].
  assert (zlen (stem ++ b :: t) = zlen stem + 4) as Hz by (rewrite zlen_app, zlen_cons; lia).
  unfold cuts_char, is_char_boundary. rewrite Hz.
  replace (zlen stem + 4 - 4) with (zlen stem) by lia.
  destruct (Z.ltb_spec 4 (zlen stem + 4)); [|lia]. destruct (Z.eqb_spec (zlen stem) 0); [lia|].
  destruct (Z.eqb_spec (zlen stem) (zlen stem + 4)); [lia|].
  unfold get. destruct (Z.leb_spec 0 (zlen stem)); [|lia].
  unfold zlen. rewrite Nat2Z.id, list_lookup_middle by done.
  destruct (Z.leb_spec 128 b), (Z.ltb_spec b 192); [done|lia..].
Qed.

(** The home directory of a user called 张三: e5 bc a0 e4 b8 89. *)
Definition zhang_san_home : str := lit "/Users/" ++ [229; 188; 160; 228; 184; 137] ++ lit "/bin/tool".

Lemma macos_key_panics_inside_character_witness : @macos_key Empty_set zhang_san_home = Panic.
Proof.
  apply (macos_key_panics_inside_character [[]; lit "Users"] [lit "bin"; lit "tool"]
           [229; 188] [228; 184; 137] zhang_san_home 160);
    [by vm_compute|by repeat constructor; vm_compute|by vm_compute|lia|by vm_compute].
Defined.

(** ** The matcher's answers *)

Section MatcherSpec.
Context `{!Platform} {V : Type}.

(** [app] reduces to the key [k], by its path or, on the host, by what its
    path resolves to. *)
Definition matches (f : PathFlavor) (k : str) (app : str) : Prop :=
  @app_key _ Empty_set f app = Ok k \/
  (f = HOST /\ exists r, canonicalize app = Some r /\ @app_key _ Empty_set f r = Ok k).

(** [v] is the value of the last app of [l] that reduces to [k]. *)
Definition last_match (f : PathFlavor) (k : str) (l : list (str * V)) (v : V) : Prop :=
  exists pre app post, l = pre ++ (app, v) :: post /\ matches f k app /\
    Forall (fun av => ~ matches f k av.1) post.

Lemma last_match_cons f k a l v : last_match f k l v -> last_match f k (a :: l) v.
Proof. intros (pre & app & post & -> & Hl). by exists (a :: pre), app, post. Qed.

(** What one app of the list does to the map under construction. *)
Lemma matcher_step f app (v : V) l map m :
  @matcher_new_loop _ V Empty_set f ((app, v) :: l) map = Ok m ->
  exists map', @matcher_new_loop _ V Empty_set f l map' = Ok m /\
    forall k, (matches f k app /\ map' !! k = Some v) \/ (~ matches f k app /\ map' !! k = map !! k).
Proof.
  simpl. intros Hl. apply bind_ok in Hl as (map1 & H1 & Hl).
  apply bind_ok in Hl as (ka & Hka & Hl). eexists. split; [exact Hl|]. intros k.
  assert (forall map0 : gmap str V,
    (forall k, (f = HOST /\ (exists r, canonicalize app = Some r /\ @app_key _ Empty_set f r = Ok k) /\ map0 !! k = Some v)
      \/ (~ (f = HOST /\ exists r, canonicalize app = Some r /\ @app_key _ Empty_set f r = Ok k) /\ map0 !! k = map !! k)) ->
    (matches f k app /\ <[ka:=v]> map0 !! k = Some v) \/
    (~ matches f k app /\ <[ka:=v]> map0 !! k = map !! k)) as Hfin.
  { intros map0 H0. unfold matches. rewrite Hka. destruct (decide (ka = k)) as [->|Hne].
    - left. rewrite lookup_insert_eq. auto.
    - rewrite lookup_insert_ne by done. destruct (H0 k) as [(?&?&?)|[Hn ?]]; [left; auto|].
      right. split; [|done]. intros [?|?]; [congruence|auto]. }
  apply Hfin. clear k Hfin Hl. intros k. destruct (bool_decide_reflect (f = HOST)) as [Hf|Hf].
  - destruct (canonicalize app) as [r|]; [|injection H1 as <-; right; split; [|done]; by intros (?&?&?&?)].
    apply bind_ok in H1 as (kr & Hkr & [= <-]). destruct (decide (kr = k)) as [->|Hne].
    + left. rewrite lookup_insert_eq. eauto.
    + right. rewrite lookup_insert_ne by done. split; [|done]. intros (_ & r' & [= <-] & ?). congruence.
  - injection H1 as <-. right. split; [|done]. by intros [? _].
Qed.

Lemma matcher_new_loop_spec (f : PathFlavor) (l : list (str * V)) (map m : gmap str V) (k : str) :
  @matcher_new_loop _ V Empty_set f l map = Ok m ->
  (exists v, m !! k = Some v /\ last_match f k l v) \/
  (m !! k = map !! k /\ Forall (fun av => ~ matches f k av.1) l).
Proof.
  revert map. induction l as [|[app v] l IH]; intros map Hl.
  - injection Hl as <-. by right.
  - apply matcher_step in Hl as (map' & Hl & Hstep).
    destruct (IH _ Hl) as [(v' & Hm & Hk)|[Hm Hk]].
    + left. exists v'. split; [done|]. by apply last_match_cons.
    + destruct (Hstep k) as [[Ha Hv]|[Ha Hv]].
      * left. exists v. split; [congruence|]. by exists [], app, l.
      * right. split; [congruence|]. by constructor.
Qed.

(** A matcher answers for an executable with the value of the last chosen
    app that reduces to the executable's key, whether by the app's own path
    or by the path it resolves to on the host, and with nothing exactly when
    no chosen app does; the copy without values knows the same programs. *)
Theorem matcher_lookup_spec (f : PathFlavor) (l : list (str * V)) (m : AppMatcher V)
    (executable k : str)
    (Hm : @matcher_new _ V Empty_set f l = Ok m)
    (Hk : @app_key _ Empty_set f executable = Ok k) :
  ((exists v, @matcher_lookup _ V Empty_set m executable = Ok (Some v) /\ last_match f k l v) \/
   (@matcher_lookup _ V Empty_set m executable = Ok None /\ Forall (fun av => ~ matches f k av.1) l)) /\
  exists o, @matcher_lookup _ V Empty_set m executable = Ok o /\
    @matcher_lookup _ unit Empty_set (apps_only m) executable = Ok ((fun _ => ()) <$> o).
Proof.
  unfold matcher_new in Hm. apply bind_ok in Hm as (map & Hmap & [= <-]).
  unfold matcher_lookup. simpl. rewrite Hk. simpl. split.
  - destruct (matcher_new_loop_spec _ _ _ _ k Hmap) as [(v & -> & Hl)|[-> Hl]]; eauto.
  - eexists. split; [done|]. by rewrite lookup_fmap.
Qed.
End MatcherSpec.

(** A host with a symbolic link from [/usr/bin/fx] to Firefox. *)
Definition linux_host : Platform := {|
  HOST := Linux;
  canonicalize p := if bool_decide (p = lit "/usr/bin/fx") then Some (lit "/usr/lib/firefox/firefox") else None;
  to_lowercase s := to_ascii_lower <$> s |}.

Lemma matcher_lookup_spec_witness :
  let m := mkAppMatcher Linux (<[lit "/usr/bin/fx" := 7]> (<[lit "/usr/lib/firefox/firefox" := 7]> ∅)) in
  exists o, @matcher_lookup linux_host Z Empty_set m (lit "/usr/lib/firefox/firefox (deleted)") = Ok o /\
    @matcher_lookup linux_host unit Empty_set (apps_only m) (lit "/usr/lib/firefox/firefox (deleted)")
      = Ok ((fun _ => ()) <$> o).
Proof.
  refine (proj2 (@matcher_lookup_spec linux_host Z Linux [(lit "/usr/bin/fx", 7)] _
            (lit "/usr/lib/firefox/firefox (deleted)") (lit "/usr/lib/firefox/firefox") _ _)); by vm_compute.
Defined.

(** ** The cache's answers *)

Inductive CacheOp (V : Type) : Type :=
| CInsert (process : ProcessKey) (decision : option V)
| CClear.
Arguments CInsert {V}.
Arguments CClear {V}.

Section CacheSpec.
Context {V : Type}.
Implicit Types (c : DecisionCache V) (ops : list (CacheOp V)).

Definition cache_op c (op : CacheOp V) : DecisionCache V :=
  match op with CInsert p d => cache_insert c p d | CClear => cache_clear c end.
Definition cache_run (capacity : Z) ops : DecisionCache V := foldl cache_op (cache_new capacity) ops.

(** [op] does not touch the decision of [p], short of making room. *)
Definition leaves (p : ProcessKey) (op : CacheOp V) : Prop :=
  match op with CInsert q _ => q <> p | CClear => False end.

Lemma cache_run_snoc cap ops op : cache_run cap (ops ++ [op]) = cache_op (cache_run cap ops) op.
Proof. unfold cache_run. by rewrite foldl_app. Qed.

Lemma cache_run_capacity cap ops : cache_capacity (cache_run cap ops) = Z.max cap 1.
Proof. induction ops as [|op ops IH] using rev_ind; [done|]. rewrite cache_run_snoc. by destruct op. Qed.

Lemma cache_run_len cap ops : cache_len (cache_run cap ops) <= Z.max cap 1.
Proof.
  induction ops as [|op ops IH] using rev_ind.
  { unfold cache_len, zsize. simpl. rewrite map_size_empty. lia. }
  rewrite cache_run_snoc. pose proof (cache_run_capacity cap ops) as Hc.
  set (c := cache_run cap ops) in *. unfold cache_len, zsize in *.
  destruct op as [p d|]; simpl; [|rewrite map_size_empty; lia].
  unfold zsize. rewrite map_size_insert. rewrite Hc.
  destruct (Z.leb_spec (Z.max cap 1) (Z.of_nat (size (decisions c)))); simpl.
  - destruct (bool_decide_reflect (decisions c !! p = None)) as [?|Hp].
    + rewrite lookup_empty, map_size_empty. simpl. lia.
    + destruct (decisions c !! p); [simpl; lia|done].
  - destruct (decisions c !! p); simpl; lia.
Qed.

(** The cache of decisions never holds more processes than its capacity
    (at least one), and what it answers for a process is exactly the decision
    inserted last for that very process (pid, start time and image): a stale
    or recycled process never inherits another's.  A decision just inserted
    is found. *)
Theorem decision_cache_coherent (capacity : Z) ops (p : ProcessKey) (d : option V) :
  cache_len (cache_run capacity ops) <= Z.max capacity 1 /\
  (cache_get (cache_run capacity ops) p = Some d ->
     exists before after, ops = before ++ CInsert p d :: after /\ Forall (leaves p) after) /\
  cache_get (cache_run capacity (ops ++ [CInsert p d])) p = Some d.
Proof.
  split; [apply cache_run_len|]. split.
  - induction ops as [|op ops IH] using rev_ind; [done|]. rewrite cache_run_snoc.
    destruct op as [q e|]; [|done]. unfold cache_get in *. simpl.
    destruct (decide (q = p)) as [->|Hne].
    + rewrite lookup_insert_eq. intros [= ->]. by exists ops, [].
    + rewrite lookup_insert_ne by done. destruct (_ && _); [done|]. intros H.
      destruct (IH H) as (before & after & -> & Ha).
      exists before, (after ++ [CInsert q e]). split; [by rewrite <- app_assoc|].
      apply Forall_app. split; [done|]. by constructor.
  - rewrite cache_run_snoc. unfold cache_get. simpl. by rewrite lookup_insert_eq.
Qed.
End CacheSpec.
