(* ===== verification/AppRouting.v ===== *)
(** * The app routing settings (mullvad-types/src/app_routing.rs)

    App ids and exit choices as clients send them, the settings page, and the
    precedence rules between its lists. *)

From S2P Require Import Prelude BTree Net AppKey.
Open Scope Z_scope.

Inductive SplitMode : Type := Off | Exclude | IncludeOnly.

Inductive AppRoutingError : Type :=
| EmptyAppId | NotAbsolutePath | NotPackageName | InvalidCountry | InvalidCity | LockUnavailable.

Inductive AppIdFlavor : Type := Unix | Windows | Android.

#[export] Instance SplitMode_eq_dec : EqDecision SplitMode.
Proof. solve_decision. Defined.

(** The [cfg!] of the build. *)
Class Target : Type := { target_os_android : bool; cfg_windows : bool }.

(** [AppIdFlavor::HOST] *)
Definition FLAVOR_HOST `{!Target} : AppIdFlavor :=
  if target_os_android then Android else if cfg_windows then Windows else Unix.

(** ** App ids *)

(** [AppId(String)], a newtype whose order is the string's. *)
Abbreviation AppId := str (only parsing).

(** [str::trim_end_matches] of one ASCII character. *)
Fixpoint trim_end_matches (c : Z) (s : str) : str :=
  match s with
  | [] => []
  | b :: s =>
      match trim_end_matches c s with
      | [] => if b =? c then [] else [b]
      | t => b :: t
      end
  end.

(** [str::replace] of one ASCII character by another. *)
Definition replace (a b : Z) (s : str) : str := (fun x => if x =? a then b else x) <$> s.

Definition contains (c : Z) (s : str) : bool := existsb (fun b => b =? c) s.

Definition is_ascii_alphabetic (b : Z) : bool := (65 <=? b) && (b <=? 90) || (97 <=? b) && (b <=? 122).
Definition is_ascii_alphanumeric (b : Z) : bool := is_ascii_alphabetic b || (48 <=? b) && (b <=? 57).

Definition starts_with (p s : str) : bool := bool_decide (take (length p) s = p).

Definition has_drive (path : str) : bool :=
  match path with
  | letter :: colon :: sep :: _ :: _ => is_ascii_alphabetic letter && (colon =? 58) && (sep =? BACKSLASH)
  | _ => false
  end.

Definition valid_segment (segment : str) : bool :=
  negb (bool_decide (segment = [])) && forallb (fun c => is_ascii_alphanumeric c || (c =? 95)) segment.

Definition parse_as (flavor : AppIdFlavor) (raw : str) : comp AppRoutingError AppId :=
  if contains 0 raw then Err NotAbsolutePath else
  match flavor with
  | Unix =>
      let path := trim_end_matches SLASH raw in
      if bool_decide (path = []) then Err EmptyAppId
      else if negb (starts_with (lit "/") path) then Err NotAbsolutePath
      else Ok path
  | Windows =>
      let path := replace SLASH BACKSLASH raw in
      let path := trim_end_matches BACKSLASH path in
      if bool_decide (path = []) then Err EmptyAppId
      else if negb (has_drive path) && negb (starts_with (lit "\\") path) then Err NotAbsolutePath
      else Ok path
  | Android =>
      if bool_decide (raw = []) then Err EmptyAppId else
      let segments_valid := forallb valid_segment (split 46 raw) in
      if negb segments_valid || negb (contains 46 raw) then Err NotPackageName
      else Ok raw
  end.

Definition lenient_as (flavor : AppIdFlavor) (raw : str) : AppId :=
  match parse_as flavor raw with Ok id => id | _ => raw end.

Definition parse `{!Target} (raw : str) : comp AppRoutingError AppId := parse_as FLAVOR_HOST raw.
Definition lenient `{!Target} (raw : str) : AppId := lenient_as FLAVOR_HOST raw.

(** ** Exit choices *)

Record ExitChoice : Type := mkExitChoice { country : str; city : option str }.

#[export] Instance ExitChoice_eq_dec : EqDecision ExitChoice.
Proof. solve_decision. Defined.
Definition exit_fields (c : ExitChoice) : str * option str := (country c, city c).
#[export] Instance exit_fields_inj : Inj (=) (=) exit_fields.
Proof. by intros [] [] [= -> ->]. Qed.
#[export] Instance ExitChoice_countable : Countable ExitChoice.
Proof. apply (inj_countable' exit_fields (fun p => mkExitChoice p.1 p.2)). by intros []. Defined.
(** [derive(Ord)]: the country, then the city. *)
#[export] Instance ExitChoice_ord : RustOrd ExitChoice := via_ord exit_fields exit_fields_inj.

Definition to_ascii_lowercase (s : str) : str := to_ascii_lower <$> s.

Definition valid_city (city : str) : bool :=
  (1 <=? zlen city) && (zlen city <=? 16) && forallb (fun c => is_ascii_alphanumeric c || (c =? 45)) city.

(** [ExitChoice::new] *)
Definition exit_choice_new (country : str) (city : option str) : comp AppRoutingError ExitChoice :=
  if negb (zlen country =? 2) || negb (forallb is_ascii_alphabetic country) then Err InvalidCountry else
  city ← match city with
         | None => Ok None
         | Some city => if valid_city city then Ok (Some (to_ascii_lowercase city)) else Err InvalidCity
         end;
  Ok (mkExitChoice (to_ascii_lowercase country) city).

(** ** The settings *)

Record AppRoutingSettings : Type := mkAppRoutingSettings {
  split_mode : SplitMode;
  excluded_apps : gset AppId;
  included_apps : gset AppId;
  app_exits_enabled : bool;
  app_exits : gmap AppId ExitChoice;
  locked_apps : gset AppId
}.

Inductive UnavailableReason : Type :=
| TunnelDown | NoToken | LimitReached | NoRelay | WaitingForRoute | NoDialableNetwork.

Inductive AppRouteState : Type := ARConnecting | ARConnected | ARUnavailable (reason : UnavailableReason).

Record AppRouteStatus : Type := mkAppRouteStatus {
  st_exit : ExitChoice;
  st_state : AppRouteState;
  st_public_ip : option IpAddr;
  st_apps : list AppId
}.

Definition settings_default : AppRoutingSettings := mkAppRoutingSettings Off ∅ ∅ false ∅ ∅.

Section Settings.
Implicit Types (s : AppRoutingSettings) (app : AppId).

Definition exclusions_active s : bool := bool_decide (split_mode s = Exclude).

Definition lock_app s app : AppRoutingSettings :=
  mkAppRoutingSettings (split_mode s) (excluded_apps s ∖ {[app]}) (included_apps s) (app_exits_enabled s)
    (app_exits s) ({[app]} ∪ locked_apps s).

Definition unlock_app s app : AppRoutingSettings :=
  mkAppRoutingSettings (split_mode s) (excluded_apps s) (included_apps s) (app_exits_enabled s)
    (app_exits s) (locked_apps s ∖ {[app]}).

Definition effective_excluded_apps s : gset AppId :=
  if negb (exclusions_active s) then ∅
  else filter (fun app => app ∉ locked_apps s) (excluded_apps s).

Definition effective_locked_apps s : gset AppId := locked_apps s.

Definition set_app_exit s app (exit : ExitChoice) : AppRoutingSettings :=
  mkAppRoutingSettings (split_mode s) (excluded_apps s) (included_apps s) (app_exits_enabled s)
    (<[app := exit]> (app_exits s)) (locked_apps s).

Definition effective_app_exits s : gmap AppId ExitChoice :=
  if negb (app_exits_enabled s) then ∅ else
  let excluded := effective_excluded_apps s in
  filter (fun kv => kv.1 ∉ excluded) (app_exits s).

Definition effective_included_apps s : gset AppId :=
  if negb (bool_decide (split_mode s = IncludeOnly)) then ∅
  else included_apps s ∪ dom (effective_app_exits s) ∪ locked_apps s.

(** [state] is an [FnMut]: it carries its own state from call to call. *)
Fixpoint statuses {S : Type} (state : S -> ExitChoice -> (AppRouteState * option IpAddr) * S) (x : S)
    (by_exit : list (ExitChoice * list AppId)) : list AppRouteStatus * S :=
  match by_exit with
  | [] => ([], x)
  | (exit, apps) :: by_exit =>
      let '((route_state, public_ip), x) := state x exit in
      let '(rest, x) := statuses state x by_exit in
      (mkAppRouteStatus exit route_state public_ip apps :: rest, x)
  end.

Definition apps_by_exit s : gmap ExitChoice (list AppId) :=
  grouped ((fun '(app, exit) => (exit, app)) <$> btree_iter (effective_app_exits s)).

Definition route_statuses {S : Type} s (state : S -> ExitChoice -> (AppRouteState * option IpAddr) * S) (x : S)
    : list AppRouteStatus * S :=
  statuses state x (btree_iter (apps_by_exit s)).
End Settings.

(** ** Strings *)

Lemma trim_end_spec c s :
  (exists n, s = trim_end_matches c s ++ replicate n c) /\ last (trim_end_matches c s) <> Some c.
Proof.
  induction s as [|b s [[n Hn] Hl]]; simpl; [by split; [exists 0%nat|]|].
  destruct (trim_end_matches c s) as [|b' t] eqn:E; simpl in *.
  - destruct (Z.eqb_spec b c) as [->|Hb]; simpl.
    + split; [exists (S n); by rewrite Hn|done].
    + split; [exists n; by rewrite Hn|congruence].
  - split; [exists n; by rewrite Hn at 1|done].
Qed.

Lemma trim_end_fixed c s : last s <> Some c -> trim_end_matches c s = s.
Proof.
  induction s as [|b s IH]; [done|]. intros Hl. simpl.
  destruct s as [|b' s]; [simpl in *; destruct (Z.eqb_spec b c); congruence|].
  rewrite IH by done. done.
Qed.

Lemma trim_end_replicate c n s : trim_end_matches c (s ++ replicate n c) = trim_end_matches c s.
Proof.
  assert (trim_end_matches c (replicate n c) = []) as Hr.
  { induction n as [|n IH]; simpl; [done|]. rewrite IH. by rewrite Z.eqb_refl. }
  induction s as [|b s IH]; simpl; [done|]. by rewrite IH.
Qed.

Lemma trim_end_idemp c s : trim_end_matches c (trim_end_matches c s) = trim_end_matches c s.
Proof. apply trim_end_fixed. apply trim_end_spec. Qed.

Lemma contains_app c s t : contains c (s ++ t) = contains c s || contains c t.
Proof. apply existsb_app. Qed.

Lemma contains_replicate c d n : c <> d -> contains c (replicate n d) = false.
Proof.
  intros Hn. induction n as [|n IH]; [done|]. unfold contains in *. simpl. rewrite IH.
  by destruct (Z.eqb_spec d c); [congruence|].
Qed.

Lemma contains_trim c d s : contains c s = false -> contains c (trim_end_matches d s) = false.
Proof.
  destruct (trim_end_spec d s) as [[n Hn] _]. rewrite Hn at 1. rewrite contains_app.
  by intros [? _]%orb_false_iff.
Qed.

Lemma contains_not_in c s : contains c s = false <-> c ∉ s.
Proof.
  split.
  - intros Hc Hin. apply not_true_iff_false in Hc. apply Hc. apply existsb_exists.
    exists c. split; [by apply list_elem_of_In|apply Z.eqb_refl].
  - intros Hc. apply not_true_iff_false. intros (x & Hx & ->%Z.eqb_eq)%existsb_exists.
    apply Hc. by apply list_elem_of_In.
Qed.

Lemma replace_gone a b s : a <> b -> a ∉ replace a b s.
Proof.
  intros Hn (x & Hx & _)%list_elem_of_fmap. destruct (Z.eqb_spec x a); congruence.
Qed.

Lemma replace_id a b s : a ∉ s -> replace a b s = s.
Proof.
  induction s as [|x s IH]; [done|]. intros [Hx Hs]%not_elem_of_cons.
  change (replace a b (x :: s)) with ((if x =? a then b else x) :: replace a b s). rewrite IH by done. destruct (Z.eqb_spec x a); congruence.
Qed.

Lemma contains_replace a b s : b <> 0 -> contains 0 s = false -> contains 0 (replace a b s) = false.
Proof.
  rewrite !contains_not_in. intros Hb Hs (x & Hx & Hin)%list_elem_of_fmap.
  destruct (Z.eqb_spec x a); congruence.
Qed.

Lemma trim_end_elem c x s : x ∈ trim_end_matches c s -> x ∈ s.
Proof.
  destruct (trim_end_spec c s) as [[n Hn] _]. intros Hx. rewrite Hn. apply elem_of_app. by left.
Qed.

(** ** Properties of app ids *)

(** An app id as the settings keep it: absolute or a package name, without the separators
    that cannot change which app it names. *)
Definition normal (flavor : AppIdFlavor) (id : AppId) : Prop :=
  contains 0 id = false /\ id <> [] /\
  match flavor with
  | Unix => starts_with (lit "/") id = true /\ last id <> Some SLASH
  | Windows => SLASH ∉ id /\ last id <> Some BACKSLASH /\
      (has_drive id = true \/ starts_with (lit "\\") id = true)
  | Android => forallb valid_segment (split 46 id) = true /\ contains 46 id = true
  end.

Lemma parse_normal flavor id : normal flavor id -> parse_as flavor id = Ok id.
Proof.
  intros (H0 & Hne & Hf). unfold parse_as. rewrite H0. destruct flavor.
  - destruct Hf as [Hs Hl]. rewrite (trim_end_fixed _ _ Hl). rewrite bool_decide_eq_false_2 by done.
    by rewrite Hs.
  - destruct Hf as (Hs & Hl & Hd). rewrite (replace_id _ _ _ Hs). rewrite (trim_end_fixed _ _ Hl).
    rewrite bool_decide_eq_false_2 by done. by destruct Hd as [-> | ->]; rewrite ?andb_false_r.
  - destruct Hf as [Hv Hc]. rewrite bool_decide_eq_false_2 by done. by rewrite Hv, Hc.
Qed.

(** What [raw] differs by from its id. *)
Definition spelled (flavor : AppIdFlavor) (raw id : str) : Prop :=
  match flavor with
  | Unix => exists n, raw = id ++ replicate n SLASH
  | Windows => exists n, replace SLASH BACKSLASH raw = id ++ replicate n BACKSLASH
  | Android => raw = id
  end.

Lemma parse_ok flavor raw id :
  parse_as flavor raw = Ok id -> normal flavor id /\ spelled flavor raw id.
Proof.
  unfold parse_as. destruct (contains 0 raw) eqn:H0; [done|]. destruct flavor.
  - case_bool_decide as Hne; [done|].
    destruct (starts_with _ _) eqn:Hs; simpl; [intros [= <-]|done].
    destruct (trim_end_spec SLASH raw) as [Hn Hl].
    split; [|done]. split; [by apply contains_trim|]. done.
  - case_bool_decide as Hne; [done|]. set (path := replace SLASH BACKSLASH raw) in *.
    destruct (negb (has_drive _) && negb (starts_with _ _)) eqn:Hd; [done|intros [= <-]].
    destruct (trim_end_spec BACKSLASH path) as [Hn Hl].
    split; [|done]. split; [by apply contains_trim, contains_replace|].
    split; [done|]. split; [|split; [done|]].
    + intros Hin%trim_end_elem. by apply replace_gone in Hin.
    + apply andb_false_iff in Hd as [?%negb_false_iff|?%negb_false_iff]; auto.
  - case_bool_decide as Hne; [done|].
    destruct (negb (forallb _ _) || _) eqn:Hv; [done|intros [= <-]].
    apply orb_false_iff in Hv as [Hv%negb_false_iff Hc%negb_false_iff]. done.
Qed.

Lemma parse_no_panic flavor raw : parse_as flavor raw <> Panic.
Proof. unfold parse_as. destruct flavor; repeat case_match; done. Qed.

(** An app id is read back as it was saved. Input a client sends is refused or becomes an id in
    the platform's normal form, which differs from the input only by the separators that name no
    other app; that id parses to itself, so a removal finds it whatever trailing separator it is
    typed with. Reading settings back never loses an entry: what does not parse is kept as it is,
    and reading twice is reading once. *)
Theorem app_id_read_back (flavor : AppIdFlavor) (raw : str) :
  lenient_as flavor (lenient_as flavor raw) = lenient_as flavor raw /\
  match parse_as flavor raw with
  | Ok id =>
      lenient_as flavor raw = id /\ parse_as flavor id = Ok id /\
      normal flavor id /\ spelled flavor raw id
  | Err e => lenient_as flavor raw = raw /\ ~ normal flavor raw
  | Panic => False
  end /\
  (forall n, parse_as Unix (raw ++ replicate n SLASH) = parse_as Unix raw) /\
  (forall n, parse_as Windows (raw ++ replicate n BACKSLASH) = parse_as Windows raw).
Proof.
  split; [|split; [|split]].
  - unfold lenient_as at 2 3. destruct (parse_as flavor raw) as [id| |] eqn:E.
    + apply parse_ok in E as [Hn%parse_normal _]. unfold lenient_as. by rewrite Hn.
    + unfold lenient_as. by rewrite E.
    + by apply parse_no_panic in E.
  - unfold lenient_as. destruct (parse_as flavor raw) as [id| |] eqn:E.
    + apply parse_ok in E as [Hn Hs]. split; [done|]. split; [by apply parse_normal|done].
    + split; [done|]. intros Hn%parse_normal. congruence.
    + by apply parse_no_panic in E.
  - intros n. unfold parse_as. rewrite contains_app, contains_replicate, orb_false_r by done.
    by rewrite trim_end_replicate.
  - intros n. unfold parse_as. rewrite contains_app, contains_replicate, orb_false_r by done.
    unfold replace. rewrite fmap_app, fmap_replicate. by rewrite trim_end_replicate.
Qed.

(** ** Properties of exit choices *)

Lemma lower_idemp b : to_ascii_lower (to_ascii_lower b) = to_ascii_lower b.
Proof. unfold to_ascii_lower. repeat case_match; zbool; lia. Qed.

Lemma lowercase_idemp s : to_ascii_lowercase (to_ascii_lowercase s) = to_ascii_lowercase s.
Proof. unfold to_ascii_lowercase. rewrite <- list_fmap_compose. apply list_fmap_ext. intros. apply lower_idemp. Qed.

Lemma forallb_lowercase (p : Z -> bool) s :
  (forall b, p (to_ascii_lower b) = p b) -> forallb p (to_ascii_lowercase s) = forallb p s.
Proof. intros Hp. induction s as [|b s IH]; simpl; [done|]. by rewrite Hp, IH. Qed.

Lemma zlen_lowercase s : zlen (to_ascii_lowercase s) = zlen s.
Proof. unfold zlen, to_ascii_lowercase. by rewrite length_fmap. Qed.

Lemma alphabetic_lower b : is_ascii_alphabetic (to_ascii_lower b) = is_ascii_alphabetic b.
Proof.
  unfold is_ascii_alphabetic, to_ascii_lower. destruct ((65 <=? b) && (b <=? 90)) eqn:E; [|by rewrite E].
  zbool. destruct E. simpl. destruct (Z.leb_spec 65 (b + 32)), (Z.leb_spec (b + 32) 90),
    (Z.leb_spec 97 (b + 32)), (Z.leb_spec (b + 32) 122); simpl; zbool; lia || done.
Qed.

Lemma city_char_lower b :
  is_ascii_alphanumeric (to_ascii_lower b) || (to_ascii_lower b =? 45) = is_ascii_alphanumeric b || (b =? 45).
Proof.
  unfold is_ascii_alphanumeric. rewrite alphabetic_lower.
  destruct (is_ascii_alphabetic b) eqn:E; [done|]. unfold to_ascii_lower.
  unfold is_ascii_alphabetic in E. by destruct ((65 <=? b) && (b <=? 90)).
Qed.

Lemma valid_city_lower c : valid_city (to_ascii_lowercase c) = valid_city c.
Proof. unfold valid_city. rewrite zlen_lowercase. by rewrite (forallb_lowercase _ _ city_char_lower). Qed.

Lemma exit_choice_new_lower c city :
  exit_choice_new (to_ascii_lowercase c) (to_ascii_lowercase <$> city) = exit_choice_new c city.
Proof.
  unfold exit_choice_new. rewrite zlen_lowercase, (forallb_lowercase _ _ alphabetic_lower), lowercase_idemp.
  destruct city as [city|]; simpl; [|done]. by rewrite valid_city_lower, lowercase_idemp.
Qed.

(** An exit choice does not depend on the case it is typed in, and what the settings persist
    reads back as the same choice. A choice is refused exactly when its country is not two ASCII
    letters or its city is not 1 to 16 ASCII letters, digits and dashes. *)
Theorem exit_choice_round_trip (c : str) (o : option str) :
  exit_choice_new (to_ascii_lowercase c) (to_ascii_lowercase <$> o) = exit_choice_new c o /\
  match exit_choice_new c o with
  | Ok choice =>
      exit_choice_new (country choice) (city choice) = Ok choice /\
      country choice = to_ascii_lowercase c /\ city choice = to_ascii_lowercase <$> o
  | Err InvalidCountry => zlen c <> 2 \/ forallb is_ascii_alphabetic c = false
  | Err InvalidCity =>
      zlen c = 2 /\ forallb is_ascii_alphabetic c = true /\ exists city, o = Some city /\ valid_city city = false
  | _ => False
  end.
Proof.
  split; [apply exit_choice_new_lower|].
  destruct (exit_choice_new c o) as [choice|e|] eqn:E.
  - assert (country choice = to_ascii_lowercase c /\ city choice = to_ascii_lowercase <$> o) as [Hc Ho].
    { unfold exit_choice_new in E. repeat case_match; simplify_eq/=; done. }
    split; [|done]. by rewrite Hc, Ho, exit_choice_new_lower.
  - unfold exit_choice_new in E. destruct (zlen c =? 2) eqn:Hl, (forallb is_ascii_alphabetic c) eqn:Ha;
      simpl in E; zbool; simplify_eq; auto.
    destruct o as [o|]; simpl in E; [|done]. destruct (valid_city o) eqn:Hv; simplify_eq/=. eauto.
  - unfold exit_choice_new in E. repeat case_match; simplify_eq/=; done.
Qed.

(** ** Properties of the settings *)

(** Where the settings put an app, by the precedence rules: outside the tunnel, through an exit of
    its own, or in the main connection. *)
Inductive Place : Type := Outside | Through (exit : ExitChoice) | Inside.

Definition place (s : AppRoutingSettings) (app : AppId) : Place :=
  if decide (split_mode s = Exclude /\ app ∈ excluded_apps s /\ app ∉ locked_apps s) then Outside else
  match (if app_exits_enabled s then app_exits s !! app else None) with
  | Some exit => Through exit
  | None =>
      if decide (split_mode s = IncludeOnly /\ app ∉ included_apps s /\ app ∉ locked_apps s)
      then Outside else Inside
  end.

Lemma elem_of_effective_excluded s app :
  app ∈ effective_excluded_apps s <->
  split_mode s = Exclude /\ app ∈ excluded_apps s /\ app ∉ locked_apps s.
Proof.
  unfold effective_excluded_apps, exclusions_active. case_bool_decide as Hm; simpl.
  - rewrite elem_of_filter. tauto.
  - split; [by intros ?%elem_of_empty|tauto].
Qed.

Lemma lookup_effective_exits s app :
  effective_app_exits s !! app =
    if decide (app ∈ effective_excluded_apps s) then None
    else if app_exits_enabled s then app_exits s !! app else None.
Proof.
  unfold effective_app_exits. destruct (app_exits_enabled s); simpl.
  - destruct (decide (app ∈ _)) as [Hin|Hin].
    + apply map_lookup_filter_None. right. intros ? _. simpl. tauto.
    + destruct (app_exits s !! app) as [e|] eqn:E.
      * by apply map_lookup_filter_Some.
      * apply map_lookup_filter_None. by left.
  - rewrite lookup_empty. by destruct (decide _).
Qed.

Lemma place_exit s app exit :
  place s app = Through exit <-> effective_app_exits s !! app = Some exit.
Proof.
  rewrite lookup_effective_exits. unfold place.
  destruct (decide (split_mode s = Exclude /\ _)) as [Hx|Hx], (decide (app ∈ _)) as [Hy|Hy];
    rewrite elem_of_effective_excluded in Hy; try tauto; [done|].
  destruct (if app_exits_enabled s then _ else _); [split; congruence|]. by destruct (decide _).
Qed.

Lemma place_included s app :
  split_mode s = IncludeOnly -> app ∈ effective_included_apps s <-> place s app <> Outside.
Proof.
  intros Hm. unfold effective_included_apps. rewrite bool_decide_eq_true_2 by done. simpl.
  rewrite !elem_of_union, elem_of_dom, lookup_effective_exits. unfold place.
  rewrite (decide_False (P := split_mode s = Exclude /\ _)) by (rewrite Hm; intros [? _]; done).
  rewrite decide_False by (rewrite elem_of_effective_excluded, Hm; intros [? _]; done).
  destruct (if app_exits_enabled s then _ else _); [split; eauto|].
  destruct (decide (split_mode s = IncludeOnly /\ _)) as [(_ & Hi & Hl)|Hn].
  - split; [intros [[?|[? [=]]]|?]; tauto|done].
  - split; [done|]. destruct (decide (app ∈ included_apps s)), (decide (app ∈ locked_apps s)); tauto.
Qed.

Lemma locked_place s app : app ∈ locked_apps s -> place s app <> Outside.
Proof.
  intros Hl. unfold place. destruct (decide _) as [(_ & _ & Hn)|_]; [done|].
  destruct (if app_exits_enabled s then _ else _); [done|]. destruct (decide _) as [(_ & _ & Hn)|_]; done.
Qed.

(** What the settings put in force is what the precedence rules say, for every app and whatever
    the lists hold: the exclusions and the exits are those of [place], and in include mode the
    tunneled apps are exactly the ones not outside; no app is on both lists. A locked app is never
    outside, and locking an app then unlocking it leaves it in the tunnel in exclude mode. *)
Theorem settings_place_apps (s : AppRoutingSettings) (app : AppId) :
  match place s app with
  | Outside => app ∉ dom (effective_app_exits s) /\ app ∉ effective_included_apps s /\
               app ∉ effective_locked_apps s /\
               (app ∈ effective_excluded_apps s \/ split_mode s = IncludeOnly)
  | Through exit => effective_app_exits s !! app = Some exit /\ app ∉ effective_excluded_apps s /\
               (app ∈ effective_included_apps s \/ split_mode s <> IncludeOnly)
  | Inside => app ∉ dom (effective_app_exits s) /\ app ∉ effective_excluded_apps s /\
               (app ∈ effective_included_apps s \/ split_mode s <> IncludeOnly)
  end /\
  (effective_excluded_apps s = ∅ \/ effective_included_apps s = ∅) /\
  app ∈ effective_locked_apps (lock_app s app) /\
  effective_excluded_apps (lock_app s app) = effective_excluded_apps s ∖ {[app]} /\
  effective_excluded_apps (unlock_app (lock_app s app) app) = effective_excluded_apps s ∖ {[app]}.
Proof.
  assert (split_mode s <> IncludeOnly -> effective_included_apps s = ∅) as Hother.
  { intros Hm. unfold effective_included_apps. by rewrite bool_decide_eq_false_2. }
  split; [|split; [|split; [|split]]].
  - pose proof (place_exit s app) as Hx. pose proof (place_included s app) as Hi.
    pose proof (locked_place s app) as Hl. unfold effective_locked_apps.
    assert (app ∈ effective_excluded_apps s -> place s app = Outside) as He.
    { rewrite elem_of_effective_excluded. unfold place. intros. by rewrite decide_True. }
    assert (place s app = Outside -> app ∈ effective_excluded_apps s \/ split_mode s = IncludeOnly) as Ho.
    { rewrite elem_of_effective_excluded. unfold place.
      destruct (decide _) as [Hd|_]; [by left|]. destruct (if app_exits_enabled s then _ else _); [done|].
      destruct (decide _) as [[Hd _]|_]; [by right|done]. }
    assert (app ∈ dom (effective_app_exits s) -> exists e, place s app = Through e) as Hd.
    { intros [e He']%elem_of_dom. exists e. by apply Hx. }
    assert (app ∈ effective_included_apps s -> split_mode s = IncludeOnly) as Hn.
    { intros Hin. destruct (decide (split_mode s = IncludeOnly)) as [|Hm]; [done|].
      rewrite (Hother Hm) in Hin. by apply elem_of_empty in Hin. }
    destruct (decide (split_mode s = IncludeOnly)) as [Hm|Hm]; [specialize (Hi Hm)|];
      destruct (place s app) as [|exit|]; repeat split; try tauto;
      try (intros [e ?]%Hd; done); try (intros ?%He; done); try (by apply Hx); left; by apply Hi.
  - destruct (decide (split_mode s = IncludeOnly)) as [Hm|Hm]; [left|right; by apply Hother].
    unfold effective_excluded_apps, exclusions_active. rewrite bool_decide_eq_false_2; [done|]. by rewrite Hm.
  - unfold effective_locked_apps, lock_app. simpl. set_solver.
  - apply set_eq. intros x. rewrite elem_of_difference, !elem_of_effective_excluded.
    unfold lock_app. simpl. set_solver.
  - apply set_eq. intros x. rewrite elem_of_difference, !elem_of_effective_excluded.
    unfold unlock_app, lock_app. simpl. set_solver.
Qed.

(** ** Properties of the statuses *)

Section Statuses.
Context {S : Type} (state : S -> ExitChoice -> (AppRouteState * option IpAddr) * S).
Implicit Types (x : S) (l : list (ExitChoice * list AppId)).

(** The exits and their apps are the groups given. *)
Lemma statuses_groups x l : (fun st => (st_exit st, st_apps st)) <$> (statuses state x l).1 = l.
Proof.
  revert x. induction l as [|[exit apps] l IH]; intros x; simpl; [done|].
  destruct (state x exit) as [[route_state public_ip] x']. specialize (IH x').
  destruct (statuses state x' l) as [rest x'']. simpl in *. f_equal. exact IH.
Qed.

(** [state], with the exits it is asked about kept. *)
Definition logged (xl : S * list ExitChoice) (exit : ExitChoice)
    : (AppRouteState * option IpAddr) * (S * list ExitChoice) :=
  let '(answer, x) := state xl.1 exit in (answer, (x, xl.2 ++ [exit])).

End Statuses.

Lemma statuses_logged {S : Type} (state : S -> ExitChoice -> (AppRouteState * option IpAddr) * S) x log l :
  statuses (logged state) (x, log) l =
    ((statuses state x l).1, ((statuses state x l).2, log ++ l.*1)).
Proof.
  revert x log. induction l as [|[exit apps] l IH]; intros x log; simpl; [by rewrite app_nil_r|].
  unfold logged at 1. simpl. destruct (state x exit) as [[route_state public_ip] x'] eqn:E.
  rewrite IH. destruct (statuses state x' l) as [rest x'']. simpl. by rewrite <- app_assoc.
Qed.

Definition swap_pair (p : AppId * ExitChoice) : ExitChoice * AppId := let '(app, exit) := p in (exit, app).

Lemma values_of_sorted (R : AppId -> AppId -> Prop) (l : list (AppId * ExitChoice)) exit :
  StronglySorted R l.*1 -> StronglySorted R (values_of exit (swap_pair <$> l)).
Proof.
  unfold values_of. induction l as [|[app e] l IH]; [constructor|].
  intros [Hs Hf]%StronglySorted_inv. cbn [fmap list_fmap]. rewrite filter_cons. simpl. case_decide; [|by apply IH].
  constructor; [by apply IH|]. apply Forall_forall. intros a' Hin.
  apply list_elem_of_fmap in Hin as ([e' a''] & -> & Hin). apply list_elem_of_filter in Hin as [_ Hin].
  apply list_elem_of_fmap in Hin as ([a3 e3] & [= -> ->] & Hin). simpl.
  rewrite Forall_forall in Hf. apply Hf. apply list_elem_of_fmap. by exists (a3, e3).
Qed.

Lemma apps_by_exit_spec s exit apps :
  (exit, apps) ∈ btree_iter (apps_by_exit s) <->
  apps <> [] /\ apps = values_of exit (swap_pair <$> btree_iter (effective_app_exits s)).
Proof. rewrite elem_of_btree_iter. unfold apps_by_exit. apply grouped_Some. Qed.

Lemma elem_of_apps s exit app :
  app ∈ values_of exit (swap_pair <$> btree_iter (effective_app_exits s)) <->
  effective_app_exits s !! app = Some exit.
Proof.
  rewrite elem_of_values_of, <- elem_of_btree_iter, list_elem_of_fmap. split.
  - by intros ([a e] & [= -> ->] & Hin).
  - by exists (app, exit).
Qed.

(** The statuses the user sees are the exits in force, each once, in the order of the exits,
    each with the apps that use it and no other, in their order and at least one; and the
    session of each exit is asked about exactly once, in that order. *)
Theorem route_statuses_partition {S : Type} (s : AppRoutingSettings)
    (state : S -> ExitChoice -> (AppRouteState * option IpAddr) * S) (x : S) :
  let l := (route_statuses s state x).1 in
  StronglySorted ord_lt (st_exit <$> l) /\
  Forall (fun st => st_apps st <> [] /\ StronglySorted ord_lt (st_apps st)) l /\
  (forall app exit, effective_app_exits s !! app = Some exit <->
     exists st, st ∈ l /\ st_exit st = exit /\ app ∈ st_apps st) /\
  route_statuses s (logged state) (x, []) = (l, ((route_statuses s state x).2, st_exit <$> l)).
Proof.
  intros l. assert ((fun st => (st_exit st, st_apps st)) <$> l = btree_iter (apps_by_exit s)) as Hg
    by apply statuses_groups.
  assert (st_exit <$> l = (btree_iter (apps_by_exit s)).*1) as He by by rewrite <- Hg, <- list_fmap_compose.
  assert (forall st, st ∈ l -> (st_exit st, st_apps st) ∈ btree_iter (apps_by_exit s)) as Hin.
  { intros st Hst. rewrite <- Hg. apply list_elem_of_fmap. by exists st. }
  split; [|split; [|split]].
  - rewrite He. apply btree_iter_sorted.
  - apply Forall_forall. intros st [Hne Ha]%Hin%apps_by_exit_spec. split; [done|].
    rewrite Ha. apply values_of_sorted, btree_iter_sorted.
  - intros app exit. rewrite <- elem_of_apps. split.
    + intros Ha. assert ((exit, values_of exit (swap_pair <$> btree_iter (effective_app_exits s)))
                           ∈ btree_iter (apps_by_exit s)) as Hb.
      { apply apps_by_exit_spec. split; [|done]. intros Hn. rewrite Hn in Ha. by apply not_elem_of_nil in Ha. }
      rewrite <- Hg in Hb. apply list_elem_of_fmap in Hb as (st & [= -> Hs] & Hst).
      exists st. by rewrite <- Hs.
    + intros (st & [_ Ha]%Hin%apps_by_exit_spec & <- & Hst). by rewrite <- Ha.
  - unfold route_statuses at 1. rewrite statuses_logged. by rewrite He.
Qed.
