(* ===== verification/Reset.v ===== *)
(** * Resets toward an app (talpid-app-routing/src/reset.rs)

    The numbers a router follows on the app's side of a TCP connection, and
    the packets it builds in the remote end's name: a TCP reset, and an ICMP
    port unreachable for a UDP flow. *)

From S2P Require Import Prelude Net Ip Flow Checksum.
Open Scope Z_scope.

Definition FLAG_FIN : Z := 1.
Definition FLAG_SYN : Z := 2.
Definition FLAG_RST : Z := 4.
Definition FLAG_ACK : Z := 16.

Definition TCP_HEADER : Z := 20.

Record Segment : Type := mkSegment { seg_seq : Z; seg_ack : Z; seg_flags : Z; seg_len : Z }.

Record AppSide : Type := mkAppSide { expects : option Z; next : option Z }.

Definition AppSide_default : AppSide := mkAppSide None None.

#[export] Instance Segment_eq_dec : EqDecision Segment.
Proof. solve_decision. Defined.
#[export] Instance AppSide_eq_dec : EqDecision AppSide.
Proof. solve_decision. Defined.

(** [flags & FLAG != 0] *)
Definition has_flag (flags flag : Z) : bool := negb (Z.land flags flag =? 0).

Definition furthest (current : option Z) (candidate : Z) : Z :=
  match current with
  | Some current =>
      if cast_signed32 (wrap32 (candidate - current)) <=? 0 then current else candidate
  | None => candidate
  end.

Definition follow (side : AppSide) (segment : Segment) : AppSide :=
  if has_flag (seg_flags segment) FLAG_RST then side else
  let side :=
    if has_flag (seg_flags segment) FLAG_ACK
    then mkAppSide (Some (furthest (expects side) (seg_ack segment))) (next side) else side in
  mkAppSide (expects side)
    (Some (furthest (next side) (wrap32 (seg_seq segment + seg_len segment)))).

Definition opened_by (side : AppSide) (segment : Segment) : bool :=
  bool_decide (expects side = None) && has_flag (seg_flags segment) FLAG_SYN
    && bool_decide (next side = Some (wrap32 (seg_seq segment + seg_len segment))).

Definition segment {E : Type} (packet : bytes) : comp E (option Segment) :=
  match locate packet with
  | Panic => Panic
  | Err _ => Ok None
  | Ok layout =>
      if negb (protocol layout =? PROTO_TCP) || negb (has_transport layout) then Ok None else
      match get_slice packet (l4_offset layout) (end_ layout) with
      | None => Ok None
      | Some tcp =>
          match get_slice tcp 0 TCP_HEADER with
          | None => Ok None
          | Some header =>
              h12 ← index header 12;
              let data_offset := Z.shiftr h12 4 * 4 in
              if data_offset <? TCP_HEADER then Ok None else
              let payload := zlen tcp - data_offset in
              if payload <? 0 then Ok None else
              flags ← index header 13;
              let control := Z.b2z (has_flag flags FLAG_SYN) + Z.b2z (has_flag flags FLAG_FIN) in
              h4 ← index header 4; h5 ← index header 5; h6 ← index header 6; h7 ← index header 7;
              h8 ← index header 8; h9 ← index header 9; h10 ← index header 10; h11 ← index header 11;
              if 4294967296 <=? payload then Ok None else
              Ok (Some (mkSegment (u32_be h4 h5 h6 h7) (u32_be h8 h9 h10 h11) flags
                          (wrap32 (payload + control))))
          end
      end
  end.

Definition v6 (addr : IpAddr) : bytes :=
  match addr with V4 o => to_ipv6_mapped o | V6 o => o end.

(** The sum of at most a few dozen words: it does not leave a [u32]. *)
Definition checksum {E : Type} (parts : list bytes) : comp E Z :=
  sum ← fold_carries 3 (foldl (fun sum part => foldl Z.add sum (words part)) 0 parts);
  Ok (65535 - sum mod 65536).

Definition zeros (n : nat) : bytes := replicate n 0.

Definition ipv4_header {E : Type} (src dst : bytes) (protocol payload : Z) : comp E bytes :=
  let header := zeros 20 in
  header ← copy_at header 0 [69];
  header ← copy_at header 2 (be16 (20 + payload));
  header ← copy_at header 6 [64];
  header ← copy_at header 8 [64];
  header ← copy_at header 9 [protocol];
  header ← copy_at header 12 src;
  header ← copy_at header 16 dst;
  sum ← checksum [header];
  copy_at header 10 (be16 sum).

Definition ipv6_header {E : Type} (src dst : bytes) (next_header payload : Z) : comp E bytes :=
  let header := zeros 40 in
  header ← copy_at header 0 [96];
  header ← copy_at header 4 (be16 payload);
  header ← copy_at header 6 [next_header];
  header ← copy_at header 7 [64];
  header ← copy_at header 8 src;
  copy_at header 24 dst.

Definition build {E : Type} (flow : FlowKey) (seq : Z) (ack : option Z) : comp E bytes :=
  let tcp := zeros 20 in
  tcp ← copy_at tcp 0 (be16 (port (remote flow)));
  tcp ← copy_at tcp 2 (be16 (port (local flow)));
  tcp ← copy_at tcp 4 (be32 seq);
  tcp ← copy_at tcp 8 (be32 (default 0 ack));
  tcp ← copy_at tcp 12 [80];
  tcp ← copy_at tcp 13 [Z.lor FLAG_RST (match ack with Some _ => FLAG_ACK | None => 0 end)];
  match ip (remote flow), ip (local flow) with
  | V4 src, V4 dst =>
      sum ← checksum [src; dst; [0; PROTO_TCP]; be16 TCP_HEADER; tcp];
      tcp ← copy_at tcp 16 (be16 sum);
      packet ← ipv4_header src dst PROTO_TCP TCP_HEADER;
      Ok (packet ++ tcp)
  | src, dst =>
      let src := v6 src in let dst := v6 dst in
      sum ← checksum [src; dst; be32 TCP_HEADER; [0; 0; 0; PROTO_TCP]; tcp];
      tcp ← copy_at tcp 16 (be16 sum);
      packet ← ipv6_header src dst PROTO_TCP TCP_HEADER;
      Ok (packet ++ tcp)
  end.

Definition toward_app {E : Type} (flow : FlowKey) (side : AppSide) : comp E (option bytes) :=
  if negb (bool_decide (transport flow = Tcp)) then Ok None else
  match expects side, next side with
  | Some expects, next => packet ← build flow expects next; Ok (Some packet)
  | None, Some next => packet ← build flow 0 (Some next); Ok (Some packet)
  | None, None => Ok None
  end.

Definition answer {E : Type} (flow : FlowKey) (segment : Segment) : comp E (option bytes) :=
  if negb (bool_decide (transport flow = Tcp)) || has_flag (seg_flags segment) FLAG_RST then Ok None else
  packet ← (if has_flag (seg_flags segment) FLAG_ACK
            then build flow (seg_ack segment) None
            else build flow 0 (Some (wrap32 (seg_seq segment + seg_len segment))));
  Ok (Some packet).

Definition unreachable_toward_app {E : Type} (flow : FlowKey) : comp E (option bytes) :=
  if negb (bool_decide (transport flow = Udp)) then Ok None else
  let udp := zeros 8 in
  udp ← copy_at udp 0 (be16 (port (local flow)));
  udp ← copy_at udp 2 (be16 (port (remote flow)));
  udp ← copy_at udp 4 (be16 8);
  match ip (local flow), ip (remote flow) with
  | V4 local, V4 remote =>
      header ← ipv4_header local remote PROTO_UDP (zlen udp);
      let quoted := header ++ udp in
      let icmp := [3; 3; 0; 0; 0; 0; 0; 0] ++ quoted in
      sum ← checksum [icmp];
      icmp ← copy_at icmp 2 (be16 sum);
      packet ← ipv4_header remote local PROTO_ICMP (zlen icmp);
      Ok (Some (packet ++ icmp))
  | local, remote =>
      let local := v6 local in let remote := v6 remote in
      header ← ipv6_header local remote PROTO_UDP (zlen udp);
      let quoted := header ++ udp in
      let icmp := [1; 4; 0; 0; 0; 0; 0; 0] ++ quoted in
      sum ← checksum [remote; local; be32 (zlen icmp); [0; 0; 0; PROTO_ICMPV6]; icmp];
      icmp ← copy_at icmp 2 (be16 sum);
      packet ← ipv6_header remote local PROTO_ICMPV6 (zlen icmp);
      Ok (Some (packet ++ icmp))
  end.

(** ** The receiver's view of a checksum *)

(** What covers the checksum folds to all ones (RFC 1071). *)
Definition verifies (sum : Z) : bool :=
  match @fold_carries Empty_set 3 sum with Ok r => r =? 65535 | _ => false end.

(** The checksums a receiver of [p] checks: the IPv4 header's, and the transport's with its
    pseudo header (which ICMP over IPv4 has not). *)
Definition checksums_verify (p : bytes) (l : Layout) : bool :=
  (bool_decide (family l = FamilyV6) || verifies (wsum (sub p 0 (l4_offset l))))
  && verifies ((if protocol l =? PROTO_ICMP then 0
                else wsum (octets (src_of l p)) + wsum (octets (dst_of l p)) + protocol l
                     + (end_ l - l4_offset l))
               + wsum (sub p (l4_offset l) (end_ l))).

Lemma verifies_intro s : 0 < s < 4294967296 -> s ≡₁ 0 -> verifies s = true.
Proof.
  intros Hs [k Hk]. unfold verifies.
  destruct (@fold_carries_ok Empty_set s) as (r & -> & Hr & [j Hj] & Hp); [unfold is_u32; lia|].
  unfold is_u16 in Hr. specialize (Hp ltac:(lia)). apply Z.eqb_eq. lia.
Qed.

Lemma checksums_verify_v4 p l header :
  family l = FamilyV4 -> sub p 0 (l4_offset l) = header -> verifies (wsum header) = true ->
  verifies ((if protocol l =? PROTO_ICMP then 0
             else wsum (octets (src_of l p)) + wsum (octets (dst_of l p)) + protocol l
                  + (end_ l - l4_offset l))
            + wsum (sub p (l4_offset l) (end_ l))) = true ->
  checksums_verify p l = true.
Proof.
  intros Hf <- Hh Ht. unfold checksums_verify. rewrite Ht, Hh. by destruct (bool_decide _).
Qed.

Lemma checksums_verify_v6 p l :
  family l = FamilyV6 -> protocol l <> PROTO_ICMP ->
  verifies (wsum (octets (src_of l p)) + wsum (octets (dst_of l p)) + protocol l
            + (end_ l - l4_offset l) + wsum (sub p (l4_offset l) (end_ l))) = true ->
  checksums_verify p l = true.
Proof.
  intros Hf Hp Ht. unfold checksums_verify. rewrite bool_decide_eq_true_2 by done.
  destruct (Z.eqb_spec (protocol l) PROTO_ICMP); [done|]. by rewrite Ht.
Qed.

Lemma foldl_add l s : foldl Z.add s l = s + foldr Z.add 0 l.
Proof. revert s. induction l as [|x l IH]; intros s; simpl; [lia|]. rewrite IH. lia. Qed.

Definition parts_sum (parts : list bytes) : Z := foldr Z.add 0 (wsum <$> parts).

Lemma checksum_sum parts s :
  Forall (fun part => zlen part mod 2 = 0) parts ->
  foldl (fun sum part => foldl Z.add sum (words part)) s parts = s + parts_sum parts.
Proof.
  unfold parts_sum. intros H. revert s. induction H as [|part parts Hp _ IH]; intros s;
    cbn [fmap list_fmap foldr foldl]; [lia|].
  rewrite IH, foldl_add. cbn [fmap list_fmap]. destruct (words_sum part Hp) as [-> _]. lia.
Qed.

(** The checksum of parts of an even length completes their sum. *)
Lemma checksum_ok {E : Type} parts :
  Forall (fun part => zlen part mod 2 = 0) parts -> 0 < parts_sum parts < 4294967296 ->
  exists c, @checksum E parts = Ok c /\ is_u16 c /\ c + parts_sum parts ≡₁ 0.
Proof.
  intros He Hs. unfold checksum. rewrite checksum_sum by done. rewrite Z.add_0_l.
  destruct (@fold_carries_ok E (parts_sum parts)) as (r & -> & Hr & [j Hj] & Hp); [unfold is_u32; lia|].
  unfold is_u16 in *. specialize (Hp ltac:(lia)). eexists. split; [done|].
  rewrite Z.mod_small by lia. split; [unfold is_u16; lia|]. exists (1 - j). lia.
Qed.

(** ** The headers *)

(** Runs the writes into a buffer whose bytes are known or are variables. *)
Ltac run_writes :=
  repeat match goal with
  | |- context [@copy_at ?E ?l ?a ?new] =>
      let r := eval vm_compute in (@copy_at E l a new) in
      replace (@copy_at E l a new) with r by (vm_compute; reflexivity); rewrite ?bind_Ok
  end.

Lemma four_bytes (o : bytes) : zlen o = 4 -> exists a b c d, o = [a; b; c; d].
Proof. destruct o as [|a [|b [|c [|d [|]]]]]; unfold zlen; simpl; intros; try lia. eauto. Qed.

Lemma sixteen_bytes (o : bytes) :
  zlen o = 16 -> exists a b c d e f g h i j k l m n p q,
    o = [a; b; c; d; e; f; g; h; i; j; k; l; m; n; p; q].
Proof.
  do 16 (destruct o as [|? o]; [unfold zlen; simpl; intros; lia|]).
  destruct o; [eauto 20|unfold zlen; simpl; intros; lia].
Qed.

Lemma be16_pair v : exists hi lo, be16 v = [hi; lo] /\ (is_u16 v -> u16_be hi lo = v) /\ is_byte hi /\ is_byte lo.
Proof.
  exists (v / 256 mod 256), (v mod 256). split; [done|]. split; [apply u16_be_be16|].
  split; by apply Z.mod_pos_bound.
Qed.

Lemma be32_quad v : exists a b c d,
  be32 v = [a; b; c; d] /\ (is_u32 v -> u32_be a b c d = v) /\ is_byte a /\ is_byte b /\ is_byte c /\ is_byte d.
Proof.
  exists (v / 16777216 mod 256), (v / 65536 mod 256), (v / 256 mod 256), (v mod 256).
  split; [done|]. split; [apply u32_be_be32|]. split_and!; by apply Z.mod_pos_bound.
Qed.

(** The bytes of a buffer as hypotheses arithmetic can use. *)
Ltac byte_facts :=
  unfold bytes_ok in *;
  repeat match goal with
  | H : Forall is_byte (_ :: _) |- _ => apply Forall_cons in H as [? H]
  | H : Forall is_byte [] |- _ => clear H
  end; unfold is_byte, is_u16, is_u32 in *.

Lemma ipv4_header_spec {E : Type} src dst protocol payload :
  bytes_ok src -> zlen src = 4 -> bytes_ok dst -> zlen dst = 4 ->
  is_byte protocol -> 0 <= payload < 65000 ->
  exists c, @ipv4_header E src dst protocol payload =
      Ok ([69; 0] ++ be16 (20 + payload) ++ [0; 0; 64; 0; 64; protocol] ++ be16 c ++ src ++ dst)
    /\ is_u16 c
    /\ verifies (wsum ([69; 0] ++ be16 (20 + payload) ++ [0; 0; 64; 0; 64; protocol] ++ be16 c ++ src ++ dst)) = true.
Proof.
  intros Hs (s0 & s1 & s2 & s3 & ->)%four_bytes Hd (d0 & d1 & d2 & d3 & ->)%four_bytes Hp Hpl.
  unfold ipv4_header.
  destruct (be16_pair (20 + payload)) as (t0 & t1 & -> & Ht & ? & ?). specialize (Ht ltac:(unfold is_u16; lia)).
  unfold zeros. run_writes.
  match goal with |- context [@checksum E ?parts] => destruct (@checksum_ok E parts) as (c & -> & Hc & Hsum) end.
  { by repeat constructor. }
  { unfold parts_sum. cbn [fmap list_fmap foldr wsum]. unfold u16_be in *. byte_facts. lia. }
  exists c. cbn [mbind comp_bind]. destruct (be16_pair c) as (c0 & c1 & -> & Hcc & ? & ?).
  specialize (Hcc Hc). run_writes. split; [done|]. split; [done|].
  apply verifies_intro; cbn [app wsum]; unfold u16_be in *; byte_facts; [lia|].
  destruct Hsum as [k Hk]. unfold parts_sum in Hk. cbn [fmap list_fmap foldr wsum] in Hk. unfold u16_be in Hk.
  exists k. lia.
Qed.

Lemma ipv6_header_spec {E : Type} src dst next_header payload :
  zlen src = 16 -> zlen dst = 16 ->
  @ipv6_header E src dst next_header payload =
    Ok ([96; 0; 0; 0] ++ be16 payload ++ [next_header; 64] ++ src ++ dst).
Proof.
  intros Hs Hd.
  apply sixteen_bytes in Hs as (?&?&?&?&?&?&?&?&?&?&?&?&?&?&?&?&->).
  apply sixteen_bytes in Hd as (?&?&?&?&?&?&?&?&?&?&?&?&?&?&?&?&->).
  unfold ipv6_header. destruct (be16_pair payload) as (t0 & t1 & -> & _).
  unfold zeros. by run_writes.
Qed.

(** ** The packets built *)

(** Opens the ends of a well-formed flow. *)
Lemma flow_wf_v4 (flow : FlowKey) l r :
  flow_wf flow -> ip (local flow) = V4 l -> ip (remote flow) = V4 r ->
  bytes_ok l /\ zlen l = 4 /\ bytes_ok r /\ zlen r = 4.
Proof. intros (Hl & Hr & _) El Er. rewrite El in Hl. rewrite Er in Hr. destruct Hl, Hr. by simpl in *. Qed.

Lemma flow_wf_v6 (flow : FlowKey) l r :
  flow_wf flow -> ip (local flow) = V6 l -> ip (remote flow) = V6 r ->
  bytes_ok l /\ zlen l = 16 /\ bytes_ok r /\ zlen r = 16.
Proof. intros (Hl & Hr & _) El Er. rewrite El in Hl. rewrite Er in Hr. destruct Hl, Hr. by simpl in *. Qed.

(** What the packets built for [flow] have in common: the app's side classifies them as
    coming back on the flow, and their checksums verify. *)
Record built (flow : FlowKey) (p : bytes) (c : Classified) (l : Layout) : Prop := {
  bu_bytes : bytes_ok p;
  bu_locate : locate p = Ok l;
  bu_classify : classify p Downlink = Ok c;
  bu_verify : checksums_verify p l = true
}.

Definition reset_flags (ack : option Z) : Z :=
  Z.lor FLAG_RST (match ack with Some _ => FLAG_ACK | None => 0 end).

Definition tcp_layout (flow : FlowKey) : Layout :=
  match ip (local flow) with
  | V4 _ => mkLayout FamilyV4 PROTO_TCP 20 40 None
  | V6 _ => mkLayout FamilyV6 PROTO_TCP 40 60 None
  end.

Definition unreachable_layout (flow : FlowKey) : Layout :=
  match ip (local flow) with
  | V4 _ => mkLayout FamilyV4 PROTO_ICMP 20 56 None
  | V6 _ => mkLayout FamilyV6 PROTO_ICMPV6 40 96 None
  end.

(** Names the two bytes of the checksum computed over [parts]. *)
Ltac take_checksum :=
  match goal with
  | |- context [@checksum ?E ?parts] =>
      let c := fresh "c" in let Hc := fresh "Hc" in let Hsum := fresh "Hsum" in
      let c0 := fresh "c" in let c1 := fresh "c" in let Hcc := fresh "Hcc" in
      destruct (@checksum_ok E parts) as (c & -> & Hc & Hsum);
      [by repeat constructor
      |unfold parts_sum; cbn [fmap list_fmap foldr wsum]; unfold u16_be in *; byte_facts; lia
      |];
      rewrite bind_Ok; destruct (be16_pair c) as (c0 & c1 & -> & Hcc & ? & ?);
      specialize (Hcc Hc)
  end.

(** The bytes of an explicit buffer are bytes. *)
Ltac buffer_ok :=
  byte_facts; repeat (apply Forall_cons; split; [unfold is_byte; lia|]); by apply Forall_nil.

(** The checksum [Hsum] was computed for completes the sum of the goal. *)
Ltac sum_up Hsum :=
  unfold src_of, dst_of, src_range, dst_range;
  cbn [tcp_layout unreachable_layout local ip family protocol l4_offset end_ addr_of octets fst snd];
  repeat match goal with
  | |- context [sub ?l ?a ?b] =>
      let r := eval vm_compute in (sub l a b) in
      replace (sub l a b) with r by (vm_compute; reflexivity)
  end;
  cbn [wsum]; destruct Hsum as [k Hk]; unfold parts_sum in Hk;
  cbn [fmap list_fmap foldr wsum app] in Hk;
  apply verifies_intro; [|exists k]; unfold u16_be in *; byte_facts; unfold PROTO_TCP, PROTO_ICMP, PROTO_ICMPV6 in *;
    cbn [Z.eqb Pos.eqb]; lia.

Lemma build_v4 {E : Type} flow l r seq ack :
  flow_wf flow -> transport flow = Tcp -> ip (local flow) = V4 l -> ip (remote flow) = V4 r ->
  is_u32 seq -> is_u32 (default 0 ack) ->
  exists p, @build E flow seq ack = Ok p /\
    built flow p (Flow flow (reset_flags ack) None) (tcp_layout flow) /\
    @segment E p = Ok (Some (mkSegment seq (default 0 ack) (reset_flags ack) 0)).
Proof.
  intros Hwf Htcp El Er Hseq Hack. destruct (flow_wf_v4 _ _ _ Hwf El Er) as (Hlb & Hl & Hrb & Hr).
  destruct flow as [t [la lp] [ra rp]]; cbn [transport local remote ip port] in *. subst t la ra.
  destruct Hwf as (_ & _ & Hlp & Hrp & _); cbn [local remote ip port] in *.
  unfold build; cbn [transport local remote ip port].
  destruct (be16_pair lp) as (lp0 & lp1 & -> & Elp & ? & ?). specialize (Elp Hlp).
  destruct (be16_pair rp) as (rp0 & rp1 & -> & Erp & ? & ?). specialize (Erp Hrp).
  destruct (be32_quad seq) as (q0 & q1 & q2 & q3 & -> & Eq & ? & ? & ? & ?). specialize (Eq Hseq).
  destruct (be32_quad (default 0 ack)) as (a0 & a1 & a2 & a3 & -> & Ea & ? & ? & ? & ?). specialize (Ea Hack).
  destruct (@ipv4_header_spec E r l PROTO_TCP TCP_HEADER) as (h & -> & Hh & Hhv);
    [done..|unfold PROTO_TCP, is_byte; lia|unfold TCP_HEADER; lia|].
  fold (reset_flags ack). assert (reset_flags ack = 4 \/ reset_flags ack = 20) as Hf by (destruct ack; auto).
  revert Hf. generalize (reset_flags ack) as flags. intros flags Hf.
  apply four_bytes in Hl as (l0 & l1 & l2 & l3 & ->). apply four_bytes in Hr as (r0 & r1 & r2 & r3 & ->).
  change (be16 TCP_HEADER) with [0; 20]. change (be16 (20 + TCP_HEADER)) with [0; 40] in *.
  change (PROTO_TCP) with 6 in *. change (zeros 20) with [0;0;0;0;0;0;0;0;0;0;0;0;0;0;0;0;0;0;0;0]. run_writes.
  take_checksum. run_writes. destruct (be16_pair h) as (h0 & h1 & Eh & _ & ? & ?). rewrite Eh in *.
  cbn [app] in *. eexists. split; [done|]. split; [split|].
  - buffer_ok.
  - vm_compute. reflexivity.
  - rewrite <- Elp, <- Erp. destruct Hf as [-> | ->]; vm_compute; reflexivity.
  - eapply checksums_verify_v4; [done|vm_compute; reflexivity|exact Hhv|]. sum_up Hsum.
  - rewrite <- Eq, <- Ea. destruct Hf as [-> | ->]; vm_compute; reflexivity.
Qed.

Lemma build_v6 {E : Type} flow l r seq ack :
  flow_wf flow -> transport flow = Tcp -> ip (local flow) = V6 l -> ip (remote flow) = V6 r ->
  is_u32 seq -> is_u32 (default 0 ack) ->
  exists p, @build E flow seq ack = Ok p /\
    built flow p (Flow flow (reset_flags ack) None) (tcp_layout flow) /\
    @segment E p = Ok (Some (mkSegment seq (default 0 ack) (reset_flags ack) 0)).
Proof.
  intros Hwf Htcp El Er Hseq Hack. destruct (flow_wf_v6 _ _ _ Hwf El Er) as (Hlb & Hl & Hrb & Hr).
  destruct flow as [t [la lp] [ra rp]]; cbn [transport local remote ip port] in *. subst t la ra.
  destruct Hwf as (_ & _ & Hlp & Hrp & _); cbn [local remote ip port] in *.
  unfold build; cbn [transport local remote ip port v6].
  destruct (be16_pair lp) as (lp0 & lp1 & -> & Elp & ? & ?). specialize (Elp Hlp).
  destruct (be16_pair rp) as (rp0 & rp1 & -> & Erp & ? & ?). specialize (Erp Hrp).
  destruct (be32_quad seq) as (q0 & q1 & q2 & q3 & -> & Eq & ? & ? & ? & ?). specialize (Eq Hseq).
  destruct (be32_quad (default 0 ack)) as (a0 & a1 & a2 & a3 & -> & Ea & ? & ? & ? & ?). specialize (Ea Hack).
  rewrite ipv6_header_spec by done.
  fold (reset_flags ack). assert (reset_flags ack = 4 \/ reset_flags ack = 20) as Hf by (destruct ack; auto).
  revert Hf. generalize (reset_flags ack) as flags. intros flags Hf.
  apply sixteen_bytes in Hl as (l0&l1&l2&l3&l4&l5&l6&l7&l8&l9&l10&l11&l12&l13&l14&l15&->).
  apply sixteen_bytes in Hr as (r0&r1&r2&r3&r4&r5&r6&r7&r8&r9&r10&r11&r12&r13&r14&r15&->).
  change (be32 TCP_HEADER) with [0; 0; 0; 20]. change (be16 TCP_HEADER) with [0; 20].
  change PROTO_TCP with 6 in *. change (zeros 20) with [0;0;0;0;0;0;0;0;0;0;0;0;0;0;0;0;0;0;0;0]. run_writes.
  take_checksum. run_writes. cbn [app] in *. eexists. split; [done|]. split; [split|].
  - buffer_ok.
  - vm_compute. reflexivity.
  - rewrite <- Elp, <- Erp. destruct Hf as [-> | ->]; vm_compute; reflexivity.
  - apply checksums_verify_v6; [done|done|]. sum_up Hsum.
  - rewrite <- Eq, <- Ea. destruct Hf as [-> | ->]; vm_compute; reflexivity.
Qed.

Lemma build_spec {E : Type} flow seq ack :
  flow_wf flow -> transport flow = Tcp -> is_u32 seq -> is_u32 (default 0 ack) ->
  exists p, @build E flow seq ack = Ok p /\
    built flow p (Flow flow (reset_flags ack) None) (tcp_layout flow) /\
    @segment E p = Ok (Some (mkSegment seq (default 0 ack) (reset_flags ack) 0)).
Proof.
  intros Hwf Ht Hs Ha. pose proof Hwf as (_ & _ & _ & _ & Hf).
  destruct (ip (local flow)) eqn:El, (ip (remote flow)) eqn:Er; try done.
  - by eapply build_v4.
  - by eapply build_v6.
Qed.

Lemma unreachable_spec {E : Type} flow :
  flow_wf flow -> transport flow = Udp ->
  exists p, @unreachable_toward_app E flow = Ok (Some p) /\
    built flow p (IcmpError flow) (unreachable_layout flow).
Proof.
  intros Hwf Hudp. pose proof Hwf as (_ & _ & _ & _ & Hf).
  destruct (ip (local flow)) as [l|l] eqn:El, (ip (remote flow)) as [r|r] eqn:Er; try done.
  - destruct (flow_wf_v4 _ _ _ Hwf El Er) as (Hlb & Hl & Hrb & Hr).
    destruct flow as [t [la lp] [ra rp]]; cbn [transport local remote ip port] in *. subst t la ra.
    destruct Hwf as (_ & _ & Hlp & Hrp & _); cbn [local remote ip port] in *.
    unfold unreachable_toward_app; cbn [transport local remote ip port].
    rewrite bool_decide_eq_true_2 by done. cbn [negb].
    destruct (be16_pair lp) as (lp0 & lp1 & -> & Elp & ? & ?). specialize (Elp Hlp).
    destruct (be16_pair rp) as (rp0 & rp1 & -> & Erp & ? & ?). specialize (Erp Hrp).
    change (zeros 8) with [0;0;0;0;0;0;0;0]. change (be16 8) with [0; 8]. run_writes.
    match goal with |- context [@ipv4_header E l r ?p ?n] =>
      destruct (@ipv4_header_spec E l r p n) as (h & -> & Hh & _);
        [done..|vm_compute; done|vm_compute; done|] end.
    rewrite bind_Ok. destruct (be16_pair h) as (h0 & h1 & -> & _ & ? & ?).
    apply four_bytes in Hl as (l0 & l1 & l2 & l3 & ->). apply four_bytes in Hr as (r0 & r1 & r2 & r3 & ->).
    match goal with |- context [be16 (20 + ?n)] => change (be16 (20 + n)) with [0; 28] end.
    change PROTO_UDP with 17. cbn [app]. take_checksum. run_writes.
    match goal with |- context [@ipv4_header E ?s ?d ?p ?n] =>
      destruct (@ipv4_header_spec E s d p n) as (g & -> & Hg & Hgv);
        [done..|vm_compute; done|vm_compute; done|] end.
    match goal with |- context [be16 (20 + ?n)] => change (be16 (20 + n)) with [0; 56] in * end.
    destruct (be16_pair g) as (g0 & g1 & Eg & _ & ? & ?). rewrite Eg in *.
    rewrite bind_Ok. cbn [app] in *. change PROTO_ICMP with 1 in *. eexists. split; [done|]. split.
    + buffer_ok.
    + vm_compute. reflexivity.
    + rewrite <- Elp, <- Erp. vm_compute. reflexivity.
    + eapply checksums_verify_v4; [done|vm_compute; reflexivity|exact Hgv|]. sum_up Hsum.
  - destruct (flow_wf_v6 _ _ _ Hwf El Er) as (Hlb & Hl & Hrb & Hr).
    destruct flow as [t [la lp] [ra rp]]; cbn [transport local remote ip port] in *. subst t la ra.
    destruct Hwf as (_ & _ & Hlp & Hrp & _); cbn [local remote ip port] in *.
    unfold unreachable_toward_app; cbn [transport local remote ip port v6].
    rewrite bool_decide_eq_true_2 by done. cbn [negb].
    destruct (be16_pair lp) as (lp0 & lp1 & -> & Elp & ? & ?). specialize (Elp Hlp).
    destruct (be16_pair rp) as (rp0 & rp1 & -> & Erp & ? & ?). specialize (Erp Hrp).
    change (zeros 8) with [0;0;0;0;0;0;0;0]. change (be16 8) with [0; 8]. run_writes.
    rewrite ipv6_header_spec by done. rewrite bind_Ok.
    apply sixteen_bytes in Hl as (l0&l1&l2&l3&l4&l5&l6&l7&l8&l9&l10&l11&l12&l13&l14&l15&->).
    apply sixteen_bytes in Hr as (r0&r1&r2&r3&r4&r5&r6&r7&r8&r9&r10&r11&r12&r13&r14&r15&->).
    match goal with |- context [be16 ?n] => change (be16 n) with [0; 8] end.
    change PROTO_UDP with 17. change PROTO_ICMPV6 with 58. cbn [app].
    match goal with |- context [be32 ?n] => change (be32 n) with [0; 0; 0; 56] end.
    take_checksum. run_writes. rewrite ipv6_header_spec by done. rewrite bind_Ok.
    match goal with |- context [be16 ?n] => change (be16 n) with [0; 56] end.
    cbn [app]. eexists. split; [done|]. split.
    + buffer_ok.
    + vm_compute. reflexivity.
    + rewrite <- Elp, <- Erp. vm_compute. reflexivity.
    + apply checksums_verify_v6; [done|done|]. sum_up Hsum.
Qed.

(** ** The app's side, followed *)

(** A segment with its sequence numbers not yet wrapped: where they stand in the whole of the
    connection's sequence space. *)
Record Sent : Type := mkSent { at_seq : Z; at_ack : Z; sent_flags : Z; sent_len : Z }.

Definition on_wire (s : Sent) : Segment :=
  mkSegment (wrap32 (at_seq s)) (wrap32 (at_ack s)) (sent_flags s) (sent_len s).

Definition latest (l : list Z) : option Z :=
  foldl (fun m x => Some (match m with Some m => Z.max m x | None => x end)) None l.

(** The ends of the segments that are not resets, and the acknowledgments of those that carry one. *)
Definition sent_ends (l : list Sent) : list Z :=
  (fun s => at_seq s + sent_len s) <$> filter (fun s => has_flag (sent_flags s) FLAG_RST = false) l.
Definition sent_acks (l : list Sent) : list Z :=
  at_ack <$> filter (fun s => has_flag (sent_flags s) FLAG_RST = false
                              /\ has_flag (sent_flags s) FLAG_ACK = true) l.

(** [x] stands in the half of the sequence space that starts at [base]. *)
Definition in_window (base x : Z) : Prop := base <= x < base + 2147483648.

Lemma latest_snoc l x :
  latest (l ++ [x]) = Some (match latest l with Some m => Z.max m x | None => x end).
Proof. unfold latest. by rewrite foldl_app. Qed.

Lemma latest_window base l m : Forall (in_window base) l -> latest l = Some m -> in_window base m.
Proof.
  revert m. induction l as [|x l IH] using rev_ind; intros m Hl; [done|].
  apply Forall_app in Hl as [Hl [Hx _]%Forall_cons]. rewrite latest_snoc. intros [= <-].
  destruct (latest l) as [m|]; [|done]. specialize (IH m Hl eq_refl). unfold in_window in *. lia.
Qed.

Lemma wrap32_add a b : wrap32 (wrap32 a + b) = wrap32 (a + b).
Proof. unfold wrap32. by rewrite Zplus_mod_idemp_l. Qed.

Lemma furthest_max base m c :
  in_window base m -> in_window base c ->
  furthest (Some (wrap32 m)) (wrap32 c) = wrap32 (Z.max m c).
Proof.
  unfold in_window. intros Hm Hc. unfold furthest, wrap32. rewrite <- Zminus_mod.
  unfold cast_signed32.
  assert ((c - m) mod 4294967296 = if m <=? c then c - m else c - m + 4294967296) as ->.
  { destruct (Z.leb_spec m c); [by apply Z.mod_small; lia|].
    rewrite <- (Z.mod_add (c - m) 1) by lia. apply Z.mod_small. lia. }
  destruct (Z.leb_spec m c).
  - destruct (Z.ltb_spec (c - m) 2147483648); [|lia]. destruct (Z.leb_spec (c - m) 0).
    + do 2 f_equal. lia.
    + by rewrite Z.max_r by lia.
  - rewrite Z.max_l by lia.
    destruct (Z.ltb_spec (c - m + 4294967296) 2147483648); [lia|].
    destruct (Z.leb_spec (c - m + 4294967296 - 4294967296) 0); [done|lia].
Qed.

Lemma furthest_latest base l x :
  Forall (in_window base) l -> in_window base x ->
  furthest (wrap32 <$> latest l) (wrap32 x) =
    wrap32 (match latest l with Some m => Z.max m x | None => x end).
Proof.
  intros Hl Hx. destruct (latest l) as [m|] eqn:E; [|done].
  eapply furthest_max; [|done]. by eapply latest_window.
Qed.

Lemma follow_all base_seq base_ack l :
  Forall (in_window base_seq) (sent_ends l) -> Forall (in_window base_ack) (sent_acks l) ->
  foldl follow AppSide_default (on_wire <$> l) =
    mkAppSide (wrap32 <$> latest (sent_acks l)) (wrap32 <$> latest (sent_ends l)).
Proof.
  unfold sent_ends, sent_acks. induction l as [|s l IH] using rev_ind; [done|].
  rewrite !filter_app, !fmap_app, foldl_app. intros [Hs Hs']%Forall_app [Ha Ha']%Forall_app.
  rewrite IH by done. cbn [foldl fmap list_fmap]. unfold follow. cbn [on_wire seg_flags seg_seq seg_ack seg_len expects next].
  destruct (has_flag (sent_flags s) FLAG_RST) eqn:Hr.
  { rewrite !filter_cons_False by (rewrite Hr; naive_solver). by rewrite !filter_nil, !app_nil_r. }
  rewrite (filter_cons_True (fun s => has_flag (sent_flags s) FLAG_RST = false)) in * by done.
  cbn [fmap list_fmap filter_nil] in *. rewrite wrap32_add. rewrite filter_nil in *.
  apply Forall_cons in Hs' as [Hs' _]. rewrite latest_snoc. cbn [fmap option_fmap option_map].
  destruct (has_flag (sent_flags s) FLAG_ACK) eqn:Hk; cbn [expects next].
  - rewrite filter_cons_True in * by done. rewrite filter_nil in *. cbn [fmap list_fmap] in *.
    apply Forall_cons in Ha' as [Ha' _]. rewrite latest_snoc. cbn [fmap option_fmap option_map].
    by erewrite !furthest_latest.
  - rewrite filter_cons_False by (rewrite Hk; naive_solver). rewrite filter_nil, app_nil_r.
    by erewrite furthest_latest.
Qed.

Lemma wrap32_u32 v : is_u32 (wrap32 v).
Proof. unfold is_u32, wrap32. apply Z.mod_pos_bound. lia. Qed.

Lemma latest_none l : latest l = None -> l = [].
Proof. destruct l as [|x l _] using rev_ind; [done|]. by rewrite latest_snoc. Qed.

Lemma no_sent_acks l : sent_ends l = [] -> sent_acks l = [].
Proof.
  unfold sent_ends, sent_acks. intros H%fmap_nil_inv.
  induction l as [|s l IH]; [done|]. rewrite filter_cons in H. rewrite filter_cons.
  destruct (decide (has_flag (sent_flags s) FLAG_RST = false)) as [?|Hn]; [done|].
  rewrite decide_False by naive_solver. by apply IH.
Qed.

(** The reset a router sends toward an app is one the app's stack accepts,
    whatever the app sent before.  Following the app's segments (resets aside,
    and each within half the sequence space, so that serial arithmetic orders
    them), the reset comes back on the flow itself with right checksums, its
    sequence number is the highest acknowledgment the app sent, 0 if it sent
    none, and it acknowledges the furthest byte the app sent.  There is none
    while the app sent nothing. *)
Theorem reset_accepted_by_app (flow : FlowKey) (base_seq base_ack : Z) (l : list Sent)
    (Hwf : flow_wf flow) (Htcp : transport flow = Tcp)
    (Hseq : Forall (in_window base_seq) (sent_ends l))
    (Hack : Forall (in_window base_ack) (sent_acks l)) :
  let side := foldl follow AppSide_default (on_wire <$> l) in
  match latest (sent_ends l), latest (sent_acks l) with
  | None, None => @toward_app Empty_set flow side = Ok None
  | None, Some _ => False
  | Some furthest_end, highest_ack =>
      exists p, @toward_app Empty_set flow side = Ok (Some p) /\ bytes_ok p /\
        classify p Downlink = Ok (Flow flow (Z.lor FLAG_RST FLAG_ACK) None) /\
        locate p = Ok (tcp_layout flow) /\ checksums_verify p (tcp_layout flow) = true /\
        @segment Empty_set p =
          Ok (Some (mkSegment (default 0 (wrap32 <$> highest_ack)) (wrap32 furthest_end)
                      (Z.lor FLAG_RST FLAG_ACK) 0))
  end.
Proof.
  cbv zeta. rewrite (follow_all base_seq base_ack) by done. unfold toward_app.
  rewrite Htcp. cbn [expects next fmap option_fmap option_map bool_decide].
  rewrite bool_decide_eq_true_2 by done. cbn [negb].
  destruct (latest (sent_ends l)) as [m|] eqn:Hm.
  - destruct (latest (sent_acks l)) as [a|]; cbn [fmap option_fmap option_map].
    + destruct (@build_spec Empty_set flow (wrap32 a) (Some (wrap32 m))) as (p & -> & [] & Hg);
        [done|done|apply wrap32_u32|apply wrap32_u32|]. by exists p.
    + destruct (@build_spec Empty_set flow 0 (Some (wrap32 m))) as (p & -> & [] & Hg);
        [done|done|unfold is_u32; lia|apply wrap32_u32|]. by exists p.
  - by rewrite (no_sent_acks l) by (by apply latest_none).
Qed.

(** A connection from 10.0.0.2:50000 to 192.0.2.7:443: its SYN, its ACK, and 100 bytes that
    cross the end of the sequence space. *)
Definition sample_tcp_flow : FlowKey :=
  mkFlowKey Tcp (mkSocketAddr (V4 [10; 0; 0; 2]) 50000) (mkSocketAddr (V4 [192; 0; 2; 7]) 443).
Definition sample_sent : list Sent :=
  [mkSent 4294967290 0 FLAG_SYN 1; mkSent 4294967291 900 FLAG_ACK 0; mkSent 4294967291 900 FLAG_ACK 100].

Lemma sample_tcp_flow_wf : flow_wf sample_tcp_flow.
Proof. unfold flow_wf, ip_wf, is_u16; simpl; split_and!; try done; repeat constructor; lia. Qed.

Lemma reset_accepted_by_app_witness :
  exists p, @toward_app Empty_set sample_tcp_flow
      (foldl follow AppSide_default (on_wire <$> sample_sent)) = Ok (Some p) /\ bytes_ok p /\
    classify p Downlink = Ok (Flow sample_tcp_flow (Z.lor FLAG_RST FLAG_ACK) None) /\
    locate p = Ok (tcp_layout sample_tcp_flow) /\
    checksums_verify p (tcp_layout sample_tcp_flow) = true /\
    @segment Empty_set p = Ok (Some (mkSegment 900 95 20 0)).
Proof.
  exact (reset_accepted_by_app sample_tcp_flow 4294967290 900 sample_sent sample_tcp_flow_wf eq_refl
    ltac:(repeat constructor; unfold in_window; simpl; lia)
    ltac:(repeat constructor; unfold in_window; simpl; lia)).
Defined.

(** A segment of a closed connection is answered as RFC 9293 says: not at all when it is
    a reset; with a reset at the sequence number it acknowledges when it acknowledges one; and
    otherwise with a reset at 0 acknowledging everything it occupies.  The answer comes back on
    the flow and its checksums verify. *)
Theorem answer_resets_sender (flow : FlowKey) (s : Segment)
    (Hwf : flow_wf flow) (Htcp : transport flow = Tcp)
    (Hs : is_u32 (seg_ack s)) :
  if has_flag (seg_flags s) FLAG_RST then @answer Empty_set flow s = Ok None else
  exists p flags, @answer Empty_set flow s = Ok (Some p) /\ bytes_ok p /\
    classify p Downlink = Ok (Flow flow flags None) /\
    locate p = Ok (tcp_layout flow) /\ checksums_verify p (tcp_layout flow) = true /\
    @segment Empty_set p = Ok (Some (
      if has_flag (seg_flags s) FLAG_ACK then mkSegment (seg_ack s) 0 FLAG_RST 0
      else mkSegment 0 (wrap32 (seg_seq s + seg_len s)) (Z.lor FLAG_RST FLAG_ACK) 0)).
Proof.
  unfold answer. rewrite bool_decide_eq_true_2 by done. cbn [negb orb].
  destruct (has_flag (seg_flags s) FLAG_RST); [done|].
  destruct (has_flag (seg_flags s) FLAG_ACK).
  - destruct (@build_spec Empty_set flow (seg_ack s) None) as (p & -> & [] & Hg);
      [done|done|done|unfold is_u32; simpl; lia|]. by exists p, FLAG_RST.
  - destruct (@build_spec Empty_set flow 0 (Some (wrap32 (seg_seq s + seg_len s)))) as (p & -> & [] & Hg);
      [done|done|unfold is_u32; lia|apply wrap32_u32|]. by exists p, (Z.lor FLAG_RST FLAG_ACK).
Qed.

Lemma answer_resets_sender_witness :
  exists p flags, @answer Empty_set sample_tcp_flow (mkSegment 7 900 FLAG_ACK 10) = Ok (Some p) /\ bytes_ok p /\
    classify p Downlink = Ok (Flow sample_tcp_flow flags None) /\
    locate p = Ok (tcp_layout sample_tcp_flow) /\
    checksums_verify p (tcp_layout sample_tcp_flow) = true /\
    @segment Empty_set p = Ok (Some (mkSegment 900 0 4 0)).
Proof.
  exact (answer_resets_sender sample_tcp_flow (mkSegment 7 900 FLAG_ACK 10) sample_tcp_flow_wf eq_refl
    ltac:(unfold is_u32; simpl; lia)).
Defined.

(** A UDP flow, and only a UDP flow, is told its port is unreachable, in a packet the
    receiving side attributes to the flow itself (the datagram it quotes leads back to it) and
    whose checksums verify: the IPv4 header's, ICMP's, and the pseudo header's for ICMPv6. *)
Theorem unreachable_names_flow (flow : FlowKey) (Hwf : flow_wf flow) :
  if bool_decide (transport flow = Udp) then
    exists p, @unreachable_toward_app Empty_set flow = Ok (Some p) /\ bytes_ok p /\
      classify p Downlink = Ok (IcmpError flow) /\
      locate p = Ok (unreachable_layout flow) /\ checksums_verify p (unreachable_layout flow) = true
  else @unreachable_toward_app Empty_set flow = Ok None.
Proof.
  destruct (bool_decide_reflect (transport flow = Udp)) as [Hu|Hu].
  - destruct (@unreachable_spec Empty_set flow Hwf Hu) as (p & Hp & []). by exists p.
  - unfold unreachable_toward_app. by rewrite bool_decide_eq_false_2.
Qed.

Definition sample_udp6_flow : FlowKey :=
  mkFlowKey Udp (mkSocketAddr (V6 (replicate 15 0 ++ [1])) 50000)
    (mkSocketAddr (V6 ([32; 1; 13; 184] ++ replicate 12 9)) 443).

Lemma unreachable_names_flow_witness :
  exists p, @unreachable_toward_app Empty_set sample_udp6_flow = Ok (Some p) /\ bytes_ok p /\
    classify p Downlink = Ok (IcmpError sample_udp6_flow) /\
    locate p = Ok (unreachable_layout sample_udp6_flow) /\
    checksums_verify p (unreachable_layout sample_udp6_flow) = true.
Proof.
  refine (unreachable_names_flow sample_udp6_flow _).
  unfold flow_wf, ip_wf, is_u16; simpl; split_and!; try done; repeat constructor; lia.
Defined.

Lemma segment_numbers {E : Type} (p : bytes) (direction : Direction) (Hb : bytes_ok p) :
  match @segment E p with
  | Ok (Some s) =>
      is_u32 (seg_seq s) /\ is_u32 (seg_ack s) /\ is_u32 (seg_len s) /\ is_byte (seg_flags s) /\
      exists k f, classify p direction = Ok (Flow k (seg_flags s) f) /\ transport k = Tcp
  | Ok None => True
  | Err _ | Panic => False
  end.
Proof.
  unfold segment. pose proof (locate_with_yields p false Hb) as Hy.
  destruct (locate p) as [l| |] eqn:Hl; unfold locate in Hl; rewrite Hl in Hy; [|done|done].
  pose proof (classify_eq p l direction Hb Hl) as Hc. destruct Hy as [Hmin Hl4 Hend Hal].
  destruct (Z.eqb_spec (protocol l) PROTO_TCP) as [Hp|]; [|done]. cbn [negb orb].
  destruct (has_transport l) eqn:Ht; [|done]. cbn [negb].
  assert (0 <= l4_offset l) by (destruct (family l); lia).
  rewrite get_slice_ok by lia. set (tcp := sub p (l4_offset l) (end_ l)).
  assert (bytes_ok tcp) by (unfold tcp; auto with packet).
  assert (zlen tcp = end_ l - l4_offset l) as Hz by (unfold tcp; rewrite zlen_sub; lia).
  unfold TCP_HEADER. rewrite get_slice_eq by lia. destruct (Z.leb_spec 20 (zlen tcp)); [|done].
  assert (zlen (sub tcp 0 20) = 20) by (rewrite zlen_sub; lia). in_range.
  destruct (_ <? 20); [done|]. destruct (_ <? 0); [done|]. in_range.
  destruct (_ <=? _); [done|]. cbn [seg_seq seg_ack seg_flags seg_len].
  assert (forall i, is_byte (byte_at (sub tcp 0 20) i)) as Hbytes.
  { intros i. apply byte_at_range. auto with packet. }
  assert (forall a b c d, is_byte a -> is_byte b -> is_byte c -> is_byte d -> is_u32 (u32_be a b c d)) as Hu.
  { unfold is_byte, is_u32, u32_be. lia. }
  split; [by apply Hu|]. split; [by apply Hu|]. split; [apply wrap32_u32|]. split; [done|].
  assert (forall f, classify_transport p l (src_of l p) (dst_of l p) direction f =
    Ok (Flow (flow_of Tcp (src_of l p) (dst_of l p) (u16_at p (l4_offset l)) (u16_at p (l4_offset l + 2)) direction)
          (byte_at (sub tcp 0 20) 13) f)) as Hct.
  { intros f. rewrite classify_transport_eq by done. cbv zeta. rewrite Hp. cbn [Z.eqb PROTO_TCP Pos.eqb].
    destruct (Z.leb_spec 20 (end_ l - l4_offset l)); [|lia].
    rewrite byte_at_sub by lia. unfold tcp. by rewrite byte_at_sub by lia. }
  rewrite Hc. cbv zeta. unfold has_transport in Ht.
  destruct (fragment l) as [f|]; [rewrite Ht|]; rewrite Hct; do 2 eexists; (split; [done|]); by destruct direction.
Qed.

(** Reading the numbers of a segment never panics, and agrees with the classification: a
    packet that carries a segment is a flow's own TCP packet with the same flags, in both
    directions, first fragments included, and the segment's numbers are 32 bits wide. *)
Theorem segment_agrees_with_classify (p : bytes) (direction : Direction) (Hb : bytes_ok p) :
  match @segment Empty_set p with
  | Ok (Some s) =>
      is_u32 (seg_seq s) /\ is_u32 (seg_ack s) /\ is_u32 (seg_len s) /\ is_byte (seg_flags s) /\
      exists k f, classify p direction = Ok (Flow k (seg_flags s) f) /\ transport k = Tcp
  | Ok None => True
  | Err _ | Panic => False
  end.
Proof. exact (@segment_numbers Empty_set p direction Hb). Qed.

(** The SYN of a connection from 10.0.0.2:50000 to 192.0.2.7:443. *)
Definition sample_syn : bytes :=
  [69; 0; 0; 40; 0; 0; 64; 0; 64; 6; 110; 199; 10; 0; 0; 2; 192; 0; 2; 7;
   195; 80; 1; 187; 0; 0; 0; 9; 0; 0; 0; 0; 80; 2; 255; 255; 30; 197; 0; 0].

Lemma sample_syn_ok : bytes_ok sample_syn.
Proof. repeat constructor; lia. Qed.

Lemma segment_agrees_with_classify_witness :
  is_u32 9 /\ is_u32 0 /\ is_u32 1 /\ is_byte 2 /\
  exists k f, classify sample_syn Uplink = Ok (Flow k 2 f) /\ transport k = Tcp.
Proof. exact (segment_agrees_with_classify sample_syn Uplink sample_syn_ok). Defined.

(** The sample packets of the development are real: their checksums verify. *)
Example samples_verify :
  checksums_verify sample_udp (mkLayout FamilyV4 PROTO_UDP 20 28 None) = true /\
  checksums_verify sample_syn (mkLayout FamilyV4 PROTO_TCP 20 40 None) = true.
Proof. by vm_compute. Qed.
