(* ===== verification/Owner.v ===== *)
(** * Which process owns a flow's socket (talpid-app-routing/src/owner/mod.rs)

    [OwnerResolver] is the interface the router is generic in: the host's
    answers, in an explicit state.  [SocketTable] is the snapshot the macOS and
    Windows resolvers search. *)

From S2P Require Import Prelude Net Flow AppKey.
Open Scope Z_scope.

(** The [io::Error] a variant carries is only rendered. *)
Inductive OwnerError : Type := SocketTableError | UnknownLayout.

Inductive SocketOwner : Type := Process (pid : Z) | Unwatched | Unknown.

#[export] Instance SocketOwner_eq_dec : EqDecision SocketOwner.
Proof. solve_decision. Defined.

(** [trait OwnerResolver]: every method takes [&mut self].  What [refresh] reads depends on when
    it is called, so the instant the read begins is its argument. *)
Class OwnerResolver (R : Type) : Type := {
  socket_owner : R -> FlowKey -> R * option Z;
  owner : R -> FlowKey -> R * SocketOwner;
  watch_programs : forall {V : Type}, R -> AppMatcher V -> R;
  refresh : R -> Z -> R * option OwnerError;
  process_key : R -> Z -> R * option ProcessKey;
  executable : R -> Z -> R * option str
}.

(** [owner.map_or(SocketOwner::Unknown, SocketOwner::Process)] *)
Definition owner_of (pid : option Z) : SocketOwner :=
  match pid with Some pid => Process pid | None => Unknown end.

(** The trait's own [owner], for a resolver that does not override it. *)
Definition default_owner {R : Type} (socket_owner : R -> FlowKey -> R * option Z) (r : R) (flow : FlowKey)
    : R * SocketOwner :=
  let '(r, pid) := socket_owner r flow in (r, owner_of pid).

(** [slice::sort_unstable_by_key]: sorted, in an order of equal keys the
    standard library does not specify. *)
Class UnstableSort : Type := {
  sort_unstable : forall {A : Type} (le : A -> A -> Prop), RelDecision le -> list A -> list A;
  sort_unstable_perm : forall {A : Type} (le : A -> A -> Prop) (dec : RelDecision le) l,
    sort_unstable le dec l ≡ₚ l;
  sort_unstable_sorted : forall {A : Type} (le : A -> A -> Prop) (dec : RelDecision le) l,
    Total le -> Transitive le -> StronglySorted le (sort_unstable le dec l)
}.

Definition default_sort : UnstableSort.
Proof.
  refine {| sort_unstable := fun A le dec l => @merge_sort A le dec l |}.
  - intros. apply merge_sort_Permutation.
  - intros. by apply StronglySorted_merge_sort.
Defined.

Record SocketRecord : Type := mkSocketRecord {
  rec_transport : Transport;
  rec_local : SocketAddr;
  rec_remote : option SocketAddr;
  rec_pid : Z
}.

Definition SocketTable : Type := list SocketRecord.

Definition transport_rank (t : Transport) : Z :=
  match t with Tcp => 0 | Udp => 1 | IcmpEcho => 2 end.

Definition local_matches (bound packet : IpAddr) : bool :=
  is_unspecified bound || bool_decide (bound = packet).

Definition unmapped (addr : SocketAddr) : SocketAddr :=
  mkSocketAddr (to_canonical (ip addr)) (port addr).

Definition sockets_clear (t : SocketTable) : SocketTable := [].

Definition sockets_push (t : SocketTable) (r : SocketRecord) : SocketTable :=
  t ++ [mkSocketRecord (rec_transport r) (unmapped (rec_local r)) (unmapped <$> rec_remote r) (rec_pid r)].

(** The key of a record, and the order of tuples. *)
Definition sort_key (r : SocketRecord) : Z * Z := (transport_rank (rec_transport r), port (rec_local r)).

Definition key_lt (a b : Z * Z) : bool :=
  (a.1 <? b.1) || ((a.1 =? b.1) && (a.2 <? b.2)).

Definition record_le (a b : SocketRecord) : Prop := key_lt (sort_key b) (sort_key a) = false.

#[export] Instance record_le_dec : RelDecision record_le.
Proof. unfold record_le. intros a b. apply _. Defined.

Definition sockets_finish `{!UnstableSort} (t : SocketTable) : SocketTable :=
  sort_unstable record_le record_le_dec t.

Definition sockets_len (t : SocketTable) : Z := zlen t.
Definition sockets_is_empty (t : SocketTable) : bool := sockets_len t =? 0.

(** [partition_point] of a slice its predicate partitions, and [take_while]. *)
Fixpoint partition_point {A : Type} (p : A -> bool) (l : list A) : nat :=
  match l with
  | [] => O
  | x :: l => if p x then S (partition_point p l) else O
  end.

Fixpoint take_while {A : Type} (p : A -> bool) (l : list A) : list A :=
  match l with
  | [] => []
  | x :: l => if p x then x :: take_while p l else []
  end.

(** The loop over the candidates. *)
Fixpoint owner_loop (flow : FlowKey) (candidates : list SocketRecord) (unconnected : option Z)
    (shared : bool) : option Z :=
  match candidates with
  | [] => if shared then None else unconnected
  | r :: candidates =>
      match rec_remote r with
      | Some remote =>
          if bool_decide (remote = Flow.remote flow) then Some (rec_pid r)
          else owner_loop flow candidates unconnected shared
      | None =>
          if bool_decide (transport flow = Udp) then
            match unconnected with
            | None => owner_loop flow candidates (Some (rec_pid r)) shared
            | Some pid => owner_loop flow candidates unconnected (shared || negb (pid =? rec_pid r))
            end
          else owner_loop flow candidates unconnected shared
      end
  end.

Definition sockets_owner (t : SocketTable) (flow : FlowKey) : option Z :=
  let key := (transport_rank (transport flow), port (local flow)) in
  let start := partition_point (fun r => key_lt (sort_key r) key) t in
  let candidates :=
    filter (fun r => negb (rec_pid r =? 0) && local_matches (ip (rec_local r)) (ip (local flow)))
      (take_while (fun r => bool_decide (sort_key r = key)) (drop start t)) in
  owner_loop flow candidates None false.

(** ** What the search finds *)

(** A socket that may have sent a packet of [flow]. *)
Definition candidate (flow : FlowKey) (r : SocketRecord) : Prop :=
  rec_transport r = transport flow /\ port (rec_local r) = port (local flow) /\
  rec_pid r <> 0 /\ local_matches (ip (rec_local r)) (ip (local flow)) = true.

Definition connected (flow : FlowKey) (r : SocketRecord) : Prop :=
  candidate flow r /\ rec_remote r = Some (Flow.remote flow).
Definition unconnected (flow : FlowKey) (r : SocketRecord) : Prop :=
  candidate flow r /\ rec_remote r = None /\ transport flow = Udp.

(** The answer the table promises for [flow], for any order of its records. *)
Definition owner_answer (t : SocketTable) (flow : FlowKey) (answer : option Z) : Prop :=
  (exists r, r ∈ t /\ connected flow r /\ answer = Some (rec_pid r)) \/
  ((forall r, r ∈ t -> ~ connected flow r) /\
   match answer with
   | Some pid => (exists r, r ∈ t /\ unconnected flow r) /\
                 forall r, r ∈ t -> unconnected flow r -> rec_pid r = pid
   | None => (forall r, r ∈ t -> ~ unconnected flow r) \/
             exists r r', r ∈ t /\ unconnected flow r /\ r' ∈ t /\ unconnected flow r' /\
               rec_pid r <> rec_pid r'
   end).

Lemma key_lt_spec a b : key_lt a b = true <-> a.1 < b.1 \/ (a.1 = b.1 /\ a.2 < b.2).
Proof. unfold key_lt. rewrite orb_true_iff, andb_true_iff, Z.ltb_lt, Z.eqb_eq, Z.ltb_lt. done. Qed.

Lemma key_lt_false a b : key_lt a b = false <-> b.1 < a.1 \/ (a.1 = b.1 /\ b.2 <= a.2).
Proof.
  rewrite <- not_true_iff_false, key_lt_spec. lia.
Qed.

#[export] Instance record_le_total : Total record_le.
Proof. intros a b. unfold record_le. rewrite !key_lt_false. lia. Qed.
#[export] Instance record_le_trans : Transitive record_le.
Proof. intros a b c. unfold record_le. rewrite !key_lt_false. lia. Qed.

Lemma partition_drop {A : Type} (p : A -> bool) (l : list A) : take_while p l ++ drop (partition_point p l) l = l.
Proof. induction l as [|x l IH]; simpl; [done|]. destruct (p x); simpl; [by rewrite IH|done]. Qed.

Lemma partition_point_all {A : Type} (p : A -> bool) (l : list A) x : x ∈ take_while p l -> p x = true.
Proof.
  induction l as [|y l IH]; simpl; [set_solver|]. destruct (p y) eqn:Hp; [|set_solver].
  intros [->|?]%elem_of_cons; auto.
Qed.

Lemma take_while_elem {A : Type} (p : A -> bool) (l : list A) x : x ∈ take_while p l -> x ∈ l.
Proof.
  intros Hx. rewrite <- (partition_drop p l). set_solver.
Qed.

(** The equal range of a key in a sorted table. *)
Lemma equal_range (t : SocketTable) (key : Z * Z) r :
  StronglySorted record_le t ->
  r ∈ take_while (fun r => bool_decide (sort_key r = key))
        (drop (partition_point (fun r => key_lt (sort_key r) key) t) t)
  <-> r ∈ t /\ sort_key r = key.
Proof.
  intros Hs. split.
  - intros Hr. split.
    + apply take_while_elem in Hr.
      rewrite <- (partition_drop (fun r => key_lt (sort_key r) key) t). set_solver.
    + apply partition_point_all in Hr. by apply bool_decide_eq_true in Hr.
  - intros [Hr Hk]. induction t as [|x t IH]; [set_solver|].
    apply StronglySorted_inv in Hs as [Hs Hx]. rewrite Forall_forall in Hx. simpl.
    destruct (key_lt (sort_key x) key) eqn:Hlt.
    + simpl. apply elem_of_cons in Hr as [->|Hr].
      * rewrite Hk in Hlt. apply key_lt_spec in Hlt. lia.
      * by apply IH.
    + simpl. clear IH.
      assert (sort_key x = key) as Hxk.
      { apply elem_of_cons in Hr as [->|Hr]; [done|]. specialize (Hx r Hr). unfold record_le in Hx.
        rewrite Hk in Hx. apply key_lt_false in Hx, Hlt. destruct (sort_key x), key; simpl in *.
        f_equal; lia. }
      rewrite bool_decide_eq_true_2 by done. apply elem_of_cons in Hr as [->|Hr]; [by left|right].
      clear Hlt. induction t as [|y t IHt]; [set_solver|]. simpl.
      apply StronglySorted_inv in Hs as [Hs Hy]. rewrite Forall_forall in Hy.
      assert (sort_key y = key) as Hyk.
      { pose proof (Hx y ltac:(left)) as H1. apply elem_of_cons in Hr as [->|Hr]; [done|].
        specialize (Hy r Hr). unfold record_le in *. rewrite Hk in Hy. rewrite Hxk in H1.
        apply key_lt_false in Hy, H1. destruct (sort_key y), key; simpl in *. f_equal; lia. }
      rewrite bool_decide_eq_true_2 by done. apply elem_of_cons in Hr as [->|Hr]; [by left|right].
      apply IHt; try done. intros z Hz. apply Hx. by right.
Qed.

(** The processes of the unconnected sockets of a list, for a UDP flow. *)
Definition unconnected_pids (flow : FlowKey) (l : list SocketRecord) : list Z :=
  if bool_decide (transport flow = Udp)
  then rec_pid <$> filter (fun r => rec_remote r = None) l else [].

Lemma unconnected_pids_cons flow r l :
  unconnected_pids flow (r :: l) =
    if bool_decide (transport flow = Udp) && bool_decide (rec_remote r = None)
    then rec_pid r :: unconnected_pids flow l else unconnected_pids flow l.
Proof.
  unfold unconnected_pids. destruct (bool_decide (transport flow = Udp)); [|done].
  rewrite filter_cons. destruct (decide (rec_remote r = None)) as [Hn|Hn].
  - by rewrite bool_decide_eq_true_2.
  - by rewrite bool_decide_eq_false_2.
Qed.

Lemma owner_loop_unconnected flow l p shared :
  Forall (fun r => rec_remote r <> Some (Flow.remote flow)) l ->
  owner_loop flow l (Some p) shared =
    if shared || existsb (fun q => negb (p =? q)) (unconnected_pids flow l) then None else Some p.
Proof.
  intros Hl. revert shared. induction Hl as [|r l Hr _ IH]; intros shared.
  - unfold unconnected_pids. destruct (bool_decide _); simpl; by destruct shared.
  - rewrite unconnected_pids_cons. simpl. destruct (rec_remote r) as [remote|].
    + rewrite bool_decide_eq_false_2 by congruence. rewrite IH.
      by rewrite (bool_decide_eq_false_2 (Some remote = None)), andb_false_r by done.
    + rewrite (bool_decide_eq_true_2 (None = None)), andb_true_r by done.
      destruct (bool_decide _); rewrite IH; [|done]. simpl. by rewrite orb_assoc.
Qed.

Lemma owner_loop_start flow l :
  Forall (fun r => rec_remote r <> Some (Flow.remote flow)) l ->
  owner_loop flow l None false =
    match unconnected_pids flow l with
    | [] => None
    | p :: ps => if existsb (fun q => negb (p =? q)) ps then None else Some p
    end.
Proof.
  induction 1 as [|r l Hr Hl IH].
  - unfold unconnected_pids. by destruct (bool_decide _).
  - rewrite unconnected_pids_cons. simpl. destruct (rec_remote r) as [remote|].
    + rewrite bool_decide_eq_false_2 by congruence. rewrite IH.
      by rewrite (bool_decide_eq_false_2 (Some remote = None)), andb_false_r by done.
    + rewrite (bool_decide_eq_true_2 (None = None)), andb_true_r by done.
      destruct (bool_decide _); [by rewrite owner_loop_unconnected|done].
Qed.

Lemma owner_loop_connected flow l u shared :
  Exists (fun r => rec_remote r = Some (Flow.remote flow)) l ->
  exists r, r ∈ l /\ rec_remote r = Some (Flow.remote flow) /\
    owner_loop flow l u shared = Some (rec_pid r).
Proof.
  revert u shared. induction l as [|r l IH]; intros u shared H; [by apply Exists_nil in H|].
  simpl. destruct (decide (rec_remote r = Some (Flow.remote flow))) as [Hr|Hr].
  - rewrite Hr. rewrite bool_decide_eq_true_2 by done. exists r. split; [left|done].
  - apply Exists_cons in H as [?|H]; [done|].
    assert (forall u shared, exists r', r' ∈ r :: l /\ rec_remote r' = Some (Flow.remote flow) /\
      owner_loop flow l u shared = Some (rec_pid r')) as Hrest.
    { intros u' s'. destruct (IH u' s' H) as (r' & ? & ? & ?). exists r'. split; [by right|done]. }
    destruct (rec_remote r) as [remote|]; [rewrite bool_decide_eq_false_2 by congruence; apply Hrest|].
    destruct (bool_decide _); [|apply Hrest]. destruct u; apply Hrest.
Qed.

Lemma elem_of_unconnected_pids flow l p :
  p ∈ unconnected_pids flow l <->
  transport flow = Udp /\ exists r, r ∈ l /\ rec_remote r = None /\ rec_pid r = p.
Proof.
  unfold unconnected_pids. destruct (bool_decide_reflect (transport flow = Udp)) as [Hu|Hu]; [|set_solver].
  rewrite list_elem_of_fmap. setoid_rewrite list_elem_of_filter. naive_solver.
Qed.

(** The table's search answers as promised on any sorted table. *)
Lemma sockets_owner_sorted (t : SocketTable) (flow : FlowKey) :
  StronglySorted record_le t -> owner_answer t flow (sockets_owner t flow).
Proof.
  intros Hs. unfold sockets_owner.
  set (cs := filter _ _).
  assert (forall r, r ∈ cs <-> r ∈ t /\ candidate flow r) as Hcs.
  { intros r. unfold cs. rewrite list_elem_of_filter, equal_range by done. unfold candidate, sort_key.
    rewrite Is_true_true, andb_true_iff, negb_true_iff, Z.eqb_neq. split.
    - intros [[? ?] [? [= Ht ?]]]. split_and!; try done.
      destruct (rec_transport r), (transport flow); simpl in *; congruence.
    - intros (? & Ht & Hp & ? & ?). by rewrite Ht, Hp. }
  clearbody cs.
  destruct (Exists_dec (fun r => rec_remote r = Some (Flow.remote flow)) cs) as [He|He].
  - left. destruct (owner_loop_connected flow cs None false He) as (r & Hr & Hrem & ->).
    exists r. apply Hcs in Hr as [? ?]. by split_and!.
  - right. split.
    { intros r Hr [Hc Hrem]. apply He, Exists_exists. exists r. split; [by apply Hcs|done]. }
    rewrite owner_loop_start.
    2: { apply Forall_forall. intros r Hr Hrem. apply He, Exists_exists. exists r. split; [done|done]. }
    assert (forall r, r ∈ t /\ unconnected flow r <->
      r ∈ cs /\ rec_remote r = None /\ transport flow = Udp) as Hun.
    { intros r. unfold unconnected. rewrite Hcs. naive_solver. }
    pose proof (elem_of_unconnected_pids flow cs) as Hp.
    destruct (unconnected_pids flow cs) as [|p ps].
    { left. intros r Hr Hu. destruct (proj1 (Hun r) (conj Hr Hu)) as (? & ? & ?).
      apply (not_elem_of_nil (rec_pid r)). apply Hp. eauto. }
    destruct (existsb _ ps) eqn:Hex.
    + apply existsb_exists in Hex as (q & Hq & Hne). zbool.
      destruct (proj1 (Hp p)) as (Hu & r & Hr & Hrn & Hrp); [left|].
      destruct (proj1 (Hp q)) as (_ & r' & Hr' & Hrn' & Hrp'); [right; by apply list_elem_of_In|].
      right. exists r, r'. destruct (proj2 (Hun r)) as [? ?]; [done|].
      destruct (proj2 (Hun r')) as [? ?]; [done|]. split_and!; try done. congruence.
    + split.
      * destruct (proj1 (Hp p)) as (Hu & r & Hr & Hrn & Hrp); [left|]. exists r. by apply Hun.
      * intros r Hr Hu. destruct (proj1 (Hun r) (conj Hr Hu)) as (Hc & Hn & Hudp).
        assert (rec_pid r ∈ p :: ps) as [->|Hin]%elem_of_cons by (apply Hp; eauto); [done|].
        destruct (decide (p = rec_pid r)) as [|Hne]; [done|]. exfalso.
        rewrite <- not_true_iff_false in Hex. apply Hex, existsb_exists. exists (rec_pid r).
        split; [by apply list_elem_of_In|]. by apply negb_true_iff, Z.eqb_neq.
Qed.

Lemma owner_answer_perm (t t' : SocketTable) flow answer :
  (forall r, r ∈ t <-> r ∈ t') -> owner_answer t flow answer -> owner_answer t' flow answer.
Proof.
  unfold owner_answer. intros Hp. destruct answer; setoid_rewrite Hp; done.
Qed.

(** A finished snapshot of the host's sockets names the owner of a flow exactly as promised,
    whatever order the sockets were listed in and whatever the unstable sort does with equal
    keys: the process of a socket connected between the flow's two ends; failing that, for UDP,
    the one process holding every unconnected socket on the local port; and nobody when there is
    none or several could have sent it.  Sockets of pid 0 or bound to another address are never
    it, and an IPv4-mapped address counts as the IPv4 address. *)
Theorem socket_owner_found `{!UnstableSort} (sockets : list SocketRecord) (flow : FlowKey) :
  owner_answer (foldl sockets_push (sockets_clear []) sockets) flow
    (sockets_owner (sockets_finish (foldl sockets_push (sockets_clear []) sockets)) flow).
Proof.
  set (t := foldl sockets_push (sockets_clear []) sockets).
  pose proof (sockets_owner_sorted (sockets_finish t) flow) as Hans.
  assert (forall r, r ∈ sockets_finish t <-> r ∈ t) as Hperm.
  { intros r. unfold sockets_finish. by rewrite sort_unstable_perm. }
  eapply owner_answer_perm; [exact Hperm|]. apply Hans.
  unfold sockets_finish. apply sort_unstable_sorted; apply _.
Qed.
