(* ===== verification/Native.v ===== *)
(** * Integers in the host's byte order

    [from_ne_bytes] and [to_ne_bytes] over buffers, in whichever order the host
    has: what the parsers of the kernels' own tables share. *)

From S2P Require Import Prelude Net.
Open Scope Z_scope.

Class ByteOrder : Type := big_endian : bool.

(** [usize::next_multiple_of] *)
Definition next_multiple_of (n m : Z) : Z := (n + m - 1) / m * m.

Lemma next_multiple_of_ge n m : 0 < m -> n <= next_multiple_of n m.
Proof. intros Hm. unfold next_multiple_of. pose proof (Z.div_mod (n + m - 1) m ltac:(lia)). pose proof (Z.mod_pos_bound (n + m - 1) m Hm). nia. Qed.

Section Native.
Context `{!ByteOrder}.

Definition u16_ne (a b : Z) : Z := if big_endian then u16_be a b else u16_be b a.
Definition u32_ne (a b c d : Z) : Z := if big_endian then u32_be a b c d else u32_be d c b a.

(** [to_ne_bytes] *)
Definition ne16 (v : Z) : bytes := if big_endian then be16 v else rev (be16 v).
Definition ne32 (v : Z) : bytes := if big_endian then be32 v else rev (be32 v).

(** [bytes.get(at..at + 2)], and the integer there; the same of 4 bytes. *)
Definition half (l : bytes) (at_ : Z) : option Z :=
  s ← get_slice l at_ (at_ + 2); Some (u16_ne (byte_at s 0) (byte_at s 1)).
Definition word (l : bytes) (at_ : Z) : option Z :=
  s ← get_slice l at_ (at_ + 4); Some (u32_ne (byte_at s 0) (byte_at s 1) (byte_at s 2) (byte_at s 3)).

Lemma ne16_length v : length (ne16 v) = 2%nat.
Proof. unfold ne16. by destruct big_endian. Qed.
Lemma ne32_length v : length (ne32 v) = 4%nat.
Proof. unfold ne32. by destruct big_endian. Qed.

Lemma ne16_ok v : bytes_ok (ne16 v).
Proof. unfold ne16. destruct big_endian; [apply be16_ok|apply Forall_rev, be16_ok]. Qed.
Lemma ne32_ok v : bytes_ok (ne32 v).
Proof. unfold ne32. destruct big_endian; [apply be32_ok|apply Forall_rev, be32_ok]. Qed.

Lemma u32_ne_range a b c d : is_byte a -> is_byte b -> is_byte c -> is_byte d -> is_u32 (u32_ne a b c d).
Proof. unfold u32_ne, u32_be, is_byte, is_u32. destruct big_endian; lia. Qed.
Lemma u16_ne_range a b : is_byte a -> is_byte b -> is_u16 (u16_ne a b).
Proof. unfold u16_ne, u16_be, is_byte, is_u16. destruct big_endian; lia. Qed.

(** A slice of a concatenation. *)
Lemma get_slice_at (pre s post : bytes) a b :
  a = zlen pre -> b = a + zlen s -> get_slice (pre ++ s ++ post) a b = Some s.
Proof.
  intros -> ->. rewrite get_slice_ok; [|unfold zlen; lia|rewrite !zlen_app; unfold zlen; lia].
  f_equal. unfold sub. replace (Z.to_nat (zlen pre)) with (length pre) by (unfold zlen; lia).
  rewrite drop_app_length. replace (Z.to_nat (zlen pre + zlen s - zlen pre)) with (length s) by (unfold zlen; lia).
  by rewrite take_app_length.
Qed.

Lemma index_at {E : Type} (pre s post : bytes) i :
  0 <= i < zlen s -> @index E (pre ++ s ++ post) (zlen pre + i) = Ok (byte_at s i).
Proof.
  intros Hi. pose proof (zlen_nonneg pre). pose proof (zlen_nonneg post).
  rewrite index_ok by (rewrite !zlen_app; lia). f_equal. unfold byte_at, get.
  destruct (Z.leb_spec 0 (zlen pre + i)), (Z.leb_spec 0 i); try lia.
  rewrite lookup_app_r by (unfold zlen in *; lia). rewrite lookup_app_l by (unfold zlen in *; lia).
  do 2 f_equal. unfold zlen in *. lia.
Qed.

Lemma index_at_0 {E : Type} (pre s post : bytes) :
  0 < zlen s -> @index E (pre ++ s ++ post) (zlen pre) = Ok (byte_at s 0).
Proof. intros Hs. pose proof (@index_at E pre s post 0 ltac:(lia)) as Hi. by rewrite Z.add_0_r in Hi. Qed.

Lemma half_at (pre post : bytes) v a : a = zlen pre -> is_u16 v -> half (pre ++ ne16 v ++ post) a = Some v.
Proof.
  intros Ha Hv. unfold half. rewrite (get_slice_at pre (ne16 v) post) by (rewrite ?Ha; unfold zlen; rewrite ?ne16_length; lia).
  simpl. f_equal. unfold u16_ne, ne16. pose proof (u16_be_be16 v Hv) as He. by destruct big_endian.
Qed.

Lemma word_at (pre post : bytes) v a : a = zlen pre -> is_u32 v -> word (pre ++ ne32 v ++ post) a = Some v.
Proof.
  intros Ha Hv. unfold word. rewrite (get_slice_at pre (ne32 v) post) by (rewrite ?Ha; unfold zlen; rewrite ?ne32_length; lia).
  simpl. f_equal. unfold u32_ne, ne32. pose proof (u32_be_be32 v Hv) as He. by destruct big_endian.
Qed.

(** Reading past a prefix is reading the rest. *)
Lemma get_slice_skip (pre l : bytes) a b : 0 <= a -> get_slice (pre ++ l) (zlen pre + a) (zlen pre + b) = get_slice l a b.
Proof.
  intros Ha. unfold get_slice. rewrite zlen_app.
  assert ((0 <=? zlen pre + a) = (0 <=? a)) as -> by (pose proof (zlen_nonneg pre); destruct (Z.leb_spec 0 (zlen pre + a)), (Z.leb_spec 0 a); lia).
  assert ((zlen pre + a <=? zlen pre + b) = (a <=? b)) as -> by (destruct (Z.leb_spec (zlen pre + a) (zlen pre + b)), (Z.leb_spec a b); lia).
  assert ((zlen pre + b <=? zlen pre + zlen l) = (b <=? zlen l)) as ->
    by (destruct (Z.leb_spec (zlen pre + b) (zlen pre + zlen l)), (Z.leb_spec b (zlen l)); lia).
  destruct (_ && _); [|done]. f_equal. unfold sub.
  replace (zlen pre + b - (zlen pre + a)) with (b - a) by lia. f_equal.
  replace (Z.to_nat (zlen pre + a)) with (length pre + Z.to_nat a)%nat by (unfold zlen; lia).
  rewrite drop_app_ge by lia. f_equal. lia.
Qed.

Lemma half_skip (pre l : bytes) a : 0 <= a -> half (pre ++ l) (zlen pre + a) = half l a.
Proof. intros Ha. unfold half. by rewrite <- Z.add_assoc, get_slice_skip. Qed.
Lemma word_skip (pre l : bytes) a : 0 <= a -> word (pre ++ l) (zlen pre + a) = word l a.
Proof. intros Ha. unfold word. by rewrite <- Z.add_assoc, get_slice_skip. Qed.

Lemma half_Some l a v : half l a = Some v -> 0 <= a /\ a + 2 <= zlen l.
Proof.
  unfold half. destruct (get_slice l a (a + 2)) as [s|] eqn:Hs; simpl; [|done]. intros _.
  apply get_slice_Some in Hs. lia.
Qed.

Lemma word_Some l a v : bytes_ok l -> word l a = Some v -> 0 <= a /\ a + 4 <= zlen l /\ is_u32 v.
Proof.
  unfold word. intros Hl. destruct (get_slice l a (a + 4)) as [s|] eqn:Hs; simpl; [|done]. intros [= <-].
  apply get_slice_Some in Hs as (Ha & Hb & ->). split_and!; [lia|lia|].
  assert (bytes_ok (sub l a (a + 4))) by (by apply bytes_ok_sub). apply u32_ne_range; by apply byte_at_range.
Qed.

(** ** Buffers of known length, byte by byte *)

Lemma list4 (o : bytes) : zlen o = 4 -> exists a b c d, o = [a; b; c; d].
Proof. destruct o as [|a [|b [|c [|d [|]]]]]; intros Ho; unfold zlen in Ho; simpl in Ho; try lia. by exists a, b, c, d. Qed.

Lemma list16 (o : bytes) : zlen o = 16 ->
  exists a b c d, o = a ++ b ++ c ++ d /\ zlen a = 4 /\ zlen b = 4 /\ zlen c = 4 /\ zlen d = 4.
Proof.
  intros Ho. exists (take 4 o), (take 4 (drop 4 o)), (take 4 (drop 8 o)), (drop 12 o).
  split; [|unfold zlen in *; rewrite !length_take, !length_drop; lia].
  by rewrite <- (take_drop 4 o) at 1; rewrite <- (take_drop 4 (drop 4 o)) at 1;
    rewrite drop_drop; rewrite <- (take_drop 4 (drop (4 + 4) o)) at 1; rewrite drop_drop.
Qed.

Lemma ne32_parts v : is_u32 v -> exists a b c d, ne32 v = [a; b; c; d] /\ u32_ne a b c d = v.
Proof.
  intros Hv. unfold ne32, u32_ne. pose proof (u32_be_be32 v Hv) as He. unfold be32.
  destruct big_endian; eexists _, _, _, _; (split; [reflexivity|exact He]).
Qed.

Lemma be16_parts v : is_u16 v -> exists a b, be16 v = [a; b] /\ u16_be a b = v.
Proof. intros Hv. eexists _, _. split; [reflexivity|exact (u16_be_be16 v Hv)]. Qed.
End Native.

(** Every buffer of known length laid out byte by byte, and every integer as its bytes. *)
Ltac lay_out :=
  repeat match goal with
  | H : ip_wf (V4 ?o) |- _ => destruct H as [_ H]; simpl in H; apply list4 in H as (? & ? & ? & ? & ->)
  | H : ip_wf (V6 ?o) |- _ => destruct H as [_ H]; simpl in H; apply list16 in H as (? & ? & ? & ? & -> & H & ? & ? & ?)
  | H : zlen ?o = 4 |- _ => apply list4 in H as (? & ? & ? & ? & ->)
  | H : is_u16 ?v |- _ => apply be16_parts in H as (? & ? & -> & <-)
  | H : is_u32 ?v |- _ => apply ne32_parts in H as (? & ? & ? & ? & -> & <-)
  end.

(** A little-endian host. *)
Definition little_endian : ByteOrder := false.
