(* ===== verification/ProcEvents.v ===== *)
(** * The proc connector's messages (talpid-app-routing/src/owner/proc_events.rs)

    The requests that subscribe to the kernel's process events, the parser of
    its datagrams, and the numbering that tells a lost event. *)

From S2P Require Import Prelude Native.
Open Scope Z_scope.

Definition NLMSG_HDR_LEN : Z := 16.
Definition NLMSG_DONE : Z := 3.
Definition CN_MSG_LEN : Z := 20.
Definition CN_IDX_PROC : Z := 1.
Definition CN_VAL_PROC : Z := 1.
Definition PROC_CN_MCAST_LISTEN : Z := 1.
Definition PROC_CN_MCAST_IGNORE : Z := 2.
Definition PROC_EVENT_NONE : Z := 0.
Definition PROC_EVENT_FORK : Z := 1.
Definition PROC_EVENT_EXEC : Z := 2.
Definition PROC_EVENT_EXIT : Z := 2147483648.
Definition EVENT_DATA_AT : Z := 16.

Inductive Event : Type := Changed (tgid : Z) | Other | Acknowledged (ack error : Z).
Record Message : Type := mkMessage { cpu : Z; sequence : Z; event : Event }.

Section ProcEvents.
Context `{!ByteOrder}.

Definition request (sequence ack operation : Z) : bytes :=
  ne32 (NLMSG_HDR_LEN + CN_MSG_LEN + 4) ++ ne16 NLMSG_DONE ++ ne16 0 ++ ne32 sequence ++ ne32 0
  ++ ne32 CN_IDX_PROC ++ ne32 CN_VAL_PROC ++ ne32 sequence ++ ne32 ack ++ ne16 4 ++ ne16 0 ++ ne32 operation.

Definition listen_request (sequence ack : Z) : bytes := request sequence ack PROC_CN_MCAST_LISTEN.
Definition ignore_request (sequence : Z) : bytes := request sequence 0 PROC_CN_MCAST_IGNORE.

Definition message (m : bytes) : option Message :=
  idx ← word m 0;
  if negb (idx =? CN_IDX_PROC) then None else
  val ← word m 4;
  if negb (val =? CN_VAL_PROC) then None else
  sequence ← word m 8;
  ack ← word m 12;
  proc_event ← get_slice m CN_MSG_LEN (zlen m);
  cpu ← word proc_event 4;
  let data at_ := word proc_event (EVENT_DATA_AT + at_) in
  what ← word proc_event 0;
  event ←
    (if what =? PROC_EVENT_NONE then error ← data 0; Some (Acknowledged ack error)
     else if what =? PROC_EVENT_FORK then
       child_pid ← data 8; child_tgid ← data 12;
       Some (if child_pid =? child_tgid then Changed child_tgid else Other)
     else if what =? PROC_EVENT_EXEC then tgid ← data 4; Some (Changed tgid)
     else if what =? PROC_EVENT_EXIT then
       pid ← data 0; tgid ← data 4;
       Some (if pid =? tgid then Changed tgid else Other)
     else Some Other);
  Some (mkMessage cpu sequence event).

(** The loop of [parse], a turn of which takes at least a header off [rest]; slicing out of range
    panics. *)
Fixpoint parse_loop {E : Type} (fuel : nat) (rest : bytes) (messages : list Message) : comp E (list Message) :=
  match fuel with
  | O => Ok messages
  | S fuel =>
      if zlen rest <? NLMSG_HDR_LEN then Ok messages else
      let length := default 0 (word rest 0) in
      if (length <? NLMSG_HDR_LEN) || (zlen rest <? length) then Ok messages else
      body ← slice rest NLMSG_HDR_LEN length;
      let messages := match message body with Some m => messages ++ [m] | None => messages end in
      rest ← slice rest (Z.min (next_multiple_of length 4) (zlen rest)) (zlen rest);
      parse_loop fuel rest messages
  end.

Definition parse {E : Type} (datagram : bytes) (messages : list Message) : comp E (list Message) :=
  parse_loop (length datagram) datagram messages.

(** [Sequences]: the next number expected from each CPU. *)
Abbreviation Sequences := (gmap Z Z) (only parsing).

Definition continues (next : Sequences) (m : Message) : Sequences * bool :=
  match event m with
  | Acknowledged _ _ => (next, true)
  | _ =>
      (<[cpu m := wrap32 (sequence m + 1)]> next,
       match next !! cpu m with None => true | Some expected => expected =? sequence m end)
  end.

Definition sequences_clear (next : Sequences) : Sequences := ∅.
End ProcEvents.

(** ** Theorems *)

Section Parsing.
Context `{!ByteOrder}.

Lemma slice_rest {E : Type} (l : bytes) a : 0 <= a <= zlen l -> @slice E l a (zlen l) = Ok (drop (Z.to_nat a) l).
Proof.
  intros Ha. rewrite slice_ok by lia. f_equal. unfold sub. apply take_ge. rewrite length_drop. unfold zlen in *. lia.
Qed.

(** The loop, unrolled once more. *)
Lemma parse_loop_step {E : Type} fuel (rest : bytes) messages :
  @parse_loop _ E (S fuel) rest messages =
    let length := default 0 (word rest 0) in
    if (zlen rest <? NLMSG_HDR_LEN) || (length <? NLMSG_HDR_LEN) || (zlen rest <? length) then Ok messages else
    parse_loop fuel (drop (Z.to_nat (Z.min (next_multiple_of length 4) (zlen rest))) rest)
      (match message (sub rest NLMSG_HDR_LEN length) with Some m => messages ++ [m] | None => messages end).
Proof.
  cbn [parse_loop]. cbv zeta. destruct (Z.ltb_spec (zlen rest) NLMSG_HDR_LEN); [done|]. cbn [orb].
  destruct (Z.ltb_spec (default 0 (word rest 0)) NLMSG_HDR_LEN); [done|].
  destruct (Z.ltb_spec (zlen rest) (default 0 (word rest 0))); [done|]. cbn [orb].
  unfold NLMSG_HDR_LEN in *. rewrite (slice_ok rest 16) by lia. rewrite bind_Ok.
  pose proof (next_multiple_of_ge (default 0 (word rest 0)) 4 ltac:(lia)).
  rewrite slice_rest by lia. by rewrite bind_Ok.
Qed.

(** Any two amounts of fuel that cover the datagram agree. *)
Lemma parse_loop_fuel {E : Type} fuel fuel' (rest : bytes) messages :
  (length rest <= fuel)%nat -> (length rest <= fuel')%nat ->
  @parse_loop _ E fuel rest messages = parse_loop fuel' rest messages.
Proof.
  revert fuel' rest messages. induction fuel as [|fuel IH]; intros fuel' rest messages Hf Hf'.
  { assert (rest = []) as -> by (destruct rest; simpl in *; [done|lia]). by destruct fuel'. }
  destruct fuel' as [|fuel'].
  { by assert (rest = []) as -> by (destruct rest; simpl in *; [done|lia]). }
  rewrite !parse_loop_step. cbv zeta.
  destruct (Z.ltb_spec (zlen rest) NLMSG_HDR_LEN); [done|]. cbn [orb].
  destruct (Z.ltb_spec (default 0 (word rest 0)) NLMSG_HDR_LEN); [done|].
  destruct (Z.ltb_spec (zlen rest) (default 0 (word rest 0))); [done|]. cbn [orb].
  pose proof (next_multiple_of_ge (default 0 (word rest 0)) 4 ltac:(lia)). unfold NLMSG_HDR_LEN, zlen in *.
  apply IH; rewrite length_drop; lia.
Qed.

Lemma parse_total {E : Type} fuel (rest : bytes) messages :
  exists found, @parse_loop _ E fuel rest messages = Ok (messages ++ found).
Proof.
  revert rest messages. induction fuel as [|fuel IH]; intros rest messages.
  { exists []. by rewrite app_nil_r. }
  rewrite parse_loop_step. cbv zeta. destruct (_ || _); [exists []; by rewrite app_nil_r|].
  destruct (message _) as [m|]; [|apply IH]. edestruct IH as [found ->]. exists (m :: found).
  by rewrite <- (assoc_L (++)).
Qed.

(** One netlink message, padded as the kernel pads it. *)
Definition packed (body : bytes) (padding : bytes) : bytes :=
  ne32 (16 + zlen body) ++ ne16 NLMSG_DONE ++ ne16 0 ++ ne32 0 ++ ne32 0 ++ body ++ padding.

(** No datagram stops the parser, and it reads every message of one.  Whatever its bytes, parsing
    returns and only appends to what was read before; and a datagram made of netlink messages, each
    padded to four bytes, yields what each says, in order. *)
Theorem parse_reads_every_message (datagram : bytes) (bodies : list bytes) (before : list Message)
    (Hsize : Forall (fun b => zlen b < 4294967280) bodies) :
  (exists found, @parse _ Empty_set datagram before = Ok (before ++ found)) /\
  @parse _ Empty_set (concat ((fun b => packed b (replicate (Z.to_nat (next_multiple_of (zlen b) 4 - zlen b)) 0)) <$> bodies)) before
    = Ok (before ++ omap message bodies).
Proof.
  split; [apply parse_total|]. unfold parse.
  assert (forall fuel messages,
    let d := concat ((fun b => packed b (replicate (Z.to_nat (next_multiple_of (zlen b) 4 - zlen b)) 0)) <$> bodies) in
    (length d <= fuel)%nat -> @parse_loop _ Empty_set fuel d messages = Ok (messages ++ omap message bodies)) as Hloop;
    [|by apply Hloop].
  induction Hsize as [|b bodies Hb _ IH]; intros fuel messages; cbn [fmap list_fmap concat]; cbv zeta.
  { intros _. rewrite app_nil_r. by destruct fuel. }
  set (rest := concat _) in *. set (pad := replicate _ 0). intros Hfuel.
  pose proof (next_multiple_of_ge (zlen b) 4 ltac:(lia)) as Hge. pose proof (zlen_nonneg b) as Hnn.
  assert (next_multiple_of (16 + zlen b) 4 = 16 + next_multiple_of (zlen b) 4) as Hnext.
  { unfold next_multiple_of. replace (16 + zlen b + 4 - 1) with (zlen b + 4 - 1 + 4 * 4) by lia.
    rewrite Z.div_add by lia. lia. }
  assert (zlen pad = next_multiple_of (zlen b) 4 - zlen b) as Hpad by (unfold zlen, pad; rewrite length_replicate; unfold zlen in *; lia).
  set (header := ne32 (16 + zlen b) ++ ne16 NLMSG_DONE ++ ne16 0 ++ ne32 0 ++ ne32 0).
  assert (zlen header = 16) as Hh by (unfold header, zlen; rewrite !length_app, !ne32_length, !ne16_length; done).
  assert (packed b pad ++ rest = header ++ b ++ pad ++ rest) as Hsplit.
  { unfold packed, header. by rewrite <- !(assoc_L (++)). }
  rewrite Hsplit in *. assert (zlen (header ++ b ++ pad ++ rest) = 16 + next_multiple_of (zlen b) 4 + zlen rest) as Hz.
  { rewrite !zlen_app. lia. }
  pose proof (zlen_nonneg rest). destruct fuel as [|fuel]; [unfold zlen in *; lia|]. rewrite parse_loop_step. cbv zeta.
  assert (word (header ++ b ++ pad ++ rest) 0 = Some (16 + zlen b)) as Hw.
  { unfold header. rewrite <- (assoc_L (++)). apply (word_at []); [done|]. unfold is_u32. lia. }
  rewrite Hw. cbn [default id]. rewrite Hz. unfold NLMSG_HDR_LEN.
  rewrite !(proj2 (Z.ltb_ge _ _)) by lia. cbn [orb].
  assert (sub (header ++ b ++ pad ++ rest) 16 (16 + zlen b) = b) as ->.
  { pose proof (get_slice_at header b (pad ++ rest) 16 (16 + zlen b) ltac:(lia) ltac:(lia)) as Hs.
    by apply get_slice_Some in Hs as (_ & _ & Hs). }
  rewrite Hnext, Z.min_l by lia.
  replace (header ++ b ++ pad ++ rest) with ((header ++ b ++ pad) ++ rest) by (by rewrite <- !(assoc_L (++))).
  assert (Z.to_nat (16 + next_multiple_of (zlen b) 4) = length (header ++ b ++ pad)) as ->.
  { rewrite !length_app. unfold zlen in *. lia. }
  rewrite drop_app_length. specialize (IH fuel). cbv zeta in IH.
  assert (length rest <= fuel)%nat as Hf by (rewrite !length_app in Hfuel; unfold zlen in *; lia).
  cbn [omap list_omap]. destruct (message b) as [m|]; [|by apply IH].
  rewrite IH by done. by rewrite <- (assoc_L (++)).
Qed.

End Parsing.

Lemma parse_reads_every_message_witness :
  @parse little_endian Empty_set (concat ((fun b => @packed little_endian b
    (replicate (Z.to_nat (next_multiple_of (zlen b) 4 - zlen b)) 0)) <$> [[1; 2; 3]; [4]])) [] = Ok [].
Proof.
  exact (proj2 (@parse_reads_every_message little_endian [] [[1; 2; 3]; [4]] []
    ltac:(repeat constructor; vm_compute; done))).
Defined.

(** ** The numbering *)

(** What [continues] said of each message of a stream, from the first one heard on. *)
Fixpoint heard (next : gmap Z Z) (messages : list Message) : gmap Z Z * list bool :=
  match messages with
  | [] => (next, [])
  | m :: messages =>
      let '(next, said) := continues next m in
      let '(next, rest) := heard next messages in (next, said :: rest)
  end.

(** The number of the last event of a CPU, the acknowledgements apart. *)
Definition numbered (m : Message) : bool := match event m with Acknowledged _ _ => false | _ => true end.
Definition last_number (c : Z) (messages : list Message) : option Z :=
  sequence <$> last (filter (fun m => numbered m = true /\ cpu m = c) messages).

Lemma continues_numbered next m :
  continues next m =
    if numbered m then
      (<[cpu m := wrap32 (sequence m + 1)]> next,
       match next !! cpu m with None => true | Some expected => expected =? sequence m end)
    else (next, true).
Proof. unfold continues, numbered. by destruct (event m). Qed.

Lemma heard_app next l1 l2 :
  heard next (l1 ++ l2) = let '(next1, said1) := heard next l1 in
                          let '(next2, said2) := heard next1 l2 in (next2, said1 ++ said2).
Proof.
  revert next. induction l1 as [|m l1 IH]; intros next; simpl; [by destruct (heard next l2)|].
  destruct (continues next m) as [next1 said]. rewrite IH. destruct (heard next1 l1) as [next2 said1].
  by destruct (heard next2 l2).
Qed.

Lemma heard_next messages c : (heard ∅ messages).1 !! c = (fun n => wrap32 (n + 1)) <$> last_number c messages.
Proof.
  induction messages as [|m messages IH] using rev_ind; [done|].
  rewrite heard_app. destruct (heard ∅ messages) as [next said]. simpl in *. rewrite continues_numbered.
  unfold last_number in *. rewrite filter_app. destruct (numbered m) eqn:Hn; simpl.
  - destruct (decide (cpu m = c)) as [<-|Hc].
    + rewrite lookup_insert_eq, filter_cons_True, filter_nil, last_snoc by done. done.
    + rewrite lookup_insert_ne by done. rewrite filter_cons_False by (by intros [_ ?]).
      by rewrite filter_nil, app_nil_r.
  - rewrite filter_cons_False by (intros [? _]; congruence). by rewrite filter_nil, app_nil_r.
Qed.

(** A lost event is told by the numbers of its CPU, and nothing else is.  Of a stream of messages
    heard since the count was cleared, [continues] says [false] of exactly the events that do not
    bear the number after the last one of their CPU, the counter wrapping; the first event of a CPU,
    the events of the other CPUs and the acknowledgements count for nothing. *)
Theorem sequences_tell_gaps (before : list Message) (m : Message) :
  (continues (heard ∅ before).1 m).2 =
    match last_number (cpu m) before with
    | Some n => negb (numbered m) || (wrap32 (n + 1) =? sequence m)
    | None => true
    end /\
  (heard ∅ (before ++ [m])).2 = (heard ∅ before).2 ++ [(continues (heard ∅ before).1 m).2].
Proof.
  rewrite continues_numbered, heard_next. split.
  - destruct (last_number (cpu m) before); by destruct (numbered m).
  - rewrite heard_app. pose proof (heard_next before (cpu m)) as Hnext.
    destruct (heard ∅ before) as [next said]. simpl in *. rewrite continues_numbered, Hnext. by destruct (numbered m).
Qed.
