(* ===== verification/WinTables.v ===== *)
(** * The Windows socket tables (talpid-app-routing/src/owner/win_tables.rs)

    The owner-pid tables of the IP helper, read as bytes into the snapshot of
    [Owner].  A [usize] has 64 bits. *)

From S2P Require Import Prelude Net Flow Owner Native.
Open Scope Z_scope.

Inductive TableKind : Type := Tcp4 | Tcp6 | Udp4 | Udp6.

Definition row_len (kind : TableKind) : Z :=
  match kind with Tcp4 => 24 | Tcp6 => 56 | Udp4 => 12 | Udp6 => 28 end.

(** [usize::checked_mul] *)
Definition checked_mul (a b : Z) : option Z := if a * b <? 18446744073709551616 then Some (a * b) else None.

(** [chunks_exact(n)], a chunk per turn. *)
Fixpoint chunks_exact (fuel : nat) (n : Z) (l : bytes) : list bytes :=
  match fuel with
  | O => []
  | S fuel => if zlen l <? n then [] else take (Z.to_nat n) l :: chunks_exact fuel n (drop (Z.to_nat n) l)
  end.

Section WinTables.
Context `{!ByteOrder} {E : Type}.

Definition row_v4 (row : bytes) (at_ : Z) : comp E IpAddr :=
  a ← index row at_; b ← index row (at_ + 1); c ← index row (at_ + 2); d ← index row (at_ + 3);
  Ok (V4 [a; b; c; d]).
Definition row_v6 (row : bytes) (at_ : Z) : comp E IpAddr :=
  octets ← slice row at_ (at_ + 16); if zlen octets =? 16 then Ok (V6 octets) else Panic.
Definition row_port (row : bytes) (at_ : Z) : comp E Z :=
  a ← index row at_; b ← index row (at_ + 1); Ok (u16_be a b).
Definition row_dword (row : bytes) (at_ : Z) : comp E Z :=
  a ← index row at_; b ← index row (at_ + 1); c ← index row (at_ + 2); d ← index row (at_ + 3);
  Ok (u32_ne a b c d).

Definition record (row : bytes) (kind : TableKind) : comp E SocketRecord :=
  match kind with
  | Tcp4 => a ← row_v4 row 4; p ← row_port row 8; b ← row_v4 row 12; q ← row_port row 16; pid ← row_dword row 20;
            Ok (mkSocketRecord Tcp (mkSocketAddr a p) (Some (mkSocketAddr b q)) pid)
  | Tcp6 => a ← row_v6 row 0; p ← row_port row 20; b ← row_v6 row 24; q ← row_port row 44; pid ← row_dword row 52;
            Ok (mkSocketRecord Tcp (mkSocketAddr a p) (Some (mkSocketAddr b q)) pid)
  | Udp4 => a ← row_v4 row 0; p ← row_port row 4; pid ← row_dword row 8;
            Ok (mkSocketRecord Udp (mkSocketAddr a p) None pid)
  | Udp6 => a ← row_v6 row 0; p ← row_port row 20; pid ← row_dword row 24;
            Ok (mkSocketRecord Udp (mkSocketAddr a p) None pid)
  end.

Fixpoint push_rows (kind : TableKind) (rows : list bytes) (table : SocketTable) : comp E SocketTable :=
  match rows with
  | [] => Ok table
  | row :: rows => r ← record row kind; push_rows kind rows (sockets_push table r)
  end.
End WinTables.

Definition parse `{!ByteOrder} (buf : bytes) (kind : TableKind) (table : SocketTable) : comp OwnerError SocketTable :=
  count ← ok_or (word buf 0) UnknownLayout;
  rows ← ok_or (len ← checked_mul count (row_len kind); get_slice buf 4 (4 + len)) UnknownLayout;
  push_rows kind (chunks_exact (length rows) (row_len kind) rows) table.

(** ** The layout *)

Section Layout.
Context `{!ByteOrder} {E : Type}.
Implicit Types r : SocketRecord.

(** The row of a socket, as Windows lays it out: its state or its scope ids where it has them. *)
Definition row_of (kind : TableKind) (filler : Z) r : bytes :=
  let addr a := octets (ip a) in let prt a := be16 (port a) ++ [0; 0] in
  let remote := default (mkSocketAddr (V4 []) 0) (rec_remote r) in
  match kind with
  | Tcp4 => ne32 filler ++ addr (rec_local r) ++ prt (rec_local r) ++ addr remote ++ prt remote ++ ne32 (rec_pid r)
  | Tcp6 => addr (rec_local r) ++ ne32 filler ++ prt (rec_local r) ++ addr remote ++ ne32 filler ++ prt remote
              ++ ne32 filler ++ ne32 (rec_pid r)
  | Udp4 => addr (rec_local r) ++ prt (rec_local r) ++ ne32 (rec_pid r)
  | Udp6 => addr (rec_local r) ++ ne32 filler ++ prt (rec_local r) ++ ne32 (rec_pid r)
  end.

(** The sockets a table lists. *)
Definition fits_kind (kind : TableKind) r : Prop :=
  let end_ok (a : SocketAddr) := ip_wf (ip a) /\ is_u16 (port a) /\
    match kind, ip a with Tcp4, V4 _ | Udp4, V4 _ | Tcp6, V6 _ | Udp6, V6 _ => True | _, _ => False end in
  is_u32 (rec_pid r) /\ end_ok (rec_local r) /\
  match kind, rec_transport r, rec_remote r with
  | Tcp4, Tcp, Some remote | Tcp6, Tcp, Some remote => end_ok remote
  | Udp4, Udp, None | Udp6, Udp, None => True
  | _, _, _ => False
  end.

(** A row is read back as the socket it was laid out for. *)
Lemma record_row kind filler r : is_u32 filler -> fits_kind kind r -> @record _ E (row_of kind filler r) kind = Ok r.
Proof.
  destruct r as [tr [la lp] rem pid]. unfold fits_kind. cbn [rec_pid rec_local rec_remote rec_transport ip port].
  intros Hfill (Hpid & (Hla & Hlp & Hlk) & Hrest). unfold row_of.
  destruct kind, tr, rem as [[ra rp]|]; try done; destruct la as [lo|lo]; try done;
    cbn [ip port] in *; try (destruct Hrest as (Hra & Hrp & Hrk); destruct ra as [ro|ro]; try done);
    cbn [octets ip port default rec_local rec_remote rec_pid id] in *; clear Hlk; lay_out; reflexivity.
Qed.
End Layout.

(** ** The tables *)

Section Tables.
Context `{!ByteOrder}.
Implicit Types r : SocketRecord.

Lemma record_total {E : Type} row kind : zlen row = row_len kind -> exists r, @record _ E row kind = Ok r.
Proof.
  intros Hl. destruct kind; simpl in Hl; unfold record, row_v4, row_v6, row_port, row_dword; in_range;
    rewrite ?zlen_sub by lia; simpl; eauto.
Qed.

Lemma chunks_spec n rest count fuel : 0 < n -> zlen rest = Z.of_nat count * n -> (count <= fuel)%nat ->
  length (chunks_exact fuel n rest) = count /\ Forall (fun row => zlen row = n) (chunks_exact fuel n rest).
Proof.
  intros Hn. revert rest fuel. induction count as [|count IH]; intros rest fuel Hl Hf.
  { destruct fuel; simpl; [done|]. rewrite (proj2 (Z.ltb_lt _ _)) by lia. done. }
  destruct fuel as [|fuel]; [lia|]. cbn [chunks_exact]. destruct (Z.ltb_spec (zlen rest) n); [nia|].
  destruct (IH (drop (Z.to_nat n) rest) fuel) as [Hlen Hall]; [unfold zlen in *; rewrite length_drop; lia|lia|].
  split; [cbn [length]; by rewrite Hlen|]. constructor; [unfold zlen in *; rewrite length_take; nia|done].
Qed.

Lemma chunks_concat n (rows : list bytes) fuel : 0 < n -> Forall (fun row => zlen row = n) rows -> (length rows <= fuel)%nat ->
  chunks_exact fuel n (concat rows) = rows.
Proof.
  intros Hn Hall. revert fuel. induction Hall as [|row rows Hr _ IH]; intros fuel Hf.
  { destruct fuel; [done|]. cbn [concat chunks_exact]. by rewrite (proj2 (Z.ltb_lt (zlen []) n)) by (unfold zlen; simpl; lia). }
  destruct fuel as [|fuel]; simpl in Hf; [lia|]. cbn [concat chunks_exact]. rewrite zlen_app.
  pose proof (zlen_nonneg (concat rows)). rewrite (proj2 (Z.ltb_ge _ _)) by lia.
  replace (Z.to_nat n) with (length row) by (unfold zlen in *; lia). rewrite take_app_length, drop_app_length.
  by rewrite IH by lia.
Qed.

Lemma push_rows_total {E : Type} kind rows table : Forall (fun row => zlen row = row_len kind) rows ->
  exists rs, length rs = length rows /\ @push_rows _ E kind rows table = Ok (foldl sockets_push table rs).
Proof.
  intros Hall. revert table. induction Hall as [|row rows Hr _ IH]; intros table; [by exists []|].
  destruct (@record_total E row kind Hr) as [r Hrec]. cbn [push_rows]. rewrite Hrec, bind_Ok.
  destruct (IH (sockets_push table r)) as (rs & Hl & ->). exists (r :: rs). split; [simpl; lia|done].
Qed.

Lemma push_rows_read {E : Type} kind filler rs table : is_u32 filler -> Forall (fits_kind kind) rs ->
  @push_rows _ E kind (row_of kind filler <$> rs) table = Ok (foldl sockets_push table rs).
Proof.
  intros Hf Hall. revert table. induction Hall as [|r rs Hr _ IH]; intros table; [done|].
  cbn [fmap list_fmap push_rows]. rewrite record_row by done. rewrite bind_Ok. apply IH.
Qed.

Lemma row_of_length kind filler r : fits_kind kind r -> zlen (row_of kind filler r) = row_len kind.
Proof.
  destruct r as [tr [la lp] rem pid]. unfold fits_kind. cbn [rec_pid rec_local rec_remote rec_transport ip port].
  intros (Hpid & (Hla & Hlp & Hlk) & Hrest). unfold row_of.
  destruct kind, tr, rem as [[ra rp]|]; try done; destruct la as [lo|lo]; try done;
    cbn [ip port] in *; try (destruct Hrest as (Hra & Hrp & Hrk); destruct ra as [ro|ro]; try done);
    cbn [octets ip port default rec_local rec_remote rec_pid id] in *;
    repeat match goal with H : ip_wf _ |- _ => destruct H as [_ H]; simpl in H end;
    unfold zlen in *; rewrite !length_app, ?ne32_length; simpl; lia.
Qed.

Lemma row_len_pos kind : 0 < row_len kind <= 56.
Proof. destruct kind; simpl; lia. Qed.

(** A table of the IP helper is read whole or refused.  No buffer makes the parser panic: one
    whose row count runs past it (or that has none) is refused and adds nothing, any other adds one
    socket per row; and a table laid out as Windows documents it gives back exactly the sockets it
    lists, in order, whatever their states, scopes and what follows it. *)
Theorem windows_table_read (buf : bytes) (kind : TableKind) (table : SocketTable) (rs : list SocketRecord)
    (filler : Z) (rest : bytes)
    (Hb : bytes_ok buf) (Hf : is_u32 filler) (Hrs : Forall (fits_kind kind) rs) (Hn : zlen rs < 4294967296) :
  match word buf 0 with
  | Some count =>
      if 4 + count * row_len kind <=? zlen buf
      then exists rows, zlen rows = count /\ parse buf kind table = Ok (foldl sockets_push table rows)
      else parse buf kind table = Err UnknownLayout
  | None => parse buf kind table = Err UnknownLayout
  end /\
  parse (ne32 (zlen rs) ++ concat (row_of kind filler <$> rs) ++ rest) kind table = Ok (foldl sockets_push table rs).
Proof.
  pose proof (row_len_pos kind) as Hlen.
  assert (forall count, is_u32 count -> checked_mul count (row_len kind) = Some (count * row_len kind)) as Hmul.
  { intros count Hc. unfold checked_mul. by rewrite (proj2 (Z.ltb_lt _ _)) by (unfold is_u32 in *; nia). }
  split.
  - unfold parse. destruct (word buf 0) as [count|] eqn:Hw; [|done]. cbn [ok_or]. rewrite bind_Ok.
    apply word_Some in Hw as (_ & H4 & Hc); [|done]. rewrite Hmul by done. cbn [mbind option_bind].
    destruct (Z.leb_spec (4 + count * row_len kind) (zlen buf)) as [Hle|Hgt].
    + unfold is_u32 in Hc. rewrite get_slice_ok by nia. cbn [ok_or]. rewrite bind_Ok.
      set (rows := sub buf 4 (4 + count * row_len kind)).
      assert (zlen rows = Z.of_nat (Z.to_nat count) * row_len kind) as Hz.
      { unfold rows. rewrite zlen_sub by nia. rewrite Z2Nat.id by lia. lia. }
      destruct (chunks_spec (row_len kind) rows (Z.to_nat count) (length rows)) as [Hlc Hall];
        [lia|done|unfold zlen in Hz; nia|].
      destruct (@push_rows_total OwnerError kind _ table Hall) as (rs' & Hl & ->). exists rs'. split; [|done].
      unfold zlen. rewrite Hl, Hlc. unfold is_u32 in Hc. lia.
    + unfold get_slice. rewrite (proj2 (Z.leb_gt (4 + count * row_len kind) (zlen buf))) by lia.
      by rewrite andb_false_r.
  - unfold parse. pose proof (zlen_nonneg rs).
    pose proof (word_at [] (concat (row_of kind filler <$> rs) ++ rest) (zlen rs) 0 eq_refl
      ltac:(unfold is_u32; lia)) as Hw. cbn [app] in Hw. rewrite Hw. cbn [ok_or]. rewrite bind_Ok.
    rewrite Hmul by (unfold is_u32; lia). cbn [mbind option_bind].
    assert (zlen (concat (row_of kind filler <$> rs)) = zlen rs * row_len kind) as Hz.
    { clear -Hrs. induction Hrs as [|r rs Hr _ IH]; [done|]. cbn [fmap list_fmap concat]. rewrite zlen_app, zlen_cons.
      rewrite row_of_length by done. change (list_fmap _ _ (row_of kind filler) rs) with (row_of kind filler <$> rs). lia. }
    rewrite (get_slice_at (ne32 (zlen rs)) (concat (row_of kind filler <$> rs)) rest);
      [|by unfold zlen; rewrite ne32_length|by rewrite Hz].
    cbn [ok_or]. rewrite bind_Ok. rewrite chunks_concat; [by apply push_rows_read|lia| |].
    + rewrite Forall_fmap. eapply Forall_impl; [exact Hrs|]. intros r Hr. by apply row_of_length.
    + rewrite length_fmap. unfold zlen in *. nia.
Qed.
End Tables.

Definition sample_socket : SocketRecord :=
  mkSocketRecord Tcp (mkSocketAddr (V4 [10; 64; 0; 2]) 50000) (Some (mkSocketAddr (V4 [198; 51; 100; 9]) 443)) 12.

Lemma windows_table_read_witness :
  @parse little_endian (@ne32 little_endian 1 ++ concat (@row_of little_endian Tcp4 5 <$> [sample_socket]) ++ []) Tcp4 []
    = Ok [sample_socket].
Proof.
  exact (proj2 (@windows_table_read little_endian [] Tcp4 [] [sample_socket] 5 []
    ltac:(constructor) ltac:(unfold is_u32; lia)
    ltac:(repeat constructor; unfold is_u32, is_u16, is_byte; simpl; lia) ltac:(reflexivity))).
Defined.
