(* ===== verification/Conntrack.v ===== *)
(** * The conntrack messages (talpid-app-routing/src/owner/conntrack.rs)

    What the Linux resolver asks the kernel about a flow the firewall
    translated, and how it reads the answer: the netlink attributes, the tuple
    they name, the errors. *)

From S2P Require Import Prelude Net Flow Native.
Open Scope Z_scope.

Definition NLMSG_HDR_LEN : Z := 16.
Definition NFGENMSG_LEN : Z := 4.
Definition NLMSG_ERROR : Z := 2.
Definition NLM_F_REQUEST : Z := 1.
Definition NFNL_SUBSYS_CTNETLINK : Z := 1.
Definition IPCTNL_MSG_CT_NEW : Z := 0.
Definition IPCTNL_MSG_CT_GET : Z := 1.
Definition NLA_F_NESTED : Z := 32768.
Definition NLA_TYPE_MASK : Z := 16383.
Definition CTA_TUPLE_ORIG : Z := 1.
Definition CTA_TUPLE_REPLY : Z := 2.
Definition CTA_TUPLE_IP : Z := 1.
Definition CTA_TUPLE_PROTO : Z := 2.
Definition CTA_IP_V4_SRC : Z := 1.
Definition CTA_IP_V4_DST : Z := 2.
Definition CTA_IP_V6_SRC : Z := 3.
Definition CTA_IP_V6_DST : Z := 4.
Definition CTA_PROTO_NUM : Z := 1.
Definition CTA_PROTO_SRC_PORT : Z := 2.
Definition CTA_PROTO_DST_PORT : Z := 3.
Definition AF_INET : Z := 2.
Definition AF_INET6 : Z := 10.
Definition IPPROTO_TCP : Z := 6.
Definition IPPROTO_UDP : Z := 17.
Definition EPERM : Z := 1.
Definition EINVAL : Z := 22.
Definition EOPNOTSUPP : Z := 95.

Inductive Reply : Type := Original (flow : FlowKey) | AsSeen | Refused | Other.

Definition aligned (length : Z) : Z := Z.land (length + 3) (Z.lnot 3).

(** [i32::wrapping_neg] *)
Definition wrapping_neg (v : Z) : Z := cast_signed32 (wrap32 (- v)).

(** [<[u8; N]>::try_from(l).ok()] *)
Definition octets_of (n : Z) (l : bytes) : option bytes := if zlen l =? n then Some l else None.

Section Conntrack.
Context `{!ByteOrder}.

Definition attribute (kind : Z) (payload : bytes) : bytes :=
  let length := 4 + zlen payload in
  ne16 (length mod 65536) ++ ne16 kind ++ payload ++ replicate (Z.to_nat (aligned length - length)) 0.

(** The loop of [find], a turn of which takes at least four bytes. *)
Fixpoint find_loop (fuel : nat) (attributes : bytes) (kind at_ : Z) : option bytes :=
  match fuel with
  | O => None
  | S fuel =>
      match half attributes at_, half attributes (at_ + 2) with
      | Some length, Some found =>
          payload ← get_slice attributes (at_ + 4) (at_ + Z.max length 4);
          if Z.land found NLA_TYPE_MASK =? kind then Some payload
          else if length <? 4 then None
          else find_loop fuel attributes kind (at_ + aligned length)
      | _, _ => None
      end
  end.

Definition find (attributes : bytes) (kind : Z) : option bytes := find_loop (length attributes) attributes kind 0.

Definition ends (tuple : bytes) : option (SocketAddr * SocketAddr) :=
  ip ← find tuple CTA_TUPLE_IP;
  proto ← find tuple CTA_TUPLE_PROTO;
  '(src, dst) ←
    match find ip CTA_IP_V4_SRC, find ip CTA_IP_V4_DST with
    | Some src, Some dst => src ← octets_of 4 src; dst ← octets_of 4 dst; Some (V4 src, V4 dst)
    | _, _ =>
        src ← (found ← find ip CTA_IP_V6_SRC; octets_of 16 found);
        dst ← (found ← find ip CTA_IP_V6_DST; octets_of 16 found);
        Some (V6 src, V6 dst)
    end;
  let port kind :=
    (found ← find proto kind; l ← octets_of 2 found; Some (u16_be (byte_at l 0) (byte_at l 1))) in
  src_port ← port CTA_PROTO_SRC_PORT;
  dst_port ← port CTA_PROTO_DST_PORT;
  Some (mkSocketAddr src src_port, mkSocketAddr dst dst_port).

Definition request (sequence : Z) (flow : FlowKey) : option bytes :=
  protocol ← match transport flow with Tcp => Some IPPROTO_TCP | Udp => Some IPPROTO_UDP | IcmpEcho => None end;
  '(family, src, dst) ←
    match ip (remote flow), ip (local flow) with
    | V4 src, V4 dst => Some (AF_INET, attribute CTA_IP_V4_SRC src, attribute CTA_IP_V4_DST dst)
    | V6 src, V6 dst => Some (AF_INET6, attribute CTA_IP_V6_SRC src, attribute CTA_IP_V6_DST dst)
    | _, _ => None
    end;
  let ip := attribute (Z.lor CTA_TUPLE_IP NLA_F_NESTED) (src ++ dst) in
  let proto := attribute (Z.lor CTA_TUPLE_PROTO NLA_F_NESTED)
    (attribute CTA_PROTO_NUM [protocol]
     ++ attribute CTA_PROTO_SRC_PORT (be16 (port (remote flow)))
     ++ attribute CTA_PROTO_DST_PORT (be16 (port (local flow)))) in
  let tuple := attribute (Z.lor CTA_TUPLE_REPLY NLA_F_NESTED) (ip ++ proto) in
  let length := NLMSG_HDR_LEN + NFGENMSG_LEN + zlen tuple in
  Some (ne32 (wrap32 length) ++ ne16 (Z.lor (Z.shiftl NFNL_SUBSYS_CTNETLINK 8) IPCTNL_MSG_CT_GET)
        ++ ne16 NLM_F_REQUEST ++ ne32 sequence ++ ne32 0 ++ [family; 0; 0; 0] ++ tuple).

Definition parse_reply (reply : bytes) (sequence : Z) (flow : FlowKey) : Reply :=
  match word reply 0, half reply 4, word reply 8 with
  | Some length, Some kind, Some seq =>
      if negb (seq =? sequence) then Other else
      match get_slice reply 0 length with
      | None => Other
      | Some message =>
          if kind =? NLMSG_ERROR then
            match (fun code => wrapping_neg (cast_signed32 code)) <$> word message NLMSG_HDR_LEN with
            | None => Other
            | Some errno =>
                if errno =? 0 then Other
                else if (errno =? EPERM) || (errno =? EINVAL) || (errno =? EOPNOTSUPP) then Refused
                else AsSeen
            end
          else if negb (kind =? Z.lor (Z.shiftl NFNL_SUBSYS_CTNETLINK 8) IPCTNL_MSG_CT_NEW) then Other
          else
            match get_slice message (NLMSG_HDR_LEN + NFGENMSG_LEN) (zlen message) with
            | None => Other
            | Some attributes =>
                let tuple kind := find attributes kind ≫= ends in
                match tuple CTA_TUPLE_ORIG, tuple CTA_TUPLE_REPLY with
                | Some original, Some reply =>
                    if negb (bool_decide (reply = (remote flow, local flow))) then AsSeen
                    else Original (mkFlowKey (transport flow) original.1 original.2)
                | _, _ => Other
                end
            end
      end
  | _, _, _ => Other
  end.
End Conntrack.

(** ** The attributes *)

Section Attributes.
Context `{!ByteOrder}.

Lemma aligned_spec n : 0 <= n -> n <= aligned n < n + 4 /\ aligned n = 4 * ((n + 3) / 4).
Proof.
  intros Hn. assert (aligned n = 4 * ((n + 3) / 4)) as ->.
  { unfold aligned. rewrite <- Z.ldiff_land. change (Z.ldiff (n + 3) (Z.ones 2) = 4 * ((n + 3) / 4)).
    rewrite Z.ldiff_ones_r, Z.shiftl_mul_pow2, Z.shiftr_div_pow2 by lia. change (2 ^ 2) with 4. lia. }
  pose proof (Z.div_mod (n + 3) 4 ltac:(lia)). pose proof (Z.mod_pos_bound (n + 3) 4). lia.
Qed.

Lemma attribute_length kind payload : zlen (attribute kind payload) = aligned (4 + zlen payload).
Proof.
  pose proof (zlen_nonneg payload). pose proof (aligned_spec (4 + zlen payload)) as [Ha _]; [lia|].
  unfold attribute, zlen in *. rewrite !length_app, !ne16_length, length_replicate. lia.
Qed.

Lemma half_range l a v : bytes_ok l -> half l a = Some v -> is_u16 v.
Proof.
  unfold half. intros Hl. destruct (get_slice l a (a + 2)) as [s|] eqn:Hs; simpl; [|done]. intros [= <-].
  apply get_slice_Some in Hs as (_ & _ & ->). apply u16_ne_range; by apply byte_at_range, bytes_ok_sub.
Qed.

(** Any fuel that covers what is left finds the same. *)
Lemma find_loop_fuel fuel fuel' l kind a :
  zlen l - a <= Z.of_nat fuel -> zlen l - a <= Z.of_nat fuel' ->
  find_loop fuel l kind a = find_loop fuel' l kind a.
Proof.
  revert fuel' a. induction fuel as [|fuel IH]; intros fuel' a Hf Hf'.
  - destruct fuel'; [done|]. cbn [find_loop]. destruct (half l a) eqn:Hh; [|done].
    apply half_Some in Hh. lia.
  - destruct fuel' as [|fuel'].
    { cbn [find_loop]. destruct (half l a) eqn:Hh; [|done]. apply half_Some in Hh. lia. }
    cbn [find_loop]. destruct (half l a) as [n|] eqn:Hh; [|done]. destruct (half l (a + 2)); [|done].
    destruct (get_slice l (a + 4) (a + n `max` 4)); simpl; [|done]. destruct (_ =? kind); [done|].
    destruct (Z.ltb_spec n 4); [done|]. pose proof (aligned_spec n) as [Ha _]; [lia|]. apply IH; lia.
Qed.

(** Looking past a prefix is looking in the rest. *)
Lemma find_loop_skip fuel (pre l : bytes) kind a :
  0 <= a -> find_loop fuel (pre ++ l) kind (zlen pre + a) = find_loop fuel l kind a.
Proof.
  revert a. induction fuel as [|fuel IH]; intros a Ha; [done|]. cbn [find_loop].
  rewrite <- !Z.add_assoc, !half_skip by lia. destruct (half l a) as [n|]; [|done]. destruct (half l (a + 2)); [|done].
  rewrite <- ?Z.add_assoc, get_slice_skip by lia.
  destruct (get_slice l (a + 4) (a + n `max` 4)); simpl; [|done]. destruct (_ =? kind); [done|].
  destruct (Z.ltb_spec n 4); [done|]. pose proof (aligned_spec n) as [Ha' _]; [lia|]. apply IH; lia.
Qed.

Lemma find_nil kind : find [] kind = None.
Proof. done. Qed.

(** An attribute is found by its kind, whatever its flags, or skipped. *)
Lemma find_attribute k payload rest kind : is_u16 k -> zlen payload < 65532 ->
  find (attribute k payload ++ rest) kind = if Z.land k NLA_TYPE_MASK =? kind then Some payload else find rest kind.
Proof.
  intros Hk Hp. pose proof (zlen_nonneg payload). pose proof (zlen_nonneg rest).
  pose proof (attribute_length k payload) as Hl. pose proof (aligned_spec (4 + zlen payload)) as [Ha _]; [lia|].
  unfold find. set (l := attribute k payload ++ rest).
  assert (zlen l = zlen (attribute k payload) + zlen rest) as Hz by apply zlen_app.
  rewrite (find_loop_fuel _ (S (length l))) by (unfold zlen; lia). cbn [find_loop].
  assert (l = ne16 (4 + zlen payload) ++ ne16 k ++ payload
    ++ replicate (Z.to_nat (aligned (4 + zlen payload) - (4 + zlen payload))) 0 ++ rest) as Hlay.
  { unfold l, attribute. rewrite Z.mod_small by lia. by rewrite <- !(assoc_L (++)). }
  assert (half l 0 = Some (4 + zlen payload)) as ->.
  { rewrite Hlay. apply (half_at []); [done|unfold is_u16; lia]. }
  assert (half l (0 + 2) = Some k) as ->.
  { rewrite Hlay. apply half_at; [by unfold zlen; rewrite ne16_length|done]. }
  rewrite Z.max_l by lia.
  assert (get_slice l (0 + 4) (0 + (4 + zlen payload)) = Some payload) as ->.
  { rewrite Hlay, (assoc_L (++)). apply get_slice_at; [|lia]. unfold zlen. by rewrite length_app, !ne16_length. }
  cbn [mbind option_bind]. destruct (_ =? kind); [done|]. rewrite (proj2 (Z.ltb_ge _ _)) by lia.
  rewrite Z.add_0_l, <- Hl, <- (Z.add_0_r (zlen (attribute k payload))). unfold l at 2.
  rewrite find_loop_skip by lia. apply find_loop_fuel; unfold zlen in *; lia.
Qed.

Lemma find_last k payload kind : is_u16 k -> zlen payload < 65532 ->
  find (attribute k payload) kind = if Z.land k NLA_TYPE_MASK =? kind then Some payload else None.
Proof. intros Hk Hp. rewrite <- (app_nil_r (attribute k payload)). by apply find_attribute. Qed.

Lemma aligned_small n : 0 <= n -> aligned n <= n + 3.
Proof. intros Hn. pose proof (aligned_spec n Hn). lia. Qed.

Lemma attribute_small kind payload : zlen (attribute kind payload) <= zlen payload + 7.
Proof. rewrite attribute_length. pose proof (zlen_nonneg payload). pose proof (aligned_small (4 + zlen payload)). lia. Qed.

Lemma be16_zlen v : zlen (be16 v) = 2.
Proof. done. Qed.
Lemma single_zlen (b : Z) : zlen [b] = 1.
Proof. done. Qed.
End Attributes.

Ltac kind_ok := lazymatch goal with |- is_u16 _ => split; by vm_compute end.

(** Bounds the attributes in sight, from the innermost parts of their payloads. *)
Ltac small :=
  cbn [octets] in *; rewrite ?zlen_app in *;
  repeat (match goal with
  | |- context [zlen (attribute ?k ?p)] =>
      lazymatch goal with _ : zlen (attribute k p) <= _ |- _ => fail | _ => pose proof (attribute_small k p) end
  | H : context [zlen (attribute ?k ?p)] |- _ =>
      lazymatch goal with _ : zlen (attribute k p) <= _ |- _ => fail | _ => pose proof (attribute_small k p) end
  end; rewrite ?zlen_app in *);
  rewrite ?be16_zlen, ?single_zlen in *; lia.

(** Finds every attribute in sight. *)
Ltac look :=
  repeat (first [rewrite find_attribute by (first [kind_ok|small]) | rewrite find_last by (first [kind_ok|small])];
    repeat match goal with |- context [Z.land ?k NLA_TYPE_MASK =? ?k'] =>
      let b := eval vm_compute in (Z.land k NLA_TYPE_MASK =? k') in change (Z.land k NLA_TYPE_MASK =? k') with b end;
    cbn [mbind option_bind]).

(** ** The tuples *)

Section Tuples.
Context `{!ByteOrder}.
Implicit Types src dst : SocketAddr.

(** A tuple as the kernel nests it: the addresses, then the protocol and its ports. *)
Definition tuple_body (protocol : Z) src dst : bytes :=
  attribute (Z.lor CTA_TUPLE_IP NLA_F_NESTED)
    (match ip src with
     | V4 o => attribute CTA_IP_V4_SRC o ++ attribute CTA_IP_V4_DST (octets (ip dst))
     | V6 o => attribute CTA_IP_V6_SRC o ++ attribute CTA_IP_V6_DST (octets (ip dst))
     end)
  ++ attribute (Z.lor CTA_TUPLE_PROTO NLA_F_NESTED)
       (attribute CTA_PROTO_NUM [protocol] ++ attribute CTA_PROTO_SRC_PORT (be16 (port src))
        ++ attribute CTA_PROTO_DST_PORT (be16 (port dst))).

(** Two ends of one family. *)
Definition ends_wf src dst : Prop :=
  ip_wf (ip src) /\ ip_wf (ip dst) /\ is_u16 (port src) /\ is_u16 (port dst) /\ same_family (ip src) (ip dst) = true.

Lemma octets_length (a : IpAddr) : ip_wf a -> zlen (octets a) = match a with V4 _ => 4 | V6 _ => 16 end.
Proof. by destruct a; intros [_ Ho]. Qed.

Lemma tuple_body_small protocol src dst : ends_wf src dst -> zlen (tuple_body protocol src dst) <= 200.
Proof.
  intros (Hs & Hd & _ & _ & Hf). unfold tuple_body. apply octets_length in Hs, Hd.
  destruct (ip src), (ip dst); try done; simpl in Hs, Hd; small.
Qed.

Lemma tuple_body_ends protocol src dst : ends_wf src dst -> ends (tuple_body protocol src dst) = Some (src, dst).
Proof.
  destruct src as [sa sp], dst as [da dp]. intros (Hs & Hd & Hsp & Hdp & Hf). simpl in *.
  pose proof (u16_be_be16 sp Hsp) as Esp. pose proof (u16_be_be16 dp Hdp) as Edp.
  apply octets_length in Hs, Hd. unfold ends, tuple_body. cbn [ip port].
  destruct sa as [so|so], da as [do|do]; try done; cbn [octets] in *.
  all: look; unfold octets_of; rewrite Hs, Hd; cbn [Z.eqb Pos.eqb mbind option_bind]; look.
  all: rewrite !be16_zlen; cbn [Z.eqb Pos.eqb mbind option_bind]; unfold byte_at, be16; simpl.
  all: by rewrite Esp, Edp.
Qed.

(** A netlink message: its length, its kind, its flags, its number, its port, then what it says. *)
Definition netlink (kind flags sequence portid : Z) (body : bytes) : bytes :=
  ne32 (16 + zlen body) ++ ne16 kind ++ ne16 flags ++ ne32 sequence ++ ne32 portid ++ body.

Lemma netlink_zlen kind flags sequence portid body : zlen (netlink kind flags sequence portid body) = 16 + zlen body.
Proof. unfold netlink, zlen. rewrite !length_app, !ne32_length, !ne16_length. lia. Qed.

Lemma netlink_read kind flags sequence portid body (m := netlink kind flags sequence portid body) :
  is_u16 kind -> is_u32 sequence -> zlen body < 4294967280 ->
  word m 0 = Some (zlen m) /\ half m 4 = Some kind /\ word m 8 = Some sequence /\ get_slice m 0 (zlen m) = Some m.
Proof.
  intros Hk Hs Hb. pose proof (zlen_nonneg body). pose proof (netlink_zlen kind flags sequence portid body) as Hz.
  fold m in Hz. split_and!.
  - rewrite Hz. apply (word_at []); [done|unfold is_u32; lia].
  - apply half_at; [by unfold zlen; rewrite ne32_length|done].
  - unfold m, netlink. rewrite 2!(assoc_L (++)).
    apply word_at; [by unfold zlen; rewrite !length_app, ne32_length, !ne16_length|done].
  - rewrite get_slice_ok by lia. f_equal. unfold sub. rewrite Z.sub_0_r, drop_0. apply take_ge. unfold zlen. lia.
Qed.

(** What follows the header and what leads to it. *)
Lemma netlink_body kind flags sequence portid (lead body : bytes) :
  get_slice (netlink kind flags sequence portid (lead ++ body)) (16 + zlen lead)
    (zlen (netlink kind flags sequence portid (lead ++ body))) = Some body.
Proof.
  rewrite netlink_zlen. unfold netlink. rewrite !zlen_app.
  set (header := ne32 (16 + (zlen lead + zlen body)) ++ ne16 kind ++ ne16 flags ++ ne32 sequence ++ ne32 portid).
  assert (zlen header = 16) as Hh by (unfold header, zlen; by rewrite !length_app, !ne32_length, !ne16_length).
  assert (forall l : bytes, l = (header ++ lead) ++ body ++ [] -> get_slice l (16 + zlen lead)
    (16 + (zlen lead + zlen body)) = Some body) as Hl; [intros l ->|apply Hl].
  2: unfold header; by rewrite app_nil_r, <- !(assoc_L (++)).
  apply get_slice_at; rewrite ?zlen_app; lia.
Qed.
End Tuples.

(** ** The exchange *)

Section Exchange.
Context `{!ByteOrder}.

(** The answer the kernel gives about a connection: the family asked about, its two directions and
    whatever else it tells; and the error it answers with. *)
Definition answer (flags sequence portid family protocol : Z) (original reply : SocketAddr * SocketAddr)
    (rest : bytes) : bytes :=
  netlink 256 flags sequence portid ([family; 0; 0; 0]
    ++ attribute (Z.lor CTA_TUPLE_ORIG NLA_F_NESTED) (tuple_body protocol original.1 original.2)
    ++ attribute (Z.lor CTA_TUPLE_REPLY NLA_F_NESTED) (tuple_body protocol reply.1 reply.2) ++ rest).
Definition refusal (flags sequence portid errno : Z) (rest : bytes) : bytes :=
  netlink NLMSG_ERROR flags sequence portid (ne32 (wrap32 (- errno)) ++ rest).

Definition protocol_of (t : Transport) : Z := match t with Tcp => IPPROTO_TCP | _ => IPPROTO_UDP end.

(** The request, as the kernel reads it: about the tuple of the reply direction. *)
Lemma request_eq sequence flow : transport flow <> IcmpEcho -> ends_wf (remote flow) (local flow) ->
  request sequence flow =
    Some (netlink 257 1 sequence 0 ([match ip (remote flow) with V4 _ => AF_INET | V6 _ => AF_INET6 end; 0; 0; 0]
      ++ attribute (Z.lor CTA_TUPLE_REPLY NLA_F_NESTED)
           (tuple_body (protocol_of (transport flow)) (remote flow) (local flow)))).
Proof.
  destruct flow as [t [la lp] [ra rp]]. intros Ht Hwf. pose proof (tuple_body_small (protocol_of t) _ _ Hwf) as Hs.
  destruct Hwf as (_ & _ & _ & _ & Hf). unfold request, tuple_body in *. cbn [transport local remote ip port] in *.
  destruct t, ra as [ro|ro], la as [lo|lo]; try done; cbn [mbind option_bind protocol_of octets] in *.
  all: unfold netlink, wrap32; do 2 f_equal.
  all: rewrite zlen_app, Z.mod_small;
    [f_equal; unfold NLMSG_HDR_LEN, NFGENMSG_LEN; rewrite 4!zlen_cons; change (zlen (@nil Z)) with 0; lia|].
  all: match goal with |- context [zlen (attribute ?k ?p)] => pose proof (attribute_small k p);
         pose proof (zlen_nonneg (attribute k p)) end; unfold NLMSG_HDR_LEN, NFGENMSG_LEN; lia.
Qed.

Lemma answer_read flags sequence portid family protocol original reply rest sequence' flow :
  is_u32 sequence -> ends_wf original.1 original.2 -> ends_wf reply.1 reply.2 -> zlen rest < 4294000000 ->
  parse_reply (answer flags sequence portid family protocol original reply rest) sequence' flow =
    if negb (sequence =? sequence') then Other
    else if bool_decide (reply = (remote flow, local flow)) then Original (mkFlowKey (transport flow) original.1 original.2)
    else AsSeen.
Proof.
  intros Hs Ho Hr Hrest.
  pose proof (tuple_body_small protocol _ _ Ho) as Hos. pose proof (tuple_body_small protocol _ _ Hr) as Hrs.
  unfold parse_reply, answer. set (attributes := attribute _ (tuple_body protocol original.1 original.2) ++ _).
  destruct (netlink_read 256 flags sequence portid ([family; 0; 0; 0] ++ attributes)) as (-> & -> & -> & ->).
  { by split. } { done. } { unfold attributes. rewrite zlen_app. change (zlen [family; 0; 0; 0]) with 4. small. }
  destruct (negb _); [done|]. change (256 =? NLMSG_ERROR) with false. cbn [negb Z.lor Z.shiftl].
  change (256 =? Z.lor (Z.shiftl NFNL_SUBSYS_CTNETLINK 8) IPCTNL_MSG_CT_NEW) with true. cbn [negb].
  pose proof (netlink_body 256 flags sequence portid [family; 0; 0; 0] attributes) as Hb.
  change (16 + zlen [family; 0; 0; 0]) with (NLMSG_HDR_LEN + NFGENMSG_LEN) in Hb. rewrite Hb. unfold attributes.
  cbv zeta. look. rewrite !tuple_body_ends by done. destruct original, reply. by destruct (bool_decide _).
Qed.

Lemma refusal_read flags sequence portid errno rest flow :
  is_u32 sequence -> - 2147483648 <= errno < 2147483648 -> zlen rest < 4294000000 ->
  parse_reply (refusal flags sequence portid errno rest) sequence flow =
    if errno =? 0 then Other else if bool_decide (errno ∈ [EPERM; EINVAL; EOPNOTSUPP]) then Refused else AsSeen.
Proof.
  intros Hs He Hrest. unfold parse_reply, refusal.
  assert (zlen (ne32 (wrap32 (- errno))) = 4) as H4 by (unfold zlen; by rewrite ne32_length).
  destruct (netlink_read NLMSG_ERROR flags sequence portid (ne32 (wrap32 (- errno)) ++ rest)) as (-> & -> & -> & ->).
  { by split. } { done. } { rewrite zlen_app, H4. lia. }
  rewrite Z.eqb_refl. cbn [negb]. change (NLMSG_ERROR =? NLMSG_ERROR) with true. cbn iota.
  assert (word (netlink NLMSG_ERROR flags sequence portid (ne32 (wrap32 (- errno)) ++ rest)) NLMSG_HDR_LEN
    = Some (wrap32 (- errno))) as ->.
  { unfold netlink. rewrite 4!(assoc_L (++)).
    apply word_at; [unfold zlen; by rewrite !length_app, !ne32_length, !ne16_length|by apply Z.mod_pos_bound]. }
  cbn [fmap option_fmap option_map].
  assert (wrapping_neg (cast_signed32 (wrap32 (- errno))) = errno) as ->.
  { unfold wrapping_neg, cast_signed32, wrap32. Z.div_mod_to_equations. repeat case_match; lia. }
  destruct (errno =? 0); [done|]. assert ((errno =? EPERM) || (errno =? EINVAL) || (errno =? EOPNOTSUPP)
    = bool_decide (errno ∈ [EPERM; EINVAL; EOPNOTSUPP])) as ->; [|done].
  apply eq_true_iff_eq. rewrite bool_decide_eq_true, !orb_true_iff, !Z.eqb_eq. set_solver.
Qed.

(** Asking conntrack and reading its answer.  The request about a TCP or UDP flow is a netlink
    message of its own length and number, whose attributes name the flow seen from the far end, the
    tuple of the reply direction; no other flow is asked about.  Whatever the kernel adds to it, the
    answer about a connection is the original pair when the reply direction is the one asked about,
    and the flow as seen when it is another; a refusal is told from a passing failure by its errno;
    and an answer to another request is passed over. *)
Theorem conntrack_exchange (sequence asked flags portid family protocol errno : Z) (flow : FlowKey)
    (original reply : SocketAddr * SocketAddr) (rest : bytes)
    (Hs : is_u32 sequence) (Hflow : ends_wf (remote flow) (local flow))
    (Ho : ends_wf original.1 original.2) (Hr : ends_wf reply.1 reply.2)
    (Hrest : zlen rest < 4294000000) (He : - 2147483648 <= errno < 2147483648) :
  match transport flow with
  | IcmpEcho => request sequence flow = None
  | _ =>
      exists message attributes,
        request sequence flow = Some message /\
        word message 0 = Some (zlen message) /\ word message 8 = Some sequence /\
        get_slice message 20 (zlen message) = Some attributes /\
        find attributes CTA_TUPLE_REPLY ≫= ends = Some (remote flow, local flow)
  end /\
  parse_reply (answer flags sequence portid family protocol original reply rest) asked flow =
    (if negb (sequence =? asked) then Other
     else if bool_decide (reply = (remote flow, local flow)) then Original (mkFlowKey (transport flow) original.1 original.2)
     else AsSeen) /\
  parse_reply (refusal flags sequence portid errno rest) sequence flow =
    (if errno =? 0 then Other else if bool_decide (errno ∈ [EPERM; EINVAL; EOPNOTSUPP]) then Refused else AsSeen).
Proof.
  split_and!; [|by apply answer_read|by apply refusal_read].
  destruct (decide (transport flow = IcmpEcho)) as [Ht|Ht]; [rewrite Ht; unfold request; by rewrite Ht|].
  assert (exists message attributes,
    request sequence flow = Some message /\
    word message 0 = Some (zlen message) /\ word message 8 = Some sequence /\
    get_slice message 20 (zlen message) = Some attributes /\
    find attributes CTA_TUPLE_REPLY ≫= ends = Some (remote flow, local flow)) as Hm; [|by destruct (transport flow)].
  pose proof (tuple_body_small (protocol_of (transport flow)) _ _ Hflow) as Hsm.
  set (tuple := attribute (Z.lor CTA_TUPLE_REPLY NLA_F_NESTED) (tuple_body (protocol_of (transport flow)) (remote flow) (local flow))).
  set (lead := [match ip (remote flow) with V4 _ => AF_INET | V6 _ => AF_INET6 end; 0; 0; 0]).
  exists (netlink 257 1 sequence 0 (lead ++ tuple)), tuple.
  destruct (netlink_read 257 1 sequence 0 (lead ++ tuple)) as (Hw0 & _ & Hw8 & _); [by split|done| |].
  { rewrite zlen_app. change (zlen lead) with 4. unfold tuple. small. }
  split_and!; [by apply request_eq|done|done|apply (netlink_body 257 1 sequence 0 lead tuple)|].
  unfold tuple. look. by apply tuple_body_ends.
Qed.
End Exchange.

(** A connection masqueraded on its way into the tunnel. *)
Definition sample_masqueraded : FlowKey :=
  mkFlowKey Tcp (mkSocketAddr (V4 [10; 64; 0; 2]) 40001) (mkSocketAddr (V4 [198; 51; 100; 9]) 443).

Lemma conntrack_exchange_witness :
  @parse_reply little_endian
    (@answer little_endian 0 9 0 2 6 (mkSocketAddr (V4 [192; 168; 1; 20]) 40000, remote sample_masqueraded)
       (remote sample_masqueraded, local sample_masqueraded) [1; 2; 3]) 9 sample_masqueraded
    = Original (mkFlowKey Tcp (mkSocketAddr (V4 [192; 168; 1; 20]) 40000) (mkSocketAddr (V4 [198; 51; 100; 9]) 443)).
Proof.
  refine (proj1 (proj2 (@conntrack_exchange little_endian 9 9 0 0 2 6 1 sample_masqueraded
    (mkSocketAddr (V4 [192; 168; 1; 20]) 40000, remote sample_masqueraded)
    (remote sample_masqueraded, local sample_masqueraded) [1; 2; 3] _ _ _ _ _ _))).
  all: repeat split; simpl; try lia; repeat constructor; unfold is_byte; lia.
Defined.
