(* ===== verification/Pcblist.v ===== *)
(** * The XNU socket export (talpid-app-routing/src/owner/pcblist.rs)

    The records of [net.inet.{tcp,udp}.pcblist_n], read at the offsets the
    kernel's private structs have, or refused when their lengths moved. *)

From S2P Require Import Prelude Net Flow Owner Native.
Open Scope Z_scope.

Definition XINPGEN_LEN : Z := 24.
Definition KIND_SOCKET : Z := 1.
Definition KIND_INPCB : Z := 16.
Definition XINPCB_N_LEN : Z := 104.
Definition INP_FPORT : Z := 16.
Definition INP_LPORT : Z := 18.
Definition INP_VFLAG : Z := 44.
Definition INP_FADDR : Z := 48.
Definition INP_LADDR : Z := 64.
Definition INP_IPV4 : Z := 1.
Definition INP_IPV6 : Z := 2.
Definition V4_IN_UNION : Z := 12.
Definition XSOCKET_N_MIN_LEN : Z := 76.
Definition SO_LAST_PID : Z := 68.
Definition SO_E_PID : Z := 72.

Section Pcblist.
Context `{!ByteOrder}.

Definition read_u32 (buf : bytes) (at_ : Z) : option Z := word buf at_.
Definition read_i32 (buf : bytes) (at_ : Z) : option Z := cast_signed32 <$> word buf at_.

(** The closure [addr] of [ends]; its [try_into] fails on no slice of that length. *)
Definition addr {E : Type} (inpcb : bytes) (vflag at_ : Z) : comp E (option IpAddr) :=
  if negb (Z.land vflag INP_IPV4 =? 0) then o ← slice inpcb (at_ + V4_IN_UNION) (at_ + 16); Ok (Some (V4 o))
  else if negb (Z.land vflag INP_IPV6 =? 0) then o ← slice inpcb at_ (at_ + 16); Ok (Some (V6 o))
  else Ok None.

Definition ends {E : Type} (inpcb : bytes) : comp E (option (SocketAddr * option SocketAddr)) :=
  vflag ← index inpcb INP_VFLAG;
  let port at_ := (a ← index inpcb at_; b ← index inpcb (at_ + 1); Ok (u16_be a b)) in
  laddr ← addr inpcb vflag INP_LADDR;
  match laddr with
  | None => Ok None
  | Some laddr =>
      lport ← port INP_LPORT;
      faddr ← addr inpcb vflag INP_FADDR;
      match faddr with
      | None => Ok None
      | Some faddr =>
          fport ← port INP_FPORT;
          let connected := negb (is_unspecified faddr && (fport =? 0)) in
          Ok (Some (mkSocketAddr laddr lport, if connected then Some (mkSocketAddr faddr fport) else None))
      end
  end.

Definition push (table : SocketTable) (transport : Transport) (local : SocketAddr) (remote : option SocketAddr)
    (socket : bytes) : SocketTable :=
  let last_pid := default 0 (read_i32 socket SO_LAST_PID) in
  let e_pid := default 0 (read_i32 socket SO_E_PID) in
  let pid := if 0 <? e_pid then e_pid else last_pid in
  if 0 <=? pid then sockets_push table (mkSocketRecord transport local remote pid) else table.

(** What [parse] does with a record: the PCB it leaves for the next socket, and the table.  An error
    comes with the table as it was left. *)
Definition take_record (transport : Transport) (len kind : Z) (record : bytes)
    (pending : option (SocketAddr * option SocketAddr)) (table : SocketTable)
    : comp (SocketTable * OwnerError) (option (SocketAddr * option SocketAddr) * SocketTable) :=
  if kind =? KIND_INPCB then
    if negb (len =? XINPCB_N_LEN) then Err (table, UnknownLayout)
    else pending ← ends record; Ok (pending, table)
  else if kind =? KIND_SOCKET then
    if len <? XSOCKET_N_MIN_LEN then Err (table, UnknownLayout)
    else match pending with
         | Some (local, remote) => Ok (None, push table transport local remote record)
         | None => Ok (None, table)
         end
  else Ok (pending, table).

(** The loop of [parse], a turn of which takes at least eight bytes. *)
Fixpoint parse_loop (fuel : nat) (buf : bytes) (transport : Transport) (offset : Z)
    (pending : option (SocketAddr * option SocketAddr)) (table : SocketTable)
    : comp (SocketTable * OwnerError) SocketTable :=
  match fuel with
  | O => Ok table
  | S fuel =>
      match read_u32 buf offset, read_u32 buf (offset + 4) with
      | Some len, Some kind =>
          if (len =? 0) || ((len =? XINPGEN_LEN) && (zlen buf <=? offset + len)) then Ok table else
          record ← ok_or (get_slice buf offset (offset + len)) (table, UnknownLayout);
          '(pending, table) ← take_record transport len kind record pending table;
          parse_loop fuel buf transport (offset + next_multiple_of len 8) pending table
      | _, _ => Ok table
      end
  end.

Definition parse (buf : bytes) (transport : Transport) (table : SocketTable)
    : comp (SocketTable * OwnerError) SocketTable :=
  if negb (bool_decide (read_u32 buf 0 = Some XINPGEN_LEN)) then Err (table, UnknownLayout)
  else parse_loop (length buf) buf transport XINPGEN_LEN None table.

(** [SystemResolver::refresh] of macOS, over what [sysctl] reads of each export, or fails to. *)
Definition exports : list Transport := [Tcp; Udp].

Fixpoint read_exports (read : Transport -> option bytes) (transports : list Transport) (table : SocketTable)
    : comp (SocketTable * OwnerError) SocketTable :=
  match transports with
  | [] => Ok table
  | transport :: transports =>
      export ← ok_or (read transport) (table, SocketTableError);
      table ← parse export transport table;
      read_exports read transports table
  end.

Definition refresh `{!UnstableSort} {E : Type} (read : Transport -> option bytes) (table : SocketTable)
    : comp E (SocketTable * option OwnerError) :=
  match read_exports read exports (sockets_clear table) with
  | Ok table => Ok (sockets_finish table, None)
  | Err (table, e) => Ok (sockets_finish (sockets_clear table), Some e)
  | Panic => Panic
  end.
End Pcblist.

(** ** The loop *)

Section Loop.
Context `{!ByteOrder}.
Implicit Types (l record : bytes) (table : SocketTable).

(** Any fuel that covers what is left reads the same. *)
Lemma export_loop_fuel fuel fuel' l tr a pending table : bytes_ok l ->
  zlen l - a <= Z.of_nat fuel -> zlen l - a <= Z.of_nat fuel' ->
  parse_loop fuel l tr a pending table = parse_loop fuel' l tr a pending table.
Proof.
  intros Hl. revert fuel' a pending table. induction fuel as [|fuel IH]; intros fuel' a pending table Hf Hf'.
  - destruct fuel'; [done|]. cbn [parse_loop]. unfold read_u32. destruct (word l a) eqn:Hw; [|done].
    apply word_Some in Hw; [lia|done].
  - destruct fuel' as [|fuel'].
    { cbn [parse_loop]. unfold read_u32. destruct (word l a) eqn:Hw; [|done]. apply word_Some in Hw; [lia|done]. }
    cbn [parse_loop]. unfold read_u32. destruct (word l a) as [len|] eqn:Hw; [|done].
    destruct (word l (a + 4)) as [kind|]; [|done]. apply word_Some in Hw as (_ & _ & Hlen); [|done].
    destruct (Z.eqb_spec len 0); [done|]. cbn [orb]. destruct (_ && _); [done|].
    destruct (get_slice l a (a + len)) as [record|]; cbn [ok_or mbind comp_bind]; [|done].
    destruct (take_record _ _ _ _ _ _) as [[pending' table']| |]; cbn [mbind comp_bind]; try done.
    pose proof (next_multiple_of_ge len 8 ltac:(lia)). unfold is_u32 in Hlen. apply IH; lia.
Qed.

Lemma parse_loop_skip fuel (pre : bytes) l tr a pending table : bytes_ok (pre ++ l) -> 0 <= a ->
  parse_loop fuel (pre ++ l) tr (zlen pre + a) pending table = parse_loop fuel l tr a pending table.
Proof.
  intros Hok. revert a pending table. induction fuel as [|fuel IH]; intros a pending table Ha; [done|].
  cbn [parse_loop]. unfold read_u32. rewrite <- !Z.add_assoc, !word_skip by lia.
  destruct (word l a) as [len|] eqn:Hw; [|done]. destruct (word l (a + 4)) as [kind|]; [|done].
  apply Forall_app in Hok as [_ Hl] . apply word_Some in Hw as (_ & _ & Hlen); [|done]. unfold is_u32 in Hlen.
  rewrite <- (Z.add_assoc _ a len), get_slice_skip by lia. rewrite zlen_app.
  assert ((zlen pre + zlen l <=? zlen pre + (a + len)) = (zlen l <=? a + len)) as ->
    by (destruct (Z.leb_spec (zlen pre + zlen l) (zlen pre + (a + len))), (Z.leb_spec (zlen l) (a + len)); lia).
  destruct (_ || _); [done|]. destruct (get_slice l a (a + len)); cbn [ok_or mbind comp_bind]; [|done].
  destruct (take_record _ _ _ _ _ _) as [[pending' table']| |]; cbn [mbind comp_bind]; try done.
  pose proof (next_multiple_of_ge len 8 ltac:(lia)). rewrite <- Z.add_assoc. apply IH; lia.
Qed.

(** What the loop makes of a record and what follows it. *)
Definition run l tr pending table := parse_loop (length l) l tr 0 pending table.

Definition laid_out (kind : Z) (body : bytes) : bytes := ne32 (8 + zlen body) ++ ne32 kind ++ body.

Lemma laid_out_zlen kind body : zlen (laid_out kind body) = 8 + zlen body.
Proof. unfold laid_out, zlen. rewrite !length_app, !ne32_length. lia. Qed.

Lemma run_record kind body (padding rest : bytes) tr pending table :
  bytes_ok (laid_out kind body ++ padding ++ rest) -> is_u32 kind -> 8 + zlen body < 4294967296 ->
  (8 + zlen body = XINPGEN_LEN -> rest <> []) -> zlen padding = next_multiple_of (8 + zlen body) 8 - (8 + zlen body) ->
  run (laid_out kind body ++ padding ++ rest) tr pending table =
    ('(pending, table) ← take_record tr (8 + zlen body) kind (laid_out kind body) pending table;
     run rest tr pending table).
Proof.
  intros Hok Hk Hlen Hrest Hpad. set (l := laid_out kind body ++ padding ++ rest) in *.
  pose proof (zlen_nonneg body). pose proof (zlen_nonneg rest). pose proof (laid_out_zlen kind body) as Hrz.
  pose proof (next_multiple_of_ge (8 + zlen body) 8 ltac:(lia)) as Hge.
  assert (zlen l = next_multiple_of (8 + zlen body) 8 + zlen rest) as Hz by (unfold l; rewrite !zlen_app; lia).
  unfold run. rewrite (export_loop_fuel _ (S (length rest + Z.to_nat (next_multiple_of (8 + zlen body) 8))))
    by (try done; unfold zlen in *; lia).
  cbn [parse_loop]. unfold read_u32.
  assert (l = ne32 (8 + zlen body) ++ ne32 kind ++ body ++ padding ++ rest) as Hl
    by (unfold l, laid_out; by rewrite <- !(assoc_L (++))).
  assert (word l 0 = Some (8 + zlen body)) as -> by (rewrite Hl; apply (word_at []); [done|unfold is_u32; lia]).
  assert (word l (0 + 4) = Some kind) as -> by (rewrite Hl; apply word_at; [by unfold zlen; rewrite ne32_length|done]).
  rewrite (proj2 (Z.eqb_neq (8 + zlen body) 0)) by lia. cbn [orb].
  assert ((8 + zlen body =? XINPGEN_LEN) && (zlen l <=? 0 + (8 + zlen body)) = false) as ->.
  { destruct (Z.eqb_spec (8 + zlen body) XINPGEN_LEN) as [He|]; [|done]. apply Z.leb_gt. specialize (Hrest He).
    destruct rest; [done|]. rewrite zlen_cons in Hz. pose proof (zlen_nonneg rest). lia. }
  assert (get_slice l 0 (0 + (8 + zlen body)) = Some (laid_out kind body)) as ->
    by (apply (get_slice_at [] (laid_out kind body) (padding ++ rest)); [done|lia]).
  cbn [ok_or]. rewrite bind_Ok. destruct (take_record _ _ _ _ _ _) as [[pending' table']| |]; cbn [mbind comp_bind]; try done.
  replace (0 + next_multiple_of (8 + zlen body) 8) with (zlen (laid_out kind body ++ padding) + 0) by (rewrite zlen_app; lia).
  assert (l = (laid_out kind body ++ padding) ++ rest) as Hsplit by (unfold l; by rewrite (assoc_L (++))).
  rewrite Hsplit in *. rewrite parse_loop_skip by (done || lia).
  apply Forall_app in Hok as [_ Hok]. apply export_loop_fuel; [done| |]; unfold zlen in *; lia.
Qed.

(** The closing [xinpgen]. *)
Lemma run_close (closing : bytes) tr pending table : zlen closing = 20 ->
  run (ne32 XINPGEN_LEN ++ closing) tr pending table = Ok table.
Proof.
  intros Hc. assert (zlen (ne32 XINPGEN_LEN) = 4) as H4 by (unfold zlen; by rewrite ne32_length).
  unfold run. destruct (length (ne32 XINPGEN_LEN ++ closing)); [done|]. cbn [parse_loop]. unfold read_u32.
  pose proof (word_at [] closing XINPGEN_LEN 0 eq_refl ltac:(split; by vm_compute)) as Hw. cbn [app] in Hw. rewrite Hw.
  rewrite zlen_app, H4, Hc. destruct (word (ne32 XINPGEN_LEN ++ closing) (0 + 4)); reflexivity.
Qed.

(** No record panics, and what a record adds goes at the end. *)
Lemma take_record_total tr len kind record pending table : zlen record = len ->
  yields (take_record tr len kind record pending table)
    (fun e => e.2 = UnknownLayout /\ e.1 = table)
    (fun r => exists added, r.2 = table ++ added).
Proof.
  intros Hl. assert (exists added, table = table ++ added) as Hsame by (exists []; by rewrite app_nil_r).
  unfold take_record. destruct (kind =? KIND_INPCB).
  - destruct (Z.eqb_spec len XINPCB_N_LEN) as [->|]; simpl; [|done]. apply yields_bind.
    assert (yields (E := SocketTable * OwnerError) (ends record) (fun _ => False) (fun _ => True)) as He.
    { unfold XINPCB_N_LEN in *. unfold ends, addr, INP_VFLAG, INP_LADDR, INP_FADDR, INP_LPORT, INP_FPORT, V4_IN_UNION.
      in_range. destruct (negb _); [|destruct (negb _)]; cbn [mbind comp_bind]; in_range; done. }
    eapply yields_mono; [exact He|done|]. simpl. intros _ _. exists []. by rewrite app_nil_r.
  - destruct (kind =? KIND_SOCKET); [|exact Hsame]. destruct (len <? XSOCKET_N_MIN_LEN); [done|].
    destruct pending as [[lo re]|]; [|exact Hsame]. unfold push. simpl. destruct (0 <=? _); [|exact Hsame].
    by eexists.
Qed.

Lemma parse_loop_total fuel l tr a pending table :
  yields (parse_loop fuel l tr a pending table)
    (fun e => e.2 = UnknownLayout /\ exists added, e.1 = table ++ added)
    (fun t => exists added, t = table ++ added).
Proof.
  assert (exists added, table = table ++ added) as Hsame by (exists []; by rewrite app_nil_r).
  revert a pending table Hsame. induction fuel as [|fuel IH]; intros a pending table Hsame; [done|].
  cbn [parse_loop]. unfold read_u32. destruct (word l a) as [len|]; [|done]. destruct (word l (a + 4)) as [kind|]; [|done].
  destruct (_ || _); [done|]. destruct (get_slice l a (a + len)) as [record|] eqn:Hg; [|done].
  cbn [ok_or]. rewrite bind_Ok. apply get_slice_Some in Hg as (Ha & Hb & ->). apply yields_bind.
  eapply yields_mono; [apply take_record_total; rewrite zlen_sub by lia; lia| |].
  - intros [t e] [? ?]; simpl in *; subst. done.
  - intros [pending' table'] [added Hadd]. simpl in Hadd. subst table'.
    eapply yields_mono; [apply IH; exists []; by rewrite app_nil_r| |].
    + intros e (He & more & ->). split; [done|]. exists (added ++ more). by rewrite (assoc_L (++)).
    + intros t (more & ->). exists (added ++ more). by rewrite (assoc_L (++)).
Qed.
End Loop.

(** ** The export *)

Section Layout.
Context `{!ByteOrder}.

(** What the kernel exports: the PCB of a socket, a socket with what its record goes on with, and
    the records of other kinds. *)
Inductive Item : Type :=
| Pcb (local remote : SocketAddr)
| Sock (last_pid e_pid : Z) (more : bytes)
| Noise (kind : Z) (body : bytes).

Definition kind_of (i : Item) : Z :=
  match i with Pcb _ _ => KIND_INPCB | Sock _ _ _ => KIND_SOCKET | Noise kind _ => kind end.

(** The fields not read hold any byte. *)
Definition fill (filler : Z) (n : nat) : bytes := replicate n filler.

Definition union (filler : Z) (a : IpAddr) : bytes := match a with V4 o => fill filler 12 ++ o | V6 o => o end.

Definition body_of (filler : Z) (i : Item) : bytes :=
  match i with
  | Pcb local remote =>
      fill filler 8 ++ be16 (port remote) ++ be16 (port local) ++ fill filler 24
      ++ [match ip local with V4 _ => INP_IPV4 | V6 _ => INP_IPV6 end] ++ fill filler 3
      ++ union filler (ip remote) ++ union filler (ip local) ++ fill filler 24
  | Sock last_pid e_pid more => fill filler 60 ++ ne32 (wrap32 last_pid) ++ ne32 (wrap32 e_pid) ++ more
  | Noise _ body => body
  end.

(** Every record is padded to eight bytes, and a closing [xinpgen] ends them. *)
Definition padding (filler : Z) (body : bytes) : bytes :=
  fill filler (Z.to_nat (next_multiple_of (8 + zlen body) 8 - (8 + zlen body))).
Definition records (filler : Z) (items : list Item) : bytes :=
  concat ((fun i => laid_out (kind_of i) (body_of filler i) ++ padding filler (body_of filler i)) <$> items).
Definition export (filler : Z) (items : list Item) (closing : bytes) : bytes :=
  (ne32 XINPGEN_LEN ++ fill filler 20) ++ records filler items ++ ne32 XINPGEN_LEN ++ closing.

Definition item_wf (i : Item) : Prop :=
  match i with
  | Pcb local remote =>
      ip_wf (ip local) /\ ip_wf (ip remote) /\ is_u16 (port local) /\ is_u16 (port remote) /\
      same_family (ip local) (ip remote) = true
  | Sock last_pid e_pid more =>
      - 2147483648 <= last_pid < 2147483648 /\ - 2147483648 <= e_pid < 2147483648 /\
      bytes_ok more /\ zlen more < 4294960000
  | Noise kind body =>
      is_u32 kind /\ kind <> KIND_INPCB /\ kind <> KIND_SOCKET /\ bytes_ok body /\ zlen body < 4294960000
  end.

(** The sockets an export lists: each with the PCB just before it, and with the process it was
    opened for when a daemon opened it for one. *)
Definition remote_end (remote : SocketAddr) : option SocketAddr :=
  if negb (is_unspecified (ip remote) && (port remote =? 0)) then Some remote else None.

Fixpoint listed (tr : Transport) (pending : option (SocketAddr * SocketAddr)) (items : list Item) : list SocketRecord :=
  match items with
  | [] => []
  | Pcb local remote :: items => listed tr (Some (local, remote)) items
  | Sock last_pid e_pid _ :: items =>
      let pid := if 0 <? e_pid then e_pid else last_pid in
      match pending with
      | Some (local, remote) =>
          if 0 <=? pid then [mkSocketRecord tr local (remote_end remote) pid] else []
      | None => []
      end ++ listed tr None items
  | Noise _ _ :: items => listed tr pending items
  end.

Lemma fill_zlen filler n : zlen (fill filler n) = Z.of_nat n.
Proof. unfold fill, zlen. by rewrite length_replicate. Qed.

Lemma fill_ok filler n : is_byte filler -> bytes_ok (fill filler n).
Proof. intros Hb. by apply Forall_replicate. Qed.

Lemma union_zlen filler a : ip_wf a -> zlen (union filler a) = 16.
Proof. destruct a; intros [_ Ho]; unfold union; [rewrite zlen_app, fill_zlen; simpl in Ho; lia|exact Ho]. Qed.

Lemma ends_read {E : Type} filler local remote : item_wf (Pcb local remote) ->
  @ends E (laid_out KIND_INPCB (body_of filler (Pcb local remote))) = Ok (Some (local, remote_end remote)).
Proof.
  destruct local as [la lp], remote as [ra rp]. intros (Hla & Hra & Hlp & Hrp & Hf). cbn [ip port body_of] in *.
  unfold laid_out, ne32. destruct la as [lo|lo], ra as [ro|ro]; try done; unfold union; lay_out; destruct big_endian; reflexivity.
Qed.

Lemma next_multiple_of_near n m : 0 < m -> 0 <= n -> n <= next_multiple_of n m < n + m.
Proof.
  intros Hm Hn. split; [by apply next_multiple_of_ge|]. unfold next_multiple_of.
  pose proof (Z.div_mod (n + m - 1) m ltac:(lia)). pose proof (Z.mod_pos_bound (n + m - 1) m Hm). nia.
Qed.

Lemma item_body filler i : is_byte filler -> item_wf i ->
  is_u32 (kind_of i) /\ bytes_ok (body_of filler i) /\ zlen (body_of filler i) < 4294967000.
Proof.
  intros Hb. pose proof (fill_ok filler) as Hfill. destruct i as [local remote|last_pid e_pid more|kind body]; cbn [item_wf kind_of body_of].
  - intros (Hl & Hr & Hlp & Hrp & Hf). split; [by split; vm_compute|].
    assert (forall a, ip_wf a -> bytes_ok (union filler a)) as Hu.
    { intros [o|o] [Ho _]; [apply Forall_app; split; [by apply Hfill|done]|done]. }
    split; [|rewrite !zlen_app, !fill_zlen, !union_zlen by done; vm_compute; done].
    repeat (apply Forall_app; split); try apply be16_ok; try (by apply Hfill); try (by apply Hu).
    repeat constructor; destruct (ip local); by vm_compute.
  - intros (Hlp & Hep & Hm & Hz). split; [by split; vm_compute|]. split.
    + repeat (apply Forall_app; split); try apply ne32_ok; done || by apply Hfill.
    + rewrite !zlen_app, fill_zlen. unfold zlen at 1 2. rewrite !ne32_length. lia.
  - intros (Hk & _ & _ & Hm & Hz). split_and!; [done|done|lia].
Qed.

Lemma signed_wrap v : - 2147483648 <= v < 2147483648 -> cast_signed32 (wrap32 v) = v.
Proof. intros Hv. unfold cast_signed32, wrap32. Z.div_mod_to_equations. repeat case_match; lia. Qed.

(** The PCB a socket comes after, as the parser holds it. *)
Definition held (pending : option (SocketAddr * SocketAddr)) : option (SocketAddr * option SocketAddr) :=
  prod_map id remote_end <$> pending.

(** The step of the parser over an item, and the step of the list. *)
Lemma item_read filler i items tr pending table : item_wf i ->
  exists pending' added,
    take_record tr (8 + zlen (body_of filler i)) (kind_of i) (laid_out (kind_of i) (body_of filler i)) (held pending) table
      = Ok (held pending', foldl sockets_push table added) /\
    listed tr pending (i :: items) = added ++ listed tr pending' items.
Proof.
  destruct i as [local remote|last_pid e_pid more|kind body]; cbn [kind_of]; intros Hwf.
  - exists (Some (local, remote)), []. split; [|done]. unfold take_record. rewrite Z.eqb_refl.
    assert (8 + zlen (body_of filler (Pcb local remote)) = XINPCB_N_LEN) as ->.
    { destruct Hwf as (Hl & Hr & _). cbn [body_of]. rewrite !zlen_app, !fill_zlen, !union_zlen by done. done. }
    cbn [Z.eqb negb]. rewrite Z.eqb_refl. cbn [negb]. by rewrite ends_read.
  - destruct Hwf as (Hlp & Hep & Hm & Hz).
    exists None, (match pending with
      | Some (local, remote) =>
          let pid := if 0 <? e_pid then e_pid else last_pid in
          if 0 <=? pid then [mkSocketRecord tr local (remote_end remote) pid] else []
      | None => [] end). split; [|by destruct pending as [[??]|]].
    unfold take_record. change (KIND_SOCKET =? KIND_INPCB) with false. rewrite Z.eqb_refl. cbn [body_of].
    set (r := laid_out KIND_SOCKET (fill filler 60 ++ ne32 (wrap32 last_pid) ++ ne32 (wrap32 e_pid) ++ more)).
    pose proof (zlen_nonneg more). rewrite (proj2 (Z.ltb_ge _ _))
      by (rewrite !zlen_app, fill_zlen; unfold zlen at 1 2; rewrite !ne32_length; unfold XSOCKET_N_MIN_LEN; lia).
    destruct pending as [[local remote]|]; [|done]. cbn [held fmap option_fmap option_map prod_map id]. unfold push, read_i32.
    assert (word r SO_LAST_PID = Some (wrap32 last_pid)) as ->.
    { unfold r, laid_out. rewrite 2!(assoc_L (++)).
      apply word_at; [|by apply Z.mod_pos_bound]. rewrite !zlen_app, fill_zlen. unfold zlen. by rewrite !ne32_length. }
    assert (word r SO_E_PID = Some (wrap32 e_pid)) as ->.
    { unfold r, laid_out. rewrite 3!(assoc_L (++)).
      apply word_at; [|by apply Z.mod_pos_bound]. rewrite !zlen_app, fill_zlen. unfold zlen. by rewrite !ne32_length. }
    cbn [fmap option_fmap option_map default id]. rewrite !signed_wrap by done. cbv zeta. by destruct (0 <=? _).
  - destruct Hwf as (_ & Hi & Hs & _). exists pending, []. split; [|done]. unfold take_record.
    by rewrite (proj2 (Z.eqb_neq _ _) Hi), (proj2 (Z.eqb_neq _ _) Hs).
Qed.

(** A run of records, before anything. *)
Lemma run_records filler items (rest : bytes) tr pending table : is_byte filler -> Forall item_wf items ->
  bytes_ok rest -> rest <> [] ->
  bytes_ok (records filler items ++ rest) /\
  exists pending' before,
    run (records filler items ++ rest) tr (held pending) table = run rest tr (held pending') (foldl sockets_push table before) /\
    before = listed tr pending items.
Proof.
  intros Hb Hall Hrest Hne. revert pending table.
  induction Hall as [|i items Hi _ IH]; intros pending table; [by split; [|exists pending, []]|].
  destruct (item_body filler i Hb Hi) as (Hk & Hbok & Hbz). pose proof (zlen_nonneg (body_of filler i)).
  pose proof (next_multiple_of_near (8 + zlen (body_of filler i)) 8 ltac:(lia) ltac:(lia)).
  assert (records filler (i :: items) ++ rest = laid_out (kind_of i) (body_of filler i)
    ++ padding filler (body_of filler i) ++ records filler items ++ rest) as ->.
  { unfold records. cbn [fmap list_fmap concat]. by rewrite <- !(assoc_L (++)). }
  destruct (IH pending table) as [Hok _].
  assert (bytes_ok (laid_out (kind_of i) (body_of filler i) ++ padding filler (body_of filler i)
    ++ records filler items ++ rest)) as Hall.
  { apply Forall_app; split; [|apply Forall_app; split; [by apply fill_ok|done]].
    unfold laid_out. repeat (apply Forall_app; split); done || apply ne32_ok. }
  split; [done|]. rewrite run_record; [|done|done|lia| |unfold padding; rewrite fill_zlen; lia].
  2: { intros _. by destruct (records filler items), rest. }
  destruct (item_read filler i items tr pending table Hi) as (pending1 & added & -> & ->). rewrite bind_Ok.
  destruct (IH pending1 (foldl sockets_push table added)) as (_ & pending2 & before & -> & ->).
  exists pending2, (added ++ listed tr pending1 items). by rewrite foldl_app.
Qed.
End Layout.

(** ** The snapshot *)

Section Snapshot.
Context `{!ByteOrder, !UnstableSort}.

(** A record of a known kind whose length is not the one the layout has. *)
Definition moved (kind len : Z) : Prop :=
  len <> XINPGEN_LEN /\ (kind = KIND_INPCB /\ len <> XINPCB_N_LEN \/ kind = KIND_SOCKET /\ len < XSOCKET_N_MIN_LEN).

(** An export begins with its [xinpgen], and goes on with what [run] reads. *)
Lemma parse_header filler (l : bytes) tr table : is_byte filler -> bytes_ok l ->
  parse ((ne32 XINPGEN_LEN ++ fill filler 20) ++ l) tr table = run l tr None table.
Proof.
  intros Hb Hl. unfold parse.
  assert (zlen (ne32 XINPGEN_LEN ++ fill filler 20) = 24) as Hh
    by (rewrite zlen_app, fill_zlen; unfold zlen; by rewrite ne32_length).
  assert (bytes_ok ((ne32 XINPGEN_LEN ++ fill filler 20) ++ l)) as Hok.
  { repeat (apply Forall_app; split); done || apply ne32_ok || by apply fill_ok. }
  assert (read_u32 ((ne32 XINPGEN_LEN ++ fill filler 20) ++ l) 0 = Some XINPGEN_LEN) as ->.
  { rewrite <- (assoc_L (++)). apply (word_at []); [done|by split; vm_compute]. }
  rewrite bool_decide_eq_true_2 by done. cbn [negb]. unfold run.
  assert (XINPGEN_LEN = zlen (ne32 XINPGEN_LEN ++ fill filler 20) + 0) as Hx by (rewrite Hh; done). rewrite Hx at 3.
  rewrite parse_loop_skip by (done || lia). apply export_loop_fuel; [done| |]; unfold zlen; rewrite ?length_app; lia.
Qed.

Lemma export_read filler items closing tr table :
  is_byte filler -> Forall item_wf items -> bytes_ok closing -> zlen closing = 20 ->
  parse (export filler items closing) tr table = Ok (foldl sockets_push table (listed tr None items)).
Proof.
  intros Hb Hall Hc Hz. unfold export.
  assert (bytes_ok (ne32 XINPGEN_LEN ++ closing)) as Hend by (apply Forall_app; split; [apply ne32_ok|done]).
  destruct (run_records filler items (ne32 XINPGEN_LEN ++ closing) tr None table) as (Hok & pending & before & Hrun & ->);
    [done..|by unfold ne32; destruct big_endian|].
  rewrite parse_header by done. change (held None) with (@None (SocketAddr * option SocketAddr)) in Hrun.
  rewrite Hrun. by apply run_close.
Qed.

Lemma moved_refused filler items kind body post tr table :
  is_byte filler -> Forall item_wf items -> bytes_ok body -> bytes_ok post -> zlen body < 4294960000 ->
  moved kind (8 + zlen body) ->
  exists t, parse ((ne32 XINPGEN_LEN ++ fill filler 20) ++ records filler items ++ laid_out kind body
                   ++ padding filler body ++ post) tr table = Err (t, UnknownLayout).
Proof.
  intros Hb Hall Hbok Hpost Hz [Hgen Hmoved]. pose proof (zlen_nonneg body).
  pose proof (next_multiple_of_near (8 + zlen body) 8 ltac:(lia) ltac:(lia)).
  assert (bytes_ok (laid_out kind body ++ padding filler body ++ post)) as Hok.
  { apply Forall_app; split; [unfold laid_out; repeat (apply Forall_app; split); done || apply ne32_ok|].
    apply Forall_app; split; [by apply fill_ok|done]. }
  destruct (run_records filler items (laid_out kind body ++ padding filler body ++ post) tr None table)
    as (Hrok & pending & before & Hrun & _); [done..| |].
  { unfold laid_out, ne32. by destruct big_endian. }
  rewrite parse_header by done. change (held None) with (@None (SocketAddr * option SocketAddr)) in Hrun. rewrite Hrun.
  rewrite run_record; [|done| |lia|done|unfold padding; rewrite fill_zlen; lia].
  2: { destruct Hmoved as [[-> _]|[-> _]]; by split; vm_compute. }
  exists (foldl sockets_push table before). unfold take_record.
  destruct Hmoved as [[-> Hm]|[-> Hm]]; rewrite Z.eqb_refl.
  - by rewrite (proj2 (Z.eqb_neq _ _) Hm).
  - change (KIND_SOCKET =? KIND_INPCB) with false. by rewrite (proj2 (Z.ltb_lt _ _) Hm).
Qed.

(** A snapshot of the macOS socket tables is whole or empty.  No export makes the parser panic or
    loop, and what it reads is added at the end; an export laid out as XNU documents it gives each
    socket the ends of the PCB just before it and the process it was opened for, whatever the fields
    not read and the records of other kinds; a PCB or a socket whose record moved is refused, however
    many good ones precede it; so a refresh yields the sockets of both exports, sorted, or
    reports an error and leaves no socket. *)
Theorem socket_export_read (filler : Z) (tcp udp : list Item) (closing_tcp closing_udp buf body post : bytes)
    (kind : Z) (tr : Transport) (table : SocketTable) (read : Transport -> option bytes)
    (Hb : is_byte filler) (Htcp : Forall item_wf tcp) (Hudp : Forall item_wf udp)
    (Hct : bytes_ok closing_tcp /\ zlen closing_tcp = 20) (Hcu : bytes_ok closing_udp /\ zlen closing_udp = 20)
    (Hbody : bytes_ok body /\ zlen body < 4294960000) (Hpost : bytes_ok post) (Hmoved : moved kind (8 + zlen body)) :
  match parse buf tr table with
  | Ok t => exists added, t = table ++ added
  | Err (t, e) => e = UnknownLayout
  | Panic => False
  end /\
  (exists t, parse ((ne32 XINPGEN_LEN ++ fill filler 20) ++ records filler tcp ++ laid_out kind body
                    ++ padding filler body ++ post) tr table = Err (t, UnknownLayout)) /\
  match @refresh _ _ Empty_set read table with
  | Ok (t, Some _) => t = []
  | Ok (t, None) => is_Some (read Tcp) /\ is_Some (read Udp)
  | _ => False
  end /\
  (read Tcp = Some (export filler tcp closing_tcp) -> read Udp = Some (export filler udp closing_udp) ->
   @refresh _ _ Empty_set read table =
     Ok (sockets_finish (foldl sockets_push [] (listed Tcp None tcp ++ listed Udp None udp)), None)).
Proof.
  assert (forall l tr table, yields (parse l tr table)
    (fun e => e.2 = UnknownLayout) (fun t => exists added, t = table ++ added)) as Htotal.
  { intros l tr' table'. unfold parse. destruct (negb _); [done|].
    eapply yields_mono; [apply parse_loop_total|by intros [t e] [??]|done]. }
  split_and!.
  - specialize (Htotal buf tr table). destruct (parse buf tr table) as [t|[t e]|]; [exact Htotal|exact Htotal|done].
  - destruct Hbody. by apply moved_refused.
  - assert (sockets_finish (sockets_clear []) = []) as Hnil by (apply Permutation_nil, symmetry, sort_unstable_perm).
    unfold refresh, exports. cbn [read_exports]. change (sockets_clear ?t) with (@nil SocketRecord) in *.
    destruct (read Tcp) as [l1|]; [|done]. cbn [ok_or]. rewrite bind_Ok. pose proof (Htotal l1 Tcp []) as H1.
    destruct (parse l1 Tcp []) as [t1|[t1 e1]|]; cbn [mbind comp_bind]; [|done|done].
    destruct (read Udp) as [l2|]; [|done]. cbn [ok_or]. rewrite bind_Ok. pose proof (Htotal l2 Udp t1) as H2.
    by destruct (parse l2 Udp t1) as [t2|[t2 e2]|].
  - intros H1 H2. destruct Hct, Hcu. unfold refresh, exports. cbn [read_exports]. rewrite H1, H2. cbn [ok_or].
    rewrite !bind_Ok, export_read by done. rewrite !bind_Ok, export_read by done. rewrite bind_Ok. by rewrite foldl_app.
Qed.
End Snapshot.

(** Two sockets of one host: a connection, and a daemon's socket opened for another process. *)
Definition sample_items : list Item :=
  [Pcb (mkSocketAddr (V4 [10; 64; 0; 2]) 50000) (mkSocketAddr (V4 [198; 51; 100; 9]) 443); Noise 2 [0; 0; 0];
   Sock 42 0 [7; 7]; Pcb (mkSocketAddr (V4 [0; 0; 0; 0]) 5353) (mkSocketAddr (V4 [0; 0; 0; 0]) 0); Sock 300 501 []].

Lemma socket_export_read_witness :
  exists t, @parse little_endian ((@ne32 little_endian XINPGEN_LEN ++ fill 0 20) ++ @records little_endian 0 sample_items
      ++ @laid_out little_endian KIND_INPCB [1; 2] ++ padding 0 [1; 2] ++ [9]) Tcp [] = Err (t, UnknownLayout).
Proof.
  refine (proj1 (proj2 (@socket_export_read little_endian default_sort 0 sample_items [] (replicate 20 3) (replicate 20 3)
    [] [1; 2] [9] KIND_INPCB Tcp [] (fun _ => None) _ _ _ _ _ _ _ _))).
  all: unfold sample_items, moved; repeat (split || constructor);
    unfold is_byte, is_u16, is_u32, KIND_INPCB, KIND_SOCKET; simpl; try lia; try done.
Defined.
