(* ===== verification/Routes.v ===== *)
(** * The vocabulary of the route sessions (warren-app-routes/src/lib.rs, circuit.rs)

    What the daemon plans, what the tunnel reports, and how many sessions may
    run.  The signed descriptors and the directory they come from belong to
    libraries outside the repository: [Descriptors] is what the code reads of
    them. *)

From S2P Require Import Prelude Net.
Open Scope Z_scope.

(** What the code reads of [warrenguard_multihop]'s descriptors and of
    [warren_discovery_core]'s verified directory. *)
Class Descriptors : Type := {
  RelayDescriptorSigned : Type;
  relay_eq_dec :: EqDecision RelayDescriptorSigned;
  relay_id : RelayDescriptorSigned -> bytes;
  relay_endpoint : RelayDescriptorSigned -> SocketAddr;
  relay_endpoint_v6 : RelayDescriptorSigned -> option SocketAddr;
  ExitDescriptorSigned : Type;
  exit_id : ExitDescriptorSigned -> bytes;
  exit_endpoint : ExitDescriptorSigned -> option SocketAddr;
  VerifyingKey : Type;
  NodeEntry : Type;
  node_relay : NodeEntry -> RelayDescriptorSigned;
  node_exit : NodeEntry -> ExitDescriptorSigned;
  node_country : NodeEntry -> str;
  VerifiedMultiHopDirectory : Type;
  nodes : VerifiedMultiHopDirectory -> list NodeEntry
}.

Definition TOKEN_ROUTE_SESSIONS : Z := 2.
Definition MAX_ROUTE_SESSIONS : Z := 255.

(** [AnchorState] of the transport library. *)
Inductive AnchorState : Type := Anchored (max_routes : Z) | Unanchored | AnchorUnavailable.

(** [v.clamp(lo, hi)], which panics when [hi < lo]; here both are constants. *)
Definition clamp (v lo hi : Z) : Z := if v <? lo then lo else if hi <? v then hi else v.

Definition route_capacity (anchor : option AnchorState) : Z :=
  match anchor with
  | Some (Anchored max_routes) => clamp max_routes TOKEN_ROUTE_SESSIONS MAX_ROUTE_SESSIONS
  | Some (Unanchored | AnchorUnavailable) | None => TOKEN_ROUTE_SESSIONS
  end.

Record Credentials : Type := mkCredentials { rounds : Z; has_tokens : bool; issued_elsewhere : bool }.

Record MultiHopConfig `{!Descriptors} : Type := mkMultiHopConfig {
  relay : RelayDescriptorSigned;
  exit : ExitDescriptorSigned;
  operational_pubkey : VerifyingKey;
  exit_country : str;
  exit_city : str;
  enable_gso : bool;
  use_warren_obfuscation : bool;
  single_node : bool
}.

(** [multi_hop_bind_addr]: the wildcard address of the relay's family. *)
Definition multi_hop_bind_addr (relay_endpoint : SocketAddr) : SocketAddr :=
  match ip relay_endpoint with
  | V4 _ => mkSocketAddr (V4 (replicate 4 0)) 0
  | V6 _ => mkSocketAddr (V6 (replicate 16 0)) 0
  end.

Record MainRoute : Type := mkMainRoute { m_exit_id : bytes; m_apps : list str }.

Inductive RouteUnavailable : Type := RUNoToken | RURefused | RUFailed | RUNoReachableEntry.

Inductive RouteSessionState : Type :=
| SConnecting | SConnected | SUnavailable (reason : RouteUnavailable) | SWaiting.

Record RouteReport : Type := mkRouteReport { rep_exit_id : bytes; rep_state : RouteSessionState }.

#[export] Instance MainRoute_eq_dec : EqDecision MainRoute.
Proof. solve_decision. Defined.
#[export] Instance RouteUnavailable_eq_dec : EqDecision RouteUnavailable.
Proof. solve_decision. Defined.
#[export] Instance RouteSessionState_eq_dec : EqDecision RouteSessionState.
Proof. solve_decision. Defined.
#[export] Instance RouteReport_eq_dec : EqDecision RouteReport.
Proof. solve_decision. Defined.

Section Plan.
Context `{!Descriptors}.

Record PlannedRoute : Type := mkPlannedRoute { circuit : MultiHopConfig; r_apps : list str }.

Record AppRoutesPlan : Type := mkAppRoutesPlan {
  p_routes : list PlannedRoute;
  p_blocked_apps : list str;
  p_main_apps : list MainRoute
}.

Definition AppRoutesPlan_default : AppRoutesPlan := mkAppRoutesPlan [] [] [].

(** The entry relay and the exit: a route session's identity. *)
Definition circuit_identity (c : MultiHopConfig) : bytes * bytes := (relay_id (relay c), exit_id (exit c)).

Definition same_as (p other : AppRoutesPlan) : bool :=
  bool_decide (p_blocked_apps p = p_blocked_apps other)
  && bool_decide (p_main_apps p = p_main_apps other)
  && (zlen (p_routes p) =? zlen (p_routes other))
  && forallb (fun '(a, b) => bool_decide (r_apps a = r_apps b)
                && bool_decide (circuit_identity (circuit a) = circuit_identity (circuit b)))
       (zip (p_routes p) (p_routes other)).

(** What a plan asks for, as the tunnel sees it. *)
Definition route_key (r : PlannedRoute) : list str * (bytes * bytes) := (r_apps r, circuit_identity (circuit r)).

Lemma same_as_spec p q :
  same_as p q = true <->
  p_blocked_apps p = p_blocked_apps q /\ p_main_apps p = p_main_apps q /\
  route_key <$> p_routes p = route_key <$> p_routes q.
Proof.
  unfold same_as, zlen. rewrite !andb_true_iff, !bool_decide_eq_true, Z.eqb_eq.
  assert (Z.of_nat (length (p_routes p)) = Z.of_nat (length (p_routes q)) /\
          forallb (fun '(a, b) => bool_decide (r_apps a = r_apps b)
                && bool_decide (circuit_identity (circuit a) = circuit_identity (circuit b)))
            (zip (p_routes p) (p_routes q)) = true <->
          route_key <$> p_routes p = route_key <$> p_routes q) as Hr; [|tauto].
  generalize (p_routes q) as l'. induction (p_routes p) as [|a l IH]; intros [|b l']; simpl;
    [done|split; [lia|done]|split; [lia|done]|].
  rewrite !andb_true_iff, !bool_decide_eq_true. specialize (IH l').
  unfold route_key at 1 3. split.
  - intros [Hl [[Ha Hc] Hf]]. rewrite Ha, Hc. f_equal. apply IH. split; [lia|done].
  - intros [= Ha Hc1 Hc2 Hf]. apply IH in Hf as [Hl Hf]. split; [lia|].
    unfold circuit_identity. by rewrite Ha, Hc1, Hc2.
Qed.
End Plan.

(** Whatever the server answers, at least the routes the tokens pay for, and at most the ids the
    router has. *)
Lemma route_capacity_range anchor :
  TOKEN_ROUTE_SESSIONS <= route_capacity anchor <= MAX_ROUTE_SESSIONS.
Proof.
  unfold route_capacity, clamp, TOKEN_ROUTE_SESSIONS, MAX_ROUTE_SESSIONS.
  repeat case_match; zbool; lia.
Qed.
