(* ===== verification/RoutePlan.v ===== *)
(** * Which session each app's exit goes through (warren-app-routes/src/plan.rs)

    [plan] and [route_view], generic in the client's [PlanRules].  A circuit is
    selected by the client's own code ([select]), whose contract the theorems
    that need it name. *)

From S2P Require Import Prelude BTree Net AppKey Routes.
Open Scope Z_scope.

Inductive Unavailable : Type :=
| TunnelDown | NoToken | LimitReached | NoRelay | WaitingForRoute | NoDialableNetwork.

Inductive Resolution (R : Type) : Type :=
| RMain (public_ip : option IpAddr)
| RRoute (exit_id : bytes) (public_ip : option IpAddr)
| RUnavailable (reason : R).
Arguments RMain {R}.
Arguments RRoute {R}.
Arguments RUnavailable {R}.

Inductive RouteView (R : Type) : Type := VwConnecting | VwConnected | VwUnavailable (reason : R).
Arguments VwConnecting {R}.
Arguments VwConnected {R}.
Arguments VwUnavailable {R}.

(** [R: From<Unavailable>] *)
Class FromUnavailable (R : Type) : Type := from_unavailable : Unavailable -> R.

#[export] Instance from_unavailable_refl : FromUnavailable Unavailable := fun u => u.

Record PlanInputs `{!Descriptors} : Type := mkPlanInputs {
  directory : VerifiedMultiHopDirectory;
  two_hop : bool;
  entry_country : option str;
  main_exit : option bytes;
  drained : list bytes
}.

(** [trait PlanRules], its [Choice] being [C]. *)
Class PlanRules `{!Descriptors} (P C : Type) : Type := {
  admits : P -> C -> NodeEntry -> bool;
  select : P -> PlanInputs -> C -> option MultiHopConfig;
  routes_entry : P -> VerifiedMultiHopDirectory -> Z -> bool
}.

(** [routes_entry]'s default body. *)
Definition default_routes_entry `{!Descriptors} {P : Type} (rules : P) (dir : VerifiedMultiHopDirectory)
    (entry : Z) : bool := true.

(** The first element [same] finds extended, or [new] pushed: [match iter_mut().find(..)]. *)
Fixpoint extend_or_push {X : Type} (same : X -> bool) (extend : X -> X) (new : X) (l : list X) : list X :=
  match l with
  | [] => [new]
  | x :: l => if same x then extend x :: l else x :: extend_or_push same extend new l
  end.

Section Plan.
Context `{!Descriptors} {P C R : Type} `{!EqDecision C} `{!Countable C} `{!RustOrd C}
  `{!PlanRules P C} `{!FromUnavailable R}.

Record Planned : Type := mkPlanned {
  tunnel : AppRoutesPlan;
  resolutions : gmap C (Resolution R);
  circuits : gmap C MultiHopConfig
}.

Definition Planned_default : Planned := mkPlanned AppRoutesPlan_default ∅ ∅.

Definition block (p : Planned) (choice : C) (apps : list str) (reason : R) : Planned :=
  mkPlanned (mkAppRoutesPlan (p_routes (tunnel p)) (p_blocked_apps (tunnel p) ++ apps) (p_main_apps (tunnel p)))
    (<[choice := RUnavailable reason]> (resolutions p)) (circuits p).

Definition group_by_choice (pairs : list (C * str)) : gmap C (list str) := grouped pairs.

Definition plan_blocked (groups : gmap C (list str)) (reason : R) : Planned :=
  foldl (fun planned '(choice, apps) => block planned choice apps reason) Planned_default (btree_iter groups).

(** [iter().position(p)] and [iter().find(p)] *)
Fixpoint node_position (p : NodeEntry -> bool) (l : list NodeEntry) : option Z :=
  match l with
  | [] => None
  | n :: l => if p n then Some 0 else Z.succ <$> node_position p l
  end.

Definition has_exit (id : bytes) (node : NodeEntry) : bool := bool_decide (exit_id (node_exit node) = id).
Definition has_relay (id : bytes) (node : NodeEntry) : bool := bool_decide (relay_id (node_relay node) = id).

Fixpoint find_node (p : NodeEntry -> bool) (l : list NodeEntry) : option NodeEntry :=
  match l with
  | [] => None
  | n :: l => if p n then Some n else find_node p l
  end.

Definition still_valid (rules : P) (inputs : PlanInputs) (circuit : MultiHopConfig) (choice : C) : bool :=
  let dir := directory inputs in
  match node_position (has_relay (relay_id (relay circuit))) (nodes dir),
        find_node (has_exit (exit_id (Routes.exit circuit))) (nodes dir) with
  | Some entry_idx, Some exit =>
      match get (nodes dir) entry_idx with
      | Some entry =>
          let drained node := bool_decide (exit_id (node_exit node) ∈ drained inputs) in
          negb (Bool.eqb (single_node circuit) (two_hop inputs))
          && negb (drained entry)
          && negb (drained exit)
          && (negb (two_hop inputs)
              || match entry_country inputs with
                 | Some country => eq_ignore_ascii_case (node_country entry) country
                 | None => true
                 end)
          && admits rules choice exit
          && routes_entry rules dir entry_idx
      | None => false
      end
  | _, _ => false
  end.

Definition exit_matches (rules : P) (dir : VerifiedMultiHopDirectory) (id : bytes) (choice : C) : bool :=
  match find_node (has_exit id) (nodes dir) with
  | Some node => admits rules choice node
  | None => false
  end.

Definition exit_public_ip (dir : VerifiedMultiHopDirectory) (id : bytes) : option IpAddr :=
  node ← find_node (has_exit id) (nodes dir);
  Some (ip (default (relay_endpoint (node_relay node)) (exit_endpoint (node_exit node)))).

(** The apps added to the main route on [id], and to the route to [c]'s exit. *)
Definition ride_main (id : bytes) (apps : list str) : list MainRoute -> list MainRoute :=
  extend_or_push (fun r => bool_decide (m_exit_id r = id))
    (fun r => mkMainRoute (m_exit_id r) (m_apps r ++ apps)) (mkMainRoute id apps).

Definition ride_route (c : MultiHopConfig) (apps : list str) : list PlannedRoute -> list PlannedRoute :=
  extend_or_push (fun r => bool_decide (exit_id (Routes.exit (circuit r)) = exit_id (Routes.exit c)))
    (fun r => mkPlannedRoute (circuit r) (r_apps r ++ apps)) (mkPlannedRoute c apps).

(** The main exit when it already matches the choice. *)
Definition main_match (rules : P) (inputs : PlanInputs) (choice : C) : option bytes :=
  id ← main_exit inputs; if exit_matches rules (directory inputs) id choice then Some id else None.

(** The last plan's circuit while it stays valid, another one otherwise. *)
Definition circuit_for (rules : P) (inputs : PlanInputs) (previous : gmap C MultiHopConfig) (choice : C)
    : option MultiHopConfig :=
  match (c ← previous !! choice; if still_valid rules inputs c choice then Some c else None) with
  | Some c => Some c
  | None => select rules inputs choice
  end.

(** One turn of [plan]'s loop. *)
Definition plan_choice (rules : P) (inputs : PlanInputs) (previous : gmap C MultiHopConfig) (planned : Planned)
    (choice : C) (apps : list str) : Planned :=
  let t := tunnel planned in
  match main_match rules inputs choice with
  | Some id =>
      mkPlanned (mkAppRoutesPlan (p_routes t) (p_blocked_apps t) (ride_main id apps (p_main_apps t)))
        (<[choice := RMain (exit_public_ip (directory inputs) id)]> (resolutions planned)) (circuits planned)
  | None =>
      match circuit_for rules inputs previous choice with
      | None => block planned choice apps (from_unavailable NoRelay)
      | Some c =>
          let id := exit_id (Routes.exit c) in
          mkPlanned (mkAppRoutesPlan (ride_route c apps (p_routes t)) (p_blocked_apps t) (p_main_apps t))
            (<[choice := RRoute id (exit_public_ip (directory inputs) id)]> (resolutions planned))
            (<[choice := c]> (circuits planned))
      end
  end.

Definition plan (rules : P) (groups : gmap C (list str)) (inputs : option PlanInputs)
    (previous : gmap C MultiHopConfig) : Planned :=
  match inputs with
  | None => plan_blocked groups (from_unavailable NoRelay)
  | Some inputs =>
      foldl (fun planned '(choice, apps) => plan_choice rules inputs previous planned choice apps)
        Planned_default (btree_iter groups)
  end.

Definition session_view (state : RouteSessionState) (public_ip : option IpAddr)
    : RouteView R * option IpAddr :=
  let unavailable reason := (VwUnavailable (from_unavailable reason), None) in
  match state with
  | SConnecting => (VwConnecting, None)
  | SConnected => (VwConnected, public_ip)
  | SWaiting => unavailable WaitingForRoute
  | SUnavailable RUNoToken => unavailable NoToken
  | SUnavailable RURefused => unavailable LimitReached
  | SUnavailable RUFailed => unavailable NoRelay
  | SUnavailable RUNoReachableEntry => unavailable NoDialableNetwork
  end.

Fixpoint find_report (id : bytes) (reports : list RouteReport) : option RouteReport :=
  match reports with
  | [] => None
  | r :: reports => if bool_decide (rep_exit_id r = id) then Some r else find_report id reports
  end.

Definition route_view (tunnel_connected : bool) (resolution : option (Resolution R))
    (reports : list RouteReport) : RouteView R * option IpAddr :=
  if negb tunnel_connected then (VwUnavailable (from_unavailable TunnelDown), None) else
  match resolution with
  | Some (RMain public_ip) => (VwConnected, public_ip)
  | Some (RUnavailable reason) => (VwUnavailable reason, None)
  | Some (RRoute id public_ip) =>
      match find_report id reports with
      | Some report => session_view (rep_state report) public_ip
      | None => (VwConnecting, None)
      end
  | None => (VwConnecting, None)
  end.
End Plan.
Arguments Planned {_} C R {_ _}.

(** ** Extending or pushing *)

Section ExtendOrPush.
Context {X : Type} (key : X -> bytes) (carried : X -> list str).
Context (id : bytes) (apps : list str) (same : X -> bool) (extend : X -> X) (new : X).
Hypothesis same_key : forall x, same x = true <-> key x = id.
Hypothesis extend_key : forall x, key (extend x) = key x.
Hypothesis extend_carried : forall x, carried (extend x) = carried x ++ apps.
Hypothesis new_key : key new = id.
Hypothesis new_carried : carried new = apps.
Let push := extend_or_push same extend new.

(** Someone with this key carries these apps. *)
Definition carries (l : list X) (k : bytes) (a : list str) : Prop :=
  exists x, x ∈ l /\ key x = k /\ a ⊆ carried x.

Lemma push_carries l : carries (push l) id apps.
Proof.
  subst push. induction l as [|x l (y & Hy & Hk & Ha)]; simpl.
  - exists new. rewrite new_carried. split; [by left|done].
  - destruct (same x) eqn:Hs.
    + exists (extend x). rewrite extend_key, extend_carried. split; [by left|].
      split; [by apply same_key|]. intros a Hin. apply elem_of_app. by right.
    + exists y. split; [by right|done].
Qed.

Lemma push_keeps l k a : carries l k a -> carries (push l) k a.
Proof.
  subst push. intros (x & Hx & Hk & Ha). induction l as [|y l IH]; [by apply not_elem_of_nil in Hx|].
  simpl. apply elem_of_cons in Hx as [<-|Hx].
  - destruct (same x).
    + exists (extend x). rewrite extend_key, extend_carried. split; [by left|].
      split; [done|]. intros b Hb%Ha. apply elem_of_app. by left.
    + exists x. split; [by left|done].
  - destruct (same y); [exists x; split; [by right|done]|].
    destruct (IH Hx) as (z & Hz & ?). exists z. split; [by right|done].
Qed.

Lemma push_perm l : concat (carried <$> push l) ≡ₚ concat (carried <$> l) ++ apps.
Proof.
  subst push. induction l as [|x l IH]; simpl; [by rewrite new_carried, app_nil_r|].
  destruct (same x); simpl.
  - rewrite extend_carried. rewrite <- !app_assoc. apply Permutation_app_head. apply Permutation_app_comm.
  - rewrite IH. by rewrite app_assoc.
Qed.

Lemma push_keys l : key <$> push l = if bool_decide (id ∈ key <$> l) then key <$> l else (key <$> l) ++ [id].
Proof.
  subst push. induction l as [|x l IH]; cbn [extend_or_push fmap list_fmap].
  - rewrite bool_decide_eq_false_2 by apply not_elem_of_nil. simpl. by rewrite new_key.
  - destruct (same x) eqn:Hs; cbn [fmap list_fmap].
    + rewrite extend_key. rewrite bool_decide_eq_true_2; [done|]. apply same_key in Hs. rewrite Hs. left.
    + rewrite IH. assert (key x <> id) as Hn by (intros ?%same_key; congruence).
      destruct (decide (id ∈ key <$> l)) as [Hin|Hin].
      * rewrite !bool_decide_eq_true_2; [done|by right|done].
      * rewrite !bool_decide_eq_false_2; [done| |done]. intros [?|?]%elem_of_cons; [by subst|done].
Qed.

Lemma push_NoDup l : NoDup (key <$> l) -> NoDup (key <$> push l).
Proof.
  rewrite push_keys. case_bool_decide as Hin; [done|]. intros Hd. apply NoDup_app.
  split; [done|]. split; [|apply NoDup_singleton]. intros k Hk Hk'%list_elem_of_singleton. by subst.
Qed.

Lemma push_keys_in l k : k ∈ key <$> push l -> k = id \/ k ∈ key <$> l.
Proof.
  rewrite push_keys. case_bool_decide; [by right|]. rewrite elem_of_app, list_elem_of_singleton. tauto.
Qed.
End ExtendOrPush.

(** ** What a plan promises *)

Section PlanSpec.
Context `{!Descriptors} {P C R : Type} `{!EqDecision C} `{!Countable C} `{!RustOrd C}
  `{!PlanRules P C} `{!FromUnavailable R}.
Implicit Types (p : Planned C R) (t : AppRoutesPlan).

(** Every app the plan names, wherever it names it. *)
Definition planned_apps t : list str :=
  p_blocked_apps t ++ concat (r_apps <$> p_routes t) ++ concat (m_apps <$> p_main_apps t).

Definition route_exit (r : PlannedRoute) : bytes := exit_id (Routes.exit (circuit r)).

(** How the plan [p] serves the apps of one choice. *)
Definition fate (rules : P) (inputs : PlanInputs) (previous : gmap C MultiHopConfig) p
    (choice : C) (apps : list str) : Prop :=
  match main_match rules inputs choice with
  | Some id =>
      resolutions p !! choice = Some (RMain (exit_public_ip (directory inputs) id)) /\
      circuits p !! choice = None /\ carries m_exit_id m_apps (p_main_apps (tunnel p)) id apps
  | None =>
      match circuit_for rules inputs previous choice with
      | Some c =>
          let id := exit_id (Routes.exit c) in
          resolutions p !! choice = Some (RRoute id (exit_public_ip (directory inputs) id)) /\
          circuits p !! choice = Some c /\ carries route_exit r_apps (p_routes (tunnel p)) id apps
      | None =>
          resolutions p !! choice = Some (RUnavailable (from_unavailable NoRelay)) /\
          circuits p !! choice = None /\ apps ⊆ p_blocked_apps (tunnel p)
      end
  end.

(** The plan names [apps], each in one place. *)
Record shaped (inputs : PlanInputs) (apps : list str) t : Prop := {
  shaped_apps : planned_apps t ≡ₚ apps;
  shaped_routes : NoDup (route_exit <$> p_routes t);
  shaped_mains : NoDup (m_exit_id <$> p_main_apps t);
  shaped_main_exit : Forall (fun id => main_exit inputs = Some id) (m_exit_id <$> p_main_apps t)
}.

(** What a plan is built from groups visited so far, [l]. *)
Record built (rules : P) (inputs : PlanInputs) (previous : gmap C MultiHopConfig)
    (l : list (C * list str)) p : Prop := {
  built_fate : Forall (fun g => fate rules inputs previous p g.1 g.2) l;
  built_domain : dom (resolutions p) = list_to_set l.*1;
  built_circuits : dom (circuits p) ⊆ list_to_set l.*1;
  built_shaped : shaped inputs (concat l.*2) (tunnel p)
}.

Section Rides.
Context (id : bytes) (c : MultiHopConfig) (apps : list str).

Lemma ride_main_carries l : carries m_exit_id m_apps (ride_main id apps l) id apps.
Proof. apply push_carries; try done. intros. apply bool_decide_eq_true. Qed.
Lemma ride_main_keeps l k a :
  carries m_exit_id m_apps l k a -> carries m_exit_id m_apps (ride_main id apps l) k a.
Proof. by apply push_keeps with (apps := apps). Qed.
Lemma ride_main_perm l : concat (m_apps <$> ride_main id apps l) ≡ₚ concat (m_apps <$> l) ++ apps.
Proof. by apply push_perm. Qed.
Lemma ride_main_NoDup l : NoDup (m_exit_id <$> l) -> NoDup (m_exit_id <$> ride_main id apps l).
Proof. apply (push_NoDup m_exit_id m_apps id apps); try done. intros. apply bool_decide_eq_true. Qed.
Lemma ride_main_in l k : k ∈ m_exit_id <$> ride_main id apps l -> k = id \/ k ∈ m_exit_id <$> l.
Proof. apply (push_keys_in m_exit_id m_apps id apps); try done. intros. apply bool_decide_eq_true. Qed.

Lemma ride_route_carries l : carries route_exit r_apps (ride_route c apps l) (exit_id (Routes.exit c)) apps.
Proof. apply push_carries; try done. intros. apply bool_decide_eq_true. Qed.
Lemma ride_route_keeps l k a :
  carries route_exit r_apps l k a -> carries route_exit r_apps (ride_route c apps l) k a.
Proof. by apply push_keeps with (apps := apps). Qed.
Lemma ride_route_perm l : concat (r_apps <$> ride_route c apps l) ≡ₚ concat (r_apps <$> l) ++ apps.
Proof. by apply push_perm. Qed.
Lemma ride_route_NoDup l : NoDup (route_exit <$> l) -> NoDup (route_exit <$> ride_route c apps l).
Proof. apply (push_NoDup route_exit r_apps (exit_id (Routes.exit c)) apps); try done. intros. apply bool_decide_eq_true. Qed.
End Rides.

Lemma main_match_exit rules inputs choice id :
  main_match rules inputs choice = Some id -> main_exit inputs = Some id.
Proof. unfold main_match. destruct (main_exit inputs); simpl; [|done]. destruct (exit_matches _ _ _ _); congruence. Qed.

Lemma plan_choice_shaped rules inputs previous p choice apps before :
  shaped inputs before (tunnel p) ->
  shaped inputs (before ++ apps) (tunnel (plan_choice rules inputs previous p choice apps)).
Proof.
  intros [Ha Hr Hm He]. unfold planned_apps in Ha. unfold plan_choice.
  destruct (main_match rules inputs choice) as [id|] eqn:Hmain;
    [|destruct (circuit_for rules inputs previous choice) as [c|]]; split; simpl; try done;
    unfold planned_apps; simpl.
  - rewrite ride_main_perm. rewrite <- Ha. by rewrite !app_assoc.
  - by apply ride_main_NoDup.
  - rewrite Forall_forall in *. intros k [->|?]%ride_main_in; [by eapply main_match_exit|by apply He].
  - rewrite ride_route_perm. rewrite <- Ha. rewrite <- !app_assoc. do 2 apply Permutation_app_head.
    apply Permutation_app_comm.
  - by apply ride_route_NoDup.
  - rewrite <- Ha. rewrite <- !app_assoc. apply Permutation_app_head.
    by rewrite Permutation_app_comm, <- app_assoc.
Qed.

Lemma plan_choice_fate rules inputs previous p choice apps :
  circuits p !! choice = None ->
  fate rules inputs previous (plan_choice rules inputs previous p choice apps) choice apps.
Proof.
  intros Hc. unfold fate, plan_choice. destruct (main_match rules inputs choice) as [id|]; simpl.
  - rewrite lookup_insert_eq. split; [done|]. split; [done|]. apply ride_main_carries.
  - destruct (circuit_for rules inputs previous choice) as [c|]; simpl; rewrite !lookup_insert_eq;
      (split; [done|]); (split; [done|]); [apply ride_route_carries|].
    intros a Ha. apply elem_of_app. by right.
Qed.

Lemma plan_choice_keeps rules inputs previous p choice apps choice' apps' :
  choice' <> choice -> fate rules inputs previous p choice' apps' ->
  fate rules inputs previous (plan_choice rules inputs previous p choice apps) choice' apps'.
Proof.
  intros Hn. unfold fate, plan_choice.
  destruct (main_match rules inputs choice) as [id|], (main_match rules inputs choice') as [id'|];
    [ |destruct (circuit_for rules inputs previous choice')
    |destruct (circuit_for rules inputs previous choice)
    |destruct (circuit_for rules inputs previous choice), (circuit_for rules inputs previous choice')];
    simpl; rewrite ?lookup_insert_ne by done; intros (? & ? & Hf);
    (split; [done|]); (split; [done|]); auto using ride_main_keeps, ride_route_keeps;
    intros a Ha%Hf; apply elem_of_app; by left.
Qed.

Lemma plan_choice_dom rules inputs previous p choice apps :
  dom (resolutions (plan_choice rules inputs previous p choice apps)) = {[choice]} ∪ dom (resolutions p) /\
  dom (circuits (plan_choice rules inputs previous p choice apps)) ⊆ {[choice]} ∪ dom (circuits p).
Proof.
  unfold plan_choice. destruct (main_match rules inputs choice); simpl.
  - rewrite dom_insert_L. set_solver.
  - destruct (circuit_for rules inputs previous choice); simpl; rewrite !dom_insert_L; set_solver.
Qed.

Lemma built_all rules inputs previous l :
  NoDup l.*1 ->
  built rules inputs previous l
    (foldl (fun planned '(choice, apps) => plan_choice rules inputs previous planned choice apps)
       Planned_default l).
Proof.
  induction l as [|[choice apps] l IH] using rev_ind; intros Hd.
  - split; simpl; [constructor|set_solver|set_solver|]. split; simpl; [done| | |]; constructor.
  - rewrite foldl_app, fmap_app in *. apply NoDup_app in Hd as (Hd & Hn & _). simpl in *.
    destruct (IH Hd) as [Hf Hr Hc Hs].
    assert (choice ∉ l.*1) as Hnew by (intros ?; eapply Hn; [done|by left]).
    set (p := foldl _ _ l) in *.
    destruct (plan_choice_dom rules inputs previous p choice apps) as [Hdr Hdc].
    split.
    + apply Forall_app. split; [|apply Forall_singleton; simpl].
      * rewrite Forall_forall in Hf |- *. intros [choice' apps'] Hin. specialize (Hf _ Hin).
        apply plan_choice_keeps; [|done]. simpl. intros ->. apply Hnew. apply list_elem_of_fmap. by exists (choice, apps').
      * apply plan_choice_fate. apply not_elem_of_dom. intros Hin%Hc. by apply elem_of_list_to_set in Hin.
    + rewrite Hdr, Hr, fmap_app, list_to_set_app_L. set_solver.
    + rewrite fmap_app, list_to_set_app_L. set_solver.
    + rewrite fmap_app, concat_app. simpl. rewrite app_nil_r. by apply plan_choice_shaped.
Qed.

Lemma plan_built rules inputs previous groups :
  built rules inputs previous (btree_iter groups) (plan rules groups (Some inputs) previous).
Proof. apply built_all, btree_iter_NoDup. Qed.

Lemma btree_dom (groups : gmap C (list str)) : list_to_set (btree_iter groups).*1 = dom groups.
Proof. rewrite btree_iter_perm. apply leibniz_equiv. by rewrite <- dom_alt. Qed.

Lemma plan_fate rules inputs previous groups :
  map_Forall (fate rules inputs previous (plan rules groups (Some inputs) previous)) groups.
Proof.
  intros choice apps Hg%elem_of_btree_iter. destruct (plan_built rules inputs previous groups) as [Hf _ _ _].
  rewrite Forall_forall in Hf. exact (Hf _ Hg).
Qed.

Lemma plan_blocked_all (groups : gmap C (list str)) (reason : R) l p :
  p = foldl (fun planned '(choice, apps) => block planned choice apps reason) Planned_default l ->
  p_routes (tunnel p) = [] /\ p_main_apps (tunnel p) = [] /\ circuits p = ∅ /\
  p_blocked_apps (tunnel p) = concat l.*2 /\
  (forall choice, resolutions p !! choice = if decide (choice ∈ l.*1) then Some (RUnavailable reason) else None).
Proof.
  intros ->. induction l as [|[choice apps] l IH] using rev_ind; [done|].
  rewrite foldl_app, !fmap_app, concat_app. simpl. destruct IH as (Hr & Hm & Hc & Hb & Hl).
  rewrite Hb, app_nil_r. repeat split; try done. intros choice'.
  destruct (decide (choice' = choice)) as [->|Hn].
  - rewrite lookup_insert_eq, decide_True; [done|]. apply elem_of_app. right. by left.
  - rewrite lookup_insert_ne, Hl by done. destruct (decide (choice' ∈ l.*1)) as [Hi|Hi].
    + rewrite decide_True; [done|]. apply elem_of_app. by left.
    + rewrite decide_False; [done|]. rewrite elem_of_app, list_elem_of_singleton. tauto.
Qed.

(** C38: a plan names every app of the groups exactly once and no other: blocked, on one route, or
    on the main exit. Each exit in force is resolved, and its apps are where its resolution says:
    with the main session only when the main session is on an exit the choice admits, on the one
    route of the exit the choice resolved to, or blocked. Without a directory every app is
    blocked. *)
Theorem plan_serves_every_app (rules : P) (groups : gmap C (list str)) (previous : gmap C MultiHopConfig)
    (o : option PlanInputs) :
  let p : Planned C R := plan rules groups o previous in
  planned_apps (tunnel p) ≡ₚ concat (btree_iter groups).*2 /\
  dom (resolutions p) = dom groups /\ dom (circuits p) ⊆ dom groups /\
  NoDup (route_exit <$> p_routes (tunnel p)) /\ NoDup (m_exit_id <$> p_main_apps (tunnel p)) /\
  Forall (fun id => (inputs ← o; main_exit inputs) = Some id) (m_exit_id <$> p_main_apps (tunnel p)) /\
  match o with
  | Some inputs => map_Forall (fate rules inputs previous p) groups
  | None => map_Forall (fun choice apps => resolutions p !! choice = Some (RUnavailable (from_unavailable NoRelay)) /\
              apps ⊆ p_blocked_apps (tunnel p)) groups
  end.
Proof.
  intros p. destruct o as [inputs|].
  - destruct (plan_built rules inputs previous groups) as [_ Hd Hc [Ha Hr Hm He]].
    rewrite btree_dom in Hd, Hc. repeat split; try done. apply plan_fate.
  - destruct (plan_blocked_all groups (from_unavailable NoRelay) (btree_iter groups) p eq_refl)
      as (Hr & Hm & Hc & Hb & Hl).
    unfold planned_apps. rewrite Hr, Hm, Hc, Hb. simpl. repeat split.
    + by rewrite app_nil_r.
    + apply set_eq. intros choice. rewrite <- btree_dom, elem_of_dom, elem_of_list_to_set, Hl.
      by destruct (decide _); split; [| |intros [? [=]]|].
    + set_solver.
    + constructor.
    + constructor.
    + constructor.
    + rewrite Hl, decide_True; [done|]. apply list_elem_of_fmap. exists (i, x).
      split; [done|]. by apply elem_of_btree_iter.
    + intros a Ha. apply list_elem_of_In, in_concat. exists x.
      split; [|by apply list_elem_of_In]. apply list_elem_of_In, list_elem_of_fmap. exists (i, x).
      split; [done|]. by apply elem_of_btree_iter.
Qed.

(** ** The circuits *)

(** A circuit that serves [choice]: both of its nodes are listed and not draining, and it has the
    main connection's shape. *)
Definition circuit_serves (rules : P) (inputs : PlanInputs) (c : MultiHopConfig) (choice : C) : Prop :=
  exists i entry exit,
    get (nodes (directory inputs)) i = Some entry /\ exit ∈ nodes (directory inputs) /\
    relay_id (node_relay entry) = relay_id (relay c) /\
    exit_id (node_exit exit) = exit_id (Routes.exit c) /\
    exit_id (node_exit entry) ∉ drained inputs /\ exit_id (node_exit exit) ∉ drained inputs /\
    single_node c = negb (two_hop inputs) /\
    (two_hop inputs = true -> forall country, entry_country inputs = Some country ->
       eq_ignore_ascii_case (node_country entry) country = true) /\
    admits rules choice exit = true /\ routes_entry rules (directory inputs) i = true.

Lemma find_node_Some f l n : find_node f l = Some n -> n ∈ l /\ f n = true.
Proof.
  induction l as [|x l IH]; simpl; [done|]. destruct (f x) eqn:E.
  - intros [= ->]. split; [by left|done].
  - intros (Hn & Hf)%IH. split; [by right|done].
Qed.

Lemma node_position_Some f l i :
  node_position f l = Some i -> exists n, get l i = Some n /\ f n = true.
Proof.
  revert i. induction l as [|x l IH]; intros i; simpl; [done|]. destruct (f x) eqn:E.
  - intros [= <-]. by exists x.
  - destruct (node_position f l) as [j|]; simpl; [|done]. intros [= <-].
    destruct (IH j eq_refl) as (n & Hn & Hf). exists n. split; [|done].
    unfold get in *. destruct (Z.leb_spec 0 j); [|done]. destruct (Z.leb_spec 0 (Z.succ j)); [|lia].
    by replace (Z.to_nat (Z.succ j)) with (S (Z.to_nat j)) by lia.
Qed.

Lemma still_valid_serves rules inputs c choice :
  still_valid rules inputs c choice = true -> circuit_serves rules inputs c choice.
Proof.
  unfold still_valid. destruct (node_position _ _) as [i|] eqn:Hi; [|done].
  destruct (find_node _ _) as [exit|] eqn:He; [|done].
  apply node_position_Some in Hi as (entry & Hg & Hr). apply find_node_Some in He as [Hin Hx].
  rewrite Hg. rewrite !andb_true_iff. intros [[[[[Hs Hd1] Hd2] Hc] Ha] Hre].
  exists i, entry, exit. unfold has_relay, has_exit in *.
  apply bool_decide_eq_true in Hr, Hx. apply negb_true_iff, bool_decide_eq_false in Hd1, Hd2.
  repeat split; try done.
  - by destruct (single_node c), (two_hop inputs).
  - intros H2 country Hcountry. by rewrite H2, Hcountry in Hc.
Qed.

Lemma circuit_for_serves rules inputs previous choice c :
  (forall choice c, select rules inputs choice = Some c -> circuit_serves rules inputs c choice) ->
  circuit_for rules inputs previous choice = Some c -> circuit_serves rules inputs c choice.
Proof.
  intros Hsel. unfold circuit_for. destruct (previous !! choice) as [c'|]; simpl; [|apply Hsel].
  destruct (still_valid rules inputs c' choice) eqn:E; [|apply Hsel].
  intros [= <-]. by apply still_valid_serves.
Qed.

(** Every route dials a circuit one of the choices resolved to. *)
Lemma plan_routes_circuits rules inputs previous l :
  NoDup l.*1 ->
  let p : Planned C R :=
    foldl (fun planned '(choice, apps) => plan_choice rules inputs previous planned choice apps)
      Planned_default l in
  Forall (fun r => exists choice, circuits p !! choice = Some (circuit r)) (p_routes (tunnel p)).
Proof.
  induction l as [|[choice apps] l IH] using rev_ind; intros Hd; [constructor|].
  pose proof (built_all rules inputs previous l) as Hbuilt.
  rewrite foldl_app, fmap_app in *. apply NoDup_app in Hd as (Hd & Hn & _). simpl in *.
  specialize (IH Hd). destruct (Hbuilt Hd) as [_ _ Hc _]. set (p := foldl _ _ l) in *.
  assert (circuits p !! choice = None) as Hnone.
  { apply not_elem_of_dom. intros Hin%Hc. apply elem_of_list_to_set in Hin. eapply Hn; [done|by left]. }
  assert (forall c x, circuits p !! x = Some c -> <[choice := c]> (circuits p) !! x = Some c) as Hkeep.
  { intros c x Hx. destruct (decide (x = choice)) as [->|]; [congruence|by rewrite lookup_insert_ne]. }
  unfold plan_choice. destruct (main_match rules inputs choice); simpl; [done|].
  destruct (circuit_for rules inputs previous choice) as [c|]; simpl; [|done].
  clear -IH Hnone. unfold ride_route. induction (p_routes (tunnel p)) as [|r rs IHr]; simpl.
  - repeat constructor. exists choice. by rewrite lookup_insert_eq.
  - apply Forall_cons in IH as [[x Hx] IH].
    assert (forall y d, circuits p !! y = Some d -> <[choice := c]> (circuits p) !! y = Some d) as Hkeep.
    { intros y d Hy. destruct (decide (y = choice)) as [->|]; [congruence|by rewrite lookup_insert_ne]. }
    case_bool_decide; constructor; simpl; eauto. eapply Forall_impl; [exact IH|]. naive_solver.
Qed.

(** What holds of every circuit a choice may resolve to holds of those planned and routed. *)
Lemma planned_circuits_all (rules : P) (inputs : PlanInputs) (groups : gmap C (list str))
    (previous : gmap C MultiHopConfig) (Q : C -> MultiHopConfig -> Prop) :
  (forall choice c, circuit_for rules inputs previous choice = Some c -> Q choice c) ->
  let p : Planned C R := plan rules groups (Some inputs) previous in
  map_Forall Q (circuits p) /\
  Forall (fun r => exists choice, circuits p !! choice = Some (circuit r) /\ Q choice (circuit r)) (p_routes (tunnel p)).
Proof.
  intros HQ p. assert (map_Forall Q (circuits p)) as Hall.
  { intros choice c Hc. destruct (plan_built rules inputs previous groups) as [_ _ Hdom _].
    assert (choice ∈ dom groups) as [apps Hg]%elem_of_dom.
    { rewrite <- btree_dom. apply Hdom. by apply elem_of_dom_2 in Hc. }
    pose proof (plan_fate rules inputs previous groups choice apps Hg) as Hf.
    unfold fate in Hf. fold p in Hf. destruct (main_match rules inputs choice); [naive_solver|].
    destruct (circuit_for rules inputs previous choice) as [c'|] eqn:Ec; [|naive_solver].
    destruct Hf as (_ & Hf & _). rewrite Hc in Hf. injection Hf as <-. by apply HQ. }
  split; [done|].
  pose proof (plan_routes_circuits rules inputs previous (btree_iter groups) (btree_iter_NoDup _)) as Hr.
  eapply Forall_impl; [exact Hr|]. intros r [choice Hc]. exists choice. split; [done|]. by apply Hall.
Qed.

(** Given a client whose selection does what the planner asks of it, no plan dials a circuit
    that does not serve its choice: whether just selected or kept from the last plan, the circuit's
    entry and exit are listed in the directory in force and not draining, it has as many hops as
    the main connection and its entry country, its exit is in the choice, and the network routes
    its entry. Every route of the plan dials such a circuit. *)
Theorem planned_circuits_serve (rules : P) (groups : gmap C (list str)) (previous : gmap C MultiHopConfig)
    (inputs : PlanInputs)
    (Hselect : forall choice c, select rules inputs choice = Some c -> circuit_serves rules inputs c choice) :
  let p : Planned C R := plan rules groups (Some inputs) previous in
  map_Forall (fun choice c => circuit_serves rules inputs c choice) (circuits p) /\
  Forall (fun r => exists choice, circuits p !! choice = Some (circuit r) /\
                     circuit_serves rules inputs (circuit r) choice) (p_routes (tunnel p)).
Proof.
  apply planned_circuits_all. intros choice c. by apply circuit_for_serves.
Qed.

(** Where the choices resolve to the same circuits from those just planned, the plan is the same. *)
Lemma plan_again (rules rules' : P) (groups : gmap C (list str)) (previous : gmap C MultiHopConfig) (inputs : PlanInputs) :
  (forall choice, main_match rules' inputs choice = main_match rules inputs choice) ->
  (forall choice m, m !! choice = circuit_for rules inputs previous choice ->
     circuit_for rules' inputs m choice = circuit_for rules inputs previous choice) ->
  let p : Planned C R := plan rules groups (Some inputs) previous in
  plan rules' groups (Some inputs) (circuits p) = p.
Proof.
  intros Hmm Hagain p.
  assert (forall l (q : Planned C R),
    Forall (fun g => fate rules inputs previous p g.1 g.2) l ->
    foldl (fun planned '(choice, apps) => plan_choice rules' inputs (circuits p) planned choice apps) q l =
    foldl (fun planned '(choice, apps) => plan_choice rules inputs previous planned choice apps) q l) as Hfold.
  { induction l as [|[choice apps] l IH]; intros q Hl; simpl; [done|].
    apply Forall_cons in Hl as [Hf Hl]. rewrite IH by done. f_equal.
    unfold fate in Hf. simpl in Hf. unfold plan_choice. rewrite Hmm. destruct (main_match rules inputs choice); [done|].
    rewrite Hagain; [done|]. by destruct (circuit_for rules inputs previous choice); destruct Hf as (_ & -> & _). }
  unfold plan at 1. rewrite Hfold; [done|].
  destruct (plan_built rules inputs previous groups) as [Hf _ _ _]. exact Hf.
Qed.

Lemma plan_again_same (rules : P) (groups : gmap C (list str)) (previous : gmap C MultiHopConfig) (inputs : PlanInputs) :
  let p : Planned C R := plan rules groups (Some inputs) previous in
  plan rules groups (Some inputs) (circuits p) = p.
Proof.
  apply plan_again; [done|]. intros choice m Hm. unfold circuit_for at 1. rewrite Hm. unfold circuit_for.
  destruct (previous !! choice) as [c|]; simpl; [|destruct (select rules inputs choice) as [d|]; simpl; [by destruct (still_valid rules inputs d choice)|done]].
  destruct (still_valid rules inputs c choice) eqn:E; simpl; [by rewrite E|].
  destruct (select rules inputs choice) as [d|]; simpl; [by destruct (still_valid rules inputs d choice)|done].
Qed.

(** Planning again over the same directory changes nothing, whatever the client would select
    this time. The circuits of the last plan are kept for as long as they are valid, so a second
    selection that prefers other nodes (another random pick, other weights) moves no live route:
    the whole plan, its resolutions and its circuits are the same. *)
Theorem replan_stable (rules rules' : P) (groups : gmap C (list str)) (previous : gmap C MultiHopConfig)
    (inputs : PlanInputs)
    (Hadmits : forall choice node, admits rules' choice node = admits rules choice node)
    (Hroutes : forall i, routes_entry rules' (directory inputs) i = routes_entry rules (directory inputs) i)
    (Hselect : forall choice c, select rules inputs choice = Some c -> still_valid rules inputs c choice = true)
    (Hnone : forall choice, select rules inputs choice = None -> select rules' inputs choice = None) :
  let p : Planned C R := plan rules groups (Some inputs) previous in
  plan rules' groups (Some inputs) (circuits p) = p.
Proof.
  assert (forall choice c, still_valid rules' inputs c choice = still_valid rules inputs c choice) as Hsv.
  { intros choice c. unfold still_valid.
    destruct (node_position _ _) as [i|]; [|done]. destruct (find_node _ _) as [exit|]; [|done].
    destruct (get _ i) as [entry|]; [|done]. by rewrite Hadmits, Hroutes. }
  apply plan_again.
  - intros choice. unfold main_match, exit_matches. destruct (main_exit inputs) as [id|]; simpl; [|done].
    destruct (find_node _ _) as [node|]; [|done]. by rewrite Hadmits.
  - intros choice m Hm. unfold circuit_for at 1. rewrite Hm. unfold circuit_for.
    destruct (previous !! choice) as [c|]; simpl.
    + destruct (still_valid rules inputs c choice) eqn:E; simpl; [by rewrite Hsv, E|].
      destruct (select rules inputs choice) as [d|] eqn:Es; simpl; [by rewrite Hsv, (Hselect _ _ Es)|by apply Hnone].
    + destruct (select rules inputs choice) as [d|] eqn:Es; simpl; [by rewrite Hsv, (Hselect _ _ Es)|by apply Hnone].
Qed.

(** An exit is shown connected exactly when its traffic can leave through it now: the main
    connection is up, and the exit rides it or the last word on its route session is that it is
    connected. An address is shown for a connected exit only, and a route the tunnel says nothing
    of is connecting, never connected. *)
Theorem route_view_connected (tunnel_connected : bool) (resolution : option (Resolution R))
    (reports : list RouteReport) (public_ip : option IpAddr) :
  (route_view tunnel_connected resolution reports = (VwConnected, public_ip) <->
     tunnel_connected = true /\
     (resolution = Some (RMain public_ip) \/
      exists id report, resolution = Some (RRoute id public_ip) /\
        find_report id reports = Some report /\ rep_state report = SConnected)) /\
  (let view := route_view tunnel_connected resolution reports in
   view.2 = None \/ view.1 = VwConnected).
Proof.
  unfold route_view. destruct tunnel_connected; simpl; [|split; [split; [done|naive_solver]|by left]].
  destruct resolution as [[ip|id ip|reason]|]; simpl.
  - split; [|by right]. split; [intros [= ->]; auto|naive_solver].
  - destruct (find_report id reports) as [[id' [| |[]|]]|] eqn:E; simpl;
      (split; [|by auto]); split; try done;
      try (intros (_ & [?|(? & ? & ? & ? & ?)]); simplify_eq/=; congruence); try naive_solver.
  - split; [|by left]. split; [done|naive_solver].
  - split; [|by left]. split; [done|naive_solver].
Qed.
End PlanSpec.
