(* ===== verification/Selection.v ===== *)
(** * Circuit selection (mullvad-daemon/src/warren_multi_hop_directory.rs)

    How the daemon picks the entry and the exit of a circuit from a verified
    directory: the main connection's sticky picks on one and two hops, the
    routes' selection inside an exit choice, the exits a drained circuit may
    migrate to, and the refusals that move an entry.  The ranking and the
    directory belong to [warren_discovery_core]: [Discovery] is what the code
    calls of it. *)

From S2P Require Import Prelude Net AppKey Routes RoutePlan.
Open Scope Z_scope.

Class Discovery `{!Descriptors} : Type := {
  node_city : NodeEntry -> str;
  node_weight : NodeEntry -> Z;
  dir_operational_pubkey : VerifiedMultiHopDirectory -> VerifyingKey;
  Continent : Type;
  continent_eq_dec :: EqDecision Continent;
  continent_of_country : str -> option Continent;
  PathQualityAdvisory : Type;
  (** [advisory.leg(relay, exit)]: whether it is degraded, and when it was sampled. *)
  leg : PathQualityAdvisory -> bytes -> bytes -> option (bool * Z);
  (** [PathAwareParams::default().stale_after_secs] *)
  stale_after_secs : Z;
  RttCache : Type;
  RttCache_new : RttCache;
  ExitCandidate : Type;
  exit_candidate : NodeEntry -> ExitCandidate;
  valid_circuits : VerifiedMultiHopDirectory -> str -> str -> list bytes -> list (Z * Z);
  (** With the identity as the country of an entry. *)
  prefer_client_continent : list str -> option Continent -> list Z;
  (** With the default parameters and the RTTs [node_rtt_from] reads of the cache at [now]. *)
  select_circuit_path_aware : VerifiedMultiHopDirectory -> list (Z * Z) -> option PathQualityAdvisory ->
    RttCache -> Z -> option (Z * Z);
  pick_exit : list ExitCandidate -> option Z
}.

Record ClientLocality `{!Descriptors, !Discovery} : Type := mkClientLocality {
  continent : option Continent;
  client_country : option str
}.

(** [settings::WarrenMultiHopSettings] *)
Record MultiHopSettings : Type := mkMultiHopSettings {
  mh_enabled : bool;
  mh_entry_country : str;
  mh_exit_country : str;
  mh_hpke_epoch_rotation : Z
}.

(** The filter and the map of a [Vec] whose closure may panic. *)
Fixpoint filterM {E A : Type} (p : A -> comp E bool) (l : list A) : comp E (list A) :=
  match l with
  | [] => Ok []
  | x :: l => keep ← p x; l ← filterM p l; Ok (if (keep : bool) then x :: l else l)
  end.
Fixpoint mapM {E A B : Type} (f : A -> comp E B) (l : list A) : comp E (list B) :=
  match l with
  | [] => Ok []
  | x :: l => y ← f x; l ← mapM f l; Ok (y :: l)
  end.

(** [l[i]] of a [Vec] of anything. *)
Definition at_index {E A : Type} (l : list A) (i : Z) : comp E A :=
  match get l i with Some x => Ok x | None => Panic end.

Definition country_matches (filter country : str) : bool :=
  bool_decide (filter = []) || eq_ignore_ascii_case filter country.

Section Selection.
Context `{!Descriptors, !Discovery} {E : Type}.
Implicit Types (dir : VerifiedMultiHopDirectory) (pairs : list (Z * Z)) (current : option MultiHopConfig).

Definition node dir (i : Z) : comp E NodeEntry := at_index (nodes dir) i.

Definition assemble dir (entry_idx exit_idx : Z) (gso obfuscation : bool) : option MultiHopConfig :=
  exit_node ← get (nodes dir) exit_idx;
  entry_node ← get (nodes dir) entry_idx;
  Some (mkMultiHopConfig _ (node_relay entry_node) (node_exit exit_node) (dir_operational_pubkey dir)
          (node_country exit_node) (node_city exit_node) gso obfuscation (entry_idx =? exit_idx)).

Definition without_home_entries dir pairs (home : option str) : comp E (list (Z * Z)) :=
  match home with
  | None => Ok pairs
  | Some home =>
      filtered ← filterM (fun p => n ← node dir p.1; Ok (negb (eq_ignore_ascii_case (node_country n) home))) pairs;
      Ok (if bool_decide (filtered = []) then pairs else filtered)
  end.

(** Whether the entry of a node is one of [relays]. *)
Definition entry_among dir (relays : list bytes) (e : Z) : comp E bool :=
  n ← node dir e; Ok (bool_decide (relay_id (node_relay n) ∈ relays)).

Definition routable_pairs dir pairs (unroutable : list bytes) : comp E (list (Z * Z)) :=
  routed ← filterM (fun p => among ← entry_among dir unroutable p.1; Ok (negb among)) pairs;
  Ok (if bool_decide (routed = []) then pairs else routed).

Definition pick_pair_path_aware dir pairs (client_continent : option Continent)
    (advisory : option PathQualityAdvisory) (entry_rtt : RttCache) (now : Z) : comp E (option (Z * Z)) :=
  entry_countries ← mapM (fun p => n ← node dir p.1; Ok (node_country n)) pairs;
  scoped ← mapM (at_index pairs) (prefer_client_continent entry_countries client_continent);
  Ok (select_circuit_path_aware dir scoped advisory entry_rtt now).

(** The candidates of every two-hop selection, once its exits are narrowed. *)
Definition narrow_entries dir pairs (entry_country : str) (locality : ClientLocality)
    (unroutable_entries : list bytes) : comp E (list (Z * Z)) :=
  pairs ← (if bool_decide (entry_country = []) then without_home_entries dir pairs (client_country locality)
           else Ok pairs);
  routable_pairs dir pairs unroutable_entries.

Definition select_circuit_exiting_through dir (entry_country exit_country : str) (gso obfuscation : bool)
    (exclude_exit_ids : list bytes) (exit_admits : NodeEntry -> bool) (unroutable_entries : list bytes)
    (locality : ClientLocality) (advisory : option PathQualityAdvisory) (now : Z) : comp E (option MultiHopConfig) :=
  pairs ← filterM (fun p => n ← node dir p.2; Ok (exit_admits n))
            (valid_circuits dir entry_country exit_country exclude_exit_ids);
  if bool_decide (pairs = []) then Ok None else
  pairs ← narrow_entries dir pairs entry_country locality unroutable_entries;
  picked ← pick_pair_path_aware dir pairs (continent locality) advisory RttCache_new now;
  Ok ('(entry_idx, exit_idx) ← picked; assemble dir entry_idx exit_idx gso obfuscation).

Definition select_circuit dir (entry_country exit_country : str) (gso obfuscation : bool)
    (exclude_exit_ids : list bytes) (locality : ClientLocality) (advisory : option PathQualityAdvisory) (now : Z)
    : comp E (option MultiHopConfig) :=
  select_circuit_exiting_through dir entry_country exit_country gso obfuscation exclude_exit_ids (fun _ => true) []
    locality advisory now.

Definition relay_index dir (id : bytes) : option Z := node_position (has_relay id) (nodes dir).
Definition exit_index dir (id : bytes) : option Z := node_position (has_exit id) (nodes dir).

Definition PairRanker : Type := list (Z * Z) -> comp E (option (Z * Z)).

Definition off_refused_entry dir pairs (pick : Z * Z) (in_use : option (Z * Z)) (refused_entries : list bytes)
    (rank : PairRanker) : comp E (Z * Z) :=
  let refused e := entry_among dir refused_entries e in
  pick_refused ← refused pick.1;
  if negb pick_refused then Ok pick else
  kept ← match in_use with
         | None => Ok None
         | Some p =>
             if negb (p.2 =? pick.2) then Ok None else
             r ← refused p.1;
             Ok (if negb r && bool_decide (p ∈ pairs) then Some p else None)
         end;
  match kept with
  | Some p => Ok p
  | None =>
      same_exit ← filterM (fun p => if p.2 =? pick.2 then (r ← refused p.1; Ok (negb r)) else Ok false) pairs;
      ranked ← rank same_exit;
      Ok (default pick ranked)
  end.

Definition leg_freshly_degraded dir (advisory : option PathQualityAdvisory) (entry_idx exit_idx now : Z)
    : comp E bool :=
  match advisory with
  | None => Ok false
  | Some a =>
      entry ← node dir entry_idx; exit ← node dir exit_idx;
      Ok match leg a (relay_id (node_relay entry)) (exit_id (node_exit exit)) with
         | Some (degraded, sampled_at) => degraded && (Z.max 0 (now - sampled_at) <=? stale_after_secs)
         | None => false
         end
  end.

(** Whether the entry is on the client's continent. *)
Definition entry_local dir (client_continent : option Continent) (e : Z) : comp E bool :=
  n ← node dir e; Ok (bool_decide (continent_of_country (node_country n) = client_continent)).

Definition sticky_or_fresh_pair dir pairs current (locality : ClientLocality)
    (advisory : option PathQualityAdvisory) (now : Z) (rank : PairRanker) : comp E (option (Z * Z)) :=
  let client_continent := continent locality in
  best ← rank pairs;
  match best with
  | None => Ok None
  | Some best =>
      match (cur ← current;
             ei ← relay_index dir (circuit_identity cur).1; xi ← exit_index dir (circuit_identity cur).2;
             Some (ei, xi)) with
      | None => Ok (Some best)
      | Some cur =>
          if negb (bool_decide (cur ∈ pairs)) then Ok (Some best) else
          degraded ← leg_freshly_degraded dir advisory cur.1 cur.2 now;
          if (degraded : bool) then Ok (Some best) else
          cur_local ← (if bool_decide (client_continent <> None) then entry_local dir client_continent cur.1 else Ok false);
          best_local ← (if bool_decide (client_continent <> None) then entry_local dir client_continent best.1 else Ok false);
          if cur_local || negb best_local then Ok (Some cur) else
          keep_exit ← filterM (fun p => if p.2 =? cur.2 then entry_local dir client_continent p.1 else Ok false) pairs;
          upgraded ← rank keep_exit;
          Ok (match upgraded with Some u => Some u | None => Some best end)
      end
  end.

Definition pick_two_hop_circuit_with_rtt dir (entry_country exit_country : str) (gso obfuscation : bool) current
    (exclude_exit_ids refused_entries unroutable_entries : list bytes) (locality : ClientLocality)
    (advisory : option PathQualityAdvisory) (entry_rtt : RttCache) (now : Z) : comp E (option MultiHopConfig) :=
  let pairs := valid_circuits dir entry_country exit_country exclude_exit_ids in
  if bool_decide (pairs = []) then Ok None else
  pairs ← narrow_entries dir pairs entry_country locality unroutable_entries;
  let rank pairs := pick_pair_path_aware dir pairs (continent locality) advisory entry_rtt now in
  let keep_exit :=
    (cur ← current;
     xi ← exit_index dir (circuit_identity cur).2;
     if bool_decide ((circuit_identity cur).1 ∈ unroutable_entries) && existsb (fun p => p.2 =? xi) pairs
     then Some xi else None) in
  pick ← match keep_exit with
         | Some xi => rank (filter (fun p => p.2 = xi) pairs)
         | None => sticky_or_fresh_pair dir pairs current locality advisory now rank
         end;
  match pick with
  | None => Ok None
  | Some pick =>
      let in_use :=
        (cur ← current;
         ei ← relay_index dir (circuit_identity cur).1; xi ← exit_index dir (circuit_identity cur).2;
         Some (ei, xi)) in
      '(entry_idx, exit_idx) ← off_refused_entry dir pairs pick in_use refused_entries rank;
      Ok (assemble dir entry_idx exit_idx gso obfuscation)
  end.

(** The indices of the nodes a test keeps. *)
Definition node_indices (p : NodeEntry -> bool) dir : list Z :=
  filter (fun i => p <$> get (nodes dir) i = Some true)
    (seqZ 0 (zlen (nodes dir))).

Definition select_one_hop_among dir (exit_country : str) (gso obfuscation : bool)
    (exclude_exit_ids unroutable_entries : list bytes) : comp E (option MultiHopConfig) :=
  let matching := node_indices (fun n => country_matches exit_country (node_country n)
                                  && negb (bool_decide (exit_id (node_exit n) ∈ exclude_exit_ids))) dir in
  routed ← filterM (fun i => among ← entry_among dir unroutable_entries i; Ok (negb among)) matching;
  let candidates := if bool_decide (routed = []) then matching else routed in
  ranked ← mapM (fun i => n ← node dir i; Ok (exit_candidate n)) candidates;
  match pick_exit ranked with
  | None => Ok None
  | Some k => idx ← at_index candidates k; Ok (assemble dir idx idx gso obfuscation)
  end.

Definition select_one_hop_circuit dir (exit_country : str) (gso obfuscation : bool) (exclude_exit_ids : list bytes)
    : comp E (option MultiHopConfig) :=
  select_one_hop_among dir exit_country gso obfuscation exclude_exit_ids [].

Definition pick_one_hop_circuit dir (exit_country : str) (gso obfuscation : bool) current
    (exclude_exit_ids unroutable_entries : list bytes) : comp E (option MultiHopConfig) :=
  let fresh := select_one_hop_among dir exit_country gso obfuscation exclude_exit_ids unroutable_entries in
  match (cur ← current;
         ri ← relay_index dir (circuit_identity cur).1; xi ← exit_index dir (circuit_identity cur).2;
         Some (ri, xi, circuit_identity cur)) with
  | Some (ri, xi, (cur_relay, cur_exit)) =>
      if negb (ri =? xi) then fresh else
      n ← node dir ri;
      if country_matches exit_country (node_country n) && negb (bool_decide (cur_exit ∈ exclude_exit_ids))
         && negb (bool_decide (cur_relay ∈ unroutable_entries))
      then Ok (assemble dir ri ri gso obfuscation) else fresh
  | None => fresh
  end.

Definition select_next_circuit dir (settings : MultiHopSettings) current
    (drained refused_entries unroutable_entries : list bytes) (locality : ClientLocality)
    (advisory : option PathQualityAdvisory) (entry_rtt : RttCache) (now : Z) : comp E (option MultiHopConfig) :=
  if mh_enabled settings
  then pick_two_hop_circuit_with_rtt dir (mh_entry_country settings) (mh_exit_country settings) true true current drained
         refused_entries unroutable_entries locality advisory entry_rtt now
  else pick_one_hop_circuit dir (mh_exit_country settings) true true current drained unroutable_entries.

(** [select_boot_circuit] *)
Definition select_boot_circuit dir (settings : MultiHopSettings) (unroutable_entries : list bytes)
    (locality : ClientLocality) (now : Z) : comp E (option MultiHopConfig) :=
  select_next_circuit dir settings None [] [] unroutable_entries locality None RttCache_new now.

(** *** The exits a drained circuit may migrate to *)

(** [(Reverse(weight), index)]: the heavier node first. *)
Definition heavier (a b : Z * Z) : Prop := b.1 < a.1 \/ a.1 = b.1 /\ a.2 <= b.2.
#[export] Instance heavier_dec : RelDecision heavier.
Proof. intros a b. unfold heavier. apply _. Defined.

Definition weigh dir (l : list Z) : comp E (list (Z * Z)) := mapM (fun j => n ← node dir j; Ok (node_weight n, j)) l.

Definition by_weight dir (l : list Z) : comp E (list Z) :=
  weighed ← weigh dir l; Ok (snd <$> merge_sort heavier weighed).

(** [Vec::dedup] *)
Fixpoint dedup (l : list Z) : list Z :=
  match l with
  | [] => []
  | x :: l => match l with
              | y :: _ => if x =? y then dedup l else x :: dedup l
              | [] => [x]
              end
  end.

(** [max_by_key(|&e| (weight, Reverse(e)))], the last of the maxima. *)
Definition heaviest (weighed : list (Z * Z)) : option Z :=
  snd <$> foldl (fun best x => match best with
                               | Some b => if decide (heavier x b) then Some x else Some b
                               | None => Some x
                               end) None weighed.

(** The closure [front]: the primary's entry among those usable, else the heaviest of them. *)
Definition front dir (entries : list Z) (primary_relay : bytes) (usable : Z -> comp E bool) : comp E (option Z) :=
  candidates ← filterM usable entries;
  same ← filterM (fun e => n ← node dir e; Ok (bool_decide (relay_id (node_relay n) = primary_relay))) candidates;
  match same with
  | e :: _ => Ok (Some e)
  | [] => weighed ← weigh dir candidates; Ok (heaviest weighed)
  end.

Definition same_country_migration_alternates dir (primary : MultiHopConfig) (entry_country : str)
    (exclude_exit_ids refused_entries : list bytes) : comp E (list MultiHopConfig) :=
  let country := exit_country primary in
  if bool_decide (country = []) then Ok [] else
  let primary_exit := exit_id (Routes.exit primary) in
  let gso := enable_gso primary in let obfuscation := use_warren_obfuscation primary in
  if single_node primary then
    alternates ← by_weight dir
      (node_indices (fun n => eq_ignore_ascii_case (node_country n) country
                        && negb (bool_decide (exit_id (node_exit n) = primary_exit))
                        && negb (bool_decide (exit_id (node_exit n) ∈ exclude_exit_ids))) dir);
    Ok (omap (M:=list) (fun j => assemble dir j j gso obfuscation) alternates)
  else
    let pairs := valid_circuits dir entry_country country exclude_exit_ids in
    exits ← filterM (fun j => n ← node dir j; Ok (negb (bool_decide (exit_id (node_exit n) = primary_exit)))) pairs.*2;
    exit_indices ← by_weight dir (dedup (merge_sort Z.le exits));
    alternates ← mapM (fun j =>
      let entries := (filter (fun p => p.2 = j) pairs).*1 in
      usable ← front dir entries (relay_id (relay primary))
                 (fun e => refused ← entry_among dir refused_entries e; Ok (negb refused));
      entry ← (match usable with
               | Some e => Ok (Some e)
               | None => front dir entries (relay_id (relay primary)) (fun _ => Ok true)
               end : comp E (option Z));
      Ok (e ← entry; assemble dir e j gso obfuscation)) exit_indices;
    Ok (omap (M:=list) id alternates).
End Selection.
