(* ===== verification/SelectionSpec.v ===== *)
(** * What the circuit selection guarantees

    With what [warren_discovery_core] documents of its ranking
    ([DiscoveryLaws]): the selection never panics, picks only circuits the
    constraints in force admit, never lets a refusal move the exit, and stops
    moving after a few passes over one directory. *)

From S2P Require Import Prelude Net AppKey Routes RoutePlan Selection.
Open Scope Z_scope.

Class DiscoveryLaws `{!Descriptors, !Discovery} : Prop := {
  (** Entry and exit are different nodes of different countries, in the countries hinted at, neither
      excluded in either role. *)
  valid_circuits_ok dir entry_country exit_country excluded e x :
    (e, x) ∈ valid_circuits dir entry_country exit_country excluded ->
    e <> x /\ exists entry exit,
      get (nodes dir) e = Some entry /\ get (nodes dir) x = Some exit /\
      country_matches entry_country (node_country entry) = true /\
      country_matches exit_country (node_country exit) = true /\
      eq_ignore_ascii_case (node_country entry) (node_country exit) = false /\
      exit_id (node_exit entry) ∉ excluded /\ exit_id (node_exit exit) ∉ excluded;
  (** The entries on the client's continent when there are any, every entry otherwise. *)
  prefer_range countries c k : k ∈ prefer_client_continent countries c -> is_Some (get countries k);
  prefer_some countries c : countries <> [] -> prefer_client_continent countries c <> [];
  prefer_local countries c i country : get countries i = Some country -> continent_of_country country = Some c ->
    forall k country', k ∈ prefer_client_continent countries (Some c) -> get countries k = Some country' ->
    continent_of_country country' = Some c;
  (** The ranking picks one of the pairs it is given, if any. *)
  path_aware_member dir pairs advisory rtt now p :
    select_circuit_path_aware dir pairs advisory rtt now = Some p -> p ∈ pairs;
  path_aware_some dir pairs advisory rtt now :
    pairs <> [] -> select_circuit_path_aware dir pairs advisory rtt now <> None;
  pick_exit_range candidates k : pick_exit candidates = Some k -> is_Some (get candidates k);
  pick_exit_some candidates : candidates <> [] -> pick_exit candidates <> None
}.

(** ** Lists whose closures may panic *)

Section Total.
Context {E A B : Type}.

Lemma filterM_ok (p : A -> comp E bool) (f : A -> bool) l :
  (forall x, x ∈ l -> p x = Ok (f x)) -> filterM p l = Ok (filter (fun x => f x = true) l).
Proof.
  induction l as [|x l IH]; intros Hp; [done|]. cbn [filterM]. rewrite Hp by (by left). rewrite bind_Ok.
  rewrite IH by (intros y Hy; apply Hp; by right). rewrite bind_Ok, filter_cons. by destruct (f x).
Qed.

Lemma mapM_ok (f : A -> comp E B) (g : A -> B) l :
  (forall x, x ∈ l -> f x = Ok (g x)) -> mapM f l = Ok (g <$> l).
Proof.
  induction l as [|x l IH]; intros Hf; [done|]. cbn [mapM]. rewrite Hf by (by left). rewrite bind_Ok.
  rewrite IH by (intros y Hy; apply Hf; by right). by rewrite bind_Ok.
Qed.

(** The same where [f] reads something that is there. *)
Lemma mapM_omap (f : A -> comp E B) (g : A -> option B) l :
  (forall x, x ∈ l -> exists y, g x = Some y /\ f x = Ok y) -> mapM f l = Ok (omap g l) /\ length (omap g l) = length l.
Proof.
  induction l as [|x l IH]; intros Hf; [done|]. cbn [mapM omap list_omap]. destruct (Hf x) as (y & Hg & Hx); [by left|].
  rewrite Hx, bind_Ok, Hg. destruct IH as [-> Hl]; [intros z Hz; apply Hf; by right|]. rewrite bind_Ok.
  split; [done|]. cbn [length]. by rewrite <- Hl.
Qed.
End Total.

Lemma get_elem {A : Type} (l : list A) i x : get l i = Some x -> x ∈ l.
Proof. unfold get. destruct (0 <=? i); [|done]. apply list_elem_of_lookup_2. Qed.

Lemma get_fmap {A B : Type} (f : A -> B) (l : list A) i : get (f <$> l) i = f <$> get l i.
Proof. unfold get. destruct (0 <=? i); [|done]. apply list_lookup_fmap. Qed.

(** ** The picks over indices *)

(** What the code computes once no index is out of range, over the ranking [rank], the entries that
    refused, those on the client's continent and the legs freshly degraded. *)
Section Picks.
Context (rank : list (Z * Z) -> option (Z * Z)) (refused local : Z -> bool) (degraded : Z * Z -> bool).
Implicit Types (pairs : list (Z * Z)) (cur : option (Z * Z)).

Definition off_refused pairs (pick : Z * Z) cur : Z * Z :=
  if negb (refused pick.1) then pick else
  match cur with
  | Some p =>
      if (p.2 =? pick.2) && negb (refused p.1) && bool_decide (p ∈ pairs) then p
      else default pick (rank (filter (fun p => p.2 = pick.2 /\ refused p.1 = false) pairs))
  | None => default pick (rank (filter (fun p => p.2 = pick.2 /\ refused p.1 = false) pairs))
  end.

Definition sticky pairs cur : option (Z * Z) :=
  match rank pairs with
  | None => None
  | Some best =>
      match cur with
      | None => Some best
      | Some c =>
          if negb (bool_decide (c ∈ pairs)) || degraded c then Some best
          else if local c.1 || negb (local best.1) then Some c
          else match rank (filter (fun p => p.2 = c.2 /\ local p.1 = true) pairs) with
               | Some u => Some u
               | None => Some best
               end
      end
  end.

(** The ranking, as the laws have it: one of the pairs, on the continent if any is. *)
Context (rank_member : forall l p, rank l = Some p -> p ∈ l) (rank_some : forall l, l <> [] -> rank l <> None)
  (rank_local : forall l p q, rank l = Some p -> q ∈ l -> local q.1 = true -> local p.1 = true).

Lemma rank_filter (P : Z * Z -> Prop) `{!forall p, Decision (P p)} pairs p :
  rank (filter P pairs) = Some p -> P p /\ p ∈ pairs.
Proof. clear degraded. intros Hq%rank_member. by apply list_elem_of_filter in Hq. Qed.

Lemma off_refused_member pairs pick cur : pick ∈ pairs -> off_refused pairs pick cur ∈ pairs /\ (off_refused pairs pick cur).2 = pick.2.
Proof. clear degraded.
  intros Hp. unfold off_refused. destruct (negb _); [done|].
  assert (default pick (rank (filter (fun p => p.2 = pick.2 /\ refused p.1 = false) pairs)) ∈ pairs /\
    (default pick (rank (filter (fun p => p.2 = pick.2 /\ refused p.1 = false) pairs))).2 = pick.2) as Hd.
  { destruct (rank _) as [q|] eqn:Hq; [|done]. apply rank_filter in Hq as [[Hq _] Hin]. done. }
  destruct cur as [c|]; [|done]. destruct (_ && _) eqn:Hc; [|done].
  rewrite !andb_true_iff, Z.eqb_eq, bool_decide_eq_true in Hc. naive_solver.
Qed.

Lemma sticky_member pairs cur p : sticky pairs cur = Some p -> p ∈ pairs.
Proof.
  unfold sticky. destruct (rank pairs) as [best|] eqn:Hb; [|done]. apply rank_member in Hb.
  destruct cur as [c|]; [|naive_solver]. destruct (decide (c ∈ pairs)) as [Hc|Hc].
  - rewrite bool_decide_eq_true_2 by done. cbn [negb orb]. destruct (degraded c); [naive_solver|].
    destruct (_ || _); [naive_solver|]. destruct (rank (filter _ _)) as [u|] eqn:Hu; [|naive_solver].
    apply rank_filter in Hu. naive_solver.
  - rewrite bool_decide_eq_false_2 by done. naive_solver.
Qed.

Lemma sticky_None pairs cur : sticky pairs cur = None -> pairs = [].
Proof.
  unfold sticky. destruct (rank pairs) as [best|] eqn:Hb.
  - destruct cur as [c|]; [|done]. destruct (_ || _); [done|]. destruct (_ || _); [done|]. by destruct (rank (filter _ _)).
  - intros _. destruct pairs; [done|]. by destruct (rank_some (p :: pairs)).
Qed.

(** A pair in use that no entry which did not refuse could replace for its exit, unless its own did
    not. *)
Definition fronted pairs (q : Z * Z) : Prop :=
  q ∈ pairs /\ (refused q.1 = true -> forall p, p ∈ pairs -> p.2 = q.2 -> refused p.1 = true).

Lemma rank_filter_None (P : Z * Z -> Prop) `{!forall p, Decision (P p)} pairs :
  (forall p, p ∈ pairs -> ~ P p) -> rank (filter P pairs) = None.
Proof. clear degraded.
  intros Hn. destruct (rank (filter P pairs)) as [q|] eqn:Hq; [|done].
  apply rank_filter in Hq as [Hq Hin]. by destruct (Hn q Hin).
Qed.

Lemma rank_filter_Some (P : Z * Z -> Prop) `{!forall p, Decision (P p)} pairs p :
  p ∈ pairs -> P p -> exists q, rank (filter P pairs) = Some q /\ q ∈ pairs /\ P q.
Proof. clear degraded.
  intros Hp HP. destruct (rank (filter P pairs)) as [q|] eqn:Hq.
  - exists q. apply rank_filter in Hq. naive_solver.
  - destruct (rank_some (filter P pairs)); [|done]. intros Hnil. by apply (filter_nil_not_elem_of P pairs p Hnil HP).
Qed.

Lemma off_refused_keeps pairs pick q :
  q ∈ pairs -> q.2 = pick.2 -> refused q.1 = false -> refused pick.1 = true -> off_refused pairs pick (Some q) = q.
Proof. clear degraded.
  intros Hq He Hn Hr. unfold off_refused. rewrite Hr. cbn [negb].
  by rewrite He, Z.eqb_refl, Hn, bool_decide_eq_true_2.
Qed.

Lemma off_refused_clear pairs pick cur : refused pick.1 = false -> off_refused pairs pick cur = pick.
Proof. clear degraded. intros Hr. unfold off_refused. by rewrite Hr. Qed.

Lemma off_refused_self pairs q : fronted pairs q -> off_refused pairs q (Some q) = q.
Proof. clear degraded.
  intros [Hq Hf]. destruct (refused q.1) eqn:Hr; [|by apply off_refused_clear].
  unfold off_refused. rewrite Hr, Z.eqb_refl. cbn [negb andb].
  rewrite rank_filter_None; [done|]. intros p Hp [He Hn]. by rewrite (Hf eq_refl p Hp He) in Hn.
Qed.

(** Where a pick ends: itself, the pair in use, or the best entry of its exit that did not refuse. *)
Definition others pairs (pick : Z * Z) : list (Z * Z) := filter (fun p => p.2 = pick.2 /\ refused p.1 = false) pairs.

Lemma off_refused_cases pairs pick cur (r := off_refused pairs pick cur) :
  refused pick.1 = false /\ r = pick \/
  refused pick.1 = true /\
    (cur = Some r /\ r ∈ pairs /\ r.2 = pick.2 /\ refused r.1 = false \/
     rank (others pairs pick) = Some r \/
     rank (others pairs pick) = None /\ r = pick).
Proof. clear degraded.
  unfold r, off_refused, others. destruct (refused pick.1); cbn [negb]; [right|by left]. split; [done|].
  assert (forall o, let d := default pick o in o = Some d \/ o = None /\ d = pick) as Hd by (intros [q|]; naive_solver).
  destruct cur as [c|]; [|right; apply Hd]. destruct (_ && _) eqn:Hc; [|right; apply Hd].
  rewrite !andb_true_iff, negb_true_iff, Z.eqb_eq, bool_decide_eq_true in Hc. left. naive_solver.
Qed.

Lemma off_refused_fronted pairs pick cur : pick ∈ pairs -> fronted pairs (off_refused pairs pick cur).
Proof. clear degraded.
  intros Hp. split; [by apply off_refused_member|].
  destruct (off_refused_cases pairs pick cur) as [[Hn ->]|[Hr [(_ & _ & _ & Hn)|[Hs|[Hs ->]]]]]; [congruence|congruence| |].
  - apply rank_filter in Hs as [[_ Hn] _]. congruence.
  - intros _ p Hin He. destruct (refused p.1) eqn:Hn; [done|]. exfalso.
    destruct (rank_filter_Some (fun p => p.2 = pick.2 /\ refused p.1 = false) pairs p Hin) as (q & Hq & _); [done|].
    unfold others in Hs. congruence.
Qed.

(** From a pick whose exit the pair in use shares, the pair in use stays or its exit keeps the pick. *)
Lemma off_refused_same_exit pairs pick q :
  fronted pairs q -> q.2 = pick.2 ->
  off_refused pairs pick (Some q) = q \/ off_refused pairs pick (Some q) = pick.
Proof. clear degraded.
  intros [Hq Hf] He. destruct (off_refused_cases pairs pick (Some q)) as [[_ ->]|[Hr [(Hc & _)|[Hs|[_ ->]]]]]; [by right| | |by right].
  - left. congruence.
  - apply rank_filter in Hs as [[Hx Hn] Hin]. destruct (refused q.1) eqn:Hrq.
    + rewrite (Hf eq_refl _ Hin) in Hn by congruence. done.
    + left. by apply off_refused_keeps.
Qed.

(** ** Where a pass leads *)

(** A fresh pick, once applied, is kept. *)
Lemma fresh_kept pairs best cur : rank pairs = Some best ->
  let s := off_refused pairs best cur in s ∈ pairs ->
  cur = Some s \/ match sticky pairs (Some s) with Some k => off_refused pairs k (Some s) | None => s end = s.
Proof.
  intros Hbest s Hs. pose proof (rank_member _ _ Hbest) as Hb.
  pose proof (off_refused_cases pairs best cur) as Hcases. cbv zeta in Hcases. fold s in Hcases.
  destruct Hcases as [[Hn Hs']|[Hr [(Hc & _)|[Hs'|[Hnone Hs']]]]].
  - right. rewrite Hs' in *. unfold sticky. rewrite Hbest. destruct (_ || _); [by apply off_refused_clear|].
    destruct (local best.1); cbn [negb orb]; by apply off_refused_clear.
  - by left.
  - right. apply rank_filter in Hs' as Hs''. destruct Hs'' as [[He Hn] _].
    destruct (sticky pairs (Some s)) as [k|] eqn:Hk; [|done]. revert Hk. unfold sticky. rewrite Hbest.
    assert (off_refused pairs best (Some s) = s) as Hsb by (by apply off_refused_keeps).
    destruct (_ || _); [by intros [= <-]|]. destruct (local s.1) eqn:Hl; cbn [orb]; [intros [= <-]; by apply off_refused_clear|].
    destruct (local best.1) eqn:Hlb; cbn [negb]; [|intros [= <-]; by apply off_refused_clear].
    destruct (rank (filter _ _)) as [u|] eqn:Hu; intros [= <-]; [|done].
    apply rank_filter in Hu as [[Hue Hul] Hu]. destruct (refused u.1) eqn:Hur.
    + apply off_refused_keeps; done || congruence.
    + exfalso. assert (local s.1 = true); [|congruence]. eapply (rank_local (others pairs best)); [done| |exact Hul].
      apply list_elem_of_filter. split; [split; congruence|done].
  - right. rewrite Hs' in *. assert (fronted pairs best) as Hf by (rewrite <- Hs' at 1; unfold s; by apply off_refused_fronted).
    unfold sticky. rewrite Hbest. destruct (_ || _); [by apply off_refused_self|].
    destruct (local best.1); cbn [negb orb]; by apply off_refused_self.
Qed.

Lemma sticky_cases pairs q : q ∈ pairs -> exists best, rank pairs = Some best /\
  (sticky pairs (Some q) = Some best \/ sticky pairs (Some q) = Some q \/
   exists u, sticky pairs (Some q) = Some u /\ u ∈ pairs /\ u.2 = q.2 /\ local u.1 = true /\ local q.1 = false).
Proof.
  intros Hq. unfold sticky. destruct (rank pairs) as [best|] eqn:Hb; [|exfalso; apply (rank_some pairs); [by intros ->; apply elem_of_nil in Hq|done]].
  exists best. split; [done|]. destruct (_ || _); [by left|]. destruct (local q.1) eqn:Hl; cbn [orb]; [by right; left|].
  destruct (negb _); [by right; left|]. destruct (rank (filter _ _)) as [u|] eqn:Hu; [|by left].
  right; right. exists u. apply rank_filter in Hu. naive_solver.
Qed.

(** A pass from a pair in use; [unroutable] says which entries lost their network. *)
Definition pass (unroutable : Z -> bool) pairs (cur : Z * Z) : Z * Z :=
  match (if unroutable cur.1 then rank (filter (fun p => p.2 = cur.2) pairs) else sticky pairs (Some cur)) with
  | Some pick => off_refused pairs pick (Some cur)
  | None => cur
  end.

Section Pass.
Context (unroutable : Z -> bool) (pairs : list (Z * Z)).

Lemma pass_fronted q : fronted pairs q -> fronted pairs (pass unroutable pairs q).
Proof.
  intros Hf. unfold pass. destruct (unroutable q.1).
  - destruct (rank (filter _ _)) as [r|] eqn:Hr; [|done]. apply rank_filter in Hr as [_ Hr]. by apply off_refused_fronted.
  - destruct (sticky pairs (Some q)) as [k|] eqn:Hk; [|done]. apply sticky_member in Hk. by apply off_refused_fronted.
Qed.

(** A network that routes no entry moves the entry once. *)
Lemma pass_unrouted q : (forall p, p ∈ pairs -> unroutable p.1 = true) -> fronted pairs q ->
  pass unroutable pairs (pass unroutable pairs q) = pass unroutable pairs q.
Proof.
  intros Hu Hf. pose proof Hf as [Hq _].
  assert (exists r, rank (filter (fun p => p.2 = q.2) pairs) = Some r /\ r ∈ pairs /\ r.2 = q.2) as (r & Hr & Hrin & He)
    by (exact (rank_filter_Some (fun p => p.2 = q.2) pairs q Hq eq_refl)).
  assert (pass unroutable pairs q = off_refused pairs r (Some q)) as Hp by (unfold pass; by rewrite Hu, Hr).
  destruct (off_refused_same_exit pairs r q Hf) as [Ho|Ho]; [congruence| |].
  - rewrite Ho in Hp. congruence.
  - rewrite Hp, Ho. unfold pass. rewrite Hu by done.
    assert (filter (fun p => p.2 = r.2) pairs = filter (fun p => p.2 = q.2) pairs) as -> by (apply list_filter_iff; intros p; by rewrite He).
    rewrite Hr. apply off_refused_self. rewrite <- Ho. by apply off_refused_fronted.
Qed.

(** A pass that does not change the exit's entry for proximity is the last but one. *)
Lemma pass_routed q : (forall p, p ∈ pairs -> unroutable p.1 = false) -> fronted pairs q ->
  pass unroutable pairs (pass unroutable pairs q) = pass unroutable pairs q \/
  (pass unroutable pairs q ∈ pairs /\ local (pass unroutable pairs q).1 = true).
Proof.
  intros Hu Hf. pose proof Hf as [Hq _].
  assert (forall s, s ∈ pairs -> pass unroutable pairs s =
    match sticky pairs (Some s) with Some k => off_refused pairs k (Some s) | None => s end) as Hpass.
  { intros s Hs. unfold pass. by rewrite Hu. }
  assert (pass unroutable pairs q ∈ pairs) as Hin by (by apply pass_fronted).
  destruct (sticky_cases pairs q Hq) as (best & Hbest & [Hs|[Hs|(u & Hs & Huin & Hue & Hul & _)]]).
  - left. assert (pass unroutable pairs q = off_refused pairs best (Some q)) as Hp by (rewrite Hpass, Hs; done).
    rewrite Hp in *. destruct (fresh_kept pairs best (Some q) Hbest Hin) as [Hc|Hk].
    + injection Hc as Hc. rewrite <- Hc. congruence.
    + by rewrite Hpass.
  - left. assert (pass unroutable pairs q = q) as Hp by (rewrite Hpass, Hs by done; by apply off_refused_self). congruence.
  - assert (pass unroutable pairs q = off_refused pairs u (Some q)) as Hp by (rewrite Hpass, Hs; done).
    destruct (off_refused_same_exit pairs u q Hf) as [Ho|Ho]; [congruence|left; congruence|]. right. rewrite Hp, Ho. done.
Qed.

(** ... so the third pass is the last to move. *)
Lemma pass_settles q :
  (forall p, p ∈ pairs -> unroutable p.1 = true) \/ (forall p, p ∈ pairs -> unroutable p.1 = false) -> fronted pairs q ->
  let p := pass unroutable pairs in p (p (p q)) = p (p q).
Proof.
  intros [Hu|Hu] Hf p; [unfold p; by rewrite pass_unrouted by (done || by apply pass_fronted)|].
  destruct (pass_routed q Hu Hf) as [Heq|[Hin Hl]]; [unfold p; congruence|]. fold p in Hin, Hl.
  destruct (pass_routed (p q) Hu (pass_fronted q Hf)) as [Heq|_]; [done|].
  pose proof (pass_fronted q Hf) as Hfu. fold p in Hfu. set (u := p q) in *.
  assert (forall s, s ∈ pairs -> p s = match sticky pairs (Some s) with Some k => off_refused pairs k (Some s) | None => s end) as Hpass.
  { intros s Hs. unfold p, pass. by rewrite Hu. }
  destruct (sticky_cases pairs u Hin) as (best & Hbest & [Hs|[Hs|(u' & _ & _ & _ & _ & Hl')]]); [| |congruence].
  - assert (p u = off_refused pairs best (Some u)) as Hp by (rewrite Hpass, Hs; done).
    assert (p u ∈ pairs) as Hin2 by (by apply pass_fronted). rewrite Hp in *.
    destruct (fresh_kept pairs best (Some u) Hbest Hin2) as [Hc|Hk].
    + injection Hc as Hc. rewrite <- Hc. congruence.
    + by rewrite Hpass.
  - assert (p u = u) as Hp by (rewrite Hpass, Hs by done; by apply off_refused_self). congruence.
Qed.
End Pass.
End Picks.

(** ** The code computes those picks *)

Section Computed.
Context `{!Descriptors, !Discovery, !DiscoveryLaws} {E : Type}.
Context (dir : VerifiedMultiHopDirectory) (advisory : option PathQualityAdvisory) (entry_rtt : RttCache) (now : Z)
  (locality : ClientLocality).
Implicit Types (pairs : list (Z * Z)) (ids unroutable refused excluded : list bytes) (current : option MultiHopConfig).

Definition listed (i : Z) : Prop := is_Some (get (nodes dir) i).
Definition pair_ok (p : Z * Z) : Prop := listed p.1 /\ listed p.2.

Definition country_at (i : Z) : str := default [] (node_country <$> get (nodes dir) i).
Definition relay_at (i : Z) : bytes := default [] ((fun n => relay_id (node_relay n)) <$> get (nodes dir) i).
Definition exit_at (i : Z) : bytes := default [] ((fun n => exit_id (node_exit n)) <$> get (nodes dir) i).

Definition among ids (i : Z) : bool := bool_decide (relay_at i ∈ ids).
Definition near (i : Z) : bool := bool_decide (continent_of_country (country_at i) = continent locality).
Definition local_at (i : Z) : bool := bool_decide (continent locality <> None) && near i.
Definition degraded_leg (p : Z * Z) : bool :=
  match (a ← advisory; leg a (relay_at p.1) (exit_at p.2)) with
  | Some (degraded, sampled_at) => degraded && (Z.max 0 (now - sampled_at) <=? stale_after_secs)
  | None => false
  end.

(** The ranking of a list of pairs. *)
Definition ranked pairs : option (Z * Z) :=
  select_circuit_path_aware dir
    ((fun k => default (0, 0) (get pairs k)) <$> prefer_client_continent ((fun p => country_at p.1) <$> pairs) (continent locality))
    advisory entry_rtt now.

Lemma scoped_elem pairs k :
  k ∈ prefer_client_continent ((fun p => country_at p.1) <$> pairs) (continent locality) -> exists p, get pairs k = Some p.
Proof. intros Hk. apply prefer_range in Hk. rewrite get_fmap in Hk. destruct (get pairs k) as [p|]; [by exists p|by destruct Hk]. Qed.

Lemma ranked_scoped pairs p : ranked pairs = Some p ->
  exists k, k ∈ prefer_client_continent ((fun p => country_at p.1) <$> pairs) (continent locality) /\ get pairs k = Some p.
Proof.
  intros (k & -> & Hk)%path_aware_member%list_elem_of_fmap. exists k. split; [done|].
  destruct (scoped_elem pairs k Hk) as [p Hp]. by rewrite Hp.
Qed.

Lemma ranked_member pairs p : ranked pairs = Some p -> p ∈ pairs.
Proof. intros (k & _ & Hp)%ranked_scoped. by eapply get_elem. Qed.

Lemma ranked_some pairs : pairs <> [] -> ranked pairs <> None.
Proof.
  intros Hp. apply path_aware_some. intros Hnil%fmap_nil_inv. apply prefer_some in Hnil; [done|].
  by destruct pairs.
Qed.

Lemma ranked_local pairs p q : ranked pairs = Some p -> q ∈ pairs -> local_at q.1 = true -> local_at p.1 = true.
Proof.
  intros (k & Hk & Hp)%ranked_scoped (i & Hi)%list_elem_of_lookup. unfold local_at, near.
  rewrite !andb_true_iff, !bool_decide_eq_true. intros [Hc Hq]. split; [done|].
  destruct (continent locality) as [c|] eqn:Hcont; [|done].
  eapply (prefer_local ((fun p => country_at p.1) <$> pairs) c (Z.of_nat i) (country_at q.1));
    [|exact Hq|exact Hk|by rewrite get_fmap, Hp].
  rewrite get_fmap. unfold get. rewrite (proj2 (Z.leb_le _ _)) by lia. by rewrite Nat2Z.id, Hi.
Qed.

Lemma node_ok i : listed i -> exists n, get (nodes dir) i = Some n /\ @node _ E dir i = Ok n.
Proof. intros [n Hn]. exists n. split; [done|]. unfold node, at_index. by rewrite Hn. Qed.

Lemma entry_among_ok ids e : listed e -> @entry_among _ E dir ids e = Ok (among ids e).
Proof.
  intros (n & Hn & Hok)%node_ok. unfold entry_among. rewrite Hok, bind_Ok. unfold among, relay_at. by rewrite Hn.
Qed.

Lemma entry_local_ok e : listed e -> @entry_local _ _ E dir (continent locality) e = Ok (near e).
Proof.
  intros (n & Hn & Hok)%node_ok. unfold entry_local. rewrite Hok, bind_Ok. unfold near, country_at. by rewrite Hn.
Qed.

Lemma leg_ok p : pair_ok p -> @leg_freshly_degraded _ _ E dir advisory p.1 p.2 now = Ok (degraded_leg p).
Proof.
  intros [(n1 & Hn1 & Hk1)%node_ok (n2 & Hn2 & Hk2)%node_ok]. unfold leg_freshly_degraded, degraded_leg.
  destruct advisory as [a|]; [|done]. rewrite Hk1, bind_Ok, Hk2, bind_Ok. unfold relay_at, exit_at. by rewrite Hn1, Hn2.
Qed.

Lemma pick_ok pairs : Forall pair_ok pairs ->
  @pick_pair_path_aware _ _ E dir pairs (continent locality) advisory entry_rtt now = Ok (ranked pairs).
Proof.
  intros Hall. unfold pick_pair_path_aware. rewrite (mapM_ok _ (fun p => country_at p.1)).
  2: { intros p Hp. rewrite Forall_forall in Hall. destruct (Hall p Hp) as [(n & Hn & Hok)%node_ok _].
       rewrite Hok, bind_Ok. unfold country_at. by rewrite Hn. }
  rewrite bind_Ok, (mapM_ok _ (fun k => default (0, 0) (get pairs k))).
  2: { intros k Hk. destruct (scoped_elem pairs k Hk) as [p Hp]. unfold at_index. by rewrite Hp. }
  by rewrite bind_Ok.
Qed.

Lemma pair_ok_filter (P : Z * Z -> Prop) `{!forall p, Decision (P p)} pairs : Forall pair_ok pairs -> Forall pair_ok (filter P pairs).
Proof. rewrite !Forall_forall. intros Hall p [_ Hp]%list_elem_of_filter. by apply Hall. Qed.

Lemma off_refused_ok pairs pick in_use refused (rank : @PairRanker E) :
  (forall l, Forall pair_ok l -> rank l = Ok (ranked l)) ->
  Forall pair_ok pairs -> pair_ok pick -> (forall p, in_use = Some p -> pair_ok p) ->
  off_refused_entry dir pairs pick in_use refused rank = Ok (off_refused ranked (among refused) pairs pick in_use).
Proof.
  intros Hrank Hall [Hp _] Hin. unfold off_refused_entry, off_refused. rewrite entry_among_ok, bind_Ok by done.
  destruct (negb (among refused pick.1)); [done|].
  assert (filterM (E:=E) (fun p => if p.2 =? pick.2 then (r ← entry_among dir refused p.1; Ok (negb r)) else Ok false) pairs
    = Ok (filter (fun p => p.2 = pick.2 /\ among refused p.1 = false) pairs)) as Hf.
  { rewrite (filterM_ok _ (fun p => (p.2 =? pick.2) && negb (among refused p.1))).
    - f_equal. apply list_filter_iff. intros p. by rewrite andb_true_iff, Z.eqb_eq, negb_true_iff.
    - intros p Hp'. rewrite Forall_forall in Hall. destruct (Hall p Hp'). destruct (p.2 =? pick.2); [|done].
      by rewrite entry_among_ok, bind_Ok. }
  assert (forall o, match o with Some p => Ok p | None =>
      same_exit ← filterM (fun p => if p.2 =? pick.2 then (r ← entry_among dir refused p.1; Ok (negb r)) else Ok false) pairs;
      ranked ← rank same_exit; Ok (default pick ranked) end
    = @Ok E _ match o with Some p => p
        | None => default pick (ranked (filter (fun p => p.2 = pick.2 /\ among refused p.1 = false) pairs)) end) as Hfin.
  { intros [p|]; [done|]. rewrite Hf, bind_Ok, Hrank by (by apply pair_ok_filter). by rewrite bind_Ok. }
  destruct in_use as [p|]; [|rewrite bind_Ok; apply (Hfin None)].
  destruct (p.2 =? pick.2); cbn [negb andb]; [|rewrite bind_Ok; apply (Hfin None)].
  destruct (Hin p eq_refl). rewrite entry_among_ok, !bind_Ok by done. rewrite Hfin. by destruct (_ && _).
Qed.

Lemma sticky_ok pairs current (rank : @PairRanker E) :
  (forall l, Forall pair_ok l -> rank l = Ok (ranked l)) -> Forall pair_ok pairs ->
  sticky_or_fresh_pair dir pairs current locality advisory now rank =
    Ok (sticky ranked local_at degraded_leg pairs
          (cur ← current; ei ← relay_index dir (circuit_identity cur).1; xi ← exit_index dir (circuit_identity cur).2;
           Some (ei, xi))).
Proof.
  intros Hrank Hall. unfold sticky_or_fresh_pair, sticky. rewrite Hrank, bind_Ok by done.
  destruct (ranked pairs) as [best|] eqn:Hbest; [|done]. apply ranked_member in Hbest.
  destruct (cur ← current; _) as [c|]; [|done]. case_bool_decide as Hc; cbn [negb orb]; [|done].
  pose proof (proj1 (Forall_forall _ _) Hall) as Hok. destruct (Hok c Hc) as [Hc1 Hc2]. destruct (Hok best Hbest) as [Hb1 _].
  rewrite leg_ok, bind_Ok by done. destruct (degraded_leg c); [done|].
  assert (forall i, listed i -> (if bool_decide (continent locality <> None) then @entry_local _ _ E dir (continent locality) i
    else Ok false) = Ok (local_at i)) as Hl.
  { intros i Hi. unfold local_at. case_bool_decide; [by rewrite entry_local_ok|done]. }
  rewrite !Hl, !bind_Ok by done. destruct (local_at c.1); cbn [orb]; [done|].
  destruct (local_at best.1) eqn:Hlb; cbn [negb]; [|done].
  rewrite (filterM_ok _ (fun p => (p.2 =? c.2) && near p.1)).
  2: { intros p Hp. destruct (Hok p Hp). destruct (p.2 =? c.2); [by rewrite entry_local_ok|done]. }
  rewrite bind_Ok, Hrank by (by apply pair_ok_filter). rewrite bind_Ok.
  assert (filter (fun p => (p.2 =? c.2) && near p.1 = true) pairs = filter (fun p => p.2 = c.2 /\ local_at p.1 = true) pairs) as ->; [|done].
  apply list_filter_iff. intros p. unfold local_at in *. apply andb_true_iff in Hlb as [-> _].
  by rewrite andb_true_iff, Z.eqb_eq.
Qed.

(** The candidates left once the entries are narrowed: never none of some. *)
Definition or_all {A : Type} (kept all : list A) : list A := match kept with [] => all | _ => kept end.

Definition away_from_home pairs (entry_country : str) : list (Z * Z) :=
  match client_country locality with
  | Some home =>
      if bool_decide (entry_country = [])
      then or_all (filter (fun p => eq_ignore_ascii_case (country_at p.1) home = false) pairs) pairs else pairs
  | None => pairs
  end.
Definition routed pairs unroutable : list (Z * Z) := or_all (filter (fun p => among unroutable p.1 = false) pairs) pairs.
Definition narrowed pairs (entry_country : str) unroutable : list (Z * Z) :=
  routed (away_from_home pairs entry_country) unroutable.

Lemma or_all_subseteq {A : Type} (P : A -> Prop) `{!forall x, Decision (P x)} (l : list A) :
  or_all (filter P l) l ⊆ l /\ (l <> [] -> or_all (filter P l) l <> []) /\
  ((forall x, x ∈ or_all (filter P l) l -> P x) \/ (or_all (filter P l) l = l /\ forall x, x ∈ l -> ~ P x)).
Proof.
  unfold or_all. destruct (filter P l) as [|x k] eqn:Hf.
  - split_and!; [done|done|]. right. split; [done|]. intros y Hy HP. by apply (filter_nil_not_elem_of P l y Hf HP).
  - rewrite <- Hf. split_and!; [by intros y [_ Hy]%list_elem_of_filter|by rewrite Hf|]. left. by intros y [Hy _]%list_elem_of_filter.
Qed.

Lemma or_all_match {A : Type} `{EqDecision A} (k l : list A) : (if bool_decide (k = []) then l else k) = or_all k l.
Proof. by destruct k. Qed.

Lemma away_subseteq pairs entry_country : away_from_home pairs entry_country ⊆ pairs /\ (pairs <> [] -> away_from_home pairs entry_country <> []).
Proof.
  unfold away_from_home. destruct (client_country locality) as [home|]; [|done]. case_bool_decide; [|done].
  destruct (or_all_subseteq (fun p : Z * Z => eq_ignore_ascii_case (country_at p.1) home = false) pairs) as (? & ? & _); eauto.
Qed.

Lemma narrowed_subseteq pairs entry_country unroutable :
  narrowed pairs entry_country unroutable ⊆ pairs /\ (pairs <> [] -> narrowed pairs entry_country unroutable <> []).
Proof.
  unfold narrowed, routed. destruct (away_subseteq pairs entry_country) as [Ha Hs].
  destruct (or_all_subseteq (fun p : Z * Z => among unroutable p.1 = false) (away_from_home pairs entry_country)) as (Hr & Hn & _).
  split; [by etrans|auto].
Qed.

(** Either every entry left is routed, or none of the candidates' is. *)
Lemma narrowed_routed pairs entry_country unroutable :
  (forall p, p ∈ narrowed pairs entry_country unroutable -> among unroutable p.1 = true) \/
  (forall p, p ∈ narrowed pairs entry_country unroutable -> among unroutable p.1 = false).
Proof.
  unfold narrowed, routed.
  destruct (or_all_subseteq (fun p : Z * Z => among unroutable p.1 = false) (away_from_home pairs entry_country))
    as (_ & _ & [Hr|[-> Hr]]); [right; exact Hr|].
  left. intros p Hp. apply not_false_iff_true. by apply Hr.
Qed.

Lemma narrow_ok pairs entry_country unroutable : Forall pair_ok pairs ->
  @narrow_entries _ _ E dir pairs entry_country locality unroutable = Ok (narrowed pairs entry_country unroutable).
Proof.
  intros Hall. pose proof (proj1 (Forall_forall _ _) Hall) as Hok. unfold narrow_entries.
  assert ((if bool_decide (entry_country = []) then without_home_entries dir pairs (client_country locality) else Ok pairs)
    = @Ok E _ (away_from_home pairs entry_country)) as ->.
  { unfold away_from_home, without_home_entries. case_bool_decide; [|by destruct (client_country locality)].
    destruct (client_country locality) as [home|]; [|done].
    rewrite (filterM_ok _ (fun p => negb (eq_ignore_ascii_case (country_at p.1) home))).
    2: { intros p Hp. destruct (Hok p Hp) as [(n & Hn & Hk)%node_ok _]. rewrite Hk, bind_Ok. unfold country_at. by rewrite Hn. }
    rewrite bind_Ok, or_all_match. do 2 f_equal. apply list_filter_iff. intros p. apply negb_true_iff. }
  rewrite bind_Ok. unfold routable_pairs, narrowed, routed. set (away := away_from_home pairs entry_country).
  assert (forall p, p ∈ away -> pair_ok p) as Haway by (intros p Hp; apply Hok; by apply (away_subseteq pairs entry_country)).
  rewrite (filterM_ok _ (fun p => negb (among unroutable p.1))).
  2: { intros p Hp. destruct (Haway p Hp). by rewrite entry_among_ok, bind_Ok. }
  rewrite bind_Ok, or_all_match. do 2 f_equal. apply list_filter_iff. intros p. apply negb_true_iff.
Qed.

Lemma valid_pair_ok entry_country exit_country excluded : Forall pair_ok (valid_circuits dir entry_country exit_country excluded).
Proof.
  apply Forall_forall. intros [e x] Hp. apply valid_circuits_ok in Hp as (_ & entry & exit & He & Hx & _).
  split; unfold listed; simpl; by rewrite ?He, ?Hx.
Qed.

Lemma pair_ok_subseteq pairs pairs' : pairs' ⊆ pairs -> Forall pair_ok pairs -> Forall pair_ok pairs'.
Proof. rewrite !Forall_forall. intros Hs Hall p Hp. apply Hall. by apply Hs. Qed.

(** *** Two hops *)

Definition in_use current : option (Z * Z) :=
  cur ← current; ei ← relay_index dir (circuit_identity cur).1; xi ← exit_index dir (circuit_identity cur).2; Some (ei, xi).

Definition kept_exit pairs unroutable current : option Z :=
  cur ← current; xi ← exit_index dir (circuit_identity cur).2;
  if bool_decide ((circuit_identity cur).1 ∈ unroutable) && existsb (fun p => p.2 =? xi) pairs then Some xi else None.

(** What a two-hop pass picks before the refusals move its entry, and after. *)
Definition picked pairs unroutable current : option (Z * Z) :=
  match kept_exit pairs unroutable current with
  | Some xi => ranked (filter (fun p => p.2 = xi) pairs)
  | None => sticky ranked local_at degraded_leg pairs (in_use current)
  end.
Definition two_hop pairs refused unroutable current : option (Z * Z) :=
  pick ← picked pairs unroutable current; Some (off_refused ranked (among refused) pairs pick (in_use current)).

Lemma position_listed (f : NodeEntry -> bool) i : node_position f (nodes dir) = Some i -> listed i.
Proof. intros (n & Hn & _)%node_position_Some. unfold listed. by rewrite Hn. Qed.

Lemma in_use_ok current p : in_use current = Some p -> pair_ok p.
Proof.
  unfold in_use. destruct current as [cur|]; [|done]. cbn [mbind option_bind].
  destruct (relay_index dir _) as [ei|] eqn:He; [|done]. cbn [mbind option_bind].
  destruct (exit_index dir _) as [xi|] eqn:Hx; [|done]. intros [= <-]. split; [exact (position_listed _ _ He)|exact (position_listed _ _ Hx)].
Qed.

Lemma picked_member pairs unroutable current p : picked pairs unroutable current = Some p -> p ∈ pairs.
Proof.
  unfold picked. destruct (kept_exit _ _ _) as [xi|].
  - by intros [_ Hp]%ranked_member%list_elem_of_filter.
  - apply sticky_member. exact ranked_member.
Qed.

Lemma two_hop_ok entry_country exit_country gso obfuscation current excluded refused unroutable
    (pairs := valid_circuits dir entry_country exit_country excluded) :
  @pick_two_hop_circuit_with_rtt _ _ E dir entry_country exit_country gso obfuscation current excluded refused unroutable
    locality advisory entry_rtt now =
    Ok (if bool_decide (pairs = []) then None
        else '(e, x) ← two_hop (narrowed pairs entry_country unroutable) refused unroutable current;
             assemble dir e x gso obfuscation).
Proof.
  unfold pick_two_hop_circuit_with_rtt. fold pairs. case_bool_decide as Hp; [done|].
  pose proof (valid_pair_ok entry_country exit_country excluded) as Hok. fold pairs in Hok.
  rewrite narrow_ok, bind_Ok by done. set (kept := narrowed pairs entry_country unroutable).
  assert (Forall pair_ok kept) as Hkept by (eapply pair_ok_subseteq; [apply narrowed_subseteq|done]).
  assert ((match kept_exit kept unroutable current with
           | Some xi => pick_pair_path_aware dir (filter (fun p => p.2 = xi) kept) (continent locality) advisory entry_rtt now
           | None => sticky_or_fresh_pair dir kept current locality advisory now
                       (fun pairs => pick_pair_path_aware dir pairs (continent locality) advisory entry_rtt now)
           end) = @Ok E _ (picked kept unroutable current)) as Hpick.
  { unfold picked. destruct (kept_exit _ _ _) as [xi|]; [by apply pick_ok, pair_ok_filter|].
    apply sticky_ok; [intros l Hl; by apply pick_ok|done]. }
  unfold kept_exit in Hpick. cbv zeta. rewrite Hpick, bind_Ok. unfold two_hop.
  destruct (picked kept unroutable current) as [pick|] eqn:Hpk; [|done].
  rewrite (off_refused_ok kept pick (in_use current)).
  - rewrite bind_Ok. cbn [mbind option_bind]. by destruct (off_refused _ _ _ _ _).
  - intros l Hl. by apply pick_ok.
  - done.
  - rewrite Forall_forall in Hkept. apply Hkept. by eapply picked_member.
  - apply in_use_ok.
Qed.

(** *** One hop *)

Definition matching (exit_country : str) excluded : list Z :=
  node_indices (fun n => country_matches exit_country (node_country n)
                         && negb (bool_decide (exit_id (node_exit n) ∈ excluded))) dir.
Definition one_hop_candidates (exit_country : str) excluded unroutable : list Z :=
  or_all (filter (fun i => among unroutable i = false) (matching exit_country excluded)) (matching exit_country excluded).
Definition one_hop (exit_country : str) excluded unroutable : option Z :=
  let l := one_hop_candidates exit_country excluded unroutable in
  k ← pick_exit (omap (fun i => exit_candidate <$> get (nodes dir) i) l); get l k.

Lemma elem_of_matching exit_country excluded i :
  i ∈ matching exit_country excluded <->
  exists n, get (nodes dir) i = Some n /\ country_matches exit_country (node_country n) = true /\
            exit_id (node_exit n) ∉ excluded.
Proof.
  unfold matching, node_indices. rewrite list_elem_of_filter, elem_of_seqZ. split.
  - intros [Hn _]. destruct (get (nodes dir) i) as [n|]; [|done]. exists n. injection Hn as Hn.
    rewrite andb_true_iff, negb_true_iff, bool_decide_eq_false in Hn. naive_solver.
  - intros (n & Hn & Hc & Hx). rewrite Hn. split.
    + simpl. by rewrite Hc, bool_decide_eq_false_2.
    + unfold get in Hn. destruct (Z.leb_spec 0 i); [|done]. apply lookup_lt_Some in Hn. unfold zlen. lia.
Qed.

Lemma one_hop_member exit_country excluded unroutable i :
  one_hop exit_country excluded unroutable = Some i ->
  i ∈ matching exit_country excluded /\
  (among unroutable i = true -> forall j, j ∈ matching exit_country excluded -> among unroutable j = true).
Proof.
  unfold one_hop. destruct (pick_exit _) as [k|]; [|done]. cbn [mbind option_bind]. intros Hi%get_elem. unfold one_hop_candidates in Hi.
  destruct (or_all_subseteq (fun i => among unroutable i = false) (matching exit_country excluded)) as (Hs & _ & Hr).
  split; [by apply Hs|]. intros Ha. destruct Hr as [Hr|[_ Hr]]; [specialize (Hr i Hi); congruence|].
  intros j Hj. apply not_false_iff_true. by apply Hr.
Qed.

Lemma one_hop_None exit_country excluded unroutable :
  one_hop exit_country excluded unroutable = None -> matching exit_country excluded = [].
Proof.
  unfold one_hop. set (l := one_hop_candidates exit_country excluded unroutable).
  destruct (or_all_subseteq (fun i => among unroutable i = false) (matching exit_country excluded)) as (Hs & Hn & _).
  fold (one_hop_candidates exit_country excluded unroutable) in Hs, Hn. fold l in Hs, Hn.
  destruct (matching exit_country excluded) as [|i0 m] eqn:Hm; [done|]. rewrite <- Hm in *.
  assert (length (omap (fun i => exit_candidate <$> get (nodes dir) i) l) = length l) as Hlen.
  { eapply (mapM_omap (E:=E) (fun i => n ← node dir i; Ok (exit_candidate n))). intros i Hi%Hs.
    apply elem_of_matching in Hi as (n & Hi & _). exists (exit_candidate n). unfold node, at_index. by rewrite Hi. }
  destruct (pick_exit _) as [k|] eqn:Hk.
  - apply pick_exit_range in Hk as [y Hy]. cbn [mbind option_bind]. intros Hnone. exfalso.
    unfold get in *. destruct (0 <=? k); [|done]. apply lookup_lt_Some in Hy. apply lookup_ge_None in Hnone. lia.
  - intros _. exfalso. apply pick_exit_some in Hk; [done|]. intros Hnil. rewrite Hnil in Hlen.
    apply Hn; [by rewrite Hm|]. by apply nil_length_inv.
Qed.

Lemma one_hop_ok exit_country gso obfuscation excluded unroutable :
  @select_one_hop_among _ _ E dir exit_country gso obfuscation excluded unroutable =
    Ok (i ← one_hop exit_country excluded unroutable; assemble dir i i gso obfuscation).
Proof.
  unfold select_one_hop_among. fold (matching exit_country excluded).
  rewrite (filterM_ok _ (fun i => negb (among unroutable i))).
  2: { intros i (n & Hi & _)%elem_of_matching. rewrite entry_among_ok, bind_Ok; [done|]. unfold listed. by rewrite Hi. }
  rewrite bind_Ok, or_all_match.
  assert (filter (fun i => negb (among unroutable i) = true) (matching exit_country excluded)
    = filter (fun i => among unroutable i = false) (matching exit_country excluded)) as -> by (apply list_filter_iff; intros i; apply negb_true_iff).
  fold (one_hop_candidates exit_country excluded unroutable). set (l := one_hop_candidates exit_country excluded unroutable).
  destruct (mapM_omap (E:=E) (fun i => n ← node dir i; Ok (exit_candidate n))
    (fun i => exit_candidate <$> get (nodes dir) i) l) as [-> Hlen].
  { intros i Hi. destruct (or_all_subseteq (fun i => among unroutable i = false) (matching exit_country excluded)) as (Hs & _).
    apply Hs, elem_of_matching in Hi as (n & Hi & _). exists (exit_candidate n). unfold node, at_index. by rewrite Hi. }
  rewrite bind_Ok. unfold one_hop. fold l. destruct (pick_exit _) as [k|] eqn:Hk; [|done]. cbn [mbind option_bind].
  apply pick_exit_range in Hk as [y Hy]. unfold at_index. destruct (get l k) as [i|] eqn:Hi; [by rewrite bind_Ok|].
  exfalso. unfold get in *. destruct (0 <=? k); [|done]. apply lookup_lt_Some in Hy. apply lookup_ge_None in Hi. lia.
Qed.

(** The node a one-hop circuit in use keeps, when it keeps it. *)
Definition kept_node (exit_country : str) excluded unroutable current : option Z :=
  '(ri, xi) ← in_use current; cur ← current;
  if (ri =? xi) && country_matches exit_country (country_at ri)
     && negb (bool_decide ((circuit_identity cur).2 ∈ excluded)) && negb (bool_decide ((circuit_identity cur).1 ∈ unroutable))
  then Some ri else None.

Lemma pick_one_hop_ok exit_country gso obfuscation current excluded unroutable :
  @pick_one_hop_circuit _ _ E dir exit_country gso obfuscation current excluded unroutable =
    Ok (i ← (match kept_node exit_country excluded unroutable current with
             | Some i => Some i
             | None => one_hop exit_country excluded unroutable
             end); assemble dir i i gso obfuscation).
Proof.
  unfold pick_one_hop_circuit, kept_node, in_use. rewrite one_hop_ok. destruct current as [cur|]; [|done]. cbn [mbind option_bind].
  destruct (relay_index dir _) as [ri|] eqn:Hri; [|done]. cbn [mbind option_bind].
  destruct (exit_index dir _) as [xi|]; [|done]. cbn [mbind option_bind].
  destruct (circuit_identity cur) as [cur_relay cur_exit]. cbn [fst snd].
  destruct (ri =? xi); cbn [negb andb]; [|done].
  destruct (node_ok ri (position_listed _ _ Hri)) as (n & Hn & Hok). rewrite Hok, bind_Ok. unfold country_at. rewrite Hn. cbn [fmap option_fmap option_map default id].
  by destruct (_ && _).
Qed.
End Computed.
