(* ===== verification/SelectionRun.v ===== *)
(** * What the circuit selection promises

    The theorems about the pass of the directory updater, and about the
    selection of a route's circuit, over any ranking that keeps
    [DiscoveryLaws]; then their instances over a small fleet. *)

From S2P Require Import Prelude Net AppKey Routes RoutePlan Selection SelectionSpec.
Open Scope Z_scope.

Section Promises.
Context `{!Descriptors, !Discovery, !DiscoveryLaws} {E : Type}.
Implicit Types (settings : MultiHopSettings) (current : option MultiHopConfig) (c : MultiHopConfig).

(** The candidates of a selection: the pairs on two hops, once the entries at home are left out, a
    node twice on one hop. *)
Definition candidates (dir : VerifiedMultiHopDirectory) settings (drained : list bytes) (locality : ClientLocality)
    : list (Z * Z) :=
  if mh_enabled settings
  then away_from_home dir locality (valid_circuits dir (mh_entry_country settings) (mh_exit_country settings) drained)
         (mh_entry_country settings)
  else (fun i => (i, i)) <$> matching dir (mh_exit_country settings) drained.

(** A circuit of a candidate pair, through an entry the network routes if any candidate's is. *)
Record admissible (dir : VerifiedMultiHopDirectory) settings (drained unroutable : list bytes)
    (locality : ClientLocality) (c : MultiHopConfig) (e x : Z) (entry exit : NodeEntry) : Prop := {
  adm_entry : get (nodes dir) e = Some entry;
  adm_exit : get (nodes dir) x = Some exit;
  adm_circuit : c = mkMultiHopConfig _ (node_relay entry) (node_exit exit) (dir_operational_pubkey dir)
                      (node_country exit) (node_city exit) true true (negb (mh_enabled settings));
  adm_candidate : (e, x) ∈ candidates dir settings drained locality;
  adm_hops : e = x <-> mh_enabled settings = false;
  adm_country : country_matches (mh_exit_country settings) (node_country exit) = true;
  adm_entry_country : mh_enabled settings = true -> country_matches (mh_entry_country settings) (node_country entry) = true;
  adm_drained : exit_id (node_exit entry) ∉ drained /\ exit_id (node_exit exit) ∉ drained;
  adm_routed : relay_id (node_relay entry) ∈ unroutable ->
               forall p, p ∈ candidates dir settings drained locality -> relay_at dir p.1 ∈ unroutable
}.

(** What a pass picks, by index. *)
Definition selected (dir : VerifiedMultiHopDirectory) settings current (drained refused unroutable : list bytes)
    (locality : ClientLocality) (advisory : option PathQualityAdvisory) (rtt : RttCache) (now : Z) : option (Z * Z) :=
  if mh_enabled settings
  then two_hop dir advisory rtt now locality
         (narrowed dir locality (valid_circuits dir (mh_entry_country settings) (mh_exit_country settings) drained)
            (mh_entry_country settings) unroutable) refused unroutable current
  else (fun i => (i, i)) <$>
       match kept_node dir (mh_exit_country settings) drained unroutable current with
       | Some i => Some i
       | None => one_hop dir (mh_exit_country settings) drained unroutable
       end.

Lemma ranked_nil dir advisory rtt now locality : ranked dir advisory rtt now locality [] = None.
Proof. destruct (ranked _ _ _ _ _ []) eqn:Hr; [|done]. by apply ranked_member, elem_of_nil in Hr. Qed.

Lemma two_hop_member dir advisory rtt now locality pairs refused unroutable current p :
  two_hop dir advisory rtt now locality pairs refused unroutable current = Some p -> p ∈ pairs.
Proof.
  unfold two_hop. destruct (picked _ _ _ _ _ _ _ _) as [k|] eqn:Hk; [|done]. intros [= <-].
  apply off_refused_member; [apply ranked_member|by eapply picked_member].
Qed.

Lemma two_hop_nil dir advisory rtt now locality refused unroutable current :
  two_hop dir advisory rtt now locality [] refused unroutable current = None.
Proof.
  destruct (two_hop _ _ _ _ _ _ _ _ _) eqn:H2; [|done]. by apply two_hop_member, elem_of_nil in H2.
Qed.

Lemma narrowed_nil dir locality entry_country unroutable : narrowed dir locality [] entry_country unroutable = [].
Proof.
  destruct (narrowed _ _ _ _ _) as [|p l] eqn:Hn; [done|]. exfalso.
  destruct (narrowed_subseteq dir locality [] entry_country unroutable) as [Hs _].
  apply (elem_of_nil p), Hs. rewrite Hn. by left.
Qed.

Lemma select_ok dir settings current drained refused unroutable locality advisory rtt now :
  @select_next_circuit _ _ E dir settings current drained refused unroutable locality advisory rtt now =
    Ok ('(e, x) ← selected dir settings current drained refused unroutable locality advisory rtt now;
        assemble dir e x true true).
Proof.
  unfold select_next_circuit, selected. destruct (mh_enabled settings).
  - rewrite two_hop_ok. case_bool_decide as Hp; [|done]. by rewrite Hp, narrowed_nil, two_hop_nil.
  - rewrite pick_one_hop_ok. destruct (kept_node _ _ _ _ _); [done|]. by destruct (one_hop _ _ _ _).
Qed.

Lemma kept_node_Some dir exit_country drained unroutable current i :
  kept_node dir exit_country drained unroutable current = Some i ->
  i ∈ matching dir exit_country drained /\ relay_at dir i ∉ unroutable.
Proof.
  unfold kept_node, in_use. destruct current as [cur|]; [|done]. cbn [mbind option_bind].
  destruct (relay_index dir _) as [ri|] eqn:Hr; [|done]. cbn [mbind option_bind].
  destruct (exit_index dir _) as [xi|] eqn:Hx; [|done]. cbn [mbind option_bind].
  destruct (_ && _) eqn:Hc; [|done]. intros [= ->].
  rewrite !andb_true_iff, !negb_true_iff, !bool_decide_eq_false, Z.eqb_eq in Hc. destruct Hc as [[[<- Hc] Hd] Hu].
  apply node_position_Some in Hr as (n & Hn & Hr). apply node_position_Some in Hx as (n' & Hn' & Hx).
  rewrite Hn in Hn'. injection Hn' as <-. apply bool_decide_eq_true in Hr, Hx.
  split; [|unfold relay_at; rewrite Hn; simpl; congruence]. apply elem_of_matching. exists n.
  unfold country_at in Hc. rewrite Hn in Hc. split_and!; [done|done|congruence].
Qed.

(** What is picked is a candidate, and one through a routed entry where any candidate's is. *)
Lemma selected_candidate dir settings current drained refused unroutable locality advisory rtt now e x :
  selected dir settings current drained refused unroutable locality advisory rtt now = Some (e, x) ->
  (e, x) ∈ candidates dir settings drained locality /\
  (relay_at dir e ∈ unroutable -> forall p, p ∈ candidates dir settings drained locality -> relay_at dir p.1 ∈ unroutable).
Proof.
  unfold selected, candidates. destruct (mh_enabled settings).
  - intros Hp%two_hop_member. unfold narrowed, routed in Hp. set (away := away_from_home _ _ _ _) in *.
    destruct (or_all_subseteq (fun p : Z * Z => among dir unroutable p.1 = false) away) as (Hs & _ & Hr).
    split; [by apply Hs|]. intros Ha. destruct Hr as [Hr|[_ Hr]].
    + specialize (Hr _ Hp). unfold among in Hr. by apply bool_decide_eq_false in Hr.
    + intros p Hin. specialize (Hr p Hin). apply not_false_iff_true in Hr. by apply bool_decide_eq_true in Hr.
  - destruct (kept_node _ _ _ _ _) as [i|] eqn:Hk.
    + intros [= <- <-]. apply kept_node_Some in Hk as [Hi Hu]. split; [|done]. apply list_elem_of_fmap. by exists i.
    + destruct (one_hop _ _ _ _) as [i|] eqn:Ho; [|done]. intros [= <- <-].
      apply one_hop_member in Ho as [Hi Hu]. split; [apply list_elem_of_fmap; by exists i|].
      intros Ha p (j & -> & Hj)%list_elem_of_fmap. simpl. unfold among in Hu. specialize (Hu (bool_decide_eq_true_2 _ Ha) j Hj).
      by apply bool_decide_eq_true in Hu.
Qed.

Lemma selected_None dir settings current drained refused unroutable locality advisory rtt now :
  selected dir settings current drained refused unroutable locality advisory rtt now = None ->
  candidates dir settings drained locality = [].
Proof.
  unfold selected, candidates. destruct (mh_enabled settings).
  - unfold two_hop. set (pairs := narrowed _ _ _ _ _). destruct (picked _ _ _ _ _ pairs _ _) as [k|] eqn:Hk; [done|]. intros _.
    assert (pairs = []) as Hnil.
    { unfold picked in Hk. destruct (kept_exit _ _ _ _) as [xi|] eqn:Hx.
      - exfalso. unfold kept_exit in Hx. destruct current as [cur|]; [|done]. cbn [mbind option_bind] in Hx.
        destruct (exit_index _ _) as [y|]; [|done]. cbn [mbind option_bind] in Hx. destruct (_ && _) eqn:Hc; [|done].
        injection Hx as ->. apply andb_true_iff in Hc as [_ (p & Hp & Hpx)%existsb_exists]. apply Z.eqb_eq in Hpx.
        apply ranked_some in Hk; [done|]. intros Hnil.
        apply (filter_nil_not_elem_of (fun p => p.2 = xi) pairs p Hnil Hpx). by apply list_elem_of_In.
      - by eapply (sticky_None _ _ _ (ranked_some _ _ _ _ _)) in Hk. }
    destruct (away_from_home _ _ _ _) as [|p l] eqn:Ha; [done|]. exfalso.
    unfold pairs, narrowed, routed in Hnil. rewrite Ha in Hnil.
    by destruct (or_all_subseteq (fun p : Z * Z => among dir unroutable p.1 = false) (p :: l)) as (_ & Hs & _); apply Hs.
  - destruct (kept_node _ _ _ _ _) as [i|]; [done|]. destruct (one_hop _ _ _ _) as [i|] eqn:Ho; [done|]. intros _.
    by apply (@one_hop_None _ _ _ E) in Ho as ->.
Qed.

Lemma assemble_ok dir e x entry exit gso obfuscation :
  get (nodes dir) e = Some entry -> get (nodes dir) x = Some exit ->
  assemble dir e x gso obfuscation =
    Some (mkMultiHopConfig _ (node_relay entry) (node_exit exit) (dir_operational_pubkey dir)
            (node_country exit) (node_city exit) gso obfuscation (e =? x)).
Proof. intros He Hx. unfold assemble. by rewrite Hx, He. Qed.

Lemma candidate_admissible dir settings drained unroutable locality e x :
  (e, x) ∈ candidates dir settings drained locality ->
  (relay_at dir e ∈ unroutable -> forall p, p ∈ candidates dir settings drained locality -> relay_at dir p.1 ∈ unroutable) ->
  exists c entry exit, assemble dir e x true true = Some c /\ admissible dir settings drained unroutable locality c e x entry exit.
Proof.
  intros Hc Hr. pose proof Hc as Hcand. revert Hc. unfold candidates at 1. destruct (mh_enabled settings) eqn:Hen.
  - intros Hp. apply away_subseteq in Hp. apply valid_circuits_ok in Hp as (Hne & entry & exit & He & Hx & Hec & Hxc & _ & Hd).
    eexists _, entry, exit. split; [by apply assemble_ok|].
    split; rewrite ?Hen; try done; [by rewrite (proj2 (Z.eqb_neq _ _) Hne)|].
    intros Hu. apply Hr. unfold relay_at. by rewrite He.
  - intros (i & Hi & (n & Hn & Hxc & Hd)%elem_of_matching)%list_elem_of_fmap. injection Hi as -> ->.
    eexists _, n, n. split; [by apply assemble_ok|]. split; rewrite ?Hen; try done; [by rewrite Z.eqb_refl|].
    intros Hu. apply Hr. unfold relay_at. by rewrite Hn.
Qed.

(** Whatever the directory, the circuit in use, the advisory and the RTTs measured, a pass of the
    selection returns without panicking; what it picks is assembled from two nodes of the
    directory, distinct and of two countries on two hops and the same one on one hop, in the
    countries asked for, neither of them draining; its entry is one the network routes unless it
    routes no candidate's; and it picks nothing only when there is no candidate. *)
Lemma select_admissible (dir : VerifiedMultiHopDirectory) (settings : MultiHopSettings)
    (current : option MultiHopConfig) (drained refused unroutable : list bytes) (locality : ClientLocality)
    (advisory : option PathQualityAdvisory) (rtt : RttCache) (now : Z) :
  match @select_next_circuit _ _ E dir settings current drained refused unroutable locality advisory rtt now with
  | Ok (Some c) => exists e x entry exit, admissible dir settings drained unroutable locality c e x entry exit
  | Ok None => candidates dir settings drained locality = []
  | _ => False
  end.
Proof.
  rewrite select_ok. destruct (selected _ _ _ _ _ _ _ _ _ _) as [[e x]|] eqn:Hs; [|by eapply selected_None].
  apply selected_candidate in Hs as [Hc Hr]. cbn [mbind option_bind].
  destruct (candidate_admissible _ _ _ _ _ _ _ Hc Hr) as (c & entry & exit & -> & Hadm). by exists e, x, entry, exit.
Qed.

(** A refusal never moves the exit.  Refusals are not authenticated, so the exits an attacker
    could forge them for must not matter: whatever two sets of entries refused a dial, the pass
    keeps the same exit, and on one hop the same circuit; and on two hops it leaves an entry that
    refused only for one that did not, whenever some entry of that exit did not. *)
Theorem refusals_never_move_exit (dir : VerifiedMultiHopDirectory) (settings : MultiHopSettings)
    (current : option MultiHopConfig) (drained refused refused' unroutable : list bytes) (locality : ClientLocality)
    (advisory : option PathQualityAdvisory) (rtt : RttCache) (now : Z) :
  let select refused := @select_next_circuit _ _ E dir settings current drained refused unroutable locality advisory rtt now in
  let pairs := narrowed dir locality (valid_circuits dir (mh_entry_country settings) (mh_exit_country settings) drained)
                 (mh_entry_country settings) unroutable in
  exists c c' : option MultiHopConfig, select refused = Ok c /\ select refused' = Ok c' /\
    (Routes.exit <$> c) = (Routes.exit <$> c') /\ (mh_enabled settings = false -> c = c') /\
    (mh_enabled settings = true -> c <> None -> exists e x, c = assemble dir e x true true /\ (e, x) ∈ pairs /\
       (relay_at dir e ∈ refused -> forall p, p ∈ pairs -> p.2 = x -> relay_at dir p.1 ∈ refused)).
Proof.
  intros select pairs. unfold select. rewrite !select_ok. eexists _, _. split; [done|]. split; [done|].
  unfold selected. destruct (mh_enabled settings) eqn:Hen; [|done]. fold pairs. unfold two_hop.
  destruct (picked _ _ _ _ _ pairs _ _) as [k|] eqn:Hk; [|done]. apply picked_member in Hk. cbn [mbind option_bind].
  assert (forall refused, exists e x, off_refused (ranked dir advisory rtt now locality) (among dir refused) pairs k
      (in_use dir current) = (e, x) /\ fronted (among dir refused) pairs (e, x) /\ x = k.2) as Hoff.
  { intros ids. destruct (off_refused _ _ _ _ _) as [e x] eqn:Ho. exists e, x. split; [done|]. rewrite <- Ho. split.
    - apply off_refused_fronted; [apply ranked_member|apply ranked_some|done].
    - pose proof (off_refused_member (ranked dir advisory rtt now locality) (among dir ids)
        (ranked_member dir advisory rtt now locality) pairs k (in_use dir current) Hk) as [_ He]. by rewrite Ho in He. }
  destruct (Hoff refused) as (e & x & -> & Hf & ->). destruct (Hoff refused') as (e' & x' & -> & Hf' & ->).
  assert (forall e, (e, k.2) ∈ pairs -> exists c exit, assemble dir e k.2 true true = Some c /\
    get (nodes dir) k.2 = Some exit /\ Routes.exit c = node_exit exit) as Hasm.
  { intros e0 Hp. apply narrowed_subseteq, valid_circuits_ok in Hp as (_ & entry & exit & He & Hx & _).
    eexists _, exit. split; [by apply assemble_ok|]. done. }
  split_and!; [|done|].
  - destruct (Hasm e (proj1 Hf)) as (c & exit & -> & Hx & Hc). destruct (Hasm e' (proj1 Hf')) as (c' & exit' & -> & Hx' & Hc').
    simpl. congruence.
  - intros _ _. exists e, k.2. split; [done|]. destruct Hf as [Hin Hf]. split; [done|].
    intros Hr p Hp Hx. specialize (Hf (bool_decide_eq_true_2 _ Hr) p Hp Hx). by apply bool_decide_eq_true in Hf.
Qed.

(** ** Passes over one directory *)

(** Every node has its own entry and its own exit. *)
Definition own_ids (dir : VerifiedMultiHopDirectory) : Prop :=
  NoDup ((fun n => relay_id (node_relay n)) <$> nodes dir) /\ NoDup ((fun n => exit_id (node_exit n)) <$> nodes dir).

Lemma position_own (key : NodeEntry -> bytes) l i n :
  NoDup (key <$> l) -> get l i = Some n -> node_position (fun m => bool_decide (key m = key n)) l = Some i.
Proof.
  revert i. induction l as [|m l IH]; intros i Hnd Hi.
  - exfalso. unfold get in Hi. by destruct (0 <=? i).
  - cbn [fmap list_fmap] in Hnd. apply NoDup_cons in Hnd as [Hm Hnd]. unfold get in Hi, IH. cbn [node_position].
    destruct (Z.leb_spec 0 i) as [Hge|]; [|done]. destruct (decide (i = 0)) as [->|Hne].
    + injection Hi as ->. by rewrite bool_decide_eq_true_2.
    + replace (Z.to_nat i) with (S (Z.to_nat (i - 1))) in Hi by lia. cbn in Hi.
      rewrite bool_decide_eq_false_2.
      * rewrite (IH (i - 1)); [simpl; f_equal; lia|done|]. by rewrite (proj2 (Z.leb_le _ _)) by lia.
      * intros He. apply Hm. rewrite He. apply list_elem_of_fmap. exists n. split; [done|]. by eapply list_elem_of_lookup_2.
Qed.

Lemma in_use_assemble dir e x gso obfuscation c :
  own_ids dir -> assemble dir e x gso obfuscation = Some c ->
  in_use dir (Some c) = Some (e, x) /\ circuit_identity c = (relay_at dir e, exit_at dir x).
Proof.
  intros [Hr Hx]. unfold assemble, relay_at, exit_at. destruct (get (nodes dir) x) as [exit|] eqn:Hex; [|done]. cbn [mbind option_bind].
  destruct (get (nodes dir) e) as [entry|] eqn:Hen; [|done]. intros [= <-]. split; [|done].
  unfold in_use, relay_index, exit_index, has_relay, has_exit, circuit_identity.
  cbn [mbind option_bind fst snd relay Routes.exit].
  rewrite (position_own (fun n => relay_id (node_relay n)) _ e entry Hr Hen). cbn [mbind option_bind].
  by rewrite (position_own (fun n => exit_id (node_exit n)) _ x exit Hx Hex).
Qed.

(** A pass from a circuit in use whose pair is a candidate is [pass]. *)
Lemma two_hop_pass dir advisory rtt now locality pairs refused unroutable c q :
  in_use dir (Some c) = Some q -> circuit_identity c = (relay_at dir q.1, exit_at dir q.2) -> q ∈ pairs ->
  exit_index dir (exit_at dir q.2) = Some q.2 ->
  two_hop dir advisory rtt now locality pairs refused unroutable (Some c) =
    Some (pass (ranked dir advisory rtt now locality) (among dir refused) (local_at dir locality)
            (degraded_leg dir advisory now) (among dir unroutable) pairs q).
Proof.
  intros Hin Hid Hq Hx. unfold two_hop, picked, kept_exit, pass. rewrite Hin. cbn [mbind option_bind]. rewrite Hid. cbn [fst snd].
  rewrite Hx. cbn [mbind option_bind].
  assert (existsb (fun p : Z * Z => p.2 =? q.2) pairs = true) as ->.
  { apply existsb_exists. exists q. split; [by apply list_elem_of_In|apply Z.eqb_refl]. }
  rewrite andb_true_r. unfold among at 2. destruct (bool_decide (relay_at dir q.1 ∈ unroutable)).
  - destruct (ranked _ _ _ _ _ (filter _ _)) as [r|] eqn:Hr; [done|]. exfalso. apply ranked_some in Hr; [done|].
    intros Hnil. by apply (filter_nil_not_elem_of (fun p => p.2 = q.2) pairs q Hnil).
  - destruct (sticky _ _ _ _ _) as [k|] eqn:Hk; [done|]. exfalso.
    apply (sticky_None _ _ _ (ranked_some _ _ _ _ _)) in Hk. rewrite Hk in Hq. by apply elem_of_nil in Hq.
Qed.

(** A node kept is kept again. *)
Lemma kept_node_kept dir exit_country drained unroutable current i : own_ids dir ->
  kept_node dir exit_country drained unroutable current = Some i ->
  kept_node dir exit_country drained unroutable (assemble dir i i true true) = Some i.
Proof.
  intros Hown [(n & Hn & Hc & Hx)%elem_of_matching Hu]%kept_node_Some. pose proof (assemble_ok dir i i n n true true Hn Hn) as Ha.
  rewrite Ha. unfold kept_node. destruct (in_use_assemble _ _ _ _ _ _ Hown Ha) as [-> Hid]. cbn [mbind option_bind]. rewrite Hid. cbn [fst snd].
  unfold country_at, exit_at. rewrite Hn. cbn [fmap option_fmap option_map default id].
  by rewrite Z.eqb_refl, Hc, !bool_decide_eq_false_2.
Qed.

(** The pair a pass picks from the circuit of another. *)
Definition next_pick dir settings drained refused unroutable locality advisory rtt now (q : Z * Z) : option (Z * Z) :=
  selected dir settings (assemble dir q.1 q.2 true true) drained refused unroutable locality advisory rtt now.

Lemma selected_settles dir settings current drained refused unroutable locality advisory rtt now q
    (next := next_pick dir settings drained refused unroutable locality advisory rtt now) :
  own_ids dir -> selected dir settings current drained refused unroutable locality advisory rtt now = Some q ->
  exists q2 q3, next q = Some q2 /\ next q2 = Some q3 /\ next q3 = Some q3.
Proof.
  intros Hown Hs. unfold next, next_pick, selected in *. destruct (mh_enabled settings).
  - set (pairs := narrowed _ _ _ _ _) in *.
    set (p := pass (ranked dir advisory rtt now locality) (among dir refused) (local_at dir locality)
            (degraded_leg dir advisory now) (among dir unroutable) pairs).
    assert (forall q, q ∈ pairs -> two_hop dir advisory rtt now locality pairs refused unroutable (assemble dir q.1 q.2 true true) = Some (p q)) as Hnext.
    { intros [e x] Hq. pose proof Hq as Hv. apply narrowed_subseteq, valid_circuits_ok in Hv as (_ & entry & exit & He & Hx & _).
      cbn [fst snd]. pose proof (assemble_ok dir e x entry exit true true He Hx) as Ha. rewrite Ha.
      destruct (in_use_assemble _ _ _ _ _ _ Hown Ha) as [Hin Hid]. apply two_hop_pass; try done.
      unfold exit_at. cbn [fst snd]. rewrite Hx. by apply (position_own _ _ _ _ (proj2 Hown)). }
    assert (fronted (among dir refused) pairs q) as Hf.
    { unfold two_hop in Hs. destruct (picked _ _ _ _ _ pairs _ _) as [k|] eqn:Hk; [|done]. injection Hs as <-.
      apply picked_member in Hk. apply off_refused_fronted; [apply ranked_member|apply ranked_some|done]. }
    pose proof (pass_fronted (ranked dir advisory rtt now locality) (among dir refused) (local_at dir locality)
      (degraded_leg dir advisory now) (ranked_member _ _ _ _ _) (ranked_some _ _ _ _ _) (among dir unroutable) pairs) as Hpf.
    exists (p q), (p (p q)). split_and!; [apply Hnext, Hf|apply Hnext, (Hpf _ Hf)|].
    rewrite Hnext by (apply (Hpf _ (Hpf _ Hf))). f_equal. apply pass_settles; try done;
      [apply ranked_member|apply ranked_some|apply ranked_local|apply narrowed_routed].
  - assert (forall i, kept_node dir (mh_exit_country settings) drained unroutable (assemble dir i i true true) = Some i \/
        kept_node dir (mh_exit_country settings) drained unroutable (assemble dir i i true true) = None) as Hkept.
    { intros i. unfold kept_node. destruct (assemble dir i i true true) as [c|] eqn:Ha; [|by right].
      destruct (in_use_assemble _ _ _ _ _ _ Hown Ha) as [-> _]. cbn [mbind option_bind]. destruct (_ && _); [by left|by right]. }
    assert (exists i, q = (i, i) /\ (kept_node dir (mh_exit_country settings) drained unroutable current = Some i \/
        one_hop dir (mh_exit_country settings) drained unroutable = Some i)) as (i & -> & Hi).
    { destruct (kept_node _ _ _ _ current) as [i|]; [injection Hs as <-; eauto|].
      destruct (one_hop _ _ _ _) as [i|]; [injection Hs as <-; eauto|done]. }
    assert ((match kept_node dir (mh_exit_country settings) drained unroutable (assemble dir i i true true) with
             | Some i => Some i | None => one_hop dir (mh_exit_country settings) drained unroutable end) = Some i) as Hfix.
    { destruct (Hkept i) as [Hk|Hk]; [by rewrite Hk|]. rewrite Hk. destruct Hi as [Hi|Hi]; [|done]. exfalso.
      by rewrite (kept_node_kept _ _ _ _ _ _ Hown Hi) in Hk. }
    exists (i, i), (i, i). cbn [fst snd]. by rewrite Hfix.
Qed.

Lemma selected_assemble dir settings current drained refused unroutable locality advisory rtt now e x :
  selected dir settings current drained refused unroutable locality advisory rtt now = Some (e, x) ->
  exists c, assemble dir e x true true = Some c.
Proof.
  intros [Hc Hr]%selected_candidate. destruct (candidate_admissible _ _ _ _ _ _ _ Hc Hr) as (c & _ & _ & Ha & _). by exists c.
Qed.

(** Over one directory the selection comes to rest.  With the drained exits, the entries that
    refused, the advisory and the RTTs held still, whatever circuit was in use, at most two more
    passes from the circuit a pass picked end in one every later pass keeps. *)
Theorem selection_settles (dir : VerifiedMultiHopDirectory) (settings : MultiHopSettings)
    (current : option MultiHopConfig) (drained refused unroutable : list bytes) (locality : ClientLocality)
    (advisory : option PathQualityAdvisory) (rtt : RttCache) (now : Z) (c1 : MultiHopConfig) :
  let select current := @select_next_circuit _ _ E dir settings current drained refused unroutable locality advisory rtt now in
  own_ids dir -> select current = Ok (Some c1) ->
  exists c2 c3, select (Some c1) = Ok (Some c2) /\ select (Some c2) = Ok (Some c3) /\ select (Some c3) = Ok (Some c3).
Proof.
  intros select Hown. unfold select. rewrite select_ok. intros Hc1. injection Hc1 as Hc1.
  destruct (selected _ _ current _ _ _ _ _ _ _) as [q|] eqn:Hs; [|done]. cbn [mbind option_bind] in Hc1.
  destruct (selected_settles _ _ _ _ _ _ _ _ _ _ _ Hown Hs) as (q2 & q3 & H2 & H3 & H4).
  assert (forall q c q', assemble dir q.1 q.2 true true = Some c ->
    next_pick dir settings drained refused unroutable locality advisory rtt now q = Some q' ->
    exists c', select (Some c) = Ok (Some c') /\ assemble dir q'.1 q'.2 true true = Some c') as Hstep.
  { intros r c [e x] Hc Hn. unfold next_pick in Hn. rewrite Hc in Hn. destruct (selected_assemble _ _ _ _ _ _ _ _ _ _ _ _ Hn) as [c' Hc'].
    exists c'. split; [|done]. unfold select. rewrite select_ok, Hn. cbn [mbind option_bind]. by rewrite Hc'. }
  destruct q as [e x]. destruct (Hstep (e, x) _ _ Hc1 H2) as (c2 & Hc2 & Ha2). destruct (Hstep _ _ _ Ha2 H3) as (c3 & Hc3 & Ha3).
  destruct (Hstep _ _ _ Ha3 H4) as (c4 & Hc4 & Ha4). exists c2, c3. split_and!; [done|done|]. unfold select in Hc4. congruence.
Qed.
End Promises.
