(* ===== verification/Migration.v ===== *)
(** * Where a drained circuit may migrate

    What [same_country_migration_alternates] of [Selection] hands the drain
    reactor: one circuit for each other exit of the primary's country, the
    heaviest first. *)

From S2P Require Import Prelude Net AppKey Routes RoutePlan Selection SelectionSpec SelectionRun.
Open Scope Z_scope.

(** ** Sorting and deduplicating indices *)

#[export] Instance heavier_trans : Transitive heavier.
Proof. intros [a i] [b j] [c k]. unfold heavier. simpl. lia. Qed.
#[export] Instance heavier_total : Total heavier.
Proof. intros [a i] [b j]. unfold heavier. simpl. lia. Qed.

Lemma elem_of_dedup l x : x ∈ dedup l <-> x ∈ l.
Proof.
  induction l as [|y l IH]; [done|]. cbn [dedup]. destruct l as [|z l]; [done|].
  destruct (Z.eqb_spec y z) as [->|Hne]; rewrite ?elem_of_cons, ?IH, ?elem_of_cons; set_solver.
Qed.

Lemma NoDup_dedup l : StronglySorted Z.le l -> NoDup (dedup l).
Proof.
  induction 1 as [|y l Hs IH Hall]; [constructor|]. cbn [dedup]. destruct l as [|z l]; [apply NoDup_singleton|].
  destruct (Z.eqb_spec y z) as [->|Hne]; [done|]. apply NoDup_cons. split; [|done].
  rewrite elem_of_dedup. intros Hin. apply StronglySorted_inv in Hs as [_ Hz]. rewrite Forall_forall in Hall, Hz.
  pose proof (Hall z ltac:(by left)). apply elem_of_cons in Hin as [|Hin]; [congruence|]. specialize (Hz y Hin). lia.
Qed.

Lemma heaviest_spec (weighed : list (Z * Z)) :
  match heaviest weighed with
  | Some i => exists w, (w, i) ∈ weighed
  | None => weighed = []
  end.
Proof.
  unfold heaviest.
  assert (forall best, match foldl (fun best x => match best with
      | Some b => if decide (heavier x b) then Some x else Some b | None => Some x end) best weighed with
    | Some x => x ∈ weighed \/ best = Some x | None => weighed = [] /\ best = None end) as Hf.
  { induction weighed as [|x l IH]; intros best; simpl; [destruct best; auto|].
    specialize (IH (match best with Some b => if decide (heavier x b) then Some x else Some b | None => Some x end)).
    destruct (foldl _ _ l) as [y|]; [|by destruct best as [b|]; [destruct (decide (heavier x b))|]; destruct IH].
    destruct IH as [IH|IH]; [left; by right|]. destruct best as [b|]; [destruct (decide (heavier x b))|];
      injection IH as <-; auto; left; by left. }
  specialize (Hf None). destruct (foldl _ None weighed) as [[w i]|]; simpl; [|by destruct Hf].
  destruct Hf as [Hf|Hf]; [by exists w|done].
Qed.

(** ** The alternates *)

Section Alternates.
Context `{!Descriptors, !Discovery, !DiscoveryLaws} {E : Type} (dir : VerifiedMultiHopDirectory).

Definition weight_at (i : Z) : Z := default 0 (node_weight <$> get (nodes dir) i).
Definition weighed (l : list Z) : list (Z * Z) := (fun i => (weight_at i, i)) <$> l.
(** The heavier first, the lower index between equals. *)
Definition weightier (i j : Z) : Prop := heavier (weight_at i, i) (weight_at j, j).

Lemma weigh_ok l : Forall (listed dir) l -> @weigh _ _ E dir l = Ok (weighed l).
Proof.
  intros Hl. unfold weigh. apply mapM_ok. intros i Hi. rewrite Forall_forall in Hl. destruct (node_ok (E:=E) dir i (Hl i Hi)) as (n & Hn & Hok).
  rewrite Hok, bind_Ok. unfold weight_at. by rewrite Hn.
Qed.

Definition sorted_by_weight (l : list Z) : list Z := snd <$> merge_sort heavier (weighed l).

Lemma by_weight_ok l : Forall (listed dir) l -> @by_weight _ _ E dir l = Ok (sorted_by_weight l).
Proof. intros Hl. unfold by_weight. by rewrite weigh_ok, bind_Ok. Qed.

Lemma sorted_by_weight_perm l : sorted_by_weight l ≡ₚ l.
Proof.
  unfold sorted_by_weight. rewrite merge_sort_Permutation. unfold weighed. rewrite <- list_fmap_compose.
  by rewrite (list_fmap_ext _ id), list_fmap_id.
Qed.

Lemma sorted_by_weight_sorted l : StronglySorted weightier (sorted_by_weight l).
Proof.
  unfold sorted_by_weight. pose proof (StronglySorted_merge_sort heavier (weighed l)) as Hs.
  assert (Forall (fun p => p.1 = weight_at p.2) (merge_sort heavier (weighed l))) as Hw.
  { rewrite merge_sort_Permutation. apply Forall_fmap, Forall_true. done. }
  induction Hs as [|[w i] k Hs IH Hall]; [constructor|]. apply Forall_cons in Hw as [Hi Hw]. simpl in Hi. subst w.
  constructor; [by apply IH|]. apply Forall_fmap, Forall_forall. intros [w j] Hj. rewrite Forall_forall in Hall, Hw.
  specialize (Hall _ Hj). specialize (Hw _ Hj). simpl in *. by subst w.
Qed.

(** *** The entry of an alternate *)

Definition fronting (primary_relay : bytes) (usable : Z -> bool) (entries : list Z) : option Z :=
  let candidates := filter (fun e => usable e = true) entries in
  match filter (fun e => relay_at dir e = primary_relay) candidates with
  | e :: _ => Some e
  | [] => heaviest (weighed candidates)
  end.

Lemma front_ok entries primary_relay (usable : Z -> comp E bool) (u : Z -> bool) :
  Forall (listed dir) entries -> (forall e, e ∈ entries -> usable e = Ok (u e)) ->
  front dir entries primary_relay usable = Ok (fronting primary_relay u entries).
Proof.
  intros Hl Hu. unfold front, fronting. rewrite (filterM_ok _ u) by done. rewrite bind_Ok.
  set (candidates := filter _ entries). assert (Forall (listed dir) candidates) as Hc 
    by (apply Forall_forall; intros e [_ He]%list_elem_of_filter; rewrite Forall_forall in Hl; by apply Hl).
  rewrite (filterM_ok _ (fun e => bool_decide (relay_at dir e = primary_relay))).
  2: { intros e He. rewrite Forall_forall in Hc. destruct (node_ok (E:=E) dir e (Hc e He)) as (n & Hn & Hok).
       rewrite Hok, bind_Ok. unfold relay_at. by rewrite Hn. }
  rewrite bind_Ok. assert (filter (fun e => bool_decide (relay_at dir e = primary_relay) = true) candidates
    = filter (fun e => relay_at dir e = primary_relay) candidates) as -> by (apply list_filter_iff; intros e; apply bool_decide_eq_true).
  destruct (filter _ candidates); [|done]. by rewrite weigh_ok, bind_Ok.
Qed.

Lemma fronting_spec primary_relay u entries :
  match fronting primary_relay u entries with
  | Some e => e ∈ entries /\ u e = true /\
      forall e', e' ∈ entries -> u e' = true -> relay_at dir e' = primary_relay -> relay_at dir e = primary_relay
  | None => forall e, e ∈ entries -> u e = false
  end.
Proof.
  unfold fronting. set (candidates := filter _ entries).
  assert (forall e, e ∈ candidates <-> e ∈ entries /\ u e = true) as Hc by (intros e; unfold candidates; rewrite list_elem_of_filter; tauto).
  destruct (filter _ candidates) as [|e l] eqn:Hf.
  - pose proof (heaviest_spec (weighed candidates)) as Hh. destruct (heaviest _) as [e|].
    + destruct Hh as (w & (j & Hj & Hin)%list_elem_of_fmap). injection Hj as -> ->. apply Hc in Hin as [Hin Hu].
      split_and!; [done..|]. intros e' He Hu' Hr. exfalso.
      by apply (filter_nil_not_elem_of (fun e => relay_at dir e = primary_relay) candidates e' Hf Hr), Hc.
    + apply fmap_nil_inv in Hh. intros e He. apply not_true_iff_false. intros Hu.
      apply (elem_of_nil (A:=Z) e). rewrite <- Hh. by apply Hc.
  - assert (e ∈ filter (fun e => relay_at dir e = primary_relay) candidates) as [Hr [Hin Hu]%Hc]%list_elem_of_filter by (rewrite Hf; by left).
    done.
Qed.

Definition entry_for pairs (primary_relay : bytes) (refused : list bytes) (j : Z) : option Z :=
  let entries := (filter (fun p => p.2 = j) pairs).*1 in
  match fronting primary_relay (fun e => negb (among dir refused e)) entries with
  | Some e => Some e
  | None => fronting primary_relay (fun _ => true) entries
  end.

Lemma elem_of_entries (pairs : list (Z * Z)) j e : e ∈ (filter (fun p => p.2 = j) pairs).*1 <-> (e, j) ∈ pairs.
Proof.
  rewrite list_elem_of_fmap. split.
  - intros ([e' j'] & -> & [Hj Hin]%list_elem_of_filter). simpl in *. by subst.
  - intros Hin. exists (e, j). split; [done|]. by apply list_elem_of_filter.
Qed.

Lemma entry_for_spec pairs primary_relay refused j : j ∈ pairs.*2 ->
  exists e, entry_for pairs primary_relay refused j = Some e /\ (e, j) ∈ pairs /\
    (relay_at dir e ∈ refused -> forall e', (e', j) ∈ pairs -> relay_at dir e' ∈ refused) /\
    (primary_relay ∉ refused -> forall e', (e', j) ∈ pairs -> relay_at dir e' = primary_relay -> relay_at dir e = primary_relay).
Proof.
  intros ([e0 j'] & -> & Hin0)%list_elem_of_fmap. unfold entry_for. cbn [snd]. set (entries := _.*1).
  assert (forall e, e ∈ entries <-> (e, j') ∈ pairs) as Hent by (intros e; apply elem_of_entries).
  assert (forall e, negb (among dir refused e) = true <-> relay_at dir e ∉ refused) as Hn
    by (intros e; unfold among; by rewrite negb_true_iff, bool_decide_eq_false).
  pose proof (fronting_spec primary_relay (fun e => negb (among dir refused e)) entries) as Hf.
  destruct (fronting _ _ entries) as [e|].
  - destruct Hf as (He & Hu & Hp). exists e. apply Hn in Hu. split_and!; [done|by apply Hent|done|].
    intros Hr e' He' Heq. apply (Hp e'); [by apply Hent| |done]. apply Hn. by rewrite Heq.
  - pose proof (fronting_spec primary_relay (fun _ => true) entries) as Hf'.
    assert (forall e, (e, j') ∈ pairs -> relay_at dir e ∈ refused) as Hall.
    { intros e He%Hent%Hf. unfold among in He. by apply negb_false_iff, bool_decide_eq_true in He. }
    destruct (fronting _ (fun _ => true) entries) as [e|].
    + destruct Hf' as (He & _ & Hp). exists e. split_and!; [done|by apply Hent|by eauto|].
      intros Hr e' He' Heq. destruct Hr. rewrite <- Heq. by apply Hall.
    + exfalso. by apply Hent, Hf' in Hin0.
Qed.

(** *** All of them *)

(** The circuits that keep the primary's country and hops and change its exit. *)
Definition alternate_pairs (primary : MultiHopConfig) (entry_country : str) (excluded : list bytes) : list (Z * Z) :=
  filter (fun p => exit_at dir p.2 <> exit_id (Routes.exit primary))
    (if bool_decide (exit_country primary = []) then []
     else if single_node primary
     then (fun i => (i, i)) <$> node_indices (fun n => eq_ignore_ascii_case (node_country n) (exit_country primary)
                                                && negb (bool_decide (exit_id (node_exit n) ∈ excluded))) dir
     else valid_circuits dir entry_country (exit_country primary) excluded).

Lemma alternate_pair_listed primary entry_country excluded p :
  p ∈ alternate_pairs primary entry_country excluded -> pair_ok dir p.
Proof.
  unfold alternate_pairs. intros [_ Hp]%list_elem_of_filter. case_bool_decide; [by apply elem_of_nil in Hp|].
  destruct (single_node primary).
  - apply list_elem_of_fmap in Hp as (i & -> & [Hi _]%list_elem_of_filter).
    unfold pair_ok, listed. simpl. destruct (get (nodes dir) i); [by split; eexists|done].
  - pose proof (valid_pair_ok dir entry_country (exit_country primary) excluded) as Hall.
    rewrite Forall_forall in Hall. by apply Hall.
Qed.

(** The alternates of a selection: each exit once, the heaviest first, through the entry to keep. *)
Record alternates_ok primary entry_country (excluded refused : list bytes) (picks : list (Z * Z)) : Prop := {
  alt_once : NoDup picks.*2;
  alt_sorted : StronglySorted weightier picks.*2;
  alt_exits j : j ∈ picks.*2 <-> j ∈ (alternate_pairs primary entry_country excluded).*2;
  alt_pairs p : p ∈ picks -> p ∈ alternate_pairs primary entry_country excluded;
  alt_refused e j e' : single_node primary = false -> (e, j) ∈ picks -> relay_at dir e ∈ refused ->
    (e', j) ∈ alternate_pairs primary entry_country excluded -> relay_at dir e' ∈ refused;
  alt_entry e j e' : single_node primary = false -> (e, j) ∈ picks -> relay_id (relay primary) ∉ refused ->
    (e', j) ∈ alternate_pairs primary entry_country excluded -> relay_at dir e' = relay_id (relay primary) ->
    relay_at dir e = relay_id (relay primary)
}.

Lemma sorted_exits (l : list Z) : NoDup l ->
  NoDup (sorted_by_weight l) /\ StronglySorted weightier (sorted_by_weight l) /\ forall j, j ∈ sorted_by_weight l <-> j ∈ l.
Proof.
  intros Hnd. split_and!; [by rewrite sorted_by_weight_perm|apply sorted_by_weight_sorted|].
  intros j. by rewrite sorted_by_weight_perm.
Qed.

Lemma omap_assemble gso obfuscation (picks : list (Z * Z)) : Forall (pair_ok dir) picks ->
  Forall2 (fun p c => assemble dir p.1 p.2 gso obfuscation = Some c) picks
    (omap (fun p => assemble dir p.1 p.2 gso obfuscation) picks).
Proof.
  induction 1 as [|[e x] l [[entry He] [exit Hx]] _ IH]; [constructor|]. cbn [omap list_omap fst snd] in *.
  rewrite (assemble_ok dir e x entry exit) by done. constructor; [|done]. cbn [fst snd]. by apply assemble_ok.
Qed.

(** On one hop, each node of the country goes on alone. *)
Lemma single_alternates primary entry_country excluded refused : exit_country primary <> [] -> single_node primary = true ->
  exists picks, alternates_ok primary entry_country excluded refused picks /\
    @same_country_migration_alternates _ _ E dir primary entry_country excluded refused =
      Ok (omap (fun p => assemble dir p.1 p.2 (enable_gso primary) (use_warren_obfuscation primary)) picks).
Proof.
  intros Hc Hs. unfold same_country_migration_alternates. rewrite bool_decide_eq_false_2, Hs by done. set (l := node_indices _ dir).
  assert (forall j, j ∈ l <-> (j, j) ∈ alternate_pairs primary entry_country excluded) as Hl.
  { intros j. unfold l, alternate_pairs, node_indices. rewrite bool_decide_eq_false_2, Hs by done.
    rewrite !list_elem_of_filter, list_elem_of_fmap. unfold exit_at. cbn [snd]. setoid_rewrite list_elem_of_filter.
    destruct (get (nodes dir) j) as [n|] eqn:Hn; cbn [fmap option_fmap option_map default id]; [|split; [naive_solver|]].
    - split.
      + intros [Hp Hin]. injection Hp as Hp. rewrite !andb_true_iff, !negb_true_iff, !bool_decide_eq_false in Hp.
        split; [tauto|]. exists j. split; [done|]. split; [|done]. rewrite Hn. simpl.
        f_equal. rewrite andb_true_iff, negb_true_iff, bool_decide_eq_false. tauto.
      + intros [Hne (i & [= <-] & Hp & Hin)]. split; [|done]. rewrite Hn in Hp. simpl in *. injection Hp as Hp.
        f_equal. rewrite !andb_true_iff, !negb_true_iff, !bool_decide_eq_false in *. tauto.
    - intros [_ (i & [= <-] & Hp & _)]. by rewrite Hn in Hp. }
  assert (NoDup l) as Hnd by (apply NoDup_filter, NoDup_seqZ).
  destruct (sorted_exits l Hnd) as (Hn & Hso & Hm).
  exists ((fun i => (i, i)) <$> sorted_by_weight l).
  assert (((fun i : Z => (i, i)) <$> sorted_by_weight l).*2 = sorted_by_weight l) as Hsnd.
  { rewrite <- list_fmap_compose. by rewrite (list_fmap_ext _ id), list_fmap_id. }
  assert (forall p, p ∈ alternate_pairs primary entry_country excluded -> p.1 = p.2) as Hdiag.
  { intros p. unfold alternate_pairs. rewrite bool_decide_eq_false_2, Hs by done. intros [_ (i & -> & _)%list_elem_of_fmap]%list_elem_of_filter. done. }
  split.
  - split; try congruence; try (by rewrite Hsnd).
    + intros j. rewrite Hsnd, Hm, Hl, list_elem_of_fmap. split; [by exists (j, j)|].
      intros ([e x] & -> & Hp). specialize (Hdiag _ Hp). simpl in *. by subst.
    + intros p (i & -> & Hi)%list_elem_of_fmap. by apply Hl, Hm.
  - rewrite by_weight_ok, bind_Ok.
    + f_equal. clear. generalize (sorted_by_weight l) as k. induction k as [|j k IH]; [done|]. simpl. destruct (assemble dir j j _ _); [f_equal|]; exact IH.
    + apply Forall_forall. intros j [Hp _]%Hl%alternate_pair_listed. done.
Qed.

(** On two hops, each exit of the country behind the entry to keep. *)
Definition pairs_of (pairs : list (Z * Z)) primary (refused : list bytes) (exits : list Z) : list (Z * Z) :=
  omap (fun j => (., j) <$> entry_for pairs (relay_id (relay primary)) refused j) exits.

Lemma elem_of_pairs_of pairs primary refused exits e j :
  (e, j) ∈ pairs_of pairs primary refused exits <-> j ∈ exits /\ entry_for pairs (relay_id (relay primary)) refused j = Some e.
Proof.
  unfold pairs_of. rewrite list_elem_of_omap. split.
  - intros (j' & Hj & He). destruct (entry_for _ _ _ j') as [e'|] eqn:Hef; [|done]. by injection He as -> ->.
  - intros [Hj He]. exists j. by rewrite He.
Qed.

Lemma pairs_of_exits pairs primary refused exits : exits ⊆ pairs.*2 -> (pairs_of pairs primary refused exits).*2 = exits.
Proof.
  induction exits as [|j l IH]; intros Hs; [done|]. unfold pairs_of. cbn [omap list_omap].
  destruct (entry_for_spec pairs (relay_id (relay primary)) refused j) as (e & He & _); [by apply Hs; left|].
  rewrite He. cbn. f_equal. apply IH. intros x Hx. apply Hs. by right.
Qed.

Lemma entry_ok pairs primary refused j : Forall (pair_ok dir) pairs ->
  (usable ← front dir (filter (fun p => p.2 = j) pairs).*1 (relay_id (relay primary))
              (fun e => r ← entry_among dir refused e; Ok (negb r));
   match usable with
   | Some e => Ok (Some e)
   | None => front dir (filter (fun p => p.2 = j) pairs).*1 (relay_id (relay primary)) (fun _ => Ok true)
   end) = @Ok E _ (entry_for pairs (relay_id (relay primary)) refused j).
Proof.
  intros Hp. set (entries := _.*1). assert (Forall (listed dir) entries) as Hl.
  { apply Forall_forall. intros e He%elem_of_entries. rewrite Forall_forall in Hp. apply (Hp _ He). }
  rewrite (front_ok entries (relay_id (relay primary)) (fun e => r ← entry_among dir refused e; Ok (negb r)) (fun e => negb (among dir refused e))); [|done|].
  - rewrite bind_Ok. unfold entry_for. fold entries. destruct (fronting _ _ entries); [done|]. by apply front_ok.
  - intros e He. rewrite Forall_forall in Hl. by rewrite entry_among_ok, bind_Ok by auto.
Qed.

Lemma pair_alternates primary entry_country excluded refused : exit_country primary <> [] -> single_node primary = false ->
  exists picks, alternates_ok primary entry_country excluded refused picks /\
    @same_country_migration_alternates _ _ E dir primary entry_country excluded refused =
      Ok (omap (fun p => assemble dir p.1 p.2 (enable_gso primary) (use_warren_obfuscation primary)) picks).
Proof.
  intros Hc Hs. unfold same_country_migration_alternates. rewrite bool_decide_eq_false_2, Hs by done.
  set (pairs := valid_circuits dir entry_country (exit_country primary) excluded).
  pose proof (valid_pair_ok dir entry_country (exit_country primary) excluded) as Hok. fold pairs in Hok.
  pose proof (proj1 (Forall_forall _ _) Hok) as Hok'.
  set (other := fun j => negb (bool_decide (exit_at dir j = exit_id (Routes.exit primary)))).
  assert (forall e j, (e, j) ∈ alternate_pairs primary entry_country excluded <-> (e, j) ∈ pairs /\ other j = true) as Halt.
  { intros e j. unfold alternate_pairs, other. rewrite bool_decide_eq_false_2, Hs by done. fold pairs.
    rewrite list_elem_of_filter, negb_true_iff, bool_decide_eq_false. cbn [snd]. tauto. }
  rewrite (filterM_ok _ other).
  2: { intros j (p & -> & Hp)%list_elem_of_fmap. destruct (Hok' p Hp) as [_ (n & Hn & Hk)%(node_ok (E:=E))].
       rewrite Hk, bind_Ok. unfold other, exit_at. by rewrite Hn. }
  rewrite bind_Ok. set (exits := dedup (merge_sort Z.le (filter _ pairs.*2))).
  assert (forall j, j ∈ exits <-> j ∈ (alternate_pairs primary entry_country excluded).*2) as Hex.
  { intros j. unfold exits. rewrite elem_of_dedup, merge_sort_Permutation, list_elem_of_filter, !list_elem_of_fmap. split.
    - intros [Ho ([e x] & -> & Hp)]. exists (e, x). split; [done|]. by apply Halt.
    - intros ([e x] & -> & Hp). apply Halt in Hp as [Hp Ho]. split; [done|]. by exists (e, x). }
  assert (NoDup exits) as Hnd by (apply NoDup_dedup, (StronglySorted_merge_sort Z.le)).
  destruct (sorted_exits exits Hnd) as (Hn & Hso & Hm).
  assert (sorted_by_weight exits ⊆ pairs.*2) as Hsub.
  { intros j Hj%Hm%Hex. apply list_elem_of_fmap in Hj as ([e x] & -> & Hp). apply Halt in Hp as [Hp _].
    apply list_elem_of_fmap. by exists (e, x). }
  assert (forall e j, (e, j) ∈ pairs_of pairs primary refused (sorted_by_weight exits) ->
      j ∈ pairs.*2 /\ entry_for pairs (relay_id (relay primary)) refused j = Some e) as Hpick.
  { intros e j [Hj He]%elem_of_pairs_of. split; [by apply Hsub|done]. }
  exists (pairs_of pairs primary refused (sorted_by_weight exits)). split.
  - split; rewrite ?pairs_of_exits by done; try done.
    + intros j. by rewrite Hm.
    + intros [e j] [Hj He]%elem_of_pairs_of. destruct (entry_for_spec pairs (relay_id (relay primary)) refused j) as (e' & He' & Hin & _); [by apply Hsub|].
      apply Halt. replace e with e' by congruence. split; [done|]. apply Hm, Hex, list_elem_of_fmap in Hj as ([e1 x] & -> & Hp). by apply Halt in Hp as [_ Hp].
    + intros e j e' _ [Hj He]%Hpick Hr [He' _]%Halt. destruct (entry_for_spec pairs (relay_id (relay primary)) refused j) as (e1 & He1 & _ & Hf & _); [done|].
      replace e1 with e in * by congruence. eauto.
    + intros e j e' _ [Hj He]%Hpick Hr [He' _]%Halt Hp. destruct (entry_for_spec pairs (relay_id (relay primary)) refused j) as (e1 & He1 & _ & _ & Hf); [done|].
      replace e1 with e in * by congruence. eauto.
  - assert (Forall (listed dir) exits) as Hle.
    { apply Forall_forall. intros j ([e x] & -> & Hp)%Hex%list_elem_of_fmap. apply Halt in Hp as [Hp _]. apply (Hok' _ Hp). }
    rewrite by_weight_ok, bind_Ok by done.
    rewrite (mapM_ok _ (fun j => e ← entry_for pairs (relay_id (relay primary)) refused j;
                          assemble dir e j (enable_gso primary) (use_warren_obfuscation primary))).
    + rewrite bind_Ok. f_equal. clear. generalize (sorted_by_weight exits) as k. induction k as [|j k IH]; [done|].
      unfold pairs_of in *. cbn [fmap list_fmap omap list_omap]. destruct (entry_for _ _ _ j) as [e|]; cbn; [|exact IH].
      destruct (assemble dir e j _ _); cbn; [f_equal|]; exact IH.
    + intros j _. pose proof (entry_ok pairs primary refused j Hok) as He. revert He. cbv zeta.
      destruct (front _ _ _ (fun e => r ← entry_among dir refused e; Ok (negb r))) as [usable| |]; cbn; [intros ->|done..]. done.
Qed.

(** A drained circuit migrates inside its exit's country, and every exit of it is offered.
    Without panicking, the selection hands over one circuit for each other exit the country has
    that is not excluded, none twice and none missing, the heaviest first; on two hops each goes
    through an entry that refused only when every entry of that exit did, and through the entry in
    use where it fronts that exit and did not refuse. *)
Theorem migration_alternates (primary : MultiHopConfig) (entry_country : str) (excluded refused : list bytes) :
  exists picks l, @same_country_migration_alternates _ _ E dir primary entry_country excluded refused = Ok l /\
    Forall2 (fun p c => assemble dir p.1 p.2 (enable_gso primary) (use_warren_obfuscation primary) = Some c) picks l /\
    alternates_ok primary entry_country excluded refused picks.
Proof.
  assert (exists picks, alternates_ok primary entry_country excluded refused picks /\
    @same_country_migration_alternates _ _ E dir primary entry_country excluded refused =
      Ok (omap (fun p => assemble dir p.1 p.2 (enable_gso primary) (use_warren_obfuscation primary)) picks)) as (picks & Hp & ->).
  { destruct (decide (exit_country primary = [])) as [Hc|Hc].
    - exists []. unfold same_country_migration_alternates. rewrite bool_decide_eq_true_2 by done. split; [|done].
      assert (alternate_pairs primary entry_country excluded = []) as Ha by (unfold alternate_pairs; by rewrite bool_decide_eq_true_2).
      split; rewrite ?Ha; try done; try constructor; intros; by (exfalso; eapply elem_of_nil).
    - destruct (single_node primary) eqn:Hs; [by apply single_alternates|by apply pair_alternates]. }
  exists picks. eexists. split; [done|]. split; [|done]. apply omap_assemble. apply Forall_forall. intros p Hin.
  eapply alternate_pair_listed. by apply Hp.
Qed.
End Alternates.
