(* ===== verification/DesktopPlan.v ===== *)
(** * Which session each app's exit goes through on desktop (mullvad-daemon/src/warren_app_routes.rs)

    The daemon's [PlanRules]: an exit is picked inside a choice the way the
    main connection picks, by [Selection]; and the planner that keeps the plan
    in line with the settings and the directory, and publishes what changed. *)

From S2P Require Import Prelude BTree Net AppKey AppRouting Routes RoutePlan Selection.
Open Scope Z_scope.

(** What a client of [warren_relay_list_view::slugify] reads: the characters
    kept are ASCII, so the filter may go by bytes. *)
Definition slugify `{!Platform} (s : str) : str :=
  filter (fun c => is_ascii_alphanumeric c || (c =? 45) = true) (replace 95 45 (replace 32 45 (to_lowercase s))).

Section Desktop.
Context `{!Descriptors, !Discovery, !Platform}.

Definition city_matches (choice : ExitChoice) (city : str) : bool :=
  match AppRouting.city choice with
  | None => true
  | Some code => bool_decide (slugify city = code)
  end.

Record DesktopRules : Type := mkDesktopRules {
  dr_locality : ClientLocality;
  dr_now_unix : Z;
  dr_unroutable_entries : list bytes
}.

Definition desktop_admits (rules : DesktopRules) (choice : ExitChoice) (node : NodeEntry) : bool :=
  eq_ignore_ascii_case (node_country node) (country choice) && city_matches choice (node_city node).

Definition desktop_select (rules : DesktopRules) (inputs : PlanInputs) (choice : ExitChoice)
    : comp False (option MultiHopConfig) :=
  if two_hop inputs
  then select_circuit_exiting_through (directory inputs) (default [] (entry_country inputs)) (country choice) true true
         (drained inputs) (fun exit => city_matches choice (node_city exit)) (dr_unroutable_entries rules)
         (dr_locality rules) None (dr_now_unix rules)
  else
    let excluded :=
      ((fun node => exit_id (node_exit node)) <$>
        filter (fun node => city_matches choice (node_city node) = false) (nodes (directory inputs)))
      ++ drained inputs in
    select_one_hop_among (directory inputs) (country choice) true true excluded (dr_unroutable_entries rules).

Definition desktop_routes_entry (rules : DesktopRules) (dir : VerifiedMultiHopDirectory) (entry : Z)
    : comp False bool :=
  n ← node dir entry; Ok (negb (bool_decide (relay_id (node_relay n) ∈ dr_unroutable_entries rules))).

(** A result, the default standing for a panic: the theorems show there is none. *)
Definition returned {A : Type} (otherwise : A) (m : comp False A) : A :=
  match m with Ok x => x | _ => otherwise end.

#[export] Instance desktop_rules : PlanRules DesktopRules ExitChoice := {|
  admits := desktop_admits;
  select rules inputs choice := returned None (desktop_select rules inputs choice);
  routes_entry rules dir entry := returned false (desktop_routes_entry rules dir entry)
|}.

Record RouteInputs : Type := mkRouteInputs {
  ri_directory : VerifiedMultiHopDirectory;
  ri_two_hop : bool;
  ri_entry_country : str;
  ri_main_circuit : option MultiHopConfig;
  ri_drained : list bytes;
  ri_unroutable_entries : list bytes;
  ri_locality : ClientLocality;
  ri_now_unix : Z
}.

Definition ClientLocality_default : ClientLocality := mkClientLocality _ _ None None.

(** The rules and the inputs [plan] hands to the shared code. *)
Definition rules_of (inputs : option RouteInputs) : DesktopRules :=
  mkDesktopRules (default ClientLocality_default (ri_locality <$> inputs)) (default 0 (ri_now_unix <$> inputs))
    (default [] (ri_unroutable_entries <$> inputs)).
Definition plan_inputs_of (inputs : RouteInputs) : PlanInputs :=
  mkPlanInputs _ (ri_directory inputs) (ri_two_hop inputs)
    (if bool_decide (ri_entry_country inputs = []) then None else Some (ri_entry_country inputs))
    ((fun main => exit_id (Routes.exit main)) <$> ri_main_circuit inputs) (ri_drained inputs).

Definition desktop_groups (settings : AppRoutingSettings) : gmap ExitChoice (list str) :=
  group_by_choice ((fun '(app, choice) => (choice, app)) <$> btree_iter (effective_app_exits settings)).

Definition desktop_plan (settings : AppRoutingSettings) (inputs : option RouteInputs)
    (previous : gmap ExitChoice MultiHopConfig) : Planned ExitChoice RoutePlan.Unavailable :=
  plan (rules_of inputs) (desktop_groups settings) (plan_inputs_of <$> inputs) previous.

Definition planning_main_circuit (directory_circuit : option MultiHopConfig) (custom_exit_active : bool)
    : option MultiHopConfig := if custom_exit_active then None else directory_circuit.

Definition unavailable (reason : RoutePlan.Unavailable) : UnavailableReason :=
  match reason with
  | RoutePlan.TunnelDown => AppRouting.TunnelDown
  | RoutePlan.NoToken => AppRouting.NoToken
  | RoutePlan.LimitReached => AppRouting.LimitReached
  | RoutePlan.NoRelay => AppRouting.NoRelay
  | RoutePlan.WaitingForRoute => AppRouting.WaitingForRoute
  | RoutePlan.NoDialableNetwork => AppRouting.NoDialableNetwork
  end.

Definition view_state (view : RouteView RoutePlan.Unavailable) : AppRouteState :=
  match view with
  | VwConnecting => ARConnecting
  | VwConnected => ARConnected
  | VwUnavailable reason => ARUnavailable (unavailable reason)
  end.

Definition desktop_statuses (settings : AppRoutingSettings) (tunnel_connected : bool)
    (resolutions : gmap ExitChoice (Resolution RoutePlan.Unavailable)) (reports : list RouteReport) : list AppRouteStatus :=
  (route_statuses settings
     (fun (_ : unit) choice =>
        let '(view, public_ip) := route_view tunnel_connected (resolutions !! choice) reports in
        ((view_state view, public_ip), tt)) tt).1.

(** *** The planner *)

Definition MultiHopSettings_default : MultiHopSettings := mkMultiHopSettings false [] [] (secs (4 * 60 * 60)).

(** The observer is called with a tunnel's number and reports: only whether there is one matters here. *)
Record RoutePlanner : Type := mkRoutePlanner {
  pl_settings : AppRoutingSettings;
  pl_directory : option VerifiedMultiHopDirectory;
  pl_multi_hop : MultiHopSettings;
  pl_circuits : gmap ExitChoice MultiHopConfig;
  pl_plan : Watch AppRoutesPlan;
  pl_resolutions : Watch (gmap ExitChoice (Resolution RoutePlan.Unavailable));
  pl_observer : bool;
  pl_tunnels : Z
}.

Definition planner_new : RoutePlanner :=
  mkRoutePlanner settings_default None MultiHopSettings_default ∅ (mkWatch AppRoutesPlan_default 0) (mkWatch ∅ 0) false 0.

(** The number the reports of the next tunnel carry, when someone observes them. *)
Definition observer_for_next_tunnel (p : RoutePlanner) : RoutePlanner * option Z :=
  let tunnel := pl_tunnels p + 1 in
  (mkRoutePlanner (pl_settings p) (pl_directory p) (pl_multi_hop p) (pl_circuits p) (pl_plan p) (pl_resolutions p)
     (pl_observer p) tunnel,
   if pl_observer p then Some tunnel else None).

Definition set_settings (p : RoutePlanner) (settings : AppRoutingSettings) : RoutePlanner :=
  mkRoutePlanner settings (pl_directory p) (pl_multi_hop p) (pl_circuits p) (pl_plan p) (pl_resolutions p)
    (pl_observer p) (pl_tunnels p).

Definition set_directory (p : RoutePlanner) (directory : VerifiedMultiHopDirectory) (multi_hop : MultiHopSettings)
    : RoutePlanner :=
  mkRoutePlanner (pl_settings p) (Some directory) multi_hop (pl_circuits p) (pl_plan p) (pl_resolutions p)
    (pl_observer p) (pl_tunnels p).

#[export] Instance IpAddr_resolution_dec : EqDecision (Resolution RoutePlan.Unavailable).
Proof. assert (EqDecision RoutePlan.Unavailable) by solve_decision. solve_decision. Defined.

(** What [replan] reads of the system: the entries this host cannot route, where it is and the time. *)
Record Surroundings : Type := mkSurroundings {
  unroutable_entries_of : VerifiedMultiHopDirectory -> list bytes;
  detect_client_locality : ClientLocality;
  now_unix : Z
}.

Definition replan (p : RoutePlanner) (around : Surroundings) (main_circuit : option MultiHopConfig)
    (drained : list bytes) : RoutePlanner :=
  let inputs :=
    (fun directory =>
       mkRouteInputs directory (mh_enabled (pl_multi_hop p)) (mh_entry_country (pl_multi_hop p)) main_circuit drained
         (unroutable_entries_of around directory) (detect_client_locality around) (now_unix around)) <$> pl_directory p in
  let planned := desktop_plan (pl_settings p) inputs (pl_circuits p) in
  mkRoutePlanner (pl_settings p) (pl_directory p) (pl_multi_hop p) (circuits planned)
    (send_if_modified (pl_plan p) (fun current => negb (same_as current (tunnel planned))) (tunnel planned))
    (send_if_modified (pl_resolutions p) (fun current => negb (bool_decide (current = resolutions planned))) (resolutions planned))
    (pl_observer p) (pl_tunnels p).
End Desktop.
