(* ===== verification/DesktopSpec.v ===== *)
(** * What the desktop planner guarantees

    Over any ranking that keeps [DiscoveryLaws]: every circuit planned serves
    its choice, kept or new; planning again over the same inputs publishes
    nothing; and what the user is shown is what the plan and the sessions
    say. *)

From S2P Require Import Prelude BTree Net AppKey AppRouting Routes RoutePlan Selection SelectionSpec SelectionRun DesktopPlan.
Open Scope Z_scope.

Section Select.
Context `{!Descriptors, !Discovery, !DiscoveryLaws, !Platform}.

(** The pairs a choice may be served by. *)
Definition desktop_candidates (rules : DesktopRules) (inputs : PlanInputs) (choice : ExitChoice) : list (Z * Z) :=
  let dir := directory inputs in
  let city_at i := default false ((fun n => city_matches choice (node_city n)) <$> get (nodes dir) i) in
  if RoutePlan.two_hop inputs
  then away_from_home dir (dr_locality rules)
         (filter (fun p => city_at p.2 = true)
            (valid_circuits dir (default [] (entry_country inputs)) (country choice) (drained inputs)))
         (default [] (entry_country inputs))
  else (fun i => (i, i)) <$>
         matching dir (country choice)
           (((fun node => exit_id (node_exit node)) <$>
              filter (fun node => city_matches choice (node_city node) = false) (nodes dir)) ++ drained inputs).

(** A circuit that serves [choice]: both of its nodes are listed and not draining, it has the main
    connection's shape, and the network routes its entry unless it routes no candidate's. *)
Definition desktop_serves (rules : DesktopRules) (inputs : PlanInputs) (choice : ExitChoice) (c : MultiHopConfig) : Prop :=
  exists entry exit,
    entry ∈ nodes (directory inputs) /\ exit ∈ nodes (directory inputs) /\
    relay_id (node_relay entry) = relay_id (relay c) /\ exit_id (node_exit exit) = exit_id (Routes.exit c) /\
    exit_id (node_exit entry) ∉ drained inputs /\ exit_id (node_exit exit) ∉ drained inputs /\
    single_node c = negb (RoutePlan.two_hop inputs) /\
    (RoutePlan.two_hop inputs = true -> forall country, entry_country inputs = Some country ->
       eq_ignore_ascii_case (node_country entry) country = true) /\
    desktop_admits rules choice exit = true /\
    (relay_id (relay c) ∈ dr_unroutable_entries rules ->
       forall p, p ∈ desktop_candidates rules inputs choice -> relay_at (directory inputs) p.1 ∈ dr_unroutable_entries rules).

Lemma eq_ignore_ascii_case_sym a b : eq_ignore_ascii_case a b = eq_ignore_ascii_case b a.
Proof. unfold eq_ignore_ascii_case. by repeat case_bool_decide; congruence. Qed.

Lemma country_matches_eq filter country : filter <> [] -> country_matches filter country = eq_ignore_ascii_case country filter.
Proof. intros Hf. unfold country_matches. rewrite bool_decide_eq_false_2 by done. apply eq_ignore_ascii_case_sym. Qed.

Lemma exiting_ok {E} dir ec xc gso obfuscation excluded (ok_exit : NodeEntry -> bool) unroutable locality advisory now
    (admit_at := fun i => default false (ok_exit <$> get (nodes dir) i))
    (pairs := filter (fun p : Z * Z => admit_at p.2 = true) (valid_circuits dir ec xc excluded)) :
  @select_circuit_exiting_through _ _ E dir ec xc gso obfuscation excluded ok_exit unroutable locality advisory now =
    Ok ('(e, x) ← ranked dir advisory RttCache_new now locality (narrowed dir locality pairs ec unroutable);
        assemble dir e x gso obfuscation).
Proof.
  pose proof (valid_pair_ok dir ec xc excluded) as Hall. pose proof (proj1 (Forall_forall _ _) Hall) as Hok.
  unfold select_circuit_exiting_through. rewrite (filterM_ok _ (fun p => admit_at p.2)).
  2: { intros p Hp. destruct (Hok p Hp) as [_ (n & Hn & Hk)%(node_ok (E:=E))]. rewrite Hk, bind_Ok. unfold admit_at. by rewrite Hn. }
  rewrite bind_Ok. fold pairs. assert (Forall (pair_ok dir) pairs) as Hp by (by apply pair_ok_filter).
  case_bool_decide as Hnil; [by rewrite Hnil, narrowed_nil, ranked_nil|].
  rewrite narrow_ok, bind_Ok, pick_ok, bind_Ok by (done || (eapply pair_ok_subseteq; [apply narrowed_subseteq|done])).
  by destruct (ranked _ _ _ _ _ _) as [[e x]|].
Qed.

(** The selection returns, and what it picks serves the choice. *)
Lemma desktop_select_serves rules inputs choice : AppRouting.country choice <> [] -> entry_country inputs <> Some [] ->
  exists o, desktop_select rules inputs choice = Ok o /\ forall c, o = Some c -> desktop_serves rules inputs choice c.
Proof.
  intros Hc Hentry. unfold desktop_select. destruct (RoutePlan.two_hop inputs) eqn:Hhop.
  - rewrite exiting_ok. eexists. split; [done|]. intros c. set (pairs := filter _ _). set (dir := directory inputs) in *.
    set (locality := dr_locality rules). set (unroutable := dr_unroutable_entries rules).
    destruct (ranked _ _ _ _ _ _) as [[e x]|] eqn:Hr; [|done]. cbn [mbind option_bind].
    apply ranked_member in Hr. pose proof Hr as Hin. apply narrowed_subseteq in Hin. unfold pairs in Hin.
    apply list_elem_of_filter in Hin as [Hcity Hin]. cbn [snd] in Hcity.
    apply valid_circuits_ok in Hin as (Hne & entry & exit & He & Hx & Hec & Hxc & _ & Hd1 & Hd2).
    rewrite (assemble_ok dir e x entry exit) by done. intros [= <-]. rewrite Hx in Hcity. simpl in Hcity.
    exists entry, exit. split_and!; try done; try (by eapply get_elem).
    + cbn. rewrite Hhop. simpl. by apply Z.eqb_neq.
    + intros _ country Hec'. rewrite Hec' in Hec. cbn in Hec. rewrite country_matches_eq in Hec; [done|congruence].
    + unfold desktop_admits. rewrite Hcity, country_matches_eq in * by done. by rewrite Hxc.
    + cbn. intros Hu p Hp. unfold desktop_candidates in Hp. rewrite Hhop in Hp. fold dir pairs locality in Hp.
      unfold narrowed, routed in Hr. set (away := away_from_home _ _ _ _) in *.
      destruct (or_all_subseteq (fun p : Z * Z => among dir unroutable p.1 = false) away) as (_ & _ & [Hall|[_ Hall]]).
      * specialize (Hall _ Hr). cbn in Hall. unfold among, relay_at in Hall. rewrite He in Hall. by apply bool_decide_eq_false in Hall.
      * specialize (Hall p Hp). apply not_false_iff_true in Hall. by apply bool_decide_eq_true in Hall.
  - set (excluded := _ ++ drained inputs). set (dir := directory inputs) in *.
    rewrite one_hop_ok. eexists. split; [done|]. intros c.
    destruct (one_hop _ _ _ _) as [i|] eqn:Hi; [|done]. cbn [mbind option_bind].
    apply one_hop_member in Hi as [Hi Hu]. pose proof Hi as (n & Hn & Hxc & Hex)%elem_of_matching.
    rewrite (assemble_ok dir i i n n) by done. intros [= <-].
    apply not_elem_of_app in Hex as [Hcity Hd]. exists n, n. split_and!; try done; try (by eapply get_elem).
    + cbn. by rewrite Hhop, Z.eqb_refl.
    + congruence.
    + unfold desktop_admits. rewrite country_matches_eq in Hxc by done. rewrite Hxc. simpl. apply not_false_iff_true. intros Hf.
      apply Hcity, list_elem_of_fmap. exists n. split; [done|]. apply list_elem_of_filter. split; [done|]. by eapply get_elem.
    + cbn. intros Hr p Hp. unfold desktop_candidates in Hp. rewrite Hhop in Hp. fold dir excluded in Hp.
      apply list_elem_of_fmap in Hp as (j & -> & Hj). cbn [fst]. unfold among, relay_at in Hu. rewrite Hn in Hu.
      specialize (Hu (bool_decide_eq_true_2 _ Hr) j Hj). by apply bool_decide_eq_true in Hu.
Qed.


Lemma returned_select rules inputs choice c : AppRouting.country choice <> [] -> entry_country inputs <> Some [] ->
  select rules inputs choice = Some c -> desktop_serves rules inputs choice c.
Proof.
  intros Hc He. destruct (desktop_select_serves rules inputs choice Hc He) as (o & Ho & Hs).
  change (select rules inputs choice) with (returned None (desktop_select rules inputs choice)). rewrite Ho. apply Hs.
Qed.

Lemma desktop_circuit_serves rules inputs previous choice c :
  AppRouting.country choice <> [] -> entry_country inputs <> Some [] ->
  circuit_for rules inputs previous choice = Some c -> desktop_serves rules inputs choice c.
Proof.
  intros Hc He. unfold circuit_for. destruct (previous !! choice) as [c'|]; simpl; [|by apply returned_select].
  destruct (still_valid rules inputs c' choice) eqn:Hv; [|by apply returned_select]. intros [= <-].
  apply still_valid_serves in Hv as (i & entry & exit & Hi & Hx & Hr & Hxid & Hd1 & Hd2 & Hh & Hec & Ha & Hrt).
  exists entry, exit. split_and!; try done; [by eapply get_elem|].
  intros Hu. exfalso. cbn in Hrt. unfold desktop_routes_entry, node, at_index in Hrt. rewrite Hi, bind_Ok in Hrt. cbn in Hrt.
  rewrite negb_true_iff, bool_decide_eq_false in Hrt. congruence.
Qed.
End Select.

(** ** The plan *)

(** The exits of the settings were checked when they were chosen. *)
Definition exits_checked (settings : AppRoutingSettings) : Prop :=
  map_Forall (fun _ choice => exists country city, exit_choice_new country city = Ok choice) (app_exits settings).

Lemma exit_choice_new_country country city choice : exit_choice_new country city = Ok choice -> AppRouting.country choice <> [].
Proof.
  unfold exit_choice_new. destruct (_ || _) eqn:Hc; [done|]. apply orb_false_iff in Hc as [Hl%negb_false_iff%Z.eqb_eq _].
  destruct city as [city|]; [destruct (valid_city city); [|done]|]; rewrite bind_Ok; intros [= <-]; cbn; unfold to_ascii_lowercase;
    destruct country; done.
Qed.

Section Plan.
Context `{!Descriptors, !Discovery, !DiscoveryLaws, !Platform}.

Lemma group_country settings choice apps : exits_checked settings ->
  desktop_groups settings !! choice = Some apps -> AppRouting.country choice <> [].
Proof.
  intros Hw [Hne ->]%grouped_Some. destruct (values_of choice _) as [|app l] eqn:Hv; [done|].
  assert (app ∈ values_of choice ((fun '(app, choice) => (choice, app)) <$> btree_iter (effective_app_exits settings))) as Ha
    by (rewrite Hv; by left).
  unfold values_of in Ha. apply list_elem_of_fmap in Ha as (p & -> & [Hp Hin]%list_elem_of_filter).
  apply list_elem_of_fmap in Hin as ([a x] & -> & Hin). simpl in Hp. subst x. apply elem_of_btree_iter in Hin.
  assert (app_exits settings !! a = Some choice) as Hx.
  { revert Hin. unfold effective_app_exits. destruct (negb _); [done|]. by intros [? _]%map_lookup_filter_Some. }
  destruct (Hw _ _ Hx) as (country & city & Hnew). by eapply exit_choice_new_country.
Qed.

(** On desktop every circuit planned serves its choice.  Whatever the settings, the directory,
    the circuits of the last plan and where the client is, the selection of an exit never panics, and
    each circuit planned, kept or new, goes between two listed nodes that are not draining, over as
    many hops as the main connection, from the entry country set for it on two hops, to an exit in
    the country and city chosen; its entry is one the network routes unless it routes no
    candidate's. *)
Theorem desktop_circuits_serve (settings : AppRoutingSettings) (inputs : RouteInputs)
    (previous : gmap ExitChoice MultiHopConfig) :
  exits_checked settings ->
  let p := desktop_plan settings (Some inputs) previous in
  let serves := desktop_serves (rules_of (Some inputs)) (plan_inputs_of inputs) in
  map_Forall serves (circuits p) /\
  Forall (fun r => exists choice, circuits p !! choice = Some (circuit r) /\ serves choice (circuit r)) (p_routes (tunnel p)) /\
  (forall choice, choice ∈ dom (desktop_groups settings) ->
     exists o, desktop_select (rules_of (Some inputs)) (plan_inputs_of inputs) choice = Ok o).
Proof.
  intros Hw p serves. assert (entry_country (plan_inputs_of inputs) <> Some []) as He.
  { unfold plan_inputs_of. cbn. case_bool_decide; congruence. }
  assert (forall choice, choice ∈ dom (desktop_groups settings) -> AppRouting.country choice <> []) as Hc.
  { intros choice [apps Hg]%elem_of_dom. by eapply group_country. }
  pose proof (planned_circuits_all (R:=RoutePlan.Unavailable) (rules_of (Some inputs)) (plan_inputs_of inputs)
    (desktop_groups settings) previous (fun choice c => AppRouting.country choice <> [] -> serves choice c)) as Hall.
  destruct Hall as [Hmap Hr]; [by intros; eapply desktop_circuit_serves|].
  assert (map_Forall serves (circuits p)) as Hs.
  { intros choice c Hcc. apply (Hmap choice c Hcc), Hc.
    destruct (plan_built (R:=RoutePlan.Unavailable) (rules_of (Some inputs)) (plan_inputs_of inputs) previous (desktop_groups settings)) as [_ _ Hdom _].
    rewrite <- btree_dom. apply Hdom. by apply elem_of_dom_2 in Hcc. }
  split_and!; [done| |].
  - eapply Forall_impl; [exact Hr|]. intros r (choice & Hcc & _). exists choice. split; [exact Hcc|]. by apply (Hs choice).
  - intros choice Hin. destruct (desktop_select_serves (rules_of (Some inputs)) (plan_inputs_of inputs) choice) as (o & Ho & _); eauto.
Qed.

Lemma same_as_refl (t : AppRoutesPlan) : same_as t t = true.
Proof. by apply same_as_spec. Qed.

Lemma send_again {A : Type} (w : Watch A) (changed : A -> bool) (new : A) : changed new = false ->
  send_if_modified (send_if_modified w changed new) changed new = send_if_modified w changed new.
Proof. intros Hc. unfold send_if_modified. destruct (changed (w_value w)) eqn:Hw; simpl; by rewrite ?Hc, ?Hw. Qed.

(** Planning again publishes nothing.  Over the same directory, main circuit, drained exits and
    surroundings, a second pass leaves the planner as it is: the circuits it holds, the plan the
    tunnels follow and the resolutions shown, with no further notification on either channel, even
    when the network routes no entry and the selection had to fail open. *)
Theorem replan_publishes_once (p : RoutePlanner) (around : Surroundings) (main_circuit : option MultiHopConfig)
    (drained : list bytes) :
  let p' := replan p around main_circuit drained in
  replan p' around main_circuit drained = p' /\
  w_sent (pl_plan p) <= w_sent (pl_plan p') <= w_sent (pl_plan p) + 1 /\
  (w_sent (pl_plan p') = w_sent (pl_plan p) <-> same_as (w_value (pl_plan p))
     (tunnel (desktop_plan (pl_settings p)
        ((fun d => mkRouteInputs d (mh_enabled (pl_multi_hop p)) (mh_entry_country (pl_multi_hop p)) main_circuit drained
           (unroutable_entries_of around d) (detect_client_locality around) (now_unix around)) <$> pl_directory p)
        (pl_circuits p))) = true).
Proof.
  intros p'. split_and!.
  - unfold p', replan. cbn [pl_settings pl_directory pl_multi_hop pl_circuits pl_plan pl_resolutions pl_observer pl_tunnels].
    set (inputs := _ <$> pl_directory p). set (planned := desktop_plan (pl_settings p) inputs (pl_circuits p)).
    assert (desktop_plan (pl_settings p) inputs (circuits planned) = planned) as ->.
    { unfold planned, desktop_plan. destruct inputs as [i|]; [apply plan_again_same|done]. }
    rewrite !send_again; [done|by rewrite bool_decide_eq_true_2|by rewrite same_as_refl].
  - unfold p', replan, send_if_modified. cbn. destruct (negb _); cbn; lia.
  - unfold p', replan, send_if_modified. cbn. destruct (negb _); cbn; lia.
  - unfold p', replan, send_if_modified. cbn. destruct (same_as _ _); cbn; [done|]. split; [lia|done].
Qed.

(** ** What the user is shown *)

Lemma desktop_statuses_of settings connected resolutions reports :
  (fun st => (st_exit st, st_apps st)) <$> desktop_statuses settings connected resolutions reports =
    btree_iter (desktop_groups settings) /\
  Forall (fun st => let view := route_view connected (resolutions !! st_exit st) reports in
                    st_state st = view_state view.1 /\ st_public_ip st = view.2)
    (desktop_statuses settings connected resolutions reports).
Proof.
  split; [apply statuses_groups|]. unfold desktop_statuses, route_statuses.
  generalize (btree_iter (apps_by_exit settings)) as l. induction l as [|[choice apps] l IH]; [constructor|].
  simpl. destruct (route_view _ _ _) as [view public_ip] eqn:Hv. simpl. destruct (statuses _ _ l) as [rest x'] eqn:Hr.
  simpl in *. constructor; [|exact IH]. cbn. by rewrite Hv.
Qed.

Lemma view_connected connected (resolution : option (Resolution RoutePlan.Unavailable)) reports :
  view_state (route_view connected resolution reports).1 = ARConnected <->
  connected = true /\ ((exists public_ip, resolution = Some (RMain public_ip)) \/
    exists id public_ip report, resolution = Some (RRoute id public_ip) /\ find_report id reports = Some report /\
      rep_state report = SConnected).
Proof.
  unfold route_view. destruct connected; simpl; [|split; [done|naive_solver]].
  destruct resolution as [[ip|id ip|reason]|]; simpl; try (split; [done|naive_solver]); [naive_solver|].
  destruct (find_report id reports) as [report|] eqn:Hf; simpl; [|split; [done|naive_solver]].
  destruct report as [rid [| |[]|]]; simpl; (split; [try done|]); naive_solver.
Qed.

(** The user is shown what is planned.  After a pass over a directory, the page lists each exit
    in force once, with its apps; it shows one connected exactly when the tunnel is up and either the
    main session is on an exit the choice admits, or the route session to the very circuit the pass
    planned for the choice reported itself connected; and an exit no circuit was found for is shown
    unavailable, never as connecting. *)
Theorem shown_as_planned (p : RoutePlanner) (around : Surroundings) (dir : VerifiedMultiHopDirectory)
    (main_circuit : option MultiHopConfig) (drained : list bytes) (connected : bool) (reports : list RouteReport) :
  pl_directory p = Some dir ->
  let inputs := mkRouteInputs dir (mh_enabled (pl_multi_hop p)) (mh_entry_country (pl_multi_hop p)) main_circuit drained
                  (unroutable_entries_of around dir) (detect_client_locality around) (now_unix around) in
  let p' := replan p around main_circuit drained in
  let page := desktop_statuses (pl_settings p') connected (w_value (pl_resolutions p')) reports in
  let rides choice := main_match (rules_of (Some inputs)) (plan_inputs_of inputs) choice in
  (fun st => (st_exit st, st_apps st)) <$> page = btree_iter (desktop_groups (pl_settings p)) /\
  Forall (fun st =>
    (st_state st = ARConnected <->
       connected = true /\
       (rides (st_exit st) <> None \/
        rides (st_exit st) = None /\ exists c report, pl_circuits p' !! st_exit st = Some c /\
          find_report (exit_id (Routes.exit c)) reports = Some report /\ rep_state report = SConnected)) /\
    (st_state st = ARConnecting -> rides (st_exit st) = None /\ is_Some (pl_circuits p' !! st_exit st))) page.
Proof.
  intros Hdir inputs p' page rides.
  destruct (desktop_statuses_of (pl_settings p') connected (w_value (pl_resolutions p')) reports) as [Hg Hst].
  fold page in Hg, Hst. split; [exact Hg|].
  set (planned := desktop_plan (pl_settings p) (Some inputs) (pl_circuits p)).
  assert (w_value (pl_resolutions p') = resolutions planned) as Hres.
  { unfold p', replan, send_if_modified. rewrite Hdir. cbn. fold inputs planned. case_bool_decide as He; cbn; [by rewrite He|done]. }
  assert (pl_circuits p' = circuits planned) as Hcir by (unfold p', replan; rewrite Hdir; done).
  apply Forall_forall. intros st Hin. rewrite Forall_forall in Hst. destruct (Hst st Hin) as [Hs _]. cbv zeta in Hs.
  assert (exists apps, desktop_groups (pl_settings p) !! st_exit st = Some apps) as [apps Hap].
  { exists (st_apps st). apply elem_of_btree_iter. change (pl_settings p') with (pl_settings p) in Hg. rewrite <- Hg.
    apply list_elem_of_fmap. by exists st. }
  pose proof (plan_fate (R:=RoutePlan.Unavailable) (rules_of (Some inputs)) (plan_inputs_of inputs) (pl_circuits p)
    (desktop_groups (pl_settings p)) _ _ Hap) as Hf.
  unfold fate in Hf. fold (rides (st_exit st)) in Hf. change (plan _ _ _ _) with planned in Hf.
  rewrite Hs, view_connected, Hres, Hcir. unfold route_view.
  destruct (rides (st_exit st)) as [id|].
  { destruct Hf as (-> & _ & _). split; [naive_solver|]. by destruct connected. }
  destruct (circuit_for _ _ _ _) as [c|].
  - destruct Hf as (-> & -> & _). split; [|by eauto]. naive_solver.
  - destruct Hf as (-> & -> & _). split; [naive_solver|]. by destruct connected.
Qed.
End Plan.
