(* ===== verification/SelectionWitness.v ===== *)
(** * A small fleet for the circuit selection

    An instance of [Discovery] that keeps [DiscoveryLaws], over nodes that are
    a number and a country, and the selection's theorems applied to it. *)

From S2P Require Import Prelude BTree Net AppKey AppRouting Routes RoutePlan Selection SelectionSpec SelectionRun Migration DesktopPlan DesktopSpec.
Open Scope Z_scope.

Record Node : Type := mkNode { n_id : Z; n_country : str }.

#[local] Instance fleet_descriptors : Descriptors := {|
  RelayDescriptorSigned := Z;
  relay_id i := [i];
  relay_endpoint _ := mkSocketAddr (V4 [192; 0; 2; 1]) 443;
  relay_endpoint_v6 _ := None;
  ExitDescriptorSigned := Z;
  exit_id i := [i];
  exit_endpoint _ := None;
  VerifyingKey := unit;
  NodeEntry := Node;
  node_relay := n_id;
  node_exit := n_id;
  node_country := n_country;
  VerifiedMultiHopDirectory := list Node;
  nodes dir := dir
|}.

Definition circuit_ok (dir : list Node) (entry_country exit_country : str) (excluded : list bytes) (p : Z * Z) : bool :=
  match get dir p.1, get dir p.2 with
  | Some entry, Some exit =>
      negb (p.1 =? p.2)
      && country_matches entry_country (n_country entry) && country_matches exit_country (n_country exit)
      && negb (eq_ignore_ascii_case (n_country entry) (n_country exit))
      && negb (bool_decide ([n_id entry] ∈ excluded)) && negb (bool_decide ([n_id exit] ∈ excluded))
  | _, _ => false
  end.

Definition all_pairs (n : Z) : list (Z * Z) := e ← seqZ 0 n; x ← seqZ 0 n; [(e, x)].

(** The first letter of a country is its continent. *)
Definition letter (country : str) : option Z := head country.

Definition on_continent (countries : list str) (c : option Z) : list Z :=
  match c with
  | Some c => or_all (filter (fun k => (country ← get countries k; letter country) = Some c) (seqZ 0 (zlen countries)))
                (seqZ 0 (zlen countries))
  | None => seqZ 0 (zlen countries)
  end.

Definition sound (advisory : option (list (bytes * bytes))) (dir : list Node) (p : Z * Z) : bool :=
  match get dir p.1, get dir p.2, advisory with
  | Some entry, Some exit, Some degraded => negb (bool_decide (([n_id entry], [n_id exit]) ∈ degraded))
  | _, _, _ => true
  end.

(** The advisory names the degraded legs; the first pair whose leg is not one of them is the best. *)
#[local] Instance fleet_discovery : Discovery := {|
  node_city _ := [];
  node_weight n := n_id n;
  dir_operational_pubkey _ := tt;
  Continent := Z;
  continent_of_country := letter;
  PathQualityAdvisory := list (bytes * bytes);
  leg degraded relay exit := if bool_decide ((relay, exit) ∈ degraded) then Some (true, 0) else None;
  stale_after_secs := 600;
  RttCache := unit;
  RttCache_new := tt;
  ExitCandidate := Node;
  exit_candidate n := n;
  valid_circuits dir entry_country exit_country excluded :=
    filter (fun p => circuit_ok dir entry_country exit_country excluded p = true) (all_pairs (zlen dir));
  prefer_client_continent := on_continent;
  select_circuit_path_aware dir pairs advisory _ _ :=
    head (or_all (filter (fun p => sound advisory dir p = true) pairs) pairs);
  pick_exit candidates := match candidates with [] => None | _ => Some 0 end
|}.

Lemma head_or_all {A : Type} (P : A -> Prop) `{!forall x, Decision (P x)} (l : list A) :
  (forall x, head (or_all (filter P l) l) = Some x -> x ∈ l) /\ (l <> [] -> head (or_all (filter P l) l) <> None).
Proof.
  destruct (or_all_subseteq P l) as (Hs & Hn & _). split.
  - intros x Hx. apply Hs. destruct (or_all _ _); [done|]. injection Hx as ->. by left.
  - intros Hl. specialize (Hn Hl). by destruct (or_all _ _).
Qed.

Lemma get_range {A : Type} (l : list A) k : k ∈ seqZ 0 (zlen l) -> is_Some (get l k).
Proof.
  rewrite elem_of_seqZ. intros Hk. unfold get. rewrite (proj2 (Z.leb_le _ _)) by lia. apply lookup_lt_is_Some. unfold zlen in Hk. lia.
Qed.

Lemma on_continent_subseteq countries c :
  on_continent countries c ⊆ seqZ 0 (zlen countries) /\ (countries <> [] -> on_continent countries c <> []).
Proof.
  assert (countries <> [] -> seqZ 0 (zlen countries) <> []) as Hz.
  { destruct countries; [done|]. intros _. unfold zlen, seqZ. by rewrite Nat2Z.id. }
  unfold on_continent. destruct c as [c|]; [|done].
  destruct (or_all_subseteq (fun k => (country ← get countries k; letter country) = Some c) (seqZ 0 (zlen countries))) as (? & ? & _); eauto.
Qed.

#[local] Instance fleet_laws : DiscoveryLaws.
Proof.
  split.
  - intros dir entry_country exit_country excluded e x [Hc _]%list_elem_of_filter. unfold circuit_ok in Hc. cbn [fst snd] in Hc.
 destruct (get dir e) as [entry|] eqn:He; [|done].
    destruct (get dir x) as [exit|] eqn:Hx; [|done].
    rewrite !andb_true_iff, !negb_true_iff, !bool_decide_eq_false, Z.eqb_neq in Hc. split; [apply Hc|]. exists entry, exit. split_and!; [exact He|exact Hx|apply Hc..].
  - intros countries c k Hk. apply get_range. by apply (on_continent_subseteq countries c).
  - intros countries c. apply on_continent_subseteq.
  - intros countries c i country Hi Hc k country' Hk Hk'. simpl in *. unfold on_continent in Hk.
    destruct (or_all_subseteq (fun k => (country ← get countries k; letter country) = Some c) (seqZ 0 (zlen countries)))
      as (_ & _ & [Hall|[_ Hnone]]).
    + specialize (Hall k Hk). by rewrite Hk' in Hall.
    + exfalso. apply (Hnone i); [|by rewrite Hi]. apply elem_of_seqZ. unfold get in Hi.
      destruct (Z.leb_spec 0 i); [|done]. apply lookup_lt_Some in Hi. unfold zlen. lia.
  - intros dir pairs advisory rtt now p. simpl. apply (head_or_all (fun p => sound advisory dir p = true)).
  - intros dir pairs advisory rtt now. simpl. apply (head_or_all (fun p => sound advisory dir p = true)).
  - intros [|c l] k; simpl; [done|]. intros [= <-]. by exists c.
  - by intros [|c l].
Qed.

(** ** A proximity upgrade that does not last *)

(** Two exits of one continent, an entry far from the client and one near it. *)
Definition fleet : list Node :=
  [mkNode 1 (lit "au"); mkNode 2 (lit "fr"); mkNode 3 (lit "jp"); mkNode 4 (lit "kr")].
Definition two_hops : MultiHopSettings := mkMultiHopSettings true [] [] 0.
Definition near_france : ClientLocality := mkClientLocality _ _ (letter (lit "fr")) None.
Definition circuit_of (e x : Z) : option MultiHopConfig := assemble fleet e x true true.

Definition next_circuit (advisory : option PathQualityAdvisory) (current : option MultiHopConfig)
    : comp False (option MultiHopConfig) :=
  select_next_circuit fleet two_hops current [] [] [] near_france advisory tt 0.

Definition bad_leg : option PathQualityAdvisory := Some [([2], [4])].

Example fleet_own_ids : own_ids fleet.
Proof. split; repeat (constructor; [set_solver|]); constructor. Qed.

(** The proximity upgrade promises to leave the exit alone and to stick, but it does not look
    at the advisory: from a far entry it moves to the near one whose leg to the same exit the
    advisory calls degraded, and the next pass leaves that leg, exit included. *)
Theorem upgrade_moves_exit_next :
  next_circuit bad_leg (circuit_of 0 3) = Ok (circuit_of 1 3) /\
  next_circuit bad_leg (circuit_of 1 3) = Ok (circuit_of 1 0) /\
  (Routes.exit <$> circuit_of 1 3) <> (Routes.exit <$> circuit_of 1 0).
Proof. split_and!; [vm_compute; reflexivity|vm_compute; reflexivity|vm_compute; congruence]. Qed.

(** ** The theorems over this fleet *)

(** The entry in use refuses: another one takes its place for the same exit. *)
Lemma refusals_never_move_exit_witness :
  let select refused := select_next_circuit (E:=False) fleet two_hops (circuit_of 1 3) [] refused [] near_france None tt 0 in
  let pairs := narrowed fleet near_france (valid_circuits fleet [] [] []) [] [] in
  exists c c' : option MultiHopConfig, select [] = Ok c /\ select [[2]] = Ok c' /\
    (Routes.exit <$> c) = (Routes.exit <$> c') /\ (mh_enabled two_hops = false -> c = c') /\
    (mh_enabled two_hops = true -> c <> None -> exists e x, c = assemble fleet e x true true /\ (e, x) ∈ pairs /\
       (relay_at fleet e ∈ [] -> forall p, p ∈ pairs -> p.2 = x -> relay_at fleet p.1 ∈ [])).
Proof. apply (@refusals_never_move_exit _ _ fleet_laws False fleet two_hops (circuit_of 1 3) [] [] [[2]] [] near_france None tt 0). Defined.

Definition upgraded : MultiHopConfig := @mkMultiHopConfig fleet_descriptors 2 4 tt (lit "kr") [] true true false.

Lemma selection_settles_witness :
  own_ids fleet /\ next_circuit bad_leg (circuit_of 0 3) = Ok (Some upgraded) /\
  exists c2 c3, next_circuit bad_leg (Some upgraded) = Ok (Some c2) /\ next_circuit bad_leg (Some c2) = Ok (Some c3) /\
    next_circuit bad_leg (Some c3) = Ok (Some c3).
Proof.
  assert (next_circuit bad_leg (circuit_of 0 3) = Ok (Some upgraded)) as Hup by (vm_compute; reflexivity).
  split; [exact fleet_own_ids|]. split; [exact Hup|].
  exact (@selection_settles _ _ fleet_laws False fleet two_hops (circuit_of 0 3) [] [] [] near_france bad_leg tt 0 upgraded
           fleet_own_ids Hup).
Defined.

(** Another French node takes over from the one in use. *)
Definition two_french : list Node := [mkNode 2 (lit "fr"); mkNode 3 (lit "jp"); mkNode 4 (lit "FR")].
Definition to_france : MultiHopConfig := @mkMultiHopConfig fleet_descriptors 3 2 tt (lit "fr") [] true true false.

Lemma migration_alternates_witness :
  same_country_migration_alternates (E:=False) two_french to_france [] [] [] =
    Ok [@mkMultiHopConfig fleet_descriptors 3 4 tt (lit "FR") [] true true false] /\
  exists picks l, same_country_migration_alternates (E:=False) two_french to_france [] [] [] = Ok l /\
    Forall2 (fun p c => assemble two_french p.1 p.2 true true = Some c) picks l /\
    alternates_ok two_french to_france [] [] [] picks.
Proof.
  split; [vm_compute; reflexivity|]. apply (@migration_alternates _ _ fleet_laws False two_french to_france [] [] []).
Defined.

(** ** The desktop planner over this fleet *)

#[local] Existing Instance linux_host.

Definition editor : str := lit "/usr/bin/editor".
Definition routed_settings : AppRoutingSettings :=
  mkAppRoutingSettings Off ∅ ∅ true {[editor := mkExitChoice (lit "jp") None]} ∅.
Definition fleet_inputs : RouteInputs := mkRouteInputs fleet true [] None [] [] near_france 0.
Definition fleet_planner : RoutePlanner :=
  mkRoutePlanner routed_settings (Some fleet) two_hops ∅ (mkWatch AppRoutesPlan_default 0) (mkWatch ∅ 0) true 0.
Definition in_france : Surroundings := mkSurroundings (fun _ => []) near_france 0.

Example routed_checked : exits_checked routed_settings.
Proof.
  unfold exits_checked, routed_settings. cbn [app_exits]. apply map_Forall_singleton. exists (lit "jp"), None. by vm_compute.
Qed.

Lemma desktop_circuits_serve_witness :
  exits_checked routed_settings /\
  let p := desktop_plan routed_settings (Some fleet_inputs) ∅ in
  let serves := desktop_serves (rules_of (Some fleet_inputs)) (plan_inputs_of fleet_inputs) in
  map_Forall serves (circuits p) /\
  Forall (fun r => exists choice, circuits p !! choice = Some (circuit r) /\ serves choice (circuit r)) (p_routes (tunnel p)) /\
  (forall choice, choice ∈ dom (desktop_groups routed_settings) ->
     exists o, desktop_select (rules_of (Some fleet_inputs)) (plan_inputs_of fleet_inputs) choice = Ok o).
Proof.
  split; [exact routed_checked|]. apply (@desktop_circuits_serve _ _ fleet_laws _ routed_settings fleet_inputs ∅ routed_checked).
Defined.

Example one_route_planned :
  (fun r => (exit_id (Routes.exit (circuit r)), r_apps r)) <$>
    p_routes (tunnel (desktop_plan routed_settings (Some fleet_inputs) ∅)) = [([3], [editor])].
Proof. by vm_compute. Qed.

Lemma shown_as_planned_witness :
  pl_directory fleet_planner = Some fleet /\
  let inputs := mkRouteInputs fleet (mh_enabled (pl_multi_hop fleet_planner)) (mh_entry_country (pl_multi_hop fleet_planner))
                  None [] (unroutable_entries_of in_france fleet) (detect_client_locality in_france) (now_unix in_france) in
  let p' := replan fleet_planner in_france None [] in
  let page := desktop_statuses (pl_settings p') true (w_value (pl_resolutions p')) [mkRouteReport [3] SConnected] in
  let rides choice := main_match (rules_of (Some inputs)) (plan_inputs_of inputs) choice in
  (fun st => (st_exit st, st_apps st)) <$> page = btree_iter (desktop_groups (pl_settings fleet_planner)) /\
  Forall (fun st =>
    (st_state st = ARConnected <->
       true = true /\
       (rides (st_exit st) <> None \/
        rides (st_exit st) = None /\ exists c report, pl_circuits p' !! st_exit st = Some c /\
          find_report (exit_id (Routes.exit c)) [mkRouteReport [3] SConnected] = Some report /\ rep_state report = SConnected)) /\
    (st_state st = ARConnecting -> rides (st_exit st) = None /\ is_Some (pl_circuits p' !! st_exit st))) page.
Proof.
  split; [reflexivity|].
  exact (@shown_as_planned _ _ _ fleet_planner in_france fleet None [] true [mkRouteReport [3] SConnected] eq_refl).
Defined.
