(* ===== verification/Router.v ===== *)
(** * The per-packet decision (talpid-app-routing/src/router.rs)

    The router's state and one definition per method.  A method that takes
    [&mut self] takes and returns the state, one that rewrites its packet
    returns the packet; [Instant::now()] read inside a method is its argument
    [clock].  Everything the host answers comes through [OwnerResolver]. *)

From S2P Require Import Prelude Net Ip Flow FlowTable Nat AppKey Reset Owner.
Open Scope Z_scope.

Definition DEFAULT_FLOW_CAPACITY : Z := 32768.
Definition PROCESS_CAPACITY : Z := 4096.
Definition FRAGMENT_CAPACITY : Z := 256.
Definition FRAGMENT_TIMEOUT : Z := secs 10.
Definition SWEEP_INTERVAL : Z := secs 5.
Definition MAX_QUEUED_RESETS : Z := 4096.

(** [RouteId(u8)] and [SessionId(u64)]. *)
Abbreviation RouteId := Z (only parsing).
Abbreviation SessionId := Z (only parsing).

Record SessionAddresses : Type := mkSessionAddresses { v4 : option bytes; v6 : option bytes }.

Definition SessionAddresses_default : SessionAddresses := mkSessionAddresses None None.

Definition for_family_of (a : SessionAddresses) (ip : IpAddr) : option IpAddr :=
  match ip with
  | V4 _ => V4 <$> v4 a
  | V6 _ => V6 <$> v6 a
  end.

Inductive RouteState : Type := Connecting | Connected (addresses : SessionAddresses) | Unavailable.

Inductive PolicyError : Type := UnknownRoute | SessionCount.

Record Policy : Type := mkPolicy {
  main : SessionAddresses;
  apps : AppMatcher RouteId;
  routes : list RouteState;
  sessions : list SessionId
}.

Inductive Verdict : Type := VMain | VRoute (route : RouteId) | VDrop | VHold (flow : FlowKey).

Record OwnerQuery : Type := mkOwnerQuery { q_flow : FlowKey; q_under_way : bool }.

Inductive Delivery : Type := Deliver | DDrop.

(** The counters are [u64]s only ever incremented. *)
Record Counters : Type := mkCounters {
  new_flows : Z;
  unresolved_flows : Z;
  refreshes : Z;
  refresh_errors : Z;
  routed_packets : Z;
  dropped_packets : Z;
  reset_flows : Z;
  refused_flows : Z
}.

Definition Counters_default : Counters := mkCounters 0 0 0 0 0 0 0 0.

Inductive Binding : Type := Main | Route (route : RouteId) | Blocked | Reset | Pending.

Record Tracked : Type := mkTracked {
  binding : Binding;
  process : option ProcessKey;
  app_side : AppSide
}.

Inductive Target : Type := TMain | TSession (session : option SessionId).

#[export] Instance SessionAddresses_eq_dec : EqDecision SessionAddresses.
Proof. solve_decision. Defined.
#[export] Instance RouteState_eq_dec : EqDecision RouteState.
Proof. solve_decision. Defined.
#[export] Instance Binding_eq_dec : EqDecision Binding.
Proof. solve_decision. Defined.
#[export] Instance Target_eq_dec : EqDecision Target.
Proof. solve_decision. Defined.
#[export] Instance Verdict_eq_dec : EqDecision Verdict.
Proof. solve_decision. Defined.
#[export] Instance Delivery_eq_dec : EqDecision Delivery.
Proof. solve_decision. Defined.

(** [FragmentMap]: the first fragments seen in one direction. *)
Abbreviation FragmentMap := (gmap FragmentKey (Binding * Z)) (only parsing).

(** ** The policy *)

(** [slice.get(i)] at a [usize] index. *)
Definition policy_session (p : Policy) (route : RouteId) : option SessionId := get (sessions p) route.

(** [iter().position(|held| *held == session)] *)
Fixpoint position (session : Z) (l : list Z) : option Z :=
  match l with
  | [] => None
  | held :: l => if held =? session then Some 0 else Z.succ <$> position session l
  end.

Definition route_of (p : Policy) (session : SessionId) : option RouteId :=
  index ← position session (sessions p); if index <=? 255 then Some index else None.

Section Policy.
Context `{!Platform}.

Definition policy_new (main : SessionAddresses) (apps : list (str * RouteId)) (routes : list RouteState)
    : comp PolicyError Policy :=
  if existsb (fun app => zlen routes <=? snd app) apps then Err UnknownRoute else
  apps ← matcher_new HOST apps;
  Ok (mkPolicy main apps routes (Z.of_nat <$> seq 0 (length routes))).

Definition with_sessions (p : Policy) (sessions : list SessionId) : comp PolicyError Policy :=
  if negb (zlen sessions =? zlen (routes p)) then Err SessionCount
  else Ok (mkPolicy (main p) (apps p) (routes p) sessions).

Definition policy_inactive : Policy :=
  mkPolicy SessionAddresses_default (mkAppMatcher HOST ∅) [] [].
End Policy.

Definition policy_is_active (p : Policy) : bool := negb (matcher_is_empty (apps p)).

(** ** The fragments *)

Section FragmentMap.
Context `{!HashOrder}.

(** [min_by_key]: the first of the least elements. *)
Fixpoint min_by_seen (l : list (FragmentKey * (Binding * Z))) : option (FragmentKey * (Binding * Z)) :=
  match l with
  | [] => None
  | x :: l =>
      match min_by_seen l with
      | Some y => if snd (snd y) <? snd (snd x) then Some y else Some x
      | None => Some x
      end
  end.

Definition fragments_expire (m : FragmentMap) (now : Z) : FragmentMap :=
  filter (fun kv => saturating_duration_since now kv.2.2 <= FRAGMENT_TIMEOUT) m.

Definition remember (m : FragmentMap) (fragment : FragmentKey) (binding : Binding) (now : Z)
    : FragmentMap :=
  let m :=
    if (FRAGMENT_CAPACITY <=? zsize m) && bool_decide (m !! fragment = None) then
      let m := fragments_expire m now in
      if FRAGMENT_CAPACITY <=? zsize m then
        match min_by_seen (hash_iter m) with
        | Some oldest => delete oldest.1 m
        | None => m
        end
      else m
    else m in
  <[fragment := (binding, now)]> m.

Definition fragments_get (m : FragmentMap) (fragment : FragmentKey) (now : Z) : option Binding :=
  match m !! fragment with
  | Some (binding, seen) =>
      if saturating_duration_since now seen <=? FRAGMENT_TIMEOUT then Some binding else None
  | None => None
  end.
End FragmentMap.

(** ** The router's state *)

Record Router (R : Type) : Type := mkRouter {
  resolver : R;
  policy : Policy;
  flows : option (FlowTable Tracked);
  flow_capacity : Z;
  uplink_fragments : FragmentMap;
  downlink_fragments : FragmentMap;
  decisions : DecisionCache RouteId;
  snapshot_taken : option Z;
  last_sweep : option Z;
  counters : Counters;
  resets : list bytes;
  deferred : bool;
  queries : list OwnerQuery
}.
Arguments mkRouter {R}.
Arguments resolver {R}.
Arguments policy {R}.
Arguments flows {R}.
Arguments flow_capacity {R}.
Arguments uplink_fragments {R}.
Arguments downlink_fragments {R}.
Arguments decisions {R}.
Arguments snapshot_taken {R}.
Arguments last_sweep {R}.
Arguments counters {R}.
Arguments resets {R}.
Arguments deferred {R}.
Arguments queries {R}.

(** One field written. *)
Section Fields.
Context {R : Type}.
Implicit Types r : Router R.

Definition set_resolver (x : R) r := mkRouter x (policy r) (flows r) (flow_capacity r) (uplink_fragments r)
  (downlink_fragments r) (decisions r) (snapshot_taken r) (last_sweep r) (counters r) (resets r) (deferred r) (queries r).
Definition put_policy x r := mkRouter (resolver r) x (flows r) (flow_capacity r) (uplink_fragments r)
  (downlink_fragments r) (decisions r) (snapshot_taken r) (last_sweep r) (counters r) (resets r) (deferred r) (queries r).
Definition set_flows x r := mkRouter (resolver r) (policy r) x (flow_capacity r) (uplink_fragments r)
  (downlink_fragments r) (decisions r) (snapshot_taken r) (last_sweep r) (counters r) (resets r) (deferred r) (queries r).
Definition set_uplink_fragments x r := mkRouter (resolver r) (policy r) (flows r) (flow_capacity r) x
  (downlink_fragments r) (decisions r) (snapshot_taken r) (last_sweep r) (counters r) (resets r) (deferred r) (queries r).
Definition set_downlink_fragments x r := mkRouter (resolver r) (policy r) (flows r) (flow_capacity r)
  (uplink_fragments r) x (decisions r) (snapshot_taken r) (last_sweep r) (counters r) (resets r) (deferred r) (queries r).
Definition set_decisions x r := mkRouter (resolver r) (policy r) (flows r) (flow_capacity r)
  (uplink_fragments r) (downlink_fragments r) x (snapshot_taken r) (last_sweep r) (counters r) (resets r) (deferred r) (queries r).
Definition set_snapshot_taken x r := mkRouter (resolver r) (policy r) (flows r) (flow_capacity r)
  (uplink_fragments r) (downlink_fragments r) (decisions r) x (last_sweep r) (counters r) (resets r) (deferred r) (queries r).
Definition set_last_sweep x r := mkRouter (resolver r) (policy r) (flows r) (flow_capacity r)
  (uplink_fragments r) (downlink_fragments r) (decisions r) (snapshot_taken r) x (counters r) (resets r) (deferred r) (queries r).
Definition set_counters x r := mkRouter (resolver r) (policy r) (flows r) (flow_capacity r)
  (uplink_fragments r) (downlink_fragments r) (decisions r) (snapshot_taken r) (last_sweep r) x (resets r) (deferred r) (queries r).
Definition set_resets x r := mkRouter (resolver r) (policy r) (flows r) (flow_capacity r)
  (uplink_fragments r) (downlink_fragments r) (decisions r) (snapshot_taken r) (last_sweep r) (counters r) x (deferred r) (queries r).
Definition set_deferred x r := mkRouter (resolver r) (policy r) (flows r) (flow_capacity r)
  (uplink_fragments r) (downlink_fragments r) (decisions r) (snapshot_taken r) (last_sweep r) (counters r) (resets r) x (queries r).
Definition set_queries x r := mkRouter (resolver r) (policy r) (flows r) (flow_capacity r)
  (uplink_fragments r) (downlink_fragments r) (decisions r) (snapshot_taken r) (last_sweep r) (counters r) (resets r) (deferred r) x.
End Fields.

Definition count_new_flow (c : Counters) := mkCounters (new_flows c + 1) (unresolved_flows c) (refreshes c)
  (refresh_errors c) (routed_packets c) (dropped_packets c) (reset_flows c) (refused_flows c).
Definition count_unresolved (c : Counters) := mkCounters (new_flows c) (unresolved_flows c + 1) (refreshes c)
  (refresh_errors c) (routed_packets c) (dropped_packets c) (reset_flows c) (refused_flows c).
Definition count_refresh (failed : bool) (c : Counters) := mkCounters (new_flows c) (unresolved_flows c)
  (refreshes c + 1) (refresh_errors c + Z.b2z failed) (routed_packets c) (dropped_packets c) (reset_flows c)
  (refused_flows c).
Definition count_routed (c : Counters) := mkCounters (new_flows c) (unresolved_flows c) (refreshes c)
  (refresh_errors c) (routed_packets c + 1) (dropped_packets c) (reset_flows c) (refused_flows c).
Definition count_dropped (c : Counters) := mkCounters (new_flows c) (unresolved_flows c) (refreshes c)
  (refresh_errors c) (routed_packets c) (dropped_packets c + 1) (reset_flows c) (refused_flows c).
Definition count_reset (c : Counters) := mkCounters (new_flows c) (unresolved_flows c) (refreshes c)
  (refresh_errors c) (routed_packets c) (dropped_packets c) (reset_flows c + 1) (refused_flows c).
Definition count_refused (c : Counters) := mkCounters (new_flows c) (unresolved_flows c) (refreshes c)
  (refresh_errors c) (routed_packets c) (dropped_packets c) (reset_flows c) (refused_flows c + 1).

Definition is_opening (key : FlowKey) (tcp_flags : Z) : bool :=
  bool_decide (transport key = Tcp) && has_flag tcp_flags FLAG_SYN && negb (has_flag tcp_flags FLAG_ACK).

(** ** The router's methods *)

Section Router.
Context `{!HashOrder} `{!Platform} {R : Type} `{!OwnerResolver R} {E : Type}.
Implicit Types r : Router R.

Definition with_capacity (resolver : R) (flow_capacity : Z) : Router R :=
  mkRouter resolver policy_inactive None flow_capacity ∅ ∅ (cache_new PROCESS_CAPACITY)
    None None Counters_default [] false [].

Definition router_new (resolver : R) : Router R := with_capacity resolver DEFAULT_FLOW_CAPACITY.

Definition defer_owner_lookups r : Router R := set_deferred true r.

Definition take_owner_queries r : Router R * list OwnerQuery := (set_queries [] r, queries r).

(** Whether any packet may need the router. *)
Definition router_is_active r : bool :=
  policy_is_active (policy r)
  || match flows r with Some flows => negb (table_is_empty flows) | None => false end.

Definition take_resets r : Router R * list bytes := (set_resets [] r, resets r).
Definition has_resets r : bool := negb (bool_decide (resets r = [])).

Definition dropped r : Router R := set_counters (count_dropped (counters r)) r.

(** *** Attribution *)

Definition ensure_fresh_view r (arrived clock : Z) : Router R :=
  if match snapshot_taken r with Some taken => arrived <=? taken | None => false end then r else
  let started := clock in
  let '(res, error) := refresh (resolver r) started in
  let r := set_resolver res r in
  let r := set_counters (count_refresh (bool_decide (is_Some error)) (counters r)) r in
  set_snapshot_taken (Some started) r.

(** The decision for a process, looked up once. *)
Definition decide_process r (under_way : bool) (pid : Z) (process : ProcessKey)
    : comp E (Router R * (Binding * option ProcessKey)) :=
  let bind r route :=
    match route with
    | None => Ok (r, (Main, Some process))
    | Some route =>
        if under_way : bool
        then Ok (set_counters (count_reset (counters r)) r, (Reset, Some process))
        else Ok (r, (Route route, Some process))
    end in
  match cache_get (decisions r) process with
  | Some route => bind r route
  | None =>
      let '(res, path) := executable (resolver r) pid in
      let r := set_resolver res r in
      match path with
      | Some path =>
          route ← matcher_lookup (apps (policy r)) path;
          bind (set_decisions (cache_insert (decisions r) process route) r) route
      | None => if under_way then Ok (r, (Blocked, None)) else bind r None
      end
  end.

Definition router_decide r (under_way : bool) (owner : SocketOwner)
    : comp E (Router R * (Binding * option ProcessKey)) :=
  let unresolved r :=
    Ok (set_counters (count_unresolved (counters r)) r,
        ((if under_way : bool then Blocked else Main), None)) in
  match owner with
  | Unwatched => Ok (r, (Main, None))
  | Unknown => unresolved r
  | Process pid =>
      let '(res, process) := process_key (resolver r) pid in
      let r := set_resolver res r in
      match process with
      | None => unresolved r
      | Some process => decide_process r under_way pid process
      end
  end.

Definition attribute r (key : FlowKey) (opening : bool) (arrived clock : Z)
    : comp E (Router R * (Binding * option ProcessKey)) :=
  let r := set_counters (count_new_flow (counters r)) r in
  if bool_decide (transport key = IcmpEcho) then Ok (r, (Main, None)) else
  let under_way := bool_decide (transport key = Tcp) && negb opening in
  if deferred r then Ok (set_queries (queries r ++ [mkOwnerQuery key under_way]) r, (Pending, None)) else
  let r := ensure_fresh_view r arrived clock in
  let '(res, owner) :=
    if under_way then let '(res, pid) := socket_owner (resolver r) key in (res, owner_of pid)
    else owner (resolver r) key in
  router_decide (set_resolver res r) under_way owner.

(** *** The flow's binding *)

Definition lookup_flow r (key : FlowKey) (direction : Direction) (tcp_flags now : Z)
    : Router R * option Tracked :=
  match flows r with
  | None => (r, None)
  | Some flows => let '(flows, tracked) := lookup_mut flows key direction tcp_flags now in
                  (set_flows (Some flows) r, tracked)
  end.

Definition lookup r (key : FlowKey) (direction : Direction) (tcp_flags now : Z) : Router R * option Binding :=
  let '(r, tracked) := lookup_flow r key direction tcp_flags now in (r, binding <$> tracked).

Definition router_peek r (key : FlowKey) (now : Z) : option Binding :=
  flows ← flows r; binding <$> peek flows key now.

Definition flow_binding r (key : FlowKey) (tcp_flags : Z) (segment : option Segment) (arrived clock : Z)
    : comp E (Router R * Binding) :=
  let opening := is_opening key tcp_flags in
  let '(r, found) := lookup_flow r key Uplink tcp_flags arrived in
  let still tracked :=
    negb opening
    || (negb (bool_decide (binding tracked = Reset))
        && match segment with Some segment => opened_by (app_side tracked) segment | None => false end) in
  let attributed r :=
    if negb (policy_is_active (policy r)) then
      Ok (if opening then set_flows ((fun flows => table_remove flows key) <$> flows r) r else r, Main)
    else
      '(r, (bound, process)) ← attribute r key opening arrived clock;
      match flows r with
      | None => Ok (r, bound)
      | Some flows =>
          let app_side :=
            match segment with Some segment => follow AppSide_default segment | None => AppSide_default end in
          flows ← insert_flow flows key (mkTracked bound process app_side) Uplink tcp_flags arrived;
          Ok (set_flows (Some flows) r, bound)
      end in
  match found with
  | Some tracked =>
      if still tracked then
        let r :=
          match segment with
          | Some segment =>
              set_flows (write_value key (fun t => mkTracked (binding t) (process t) (follow (app_side t) segment))
                         <$> flows r) r
          | None => r
          end in
        Ok (r, binding tracked)
      else attributed r
  | None => attributed r
  end.

(** *** Uplink *)

Definition sweep r (now : Z) : Router R :=
  if match last_sweep r with
     | Some last => saturating_duration_since now last <? SWEEP_INTERVAL
     | None => false
     end then r else
  let r := set_last_sweep (Some now) r in
  let r := set_flows ((fun flows => expire flows now) <$> flows r) r in
  let r := set_uplink_fragments (fragments_expire (uplink_fragments r) now) r in
  set_downlink_fragments (fragments_expire (downlink_fragments r) now) r.

(** A route's state, by its index. *)
Definition route_state r (route : RouteId) : option RouteState := get (routes (policy r)) route.

Definition apply_uplink r (bound : Binding) (packet : bytes) : comp E (Router R * bytes * Verdict) :=
  match bound with
  | Main => Ok (r, packet, VMain)
  | Blocked | Reset | Pending => Ok (dropped r, packet, VDrop)
  | Route route =>
      match route_state r route with
      | Some (Connected addresses) =>
          match locate packet with
          | Panic => Panic
          | Err _ => Ok (dropped r, packet, VDrop)
          | Ok layout =>
              src ← src layout packet;
              let from_main := bool_decide (for_family_of (main (policy r)) src = Some src) in
              if negb from_main then Ok (dropped r, packet, VDrop) else
              match for_family_of addresses src with
              | None => Ok (dropped r, packet, VDrop)
              | Some new =>
                  '(packet, error) ← rewrite_source packet new;
                  match error with
                  | Some _ => Ok (dropped r, packet, VDrop)
                  | None => Ok (set_counters (count_routed (counters r)) r, packet, VRoute route)
                  end
              end
          end
      | _ => Ok (dropped r, packet, VDrop)
      end
  end.

Definition uplink r (packet : bytes) (arrived clock : Z) : comp E (Router R * bytes * Verdict) :=
  if negb (router_is_active r) then Ok (r, packet, VMain) else
  let r := sweep r arrived in
  match classify packet Uplink with
  | Panic => Panic
  | Err _ => Ok (r, packet, VMain)
  | Ok (Flow key tcp_flags fragment) =>
      segment ← (if bool_decide (transport key = Tcp) then segment packet else Ok None);
      '(r, bound) ← flow_binding r key tcp_flags segment arrived clock;
      let r :=
        match fragment with
        | Some fragment => set_uplink_fragments (remember (uplink_fragments r) fragment bound arrived) r
        | None => r
        end in
      if bool_decide (bound = Pending) then Ok (r, packet, VHold key) else
      r ← (if bool_decide (bound = Reset) && (zlen (resets r) <? MAX_QUEUED_RESETS) then
             match segment with
             | Some segment =>
                 answered ← answer key segment;
                 match answered with
                 | Some answer => Ok (set_resets (resets r ++ [answer]) r)
                 | None => Ok r
                 end
             | None => Ok r
             end
           else Ok r);
      apply_uplink r bound packet
  | Ok (LaterFragment fragment) =>
      apply_uplink r (default Blocked (fragments_get (uplink_fragments r) fragment arrived)) packet
  | Ok (IcmpError key) =>
      match router_peek r key arrived with
      | Some (Route _ | Blocked | Reset | Pending) => Ok (dropped r, packet, VDrop)
      | _ => Ok (r, packet, VMain)
      end
  | Ok Other => apply_uplink r Main packet
  end.

(** *** Downlink *)

Definition original_flow r (key : FlowKey) (route : SessionAddresses) : option (FlowKey * IpAddr) :=
  let local_ip := ip (local key) in
  if negb (bool_decide (for_family_of route local_ip = Some local_ip)) then None else
  main ← for_family_of (main (policy r)) local_ip;
  Some (mkFlowKey (transport key) (mkSocketAddr main (port (local key))) (remote key), main).

Definition downlink r (route : RouteId) (packet : bytes) (now : Z) : comp E (Router R * bytes * Delivery) :=
  let not_delivered r packet := Ok (dropped r, packet, DDrop) in
  let deliver r main packet :=
    '(packet, error) ← rewrite_destination packet main;
    match error with
    | Some _ => not_delivered r packet
    | None => Ok (set_counters (count_routed (counters r)) r, packet, Deliver)
    end in
  if negb (policy_is_active (policy r)) then Ok (r, packet, DDrop) else
  match route_state r route with
  | Some (Connected addresses) =>
      let ours := Some (Route route) in
      match classify packet Downlink with
      | Panic => Panic
      | Err _ => not_delivered r packet
      | Ok (Flow key tcp_flags fragment) =>
          match original_flow r key addresses with
          | None => not_delivered r packet
          | Some (original, main) =>
              if negb (bool_decide (router_peek r original now = ours)) then not_delivered r packet else
              let r := (lookup r original Downlink tcp_flags now).1 in
              let r :=
                match fragment with
                | Some fragment =>
                    set_downlink_fragments (remember (downlink_fragments r) fragment (Route route) now) r
                | None => r
                end in
              deliver r main packet
          end
      | Ok (IcmpError key) =>
          match original_flow r key addresses with
          | None => not_delivered r packet
          | Some (original, main) =>
              if negb (bool_decide (router_peek r original now = ours)) then not_delivered r packet
              else deliver r main packet
          end
      | Ok (LaterFragment fragment) =>
          match for_family_of (main (policy r)) (fk_dst fragment) with
          | None => not_delivered r packet
          | Some main =>
              if negb (bool_decide (fragments_get (downlink_fragments r) fragment now = ours))
              then not_delivered r packet
              else deliver r main packet
          end
      | Ok Other => not_delivered r packet
      end
  | _ => not_delivered r packet
  end.

(** *** Owner lookups left to the caller *)

Definition complete r (query : OwnerQuery) (owner : SocketOwner) (now : Z) : comp E (Router R) :=
  let waiting := bool_decide (router_peek r (q_flow query) now = Some Pending) in
  if negb waiting then Ok r else
  '(r, (bound, proc)) ← router_decide r (q_under_way query) owner;
  Ok (set_flows (write_value (q_flow query) (fun t => mkTracked bound proc (app_side t)) <$> flows r) r).

(** *** A new policy *)

Definition set_route_state r (route : RouteId) (state : RouteState) : Router R :=
  match route_state r route with
  | None => r
  | Some _ =>
      put_policy (mkPolicy (main (policy r)) (apps (policy r))
                    (<[Z.to_nat route := state]> (routes (policy r))) (sessions (policy r))) r
  end.

(** The processes of the tracked flows, in the order their set is visited. *)
Definition tracked_processes (flows : FlowTable Tracked) : list ProcessKey :=
  (hash_iter (list_to_map ((fun p => (p, ())) <$> omap process (values flows)) : gmap ProcessKey unit)).*1.

Fixpoint ask_again (apps : AppMatcher RouteId) (res : R) (processes : list ProcessKey)
    : comp E (R * list (ProcessKey * option RouteId)) :=
  match processes with
  | [] => Ok (res, [])
  | process :: processes =>
      let '(res, live) := process_key res (pid process) in
      if negb (bool_decide (live = Some process)) then ask_again apps res processes else
      let '(res, program) := executable res (pid process) in
      match program with
      | None => ask_again apps res processes
      | Some program =>
          route ← matcher_lookup apps program;
          '(res, rest) ← ask_again apps res processes;
          Ok (res, (process, route) :: rest)
      end
  end.

Definition decide_again r (p : Policy) : comp E (Router R * gmap ProcessKey (option RouteId)) :=
  match flows r with
  | None => Ok (r, ∅)
  | Some flows =>
      let processes := tracked_processes flows in
      if negb (policy_is_active p) then
        Ok (r, list_to_map ((fun process => (process, None)) <$> processes))
      else
        '(res, found) ← ask_again (apps p) (resolver r) processes;
        Ok (set_resolver res r, list_to_map found)
  end.

(** What becomes of a tracked flow when [new] replaces [old]: its value, the
    table's revision, and how the app is told. *)
Inductive Notice : Type := Silent | TellReset | TellRefused.

Definition revision (old new : Policy) (decisions : gmap ProcessKey (option RouteId))
    (key : FlowKey) (tracked : Tracked) : Tracked * Revision * Notice :=
  let active := policy_is_active new in
  let decide_after before :=
    let after :=
      match p ← process tracked; decisions !! p with
      | Some None => inl (Some Main)
      | Some (Some route) => inl (Some (Route route))
      | None =>
          match before with
          | TSession (Some session) => inl (Route <$> route_of new session)
          | TSession None => inl None
          | TMain => inr tt
          end
      end in
    let target bound := match bound with Route route => TSession (policy_session new route) | _ => TMain end in
    match after with
    | inr _ => (tracked, Forget, Silent)
    | inl after =>
        match (bound ← after; if bool_decide (target bound = before) then Some bound else None) with
        | Some bound =>
            (mkTracked bound (process tracked) (app_side tracked), if active then Keep else Forget, Silent)
        | None =>
            if bool_decide (transport key = Tcp)
            then (mkTracked Reset (process tracked) (app_side tracked), Close, TellReset)
            else (tracked, Forget, TellRefused)
        end
    end in
  match binding tracked with
  | Main => decide_after TMain
  | Route route => decide_after (TSession (policy_session old route))
  | Pending => (tracked, if active then Keep else Forget, Silent)
  | Blocked | Reset => (tracked, if active then Keep else Close, Silent)
  end.

(** The notice queued and counted; what building it panics with is kept. *)
Definition tell (key : FlowKey) (side : AppSide) (notice : Notice) (s : comp E (list bytes * Counters))
    : comp E (list bytes * Counters) :=
  '(resets, counters) ← s;
  let queue (packet : comp E (option bytes)) :=
    if zlen resets <? MAX_QUEUED_RESETS then
      packet ← packet; Ok (resets ++ match packet with Some p => [p] | None => [] end)
    else Ok resets in
  match notice with
  | Silent => Ok (resets, counters)
  | TellReset => resets ← queue (toward_app key side); Ok (resets, count_reset counters)
  | TellRefused => resets ← queue (unreachable_toward_app key); Ok (resets, count_refused counters)
  end.

Definition revise_flows r (new : Policy) (decisions : gmap ProcessKey (option RouteId)) (clock : Z)
    : comp E (Router R) :=
  match flows r with
  | None => Ok r
  | Some flows =>
      let '(s, flows) :=
        revise flows clock
          (fun s key tracked =>
             let '(tracked', revision, notice) := revision (policy r) new decisions key tracked in
             (tell key (app_side tracked) notice s, tracked', revision))
          (Ok (resets r, counters r)) in
      '(resets, counters) ← s;
      Ok (set_flows (Some flows) (set_resets resets (set_counters counters r)))
  end.

Definition set_policy r (new : Policy) (clock : Z) : comp E (Router R) :=
  let r :=
    match flows r with
    | None => if policy_is_active new then set_flows (Some (table_new (flow_capacity r))) r else r
    | Some _ => r
    end in
  let r := set_downlink_fragments ∅ (set_uplink_fragments ∅ r) in
  let r := set_decisions (cache_clear (decisions r)) r in
  let r := set_resolver (watch_programs (resolver r) (apps new)) r in
  let r := set_snapshot_taken None r in
  '(r, again) ← decide_again r new;
  let r := set_decisions (foldl (fun c pd => cache_insert c pd.1 pd.2) (decisions r) (hash_iter again)) r in
  r ← revise_flows r new again clock;
  Ok (put_policy new r).
End Router.
