(* ===== verification/RouterInv.v ===== *)
(** * The router's invariant

    What every reachable state of a router satisfies, and that each method
    keeps it without panicking, on a host whose app keys are total (not
    macOS: see [AppKey.macos_key_panics_inside_character]). *)

From S2P Require Import Prelude Net Ip Flow FlowTable Nat AppKey Reset Owner Router.
Open Scope Z_scope.

(** ** Well-formed components *)

Definition addresses_wf (a : SessionAddresses) : Prop :=
  (forall o, v4 a = Some o -> ip_wf (V4 o)) /\ (forall o, v6 a = Some o -> ip_wf (V6 o)).

Definition state_wf (s : RouteState) : Prop :=
  match s with Connected a => addresses_wf a | _ => True end.

(** A policy as [policy_new], [with_sessions] and [policy_inactive] make it: each app names a
    route, and each route a session. *)
Record policy_wf `{!Platform} (p : Policy) : Prop := {
  pw_main : addresses_wf (main p);
  pw_flavor : flavor (apps p) = HOST;
  pw_apps : map_Forall (fun _ route => 0 <= route < zlen (routes p)) (AppKey.apps (apps p));
  pw_routes : Forall state_wf (routes p);
  pw_sessions : zlen (sessions p) = zlen (routes p)
}.

Definition side_wf (s : AppSide) : Prop :=
  (forall v, expects s = Some v -> is_u32 v) /\ (forall v, next s = Some v -> is_u32 v).

Definition flows_wf (cap : Z) (t : FlowTable Tracked) : Prop :=
  table_wf t /\ capacity t = Z.max cap 1 /\
  map_Forall (fun k e => flow_wf k /\ side_wf (app_side (value e))) (entries t).

Definition fragments_wf (m : FragmentMap) : Prop := zsize m <= FRAGMENT_CAPACITY.

Definition cache_wf (c : DecisionCache Z) : Prop :=
  cache_capacity c = PROCESS_CAPACITY /\ cache_len c <= PROCESS_CAPACITY.

(** A packet queued toward an app is one an app's side understands: a reset of a TCP flow or a
    port unreachable of a UDP flow. *)
Definition notice_ok (p : bytes) : Prop :=
  bytes_ok p /\ exists k, flow_wf k /\
    ((transport k = Tcp /\ exists flags, classify p Downlink = Ok (Flow k flags None)
        /\ has_flag flags FLAG_RST = true)
     \/ (transport k = Udp /\ classify p Downlink = Ok (IcmpError k))).

Record router_wf `{!Platform} {R : Type} (r : Router R) : Prop := {
  rw_policy : policy_wf (policy r);
  rw_flows : forall t, flows r = Some t -> flows_wf (flow_capacity r) t;
  rw_active : policy_is_active (policy r) = true -> is_Some (flows r);
  rw_uplink : fragments_wf (uplink_fragments r);
  rw_downlink : fragments_wf (downlink_fragments r);
  rw_decisions : cache_wf (decisions r);
  rw_resets : zlen (resets r) <= MAX_QUEUED_RESETS /\ Forall notice_ok (resets r)
}.

(** ** Small components *)

Lemma for_family_wf a i n : addresses_wf a -> for_family_of a i = Some n -> ip_wf n.
Proof.
  intros [H4 H6]. unfold for_family_of. destruct i.
  - destruct (v4 a) eqn:E; simpl; [|done]. intros [= <-]. auto.
  - destruct (v6 a) eqn:E; simpl; [|done]. intros [= <-]. auto.
Qed.

Lemma for_family_same a i n : for_family_of a i = Some n -> same_family i n = true.
Proof. unfold for_family_of. destruct i; [destruct (v4 a)|destruct (v6 a)]; simpl; by intros [= <-]. Qed.

Lemma default_side_wf : side_wf AppSide_default.
Proof. by split. Qed.

Lemma furthest_u32 o c : (forall v, o = Some v -> is_u32 v) -> is_u32 c -> is_u32 (furthest o c).
Proof. unfold furthest. destruct o; [|done]. intros Ho Hc. destruct (_ <=? 0); auto. Qed.

Lemma follow_wf s g : side_wf s -> is_u32 (seg_ack g) -> side_wf (follow s g).
Proof.
  intros [He Hn] Hg. unfold follow. destruct (has_flag _ _); [done|].
  assert (is_u32 (furthest (next s) (wrap32 (seg_seq g + seg_len g)))).
  { apply furthest_u32; [done|apply wrap32_u32]. }
  destruct (has_flag _ _); split; cbn [expects next]; intros v; try by intros [= <-].
  - intros [= <-]. by apply furthest_u32.
  - apply He.
Qed.

Lemma cache_insert_wf c p d : cache_wf c -> cache_wf (cache_insert c p d).
Proof.
  intros [Hc Hl]. split; [done|]. unfold cache_insert, cache_len, PROCESS_CAPACITY in *. cbn [AppKey.decisions]. cbv zeta.
  rewrite Hc. unfold zsize in *. rewrite map_size_insert.
  destruct (Z.leb_spec 4096 (Z.of_nat (size (AppKey.decisions c)))); cbn [andb].
  - destruct (bool_decide_reflect (AppKey.decisions c !! p = None)) as [?|Hp].
    + rewrite lookup_empty, map_size_empty. simpl. lia.
    + destruct (AppKey.decisions c !! p); [unfold id; lia|done].
  - destruct (AppKey.decisions c !! p); unfold id; lia.
Qed.

Lemma cache_clear_wf c : cache_wf c -> cache_wf (cache_clear c).
Proof. intros [Hc Hl]. by split. Qed.

Section Fragments.
Context `{!HashOrder}.
Implicit Types (m : FragmentMap) (now : Z).

Lemma zsize_empty_fragments : fragments_wf ∅.
Proof. done. Qed.

Lemma zsize_le m m' : m ⊆ m' -> zsize m <= zsize m'.
Proof. intros ?%map_subseteq_size. unfold zsize. lia. Qed.

Lemma fragments_expire_sub m now : fragments_expire m now ⊆ m.
Proof. apply map_filter_subseteq. Qed.

Lemma fragments_expire_wf m now : fragments_wf m -> fragments_wf (fragments_expire m now).
Proof. unfold fragments_wf. pose proof (zsize_le _ _ (fragments_expire_sub m now)). lia. Qed.

Lemma min_by_seen_elem l x : min_by_seen l = Some x -> x ∈ l.
Proof.
  revert x. induction l as [|y l IH]; intros x; simpl; [done|].
  destruct (min_by_seen l) as [z|]; [|intros [= <-]; left].
  destruct (_ <? _); intros [= <-]; [right; by apply IH|left].
Qed.

Lemma min_by_seen_some l : l <> [] -> is_Some (min_by_seen l).
Proof.
  destruct l as [|x l]; [done|]. intros _. simpl.
  destruct (min_by_seen l); [destruct (_ <? _)|]; eauto.
Qed.

Lemma min_by_seen_least l x y : min_by_seen l = Some x -> y ∈ l -> x.2.2 <= y.2.2.
Proof.
  revert x. induction l as [|z l IH]; intros x; [done|]. simpl.
  destruct (min_by_seen l) as [w|] eqn:E.
  - destruct (Z.ltb_spec w.2.2 z.2.2); intros [= <-] [->|Hy]%elem_of_cons; try lia.
    + by apply IH.
    + specialize (IH w eq_refl Hy). lia.
  - intros [= <-] [->|Hy]%elem_of_cons; [lia|].
    destruct l as [|a l]; [by apply not_elem_of_nil in Hy|].
    destruct (min_by_seen_some (a :: l)) as [? ?]; [done|congruence].
Qed.

Lemma remember_wf m f b now : fragments_wf m -> fragments_wf (remember m f b now).
Proof.
  unfold fragments_wf, remember. intros Hm.
  assert (forall m, zsize m < FRAGMENT_CAPACITY \/ (zsize m <= FRAGMENT_CAPACITY /\ is_Some (m !! f)) ->
    zsize (<[f := (b, now)]> m) <= FRAGMENT_CAPACITY) as Hins.
  { intros m' Hm'. unfold zsize in *. rewrite map_size_insert. destruct (m' !! f) eqn:E; unfold id; [lia|].
    destruct Hm' as [?|[? [? ?]]]; [lia|congruence]. }
  destruct (Z.leb_spec FRAGMENT_CAPACITY (zsize m)); cbn [andb]; [|apply Hins; lia].
  destruct (bool_decide_reflect (m !! f = None)) as [Hf|Hf].
  2: { apply Hins. right. split; [lia|]. by apply not_eq_None_Some. }
  pose proof (zsize_le _ _ (fragments_expire_sub m now)) as Hsz.
  destruct (Z.leb_spec FRAGMENT_CAPACITY (zsize (fragments_expire m now))); [|apply Hins; lia].
  set (m1 := fragments_expire m now) in *.
  assert (hash_iter m1 <> []) as Hne.
  { intros Hn. apply (f_equal length) in Hn. rewrite length_hash_iter in Hn.
    unfold zsize, FRAGMENT_CAPACITY in *. simpl in Hn. lia. }
  destruct (min_by_seen_some _ Hne) as [[k v] Hx]. rewrite Hx.
  apply min_by_seen_elem, elem_of_hash_iter in Hx. apply Hins. left. cbn [fst].
  unfold zsize in *. rewrite map_size_delete, Hx. simpl.
  assert (0 < size m1)%nat; [|lia].
  destruct (size m1) eqn:E; [|lia]. apply map_size_empty_inv in E. by rewrite E, lookup_empty in Hx.
Qed.
End Fragments.
#[export] Hint Resolve remember_wf fragments_expire_wf zsize_empty_fragments cache_insert_wf cache_clear_wf default_side_wf : packet.

(** ** The flow table of a router *)

Section Table.
Context `{!HashOrder}.
Implicit Types (t : FlowTable Tracked) (k : FlowKey).

Lemma lookup_mut_wf cap t k d flags now :
  flows_wf cap t -> flows_wf cap (lookup_mut t k d flags now).1 /\
    (forall v, (lookup_mut t k d flags now).2 = Some v -> flow_wf k /\ side_wf (app_side v)).
Proof.
  intros (Hw & Hc & Hm). destruct (lookup_mut_size t k d flags now) as [Hsz Hcap].
  split.
  - split; [|split; [congruence|]].
    { destruct Hw. split; rewrite ?Hsz, ?Hcap; done. }
    unfold lookup_mut. destruct (entries t !! k) as [e|] eqn:He; [|done].
    destruct (is_expired _ _ _); [done|]. cbn. apply map_Forall_insert_2; [|done].
    cbn. by apply (Hm k e).
  - intros v. unfold lookup_mut. destruct (entries t !! k) as [e|] eqn:He; [|done].
    destruct (is_expired _ _ _); [done|]. cbn. intros [= <-]. by apply (Hm k e).
Qed.

Lemma write_value_wf cap t k f :
  flows_wf cap t -> (forall v, side_wf (app_side v) -> side_wf (app_side (f v))) ->
  flows_wf cap (write_value k f t).
Proof.
  intros (Hw & Hc & Hm) Hf. destruct (write_value_size k f t) as [Hsz Hcap].
  split; [|split; [congruence|]].
  { destruct Hw. split; rewrite ?Hsz, ?Hcap; done. }
  intros k' e'. unfold write_value. cbn. rewrite lookup_alter_Some. intros [(-> & e & He & ->)|[Hne He]].
  - destruct (Hm _ _ He). cbn. auto.
  - by apply (Hm k').
Qed.

Lemma table_new_flows_wf cap : flows_wf cap (table_new cap).
Proof. split; [apply table_new_wf|]. split; [done|]. apply map_Forall_empty. Qed.

Lemma expire_wf cap t now : flows_wf cap t -> flows_wf cap (expire t now).
Proof.
  intros ([H1 H2] & Hc & Hm). split; [|split; [done|]].
  - split; [done|]. pose proof (expire_size t now). cbn in *. lia.
  - intros k e He. eapply Hm. eapply lookup_weaken; [exact He|apply expire_subseteq].
Qed.

Lemma table_remove_wf cap t k : flows_wf cap t -> flows_wf cap (table_remove t k).
Proof.
  intros ([H1 H2] & Hc & Hm). split; [|split; [done|]].
  - split; [done|]. unfold table_len in *. cbn. etrans; [apply zsize_subseteq, delete_subseteq|done].
  - intros k' e. cbn. intros [_ He]%lookup_delete_Some. by apply (Hm k').
Qed.

Lemma insert_wf {E : Type} cap t k v d flags now :
  flows_wf cap t -> flow_wf k -> side_wf (app_side v) ->
  exists t', @insert_flow Tracked _ E t k v d flags now = Ok t' /\ flows_wf cap t' /\
    peek t' k now = Some v.
Proof.
  intros (Hw & Hc & Hm) Hk Hv.
  destruct (@insert_spec Tracked _ E t k v d flags now Hw) as (m & -> & Hsub & Hsz & _).
  eexists. split; [done|]. split; [split; [|split; [done|]]|].
  - split; [apply Hw|]. unfold table_len, zsize in *. cbn. rewrite map_size_insert in *. done.
  - apply map_Forall_insert_2; [done|]. intros k' e He. eapply Hm. by eapply lookup_weaken.
  - unfold peek. cbn [entries with_entries]. rewrite lookup_insert_eq. unfold is_expired.
    cbn [lifecycle last_seen value]. unfold saturating_duration_since. rewrite Z.sub_diag.
    destruct (Z.ltb_spec (timeout_of (if bool_decide (transport k = Tcp) then advance Open d flags else Open)
                           (transport k)) (Z.max 0 0)) as [Hlt|]; [|done].
    exfalso. revert Hlt. generalize (if bool_decide (transport k = Tcp) then advance Open d flags else Open).
    intros l. destruct l, (transport k); vm_compute; discriminate.
Qed.

Lemma revise_wf {S : Type} cap t now (f : S -> FlowKey -> Tracked -> S * Tracked * Revision) g s :
  flows_wf cap t -> (forall s k v, let '(_, v', r) := f s k v in (v', r) = g k v) ->
  (forall k v, side_wf (app_side v) -> side_wf (app_side (g k v).1)) ->
  flows_wf cap (revise t now f s).2.
Proof.
  intros ([H1 H2] & Hc & Hm) Hg Hs.
  assert (capacity (revise t now f s).2 = capacity t) as Hcap
    by (unfold revise; by destruct (revise_loop _ _ _ _)).
  split; [|split; [congruence|]].
  - split; rewrite Hcap; [done|]. pose proof (revise_size t now f s). lia.
  - intros k e. rewrite (revise_lookup t now f g) by done.
    destruct (entries t !! k) as [e0|] eqn:He; simpl; [|done].
    destruct (Hm k e0 He) as [Hk Hv]. specialize (Hs k (value e0) Hv). unfold revised.
    destruct (g k (value e0)) as [v []]; simpl in *; intros [= <-]; by split.
Qed.
End Table.

(** ** Keys and owners *)

Section Host.
Context `{!Platform}.

(** The host reduces every path to a key: it is Windows or Linux. *)
Definition keys_total : Prop := HOST <> MacOs.

Lemma app_key_total {E : Type} path : keys_total -> exists k, @app_key _ E HOST path = Ok k.
Proof. unfold keys_total, app_key. destruct HOST; [done|eauto|eauto]. Qed.

Lemma matcher_lookup_total {E : Type} {V : Type} (m : AppMatcher V) path :
  keys_total -> flavor m = HOST -> exists o, @matcher_lookup _ V E m path = Ok o /\
    (forall v, o = Some v -> exists k, AppKey.apps m !! k = Some v).
Proof.
  intros Hk Hm. unfold matcher_lookup. rewrite Hm. destruct (@app_key_total E path Hk) as [k ->].
  cbn. eauto.
Qed.
End Host.

(** ** The methods *)

Section Methods.
Context `{!HashOrder} `{!Platform} {R : Type} `{!OwnerResolver R} {E : Type}.
Implicit Types r : Router R.

(** What a method may do to a state besides its own business. *)
Ltac keep := intros [? ? ? ? ? ? ?]; split; cbn; auto with packet.

Lemma with_capacity_wf (res : R) (cap : Z) : router_wf (with_capacity res cap).
Proof.
  split; cbn; auto with packet; try done.
Qed.

Lemma dropped_wf r : router_wf r -> router_wf (dropped r).
Proof. keep. Qed.
Lemma set_resolver_wf (res : R) r : router_wf r -> router_wf (set_resolver res r).
Proof. keep. Qed.
Lemma set_counters_wf c r : router_wf r -> router_wf (set_counters c r).
Proof. keep. Qed.
Lemma set_queries_wf q r : router_wf r -> router_wf (set_queries q r).
Proof. keep. Qed.
Lemma set_deferred_wf d r : router_wf r -> router_wf (set_deferred d r).
Proof. keep. Qed.
Lemma set_snapshot_wf s r : router_wf r -> router_wf (set_snapshot_taken s r).
Proof. keep. Qed.
Lemma set_decisions_wf c r : cache_wf c -> router_wf r -> router_wf (set_decisions c r).
Proof. intros ?. keep. Qed.
Lemma set_uplink_fragments_wf m r : fragments_wf m -> router_wf r -> router_wf (set_uplink_fragments m r).
Proof. intros ?. keep. Qed.
Lemma set_downlink_fragments_wf m r : fragments_wf m -> router_wf r -> router_wf (set_downlink_fragments m r).
Proof. intros ?. keep. Qed.
Lemma take_resets_wf r : router_wf r -> router_wf (take_resets r).1.
Proof. keep. split; [by vm_compute|constructor]. Qed.

Lemma set_flows_wf t r : flows_wf (flow_capacity r) t -> router_wf r -> router_wf (set_flows (Some t) r).
Proof. intros ?. intros [? ? ? ? ? ? ?]; split; cbn; eauto. by intros ? [= <-]. Qed.

Lemma map_flows_wf (f : FlowTable Tracked -> FlowTable Tracked) r :
  (forall t, flows_wf (flow_capacity r) t -> flows_wf (flow_capacity r) (f t)) ->
  router_wf r -> router_wf (set_flows (f <$> flows r) r).
Proof.
  intros Hf Hr. destruct (flows r) as [t|] eqn:Ht; cbn.
  - apply set_flows_wf; [|done]. apply Hf. by apply Hr.
  - destruct r, Hr; cbn in *. rewrite Ht in *. by split.
Qed.

Lemma sweep_wf r now : router_wf r -> router_wf (sweep r now).
Proof.
  intros Hr. unfold sweep. destruct (match last_sweep r with Some _ => _ | None => _ end); [done|].
  apply set_downlink_fragments_wf; [cbn; apply fragments_expire_wf, Hr|].
  apply set_uplink_fragments_wf; [cbn; apply fragments_expire_wf, Hr|].
  apply (map_flows_wf (fun t => expire t now)); [intros; by apply expire_wf|].
  revert Hr. keep.
Qed.

Lemma ensure_fresh_view_wf r arrived clock : router_wf r -> router_wf (ensure_fresh_view r arrived clock).
Proof.
  intros Hr. unfold ensure_fresh_view. destruct (match snapshot_taken r with Some _ => _ | None => _ end); [done|].
  destruct (refresh (resolver r) clock). by apply set_snapshot_wf, set_counters_wf, set_resolver_wf.
Qed.

(** What a computation of the router promises: no panic, no error, and [Q]. *)
Abbreviation ensures m Q := (yields m (fun _ : E => False) Q).

(** Fields no attribution writes. *)
Definition attribution_keeps r r' : Prop :=
  policy r' = policy r /\ flows r' = flows r /\ uplink_fragments r' = uplink_fragments r
  /\ downlink_fragments r' = downlink_fragments r /\ resets r' = resets r
  /\ flow_capacity r' = flow_capacity r /\ last_sweep r' = last_sweep r /\ deferred r' = deferred r.

Ltac kept := unfold attribution_keeps in *; cbn in *; intuition congruence.

Lemma decide_process_yields r under_way p k :
  keys_total -> router_wf r ->
  ensures (decide_process r under_way p k) (fun x => router_wf x.1 /\ attribution_keeps r x.1).
Proof.
  intros Hkeys Hr. unfold decide_process.
  assert (forall r' route, router_wf r' -> attribution_keeps r r' ->
    ensures (match route with
      | None => Ok (r', (Main, Some k))
      | Some route => if under_way then Ok (set_counters (count_reset (counters r')) r', (Reset, Some k))
                      else Ok (r', (Route route, Some k))
      end) (fun x => router_wf x.1 /\ attribution_keeps r x.1)) as Hbind.
  { intros r' [route|] Hr' Hk'; [destruct under_way|]; simpl; try done. split; [by apply set_counters_wf|kept]. }
  destruct (cache_get _ _) as [route|]; [apply Hbind; [done|kept]|].
  destruct (executable (resolver r) p) as [res path]. destruct path as [path|].
  - apply yields_bind. destruct (@matcher_lookup_total _ E _ (apps (policy r)) path Hkeys) as (o & Ho & _);
      [apply Hr|]. cbn [policy set_resolver]. rewrite Ho. cbn [yields]. apply Hbind; [|kept].
    apply set_decisions_wf; [apply cache_insert_wf, Hr|by apply set_resolver_wf].
  - destruct under_way; simpl; (split; [by apply set_resolver_wf|kept]).
Qed.

Lemma router_decide_yields r under_way o :
  keys_total -> router_wf r ->
  ensures (router_decide r under_way o) (fun x => router_wf x.1 /\ attribution_keeps r x.1).
Proof.
  intros Hkeys Hr. unfold router_decide. destruct o as [p| |]; [|by split; [|kept]|].
  - destruct (process_key (resolver r) p) as [res k]. destruct k as [k|].
    + eapply yields_mono; [apply decide_process_yields; [done|by apply set_resolver_wf]|done|]. done.
    + simpl. split; [by apply set_counters_wf, set_resolver_wf|kept].
  - simpl. split; [by apply set_counters_wf|kept].
Qed.

Lemma attribute_yields r key opening arrived clock :
  keys_total -> router_wf r ->
  ensures (attribute r key opening arrived clock) (fun x => router_wf x.1 /\ attribution_keeps r x.1).
Proof.
  intros Hkeys Hr. unfold attribute. destruct (bool_decide (transport key = IcmpEcho)).
  { simpl. split; [by apply set_counters_wf|kept]. }
  cbn [deferred set_counters]. destruct (deferred r) eqn:Hd.
  { simpl. split; [by apply set_queries_wf, set_counters_wf|kept]. }
  set (r1 := ensure_fresh_view _ _ _).
  assert (router_wf r1 /\ attribution_keeps r r1) as [Hr1 Hk1].
  { split; [by apply ensure_fresh_view_wf, set_counters_wf|]. unfold r1, ensure_fresh_view.
    destruct (match snapshot_taken _ with Some _ => _ | None => _ end); [kept|].
    destruct (refresh _ _). kept. }
  assert (forall under_way res o,
    ensures (router_decide (set_resolver res r1) under_way o)
      (fun x => router_wf x.1 /\ attribution_keeps r x.1)) as Hdecide.
  { intros under_way res o.
    eapply yields_mono; [apply router_decide_yields; [done|by apply set_resolver_wf]|done|].
    intros x [Hx Hkx]. split; [done|kept]. }
  destruct (bool_decide (transport key = Tcp) && negb opening).
  - destruct (socket_owner (resolver r1) key). apply Hdecide.
  - destruct (owner (resolver r1) key). apply Hdecide.
Qed.

(** *** The flow's binding *)

(** Fields a flow's binding leaves alone. *)
Definition binding_keeps r r' : Prop :=
  policy r' = policy r /\ uplink_fragments r' = uplink_fragments r
  /\ downlink_fragments r' = downlink_fragments r /\ resets r' = resets r
  /\ flow_capacity r' = flow_capacity r /\ last_sweep r' = last_sweep r /\ deferred r' = deferred r.

Lemma lookup_flow_wf r key d flags now :
  router_wf r -> router_wf (lookup_flow r key d flags now).1 /\
    binding_keeps r (lookup_flow r key d flags now).1 /\
    (forall v, (lookup_flow r key d flags now).2 = Some v -> flow_wf key /\ side_wf (app_side v)).
Proof.
  intros Hr. unfold lookup_flow. destruct (flows r) as [t|] eqn:Ht; [|done].
  destruct (lookup_mut_wf (flow_capacity r) t key d flags now) as [Hw Hv]; [by apply Hr|].
  destruct (lookup_mut t key d flags now) as [t' o]. split; [by apply set_flows_wf|]. by split.
Qed.

Definition segment_wf (s : option Segment) : Prop := forall g, s = Some g -> is_u32 (seg_ack g).

(** Whether a flow already tracked stands for the packet, not a new connection. *)
Definition stands (opening : bool) (s : option Segment) (tracked : Tracked) : bool :=
  negb opening
  || (negb (bool_decide (binding tracked = Reset))
      && match s with Some segment => opened_by (app_side tracked) segment | None => false end).

(** The flow attributed again, and recorded. *)
Definition attributed r (key : FlowKey) (flags : Z) (s : option Segment) (arrived clock : Z)
    : comp E (Router R * Binding) :=
  let opening := is_opening key flags in
  if negb (policy_is_active (policy r)) then
    Ok (if opening then set_flows ((fun flows => table_remove flows key) <$> flows r) r else r, Main)
  else
    '(r, (bound, process)) ← attribute r key opening arrived clock;
    match flows r with
    | None => Ok (r, bound)
    | Some flows =>
        flows ← insert_flow flows key
          (mkTracked bound process (match s with Some segment => follow AppSide_default segment
                                    | None => AppSide_default end)) Uplink flags arrived;
        Ok (set_flows (Some flows) r, bound)
    end.

Lemma flow_binding_eq r key flags s arrived clock :
  flow_binding r key flags s arrived clock =
    let r1 := (lookup_flow r key Uplink flags arrived).1 in
    match (lookup_flow r key Uplink flags arrived).2 with
    | Some tracked =>
        if stands (is_opening key flags) s tracked
        then Ok (match s with
                 | Some segment =>
                     set_flows (write_value key (fun t => mkTracked (binding t) (process t) (follow (app_side t) segment))
                                <$> flows r1) r1
                 | None => r1
                 end, binding tracked)
        else attributed r1 key flags s arrived clock
    | None => attributed r1 key flags s arrived clock
    end.
Proof.
  unfold flow_binding, attributed, stands. by destruct (lookup_flow r key Uplink flags arrived) as [r1 [tracked|]].
Qed.

Lemma attributed_yields r key flags s arrived clock :
  keys_total -> router_wf r -> flow_wf key -> segment_wf s ->
  ensures (attributed r key flags s arrived clock) (fun x => router_wf x.1 /\ binding_keeps r x.1 /\
    (policy_is_active (policy r) = true -> router_peek x.1 key arrived = Some x.2)).
Proof.
  intros Hkeys Hr Hk Hs. unfold attributed. destruct (policy_is_active (policy r)) eqn:Hact; cbn [negb].
  2: { destruct (is_opening key flags); simpl; (split; [|done]).
       - apply (map_flows_wf (fun t => table_remove t key)); [|done]. intros. by apply table_remove_wf.
       - done. }
  apply yields_bind. eapply yields_mono; [by apply attribute_yields|done|].
  intros [r1 [bound proc]] [Hr1 Hkeep]; cbn [fst] in *. cbn beta iota.
  assert (binding_keeps r r1) as Hb by (unfold binding_keeps; kept).
  destruct (rw_active _ Hr1) as [t Ht]; [by destruct Hkeep as [-> _]|]. rewrite Ht.
  destruct (@insert_wf _ E (flow_capacity r1) t key (mkTracked bound proc
    (match s with Some segment => follow AppSide_default segment | None => AppSide_default end))
    Uplink flags arrived) as (t' & -> & Ht' & Hpk); [by apply Hr1|done| |].
  { destruct s as [g|]; [|apply default_side_wf]. apply follow_wf; [apply default_side_wf|by apply Hs]. }
  simpl. split; [by apply set_flows_wf|]. split; [done|]. intros _.
  unfold router_peek. cbn [flows set_flows mbind option_bind]. by rewrite Hpk.
Qed.

Lemma flow_binding_yields r key flags s arrived clock :
  keys_total -> router_wf r -> flow_wf key -> segment_wf s ->
  ensures (flow_binding r key flags s arrived clock) (fun x => router_wf x.1 /\ binding_keeps r x.1).
Proof.
  intros Hkeys Hr Hk Hs. rewrite flow_binding_eq. cbv zeta.
  destruct (lookup_flow_wf r key Uplink flags arrived Hr) as (Hr1 & Hk1 & Hv).
  destruct (lookup_flow r key Uplink flags arrived) as [r1 found]; cbn [fst snd] in *.
  assert (ensures (attributed r1 key flags s arrived clock)
            (fun x => router_wf x.1 /\ binding_keeps r x.1)) as Hnew.
  { eapply yields_mono; [by apply attributed_yields|done|]. intros x (Hx & Hb & _).
    split; [done|]. unfold binding_keeps in *. kept. }
  destruct found as [tracked|]; [|exact Hnew]. destruct (stands _ _ _); [|exact Hnew].
  destruct s as [g|]; simpl; [|done]. split; [|done].
  apply (map_flows_wf (write_value key _)); [|done]. intros t Ht. apply write_value_wf; [done|].
  intros v Hside. cbn. by apply follow_wf, Hs.
Qed.

(** *** Uplink *)

(** The address a packet bound to [route] is sent from, when the route can carry it: it is
    connected, with an address of the packet's IP version, and the packet leaves from the main
    session's. *)
Definition translation r (route : Z) (p : bytes) : option IpAddr :=
  match route_state r route, locate p with
  | Some (Connected addresses), Ok l =>
      if bool_decide (for_family_of (main (policy r)) (src_of l p) = Some (src_of l p))
      then for_family_of addresses (src_of l p) else None
  | _, _ => None
  end.

Lemma route_state_wf r route s : router_wf r -> route_state r route = Some s -> state_wf s.
Proof.
  intros Hr. unfold route_state, get. destruct (0 <=? route); [|done]. intros Hs.
  eapply Forall_lookup_1; [|exact Hs]. apply Hr.
Qed.

Lemma translation_rewrites r route p new :
  router_wf r -> bytes_ok p -> translation r route p = Some new ->
  exists l p', locate p = Ok l /\ ip_wf new /\ matches_family new (family l) = true /\
    @rewrite_source E p new = Ok (p', None) /\ rewritten p p' l new Source.
Proof.
  intros Hr Hb. unfold translation. destruct (route_state r route) as [[|a|]|] eqn:Hs; try done.
  destruct (locate p) as [l| |] eqn:Hl; try done. destruct (bool_decide _); [|done]. intros Hn.
  pose proof (route_state_wf _ _ _ Hr Hs) as Ha. pose proof (for_family_wf _ _ _ Ha Hn) as Hnw.
  assert (matches_family new (family l) = true) as Hm.
  { apply for_family_same in Hn. unfold src_of in Hn. by destruct new, (family l). }
  pose proof (@rewrite_spec E p l new Source Hb Hnw Hl) as Hsp. rewrite Hm in Hsp.
  destruct Hsp as (p' & Hp' & Hrw). by exists l, p'.
Qed.

Lemma apply_uplink_eq r bound p :
  router_wf r -> bytes_ok p ->
  apply_uplink r bound p =
    (match bound with
     | Main => Ok (r, p, VMain)
     | Blocked | Reset | Pending => Ok (dropped r, p, VDrop)
     | Route route =>
         match translation r route p with
         | Some new =>
             '(p', _) ← @rewrite_source E p new;
             Ok (set_counters (count_routed (counters r)) r, p', VRoute route)
         | None => Ok (dropped r, p, VDrop)
         end
     end).
Proof.
  intros Hr Hb. unfold apply_uplink. destruct bound as [|route| | |]; try done.
  pose proof (translation_rewrites r route p) as Htr. unfold translation in *.
  destruct (route_state r route) as [[|a|]|]; try done.
  pose proof (locate_with_yields p false Hb) as Hy.
  destruct (locate p) as [l| |] eqn:Hl; unfold locate in Hl; rewrite Hl in Hy; try done.
  destruct (addr_range_ok _ _ _ Hb Hl) as (_ & Hs & _). rewrite src_ok by done.
  cbn [mbind comp_bind]. destruct (bool_decide _); cbn [negb]; [|done].
  destruct (for_family_of a (src_of l p)) as [new|]; [|done].
  destruct (Htr new Hr Hb eq_refl) as (? & p' & _ & _ & _ & -> & _). done.
Qed.

(** What becomes of a packet whose flow is bound. *)
Definition carried r (bound : Binding) (p p' : bytes) (v : Verdict) : Prop :=
  match bound with
  | Main => v = VMain /\ p' = p
  | Blocked | Reset | Pending => v = VDrop /\ p' = p
  | Route route =>
      match translation r route p with
      | Some new => v = VRoute route /\ @rewrite_source E p new = Ok (p', None)
      | None => v = VDrop /\ p' = p
      end
  end.

Lemma apply_uplink_policy r bound p x : @apply_uplink R E r bound p = Ok x -> policy x.1.1 = policy r.
Proof.
  unfold apply_uplink. destruct bound as [|route| | |]; try by intros [= <-].
  destruct (route_state r route) as [[|a|]|]; try by intros [= <-].
  destruct (locate p) as [l| |]; try by intros [= <-].
  intros (s & _ & Hx)%bind_ok. revert Hx. destruct (negb _); [by intros [= <-]|].
  destruct (for_family_of a s) as [new|]; [|by intros [= <-]].
  intros ([p' [e|]] & _ & Hx)%bind_ok; by injection Hx as <-.
Qed.

Lemma apply_uplink_yields r bound p :
  router_wf r -> bytes_ok p ->
  ensures (apply_uplink r bound p) (fun x => router_wf x.1.1 /\ bytes_ok x.1.2 /\ zlen x.1.2 = zlen p
    /\ carried r bound p x.1.2 x.2 /\ flows x.1.1 = flows r).
Proof.
  intros Hr Hb. rewrite apply_uplink_eq by done. unfold carried.
  destruct bound as [|route| | |]; simpl; try (by split_and!; try apply dropped_wf).
  destruct (translation r route p) as [new|] eqn:Ht; simpl; [|by split_and!; try apply dropped_wf].
  destruct (translation_rewrites _ _ _ _ Hr Hb Ht) as (l & p' & Hl & Hnw & Hm & Heq & Hrw).
  rewrite Heq. simpl. pose proof (rw_differs _ _ _ _ _ Hrw) as (Hz & Hb' & _).
  split_and!; try done. by apply set_counters_wf.
Qed.

Lemma answer_notice key s :
  flow_wf key -> is_u32 (seg_ack s) ->
  ensures (answer key s) (fun o => forall p, o = Some p -> notice_ok p).
Proof.
  intros Hk Hs. unfold answer. destruct (bool_decide_reflect (transport key = Tcp)) as [Ht|]; [|done].
  destruct (has_flag (seg_flags s) FLAG_RST); [done|]. cbn [negb orb]. apply yields_bind.
  assert (forall seq ack, is_u32 seq -> is_u32 (default 0 ack) ->
    ensures (build key seq ack) (fun p => notice_ok p)) as Hbuild.
  { intros seq ack H1 H2. destruct (@build_spec E key seq ack Hk Ht H1 H2) as (p & -> & [] & _).
    simpl. split; [done|]. exists key. split; [done|]. left. split; [done|].
    exists (reset_flags ack). split; [done|]. by destruct ack. }
  assert (ensures (if has_flag (seg_flags s) FLAG_ACK then build key (seg_ack s) None
    else build key 0 (Some (wrap32 (seg_seq s + seg_len s)))) notice_ok) as Hbranch.
  { destruct (has_flag _ _); apply Hbuild; try done; simpl; try apply wrap32_u32; unfold is_u32; lia. }
  eapply yields_mono; [exact Hbranch|done|]. intros p Hp. simpl. by intros ? [= <-].
Qed.

Lemma push_reset_wf r p : notice_ok p -> zlen (resets r) < MAX_QUEUED_RESETS -> router_wf r ->
  router_wf (set_resets (resets r ++ [p]) r).
Proof.
  intros Hp Hlt. keep. destruct rw_resets0. split; [rewrite zlen_app, zlen_cons; unfold zlen in *; simpl; lia|].
  apply Forall_app. split; [done|]. by constructor.
Qed.

(** The answer to a segment of a connection that was reset, queued while there is room. *)
Definition answer_reset r (key : FlowKey) (bound : Binding) (s : option Segment) : comp E (Router R) :=
  if bool_decide (bound = Reset) && (zlen (resets r) <? MAX_QUEUED_RESETS) then
    match s with
    | Some segment =>
        answered ← answer key segment;
        match answered with Some answer => Ok (set_resets (resets r ++ [answer]) r) | None => Ok r end
    | None => Ok r
    end
  else Ok r.

Lemma answer_reset_yields r key bound s :
  router_wf r -> flow_wf key -> segment_wf s ->
  ensures (answer_reset r key bound s) (fun r' => router_wf r' /\ policy r' = policy r /\ flows r' = flows r).
Proof.
  intros Hr Hk Hs. unfold answer_reset. destruct (bool_decide (bound = Reset)); [|done].
  destruct (Z.ltb_spec (zlen (resets r)) MAX_QUEUED_RESETS); [|done]. cbn [andb].
  destruct s as [g|]; [|done]. apply yields_bind.
  eapply yields_mono; [apply answer_notice; [done|by apply Hs]|done|].
  intros [p|] Hp; [|done]. split; [|done]. apply push_reset_wf; auto.
Qed.
Lemma translation_policy r r' route p : policy r' = policy r -> translation r' route p = translation r route p.
Proof. intros Hp. unfold translation, route_state. by rewrite Hp. Qed.

Lemma carried_policy r r' bound p p' v : policy r' = policy r -> carried r' bound p p' v -> carried r bound p p' v.
Proof. intros Hp. unfold carried. destruct bound; try done. by rewrite (translation_policy r r'). Qed.

Lemma sweep_policy r now : policy (sweep r now) = policy r.
Proof. unfold sweep. by destruct (match last_sweep r with Some _ => _ | None => _ end). Qed.

Lemma segment_spec p : bytes_ok p -> exists o, @segment E p = Ok o /\ segment_wf o.
Proof.
  intros Hb. pose proof (@segment_numbers E p Uplink Hb) as Hs. destruct (segment p) as [o| |]; try done.
  exists o. split; [done|]. intros g ->. apply Hs.
Qed.

(** What [uplink] makes of a packet: only a routed one changes, and only by its translation. *)
Definition uplink_effect r (p p' : bytes) (v : Verdict) : Prop :=
  match v with
  | VRoute route => exists new, translation r route p = Some new /\ @rewrite_source E p new = Ok (p', None)
  | _ => p' = p
  end.

Lemma carried_effect r bound p p' v : carried r bound p p' v -> uplink_effect r p p' v.
Proof.
  unfold carried, uplink_effect. destruct bound as [|route| | |]; try by intros [-> ->].
  destruct (translation r route p) as [new|] eqn:Ht; intros [-> Hp]; [by exists new|done].
Qed.

Lemma uplink_yields r p arrived clock :
  keys_total -> router_wf r -> bytes_ok p ->
  ensures (uplink r p arrived clock) (fun x => router_wf x.1.1 /\ policy x.1.1 = policy r /\
    bytes_ok x.1.2 /\ zlen x.1.2 = zlen p /\ uplink_effect r p x.1.2 x.2).
Proof.
  intros Hkeys Hr Hb. unfold uplink. destruct (negb (router_is_active r)); [done|]. cbv zeta.
  pose proof (sweep_wf r arrived Hr) as Hr0. pose proof (sweep_policy r arrived) as Hp0.
  set (r0 := sweep r arrived) in *. clearbody r0.
  assert (forall r1 bound, router_wf r1 -> policy r1 = policy r ->
    ensures (apply_uplink r1 bound p) (fun x => router_wf x.1.1 /\ policy x.1.1 = policy r /\
      bytes_ok x.1.2 /\ zlen x.1.2 = zlen p /\ uplink_effect r p x.1.2 x.2)) as Happly.
  { intros r1 bound Hr1 Hp1. pose proof (fun x => apply_uplink_policy r1 bound p x) as Hpol.
    pose proof (apply_uplink_yields r1 bound p Hr1 Hb) as Hy. destruct (apply_uplink r1 bound p) as [x| |]; try done.
    destruct Hy as (? & ? & ? & Hc & _). split_and!; try done; [by rewrite (Hpol x eq_refl)|].
    eapply carried_effect, carried_policy; [|exact Hc]. done. }
  pose proof (classify_yields p Uplink Hb) as Hc.
  destruct (classify p Uplink) as [[key flags frag|frag|key|]| |]; try done.
  - destruct Hc as [Hk _]. apply yields_bind.
    destruct (segment_spec p Hb) as (o & Ho & Hso).
    assert (exists o, (if bool_decide (transport key = Tcp) then @segment E p else Ok None) = Ok o
      /\ segment_wf o) as (s & -> & Hs).
    { destruct (bool_decide _); [by exists o|]. by exists None. }
    cbn [yields]. apply yields_bind. eapply yields_mono; [by apply flow_binding_yields|done|].
    intros [r1 bound] [Hr1 Hk1]; cbn [fst] in *. cbn beta iota.
    assert (policy r1 = policy r) as Hp1 by (destruct Hk1; congruence).
    set (r2 := match frag with Some _ => _ | None => r1 end).
    assert (router_wf r2 /\ policy r2 = policy r) as [Hr2 Hp2].
    { unfold r2. destruct frag; [|done]. split; [|done]. apply set_uplink_fragments_wf; [|done].
      apply remember_wf, Hr1. }
    destruct (bool_decide (bound = Pending)); [done|].
    fold (answer_reset r2 key bound s). apply yields_bind.
    eapply yields_mono; [by apply answer_reset_yields|done|]. intros r3 (Hr3 & Hp3 & _).
    apply Happly; congruence.
  - by apply Happly.
  - destruct (router_peek r0 key arrived) as [[]|]; simpl; split_and!; try done; by apply dropped_wf.
Qed.

(** *** Downlink *)

(** The main address a delivered packet is sent on to, when the route that delivered it is
    connected and carries the flow the packet belongs to. *)
Definition deliverable r (route : Z) (p : bytes) (now : Z) : option IpAddr :=
  match route_state r route with
  | Some (Connected addresses) =>
      match classify p Downlink with
      | Ok (Flow key _ _) | Ok (IcmpError key) =>
          '(original, main) ← original_flow r key addresses;
          if bool_decide (router_peek r original now = Some (Route route)) then Some main else None
      | Ok (LaterFragment fragment) =>
          main ← for_family_of (main (policy r)) (fk_dst fragment);
          if bool_decide (fragments_get (downlink_fragments r) fragment now = Some (Route route))
          then Some main else None
      | _ => None
      end
  | _ => None
  end.

Definition downlink_effect r (route : Z) (p p' : bytes) (now : Z) (d : Delivery) : Prop :=
  match d with
  | Deliver => policy_is_active (policy r) = true /\
      exists m, deliverable r route p now = Some m /\ @rewrite_destination E p m = Ok (p', None)
  | DDrop => p' = p
  end.

Lemma rewrite_destination_total p m :
  bytes_ok p -> ip_wf m ->
  exists p', bytes_ok p' /\ zlen p' = zlen p /\
    (@rewrite_destination E p m = Ok (p', None)
     \/ p' = p /\ exists e, @rewrite_destination E p m = Ok (p, Some e)).
Proof.
  intros Hb Hm. unfold rewrite_destination. pose proof (locate_with_yields p false Hb) as Hy.
  destruct (locate p) as [l|e|] eqn:Hl; unfold locate in Hl; rewrite Hl in Hy; [| |done].
  - pose proof (@rewrite_spec E p l m Destination Hb Hm Hl) as Hsp.
    destruct (matches_family m (family l)).
    + destruct Hsp as (p' & Heq & Hrw). pose proof (rw_differs _ _ _ _ _ Hrw) as (Hz & Hb' & _).
      exists p'. eauto.
    + exists p. split_and!; try done. right. eauto.
  - exists p. split_and!; try done. right. split; [done|]. exists (NatPacket e).
    unfold rewrite, locate. by rewrite Hl.
Qed.

Lemma original_flow_main r key a o m : original_flow r key a = Some (o, m) ->
  for_family_of (main (policy r)) (ip (local key)) = Some m /\
  for_family_of a (ip (local key)) = Some (ip (local key)) /\
  o = mkFlowKey (transport key) (mkSocketAddr m (port (local key))) (remote key).
Proof.
  unfold original_flow. destruct (bool_decide_reflect (for_family_of a (ip (local key)) = Some (ip (local key))))
    as [Ha|]; [|done]. cbn [negb]. destruct (for_family_of (main (policy r)) _) as [m'|] eqn:Hm; [|done].
  simpl. by intros [= <- <-].
Qed.

Lemma downlink_yields r route p now :
  router_wf r -> bytes_ok p ->
  ensures (downlink r route p now) (fun x => router_wf x.1.1 /\ policy x.1.1 = policy r /\
    bytes_ok x.1.2 /\ zlen x.1.2 = zlen p /\ downlink_effect r route p x.1.2 now x.2).
Proof.
  intros Hr Hb. unfold downlink. destruct (policy_is_active (policy r)) eqn:Hact; [|done].
  cbn [negb]. unfold downlink_effect, deliverable.
  pose proof (dropped_wf r Hr) as Hd.
  destruct (route_state r route) as [[|a|]|] eqn:Hst; try (by simpl; split_and!).
  pose proof (classify_yields p Downlink Hb) as Hc.
  assert (forall r1 m, router_wf r1 -> policy r1 = policy r -> ip_wf m ->
    ensures ('(packet, error) ← rewrite_destination p m;
      match error with
      | Some _ => Ok (dropped r1, packet, DDrop)
      | None => Ok (set_counters (count_routed (counters r1)) r1, packet, Deliver)
      end) (fun x => router_wf x.1.1 /\ policy x.1.1 = policy r /\ bytes_ok x.1.2 /\ zlen x.1.2 = zlen p /\
        match x.2 with
        | Deliver => policy_is_active (policy r) = true /\
            exists m', Some m = Some m' /\ @rewrite_destination E p m' = Ok (x.1.2, None)
        | DDrop => x.1.2 = p
        end)) as Hdel.
  { intros r1 m Hr1 Hp1 Hm. destruct (rewrite_destination_total p m Hb Hm) as (p' & Hb' & Hz & [Heq|[-> [e Heq]]]);
      rewrite Heq; simpl; split_and!; try done; [by apply set_counters_wf|by exists m|by apply dropped_wf]. }
  destruct (classify p Downlink) as [[key flags frag|frag|key|]| |]; try done; try (by simpl; split_and!).
  - destruct (original_flow r key a) as [[o m]|] eqn:Ho; [|by simpl; split_and!]. cbn [mbind option_bind].
    destruct (bool_decide (router_peek r o now = Some (Route route))); cbn [negb]; [|by simpl; split_and!].
    apply original_flow_main in Ho as (Hm & _ & _).
    destruct (lookup_flow_wf r o Downlink flags now Hr) as (Hr1 & Hk1 & _).
    assert ((lookup r o Downlink flags now).1 = (lookup_flow r o Downlink flags now).1) as ->.
    { unfold lookup. by destruct (lookup_flow _ _ _ _ _). }
    assert (policy (lookup_flow r o Downlink flags now).1 = policy r) as Hp1 by apply Hk1.
    apply Hdel.
    + destruct frag; [|done]. apply set_downlink_fragments_wf; [|done]. apply remember_wf, Hr1.
    + by destruct frag.
    + eapply for_family_wf; [|exact Hm]. apply Hr.
  - destruct (for_family_of (main (policy r)) (fk_dst frag)) as [m|] eqn:Hm; [|by simpl; split_and!].
    cbn [mbind option_bind].
    destruct (bool_decide (fragments_get _ _ _ = _)); cbn [negb]; [|by simpl; split_and!].
    apply Hdel; [done|done|]. eapply for_family_wf; [|exact Hm]. apply Hr.
  - destruct (original_flow r key a) as [[o m]|] eqn:Ho; [|by simpl; split_and!]. cbn [mbind option_bind].
    destruct (bool_decide (router_peek r o now = Some (Route route))); cbn [negb]; [|by simpl; split_and!].
    apply original_flow_main in Ho as (Hm & _ & _).
    apply Hdel; [done|done|]. eapply for_family_wf; [|exact Hm]. apply Hr.
Qed.

(** *** The other methods *)

Lemma complete_yields r q o now :
  keys_total -> router_wf r ->
  ensures (complete r q o now) (fun r' => router_wf r' /\ policy r' = policy r).
Proof.
  intros Hkeys Hr. unfold complete. destruct (bool_decide _); cbn [negb]; [|done].
  apply yields_bind. eapply yields_mono; [by apply router_decide_yields|done|].
  intros [r1 [bound proc]] [Hr1 Hk]; cbn [fst] in *. cbn beta iota. split; [|by destruct Hk].
  apply (map_flows_wf (write_value (q_flow q) _)); [|done]. intros t Ht. by apply write_value_wf.
Qed.

Lemma set_route_state_wf r route s : state_wf s -> router_wf r -> router_wf (set_route_state r route s).
Proof.
  intros Hs Hr. unfold set_route_state. destruct (route_state r route) eqn:Hst; [|done].
  destruct Hr as [[Hm Hf Ha Hro Hse] Hfl Hact ? ? ? ?]. split; cbn; try done.
  assert (zlen (<[Z.to_nat route:=s]> (routes (policy r))) = zlen (routes (policy r))) as Hz.
  { unfold zlen. by rewrite length_insert. }
  split; cbn; rewrite ?Hz; try done. by apply Forall_insert.
Qed.

Lemma toward_app_notice key side :
  flow_wf key -> side_wf side -> ensures (toward_app key side) (fun o => forall p, o = Some p -> notice_ok p).
Proof.
  intros Hk [He Hn]. unfold toward_app. destruct (bool_decide_reflect (transport key = Tcp)) as [Ht|]; [|done].
  cbn [negb].
  assert (forall seq ack, is_u32 seq -> is_u32 (default 0 ack) ->
    ensures (packet ← build key seq ack; Ok (Some packet)) (fun o => forall p, o = Some p -> notice_ok p)) as Hbuild.
  { intros seq ack H1 H2. destruct (@build_spec E key seq ack Hk Ht H1 H2) as (p & -> & [] & _).
    simpl. intros ? [= <-]. split; [done|]. exists key. split; [done|]. left. split; [done|].
    exists (reset_flags ack). split; [done|]. by destruct ack. }
  assert (is_u32 0) by (unfold is_u32; lia).
  destruct (expects side) as [e|]; [|destruct (next side) as [n|]; [|done]].
  - apply Hbuild; [by apply He|]. destruct (next side); simpl; [by apply Hn|done].
  - apply Hbuild; [done|]. by apply Hn.
Qed.

Lemma unreachable_notice key :
  flow_wf key -> ensures (unreachable_toward_app key) (fun o => forall p, o = Some p -> notice_ok p).
Proof.
  intros Hk. destruct (decide (transport key = Udp)) as [Hu|Hu].
  - destruct (@unreachable_spec E key Hk Hu) as (p & -> & []). simpl. intros ? [= <-].
    split; [done|]. exists key. split; [done|]. by right.
  - unfold unreachable_toward_app. by rewrite bool_decide_eq_false_2.
Qed.

(** The queue stays bounded and holds only notices. *)
Definition queue_ok (s : comp E (list bytes * Counters)) : Prop :=
  ensures s (fun x => zlen x.1 <= MAX_QUEUED_RESETS /\ Forall notice_ok x.1).

Lemma tell_queue key side notice s :
  flow_wf key -> side_wf side -> queue_ok s -> queue_ok (tell key side notice s).
Proof.
  intros Hk Hside Hs. unfold tell, queue_ok in *. apply yields_bind.
  eapply yields_mono; [exact Hs|done|]. intros [rs c] [Hz Hrs]; cbn [fst] in *. cbn beta iota.
  assert (forall (packet : comp E (option bytes)) (f : Counters -> Counters),
    ensures packet (fun o => forall p, o = Some p -> notice_ok p) ->
    ensures (resets ← (if zlen rs <? MAX_QUEUED_RESETS then
         packet ← packet; Ok (rs ++ match packet with Some p => [p] | None => [] end)
       else Ok rs); Ok (resets, f c))
      (fun x => zlen x.1 <= MAX_QUEUED_RESETS /\ Forall notice_ok x.1)) as Hq.
  { intros packet f Hp. destruct (Z.ltb_spec (zlen rs) MAX_QUEUED_RESETS); [|done].
    destruct packet as [o| |]; try done. simpl in *. split.
    - rewrite zlen_app. destruct o; unfold zlen in *; simpl; lia.
    - apply Forall_app. split; [done|]. destruct o; constructor; [by apply Hp|constructor]. }
  destruct notice; [done|apply Hq, toward_app_notice; done|apply Hq, unreachable_notice; done].
Qed.

(** What [revise] does to each flow, without what it queues. *)
Definition fate (old new : Policy) (decisions : gmap ProcessKey (option Z)) (key : FlowKey) (tracked : Tracked)
    : Tracked * Revision := (revision old new decisions key tracked).1.

Lemma fate_side old new decisions key tracked :
  app_side (fate old new decisions key tracked).1 = app_side tracked.
Proof.
  unfold fate, revision.
  destruct (binding tracked) as [|route| | |]; simpl; try done;
    repeat match goal with
    | |- context [match ?x with _ => _ end] => destruct x; simpl; try done
    end.
Qed.

Lemma revise_flows_yields r new decisions clock :
  router_wf r -> ensures (revise_flows r new decisions clock) (fun r' =>
    (policy_wf new -> (policy_is_active new = true -> is_Some (flows r)) -> router_wf (put_policy new r')) /\
    policy r' = policy r /\
    match flows r with
    | Some t => exists t', flows r' = Some t' /\
        forall k, entries t' !! k = (e ← entries t !! k; revised clock (fate (policy r) new decisions) k e)
    | None => flows r' = None
    end).
Proof.
  intros Hr. unfold revise_flows. destruct (flows r) as [t|] eqn:Ht.
  2: { simpl. rewrite Ht. split_and!; try done. intros Hp Ha. destruct Hr. split; cbn; try done.
       intros Hac. by destruct (Ha Hac). }
  set (f := fun s key tracked => _).
  assert (forall s k v, let '(_, v', rv) := f s k v in (v', rv) = fate (policy r) new decisions k v) as Hg.
  { intros s k v. unfold f, fate. by destruct (revision _ _ _ _ _) as [[? ?] ?]. }
  pose proof (rw_flows _ Hr t Ht) as Htw.
  pose proof (revise_wf (flow_capacity r) t clock f (fate (policy r) new decisions)
    (Ok (resets r, counters r)) Htw Hg) as Hw.
  pose proof (fun k => revise_lookup t clock f (fate (policy r) new decisions) (Ok (resets r, counters r)) k Hg) as Hl.
  pose proof (revise_state queue_ok t clock f (Ok (resets r, counters r))) as Hq.
  destruct (revise t clock f (Ok (resets r, counters r))) as [s t']; cbn [fst snd] in *.
  assert (queue_ok s) as Hs.
  { apply Hq; [|by apply Hr]. intros s0 k e He Hq0. unfold f.
    destruct (revision _ _ _ _ _) as [[? ?] ?]. cbn [fst]. destruct Htw as (_ & _ & Hm).
    destruct (Hm k e He). by apply tell_queue. }
  assert (flows_wf (flow_capacity r) t') as Ht'.
  { apply Hw. intros k v Hv. by rewrite fate_side. }
  apply yields_bind. eapply yields_mono; [exact Hs|done|]. intros [rs c] [Hz Hrs]; cbn [fst] in *. simpl.
  split_and!; [|done|by exists t'].
  intros Hp Ha. destruct Hr. split; cbn; try done; by intros ? [= <-].
Qed.

Lemma ask_again_total (m : AppMatcher Z) processes :
  keys_total -> flavor m = HOST -> forall res, exists res' found, @ask_again _ R _ E m res processes = Ok (res', found).
Proof.
  intros Hkeys Hm. induction processes as [|k l IH]; intros res; simpl; [eauto|].
  destruct (process_key res (pid k)) as [res1 live]. destruct (negb _); [apply IH|].
  destruct (executable res1 (pid k)) as [res2 [path|]]; [|apply IH].
  destruct (@matcher_lookup_total _ E _ m path Hkeys Hm) as (o & -> & _). simpl.
  destruct (IH res2) as (res3 & found & ->). simpl. eauto.
Qed.

Lemma decide_again_yields r new :
  keys_total -> flavor (apps new) = HOST ->
  ensures (decide_again r new) (fun x => exists res, x.1 = set_resolver res r).
Proof.
  intros Hkeys Hf. unfold decide_again.
  assert (exists res, r = set_resolver res r) as Hsame by (exists (resolver r); by destruct r).
  destruct (flows r) as [t|] eqn:Ht; [|done].
  destruct (negb _); [done|].
  destruct (ask_again_total (apps new) (tracked_processes t) Hkeys Hf (resolver r)) as (res & found & ->).
  simpl. eauto.
Qed.

Lemma set_policy_yields r new clock :
  keys_total -> router_wf r -> policy_wf new ->
  ensures (set_policy r new clock) (fun r' => router_wf r' /\ policy r' = new).
Proof.
  intros Hkeys Hr Hp. unfold set_policy. cbv zeta.
  set (r0 := match flows r with None => _ | Some _ => r end).
  assert (router_wf r0 /\ (policy_is_active new = true -> is_Some (flows r0))) as [Hr0 Ha].
  { unfold r0. destruct (flows r) as [t|] eqn:Ht; [rewrite Ht; by eauto|].
    destruct (policy_is_active new); [|done]. split; [|by eauto]. apply set_flows_wf; [|done].
    apply table_new_flows_wf. }
  clearbody r0. set (r1 := set_snapshot_taken None _).
  assert (router_wf r1 /\ flows r1 = flows r0) as [Hr1 Hf1].
  { split; [|done]. unfold r1. apply set_snapshot_wf, set_resolver_wf.
    apply set_decisions_wf; [apply cache_clear_wf, Hr0|].
    apply set_downlink_fragments_wf; [apply zsize_empty_fragments|].
    by apply set_uplink_fragments_wf; [apply zsize_empty_fragments|]. }
  clearbody r1. apply yields_bind.
  eapply yields_mono; [apply decide_again_yields; [done|apply Hp]|done|].
  intros [r2 again] [res Hr2]; cbn [fst] in *. subst r2. cbn beta iota.
  set (r3 := set_decisions _ _).
  assert (router_wf r3 /\ flows r3 = flows r0) as [Hr3 Hf3].
  { split; [|done]. unfold r3. apply set_decisions_wf; [|by apply set_resolver_wf].
    generalize (hash_iter again). intros l.
    assert (cache_wf (decisions (set_resolver res r1))) as Hc by apply Hr1. revert Hc.
    generalize (decisions (set_resolver res r1)). induction l as [|x l IH]; intros c Hc; simpl; [done|].
    by apply IH, cache_insert_wf. }
  apply yields_bind. eapply yields_mono; [by apply revise_flows_yields|done|].
  intros r4 (Hw & _ & _). simpl. split; [|done]. apply Hw; [done|]. by rewrite Hf3.
Qed.
End Methods.
