(* ===== verification/RouterWorld.v ===== *)
(** * Routed apps and the router's promise

    What the router may rely on of the host, and what follows for one flow of
    one app.  [HostView] is the documented contract of the resolver: answers
    from a view no older than its last refresh, empty after one that failed.
    [AppFlow] is a flow whose socket a process holds from some instant on;
    before it, a view may list anything for the flow: nobody, or another
    process that used the port.  Every reachable state of the router agrees
    with what the policy in force says of the flow's app, because its first
    packet is attributed from a view taken after the packet arrived. *)

From S2P Require Import Prelude Net Ip Flow FlowTable Nat AppKey Reset Owner Router RouterInv.
Open Scope Z_scope.

Section Lookup.
Context `{!Platform}.

Definition host_key (path : str) : str :=
  match HOST with MacOs => path | Windows => windows_key path | Linux => linux_key path end.

Definition lookup_of {V : Type} (m : AppMatcher V) (path : str) : option V := AppKey.apps m !! host_key path.

Lemma matcher_lookup_host {E V : Type} (m : AppMatcher V) path :
  keys_total -> flavor m = HOST -> @matcher_lookup _ V E m path = Ok (lookup_of m path).
Proof.
  unfold keys_total, matcher_lookup, lookup_of, host_key, app_key. intros Hk ->. by destruct HOST.
Qed.

Lemma inactive_lookup p path : policy_is_active p = false -> lookup_of (apps p) path = None.
Proof.
  unfold policy_is_active, matcher_is_empty, lookup_of. intros Ha. apply negb_false_iff, bool_decide_eq_true in Ha.
  by rewrite Ha, lookup_empty.
Qed.
End Lookup.

(** What the trait's documentation promises.  [view_since] is the last refresh of a resolver whose
    view is not empty: it answers from the system as it was at some instant since, and not at all
    once a refresh failed.  [watched] are the programs it may narrow [owner] to. *)
Class HostView (R : Type) `{!Platform} `{!OwnerResolver R} : Type := {
  view_since : R -> option Z;
  watched : R -> str -> bool;
  refresh_view : forall res now, view_since (refresh res now).1 =
    match (refresh res now).2 with None => Some now | Some _ => None end;
  empty_view : forall res k, view_since res = None -> (socket_owner res k).2 = None /\ (owner res k).2 = Unknown;
  watch_watches : forall (V : Type) res (m : AppMatcher V) path,
    watched (watch_programs res m) path = bool_decide (is_Some (lookup_of m path));
  process_key_pid : forall res p pk, (process_key res p).2 = Some pk -> pid pk = p;
  refresh_watched : forall res now, watched (refresh res now).1 = watched res;
  socket_owner_keeps : forall res k, view_since (socket_owner res k).1 = view_since res /\
    watched (socket_owner res k).1 = watched res;
  owner_keeps : forall res k, view_since (owner res k).1 = view_since res /\ watched (owner res k).1 = watched res;
  process_key_keeps : forall res p, view_since (process_key res p).1 = view_since res /\
    watched (process_key res p).1 = watched res;
  executable_keeps : forall res p, view_since (executable res p).1 = view_since res /\
    watched (executable res p).1 = watched res
}.

(** A TCP or UDP flow of an app: a process that runs the app's program, keeps its pid, and holds
    the flow's socket from [app_since] on, when the system's tables can be read.  A view taken
    since then lists it; of an older one nothing is known. *)
Class AppFlow (R : Type) `{!Platform} `{!OwnerResolver R} `{!HostView R} : Type := {
  app_flow : FlowKey;
  app_process : ProcessKey;
  app_program : str;
  app_since : Z;
  app_transport : transport app_flow <> IcmpEcho;
  tables_readable : forall res now, app_since <= now -> (refresh res now).2 = None;
  socket_listed : forall res t, view_since res = Some t -> app_since <= t ->
    (socket_owner res app_flow).2 = Some (pid app_process);
  owner_listed : forall res t, view_since res = Some t -> app_since <= t ->
    (owner res app_flow).2 = Process (pid app_process)
    \/ ((owner res app_flow).2 = Unwatched /\ watched res app_program = false);
  process_runs : forall res, (process_key res (pid app_process)).2 = Some app_process;
  program_runs : forall res, (executable res (pid app_process)).2 = Some app_program
}.

Section Agreement.
Context {R : Type} `{!Platform} `{!OwnerResolver R} `{!HostView R} `{!AppFlow R}.

(** The route a policy gives the app. *)
Definition app_route (p : Policy) : option Z := lookup_of (apps p) app_program.

Lemma inactive_route p : policy_is_active p = false -> app_route p = None.
Proof. apply inactive_lookup. Qed.

(** What the tracked flow may be under [p]: bound to a route only if it is its app's, to main only
    if its app has none. *)
Definition agrees (p : Policy) (bound : Binding) (proc : option ProcessKey) : Prop :=
  (forall pk, proc = Some pk -> pk = app_process) /\
  match bound with
  | Main => app_route p = None
  | Route route => app_route p = Some route /\ is_Some proc
  | Blocked | Reset | Pending => True
  end.

(** What the flow seen for the first time takes under [p]: its app's route, or main when it has
    none; but a TCP connection already under way is reset rather than carried by a route it was
    not opened through. *)
Definition expected (p : Policy) (under_way : bool) : Binding :=
  match app_route p with
  | None => Main
  | Some route => if under_way then Reset else Route route
  end.

(** What a caller that looked the owner up may answer. *)
Definition app_answer (p : Policy) (o : SocketOwner) : Prop :=
  o = Process (pid app_process) \/ (o = Unwatched /\ app_route p = None).

(** The view, when it is as recent as the socket. *)
Definition view_lists (res : R) : Prop := exists t, view_since res = Some t /\ app_since <= t.

Definition tracked_agrees (p : Policy) (k : FlowKey) (v : Tracked) : Prop :=
  k = app_flow -> agrees p (binding v) (process v).

Record honest_state (r : Router R) : Prop := {
  hs_wf : router_wf r;
  hs_watch : forall route, app_route (policy r) = Some route -> watched (resolver r) app_program = true;
  hs_cache : forall d, cache_get (decisions r) app_process = Some d -> d = app_route (policy r);
  hs_view : forall t, snapshot_taken r = Some t -> app_since <= t -> view_lists (resolver r);
  hs_flows : forall t, flows r = Some t -> map_Forall (fun k e => tracked_agrees (policy r) k (value e)) (entries t)
}.

(** Two resolvers with the same view of the same programs. *)
Definition same_view (a b : R) : Prop := view_since a = view_since b /\ watched a = watched b.

Lemma set_resolver_honest (res : R) (r : Router R) :
  same_view res (resolver r) -> honest_state r -> honest_state (set_resolver res r).
Proof.
  intros [Hv Hw] [Hwf Hwa Hc Hs Hf]. split; cbn; try done; [by apply set_resolver_wf|by rewrite Hw|].
  intros t Ht Hle. destruct (Hs t Ht Hle) as (t' & Hv' & ?). exists t'. by rewrite Hv.
Qed.
End Agreement.

Section World.
Context `{!HashOrder} `{!Platform} {R : Type} `{!OwnerResolver R} `{!HostView R} `{!AppFlow R} {E : Type}.
Implicit Types r : Router R.

Abbreviation ensures m Q := (yields m (fun _ : E => False) Q).

(** Attribution of a flow of [k]: the state is still honest, and if the flow is the app's its
    binding agrees, and is the one expected when the search was [exact]. *)
Definition attribution_honest r (k : FlowKey) (under_way : bool) (exact : Prop)
    (x : Router R * (Binding * option ProcessKey)) : Prop :=
  (forall route, app_route (policy r) = Some route -> watched (resolver x.1) app_program = true) /\
  (forall d, cache_get (decisions x.1) app_process = Some d -> d = app_route (policy r)) /\
  (forall t, snapshot_taken x.1 = Some t -> app_since <= t -> view_lists (resolver x.1)) /\
  (k = app_flow -> agrees (policy r) x.2.1 x.2.2 /\ (exact -> x.2.1 = expected (policy r) under_way)).

Lemma cache_insert_get {V : Type} (c : DecisionCache V) p d pk d' :
  cache_get (cache_insert c p d) pk = Some d' -> (pk = p /\ d' = d) \/ cache_get c pk = Some d'.
Proof.
  unfold cache_get, cache_insert. cbn [AppKey.decisions]. cbv zeta.
  destruct (decide (p = pk)) as [->|Hne]; [rewrite lookup_insert_eq; intros [= <-]; by left|].
  rewrite lookup_insert_ne by done. destruct (_ && _); [done|auto].
Qed.

(** A state as honest as [r], with a binding the policy in force expects of the app. *)
Lemma attribution_of r r' k under_way (exact : Prop) bound proc :
  honest_state r' -> policy r' = policy r ->
  (k = app_flow -> agrees (policy r) bound proc /\ (exact -> bound = expected (policy r) under_way)) ->
  attribution_honest r k under_way exact (r', (bound, proc)).
Proof. intros [_ Hw Hc Hs _] Hp Hk. rewrite Hp in *. by split_and!. Qed.

Lemma counters_honest c r : honest_state r -> honest_state (set_counters c r).
Proof. intros []. split; try done. by apply set_counters_wf. Qed.

Lemma decide_process_honest r k under_way p pk :
  keys_total -> honest_state r -> pid pk = p -> (k = app_flow -> pk = app_process) ->
  ensures (decide_process r under_way p pk) (attribution_honest r k under_way True).
Proof.
  intros Hkeys Hh Hp Hk.
  assert (forall r' route, honest_state r' -> policy r' = policy r -> (pk = app_process -> route = app_route (policy r)) ->
    ensures (match route with
      | None => Ok (r', (Main, Some pk))
      | Some route => if under_way then Ok (set_counters (count_reset (counters r')) r', (Reset, Some pk))
                      else Ok (r', (Route route, Some pk))
      end) (attribution_honest r k under_way True)) as Hbind.
  { intros r' route Hh' Hpol Hroute.
    assert (forall bound, (k = app_flow -> bound = expected (policy r) under_way) ->
      k = app_flow -> agrees (policy r) bound (Some pk) /\ (True -> bound = expected (policy r) under_way)) as Hag.
    { intros bound Hb Hf. specialize (Hb Hf). specialize (Hk Hf). split; [|done]. split; [by intros ? [= <-]|].
      subst bound. unfold expected. destruct (app_route (policy r)); [by destruct under_way|done]. }
    destruct route as [route|]; [destruct under_way|]; (apply attribution_of; [first [done|by apply counters_honest]|done|];
      apply Hag; intros Hf; unfold expected; by rewrite <- (Hroute (Hk Hf))). }
  unfold decide_process. destruct (cache_get (decisions r) pk) as [route|] eqn:Hcg.
  { apply Hbind; [done|done|]. intros ->. by apply Hh. }
  pose proof (executable_keeps (resolver r) p) as Hew.
  assert (pk = app_process -> (executable (resolver r) p).2 = Some app_program) as He
    by (intros ->; rewrite <- Hp; apply program_runs).
  destruct (executable (resolver r) p) as [res path]; cbn [fst snd] in *.
  pose proof (set_resolver_honest res r Hew Hh) as Hh1.
  destruct path as [path|].
  - cbn [policy set_resolver]. rewrite matcher_lookup_host by (try done; apply Hh). rewrite bind_Ok.
    assert (pk = app_process -> lookup_of (apps (policy r)) path = app_route (policy r)) as Hr.
    { intros Hpk. unfold app_route. specialize (He Hpk). by injection He as ->. }
    apply Hbind; [|done|done]. destruct Hh1 as [Hwf1 Hw1 Hc1 Hs1 Hf1]. split; cbn in *; try done.
    + by apply set_decisions_wf; [apply cache_insert_wf, Hwf1|].
    + intros d [[<- ->]|Hg]%cache_insert_get; [by apply Hr|by apply Hc1].
  - assert (k <> app_flow) as Hne by (intros Hf; by specialize (He (Hk Hf))).
    destruct under_way; by apply attribution_of.
Qed.

Lemma router_decide_honest r k under_way o :
  keys_total -> honest_state r -> (k = app_flow -> app_answer (policy r) o) ->
  ensures (router_decide r under_way o) (attribution_honest r k under_way True).
Proof.
  intros Hkeys Hh Ho. unfold router_decide.
  destruct o as [p| |].
  - pose proof (process_key_keeps (resolver r) p) as Hkw. pose proof (process_key_pid (resolver r) p) as Hpid.
    assert (k = app_flow -> p = pid app_process /\ (process_key (resolver r) p).2 = Some app_process) as Hk.
    { intros Hf. destruct (Ho Hf) as [[= ->]|[? _]]; [|done]. split; [done|]. apply process_runs. }
    destruct (process_key (resolver r) p) as [res pk]; cbn [fst snd] in *.
    pose proof (set_resolver_honest res r Hkw Hh) as Hh1. destruct pk as [pk|].
    + eapply yields_mono; [eapply (decide_process_honest (set_resolver res r) k); try done|done|].
      * by apply Hpid.
      * intros Hf. destruct (Hk Hf) as [_ Heq]. by injection Heq.
      * done.
    + apply attribution_of; [by apply counters_honest|done|]. intros Hf. by destruct (Hk Hf).
  - apply attribution_of; [done|done|]. intros Hf. destruct (Ho Hf) as [?|[_ Hn]]; [done|].
    unfold agrees, expected. by rewrite Hn.
  - apply attribution_of; [by apply counters_honest|done|]. intros Hf. by destruct (Ho Hf) as [?|[? _]].
Qed.

(** A view read for a packet that arrived once the socket was open lists it. *)
Lemma ensure_fresh_view_honest r arrived clock :
  honest_state r -> honest_state (ensure_fresh_view r arrived clock) /\
    policy (ensure_fresh_view r arrived clock) = policy r /\
    (app_since <= arrived <= clock -> view_lists (resolver (ensure_fresh_view r arrived clock))).
Proof.
  intros Hh. pose proof (ensure_fresh_view_wf r arrived clock (hs_wf _ Hh)) as Hwf. revert Hwf.
  pose proof Hh as [_ Hw Hc Hs Hf]. unfold ensure_fresh_view.
  destruct (snapshot_taken r) as [taken|] eqn:Hst; [destruct (Z.leb_spec arrived taken)|].
  { intros _. split_and!; [done..|]. intros [? _]. apply (Hs taken); [done|lia]. }
  all: pose proof (refresh_watched (resolver r) clock) as Hrw; pose proof (refresh_view (resolver r) clock) as Hrv.
  all: pose proof (tables_readable (resolver r) clock) as Hrd.
  all: destruct (refresh (resolver r) clock) as [res err]; cbn [fst snd] in *.
  all: assert (app_since <= clock -> view_lists res) as Hl
    by (intros Hle; exists clock; by rewrite Hrv, (Hrd Hle)).
  all: intros Hwf; split_and!; [|done|cbn; intros; apply Hl; lia].
  all: split; cbn; try done; [by rewrite Hrw|]; intros t [= <-] Hle; by apply Hl.
Qed.

Lemma attribute_honest r k opening arrived clock :
  keys_total -> honest_state r -> (k = app_flow -> app_since <= arrived <= clock) ->
  ensures (attribute r k opening arrived clock)
    (attribution_honest r k (bool_decide (transport k = Tcp) && negb opening) (deferred r = false)).
Proof.
  intros Hkeys Hh Hk. unfold attribute. set (under_way := _ && _).
  pose proof (counters_honest (count_new_flow (counters r)) r Hh) as Hh0.
  destruct (bool_decide_reflect (transport k = IcmpEcho)) as [He|He].
  { apply attribution_of; [done|done|]. intros ->. by destruct app_transport. }
  cbn [deferred set_counters]. destruct (deferred r).
  { apply attribution_of; [|done|by intros _; split].
    destruct Hh0. split; try done. by apply set_queries_wf. }
  destruct (ensure_fresh_view_honest _ arrived clock Hh0) as (Hh1 & Hp1 & Hl). cbv zeta.
  set (r1 := ensure_fresh_view _ _ _) in *. change (policy r1 = policy r) in Hp1. clearbody r1.
  assert (forall res o, same_view res (resolver r1) -> (k = app_flow -> app_answer (policy r) o) ->
    ensures (router_decide (set_resolver res r1) under_way o)
      (attribution_honest r k under_way (false = false))) as Hdec.
  { intros res o Hres Ho. eapply yields_mono; [apply (router_decide_honest _ k)|done|].
    - done.
    - by apply set_resolver_honest.
    - cbn. by rewrite Hp1.
    - intros x. unfold attribution_honest. cbn. rewrite Hp1. intros (? & ? & ? & Hx). split_and!; try done.
      intros Hf. destruct (Hx Hf). split; auto. }
  destruct under_way.
  - pose proof (socket_owner_keeps (resolver r1) k) as Hsw.
    assert (k = app_flow -> (socket_owner (resolver r1) k).2 = Some (pid app_process)) as Hso.
    { intros Hf. destruct (Hl (Hk Hf)) as (t & Hv & Ht). rewrite Hf. by apply (socket_listed _ t). }
    destruct (socket_owner (resolver r1) k) as [res p]; cbn [fst snd] in *. apply Hdec; [done|].
    intros Hf. rewrite (Hso Hf). by left.
  - pose proof (owner_keeps (resolver r1) k) as How.
    assert (k = app_flow -> app_answer (policy r) (owner (resolver r1) k).2) as Hoh.
    { intros Hf. destruct (Hl (Hk Hf)) as (t & Hv & Ht). rewrite Hf.
      destruct (owner_listed _ t Hv Ht) as [->|[-> Hu]]; [by left|right]. split; [done|].
      rewrite <- Hp1. destruct (app_route (policy r1)) as [route|] eqn:Hr; [|done].
      by rewrite (hs_watch _ Hh1 route Hr) in Hu. }
    destruct (owner (resolver r1) k) as [res o]; cbn [fst snd] in *. by apply Hdec.
Qed.

(** *** Entries *)

(** Every tracked flow's value satisfies [P]. *)
Definition flows_all (P : FlowKey -> Tracked -> Prop) (o : option (FlowTable Tracked)) : Prop :=
  forall t, o = Some t -> map_Forall (fun k e => P k (value e)) (entries t).

Lemma lookup_flow_all P r k d flags now :
  flows_all P (flows r) -> flows_all P (flows (lookup_flow r k d flags now).1) /\
    (forall v, (lookup_flow r k d flags now).2 = Some v -> P k v).
Proof.
  intros Hall. unfold lookup_flow. destruct (flows r) as [t|] eqn:Ht; [|by cbn; rewrite Ht].
  unfold lookup_mut. specialize (Hall t eq_refl). destruct (entries t !! k) as [e|] eqn:He.
  - destruct (is_expired _ _ _); cbn; [by split; [intros ? [= <-]|]|]. split.
    + intros t' [= <-]. cbn. apply map_Forall_insert_2; [by apply (Hall k e)|done].
    + intros v [= <-]. by apply (Hall k e).
  - cbn. by split; [intros ? [= <-]|].
Qed.

Lemma write_value_all (P : FlowKey -> Tracked -> Prop) o k f :
  flows_all P o -> (forall v, P k v -> P k (f v)) -> flows_all P (write_value k f <$> o).
Proof.
  intros Hall Hf t'. destruct o as [t|]; [|done]. intros [= <-]. specialize (Hall t eq_refl).
  intros k' e'. unfold write_value. cbn. rewrite lookup_alter_Some.
  intros [(-> & e & He & ->)|[_ He]]; [apply Hf, (Hall _ _ He)|by apply (Hall k')].
Qed.

Lemma sub_entries_all (P : FlowKey -> Tracked -> Prop) (f : FlowTable Tracked -> FlowTable Tracked) o :
  (forall t, entries (f t) ⊆ entries t) -> flows_all P o -> flows_all P (f <$> o).
Proof.
  intros Hf Hall t'. destruct o as [t|]; [|done]. intros [= <-] k e He. eapply (Hall t eq_refl).
  eapply lookup_weaken; [exact He|apply Hf].
Qed.

Lemma insert_all (P : FlowKey -> Tracked -> Prop) t k v d flags now t' :
  table_wf t -> flows_all P (Some t) -> P k v ->
  @insert_flow Tracked _ E t k v d flags now = Ok t' -> flows_all P (Some t').
Proof.
  intros Hw Hall Hv Heq. destruct (@insert_spec Tracked _ E t k v d flags now Hw) as (m & Hm & Hsub & _).
  rewrite Hm in Heq. injection Heq as <-. intros t' [= <-]. cbn.
  apply map_Forall_insert_2; [done|]. intros k' e He. eapply (Hall t eq_refl). by eapply lookup_weaken.
Qed.

(** *** The flow's binding *)

(** The binding of a packet of the app's flow is what the policy in force says of the app. *)
Definition binding_agrees (p : Policy) (bound : Binding) : Prop :=
  match bound with
  | Main => app_route p = None
  | Route route => app_route p = Some route
  | Blocked | Reset | Pending => True
  end.

Lemma agrees_binding p bound proc : agrees p bound proc -> binding_agrees p bound.
Proof. unfold agrees, binding_agrees. destruct bound; naive_solver. Qed.

Lemma attributed_honest r k flags s arrived clock :
  keys_total -> honest_state r -> flow_wf k -> segment_wf s -> (k = app_flow -> app_since <= arrived <= clock) ->
  ensures (attributed r k flags s arrived clock)
    (fun x => honest_state x.1 /\ policy x.1 = policy r /\
      (k = app_flow -> binding_agrees (policy r) x.2 /\
        (policy_is_active (policy r) = true -> deferred r = false ->
         x.2 = expected (policy r) (bool_decide (transport k = Tcp) && negb (is_opening k flags))))).
Proof.
  intros Hkeys Hh Hk Hs Hti. pose proof Hh as [Hwf Hw Hc Hv Hf].
  unfold attributed. destruct (policy_is_active (policy r)) eqn:Hact; cbn [negb].
  2: { simpl. split_and!; [|by destruct (is_opening k flags)|intros _; split; [by apply inactive_route|congruence]].
       destruct (is_opening k flags); [|done]. split; cbn; try done.
       - apply (map_flows_wf (fun t => table_remove t k)); [|done]. intros. by apply table_remove_wf.
       - apply (sub_entries_all (tracked_agrees (policy r)) (fun t => table_remove t k)); [|exact Hf].
         intros t. apply delete_subseteq. }
  apply yields_bind. eapply yields_mono; [apply yields_and; [by apply attribute_yields|by apply attribute_honest]|done|].
  intros [r1 [bound proc]] [[Hr1 Hkeep] (Hw1 & Hc1 & Hv1 & Hag)]; cbn [fst snd] in *. cbn beta iota.
  destruct Hkeep as (Hp1 & Hf1 & _).
  destruct (rw_active _ Hr1) as [t Ht]; [by rewrite Hp1|]. rewrite Ht.
  set (v := mkTracked bound proc _).
  destruct (@insert_wf _ E (flow_capacity r1) t k v Uplink flags arrived) as (t' & Heq & Ht' & Hpk);
    [by apply Hr1|done| |].
  { destruct s as [g|]; [|apply default_side_wf]. apply follow_wf; [apply default_side_wf|by apply Hs]. }
  rewrite Heq. simpl. split_and!; [|done|intros Hk1; destruct (Hag Hk1); split; [by eapply agrees_binding|auto]].
  split; cbn; rewrite ?Hp1; try done.
  - by apply set_flows_wf.
  - apply (insert_all (tracked_agrees (policy r)) t k v Uplink flags arrived t'); try done.
    + destruct (rw_flows _ Hr1 t Ht) as [? _]. done.
    + rewrite <- Ht, Hf1. exact Hf.
    + intros Hk1. by apply Hag.
Qed.

Lemma lookup_flow_honest r k d flags now :
  honest_state r -> honest_state (lookup_flow r k d flags now).1 /\
    policy (lookup_flow r k d flags now).1 = policy r /\ deferred (lookup_flow r k d flags now).1 = deferred r /\
    (forall v, (lookup_flow r k d flags now).2 = Some v -> tracked_agrees (policy r) k v).
Proof.
  intros [Hwf Hw Hc Hv Hf]. destruct (lookup_flow_wf r k d flags now Hwf) as (Hr1 & Hk1 & _).
  destruct (lookup_flow_all (tracked_agrees (policy r)) r k d flags now Hf) as [Hf1 Hv1].
  destruct Hk1 as (Hp1 & _ & _ & _ & _ & _ & Hd1). split_and!; [|done|done|exact Hv1].
  assert (resolver (lookup_flow r k d flags now).1 = resolver r
    /\ decisions (lookup_flow r k d flags now).1 = decisions r
    /\ snapshot_taken (lookup_flow r k d flags now).1 = snapshot_taken r) as (Hres & Hdec & Hst).
  { unfold lookup_flow. destruct (flows r); [|done]. by destruct (lookup_mut _ _ _ _ _). }
  split; rewrite ?Hp1, ?Hres, ?Hdec, ?Hst; done.
Qed.

Lemma flow_binding_honest r k flags s arrived clock :
  keys_total -> honest_state r -> flow_wf k -> segment_wf s -> (k = app_flow -> app_since <= arrived <= clock) ->
  ensures (flow_binding r k flags s arrived clock)
    (fun x => honest_state x.1 /\ policy x.1 = policy r /\ (k = app_flow -> binding_agrees (policy r) x.2)).
Proof.
  intros Hkeys Hh Hk Hs Hti. rewrite flow_binding_eq. cbv zeta.
  destruct (lookup_flow_honest r k Uplink flags arrived Hh) as (Hh1 & Hp1 & _ & Hv).
  destruct (lookup_flow r k Uplink flags arrived) as [r1 found]; cbn [fst snd] in *.
  assert (ensures (attributed r1 k flags s arrived clock)
    (fun x => honest_state x.1 /\ policy x.1 = policy r /\ (k = app_flow -> binding_agrees (policy r) x.2))) as Hnew.
  { rewrite <- Hp1. eapply yields_mono; [by apply attributed_honest|done|]. naive_solver. }
  destruct found as [tracked|]; [|exact Hnew]. destruct (stands _ _ _); [|exact Hnew].
  specialize (Hv tracked eq_refl).
  destruct s as [g|]; simpl; (split_and!; [|done|by intros Hk1; eapply agrees_binding, Hv]); [|done].
  destruct Hh1 as [Hwf1 Hw1 Hc1 Hs1 Hf1]. split; cbn; try done.
  - apply (map_flows_wf (write_value k _)); [|done]. intros t Ht. apply write_value_wf; [done|].
    intros v Hside. cbn. by apply follow_wf, Hs.
  - apply (write_value_all (tracked_agrees (policy r1))); [exact Hf1|done].
Qed.

(** *** The methods *)

(** A state that differs from an honest one in nothing honesty is about. *)
Lemma honest_same r r' :
  honest_state r -> router_wf r' -> policy r' = policy r -> resolver r' = resolver r ->
  decisions r' = decisions r -> snapshot_taken r' = snapshot_taken r -> flows r' = flows r -> honest_state r'.
Proof. intros [? ? ? ? ?] Hwf Hp Hr Hd Hs Hf. split; rewrite ?Hp, ?Hr, ?Hd, ?Hs, ?Hf; done. Qed.

Lemma sweep_honest r now : honest_state r -> honest_state (sweep r now).
Proof.
  intros Hh. pose proof (sweep_wf r now (hs_wf _ Hh)) as Hwf. pose proof Hh as [_ Hw Hc Hv Hf]. revert Hwf.
  unfold sweep. destruct (match last_sweep r with Some _ => _ | None => _ end); [done|]. intros Hwf.
  split; cbn; try done. apply (sub_entries_all (tracked_agrees (policy r)) (fun t => expire t now)); [|exact Hf].
  intros t. apply expire_subseteq.
Qed.

(** What the policy says of a verdict on a packet of the app's flow. *)
Definition verdict_agrees (p : Policy) (v : Verdict) : Prop :=
  match v with
  | VMain => app_route p = None
  | VRoute route => app_route p = Some route
  | VDrop => True
  | VHold k => k = app_flow
  end.

Lemma carried_agrees r bound p p' v :
  @carried R E r bound p p' v -> binding_agrees (policy r) bound -> verdict_agrees (policy r) v.
Proof.
  unfold carried. destruct bound as [|route| | |]; simpl; try by intros [-> _].
  destruct (translation r route p); by intros [-> _].
Qed.

Lemma answer_reset_same r k bound s :
  router_wf r -> flow_wf k -> segment_wf s ->
  ensures (answer_reset r k bound s) (fun r' => policy r' = policy r /\ resolver r' = resolver r
    /\ decisions r' = decisions r /\ snapshot_taken r' = snapshot_taken r /\ flows r' = flows r).
Proof.
  intros Hr Hk Hs. unfold answer_reset. destruct (_ && _); [|done]. destruct s as [g|]; [|done].
  apply yields_bind. eapply yields_mono; [apply answer_notice; [done|by apply Hs]|done|].
  by intros [p|] _.
Qed.

Lemma apply_uplink_same r bound p x :
  @apply_uplink R E r bound p = Ok x -> policy x.1.1 = policy r /\ resolver x.1.1 = resolver r
    /\ decisions x.1.1 = decisions r /\ snapshot_taken x.1.1 = snapshot_taken r /\ flows x.1.1 = flows r.
Proof.
  unfold apply_uplink. destruct bound as [|route| | |]; try by intros [= <-].
  destruct (route_state r route) as [[|a|]|]; try by intros [= <-].
  destruct (locate p) as [l| |]; try by intros [= <-].
  intros (s & _ & Hx)%bind_ok. revert Hx. destruct (negb _); [by intros [= <-]|].
  destruct (for_family_of a s) as [new|]; [|by intros [= <-]].
  intros ([p' [e|]] & _ & Hx)%bind_ok; by injection Hx as <-.
Qed.

(** When a packet reaches the router: its clock is read after the packet arrived, and a packet of
    the app's flow arrives once the socket that sent it is open. *)
Definition app_call (p : bytes) (arrived clock : Z) : Prop :=
  arrived <= clock /\ forall flags frag, classify p Uplink = Ok (Flow app_flow flags frag) -> app_since <= arrived.

Lemma uplink_honest r p arrived clock :
  keys_total -> honest_state r -> bytes_ok p -> app_call p arrived clock ->
  ensures (uplink r p arrived clock) (fun x => honest_state x.1.1 /\ policy x.1.1 = policy r /\
    forall flags frag, classify p Uplink = Ok (Flow app_flow flags frag) -> verdict_agrees (policy r) x.2).
Proof.
  intros Hkeys Hh Hb [Hclock Hcall]. unfold uplink. destruct (router_is_active r) eqn:Hact; cbn [negb].
  2: { simpl. split_and!; try done. intros _ _ _. apply inactive_route.
       unfold router_is_active in Hact. by apply orb_false_iff in Hact as [? _]. }
  cbv zeta. pose proof (sweep_honest r arrived Hh) as Hh0. pose proof (sweep_policy r arrived) as Hp0.
  set (r0 := sweep r arrived) in *. clearbody r0.
  assert (forall r1 bound, honest_state r1 -> policy r1 = policy r ->
    ensures (apply_uplink r1 bound p) (fun x => honest_state x.1.1 /\ policy x.1.1 = policy r /\
      (binding_agrees (policy r) bound -> verdict_agrees (policy r) x.2))) as Happly.
  { intros r1 bound Hh1 Hp1. pose proof (fun x => apply_uplink_same r1 bound p x) as Hsame.
    pose proof (@apply_uplink_yields _ R E r1 bound p (hs_wf _ Hh1) Hb) as Hy.
    destruct (apply_uplink r1 bound p) as [x| |]; try done. destruct (Hsame x eq_refl) as (Hp & Hr & Hd & Hs & Hf).
    destruct Hy as (Hwf & _ & _ & Hc & _). split_and!; [by eapply honest_same|congruence|].
    rewrite <- Hp1. by eapply carried_agrees. }
  pose proof (classify_yields p Uplink Hb) as Hc.
  destruct (classify p Uplink) as [[key flags frag|frag|key|]| |] eqn:Hcl; try done.
  - destruct Hc as [Hk _]. apply yields_bind.
    assert (key = app_flow -> app_since <= arrived <= clock) as Hti
      by (intros ->; split; [by eapply Hcall|done]).
    destruct (@segment_spec E p Hb) as (o & Ho & Hso).
    assert (exists o, (if bool_decide (transport key = Tcp) then @segment E p else Ok None) = Ok o
      /\ segment_wf o) as (s & -> & Hs).
    { destruct (bool_decide _); [by exists o|]. by exists None. }
    cbn [yields]. apply yields_bind. eapply yields_mono; [by apply flow_binding_honest|done|].
    intros [r1 bound] (Hh1 & Hp1 & Hag); cbn [fst snd] in *. cbn beta iota. rewrite Hp0 in *.
    set (r2 := match frag with Some _ => _ | None => r1 end).
    assert (honest_state r2 /\ policy r2 = policy r) as [Hh2 Hp2].
    { unfold r2. destruct frag; [|done]. split; [|done]. eapply honest_same; try done.
      apply set_uplink_fragments_wf; [|apply Hh1]. apply remember_wf, Hh1. }
    destruct (bool_decide (bound = Pending)).
    { simpl. split_and!; try done. by intros ? ? [= <- _ _]. }
    fold (@answer_reset R E r2 key bound s). apply yields_bind.
    eapply yields_mono; [apply yields_and; [apply answer_reset_yields; [apply Hh2|done..]
      |apply answer_reset_same; [apply Hh2|done..]]|done|].
    intros r3 [(Hwf3 & _ & _) (Hp3 & Hr3 & Hd3 & Hs3 & Hf3)].
    eapply yields_mono; [apply (Happly r3 bound); [by eapply honest_same|congruence]|done|].
    intros x (? & ? & Hv). split_and!; try done. intros ? ? [= -> _ _]. auto.
  - eapply yields_mono; [by apply Happly|done|]. intros x (? & ? & _). by split_and!.
  - assert (honest_state (dropped r0)) as Hd0.
    { eapply honest_same; try done. apply dropped_wf, Hh0. }
    by destruct (router_peek r0 key arrived) as [[]|].
Qed.

Lemma downlink_same r route p now x :
  @downlink _ R E r route p now = Ok x ->
  policy x.1.1 = policy r /\ resolver x.1.1 = resolver r /\ decisions x.1.1 = decisions r /\
  snapshot_taken x.1.1 = snapshot_taken r /\
  (flows x.1.1 = flows r \/ exists o flags, flows x.1.1 = flows (lookup_flow r o Downlink flags now).1).
Proof.
  assert (forall r1 m x, ('(packet, error) ← @rewrite_destination E p m;
      match error with
      | Some _ => Ok (dropped r1, packet, DDrop)
      | None => Ok (set_counters (count_routed (counters r1)) r1, packet, Deliver)
      end) = Ok x -> policy x.1.1 = policy r1 /\ resolver x.1.1 = resolver r1 /\
      decisions x.1.1 = decisions r1 /\ snapshot_taken x.1.1 = snapshot_taken r1 /\ flows x.1.1 = flows r1) as Hdel.
  { intros r1 m y ([p' [e|]] & _ & Hx)%bind_ok; by injection Hx as <-. }
  assert (forall x : Router R * bytes * Delivery, (policy x.1.1 = policy r /\ resolver x.1.1 = resolver r /\
      decisions x.1.1 = decisions r /\ snapshot_taken x.1.1 = snapshot_taken r /\ flows x.1.1 = flows r) ->
    policy x.1.1 = policy r /\ resolver x.1.1 = resolver r /\ decisions x.1.1 = decisions r /\
    snapshot_taken x.1.1 = snapshot_taken r /\
    (flows x.1.1 = flows r \/ exists o flags, flows x.1.1 = flows (lookup_flow r o Downlink flags now).1)) as Hsame.
  { intros y (? & ? & ? & ? & ?). split_and!; auto. }
  unfold downlink. destruct (negb (policy_is_active (policy r))); [intros [= <-]; by apply (Hsame (r, p, DDrop))|].
  destruct (route_state r route) as [[|a|]|]; try (intros [= <-]; by apply (Hsame (dropped r, p, DDrop))).
  destruct (classify p Downlink) as [[key flags frag|frag|key|]| |]; try done;
    try (intros [= <-]; by apply (Hsame (dropped r, p, DDrop))).
  - destruct (original_flow r key a) as [[o m]|]; [|intros [= <-]; by apply (Hsame (dropped r, p, DDrop))].
    destruct (negb _); [intros [= <-]; by apply (Hsame (dropped r, p, DDrop))|].
    intros Hx%Hdel. assert ((lookup r o Downlink flags now).1 = (lookup_flow r o Downlink flags now).1) as Hl.
    { unfold lookup. by destruct (lookup_flow _ _ _ _ _). }
    rewrite Hl in Hx.
    assert (policy (lookup_flow r o Downlink flags now).1 = policy r
      /\ resolver (lookup_flow r o Downlink flags now).1 = resolver r
      /\ decisions (lookup_flow r o Downlink flags now).1 = decisions r
      /\ snapshot_taken (lookup_flow r o Downlink flags now).1 = snapshot_taken r) as (E1 & E2 & E3 & E4).
    { unfold lookup_flow. destruct (flows r); [|done]. by destruct (lookup_mut _ _ _ _ _). }
    destruct frag; cbn in Hx; destruct Hx as (-> & -> & -> & -> & Hf); split_and!; try done;
      right; by exists o, flags.
  - destruct (for_family_of (main (policy r)) (fk_dst frag)) as [m|];
      [|intros [= <-]; by apply (Hsame (dropped r, p, DDrop))].
    destruct (negb _); [intros [= <-]; by apply (Hsame (dropped r, p, DDrop))|].
    intros Hx%Hdel. by apply Hsame.
  - destruct (original_flow r key a) as [[o m]|]; [|intros [= <-]; by apply (Hsame (dropped r, p, DDrop))].
    destruct (negb _); [intros [= <-]; by apply (Hsame (dropped r, p, DDrop))|].
    intros Hx%Hdel. by apply Hsame.
Qed.

Lemma downlink_honest r route p now x :
  honest_state r -> bytes_ok p -> @downlink _ R E r route p now = Ok x ->
  honest_state x.1.1 /\ policy x.1.1 = policy r.
Proof.
  intros Hh Hb Hx. pose proof (@downlink_yields _ _ R E r route p now (hs_wf _ Hh) Hb) as Hy.
  rewrite Hx in Hy. destruct Hy as (Hwf & _). destruct (downlink_same _ _ _ _ _ Hx) as (Hp & Hr & Hd & Hs & Hf).
  split; [|done]. pose proof Hh as [_ Hw Hc Hv Hfl]. split; rewrite ?Hp, ?Hr, ?Hd, ?Hs; try done.
  destruct Hf as [->|(o & flags & ->)]; [done|].
  by apply (lookup_flow_all (tracked_agrees (policy r)) r o Downlink flags now Hfl).
Qed.

Lemma complete_honest r q o now :
  keys_total -> honest_state r -> (q_flow q = app_flow -> app_answer (policy r) o) ->
  ensures (complete r q o now) (fun r' => honest_state r' /\ policy r' = policy r).
Proof.
  intros Hkeys Hh Ho. pose proof (@complete_yields _ R _ E r q o now Hkeys (hs_wf _ Hh)) as Hy. revert Hy.
  unfold complete. destruct (bool_decide _); cbn [negb]; [|done]. intros Hy.
  pose proof (router_decide_honest r (q_flow q) (q_under_way q) o Hkeys Hh Ho) as Hd.
  pose proof (@router_decide_yields _ R _ E r (q_under_way q) o Hkeys (hs_wf _ Hh)) as Hk.
  destruct (router_decide r (q_under_way q) o) as [[r1 [bound proc]]| |]; try done.
  cbn in Hy, Hk, Hd |- *. destruct Hy as [Hwf Hp]. split; [|done].
  destruct Hk as [_ (Hp1 & Hf1 & _)]. destruct Hd as (Hw & Hc & Hv & Hag). cbn in Hag.
  split; cbn; rewrite ?Hp1; try done. rewrite Hf1.
  assert (flows_all (tracked_agrees (policy r)) (flows r)) as Hall by exact (hs_flows _ Hh).
  intros t'. destruct (flows r) as [t|]; [|done]. intros [= <-] k e. unfold write_value. cbn.
  rewrite lookup_alter_Some. intros [(<- & e0 & He & ->)|[_ He]]; [|by apply (Hall t eq_refl k)].
  intros Hk1. by apply Hag.
Qed.

Lemma set_route_state_honest r route s :
  state_wf s -> honest_state r -> honest_state (set_route_state r route s).
Proof.
  intros Hs Hh. pose proof (set_route_state_wf r route s Hs (hs_wf _ Hh)) as Hwf. revert Hwf.
  unfold set_route_state. destruct (route_state r route); [|done]. intros Hwf.
  destruct Hh as [_ Hw Hc Hv Hf]. by split.
Qed.

(** *** A new policy *)

Lemma elem_of_tracked_processes (t : FlowTable Tracked) k e pk :
  entries t !! k = Some e -> process (value e) = Some pk -> pk ∈ tracked_processes t.
Proof.
  intros He Hp. unfold tracked_processes. apply list_elem_of_fmap. exists (pk, ()). split; [done|].
  apply elem_of_hash_iter, elem_of_list_to_map_1'.
  - intros y Hy. by destruct y.
  - apply list_elem_of_fmap. exists pk. split; [done|]. apply list_elem_of_omap. exists (value e). split; [|done].
    unfold values. apply list_elem_of_fmap. exists (k, e). split; [done|]. by apply elem_of_hash_iter.
Qed.

Lemma tracked_processes_elem (t : FlowTable Tracked) pk :
  pk ∈ tracked_processes t -> exists k e, entries t !! k = Some e /\ process (value e) = Some pk.
Proof.
  unfold tracked_processes. intros ([pk' []] & -> & Hin)%list_elem_of_fmap.
  apply elem_of_hash_iter, elem_of_list_to_map_2 in Hin.
  apply list_elem_of_fmap in Hin as (pk & [= ->] & Hin). apply list_elem_of_omap in Hin as (v & Hv & Hp).
  unfold values in Hv. apply list_elem_of_fmap in Hv as ([k e] & -> & Hke). apply elem_of_hash_iter in Hke. eauto.
Qed.

(** Asked again, the app's process still runs its program, whatever the others do. *)
Lemma ask_again_app (m : AppMatcher Z) l : keys_total -> flavor m = HOST ->
  forall res, exists res' found, @ask_again _ R _ E m res l = Ok (res', found) /\ same_view res' res /\
    (forall d, (app_process, d) ∈ found -> d = lookup_of m app_program) /\
    (app_process ∈ l -> (app_process, lookup_of m app_program) ∈ found).
Proof.
  intros Hkeys Hm. induction l as [|pk l IH]; intros res; simpl.
  { exists res, []. split_and!; [done|done|..]; set_solver. }
  pose proof (process_key_keeps res (pid pk)) as Hkw.
  assert (pk = app_process -> (process_key res (pid pk)).2 = Some pk) as Hk by (intros ->; apply process_runs).
  destruct (process_key res (pid pk)) as [res1 live]; cbn [fst snd] in *.
  pose proof (executable_keeps res1 (pid pk)) as Hew.
  assert (pk = app_process -> (executable res1 (pid pk)).2 = Some app_program) as He by (intros ->; apply program_runs).
  destruct (executable res1 (pid pk)) as [res2 path]; cbn [fst snd] in *.
  assert (forall res0, same_view res0 res -> pk <> app_process -> exists res' found,
    @ask_again _ R _ E m res0 l = Ok (res', found) /\ same_view res' res /\
    (forall d, (app_process, d) ∈ found -> d = lookup_of m app_program) /\
    (app_process ∈ pk :: l -> (app_process, lookup_of m app_program) ∈ found)) as Hskip.
  { intros res0 Hres Hne. destruct (IH res0) as (res' & found & Heq & Hs & Hd & Hin). exists res', found.
    split_and!; [done| |done|].
    - unfold same_view in *. intuition congruence.
    - intros [?|?]%elem_of_cons; [congruence|auto]. }
  case_bool_decide as Hlive; cbn [negb].
  2: { apply Hskip; [done|]. intros Hpk. by destruct Hlive; apply Hk. }
  destruct path as [path|].
  2: { apply Hskip; [unfold same_view; intuition congruence|]. intros Hpk. by specialize (He Hpk). }
  rewrite matcher_lookup_host by done. rewrite bind_Ok.
  destruct (IH res2) as (res' & found & -> & Hs & Hd & Hin). rewrite bind_Ok.
  assert (pk = app_process -> path = app_program) as Hpath by (intros Hpk; specialize (He Hpk); by injection He).
  eexists _, _. split; [done|]. split_and!.
  - unfold same_view in *. intuition congruence.
  - intros d [[= Hpk ->]|?]%elem_of_cons; [by rewrite Hpath|by apply Hd].
  - intros [Hpk|?]%elem_of_cons; [|right; by apply Hin]. rewrite (Hpath (eq_sym Hpk)), <- Hpk. left.
Qed.

(** A map made of a list in which every pair of a key is the same. *)
Lemma list_to_map_consistent {V : Type} (l : list (ProcessKey * V)) pk v :
  (forall d, (pk, d) ∈ l -> d = v) ->
  (forall d, (list_to_map l : gmap ProcessKey V) !! pk = Some d -> d = v) /\
  (pk ∈ l.*1 -> (list_to_map l : gmap ProcessKey V) !! pk = Some v).
Proof.
  intros Hl. split; [intros d Hd; by apply Hl, elem_of_list_to_map_2|].
  intros ([pk' d] & Heq & Hin)%list_elem_of_fmap. cbn in Heq. subst pk'.
  rewrite <- (Hl d Hin). apply elem_of_list_to_map_1'; [|done].
  intros y Hy. by rewrite (Hl y Hy), (Hl d Hin).
Qed.

(** What [decide_again] finds for the app's process. *)
Definition decided_again r (new : Policy) (x : Router R * gmap ProcessKey (option Z)) : Prop :=
  (exists res, x.1 = set_resolver res r /\ same_view res (resolver r)) /\
  (forall d, x.2 !! app_process = Some d -> d = app_route new) /\
  (forall t k e, flows r = Some t -> entries t !! k = Some e -> process (value e) = Some app_process ->
     x.2 !! app_process = Some (app_route new)).

Lemma decide_again_flows r new :
  keys_total -> flavor (apps new) = HOST -> ensures (decide_again r new) (decided_again r new).
Proof.
  intros Hkeys Hm. unfold decide_again, decided_again.
  destruct (flows r) as [t|] eqn:Ht.
  2: { simpl. split_and!; try done. exists (resolver r). by destruct r. }
  assert (forall t' k e, Some t = Some t' -> entries t' !! k = Some e -> process (value e) = Some app_process ->
    app_process ∈ tracked_processes t) as Hin by (intros t' k e [= <-]; apply elem_of_tracked_processes).
  destruct (policy_is_active new) eqn:Hact; cbn [negb].
  - destruct (ask_again_app (apps new) (tracked_processes t) Hkeys Hm (resolver r)) as (res & found & -> & Hw & Hd & Hl).
    rewrite bind_Ok. cbn [yields fst snd]. destruct (list_to_map_consistent found _ _ Hd) as [H1' H2'].
    split_and!; [by exists res|exact H1'|]. intros t' k e Ht' He Hp. apply H2'.
    apply list_elem_of_fmap. exists (app_process, lookup_of (apps new) app_program). split; [done|]. by apply Hl, (Hin t' k e).
  - cbn [yields fst snd].
    destruct (list_to_map_consistent ((fun process => (process, None)) <$> tracked_processes t) app_process (app_route new))
      as [H1' H2'].
    { intros d (? & [= _ ->] & _)%list_elem_of_fmap. by rewrite inactive_route. }
    split_and!; [exists (resolver r); by destruct r|exact H1'|]. intros t' k e Ht' He Hp. apply H2'.
    rewrite <- list_fmap_compose. apply list_elem_of_fmap. exists app_process. split; [done|by apply (Hin t' k e)].
Qed.

Lemma fate_agrees old new decisions k v :
  agrees old (binding v) (process v) ->
  (process v = Some app_process -> decisions !! app_process = Some (app_route new)) ->
  let '(v', rv) := fate old new decisions k v in
  rv = Forget \/ agrees new (binding v') (process v').
Proof.
  intros [Hpk Hb] Hd. unfold fate, revision. destruct (process v) as [pk|] eqn:Hp.
  - specialize (Hpk pk eq_refl). subst pk. specialize (Hd eq_refl). cbn [mbind option_bind]. rewrite Hd.
    destruct (binding v) as [|route| | |] eqn:Hbv; cbn [fst].
    + destruct (app_route new) as [route'|] eqn:Hl; cbn [mbind option_bind].
      * rewrite bool_decide_eq_false_2 by done. destruct (bool_decide (transport k = Tcp)); [|by left].
        right. cbn. rewrite ?Hp. by split; [intros ? [= <-]|].
      * rewrite bool_decide_eq_true_2 by done. right. cbn. rewrite ?Hp. by split; [intros ? [= <-]|].
    + destruct (app_route new) as [route'|] eqn:Hl; cbn [mbind option_bind].
      * destruct (bool_decide _).
        { right. cbn. rewrite ?Hp. split; [by intros ? [= <-]|]. by eauto. }
        destruct (bool_decide (transport k = Tcp)); [|by left]. right. cbn. rewrite ?Hp. by split; [intros ? [= <-]|].
      * rewrite bool_decide_eq_false_2 by done. destruct (bool_decide (transport k = Tcp)); [|by left].
        right. cbn. rewrite ?Hp. by split; [intros ? [= <-]|].
    + right. rewrite ?Hp, ?Hbv. by split; [intros ? [= <-]|].
    + right. rewrite ?Hp, ?Hbv. by split; [intros ? [= <-]|].
    + right. rewrite ?Hp, ?Hbv. by split; [intros ? [= <-]|].
  - cbn [mbind option_bind]. destruct (binding v) as [|route| | |] eqn:Hbv; cbn [fst].
    + by left.
    + by destruct Hb as [_ [? ?]].
    + right. rewrite ?Hp, Hbv. done.
    + right. rewrite ?Hp, Hbv. done.
    + right. rewrite ?Hp, Hbv. done.
Qed.

Lemma revise_flows_same r new decs clock r' :
  @revise_flows _ R E r new decs clock = Ok r' ->
  resolver r' = resolver r /\ decisions r' = decisions r /\ snapshot_taken r' = snapshot_taken r.
Proof.
  unfold revise_flows. destruct (flows r) as [t|]; [|by intros [= <-]].
  destruct (revise t clock _ _) as [s t']. by intros ([rs c] & _ & [= <-])%bind_ok.
Qed.

(** The decisions found again are all the cache holds of the app. *)
Lemma cache_again (l : list (ProcessKey * option Z)) (c : DecisionCache Z) (route : option Z) :
  (forall d, (app_process, d) ∈ l -> d = route) ->
  (forall d, cache_get c app_process = Some d -> d = route) ->
  forall d, cache_get (foldl (fun c pd => cache_insert c pd.1 pd.2) c l) app_process = Some d -> d = route.
Proof.
  revert c. induction l as [|[pk d'] l IH]; intros c Hl Hc; simpl; [done|].
  apply IH; [intros; apply Hl; by right|]. intros d [[Heq ->]|Hg]%cache_insert_get; [|by apply Hc].
  apply Hl. rewrite Heq. left.
Qed.

Lemma set_policy_honest r new clock :
  keys_total -> honest_state r -> policy_wf new ->
  ensures (set_policy r new clock) (fun r' => honest_state r' /\ policy r' = new).
Proof.
  intros Hkeys Hh Hpw. pose proof (@set_policy_yields _ _ R _ E r new clock Hkeys (hs_wf _ Hh) Hpw) as Hy.
  revert Hy. unfold set_policy. cbv zeta.
  set (r0 := match flows r with None => _ | Some _ => r end).
  assert (honest_state r0) as Hh0.
  { unfold r0. destruct (flows r) as [t|] eqn:Ht; [done|]. destruct (policy_is_active new); [|done].
    pose proof Hh as [Hwf Hw Hc Hv _]. split; cbn; try done.
    - apply set_flows_wf; [apply table_new_flows_wf|done].
    - intros t [= <-]. apply map_Forall_empty. }
  clearbody r0. set (r1 := set_snapshot_taken None _).
  assert (router_wf r1 /\ flows r1 = flows r0 /\ policy r1 = policy r0 /\ decisions r1 = cache_clear (decisions r0)
    /\ resolver r1 = watch_programs (resolver r0) (apps new) /\ snapshot_taken r1 = None)
    as (Hwf1 & Hf1 & Hp1 & Hd1 & Hr1 & Hs1).
  { pose proof (hs_wf _ Hh0) as Hwf0. split_and!; try done. unfold r1. apply set_snapshot_wf, set_resolver_wf.
    apply set_decisions_wf; [apply cache_clear_wf, Hwf0|].
    apply set_downlink_fragments_wf; [apply zsize_empty_fragments|].
    by apply set_uplink_fragments_wf; [apply zsize_empty_fragments|]. }
  clearbody r1.
  assert (flows_all (tracked_agrees (policy r0)) (flows r1)) as Hall1 by (rewrite Hf1; exact (hs_flows _ Hh0)).
  pose proof (decide_again_flows r1 new Hkeys (pw_flavor _ Hpw)) as Hda.
  destruct (decide_again r1 new) as [[r2 again]| |]; try done.
  destruct Hda as ((res & Hr2 & Hres) & Hcoh & Hask); cbn [fst snd] in *. subst r2. rewrite bind_Ok.
  set (r3 := set_decisions _ _).
  assert (router_wf r3) as Hwf3.
  { unfold r3. apply set_decisions_wf; [|by apply set_resolver_wf].
    generalize (hash_iter again). intros l.
    assert (cache_wf (decisions (set_resolver res r1))) as Hc by apply Hwf1. revert Hc.
    generalize (decisions (set_resolver res r1)). induction l as [|x l IH]; intros c Hc; simpl; [done|].
    by apply IH, cache_insert_wf. }
  assert (forall d, cache_get (decisions r3) app_process = Some d -> d = app_route new) as Hc3.
  { unfold r3. cbn [decisions set_decisions set_resolver]. rewrite Hd1. apply cache_again; [|done].
    intros d Hx%elem_of_hash_iter. by apply Hcoh. }
  pose proof (@revise_flows_yields _ _ R E r3 new again clock Hwf3) as Hrv.
  pose proof (fun r4 => revise_flows_same r3 new again clock r4) as Hsame.
  destruct (revise_flows r3 new again clock) as [r4| |]; try done.
  destruct (Hsame r4 eq_refl) as (Hres4 & Hdec4 & Hst4).
  destruct Hrv as (_ & _ & Hfl). simpl. intros [Hwf _]. split; [|done]. split; cbn; try done.
  - rewrite Hres4. unfold r3. cbn. rewrite (proj2 Hres), Hr1.
    intros route Hl. rewrite watch_watches. apply bool_decide_eq_true_2. unfold app_route in Hl. by rewrite Hl.
  - by rewrite Hdec4.
  - rewrite Hst4. unfold r3. cbn. by rewrite Hs1.
  - intros t4 Ht4. change (flows r3) with (flows r1) in Hfl. change (policy r3) with (policy r1) in Hfl.
    destruct (flows r1) as [t|] eqn:Ht1; [|congruence].
    destruct Hfl as (t' & Ht' & Hent). rewrite Ht' in Ht4. injection Ht4 as <-.
    intros k e. rewrite Hent. destruct (entries t !! k) as [e0|] eqn:He; simpl; [|done].
    pose proof (Hall1 t eq_refl k e0 He) as Hag. rewrite Hp1. unfold revised.
    pose proof (fun Hk => fate_agrees (policy r0) new again k (value e0) (Hag Hk)
      (fun Hpk => Hask t k e0 eq_refl He Hpk)) as Hfa.
    destruct (fate (policy r0) new again k (value e0)) as [v' rv].
    intros Hrev Hk. destruct (Hfa Hk) as [->|Hv']; [done|]. revert Hrev. by destruct rv; intros [= <-].
Qed.
End World.

(** ** The policies made of a list of apps *)

Section Policies.
Context `{!Platform}.

Lemma matcher_values {V E : Type} (f : PathFlavor) (l : list (str * V)) (m0 m : gmap str V) (Q : V -> Prop) :
  @matcher_new_loop _ V E f l m0 = Ok m -> map_Forall (fun _ => Q) m0 -> Forall (fun av => Q av.2) l ->
  map_Forall (fun _ => Q) m.
Proof.
  revert m0. induction l as [|[app v] l IH]; intros m0 Hm H0 Hl; simpl in Hm; [by injection Hm as <-|].
  apply Forall_cons in Hl as [Hv Hl]. apply bind_ok in Hm as (m1 & Hm1 & Hm).
  apply bind_ok in Hm as (k & _ & Hm). eapply (IH _ Hm); [|done]. apply map_Forall_insert_2; [done|].
  destruct (bool_decide (f = HOST)); [|by injection Hm1 as <-].
  destruct (canonicalize app); [|by injection Hm1 as <-]. apply bind_ok in Hm1 as (k' & _ & [= <-]).
  by apply map_Forall_insert_2.
Qed.

Lemma matcher_new_total {V E : Type} (l : list (str * V)) (m0 : gmap str V) :
  keys_total -> exists m, @matcher_new_loop _ V E HOST l m0 = Ok m.
Proof.
  intros Hk. revert m0. induction l as [|[app v] l IH]; intros m0; simpl; [eauto|].
  rewrite bool_decide_eq_true_2 by done. destruct (canonicalize app) as [r|].
  - destruct (@app_key_total _ E r Hk) as [kr ->]. cbn [mbind comp_bind].
    destruct (@app_key_total _ E app Hk) as [ka ->]. cbn [mbind comp_bind]. apply IH.
  - cbn [mbind comp_bind]. destruct (@app_key_total _ E app Hk) as [ka ->]. cbn [mbind comp_bind]. apply IH.
Qed.

Lemma matcher_new_any {V E F : Type} (l : list (str * V)) (m0 m : gmap str V) :
  keys_total -> @matcher_new_loop _ V E HOST l m0 = Ok m -> @matcher_new_loop _ V F HOST l m0 = Ok m.
Proof.
  unfold keys_total. intros Hk. revert m0. induction l as [|[app v] l IH]; intros m0; simpl.
  { by intros [= ->]. }
  unfold app_key. destruct HOST; try done; (rewrite bool_decide_eq_true_2 by done);
    destruct (canonicalize app); cbn [mbind comp_bind]; apply IH.
Qed.

(** The chosen app [app] is the program at [path]: by its own path, or by what that resolves to. *)
Definition reduces (app path : str) : Prop := matches HOST (host_key path) app.

Lemma reduces_self app : keys_total -> reduces app app.
Proof. unfold keys_total, reduces, matches, app_key, host_key. intros Hk. left. by destruct HOST. Qed.

Lemma new_lookup {V E : Type} (l : list (str * V)) (m : gmap str V) path :
  keys_total -> @matcher_new_loop _ V E HOST l ∅ = Ok m ->
  match m !! host_key path with
  | Some v => exists app, (app, v) ∈ l /\ reduces app path
  | None => Forall (fun av => ~ reduces av.1 path) l
  end.
Proof.
  intros Hk Hm. apply (matcher_new_any (F := Empty_set)) in Hm; [|done].
  destruct (matcher_new_loop_spec HOST l ∅ m (host_key path) Hm) as [(v & -> & Hl)|[-> Hl]].
  - destruct Hl as (pre & app & post & -> & Ha & _). exists app. split; [|done].
    apply elem_of_app. right. by left.
  - by rewrite lookup_empty.
Qed.

(** Every policy whose apps name routes that exist is accepted. *)
Lemma policy_named (m : SessionAddresses) (l : list (str * Z)) (rs : list RouteState) (ss : list Z) :
  keys_total -> addresses_wf m -> Forall state_wf rs -> Forall (fun ar => 0 <= ar.2 < zlen rs) l -> zlen ss = zlen rs ->
  exists p, (p ← policy_new m l rs; with_sessions p ss) = Ok p /\ policy_wf p /\
    main p = m /\ routes p = rs /\ sessions p = ss /\
    forall path, match lookup_of (apps p) path with
                 | Some v => exists app, (app, v) ∈ l /\ reduces app path
                 | None => Forall (fun av => ~ reduces av.1 path) l
                 end.
Proof.
  intros Hk Hm Hrs Hl Hss. unfold policy_new.
  assert (existsb (fun app => zlen rs <=? app.2) l = false) as ->.
  { apply not_true_iff_false. intros ([a v] & Hin & Hle)%existsb_exists. zbool.
    rewrite Forall_forall in Hl. specialize (Hl (a, v) (proj2 (list_elem_of_In _ _) Hin)). simpl in *. lia. }
  destruct (@matcher_new_total Z PolicyError l ∅ Hk) as [map Hmap].
  unfold matcher_new. rewrite Hmap. cbn [mbind comp_bind]. unfold with_sessions. cbn [routes main apps].
  rewrite Hss, Z.eqb_refl. cbn [negb]. eexists. split; [done|]. split; [|split; [done|split; [done|split; [done|]]]].
  - split; cbn; try done. by eapply (matcher_values HOST l ∅ map (fun v => 0 <= v < zlen rs)); [exact Hmap|apply map_Forall_empty|].
  - intros path. exact (new_lookup l map path Hk Hmap).
Qed.
End Policies.
