(* ===== verification/RouterSpec.v ===== *)
(** * What the router guarantees

    The router as a state machine: its reachable states, and the theorems
    about them.  The proofs apply the invariants of [RouterInv] and
    [RouterWorld]. *)

From S2P Require Import Prelude Net Ip Flow FlowTable Nat AppKey Reset Owner Router RouterInv RouterWorld.
Open Scope Z_scope.

(** ** Reachable states *)

(** What is assumed of the callers: when the packets they send up arrive and the clock is read, and
    what they complete a query with. *)
Record Callers : Type := mkCallers {
  sends : bytes -> Z -> Z -> Prop;
  answers : Policy -> OwnerQuery -> SocketOwner -> Prop
}.

Definition any_caller : Callers := mkCallers (fun _ _ _ => True) (fun _ _ _ => True).

Section Machine.
Context `{!HashOrder} `{!Platform} {R : Type} `{!OwnerResolver R}.
Implicit Types r : Router R.

(** One call on the router, with whatever packet, policy or answer its callers may give it. *)
Inductive step (c : Callers) : Router R -> Router R -> Prop :=
| step_uplink r p arrived clock r' p' v :
    bytes_ok p -> sends c p arrived clock ->
    @uplink _ _ R _ Empty_set r p arrived clock = Ok (r', p', v) -> step c r r'
| step_downlink r route p now r' p' d :
    bytes_ok p -> @downlink _ R Empty_set r route p now = Ok (r', p', d) -> step c r r'
| step_policy r new clock r' :
    policy_wf new -> @set_policy _ _ R _ Empty_set r new clock = Ok r' -> step c r r'
| step_complete r q o now r' :
    answers c (policy r) q o -> @complete _ R _ Empty_set r q o now = Ok r' -> step c r r'
| step_route_state r route s : state_wf s -> step c r (set_route_state r route s)
| step_take_resets r : step c r (take_resets r).1
| step_take_queries r : step c r (take_owner_queries r).1
| step_defer r : step c r (defer_owner_lookups r).

(** Under any callers. *)
Definition reachable (res : R) (cap : Z) : Router R -> Prop :=
  rtc (step any_caller) (with_capacity res cap).

Lemma step_wf c r r' : keys_total -> step c r r' -> router_wf r -> router_wf r'.
Proof.
  intros Hkeys Hs Hr. destruct Hs as [r p arrived clock r' p' v Hb Ht Hx|r route p now r' p' d Hb Hx|r new clock r' Hp Hx
    |r q o now r' Ha Hx|r route s Hs|r|r|r].
  - pose proof (@uplink_yields _ _ R _ Empty_set r p arrived clock Hkeys Hr Hb) as Hy. rewrite Hx in Hy. apply Hy.
  - pose proof (@downlink_yields _ _ R Empty_set r route p now Hr Hb) as Hy. rewrite Hx in Hy. apply Hy.
  - pose proof (@set_policy_yields _ _ R _ Empty_set r new clock Hkeys Hr Hp) as Hy. rewrite Hx in Hy. apply Hy.
  - pose proof (@complete_yields _ R _ Empty_set r q o now Hkeys Hr) as Hy. rewrite Hx in Hy. apply Hy.
  - by apply set_route_state_wf.
  - by apply take_resets_wf.
  - by apply set_queries_wf.
  - by apply set_deferred_wf.
Qed.

Lemma reachable_wf res cap r : keys_total -> reachable res cap r -> router_wf r.
Proof.
  intros Hkeys Hr. eapply (rtc_ind_r router_wf); [apply with_capacity_wf| |exact Hr].
  intros x y _ Hs Hx. by eapply step_wf.
Qed.
End Machine.

Section Honest.
Context `{!HashOrder} `{!Platform} {R : Type} `{!OwnerResolver R} `{!HostView R} `{!AppFlow R}.
Implicit Types r : Router R.

(** Callers whose clock goes forward, who send the flow's packets once its socket is open, and who
    find its process when they look it up. *)
Definition app_callers : Callers :=
  mkCallers app_call (fun p q o => q_flow q = app_flow -> app_answer p o).

Definition honest_reachable (res : R) (cap : Z) : Router R -> Prop :=
  rtc (step app_callers) (with_capacity res cap).

Lemma with_capacity_honest (res : R) (cap : Z) : honest_state (with_capacity res cap).
Proof.
  split; [apply with_capacity_wf|done|done|done|done].
Qed.

Lemma step_honest r r' :
  keys_total -> step app_callers r r' -> honest_state r -> honest_state r'.
Proof.
  intros Hkeys Hs Hr. pose proof (step_wf _ _ _ Hkeys Hs (hs_wf _ Hr)) as Hwf.
  destruct Hs as [r p arrived clock r' p' v Hb Ht Hx|r route p now r' p' d Hb Hx|r new clock r' Hp Hx
    |r q o now r' Ha Hx|r route s Hs|r|r|r].
  - pose proof (@uplink_honest _ _ R _ _ _ Empty_set r p arrived clock Hkeys Hr Hb Ht) as Hy.
    rewrite Hx in Hy. apply Hy.
  - by apply (downlink_honest _ _ _ _ _ Hr Hb) in Hx as [? _].
  - pose proof (@set_policy_honest _ _ R _ _ _ Empty_set r new clock Hkeys Hr Hp) as Hy. rewrite Hx in Hy. apply Hy.
  - pose proof (@complete_honest _ R _ _ _ Empty_set r q o now Hkeys Hr Ha) as Hy. rewrite Hx in Hy. apply Hy.
  - by apply set_route_state_honest.
  - by eapply honest_same.
  - by eapply honest_same.
  - by eapply honest_same.
Qed.

Lemma honest_reachable_state res cap r : keys_total -> honest_reachable res cap r -> honest_state r.
Proof.
  intros Hkeys Hr. eapply (rtc_ind_r honest_state); [apply with_capacity_honest| |exact Hr].
  intros x y _ Hs Hx. by eapply step_honest.
Qed.
End Honest.

(** ** The theorems *)

Section Guarantees.
Context `{!HashOrder} `{!Platform} {R : Type} `{!OwnerResolver R}.

(** C34: the router never panics and never leaves its invariant.  From an empty router, whatever
    packets, policies, completions and route states it is given, every method returns, and the
    state keeps its bounds: at most the chosen number of flows, 256 datagrams in fragments in
    each direction, 4096 decided processes, and 4096 queued notices, each of them a reset or a
    port unreachable that its own flow's side understands; every app names a route of the policy.
    (On a host whose app keys are total, which excludes macOS.) *)
Theorem router_never_panics (res : R) (cap : Z) (r : Router R)
    (Hkeys : keys_total) (Hr : reachable res cap r) :
  router_wf r /\
  (forall p arrived clock, bytes_ok p -> exists x, @uplink _ _ R _ Empty_set r p arrived clock = Ok x) /\
  (forall route p now, bytes_ok p -> exists x, @downlink _ R Empty_set r route p now = Ok x) /\
  (forall new clock, policy_wf new -> exists r', @set_policy _ _ R _ Empty_set r new clock = Ok r') /\
  (forall q o now, exists r', @complete _ R _ Empty_set r q o now = Ok r').
Proof.
  pose proof (reachable_wf _ _ _ Hkeys Hr) as Hwf. split; [done|]. split_and!.
  - intros p arrived clock Hb. pose proof (@uplink_yields _ _ R _ Empty_set r p arrived clock Hkeys Hwf Hb) as Hy.
    destruct (uplink r p arrived clock); [eauto|done|done].
  - intros route p now Hb. pose proof (@downlink_yields _ _ R Empty_set r route p now Hwf Hb) as Hy.
    destruct (downlink r route p now); [eauto|done|done].
  - intros new clock Hp. pose proof (@set_policy_yields _ _ R _ Empty_set r new clock Hkeys Hwf Hp) as Hy.
    destruct (set_policy r new clock); [eauto|done|done].
  - intros q o now. pose proof (@complete_yields _ R _ Empty_set r q o now Hkeys Hwf) as Hy.
    destruct (complete r q o now); [eauto|done|done].
Qed.

(** What the router does to an uplink packet.  Only a packet sent through a route changes:
    its route is connected, it leaves from the main session's address, and the packet that goes
    out has the same layout and destination, with the route's address of the same IP version for
    source.  Every other packet (main, dropped or held) is untouched. *)
Theorem uplink_translates (r : Router R) (p p' : bytes) (arrived clock : Z) (r' : Router R) (v : Verdict)
    (Hkeys : keys_total) (Hr : router_wf r) (Hb : bytes_ok p)
    (Hx : @uplink _ _ R _ Empty_set r p arrived clock = Ok (r', p', v)) :
  match v with
  | VRoute route =>
      exists a l, route_state r route = Some (Connected a) /\ locate p = Ok l /\ locate p' = Ok l /\
        for_family_of (main (policy r)) (src_of l p) = Some (src_of l p) /\
        for_family_of a (src_of l p) = Some (src_of l p') /\ dst_of l p' = dst_of l p /\
        zlen p' = zlen p /\ bytes_ok p'
  | _ => p' = p
  end.
Proof.
  pose proof (@uplink_yields _ _ R _ Empty_set r p arrived clock Hkeys Hr Hb) as Hy. rewrite Hx in Hy.
  destruct Hy as (_ & _ & Hb' & Hz & He). cbn [fst snd] in *. unfold uplink_effect in He.
  destruct v as [|route| |]; try done. destruct He as (new & Ht & Heq).
  destruct (@translation_rewrites _ R Empty_set r route p new Hr Hb Ht) as (l & p1 & Hl & Hnw & Hm & Heq1 & Hrw).
  rewrite Heq in Heq1. injection Heq1 as <-.
  destruct (rewritten_src _ _ _ _ _ Hb Hl Hm Hrw) as [Hs Hd].
  rewrite bool_decide_eq_true_2 in Hs, Hd by done.
  unfold translation in Ht. rewrite Hl in Ht. destruct (route_state r route) as [[|a|]|]; try done.
  destruct (bool_decide_reflect (for_family_of (main (policy r)) (src_of l p) = Some (src_of l p))) as [Hmain|]; [|done].
  exists a, l. rewrite Hs, Hd. split_and!; try done. apply Hrw.
Qed.

(** A route delivers only packets of flows it carries.  A downlink packet reaches the TUN
    device only if its route is connected and it belongs, directly or as the datagram an ICMP
    error quotes, to a live flow bound to that very route, at the route's own address, or
    continues a datagram whose first fragment did; its destination is then the main session's
    address and nothing else of its header changes.  Every other packet is dropped untouched. *)
Theorem downlink_only_own_flows (r : Router R) (route : Z) (p p' : bytes) (now : Z) (r' : Router R) (d : Delivery)
    (Hr : router_wf r) (Hb : bytes_ok p)
    (Hx : @downlink _ R Empty_set r route p now = Ok (r', p', d)) :
  match d with
  | DDrop => p' = p
  | Deliver =>
      policy_is_active (policy r) = true /\
      exists a m l, route_state r route = Some (Connected a) /\ locate p = Ok l /\ locate p' = Ok l /\
        src_of l p' = src_of l p /\ dst_of l p' = m /\
        match classify p Downlink with
        | Ok (Flow k _ _) | Ok (IcmpError k) =>
            for_family_of a (ip (local k)) = Some (ip (local k)) /\
            for_family_of (main (policy r)) (ip (local k)) = Some m /\
            router_peek r (mkFlowKey (transport k) (mkSocketAddr m (port (local k))) (remote k)) now
              = Some (Route route)
        | Ok (LaterFragment f) =>
            for_family_of (main (policy r)) (fk_dst f) = Some m /\
            fragments_get (downlink_fragments r) f now = Some (Route route)
        | _ => False
        end
  end.
Proof.
  pose proof (@downlink_yields _ _ R Empty_set r route p now Hr Hb) as Hy. rewrite Hx in Hy.
  destruct Hy as (_ & _ & Hb' & Hz & He). cbn [fst snd] in *. unfold downlink_effect in He.
  destruct d; [|done]. destruct He as (Hact & m & Hm & Heq). split; [done|].
  assert (ip_wf m /\ exists a, route_state r route = Some (Connected a) /\
    match classify p Downlink with
    | Ok (Flow k _ _) | Ok (IcmpError k) =>
        for_family_of a (ip (local k)) = Some (ip (local k)) /\
        for_family_of (main (policy r)) (ip (local k)) = Some m /\
        router_peek r (mkFlowKey (transport k) (mkSocketAddr m (port (local k))) (remote k)) now = Some (Route route)
    | Ok (LaterFragment f) =>
        for_family_of (main (policy r)) (fk_dst f) = Some m /\
        fragments_get (downlink_fragments r) f now = Some (Route route)
    | _ => False
    end) as (Hmw & a & Hst & Hcase).
  { unfold deliverable in Hm. destruct (route_state r route) as [[|a|]|]; try done.
    pose proof (pw_main _ (rw_policy _ Hr)) as Hmain.
    destruct (classify p Downlink) as [[k flags frag|f|k|]| |]; try done.
    - destruct (original_flow r k a) as [[o m0]|] eqn:Ho; [|done]. cbn [mbind option_bind] in Hm.
      destruct (bool_decide_reflect (router_peek r o now = Some (Route route))) as [Hp|]; [|done]. injection Hm as ->.
      apply original_flow_main in Ho as (H1 & H2 & ->). split; [by eapply for_family_wf|]. by exists a.
    - destruct (for_family_of (main (policy r)) (fk_dst f)) as [m0|] eqn:Hf; [|done]. cbn [mbind option_bind] in Hm.
      destruct (bool_decide_reflect (fragments_get (downlink_fragments r) f now = Some (Route route))) as [Hp|]; [|done].
      injection Hm as ->. split; [by eapply for_family_wf|]. by exists a.
    - destruct (original_flow r k a) as [[o m0]|] eqn:Ho; [|done]. cbn [mbind option_bind] in Hm.
      destruct (bool_decide_reflect (router_peek r o now = Some (Route route))) as [Hp|]; [|done]. injection Hm as ->.
      apply original_flow_main in Ho as (H1 & H2 & ->). split; [by eapply for_family_wf|]. by exists a. }
  destruct (locate p) as [l| |] eqn:Hl.
  - pose proof (@rewrite_spec Empty_set p l m Destination Hb Hmw Hl) as Hsp. unfold rewrite_destination in Heq.
    destruct (matches_family m (family l)) eqn:Hmf; [|by rewrite Hsp in Heq].
    destruct Hsp as (p1 & Heq1 & Hrw). rewrite Heq1 in Heq. injection Heq as ->.
    destruct (rewritten_src _ _ _ _ _ Hb Hl Hmf Hrw) as [Hs Hd].
    rewrite bool_decide_eq_false_2 in Hs, Hd by done.
    exists a, m, l. split_and!; try done. apply Hrw.
  - exfalso. unfold classify in Hcase. rewrite Hl in Hcase. done.
  - exfalso. unfold classify in Hcase. rewrite Hl in Hcase. done.
Qed.
End Guarantees.

Section Promise.
Context `{!HashOrder} `{!Platform} {R : Type} `{!OwnerResolver R} `{!HostView R} `{!AppFlow R}.

(** C8: no history makes a routed app leak.  Take a TCP or UDP flow whose socket is held, from some
    instant on, by a process that runs one program and keeps its pid, on a host whose socket tables
    can be read from then on; a view of the tables taken earlier may list anything for the flow,
    another process or nobody, and of the other flows nothing is assumed.  Whatever packets,
    policies, route states and completed lookups came before, provided the flow's packets arrive
    once the socket is open, the clock is read after a packet arrived and a caller that looks the
    flow up itself finds its process (or, the program having no route, that no watched program owns
    it): a packet of the flow is sent through the route the policy in
    force gives the program, dropped, or held for its flow, never sent through main nor another
    route; and when the policy gives it none, it never leaves through a route. *)
Theorem routed_app_never_leaks (res : R) (cap : Z) (r r' : Router R) (p p' : bytes) (arrived clock : Z)
    (v : Verdict) (flags : Z) (frag : option FragmentKey)
    (Hkeys : keys_total) (Hr : honest_reachable res cap r) (Hb : bytes_ok p) (Hcall : app_call p arrived clock)
    (Hc : classify p Uplink = Ok (Flow app_flow flags frag))
    (Hx : @uplink _ _ R _ Empty_set r p arrived clock = Ok (r', p', v)) :
  match app_route (policy r) with
  | Some route => v = VRoute route \/ v = VDrop \/ v = VHold app_flow
  | None => v = VMain \/ v = VDrop \/ v = VHold app_flow
  end.
Proof.
  pose proof (honest_reachable_state _ _ _ Hkeys Hr) as Hh.
  pose proof (@uplink_honest _ _ R _ _ _ Empty_set r p arrived clock Hkeys Hh Hb Hcall) as Hy. rewrite Hx in Hy.
  destruct Hy as (_ & _ & Hv). specialize (Hv flags frag Hc). cbn [snd] in Hv. unfold verdict_agrees in Hv.
  destruct v as [|route| |k'], (app_route (policy r)) as [route'|]; try subst k'; auto; try done.
  injection Hv as ->. auto.
Qed.
End Promise.

(** ** A flow's packets *)

Section FlowPackets.
Context `{!HashOrder} `{!Platform} {R : Type} `{!OwnerResolver R} {E : Type}.
Implicit Types r : Router R.

Lemma lookup_mut_peek (t : FlowTable Tracked) k d flags now : (lookup_mut t k d flags now).2 = peek t k now.
Proof. unfold lookup_mut, peek. destruct (entries t !! k) as [e|]; [|done]. by destruct (is_expired _ _ _). Qed.

Lemma expire_peek (t : FlowTable Tracked) k now : peek (expire t now) k now = peek t k now.
Proof.
  unfold peek, expire, with_entries. cbn [entries].
  destruct (entries t !! k) as [e|] eqn:He; [destruct (is_expired (transport k) e now) eqn:Hx|].
  - replace (filter _ (entries t) !! k) with (@None (Entry Tracked)); [done|].
    symmetry. apply map_lookup_filter_None. right. intros e' He'. rewrite He in He'. injection He' as <-.
    simpl. congruence.
  - replace (filter _ (entries t) !! k) with (Some e); [by rewrite Hx|].
    symmetry. by apply map_lookup_filter_Some.
  - replace (filter _ (entries t) !! k) with (@None (Entry Tracked)); [done|].
    symmetry. apply map_lookup_filter_None. by left.
Qed.

Lemma sweep_peek r k now : router_peek (sweep r now) k now = router_peek r k now.
Proof.
  unfold sweep. destruct (match last_sweep r with Some _ => _ | None => _ end); [done|].
  unfold router_peek. cbn. destruct (flows r) as [t|]; [|done]. cbn. by rewrite expire_peek.
Qed.

Lemma active_router r : policy_is_active (policy r) = true -> router_is_active r = true.
Proof. intros H'. unfold router_is_active. by rewrite H'. Qed.

(** The value tracked for a live flow. *)
Definition tracked_of r (k : FlowKey) (now : Z) : option Tracked := t ← flows r; peek t k now.

Lemma router_peek_tracked r k now : router_peek r k now = binding <$> tracked_of r k now.
Proof. unfold router_peek, tracked_of. by destruct (flows r) as [t|]; simpl. Qed.

Lemma tracked_sweep r k now : tracked_of (sweep r now) k now = tracked_of r k now.
Proof.
  unfold sweep. destruct (match last_sweep r with Some _ => _ | None => _ end); [done|].
  unfold tracked_of. cbn. destruct (flows r) as [t|]; [|done]. cbn. by rewrite expire_peek.
Qed.

Lemma lookup_flow_tracked r k d flags now : (lookup_flow r k d flags now).2 = tracked_of r k now.
Proof.
  unfold lookup_flow, tracked_of. destruct (flows r) as [t|]; [|done]. cbn [mbind option_bind].
  rewrite <- (lookup_mut_peek t k d flags now). by destruct (lookup_mut _ _ _ _ _).
Qed.

(** The decisive segment's numbers, as [uplink] reads them. *)
Definition numbers (k : FlowKey) (p : bytes) : comp E (option Segment) :=
  if bool_decide (transport k = Tcp) then segment p else Ok None.

(** What [uplink] does once the flow is bound. *)
Definition uplink_tail r (k : FlowKey) (frag : option FragmentKey) (s : option Segment) (p : bytes)
    (arrived : Z) (bound : Binding) : comp E (Router R * bytes * Verdict) :=
  let r :=
    match frag with
    | Some fragment => set_uplink_fragments (remember (uplink_fragments r) fragment bound arrived) r
    | None => r
    end in
  if bool_decide (bound = Pending) then Ok (r, p, VHold k) else
  r ← answer_reset r k bound s; apply_uplink r bound p.

Lemma uplink_flow_eq r p arrived clock k flags frag :
  router_is_active r = true -> classify p Uplink = Ok (Flow k flags frag) ->
  uplink r p arrived clock =
    (s ← numbers k p;
     '(r, bound) ← flow_binding (sweep r arrived) k flags s arrived clock;
     uplink_tail r k frag s p arrived bound).
Proof. intros Ha Hc. unfold uplink. rewrite Ha, Hc. done. Qed.

(** The binding, and the verdict it makes. *)
Definition bound_verdict r (k : FlowKey) (bound : Binding) (p p' : bytes) (v : Verdict) : Prop :=
  if bool_decide (bound = Pending) then v = VHold k /\ p' = p else @carried R E r bound p p' v.

Abbreviation ensures m Q := (yields m (fun _ : E => False) Q).

Lemma answer_reset_fragments r k bound s :
  router_wf r -> flow_wf k -> segment_wf s ->
  ensures (answer_reset r k bound s) (fun r' => uplink_fragments r' = uplink_fragments r).
Proof.
  intros Hr Hk Hs. unfold answer_reset. destruct (_ && _); [|done]. destruct s as [g|]; [|done].
  apply yields_bind. eapply yields_mono; [apply answer_notice; [done|by apply Hs]|done|]. by intros [q|] _.
Qed.

Lemma apply_uplink_fragments r bound p :
  router_wf r -> bytes_ok p ->
  ensures (apply_uplink r bound p) (fun x => uplink_fragments x.1.1 = uplink_fragments r).
Proof.
  intros Hr Hb. rewrite apply_uplink_eq by done. destruct bound as [|route| | |]; try done.
  destruct (translation r route p) as [new|] eqn:Ht; [|done].
  destruct (@translation_rewrites _ R E r route p new Hr Hb Ht) as (l & p' & _ & _ & _ & -> & _). done.
Qed.

Lemma uplink_tail_yields r k frag s p arrived bound :
  router_wf r -> flow_wf k -> segment_wf s -> bytes_ok p ->
  ensures (uplink_tail r k frag s p arrived bound) (fun x => bound_verdict r k bound p x.1.2 x.2 /\
    flows x.1.1 = flows r /\
    (forall f, frag = Some f -> uplink_fragments x.1.1 = remember (uplink_fragments r) f bound arrived)).
Proof.
  intros Hr Hk Hs Hb. unfold uplink_tail, bound_verdict. cbv zeta.
  set (r1 := match frag with Some _ => _ | None => r end).
  assert (router_wf r1 /\ policy r1 = policy r /\ flows r1 = flows r /\
    (forall f, frag = Some f -> uplink_fragments r1 = remember (uplink_fragments r) f bound arrived)) as (Hr1 & Hp1 & Hf1 & Hu1).
  { unfold r1. destruct frag; [|done]. split_and!; try done; [|by intros ? [= <-]].
    apply set_uplink_fragments_wf; [|done]. apply remember_wf, Hr. }
  clearbody r1. destruct (bool_decide (bound = Pending)); [done|].
  apply yields_bind. eapply yields_mono; [apply yields_and;
    [by apply (@answer_reset_yields _ R E r1 k bound s)|by apply (answer_reset_fragments r1 k bound s)]|done|].
  intros r2 [(Hr2 & Hp2 & Hf2) Hu2]. eapply yields_mono; [apply yields_and;
    [by apply (@apply_uplink_yields _ R E r2 bound p)|by apply (apply_uplink_fragments r2 bound p)]|done|].
  intros x [(_ & _ & _ & Hc & Hf) Hu]. split_and!.
  - eapply carried_policy; [|exact Hc]. congruence.
  - congruence.
  - intros f Hfr. rewrite Hu, Hu2. by apply Hu1.
Qed.

Lemma numbers_spec k p : bytes_ok p -> exists s, numbers k p = Ok s /\ segment_wf s.
Proof.
  intros Hb. unfold numbers. destruct (bool_decide _); [|by exists None].
  by apply (@segment_spec E p Hb).
Qed.

Lemma tracked_active r k now v : tracked_of r k now = Some v -> router_is_active r = true.
Proof.
  unfold tracked_of, router_is_active. destruct (flows r) as [t|]; [|done]. cbn [mbind option_bind].
  unfold peek. destruct (entries t !! k) as [e|] eqn:He; [|done]. intros _.
  apply orb_true_iff. right. apply negb_true_iff. unfold table_is_empty, table_len, zsize.
  apply Z.eqb_neq. intros Hz. assert (size (entries t) = 0%nat) as Hz' by lia.
  apply map_size_empty_inv in Hz'. by rewrite Hz', lookup_empty in He.
Qed.

(** Binding a flow leaves it live, under that binding. *)
Lemma flow_binding_peek r k flags s arrived clock :
  keys_total -> router_wf r -> flow_wf k -> segment_wf s -> policy_is_active (policy r) = true ->
  ensures (flow_binding r k flags s arrived clock) (fun x => router_peek x.1 k arrived = Some x.2).
Proof.
  intros Hkeys Hr Hk Hs Hact. rewrite flow_binding_eq. cbv zeta.
  destruct (lookup_flow_wf r k Uplink flags arrived Hr) as (Hr1 & Hk1 & _).
  pose proof (lookup_flow_tracked r k Uplink flags arrived) as Htr.
  assert (forall v, (lookup_flow r k Uplink flags arrived).2 = Some v ->
    router_peek (lookup_flow r k Uplink flags arrived).1 k arrived = Some (binding v)) as Hlive.
  { unfold lookup_flow, router_peek. destruct (flows r) as [t|]; [|done]. intros v.
    unfold lookup_mut. destruct (entries t !! k) as [e|] eqn:He; [|done].
    destruct (is_expired (transport k) e arrived) eqn:Hx; [done|]. cbn. intros [= <-].
    unfold peek. cbn. rewrite lookup_insert_eq. unfold is_expired. cbn.
    unfold saturating_duration_since. rewrite Z.sub_diag.
    destruct (Z.ltb_spec (timeout_of (advance (lifecycle e) Uplink flags) (transport k)) (Z.max 0 0)) as [Hlt|]; [|done].
    exfalso. revert Hlt. generalize (advance (lifecycle e) Uplink flags). intros l.
    destruct l, (transport k); vm_compute; discriminate. }
  destruct (lookup_flow r k Uplink flags arrived) as [r1 found]; cbn [fst snd] in *.
  assert (ensures (attributed r1 k flags s arrived clock) (fun x => router_peek x.1 k arrived = Some x.2)) as Hnew.
  { eapply yields_mono; [by apply attributed_yields|done|]. intros x (_ & _ & Hpk). apply Hpk.
    by destruct Hk1 as [-> _]. }
  destruct found as [v|]; [|exact Hnew]. destruct (stands _ _ _); [|exact Hnew].
  specialize (Hlive v eq_refl). destruct s as [g|]; simpl; [|done].
  unfold router_peek in *. cbn. destruct (flows r1) as [t|]; [|done]. cbn in *.
  unfold peek in *. unfold write_value. cbn. rewrite lookup_alter_eq. destruct (entries t !! k) as [e|]; [|done]. cbn.
  unfold is_expired in *. cbn in *. by destruct (_ <? _).
Qed.

(** *** Fragments *)

Lemma remember_get m f b now later :
  saturating_duration_since later now <= FRAGMENT_TIMEOUT ->
  fragments_get (remember m f b now) f later = Some b.
Proof.
  intros Ht. unfold remember, fragments_get. cbv zeta. rewrite lookup_insert_eq.
  destruct (Z.leb_spec (saturating_duration_since later now) FRAGMENT_TIMEOUT); [done|lia].
Qed.

Lemma expire_get m f now : fragments_get (fragments_expire m now) f now = fragments_get m f now.
Proof.
  unfold fragments_get, fragments_expire. destruct (m !! f) as [[b seen]|] eqn:He.
  - destruct (Z.leb_spec (saturating_duration_since now seen) FRAGMENT_TIMEOUT) as [Hle|Hgt].
    + replace (filter _ m !! f) with (Some (b, seen)).
      * destruct (Z.leb_spec (saturating_duration_since now seen) FRAGMENT_TIMEOUT); [done|lia].
      * symmetry. by apply map_lookup_filter_Some.
    + replace (filter _ m !! f) with (@None (Binding * Z)); [done|].
      symmetry. apply map_lookup_filter_None. right. intros x Hx. rewrite He in Hx. injection Hx as <-. simpl. lia.
  - replace (filter _ m !! f) with (@None (Binding * Z)); [done|].
    symmetry. apply map_lookup_filter_None. by left.
Qed.

Lemma sweep_fragments r f now :
  fragments_get (uplink_fragments (sweep r now)) f now = fragments_get (uplink_fragments r) f now.
Proof.
  unfold sweep. destruct (match last_sweep r with Some _ => _ | None => _ end); [done|]. cbn. apply expire_get.
Qed.

Lemma uplink_later_fragment r p arrived clock f :
  keys_total -> router_wf r -> bytes_ok p -> router_is_active r = true ->
  classify p Uplink = Ok (LaterFragment f) ->
  ensures (uplink r p arrived clock) (fun x =>
    @carried R E r (default Blocked (fragments_get (uplink_fragments r) f arrived)) p x.1.2 x.2).
Proof.
  intros Hkeys Hr Hb Ha Hc. unfold uplink. rewrite Ha, Hc. cbn [negb]. cbv zeta. rewrite sweep_fragments.
  eapply yields_mono; [apply (@apply_uplink_yields _ R E _ _ p (sweep_wf r arrived Hr) Hb)|done|].
  intros x (_ & _ & _ & Hx & _). eapply carried_policy; [|exact Hx]. apply sweep_policy.
Qed.

Lemma uplink_flow_yields r p arrived clock k flags frag :
  keys_total -> router_wf r -> bytes_ok p -> router_is_active r = true ->
  classify p Uplink = Ok (Flow k flags frag) ->
  ensures (uplink r p arrived clock) (fun x => exists s bound r1, numbers k p = Ok s /\ segment_wf s /\
    @flow_binding _ _ R _ E (sweep r arrived) k flags s arrived clock = Ok (r1, bound) /\
    bound_verdict r k bound p x.1.2 x.2 /\ flows x.1.1 = flows r1 /\
    (forall f, frag = Some f -> uplink_fragments x.1.1 = remember (uplink_fragments r1) f bound arrived)).
Proof.
  intros Hkeys Hr Hb Ha Hc. rewrite (uplink_flow_eq r p arrived clock k flags frag Ha Hc).
  pose proof (classify_yields p Uplink Hb) as Hcw. rewrite Hc in Hcw. destruct Hcw as [Hk _].
  destruct (numbers_spec k p Hb) as (s & Hs & Hsw). rewrite Hs, bind_Ok.
  pose proof (@flow_binding_yields _ _ R _ E (sweep r arrived) k flags s arrived clock Hkeys (sweep_wf r arrived Hr) Hk Hsw) as Hy.
  destruct (flow_binding (sweep r arrived) k flags s arrived clock) as [[r1 bound]| |] eqn:Hfb; try done.
  destruct Hy as [Hr1 Hkp]. cbn [fst] in *. rewrite bind_Ok. cbn beta iota.
  eapply yields_mono; [apply (uplink_tail_yields r1 k frag s p arrived bound Hr1 Hk Hsw Hb)|done|].
  intros x (Hbv & Hf & Hu). exists s, bound, r1. split_and!; try done.
  unfold bound_verdict in *. destruct (bool_decide _); [done|]. eapply carried_policy; [|exact Hbv].
  destruct Hkp as [-> _]. apply sweep_policy.
Qed.
(** A flow's local address is the packet's own, in either direction. *)
Lemma classify_local p l k flags frag direction :
  bytes_ok p -> locate p = Ok l -> classify p direction = Ok (Flow k flags frag) ->
  ip (local k) = match direction with Uplink => src_of l p | Downlink => dst_of l p end.
Proof.
  intros Hb Hl Hc. rewrite (classify_eq p l direction Hb Hl) in Hc. cbv zeta in Hc.
  pose proof (addr_range_ok p l false Hb Hl) as (Hlo & _).
  assert (forall f, classify_transport p l (src_of l p) (dst_of l p) direction f = Ok (Flow k flags frag) ->
    ip (local k) = match direction with Uplink => src_of l p | Downlink => dst_of l p end) as Hct.
  { intros f. rewrite classify_transport_eq by done. cbv zeta.
    destruct (_ =? PROTO_TCP); [destruct (_ <=? _); [|done]; intros [= <- _ _]; by destruct direction|].
    destruct (_ =? PROTO_UDP); [destruct (_ <=? _); [|done]; intros [= <- _ _]; by destruct direction|].
    destruct (_ || _); [|done]. destruct (_ <=? _); [|done]. destruct (icmp_kind _ _); [| |done].
    - intros [= <- _ _]; by destruct direction.
    - by intros ?%quoted_flow_not_flow. }
  destruct (fragment l) as [f|]; [destruct (frag_first f); [|done]|]; by eapply Hct.
Qed.

Lemma for_family_idem a i j : same_family i j = true -> for_family_of a j = for_family_of a i.
Proof. by destruct i, j. Qed.
End FlowPackets.

Section PerFlow.
Context `{!HashOrder} `{!Platform} {R : Type} `{!OwnerResolver R}.

(** A known flow's packets keep to its binding.  For a live flow, unless the packet opens a new
    connection on its ports (a SYN that is not the one that opened it, or any SYN once it was
    reset), the packet goes where the flow is bound: through
    main unchanged, through its route translated when that route can carry it and dropped
    otherwise, dropped when blocked or reset, held when its owner is still being looked up. *)
Theorem known_flow_keeps_binding (r : Router R) (p p' : bytes) (arrived clock : Z) (r' : Router R) (verdict : Verdict)
    (k : FlowKey) (flags : Z) (frag : option FragmentKey) (s : option Segment) (v : Tracked)
    (Hkeys : keys_total) (Hr : router_wf r) (Hb : bytes_ok p)
    (Hc : classify p Uplink = Ok (Flow k flags frag)) (Hs : @numbers Empty_set k p = Ok s)
    (Hv : tracked_of r k arrived = Some v) (Hst : stands (is_opening k flags) s v = true)
    (Hx : @uplink _ _ R _ Empty_set r p arrived clock = Ok (r', p', verdict)) :
  @bound_verdict R Empty_set r k (binding v) p p' verdict.
Proof.
  pose proof (@uplink_flow_yields _ _ R _ Empty_set r p arrived clock k flags frag Hkeys Hr Hb
    (tracked_active r k arrived v Hv) Hc) as Hy.
  rewrite Hx in Hy. destruct Hy as (s' & bound & r1 & Hs' & Hsw & Hfb & Hbv & _ & _).
  rewrite Hs in Hs'. injection Hs' as <-. cbn [fst snd] in *.
  rewrite flow_binding_eq in Hfb. cbv zeta in Hfb. rewrite lookup_flow_tracked, tracked_sweep, Hv, Hst in Hfb.
  by injection Hfb as _ <-.
Qed.

(** A later fragment goes where its first fragment went.  Within ten seconds of a packet that
    is the first fragment of a datagram, a later fragment of that datagram gets the same binding
    (a held one is lost instead); a later fragment whose first was not seen, or longer ago than
    that, is dropped, never sent through main. *)
Theorem later_fragment_follows_first (r r1 r2 : Router R) (p1 p1' p2 p2' : bytes) (t1 c1 t2 c2 : Z)
    (v1 v2 : Verdict) (k : FlowKey) (flags : Z) (f g : FragmentKey)
    (Hkeys : keys_total) (Hr : router_wf r) (Hact : policy_is_active (policy r) = true)
    (Hb1 : bytes_ok p1) (Hb2 : bytes_ok p2)
    (Hc1 : classify p1 Uplink = Ok (Flow k flags (Some f))) (Hc2 : classify p2 Uplink = Ok (LaterFragment g))
    (Hx1 : @uplink _ _ R _ Empty_set r p1 t1 c1 = Ok (r1, p1', v1))
    (Hx2 : @uplink _ _ R _ Empty_set r1 p2 t2 c2 = Ok (r2, p2', v2)) :
  (g = f -> t2 - t1 <= FRAGMENT_TIMEOUT ->
     exists bound, @bound_verdict R Empty_set r k bound p1 p1' v1 /\ @carried R Empty_set r bound p2 p2' v2) /\
  (fragments_get (uplink_fragments r1) g t2 = None -> v2 = VDrop /\ p2' = p2).
Proof.
  pose proof (@uplink_flow_yields _ _ R _ Empty_set r p1 t1 c1 k flags (Some f) Hkeys Hr Hb1
    (active_router r Hact) Hc1) as Hy1.
  pose proof (@uplink_yields _ _ R _ Empty_set r p1 t1 c1 Hkeys Hr Hb1) as Hw1.
  rewrite Hx1 in Hy1, Hw1. destruct Hw1 as (Hr1 & Hp1 & _). cbn [fst snd] in *.
  destruct Hy1 as (s & bound & r0 & _ & _ & _ & Hbv & _ & Hu).
  pose proof (@uplink_later_fragment _ _ R _ Empty_set r1 p2 t2 c2 g Hkeys Hr1 Hb2) as Hy2.
  rewrite Hx2 in Hy2. specialize (Hy2 ltac:(apply active_router; by rewrite Hp1) Hc2). cbn [fst snd yields] in *.
  apply (carried_policy r) in Hy2; [|done]. split.
  - intros -> Ht. exists bound. split; [done|].
    rewrite (Hu f eq_refl), remember_get in Hy2; [done|]. unfold saturating_duration_since, FRAGMENT_TIMEOUT, secs in *. lia.
  - intros Hn. rewrite Hn in Hy2. exact Hy2.
Qed.

(** The reply to a routed packet comes back.  When a packet of a flow is sent through a route,
    a packet that route then delivers from the flow's remote end to the address the first one
    carried is delivered, and reaches the local stack as a packet of the flow itself. *)
Theorem reply_comes_back (r r' : Router R) (p p' q : bytes) (arrived clock : Z) (route : Z)
    (k : FlowKey) (flags qflags : Z) (l : Layout)
    (Hkeys : keys_total) (Hr : router_wf r) (Hact : policy_is_active (policy r) = true)
    (Hb : bytes_ok p) (Hq : bytes_ok q) (Hl : locate p = Ok l)
    (Hc : classify p Uplink = Ok (Flow k flags None))
    (Hx : @uplink _ _ R _ Empty_set r p arrived clock = Ok (r', p', VRoute route))
    (Hcq : classify q Downlink =
      Ok (Flow (mkFlowKey (transport k) (mkSocketAddr (src_of l p') (port (local k))) (remote k)) qflags None)) :
  classify p' Uplink =
    Ok (Flow (mkFlowKey (transport k) (mkSocketAddr (src_of l p') (port (local k))) (remote k)) flags None) /\
  exists r'' q', @downlink _ R Empty_set r' route q arrived = Ok (r'', q', Deliver) /\
    classify q' Downlink = Ok (Flow k qflags None).
Proof.
  pose proof (@uplink_flow_yields _ _ R _ Empty_set r p arrived clock k flags None Hkeys Hr Hb
    (active_router r Hact) Hc) as Hy.
  pose proof (@uplink_yields _ _ R _ Empty_set r p arrived clock Hkeys Hr Hb) as Hw.
  rewrite Hx in Hy, Hw. destruct Hw as (Hr' & Hp' & Hb' & _ & new & Htr & Heq). cbn [fst snd] in *.
  destruct Hy as (s & bound & r0 & Hs & Hsw & Hfb & Hbv & Hf & _).
  destruct (@translation_rewrites _ R Empty_set r route p new Hr Hb Htr) as (l' & p1 & Hl' & Hnw & Hm & Heq1 & Hrw).
  rewrite Hl in Hl'. injection Hl' as <-. rewrite Heq in Heq1. injection Heq1 as <-.
  destruct (rewritten_src _ _ _ _ _ Hb Hl Hm Hrw) as [Hsrc Hdst]. rewrite bool_decide_eq_true_2 in Hsrc, Hdst by done.
  pose proof (classify_rewritten _ _ _ _ _ _ _ _ _ Hb Hl Hm Hrw Hc) as Hcp. cbn [retarget fmap option_fmap option_map] in Hcp.
  rewrite Hsrc in *. split; [done|].
  pose proof (classify_local p l k flags None Uplink Hb Hl Hc) as Hloc.
  assert (bound = Route route) as ->.
  { unfold bound_verdict in Hbv. destruct (bool_decide _); [by destruct Hbv|]. unfold carried in Hbv.
    destruct bound as [|rt| | |]; try by destruct Hbv. destruct (translation r rt p); by destruct Hbv as [[= ->] _]. }
  pose proof (classify_yields p Uplink Hb) as Hk. rewrite Hc in Hk. destruct Hk as [Hk _].
  pose proof (@flow_binding_peek _ _ R _ Empty_set (sweep r arrived) k flags s arrived clock Hkeys
    (sweep_wf r arrived Hr) Hk Hsw ltac:(by rewrite sweep_policy)) as Hpk.
  rewrite Hfb in Hpk. cbn [yields fst snd] in Hpk.
  assert (router_peek r' k arrived = Some (Route route)) as Hpk'.
  { unfold router_peek in *. cbn [fst] in Hf. by rewrite Hf. }
  unfold translation in Htr. rewrite Hl in Htr. destruct (route_state r route) as [[|a|]|] eqn:Hst; try done.
  destruct (bool_decide_reflect (for_family_of (main (policy r)) (src_of l p) = Some (src_of l p))) as [Hmain|]; [|done].
  pose proof (for_family_same _ _ _ Htr) as Hsame.
  assert (original_flow r' (mkFlowKey (transport k) (mkSocketAddr new (port (local k))) (remote k)) a
    = Some (k, src_of l p)) as Ho.
  { unfold original_flow. cbn [ip local port remote transport].
    rewrite (for_family_idem a (src_of l p) new Hsame), Htr, bool_decide_eq_true_2 by done. cbn [negb].
    rewrite Hp', (for_family_idem _ (src_of l p) new Hsame), Hmain. cbn.
    destruct k as [t [li lp] rm]. cbn in *. by subst li. }
  unfold downlink. rewrite Hp', Hact. cbn [negb].
  assert (route_state r' route = Some (Connected a)) as -> by (unfold route_state; rewrite Hp'; exact Hst).
  rewrite Hcq, Ho. rewrite bool_decide_eq_true_2 by done. cbn [negb].
  destruct (classify_locates _ _ _ Hcq) as [lq Hlq].
  pose proof (classify_local q lq _ _ _ Downlink Hq Hlq Hcq) as Hdq. cbn [ip local] in Hdq.
  assert (ip_wf (src_of l p)) as Hsw'.
  { apply src_of_wf; [done|]. by apply (addr_range_ok p l false Hb Hl). }
  assert (matches_family (src_of l p) (family lq) = true) as Hmq.
  { rewrite Hdq in Hsame. unfold dst_of in Hsame. by destruct (src_of l p), (family lq). }
  pose proof (@rewrite_spec Empty_set q lq (src_of l p) Destination Hq Hsw' Hlq) as Hrq. rewrite Hmq in Hrq.
  destruct Hrq as (q' & Heqq & Hrwq). unfold rewrite_destination. rewrite Heqq. rewrite bind_Ok. cbn beta iota.
  eexists _, q'. split; [done|].
  pose proof (classify_rewritten _ _ _ _ _ _ _ _ _ Hq Hlq Hmq Hrwq Hcq) as Hcq'.
  rewrite Hcq'. cbn. do 2 f_equal. destruct k as [t [li lp] rm]. cbn in *. by subst li.
Qed.
End PerFlow.

Section PerPolicy.
Context `{!HashOrder} `{!Platform} {R : Type} `{!OwnerResolver R} `{!HostView R}.

(** How the binding of an untracked flow is found. *)
Lemma untracked_attribution (r r' : Router R) (p p' : bytes) (arrived clock : Z) (v : Verdict)
    (k : FlowKey) (flags : Z) (frag : option FragmentKey) :
  keys_total -> router_wf r -> bytes_ok p -> policy_is_active (policy r) = true ->
  classify p Uplink = Ok (Flow k flags frag) -> tracked_of r k arrived = None ->
  @uplink _ _ R _ Empty_set r p arrived clock = Ok (r', p', v) ->
  exists s bound r1, segment_wf s /\ flow_wf k /\
    @attributed _ _ R _ Empty_set (lookup_flow (sweep r arrived) k Uplink flags arrived).1 k flags s arrived clock
      = Ok (r1, bound) /\
    @bound_verdict R Empty_set r k bound p p' v.
Proof.
  intros Hkeys Hr Hb Hact Hc Hnew Hx.
  pose proof (@uplink_flow_yields _ _ R _ Empty_set r p arrived clock k flags frag Hkeys Hr Hb
    (active_router r Hact) Hc) as Hy.
  rewrite Hx in Hy. destruct Hy as (s & bound & r1 & Hs & Hsw & Hfb & Hbv & _ & _). cbn [fst snd] in *.
  pose proof (classify_yields p Uplink Hb) as Hk. rewrite Hc in Hk. destruct Hk as [Hk _].
  rewrite flow_binding_eq in Hfb. cbv zeta in Hfb. rewrite lookup_flow_tracked, tracked_sweep, Hnew in Hfb.
  by exists s, bound, r1.
Qed.

Lemma sweep_deferred (r : Router R) (now : Z) : deferred (sweep r now) = deferred r.
Proof. unfold sweep. by destruct (match last_sweep r with Some _ => _ | None => _ end). Qed.

(** A flow never seen takes what the policy says of its app.  Its first packet, with its process
    looked up on the packet path, goes through the app's route, or through main when the app has
    none; but when it belongs to a TCP connection already under way and its app is routed, it is
    reset. *)
Theorem new_flow_as_expected `{!AppFlow R} (r r' : Router R) (p p' : bytes) (arrived clock : Z) (v : Verdict)
    (flags : Z) (frag : option FragmentKey)
    (Hkeys : keys_total) (Hr : honest_state r) (Hb : bytes_ok p) (Hcall : app_call p arrived clock)
    (Hact : policy_is_active (policy r) = true) (Hdef : deferred r = false)
    (Hc : classify p Uplink = Ok (Flow app_flow flags frag))
    (Hnew : tracked_of r app_flow arrived = None)
    (Hx : @uplink _ _ R _ Empty_set r p arrived clock = Ok (r', p', v)) :
  @carried R Empty_set r
    (expected (policy r) (bool_decide (transport app_flow = Tcp) && negb (is_opening app_flow flags))) p p' v.
Proof.
  destruct (untracked_attribution r r' p p' arrived clock v app_flow flags frag Hkeys (hs_wf _ Hr) Hb Hact Hc Hnew Hx)
    as (s & bound & r1 & Hsw & Hk & Hat & Hbv).
  destruct (lookup_flow_honest (sweep r arrived) app_flow Uplink flags arrived (sweep_honest r arrived Hr))
    as (Hh1 & Hp1 & Hd1 & _).
  rewrite sweep_policy in Hp1. rewrite sweep_deferred, Hdef in Hd1.
  pose proof (@attributed_honest _ _ R _ _ _ Empty_set (lookup_flow (sweep r arrived) app_flow Uplink flags arrived).1
    app_flow flags s arrived clock Hkeys Hh1 Hk Hsw) as Hy.
  rewrite Hat in Hy. destruct Hy as (_ & _ & Hexp); [intros _; destruct Hcall as [? Hca]; split; [by eapply Hca|done]|].
  rewrite Hp1 in Hexp. destruct (Hexp eq_refl) as [_ Hbound]. specialize (Hbound Hact Hd1). cbn [snd] in Hbound.
  subst bound. unfold bound_verdict in Hbv.
  destruct (bool_decide_reflect (expected (policy r)
    (bool_decide (transport app_flow = Tcp) && negb (is_opening app_flow flags)) = Pending)) as [Hp|]; [|done].
  exfalso. revert Hp. unfold expected. destruct (app_route _); [|done]. by destruct (_ && _).
Qed.

(** A flow whose owner cannot be found leaves through main.  When the tables cannot be read for the
    first packet of a flow, the packet goes through the main session whatever the policy says of the
    app behind it, unless it belongs to a TCP connection already under way: then it is dropped. *)
Theorem unlisted_flow_takes_main (r r' : Router R) (p p' : bytes) (arrived clock : Z) (v : Verdict)
    (k : FlowKey) (flags : Z) (frag : option FragmentKey)
    (Hkeys : keys_total) (Hr : router_wf r) (Hb : bytes_ok p)
    (Hact : policy_is_active (policy r) = true) (Hdef : deferred r = false)
    (Hc : classify p Uplink = Ok (Flow k flags frag)) (Ht : transport k <> IcmpEcho)
    (Hnew : tracked_of r k arrived = None)
    (Hstale : match snapshot_taken r with Some taken => taken < arrived | None => True end)
    (Herr : (refresh (resolver r) clock).2 <> None)
    (Hx : @uplink _ _ R _ Empty_set r p arrived clock = Ok (r', p', v)) :
  p' = p /\ v = if bool_decide (transport k = Tcp) && negb (is_opening k flags) then VDrop else VMain.
Proof.
  destruct (untracked_attribution r r' p p' arrived clock v k flags frag Hkeys Hr Hb Hact Hc Hnew Hx)
    as (s & bound & r1 & Hsw & Hk & Hat & Hbv).
  assert (forall r0 : Router R, resolver (lookup_flow r0 k Uplink flags arrived).1 = resolver r0
    /\ snapshot_taken (lookup_flow r0 k Uplink flags arrived).1 = snapshot_taken r0
    /\ deferred (lookup_flow r0 k Uplink flags arrived).1 = deferred r0
    /\ policy (lookup_flow r0 k Uplink flags arrived).1 = policy r0) as Hlook.
  { intros r0. unfold lookup_flow. destruct (flows r0); [|done]. by destruct (lookup_mut _ _ _ _ _). }
  destruct (Hlook (sweep r arrived)) as (Hres & Hst & Hd & Hpol).
  assert (resolver (sweep r arrived) = resolver r /\ snapshot_taken (sweep r arrived) = snapshot_taken r) as [E1 E2].
  { unfold sweep. by destruct (match last_sweep r with Some _ => _ | None => _ end). }
  rewrite E1 in Hres. rewrite E2 in Hst. rewrite sweep_deferred, Hdef in Hd. rewrite sweep_policy in Hpol.
  set (r0 := (lookup_flow (sweep r arrived) k Uplink flags arrived).1) in *. clearbody r0. clear Hlook.
  unfold attributed in Hat. rewrite Hpol, Hact in Hat. cbn [negb] in Hat.
  apply bind_ok in Hat as ([r2 [b pr]] & Hattr & Hins).
  assert (b = if bool_decide (transport k = Tcp) && negb (is_opening k flags) then Blocked else Main) as Hbb.
  { unfold attribute in Hattr. rewrite bool_decide_eq_false_2 in Hattr by done. cbn [deferred set_counters] in Hattr.
    rewrite Hd in Hattr. cbv zeta in Hattr. unfold ensure_fresh_view in Hattr. cbn [snapshot_taken resolver set_counters] in Hattr.
    rewrite Hst, Hres in Hattr.
    assert (match snapshot_taken r with Some taken => arrived <=? taken | None => false end = false) as Hs
      by (destruct (snapshot_taken r); [apply Z.leb_gt|]; done).
    rewrite Hs in Hattr. pose proof (refresh_view (resolver r) clock) as Hrv.
    destruct (refresh (resolver r) clock) as [res [err|]]; cbn [fst snd] in *; [|done].
    destruct (empty_view res k Hrv) as [Hso Ho].
    destruct (bool_decide (transport k = Tcp) && negb (is_opening k flags)); cbn [resolver set_snapshot_taken set_counters set_resolver] in Hattr.
    - destruct (socket_owner res k) as [res' o]; cbn [snd] in *. subst o. cbn in Hattr. by injection Hattr as <- <- <-.
    - destruct (owner res k) as [res' o]; cbn [snd] in *. subst o. cbn in Hattr. by injection Hattr as <- <- <-. }
  assert (bound = b) as ->.
  { destruct (flows r2); [|by injection Hins as <- <-]. by apply bind_ok in Hins as (t & _ & [= <- <-]). }
  unfold bound_verdict in Hbv. rewrite bool_decide_eq_false_2 in Hbv by (rewrite Hbb; by destruct (_ && _)).
  rewrite Hbb in Hbv. by destruct (_ && _); destruct Hbv as [-> ->].
Qed.

(** Where a decision leads under a policy. *)
Definition target_of (p : Policy) (bound : Binding) : Target :=
  match bound with Route route => TSession (policy_session p route) | _ => TMain end.

(** A new policy keeps, resets or forgets each flow as its app's session says.  For a
    tracked flow of a process that still runs its program, on main or on a route, when an app is still
    routed: if its app keeps its session (or stays on main) the flow stays live, bound to the route that now holds that session;
    if not, a TCP connection is bound to be reset and starts closing, and any other flow is
    forgotten, to be attributed again at its next packet. *)
Theorem policy_change_fate `{!AppFlow R} (r r' : Router R) (new : Policy) (clock : Z) (t : FlowTable Tracked)
    (k : FlowKey) (e : Entry Tracked)
    (Hkeys : keys_total) (Hr : router_wf r) (Hnew : policy_wf new) (Hact : policy_is_active new = true)
    (Hx : @set_policy _ _ R _ Empty_set r new clock = Ok r')
    (Ht : flows r = Some t) (He : entries t !! k = Some e) (Hpk : process (value e) = Some app_process)
    (Hb : binding (value e) = Main \/ exists route, binding (value e) = Route route) :
  exists t', flows r' = Some t' /\
    let after := match app_route new with Some route => Route route | None => Main end in
    entries t' !! k =
      if bool_decide (target_of new after = target_of (policy r) (binding (value e)))
      then Some (mkEntry (mkTracked after (Some app_process) (app_side (value e))) (last_seen e) (lifecycle e))
      else if bool_decide (transport k = Tcp)
           then Some (mkEntry (mkTracked Reset (Some app_process) (app_side (value e))) clock Closing)
           else None.
Proof.
  revert Hx. unfold set_policy. cbv zeta. rewrite Ht.
  set (r1 := set_snapshot_taken None _).
  assert (flows r1 = Some t /\ policy r1 = policy r) as [Hf1 Hp1] by done.
  assert (router_wf r1) as Hwf1.
  { pose proof Hr as Hwf0. unfold r1. apply set_snapshot_wf, set_resolver_wf.
    apply set_decisions_wf; [apply cache_clear_wf, Hwf0|].
    apply set_downlink_fragments_wf; [apply zsize_empty_fragments|].
    by apply set_uplink_fragments_wf; [apply zsize_empty_fragments|]. }
  clearbody r1.
  pose proof (@decide_again_flows _ _ R _ _ _ Empty_set r1 new Hkeys (pw_flavor _ Hnew)) as Hda.
  destruct (decide_again r1 new) as [[r2 again]| |]; try done.
  destruct Hda as ((res & Hr2 & Hres) & Hcoh & Hask). cbn [fst snd] in *. subst r2. rewrite bind_Ok. cbn beta iota.
  set (r3 := set_decisions _ _).
  assert (router_wf r3) as Hwf3.
  { unfold r3. apply set_decisions_wf; [|by apply set_resolver_wf].
    generalize (hash_iter again). intros l.
    assert (cache_wf (decisions (set_resolver res r1))) as Hc by apply Hwf1. revert Hc.
    generalize (decisions (set_resolver res r1)). induction l as [|x l IH]; intros c Hc; simpl; [done|].
    by apply IH, cache_insert_wf. }
  pose proof (@revise_flows_yields _ _ R Empty_set r3 new again clock Hwf3) as Hrv.
  assert (flows r3 = Some t /\ policy r3 = policy r) as [Hf3 Hp3] by (unfold r3; cbn; by rewrite Hp1).
  clearbody r3. destruct (revise_flows r3 new again clock) as [r4| |]; try done.
  destruct Hrv as (_ & _ & Hfl). rewrite Hf3, Hp3 in Hfl. destruct Hfl as (t' & Ht' & Hent).
  rewrite bind_Ok. intros [= <-]. exists t'. split; [done|]. cbv zeta. rewrite Hent, He. cbn [mbind option_bind].
  pose proof (Hask t k e Hf1 He Hpk) as Hdec. unfold revised, fate, revision. rewrite Hpk. cbn [mbind option_bind].
  rewrite Hdec. set (after := match app_route new with Some route => Route route | None => Main end).
  assert (forall before, before = target_of (policy r) (binding (value e)) ->
    (match app_route new with
     | Some route => inl (Some (Route route)) | None => inl (Some Main) end : option Binding + unit)
    = inl (Some after)) as Hafter by (intros; unfold after; by destruct (app_route new)).
  rewrite Hact. destruct Hb as [Hb|[route Hb]]; rewrite Hb; cbn [target_of] in *.
  - destruct (app_route new) as [route'|]; cbn [mbind option_bind target_of after].
    + rewrite !bool_decide_eq_false_2 by done. by destruct (bool_decide (transport k = Tcp)).
    + rewrite !bool_decide_eq_true_2 by done. done.
  - destruct (app_route new) as [route'|]; cbn [mbind option_bind target_of after].
    + destruct (bool_decide (TSession (policy_session new route') = TSession (policy_session (policy r) route))); cbn; [done|].
      by destruct (bool_decide (transport k = Tcp)).
    + rewrite !bool_decide_eq_false_2 by done. by destruct (bool_decide (transport k = Tcp)).
Qed.
End PerPolicy.

Section Policies.
Context `{!Platform}.

(** A policy is refused exactly when an app names a route it does not have; an accepted one is
    well formed: every app's route exists, and route [n] holds session [n] until sessions are
    named, which is refused unless there is one for each route. *)
Theorem policy_new_checks_routes (m : SessionAddresses) (l : list (str * Z)) (rs : list RouteState) (ss : list Z)
    (Hkeys : keys_total) (Hm : addresses_wf m) (Hrs : Forall state_wf rs) (Hl : Forall (fun ar => 0 <= ar.2) l) :
  if bool_decide (Forall (fun ar => ar.2 < zlen rs) l) then
    exists p, policy_new m l rs = Ok p /\ policy_wf p /\ routes p = rs /\
      (forall i, 0 <= i < zlen rs -> policy_session p i = Some i) /\
      if zlen ss =? zlen rs
      then exists q, with_sessions p ss = Ok q /\ policy_wf q /\ sessions q = ss
      else with_sessions p ss = Err SessionCount
  else policy_new m l rs = Err UnknownRoute.
Proof.
  unfold policy_new.
  assert (existsb (fun app => zlen rs <=? app.2) l = negb (bool_decide (Forall (fun ar => ar.2 < zlen rs) l))) as ->.
  { destruct (bool_decide_reflect (Forall (fun ar => ar.2 < zlen rs) l)) as [Hall|Hnot]; simpl.
    - apply not_true_iff_false. intros ([a v] & Hin & Hle)%existsb_exists. zbool.
      rewrite Forall_forall in Hall. specialize (Hall (a, v) (proj2 (list_elem_of_In _ _) Hin)). simpl in *. lia.
    - apply existsb_exists. apply not_Forall_Exists in Hnot; [|intros x; apply _].
      apply Exists_exists in Hnot as ([a v] & Hin & Hlt). exists (a, v). simpl in *.
      split; [by apply list_elem_of_In|]. apply Z.leb_le. lia. }
  destruct (bool_decide_reflect (Forall (fun ar => ar.2 < zlen rs) l)) as [Hall|Hnot]; cbn [negb]; [|done].
  destruct (@matcher_new_total _ Z PolicyError l ∅ Hkeys) as [map Hmap].
  unfold matcher_new. rewrite Hmap. cbn [mbind comp_bind].
  assert (policy_wf (mkPolicy m (mkAppMatcher HOST map) rs (Z.of_nat <$> seq 0 (length rs)))) as Hwf.
  { split; cbn; try done.
    - eapply (matcher_values HOST l ∅ map (fun v => 0 <= v < zlen rs)); [exact Hmap|apply map_Forall_empty|].
      rewrite !Forall_forall in *. intros x Hin. specialize (Hl x Hin). specialize (Hall x Hin). simpl in *. lia.
    - unfold zlen. rewrite length_fmap, length_seq. done. }
  eexists. split; [done|]. split; [done|]. split; [done|]. split.
  - intros i Hi. unfold policy_session, get, zlen in *. cbn. destruct (Z.leb_spec 0 i); [|lia].
    rewrite list_lookup_fmap, lookup_seq_lt by lia. cbn. f_equal. lia.
  - unfold with_sessions. cbn [routes main apps]. destruct (Z.eqb_spec (zlen ss) (zlen rs)) as [He|He]; cbn [negb]; [|done].
    eexists. split; [done|]. split; [|done]. destruct Hwf. by split.
Qed.
End Policies.
