(* ===== verification/RouterWitness.v ===== *)
(** * The router's theorems at work

    A Linux host where Firefox is routed, and one packet of each kind: every
    theorem of [RouterSpec] that has hypotheses is applied where they hold. *)

From S2P Require Import Prelude Net Ip Flow FlowTable Nat AppKey Reset Owner Router RouterInv RouterWorld RouterSpec.
Open Scope Z_scope.

#[local] Existing Instance linux_host.
#[local] Existing Instance default_order.

Definition firefox : str := lit "/usr/lib/firefox/firefox".

(** A resolver that knows when it last read its tables, and the programs it watches.  From second 1
    on, process 7, which runs Firefox, holds the socket on local port 1000; before, process 9, which
    runs curl, did.  Nobody holds the others. *)
Record SampleResolver : Type := mkSampleResolver { sample_watched : str -> bool; sample_view : option Z }.

Definition sample_process (p : Z) : option ProcessKey :=
  if (p =? 7) || (p =? 9) then Some (mkProcessKey p 100 p) else None.

Definition sample_owner (res : SampleResolver) (k : FlowKey) : option Z :=
  read ← sample_view res;
  if port (local k) =? 1000 then Some (if secs 1 <=? read then 7 else 9) else None.

#[local] Instance sample_resolver : OwnerResolver SampleResolver := {|
  socket_owner res k := (res, sample_owner res k);
  owner res k := (res, owner_of (sample_owner res k));
  watch_programs V res m := mkSampleResolver (fun path => bool_decide (is_Some (lookup_of m path))) (sample_view res);
  refresh res now := (mkSampleResolver (sample_watched res) (Some now), None);
  process_key res p := (res, sample_process p);
  executable res p := (res, if p =? 7 then Some firefox else Some (lit "/usr/bin/curl"))
|}.

#[local] Instance sample_host_view : HostView SampleResolver.
Proof.
  refine {| view_since res := sample_view res; watched res := sample_watched res |}; try done.
  - intros res k Hv. cbn. unfold sample_owner. by rewrite Hv.
  - intros res p pk. cbn. unfold sample_process. destruct (_ || _); [|done]. by intros [= <-].
Defined.

Definition sample_udp_flow : FlowKey :=
  mkFlowKey Udp (mkSocketAddr (V4 [10; 0; 0; 2]) 1000) (mkSocketAddr (V4 [10; 0; 0; 9]) 53).

(** The flow of [sample_udp]: Firefox's from second 1 on. *)
#[local] Instance sample_app_flow : AppFlow SampleResolver.
Proof.
  assert (forall res t, sample_view res = Some t -> secs 1 <= t -> sample_owner res sample_udp_flow = Some 7) as Hl.
  { intros res t Hv Ht. unfold sample_owner. rewrite Hv. cbn [mbind option_bind].
    by rewrite (proj2 (Z.leb_le _ _) Ht). }
  refine {|
    app_flow := sample_udp_flow;
    app_process := mkProcessKey 7 100 7;
    app_program := firefox;
    app_since := secs 1
  |}; try done.
  intros res t Hv Ht. left. cbn. by rewrite (Hl res t Hv Ht).
Defined.

Lemma linux_keys_total : keys_total.
Proof. done. Qed.

Definition sample_main : SessionAddresses := mkSessionAddresses (Some [10; 0; 0; 2]) None.
Definition sample_route : SessionAddresses := mkSessionAddresses (Some [10; 64; 0; 2]) None.

Lemma v4_addresses_wf o : bytes_ok o -> zlen o = 4 -> addresses_wf (mkSessionAddresses (Some o) None).
Proof. intros Hb Hz. by split; [intros ? [= <-]|]. Qed.

Lemma sample_main_wf : addresses_wf sample_main.
Proof. apply v4_addresses_wf; [repeat constructor; lia|done]. Qed.
Lemma sample_route_wf : addresses_wf sample_route.
Proof. apply v4_addresses_wf; [repeat constructor; lia|done]. Qed.

(** Firefox through route 0, then through route 1 under another session. *)
Definition sample_policy : Policy :=
  mkPolicy sample_main (mkAppMatcher Linux {[ firefox := 0 ]}) [Connected sample_route] [0].
Definition other_policy : Policy :=
  mkPolicy sample_main (mkAppMatcher Linux {[ firefox := 1 ]}) [Connecting; Connected sample_route] [8; 9].

Lemma sample_policy_wf : policy_wf sample_policy.
Proof.
  split; [apply sample_main_wf|done| |apply Forall_singleton, sample_route_wf|done].
  apply map_Forall_singleton. by vm_compute.
Qed.
Lemma other_policy_wf : policy_wf other_policy.
Proof.
  split; [apply sample_main_wf|done| |apply Forall_cons; split; [done|apply Forall_singleton, sample_route_wf]|done].
  apply map_Forall_singleton. by vm_compute.
Qed.

(** Its tables were last read when the port was process 9's. *)
Definition stale_resolver : SampleResolver := mkSampleResolver (fun _ => false) (Some 0).
Definition empty_router : Router SampleResolver := with_capacity stale_resolver 16.
Definition or_else {A : Type} (m : comp Empty_set A) (d : A) : A := match m with Ok a => a | _ => d end.
Definition is_ok {A : Type} (m : comp Empty_set A) : Prop := match m with Ok _ => True | _ => False end.

(** The router after its first policy, and after a packet of Firefox. *)
Definition routing : Router SampleResolver := or_else (set_policy empty_router sample_policy (secs 1)) empty_router.
Definition routed_packet := @uplink _ _ _ _ Empty_set routing sample_udp (secs 2) (secs 2).

Lemma routing_eq : @set_policy _ _ _ _ Empty_set empty_router sample_policy (secs 1) = Ok routing.
Proof.
  unfold routing. assert (is_ok (@set_policy _ _ _ _ Empty_set empty_router sample_policy (secs 1))) as H by (by vm_compute).
  by destruct (set_policy _ _ _).
Qed.

Lemma routing_honest_reachable : honest_reachable stale_resolver 16 routing.
Proof. apply rtc_once. eapply step_policy; [apply sample_policy_wf|apply routing_eq]. Qed.
Lemma routing_reachable : reachable stale_resolver 16 routing.
Proof. apply rtc_once. eapply step_policy; [apply sample_policy_wf|apply routing_eq]. Qed.

Lemma routing_honest : honest_state routing.
Proof. eapply honest_reachable_state; [done|apply routing_honest_reachable]. Qed.
Lemma routing_wf : router_wf routing.
Proof. apply routing_honest. Qed.

Lemma sample_udp_bytes : bytes_ok sample_udp.
Proof. repeat constructor; lia. Qed.

Lemma router_never_panics_witness :
  router_wf routing /\
  (forall p arrived clock, bytes_ok p -> exists x, @uplink _ _ _ _ Empty_set routing p arrived clock = Ok x) /\
  (forall route p now, bytes_ok p -> exists x, @downlink _ _ Empty_set routing route p now = Ok x) /\
  (forall new clock, policy_wf new -> exists r', @set_policy _ _ _ _ Empty_set routing new clock = Ok r') /\
  (forall q o now, exists r', @complete _ _ _ Empty_set routing q o now = Ok r').
Proof. exact (router_never_panics _ _ routing linux_keys_total routing_reachable). Defined.

Lemma routed_packet_ok : is_ok routed_packet.
Proof. by vm_compute. Qed.

Lemma sample_udp_call (arrived : Z) : secs 1 <= arrived -> app_call sample_udp arrived arrived.
Proof. intros H. split; [lia|]. by intros. Qed.

Lemma second_two : secs 1 <= secs 2.
Proof. by vm_compute. Qed.

Lemma routed_app_never_leaks_witness :
  match routed_packet with
  | Ok (r', p', v) => v = VRoute 0 \/ v = VDrop \/ v = VHold sample_udp_flow
  | _ => False
  end.
Proof.
  pose proof routed_packet_ok as Hok. destruct routed_packet as [[[r' p'] v]| |] eqn:Hx; [|exact Hok|exact Hok].
  exact (routed_app_never_leaks _ _ routing r' sample_udp p' (secs 2) (secs 2) v 0 None
    linux_keys_total routing_honest_reachable sample_udp_bytes (sample_udp_call _ second_two) eq_refl Hx).
Defined.

Lemma uplink_translates_witness :
  match routed_packet with
  | Ok (r', p', VRoute route) =>
      exists a l, route_state routing route = Some (Connected a) /\ locate sample_udp = Ok l /\ locate p' = Ok l /\
        for_family_of (main (policy routing)) (src_of l sample_udp) = Some (src_of l sample_udp) /\
        for_family_of a (src_of l sample_udp) = Some (src_of l p') /\ dst_of l p' = dst_of l sample_udp /\
        zlen p' = zlen sample_udp /\ bytes_ok p'
  | _ => False
  end.
Proof.
  pose proof (eq_refl : match routed_packet with Ok (_, _, VRoute _) => True | _ => False end = True) as Hok.
  destruct routed_packet as [[[r' p'] v]| |] eqn:Hx; [|rewrite Hok; exact I|rewrite Hok; exact I].
  pose proof (uplink_translates routing sample_udp p' (secs 2) (secs 2) r' v linux_keys_total routing_wf
    sample_udp_bytes Hx) as Ht.
  destruct v; [rewrite Hok; exact I|exact Ht|rewrite Hok; exact I|rewrite Hok; exact I].
Defined.

Lemma new_flow_as_expected_witness :
  match routed_packet with
  | Ok (r', p', v) => @carried _ Empty_set routing (Route 0) sample_udp p' v
  | _ => False
  end.
Proof.
  pose proof routed_packet_ok as Hok. destruct routed_packet as [[[r' p'] v]| |] eqn:Hx; [|exact Hok|exact Hok].
  exact (new_flow_as_expected routing r' sample_udp p' (secs 2) (secs 2) v 0 None
    linux_keys_total routing_honest sample_udp_bytes (sample_udp_call _ second_two) ltac:(by vm_compute)
    ltac:(by vm_compute) eq_refl ltac:(by vm_compute) Hx).
Defined.

(** The reply of the remote end to the routed packet, and a datagram in two fragments. *)
Definition sample_reply : bytes :=
  [69; 0; 0; 28; 0; 0; 64; 0; 64; 17; 38; 135; 10; 0; 0; 9; 10; 64; 0; 2; 0; 53; 3; 232; 0; 8; 231; 118].
Definition first_fragment : bytes :=
  [69; 0; 0; 28; 0; 5; 32; 0; 64; 17; 70; 194; 10; 0; 0; 2; 10; 0; 0; 9; 3; 232; 0; 53; 0; 12; 227; 168].
Definition second_fragment : bytes :=
  [69; 0; 0; 24; 0; 5; 0; 1; 64; 17; 102; 197; 10; 0; 0; 2; 10; 0; 0; 9; 1; 2; 3; 4].

Lemma sample_reply_bytes : bytes_ok sample_reply.
Proof. repeat constructor; lia. Qed.
Lemma first_fragment_bytes : bytes_ok first_fragment.
Proof. repeat constructor; lia. Qed.
Lemma second_fragment_bytes : bytes_ok second_fragment.
Proof. repeat constructor; lia. Qed.

(** The router once the packet went out. *)
Definition after_packet : Router SampleResolver := (or_else routed_packet (routing, [], VDrop)).1.1.
Definition sent_packet : bytes := (or_else routed_packet (routing, [], VDrop)).1.2.

Lemma routed_packet_eq : routed_packet = Ok (after_packet, sent_packet, VRoute 0).
Proof.
  assert (match routed_packet with Ok (_, _, v) => v = VRoute 0 | _ => False end) as Hv by (by vm_compute).
  unfold after_packet, sent_packet. destruct routed_packet as [[[r' p'] v]| |]; try done. by subst v.
Qed.

Lemma after_packet_honest : honest_state after_packet.
Proof.
  eapply (honest_reachable_state stale_resolver 16); [done|].
  eapply rtc_r; [apply routing_honest_reachable|].
  exact (step_uplink app_callers routing sample_udp (secs 2) (secs 2) after_packet sent_packet (VRoute 0) sample_udp_bytes
    (sample_udp_call _ second_two) routed_packet_eq).
Qed.

Lemma reply_comes_back_witness :
  exists r'' q', @downlink _ _ Empty_set after_packet 0 sample_reply (secs 2) = Ok (r'', q', Deliver) /\
    classify q' Downlink = Ok (Flow sample_udp_flow 0 None).
Proof.
  exact (proj2 (reply_comes_back routing after_packet sample_udp sent_packet sample_reply (secs 2) (secs 2) 0
    sample_udp_flow 0 0 (mkLayout FamilyV4 PROTO_UDP 20 28 None) linux_keys_total routing_wf
    ltac:(by vm_compute) sample_udp_bytes sample_reply_bytes eq_refl eq_refl routed_packet_eq ltac:(by vm_compute))).
Defined.

Definition delivered := @downlink _ _ Empty_set after_packet 0 sample_reply (secs 3).

Lemma downlink_only_own_flows_witness :
  match delivered with
  | Ok (r', p', Deliver) => policy_is_active (policy after_packet) = true
  | _ => False
  end.
Proof.
  pose proof (eq_refl : match delivered with Ok (_, _, Deliver) => True | _ => False end = True) as Hok.
  destruct delivered as [[[r' p'] d]| |] eqn:Hx; [|rewrite Hok; exact I|rewrite Hok; exact I].
  pose proof (downlink_only_own_flows after_packet 0 sample_reply p' (secs 3) r' d
    (hs_wf _ after_packet_honest) sample_reply_bytes Hx) as Hd.
  destruct d; [exact (proj1 Hd)|rewrite Hok; exact I].
Defined.

Definition second_packet := @uplink _ _ _ _ Empty_set after_packet sample_udp (secs 4) (secs 4).

Lemma known_flow_keeps_binding_witness :
  match second_packet with
  | Ok (r', p', v) => @bound_verdict _ Empty_set after_packet sample_udp_flow (Route 0) sample_udp p' v
  | _ => False
  end.
Proof.
  assert (is_ok second_packet) as Hok by (by vm_compute).
  destruct second_packet as [[[r' p'] v]| |] eqn:Hx; [|exact Hok|exact Hok].
  exact (known_flow_keeps_binding after_packet sample_udp p' (secs 4) (secs 4) r' v sample_udp_flow 0 None None
    (mkTracked (Route 0) (Some (mkProcessKey 7 100 7)) AppSide_default) linux_keys_total
    (hs_wf _ after_packet_honest) sample_udp_bytes eq_refl eq_refl ltac:(by vm_compute) eq_refl Hx).
Defined.

Definition first_sent := @uplink _ _ _ _ Empty_set routing first_fragment (secs 2) (secs 2).
Definition second_sent :=
  @uplink _ _ _ _ Empty_set (or_else first_sent (routing, [], VDrop)).1.1 second_fragment (secs 3) (secs 3).

Lemma later_fragment_follows_first_witness :
  match first_sent, second_sent with
  | Ok (r1, p1, v1), Ok (r2, p2, v2) =>
      exists bound, @bound_verdict _ Empty_set routing sample_udp_flow bound first_fragment p1 v1 /\
        @carried _ Empty_set routing bound second_fragment p2 v2
  | _, _ => False
  end.
Proof.
  assert (is_ok second_sent) as Hok2 by (by vm_compute). assert (is_ok first_sent) as Hok1 by (by vm_compute).
  unfold second_sent in *.
  destruct first_sent as [[[r1 p1] v1]| |] eqn:Hx1; [|exact Hok1|exact Hok1]. simpl or_else in *. cbn [fst] in *.
  destruct (uplink r1 second_fragment (secs 3) (secs 3)) as [[[r2 p2] v2]| |] eqn:Hx2; [|exact Hok2|exact Hok2].
  refine (proj1 (later_fragment_follows_first routing r1 r2 first_fragment p1 second_fragment p2
    (secs 2) (secs 2) (secs 3) (secs 3) v1 v2 sample_udp_flow 0
    (mkFragmentKey (V4 [10; 0; 0; 2]) (V4 [10; 0; 0; 9]) 17 5) (mkFragmentKey (V4 [10; 0; 0; 2]) (V4 [10; 0; 0; 9]) 17 5)
    linux_keys_total routing_wf _ first_fragment_bytes second_fragment_bytes eq_refl eq_refl Hx1 Hx2) eq_refl _);
    [by vm_compute|by vm_compute].
Defined.

(** Firefox moves to another session: its UDP flow is forgotten. *)
Definition moved : Router SampleResolver :=
  or_else (set_policy after_packet other_policy (secs 5)) after_packet.

Lemma moved_eq : @set_policy _ _ _ _ Empty_set after_packet other_policy (secs 5) = Ok moved.
Proof.
  unfold moved. assert (is_ok (@set_policy _ _ _ _ Empty_set after_packet other_policy (secs 5))) as Hok by (by vm_compute).
  by destruct (set_policy _ _ _).
Qed.

Definition tracked_udp : Tracked := mkTracked (Route 0) (Some (mkProcessKey 7 100 7)) AppSide_default.

Lemma after_packet_entry : exists t e,
  flows after_packet = Some t /\ entries t !! sample_udp_flow = Some e /\ value e = tracked_udp.
Proof.
  assert (match flows after_packet with Some t => value <$> entries t !! sample_udp_flow | None => None end
          = Some tracked_udp) as Hval by (by vm_compute).
  destruct (flows after_packet) as [t|]; [|discriminate].
  destruct (entries t !! sample_udp_flow) as [e|] eqn:He; [|discriminate].
  injection Hval as Hval. exists t, e. split; [reflexivity|]. split; [exact He|exact Hval].
Qed.

Lemma moved_target :
  target_of other_policy (match app_route other_policy with
                          | Some route => Route route | None => Main end)
  <> target_of (policy after_packet) (Route 0).
Proof. by vm_compute. Qed.

Lemma policy_change_fate_witness :
  exists t', flows moved = Some t' /\ entries t' !! sample_udp_flow = None.
Proof.
  destruct after_packet_entry as (t & e & Ht & He & Hv).
  assert (process (value e) = Some (mkProcessKey 7 100 7)) as Hp by (rewrite Hv; reflexivity).
  assert (binding (value e) = Route 0) as Hb by (rewrite Hv; reflexivity).
  destruct (policy_change_fate (AppFlow0 := sample_app_flow) after_packet moved other_policy (secs 5) t sample_udp_flow e
    linux_keys_total (hs_wf _ after_packet_honest) other_policy_wf eq_refl moved_eq Ht He Hp
    (or_intror (ex_intro _ 0 Hb))) as (t' & Ht' & Hent).
  exists t'. split; [exact Ht'|]. rewrite Hent, Hb.
  rewrite (bool_decide_eq_false_2 _ moved_target). reflexivity.
Defined.

Lemma policy_new_checks_routes_witness :
  exists p, policy_new sample_main [(firefox, 0)] [Connected sample_route] = Ok p /\ policy_wf p.
Proof.
  assert (Forall state_wf [Connected sample_route]) as Hs by (apply Forall_singleton, sample_route_wf).
  destruct (policy_new_checks_routes sample_main [(firefox, 0)] [Connected sample_route] []
    linux_keys_total sample_main_wf Hs ltac:(repeat constructor; simpl; lia)) as (p & Hp & Hwf & _).
  exists p. split; [exact Hp|exact Hwf].
Defined.

(** ** On macOS *)

Definition mac_host : Platform := {|
  HOST := MacOs; canonicalize _ := None; to_lowercase s := to_ascii_lower <$> s |}.

(** Process 7, a tool in the home directory of a user called 张三, holds every socket. *)
Definition mac_resolver : OwnerResolver unit := {|
  socket_owner res k := (res, Some 7);
  owner res k := (res, Process 7);
  watch_programs V res m := res;
  refresh res now := (res, None);
  process_key res p := (res, Some (mkProcessKey 7 100 5));
  executable res p := (res, Some zhang_san_home)
|}.

Definition mac_policy : Policy :=
  mkPolicy sample_main (mkAppMatcher MacOs {[ lit "/Applications/Firefox.app" := 0 ]}) [Connected sample_route] [0].

(** On macOS the router panics on the first packet of a program whose path has a component cut
    by the four-byte suffix test, whether or not that program is routed: any app being routed is
    enough for the packet to be attributed, and reducing the program's path to its key panics. *)
Theorem macos_uplink_panics :
  (r ← @set_policy _ mac_host unit mac_resolver Empty_set
         (@with_capacity mac_host unit tt 16) mac_policy (secs 1);
   @uplink _ mac_host unit mac_resolver Empty_set r sample_udp (secs 2) (secs 2)) = Panic.
Proof. by vm_compute. Qed.
