(* ===== verification/Datapath.v ===== *)
(** * The router between the TUN device and the sessions (warren-app-routes/src/datapath.rs)

    A [RoutingTable] and the two devices over it.  Each method runs under the
    table's lock, so a method is one step; the flags read outside the lock are
    fields of the state.  A route's queue is a channel: the channels live in a
    heap, indexed by the order they were opened in, and the table and the
    session's device each hold an end of one.  [Instant::now()] read inside a
    method is its arguments [arrived] and [clock]. *)

From S2P Require Import Prelude Net Ip Flow FlowTable Nat AppKey Reset Owner Router.
Open Scope Z_scope.

Definition ROUTE_QUEUE_PACKETS : Z := 1024.
Definition HELD_FLOWS : Z := 1024.
Definition HELD_PACKETS_PER_FLOW : Z := 64.

(** A bounded [mpsc] channel: what waits in it, and whether each end is still held. *)
Record Channel : Type := mkChannel { ch_packets : list bytes; ch_sender : bool; ch_receiver : bool }.

(** [RoutingTable] and its [Inner], the channels of its routes with it; [rt_lookups] is what the
    owner threads have not received yet. *)
Record RoutingTable (R : Type) : Type := mkRoutingTable {
  rt_active : bool;
  rt_resets_pending : bool;
  rt_deferred : bool;
  rt_released_pending : bool;
  rt_router : Router R;
  rt_queues : list (option nat);
  rt_held : gmap FlowKey (list bytes);
  rt_released : list bytes;
  rt_lookups : option (list OwnerQuery);
  rt_channels : list Channel
}.
Arguments mkRoutingTable {R}.
Arguments rt_active {R}.
Arguments rt_resets_pending {R}.
Arguments rt_deferred {R}.
Arguments rt_released_pending {R}.
Arguments rt_router {R}.
Arguments rt_queues {R}.
Arguments rt_held {R}.
Arguments rt_released {R}.
Arguments rt_lookups {R}.
Arguments rt_channels {R}.

(** Where an uplink packet went. *)
Inductive Uplinked : Type := UMain | UTaken.

(** One field written. *)
Section Fields.
Context {R : Type}.
Implicit Types t : RoutingTable R.

Definition rt_set_active x t := mkRoutingTable x (rt_resets_pending t) (rt_deferred t) (rt_released_pending t)
  (rt_router t) (rt_queues t) (rt_held t) (rt_released t) (rt_lookups t) (rt_channels t).
Definition rt_set_resets_pending x t := mkRoutingTable (rt_active t) x (rt_deferred t) (rt_released_pending t)
  (rt_router t) (rt_queues t) (rt_held t) (rt_released t) (rt_lookups t) (rt_channels t).
Definition rt_set_released_pending x t := mkRoutingTable (rt_active t) (rt_resets_pending t) (rt_deferred t) x
  (rt_router t) (rt_queues t) (rt_held t) (rt_released t) (rt_lookups t) (rt_channels t).
Definition rt_set_router (x : Router R) t := mkRoutingTable (rt_active t) (rt_resets_pending t) (rt_deferred t)
  (rt_released_pending t) x (rt_queues t) (rt_held t) (rt_released t) (rt_lookups t) (rt_channels t).
Definition rt_set_queues x t := mkRoutingTable (rt_active t) (rt_resets_pending t) (rt_deferred t)
  (rt_released_pending t) (rt_router t) x (rt_held t) (rt_released t) (rt_lookups t) (rt_channels t).
Definition rt_set_held x t := mkRoutingTable (rt_active t) (rt_resets_pending t) (rt_deferred t)
  (rt_released_pending t) (rt_router t) (rt_queues t) x (rt_released t) (rt_lookups t) (rt_channels t).
Definition rt_set_released x t := mkRoutingTable (rt_active t) (rt_resets_pending t) (rt_deferred t)
  (rt_released_pending t) (rt_router t) (rt_queues t) (rt_held t) x (rt_lookups t) (rt_channels t).
Definition rt_set_lookups x t := mkRoutingTable (rt_active t) (rt_resets_pending t) (rt_deferred t)
  (rt_released_pending t) (rt_router t) (rt_queues t) (rt_held t) (rt_released t) x (rt_channels t).
Definition rt_set_channels x t := mkRoutingTable (rt_active t) (rt_resets_pending t) (rt_deferred t)
  (rt_released_pending t) (rt_router t) (rt_queues t) (rt_held t) (rt_released t) (rt_lookups t) x.
End Fields.

(** ** The channels *)

(** [queue.try_send(packet)]: a full queue, or one nobody reads, loses the packet. *)
Definition try_send (packet : bytes) (c : Channel) : Channel :=
  if ch_receiver c && (zlen (ch_packets c) <? ROUTE_QUEUE_PACKETS)
  then mkChannel (ch_packets c ++ [packet]) (ch_sender c) (ch_receiver c) else c.

Definition drop_sender (c : Channel) : Channel := mkChannel (ch_packets c) false (ch_receiver c).
Definition drop_receiver (c : Channel) : Channel := mkChannel [] (ch_sender c) false.

(** What [Receiver::try_recv] answers. *)
Inductive Received : Type := RPacket (packet : bytes) | REmpty | RDisconnected.

Definition chan_try_recv (c : Channel) : Channel * Received :=
  match ch_packets c with
  | p :: ps => (mkChannel ps (ch_sender c) (ch_receiver c), RPacket p)
  | [] => (c, if ch_sender c then REmpty else RDisconnected)
  end.

(** ** The table *)

Section Table.
Context `{!HashOrder} `{!Platform} {R : Type} `{!OwnerResolver R} {E : Type}.
Implicit Types t : RoutingTable R.

Definition rt_build (r : Router R) (lookups : option (list OwnerQuery)) : RoutingTable R :=
  mkRoutingTable false false (bool_decide (is_Some lookups)) false r [] ∅ [] lookups [].

Definition rt_new (resolver : R) : RoutingTable R := rt_build (router_new resolver) None.

(** The table [with_owner_workers] builds; each worker's loop receives a query, looks its flow up,
    and calls [rt_complete]. *)
Definition rt_with_owner_workers (resolver : R) : RoutingTable R :=
  rt_build (defer_owner_lookups (router_new resolver)) (Some []).

(** A packet held for its flow, while there is room. *)
Definition hold (held : gmap FlowKey (list bytes)) (flow : FlowKey) (packet : bytes) : gmap FlowKey (list bytes) :=
  if (zsize held <? HELD_FLOWS) || bool_decide (is_Some (held !! flow)) then
    let packets := default [] (held !! flow) in
    <[flow := if zlen packets <? HELD_PACKETS_PER_FLOW then packets ++ [packet] else packets]> held
  else held.

Definition rt_dispatch t (verdict : Verdict) (packet : bytes) : RoutingTable R * option bytes :=
  match verdict with
  | VMain => (t, Some packet)
  | VDrop => (t, None)
  | VRoute route =>
      (match get (rt_queues t) route with
       | Some (Some queue) => rt_set_channels (alter (try_send packet) queue (rt_channels t)) t
       | _ => t
       end, None)
  | VHold flow =>
      (rt_set_held (hold (rt_held t) flow packet) t, None)
  end.

Definition rt_send_queries t : RoutingTable R :=
  let '(r, queries) := take_owner_queries (rt_router t) in
  let t := rt_set_router r t in
  match rt_lookups t with
  | Some lookups => rt_set_lookups (Some (lookups ++ queries)) t
  | None => t
  end.

Definition rt_note_resets t : RoutingTable R :=
  if has_resets (rt_router t) then rt_set_resets_pending true t else t.

(** The loop of [complete] over the packets held for the flow. *)
Fixpoint rt_release t (packets : list bytes) (now clock : Z) : comp E (RoutingTable R) :=
  match packets with
  | [] => Ok t
  | packet :: packets =>
      '(r, packet, verdict) ← Router.uplink (rt_router t) packet now clock;
      let '(t, main) := rt_dispatch (rt_set_router r t) verdict packet in
      let t := match main with Some main => rt_set_released (rt_released t ++ [main]) t | None => t end in
      rt_release t packets now clock
  end.

Definition rt_complete t (query : OwnerQuery) (owner : SocketOwner) (now clock : Z) : comp E (RoutingTable R) :=
  r ← Router.complete (rt_router t) query owner now;
  let packets := default [] (rt_held t !! q_flow query) in
  let t := rt_set_held (delete (q_flow query) (rt_held t)) (rt_set_router r t) in
  t ← rt_release t packets now clock;
  let t := rt_note_resets (rt_send_queries t) in
  Ok (if bool_decide (rt_released t = []) then t else rt_set_released_pending true t).

Definition rt_take_released t : RoutingTable R * option bytes :=
  if negb (rt_released_pending t) then (t, None) else
  let '(packet, rest) := match rt_released t with [] => (None, []) | p :: ps => (Some p, ps) end in
  let t := rt_set_released rest t in
  (if bool_decide (rest = []) then rt_set_released_pending false t else t, packet).

Definition rt_set_policy t (policy : Policy) (clock : Z) : comp E (RoutingTable R) :=
  r ← Router.set_policy (rt_router t) policy clock;
  Ok (rt_note_resets (rt_set_active (router_is_active r) (rt_set_router r t))).

Definition rt_take_resets t : RoutingTable R * list bytes :=
  let t := rt_set_resets_pending false t in
  let '(r, resets) := take_resets (rt_router t) in
  (rt_set_router r t, resets).

Definition rt_set_route_state t (route : RouteId) (state : RouteState) : RoutingTable R :=
  rt_set_router (Router.set_route_state (rt_router t) route state) t.

(** The sender of [slot] is replaced: the one it held is dropped. *)
Definition rt_put_queue t (slot : nat) (queue : option nat) : RoutingTable R :=
  let t := match rt_queues t !! slot with
           | Some (Some old) => rt_set_channels (alter drop_sender old (rt_channels t)) t
           | _ => t
           end in
  rt_set_queues (<[slot := queue]> (rt_queues t)) t.

(** The queue's other end is the channel's index. *)
Definition rt_open_route t (route : RouteId) : RoutingTable R * nat :=
  let rx := length (rt_channels t) in
  let t := rt_set_channels (rt_channels t ++ [mkChannel [] true true]) t in
  let slot := Z.to_nat route in
  let t := if (length (rt_queues t) <=? slot)%nat
           then rt_set_queues (rt_queues t ++ replicate (slot + 1 - length (rt_queues t)) None) t else t in
  (rt_put_queue t slot (Some rx), rx).

Definition rt_close_route t (route : RouteId) : RoutingTable R :=
  let t := rt_set_route_state t route Unavailable in
  match get (rt_queues t) route with
  | Some _ => rt_put_queue t (Z.to_nat route) None
  | None => t
  end.

Definition rt_counters t : Counters := counters (rt_router t).

(** The packet comes back as [uplink] leaves it in the caller's hands. *)
Definition rt_uplink t (packet : bytes) (arrived clock : Z) : comp E (RoutingTable R * bytes * Uplinked) :=
  if negb (rt_active t) then Ok (t, packet, UMain) else
  '(r, packet, verdict) ← Router.uplink (rt_router t) packet arrived clock;
  let t := rt_set_router r t in
  let t := if negb (router_is_active r) then rt_set_active false t else t in
  let t := rt_note_resets t in
  if bool_decide (verdict = VMain) then Ok (t, packet, UMain) else
  let '(t, _) := rt_dispatch t verdict packet in
  Ok (rt_send_queries t, [], UTaken).

Definition rt_downlink t (route : RouteId) (packet : bytes) (now : Z)
    : comp E (RoutingTable R * bytes * Delivery) :=
  '(r, packet, delivery) ← Router.downlink (rt_router t) route packet now;
  Ok (rt_set_router r t, packet, delivery).

(** ** The main session's device: [RoutedTun]

    The device below it is the packets it has ready, each with the instants its uplink reads, and
    the packets written to it. *)

Definition rt_write_resets t (written : list bytes) : RoutingTable R * list bytes :=
  if negb (rt_resets_pending t) then (t, written) else
  let '(t, resets) := rt_take_resets t in (t, written ++ resets).

(** [recv], until the device has nothing ready ([None]: the read waits). *)
Fixpoint routed_recv t (written : list bytes) (ready : list (bytes * Z * Z))
    : comp E (RoutingTable R * list bytes * list (bytes * Z * Z) * option bytes) :=
  let '(t, written) := rt_write_resets t written in
  let '(t, released) := rt_take_released t in
  match released with
  | Some packet => Ok (t, written, ready, Some packet)
  | None =>
      match ready with
      | [] => Ok (t, written, [], None)
      | (packet, arrived, clock) :: ready =>
          '(t, packet, up) ← rt_uplink t packet arrived clock;
          let '(t, written) := rt_write_resets t written in
          match up with
          | UMain => Ok (t, written, ready, Some packet)
          | UTaken => routed_recv t written ready
          end
      end
  end.

Fixpoint routed_try_recv_device t (ready : list (bytes * Z * Z))
    : comp E (RoutingTable R * list (bytes * Z * Z) * option bytes) :=
  match ready with
  | [] => Ok (t, [], None)
  | (packet, arrived, clock) :: ready =>
      '(t, packet, up) ← rt_uplink t packet arrived clock;
      match up with
      | UMain => Ok (t, ready, Some packet)
      | UTaken => routed_try_recv_device t ready
      end
  end.

Definition routed_try_recv t (ready : list (bytes * Z * Z))
    : comp E (RoutingTable R * list (bytes * Z * Z) * option bytes) :=
  let '(t, released) := rt_take_released t in
  match released with
  | Some packet => Ok (t, ready, Some packet)
  | None => routed_try_recv_device t ready
  end.

(** ** A route session's device: [RouteTun] on [route], reading the channel [queue] *)

(** What the device below is given to write, if anything. *)
Definition route_send t (route : RouteId) (packet : bytes) (now : Z) : comp E (RoutingTable R * option bytes) :=
  '(t, packet, delivery) ← rt_downlink t route packet now;
  Ok (t, match delivery with Deliver => Some packet | DDrop => None end).

(** [recv] and [try_recv]: a closed queue is an error. *)
Definition route_try_recv t (queue : nat) : RoutingTable R * Received :=
  match rt_channels t !! queue with
  | Some c => let '(c, got) := chan_try_recv c in (rt_set_channels (<[queue := c]> (rt_channels t)) t, got)
  | None => (t, RDisconnected)
  end.

(** The session's device is dropped. *)
Definition route_drop t (queue : nat) : RoutingTable R :=
  rt_set_channels (alter drop_receiver queue (rt_channels t)) t.
End Table.
