(* ===== verification/DatapathSpec.v ===== *)
(** * What the datapath guarantees

    The routing table as a state machine over the router's: every method of the
    table is a run of the router's, so what holds of reachable routers holds
    under the table; and the table's own state (the held packets, the queues,
    the flags read outside the lock) keeps its invariant. *)

From S2P Require Import Prelude Net Ip Flow FlowTable Nat AppKey Reset Owner Router.
From S2P Require Import RouterInv RouterWorld RouterSpec Datapath.
Open Scope Z_scope.

(** ** The table as a state machine *)

Section Machine.
Context `{!HashOrder} `{!Platform} {R : Type} `{!OwnerResolver R}.
Implicit Types t : RoutingTable R.

(** A packet held for [k] is one of the flow. *)
Definition held_packet (k : FlowKey) (p : bytes) : Prop :=
  bytes_ok p /\ exists flags frag, classify p Uplink = Ok (Flow k flags frag).

(** The packets held for a flow are sent up when its owner is known. *)
Definition releases (callers : Callers) (k : FlowKey) (now clock : Z) : Prop :=
  forall p, held_packet k p -> sends callers p now clock.

(** One call on the table or on an end of its queues. *)
Inductive rt_step (callers : Callers) : RoutingTable R -> RoutingTable R -> Prop :=
| rts_uplink t p arrived clock x :
    bytes_ok p -> sends callers p arrived clock -> @rt_uplink _ _ R _ Empty_set t p arrived clock = Ok x ->
    rt_step callers t x.1.1
| rts_downlink t route p now x :
    bytes_ok p -> @rt_downlink _ R Empty_set t route p now = Ok x -> rt_step callers t x.1.1
| rts_policy t new clock t' :
    policy_wf new -> @rt_set_policy _ _ R _ Empty_set t new clock = Ok t' -> rt_step callers t t'
| rts_complete t q o now clock t' :
    answers callers (policy (rt_router t)) q o -> releases callers (q_flow q) now clock ->
    @rt_complete _ _ R _ Empty_set t q o now clock = Ok t' -> rt_step callers t t'
| rts_route_state t route s : state_wf s -> rt_step callers t (rt_set_route_state t route s)
| rts_open t route : 0 <= route -> rt_step callers t (rt_open_route t route).1
| rts_close t route : 0 <= route -> rt_step callers t (rt_close_route t route)
| rts_take_resets t : rt_step callers t (rt_take_resets t).1
| rts_take_released t : rt_step callers t (rt_take_released t).1
| rts_recv t queue : rt_step callers t (route_try_recv t queue).1
| rts_drop t queue : rt_step callers t (route_drop t queue).

(** The states of a table over [res], its owners looked up on the packet path or by workers. *)
Definition rt_reachable_by (callers : Callers) (res : R) (t : RoutingTable R) : Prop :=
  rtc (rt_step callers) (rt_new res) t \/ rtc (rt_step callers) (rt_with_owner_workers res) t.
Definition rt_reachable : R -> RoutingTable R -> Prop := rt_reachable_by any_caller.

(** ** The invariant *)

(** The flags read outside the lock never miss what they announce. *)
Definition front_ok (active resets_pending : bool) (r : Router R) : Prop :=
  router_wf r /\ (active = false -> router_is_active r = false) /\ (resets_pending = false -> has_resets r = false).

Definition held_ok (held : gmap FlowKey (list bytes)) : Prop :=
  zsize held <= HELD_FLOWS /\
  map_Forall (fun k ps => zlen ps <= HELD_PACKETS_PER_FLOW /\ Forall (held_packet k) ps) held.

(** Every route's queue is open, and its own. *)
Definition queues_ok (queues : list (option nat)) (channels : list Channel) : Prop :=
  Forall (fun c => zlen (ch_packets c) <= ROUTE_QUEUE_PACKETS) channels /\
  (forall slot q, queues !! slot = Some (Some q) -> exists c, channels !! q = Some c /\ ch_sender c = true) /\
  (forall slot slot' q, queues !! slot = Some (Some q) -> queues !! slot' = Some (Some q) -> slot = slot').

Record rt_wf t : Prop := {
  rtw_front : front_ok (rt_active t) (rt_resets_pending t) (rt_router t);
  rtw_released : rt_released_pending t = false -> rt_released t = [];
  rtw_held : held_ok (rt_held t);
  rtw_queues : queues_ok (rt_queues t) (rt_channels t)
}.

(** ** The router below *)

Lemma apply_uplink_no_hold {E : Type} (r : Router R) bound p x k :
  @apply_uplink R E r bound p = Ok x -> x.2 <> VHold k.
Proof.
  unfold apply_uplink. destruct bound as [|route| | |]; try by intros [= <-].
  destruct (route_state r route) as [[|a|]|]; try by intros [= <-].
  destruct (locate p) as [l| |]; [|by intros [= <-]|done].
  intros (src & _ & Hx)%bind_ok. destruct (bool_decide _); simpl in Hx; [|by simplify_eq].
  destruct (for_family_of a src) as [new|]; [|by simplify_eq].
  apply bind_ok in Hx as ([p1 [e|]] & _ & Hx); by simplify_eq.
Qed.

Lemma uplink_hold {E : Type} (r r' : Router R) p p' arrived clock k :
  @uplink _ _ R _ E r p arrived clock = Ok (r', p', VHold k) ->
  p' = p /\ exists flags frag, classify p Uplink = Ok (Flow k flags frag).
Proof.
  unfold uplink. destruct (negb (router_is_active r)); [done|]. cbv zeta.
  destruct (classify p Uplink) as [[key flags frag|frag|key|]| |] eqn:Hc; try done.
  - intros (s & _ & Hx)%bind_ok. apply bind_ok in Hx as ([r1 bound] & _ & Hx).
    destruct (bool_decide (bound = Pending)); [simplify_eq; by eauto|].
    apply bind_ok in Hx as (r3 & _ & Hx). by destruct (apply_uplink_no_hold _ _ _ _ k Hx).
  - intros Hx. by destruct (apply_uplink_no_hold _ _ _ _ k Hx).
  - destruct (router_peek _ key arrived) as [[]|]; by intros [= ? ?].
Qed.

Lemma uplink_inactive {E : Type} (r : Router R) p arrived clock :
  router_is_active r = false -> @uplink _ _ R _ E r p arrived clock = Ok (r, p, VMain).
Proof. intros Hr. unfold uplink. by rewrite Hr. Qed.

Lemma inactive_parts (r : Router R) :
  router_is_active r = false ->
  policy_is_active (policy r) = false /\ forall k now, router_peek r k now = None.
Proof.
  unfold router_is_active, router_peek. intros [Hp Hf]%orb_false_iff. split; [done|]. intros k now.
  destruct (flows r) as [t|]; simpl; [|done]. apply negb_false_iff in Hf. unfold peek.
  assert (entries t = ∅) as ->; [|by rewrite lookup_empty].
  unfold table_is_empty, table_len, zsize in Hf. apply Z.eqb_eq in Hf. apply map_size_empty_inv. lia.
Qed.

Lemma downlink_inactive {E : Type} (r : Router R) route p now :
  router_is_active r = false -> @downlink _ R E r route p now = Ok (r, p, DDrop).
Proof. intros [Hp _]%inactive_parts. unfold downlink. by rewrite Hp. Qed.

Lemma complete_inactive {E : Type} (r : Router R) q o now :
  router_is_active r = false -> @Router.complete _ R _ E r q o now = Ok r.
Proof. intros [_ Hp]%inactive_parts. unfold Router.complete. by rewrite Hp. Qed.
(** ** The parts *)

Lemma hold_ok held k p : held_ok held -> held_packet k p -> held_ok (hold held k p).
Proof.
  intros [Hs Hm] Hp. unfold hold.
  destruct ((zsize held <? HELD_FLOWS) || bool_decide (is_Some (held !! k))) eqn:Hroom; [|done].
  split.
  - unfold zsize in *. rewrite map_size_insert. apply orb_true_iff in Hroom as [Hroom|Hroom].
    + apply Z.ltb_lt in Hroom. destruct (held !! k); unfold id; lia.
    + apply bool_decide_eq_true in Hroom as [ps ->]. unfold id. lia.
  - apply map_Forall_insert_2; [|done].
    assert (zlen (default [] (held !! k)) <= HELD_PACKETS_PER_FLOW /\ Forall (held_packet k) (default [] (held !! k))) as [Hz Hf].
    { destruct (held !! k) as [ps|] eqn:E; [by apply Hm in E|]. split; [done|constructor]. }
    destruct (Z.ltb_spec (zlen (default [] (held !! k))) HELD_PACKETS_PER_FLOW) as [Hlt|]; [|done].
    split; [rewrite zlen_app; unfold zlen at 2; simpl; lia|]. apply Forall_app. by split; [|constructor].
Qed.

Lemma held_ok_delete held k : held_ok held -> held_ok (delete k held).
Proof.
  intros [Hs Hm]. split.
  - etrans; [|exact Hs]. unfold zsize. apply inj_le, map_subseteq_size, delete_subseteq.
  - by apply map_Forall_delete.
Qed.

Lemma held_of held k : held_ok held -> Forall (held_packet k) (default [] (held !! k)).
Proof. intros [_ Hm]. destruct (held !! k) as [ps|] eqn:E; [by apply Hm in E as [_ ?]|constructor]. Qed.

Lemma try_send_bound p c :
  zlen (ch_packets c) <= ROUTE_QUEUE_PACKETS -> zlen (ch_packets (try_send p c)) <= ROUTE_QUEUE_PACKETS.
Proof.
  intros Hc. unfold try_send. destruct (ch_receiver c); simpl; [|done].
  destruct (Z.ltb_spec (zlen (ch_packets c)) ROUTE_QUEUE_PACKETS); [|done]. simpl.
  rewrite zlen_app. unfold zlen at 2. simpl. lia.
Qed.

Lemma alter_queues_ok f q queues channels :
  (forall c, ch_sender (f c) = ch_sender c) ->
  (forall c, zlen (ch_packets c) <= ROUTE_QUEUE_PACKETS -> zlen (ch_packets (f c)) <= ROUTE_QUEUE_PACKETS) ->
  queues_ok queues channels -> queues_ok queues (alter f q channels).
Proof.
  intros Hs Hb (Hc & Hq & Ho). split; [|split; [|done]].
  - rewrite Forall_lookup in Hc |- *. intros i c. rewrite list_lookup_alter. case_decide.
    + subst i. destruct (channels !! q) as [c0|] eqn:E; simpl; [|done]. intros [= <-]. eauto.
    + eauto.
  - intros slot q' (c & Hc' & Hs')%Hq. rewrite list_lookup_alter. case_decide.
    + subst q'. rewrite Hc'. simpl. exists (f c). by rewrite Hs.
    + eauto.
Qed.

Lemma dispatch_queues_ok t v p :
  queues_ok (rt_queues t) (rt_channels t) ->
  queues_ok (rt_queues (rt_dispatch t v p).1) (rt_channels (rt_dispatch t v p).1).
Proof.
  intros Hq. destruct v as [|route| |k]; simpl; try done.
  destruct (get (rt_queues t) route) as [[q|]|]; simpl; try done.
  apply alter_queues_ok; [|intros; by apply try_send_bound|done].
  intros c. unfold try_send. by destruct (_ && _).
Qed.

Lemma dispatch_held_ok t v p :
  held_ok (rt_held t) -> (forall k, v = VHold k -> held_packet k p) -> held_ok (rt_held (rt_dispatch t v p).1).
Proof.
  intros Hh Hv. destruct v as [|route| |k]; simpl; try done.
  - by destruct (get (rt_queues t) route) as [[q|]|].
  - apply hold_ok; auto.
Qed.

(** Where a packet goes changes nothing else. *)
Lemma dispatch_same t v p :
  let t' := (rt_dispatch t v p).1 in
  rt_router t' = rt_router t /\ rt_active t' = rt_active t /\ rt_resets_pending t' = rt_resets_pending t /\
  rt_released t' = rt_released t /\ rt_released_pending t' = rt_released_pending t /\ rt_queues t' = rt_queues t.
Proof.
  destruct v as [|route| |k]; simpl; try done. by destruct (get (rt_queues t) route) as [[q|]|].
Qed.

Lemma dispatch_main t v p : (rt_dispatch t v p).2 = if bool_decide (v = VMain) then Some p else None.
Proof. by destruct v. Qed.

(** A queue replaced or closed: the one before gets nothing more. *)
Lemma put_queue_ok t slot queue :
  queues_ok (rt_queues t) (rt_channels t) ->
  (forall q, queue = Some q -> (exists c, rt_channels t !! q = Some c /\ ch_sender c = true) /\
     forall slot', rt_queues t !! slot' <> Some (Some q)) ->
  queues_ok (rt_queues (rt_put_queue t slot queue)) (rt_channels (rt_put_queue t slot queue)).
Proof.
  intros (Hc & Hq & Ho) Hnew. unfold rt_put_queue.
  set (t1 := match rt_queues t !! slot with Some (Some old) => _ | _ => t end).
  assert (rt_queues t1 = rt_queues t) as Hq1 by (unfold t1; by destruct (rt_queues t !! slot) as [[]|]).
  assert (Forall (fun c => zlen (ch_packets c) <= ROUTE_QUEUE_PACKETS) (rt_channels t1)) as Hc1.
  { unfold t1. destruct (rt_queues t !! slot) as [[old|]|]; simpl; [|done|done].
    rewrite Forall_lookup in Hc |- *. intros i c. rewrite list_lookup_alter. case_decide; [|eauto].
    subst i. destruct (rt_channels t !! old) eqn:E; simpl; [|done]. intros [= <-]. exact (Hc _ _ E). }
  assert (forall q c, rt_channels t !! q = Some c -> ch_sender c = true -> rt_queues t !! slot <> Some (Some q) ->
    exists c, rt_channels t1 !! q = Some c /\ ch_sender c = true) as Hkeep.
  { intros q c Hcq Hs Hne. unfold t1. destruct (rt_queues t !! slot) as [[old|]|]; simpl; [|eauto|eauto].
    rewrite list_lookup_alter. case_decide; [congruence|eauto]. }
  assert (forall slot' q, <[slot := queue]> (rt_queues t) !! slot' = Some (Some q) ->
    (slot' = slot /\ queue = Some q) \/ (slot' <> slot /\ rt_queues t !! slot' = Some (Some q))) as Hins.
  { intros slot' q [(-> & [= ->] & _)|[Hn Hs]]%list_lookup_insert_Some; [by left|by right]. }
  simpl. rewrite Hq1. split; [done|]. split.
  - intros slot' q [[-> ->]|[Hne Hs]]%Hins.
    + destruct (Hnew q eq_refl) as [(c & Hcq & Hs) Hfresh]. by apply (Hkeep q c).
    + destruct (Hq _ _ Hs) as (c & Hcq & Hsc). apply (Hkeep q c); [done|done|].
      intros Hs'. by specialize (Ho _ _ _ Hs Hs').
  - intros s1 s2 q H1%Hins H2%Hins. destruct H1 as [[-> Hq1']|[Hn1 H1]], H2 as [[-> Hq2']|[Hn2 H2]]; try done.
    + by destruct (Hnew q Hq1') as [_ ?%(fun h => h s2 H2)].
    + by destruct (Hnew q Hq2') as [_ ?%(fun h => h s1 H1)].
    + by apply (Ho s1 s2 q).
Qed.

Lemma open_queues_ok t route :
  queues_ok (rt_queues t) (rt_channels t) ->
  queues_ok (rt_queues (rt_open_route t route).1) (rt_channels (rt_open_route t route).1).
Proof.
  intros (Hc & Hq & Ho). unfold rt_open_route. cbv zeta. cbn [fst].
  set (slot := Z.to_nat route). set (n := length (rt_channels t)).
  set (t1 := rt_set_channels _ t). set (t2 := if (length (rt_queues t1) <=? slot)%nat then _ else t1).
  assert (forall s q, rt_queues t2 !! s = Some (Some q) -> rt_queues t !! s = Some (Some q)) as Hsub.
  { intros s q. unfold t2. destruct (_ <=? slot)%nat; simpl; [|done].
    destruct (decide (s < length (rt_queues t))%nat); [by rewrite lookup_app_l by lia|].
    rewrite lookup_app_r by lia. by intros [[=] _]%lookup_replicate. }
  assert (rt_channels t2 = rt_channels t ++ [mkChannel [] true true]) as Hch
    by (unfold t2; by destruct (_ <=? slot)%nat).
  assert (forall s q, rt_queues t !! s = Some (Some q) -> (q < n)%nat) as Hlt.
  { intros s q (c & Hcq & _)%Hq. by apply lookup_lt_Some in Hcq. }
  apply put_queue_ok.
  - rewrite Hch. split; [|split].
    + apply Forall_app. split; [done|]. by constructor.
    + intros s q Hs%Hsub. destruct (Hq _ _ Hs) as (c & Hcq & Hsc). exists c.
      rewrite lookup_app_l; [done|]. by apply lookup_lt_Some in Hcq.
    + intros s s' q Hs%Hsub Hs'%Hsub. by apply (Ho s s' q).
  - intros q [= <-]. rewrite Hch. split.
    + exists (mkChannel [] true true). rewrite lookup_app_r by done. unfold n. by rewrite Nat.sub_diag.
    + intros s Hs%Hsub%Hlt. lia.
Qed.

Lemma close_queues_ok t route :
  queues_ok (rt_queues t) (rt_channels t) ->
  queues_ok (rt_queues (rt_close_route t route)) (rt_channels (rt_close_route t route)).
Proof.
  intros Hq. unfold rt_close_route. destruct (get _ route); [|done]. by apply put_queue_ok.
Qed.
(** ** The methods keep the invariant, and are runs of the router's *)

Abbreviation runs callers t t' := (rtc (step callers) (rt_router t) (rt_router t')).

(** What a call does to the router: a run of its machine that stays within one policy and does not
    wake an idle router. *)
Record quiet (callers : Callers) (r r' : Router R) : Prop := {
  qu_runs : rtc (step callers) r r';
  qu_wf : router_wf r';
  qu_policy : policy r' = policy r;
  qu_idle : router_is_active r = false -> r' = r
}.

Lemma quiet_refl callers r : router_wf r -> quiet callers r r.
Proof. by split. Qed.

Lemma quiet_trans callers r1 r2 r3 : quiet callers r1 r2 -> quiet callers r2 r3 -> quiet callers r1 r3.
Proof.
  intros [H1 Hw1 Hp1 Hi1] [H2 Hw2 Hp2 Hi2]. split; [by etrans|done|congruence|].
  intros Hr. rewrite (Hi1 Hr) in *. auto.
Qed.

Lemma uplink_quiet callers r p arrived clock :
  keys_total -> router_wf r -> bytes_ok p -> sends callers p arrived clock ->
  yields (@uplink _ _ R _ Empty_set r p arrived clock) (fun _ => False) (fun x => quiet callers r x.1.1).
Proof.
  intros Hk Hr Hb Hse. pose proof (@uplink_yields _ _ R _ Empty_set r p arrived clock Hk Hr Hb) as Hy.
  destruct (uplink r p arrived clock) as [[[r' p'] v]| |] eqn:Hx; try done. simpl in *.
  destruct Hy as (Hw & Hp & _). split; [|done|done|].
  - apply rtc_once. by eapply step_uplink.
  - intros Hi. rewrite (uplink_inactive _ _ _ _ Hi) in Hx. by injection Hx.
Qed.

Lemma send_queries_router callers t :
  router_wf (rt_router t) ->
  runs callers t (rt_send_queries t) /\ router_wf (rt_router (rt_send_queries t)) /\
  policy (rt_router (rt_send_queries t)) = policy (rt_router t) /\
  router_is_active (rt_router (rt_send_queries t)) = router_is_active (rt_router t) /\
  has_resets (rt_router (rt_send_queries t)) = has_resets (rt_router t).
Proof.
  intros Hw.
  assert (rt_router (rt_send_queries t) = set_queries [] (rt_router t)) as ->
    by (unfold rt_send_queries; simpl; by destruct (rt_lookups t)).
  split_and!; try done; [|by apply set_queries_wf].
  apply rtc_once. exact (step_take_queries callers (rt_router t)).
Qed.

Lemma send_queries_same t :
  let t' := rt_send_queries t in
  rt_active t' = rt_active t /\ rt_resets_pending t' = rt_resets_pending t /\
  rt_released t' = rt_released t /\ rt_released_pending t' = rt_released_pending t /\
  rt_queues t' = rt_queues t /\ rt_channels t' = rt_channels t /\ rt_held t' = rt_held t.
Proof. unfold rt_send_queries. simpl. by destruct (rt_lookups t). Qed.

Lemma note_resets_same t :
  let t' := rt_note_resets t in
  rt_router t' = rt_router t /\ rt_active t' = rt_active t /\
  rt_released t' = rt_released t /\ rt_released_pending t' = rt_released_pending t /\
  rt_queues t' = rt_queues t /\ rt_channels t' = rt_channels t /\ rt_held t' = rt_held t /\
  (rt_resets_pending t' = false -> has_resets (rt_router t) = false /\ rt_resets_pending t = false).
Proof. unfold rt_note_resets. by destruct (has_resets (rt_router t)). Qed.

Lemma downlink_resets {E : Type} (r : Router R) route p now r' p' d :
  @downlink _ R E r route p now = Ok (r', p', d) -> resets r' = resets r.
Proof.
  assert (forall (r1 : Router R) m (x : Router R * bytes * Delivery), resets r1 = resets r -> ('(packet, error) ← @rewrite_destination E p m;
    match error with
    | Some _ => Ok (dropped r1, packet, DDrop)
    | None => Ok (set_counters (count_routed (counters r1)) r1, packet, Deliver)
    end) = Ok x -> resets x.1.1 = resets r) as Hend.
  { intros r1 m x Hr1 Hx. apply bind_ok in Hx as ([p1 [e|]] & _ & Hx); by simplify_eq. }
  unfold downlink. destruct (negb _); [by intros [= <- _ _]|].
  destruct (route_state r route) as [[|a|]|]; try by intros [= <- _ _].
  destruct (classify p Downlink) as [[k flags frag|frag|k|]| |]; try by intros [= <- _ _].
  - destruct (original_flow r k a) as [[o m]|]; [|by intros [= <- _ _]].
    destruct (negb _); [by intros [= <- _ _]|]. intros Hx. apply Hend in Hx; [done|].
    assert (resets (lookup r o Downlink flags now).1 = resets r) as Hl.
    { unfold lookup, lookup_flow. by repeat case_match; simplify_eq/=. }
    by destruct frag.
  - destruct (for_family_of (main (policy r)) (fk_dst frag)); [|by intros [= <- _ _]].
    destruct (negb _); [by intros [= <- _ _]|]. intros Hx. by apply Hend in Hx.
  - destruct (original_flow r k a) as [[o m]|]; [|by intros [= <- _ _]].
    destruct (negb _); [by intros [= <- _ _]|]. intros Hx. by apply Hend in Hx.
Qed.

Lemma route_state_same (r : Router R) route s :
  router_is_active (Router.set_route_state r route s) = router_is_active r /\
  has_resets (Router.set_route_state r route s) = has_resets r.
Proof. unfold Router.set_route_state. by destruct (route_state r route). Qed.

(** The held packets and the queues are kept by whatever the router answers for a packet. *)
Record parts_ok t : Prop := {
  po_held : held_ok (rt_held t);
  po_queues : queues_ok (rt_queues t) (rt_channels t)
}.

Lemma dispatch_parts t v p :
  parts_ok t -> (forall k, v = VHold k -> held_packet k p) -> parts_ok (rt_dispatch t v p).1.
Proof. intros [? ?] ?. split; [by apply dispatch_held_ok|by apply dispatch_queues_ok]. Qed.

Lemma release_yields callers k packets t now clock :
  keys_total -> router_wf (rt_router t) -> releases callers k now clock -> Forall (held_packet k) packets -> parts_ok t ->
  yields (@rt_release _ _ R _ Empty_set t packets now clock) (fun _ => False) (fun t' =>
    quiet callers (rt_router t) (rt_router t') /\ parts_ok t' /\
    rt_active t' = rt_active t /\ rt_resets_pending t' = rt_resets_pending t /\
    rt_released_pending t' = rt_released_pending t).
Proof.
  intros Hk Hr Hrel. revert t Hr. induction packets as [|p ps IH]; intros t Hr Hps Hpo; simpl.
  { by split_and!. }
  apply Forall_cons in Hps as [Hp Hps]. pose proof Hp as [Hb Hc].
  pose proof (uplink_quiet callers (rt_router t) p now clock Hk Hr Hb (Hrel p Hp)) as Hq.
  destruct (uplink (rt_router t) p now clock) as [[[r p'] v]| |] eqn:Hx; try done. cbn [mbind comp_bind].
  simpl in Hq. set (t1 := rt_set_router r t).
  assert (parts_ok (rt_dispatch t1 v p').1) as Hpo1.
  { apply dispatch_parts; [by destruct Hpo|]. intros k' ->. apply uplink_hold in Hx as [-> Hc']. by split. }
  destruct (dispatch_same t1 v p') as (Hs1 & Hs2 & Hs3 & _ & Hs4 & _).
  destruct (rt_dispatch t1 v p') as [t2 main]. cbn [fst] in *.
  set (t3 := match main with Some m => rt_set_released (rt_released t2 ++ [m]) t2 | None => t2 end).
  assert (rt_router t3 = r /\ parts_ok t3 /\ rt_active t3 = rt_active t /\
    rt_resets_pending t3 = rt_resets_pending t /\ rt_released_pending t3 = rt_released_pending t) as (Hr3 & Hp3 & Ha3 & Hrp3 & Hre3).
  { unfold t3. destruct main; simpl; rewrite ?Hs1, ?Hs2, ?Hs3, ?Hs4; split_and!; try done. by destruct Hpo1. }
  eapply yields_mono; [apply IH; rewrite ?Hr3; [apply Hq|done|done]|done|].
  intros t' (Hq' & Hp' & Ha' & Hrp' & Hre'). rewrite Hr3 in Hq'.
  split; [by eapply quiet_trans|]. split; [done|]. split_and!; congruence.
Qed.

Lemma uplink_step_wf callers t p arrived clock :
  keys_total -> rt_wf t -> bytes_ok p -> sends callers p arrived clock ->
  yields (@rt_uplink _ _ R _ Empty_set t p arrived clock) (fun _ => False) (fun x =>
    rt_wf x.1.1 /\ runs callers t x.1.1 /\ policy (rt_router x.1.1) = policy (rt_router t)).
Proof.
  intros Hk [(Hr & Ha & Hp) Hre Hh Hq] Hb Hse. unfold rt_uplink.
  destruct (rt_active t) eqn:Hact; simpl.
  2: { split_and!; try done. split; [|done|done|done]. rewrite Hact. by split_and!. }
  pose proof (uplink_quiet callers (rt_router t) p arrived clock Hk Hr Hb Hse) as Hqu.
  destruct (uplink (rt_router t) p arrived clock) as [[[r p'] v]| |] eqn:Hx; try done. cbn [mbind comp_bind].
  simpl in Hqu. destruct Hqu as [Hrun Hw Hpol _].
  set (t1 := if negb (router_is_active r) then _ else _).
  assert (rt_router t1 = r /\ (rt_active t1 = false -> router_is_active r = false) /\
    rt_resets_pending t1 = rt_resets_pending t /\ rt_released t1 = rt_released t /\
    rt_released_pending t1 = rt_released_pending t /\ parts_ok t1) as (Hr1 & Ha1 & Hrp1 & Hre1 & Hrep1 & Hpo1).
  { unfold t1. destruct (router_is_active r); simpl; split_and!; try done; try (intros; congruence); by split. }
  clearbody t1. destruct (note_resets_same t1) as (Hr2 & Ha2 & Hre2 & Hrep2 & Hqs2 & Hch2 & Hh2 & Hrp2).
  set (t2 := rt_note_resets t1) in *. rewrite Hr1 in Hr2, Hrp2.
  assert (parts_ok t2) as Hpo2 by (destruct Hpo1; split; congruence).
  assert (front_ok (rt_active t2) (rt_resets_pending t2) r) as Hf2.
  { split; [done|]. split; [rewrite Ha2; auto|]. intros H2. by apply Hrp2. }
  destruct (bool_decide (v = VMain)); simpl.
  { rewrite Hr2. split; [|done]. split; rewrite ?Hr2; [done| |apply Hpo2|apply Hpo2]. by rewrite Hrep2, Hrep1, Hre2, Hre1. }
  assert (parts_ok (rt_dispatch t2 v p').1) as Hpo3.
  { apply dispatch_parts; [done|]. intros k' ->. apply uplink_hold in Hx as [-> Hc']. by split. }
  destruct (dispatch_same t2 v p') as (Hr3 & Ha3 & Hrp3 & Hre3 & Hrep3 & _).
  destruct (rt_dispatch t2 v p') as [t3 main]. cbn [fst] in *.
  destruct (send_queries_router callers t3) as (Hrun4 & Hw4 & Hp4 & Hi4 & Hre4); [congruence|].
  destruct (send_queries_same t3) as (Ha4 & Hrp4 & Hre4' & Hrep4 & Hqs4 & Hch4 & Hh4).
  simpl. split_and!.
  - split.
    + destruct Hf2 as (_ & Hf2 & Hf2'). split; [done|]. rewrite Hi4, Hre4, Ha4, Ha3, Hrp4, Hrp3, Hr3, Hr2. auto.
    + rewrite Hrep4, Hrep3, Hrep2, Hrep1, Hre4', Hre3, Hre2, Hre1. done.
    + rewrite Hh4. apply Hpo3.
    + rewrite Hqs4, Hch4. apply Hpo3.
  - etrans; [exact Hrun|]. by rewrite <- Hr2, <- Hr3.
  - rewrite Hp4, Hr3, Hr2. done.
Qed.

Lemma complete_step_wf (callers : Callers) t q o now clock :
  keys_total -> rt_wf t -> answers callers (policy (rt_router t)) q o -> releases callers (q_flow q) now clock ->
  yields (@rt_complete _ _ R _ Empty_set t q o now clock) (fun _ => False) (fun t' =>
    rt_wf t' /\ runs callers t t' /\ policy (rt_router t') = policy (rt_router t)).
Proof.
  intros Hk [(Hr & Ha & Hp) Hre Hh Hq] Hans Hrel. unfold rt_complete.
  pose proof (@complete_yields _ R _ Empty_set (rt_router t) q o now Hk Hr) as Hy.
  destruct (Router.complete (rt_router t) q o now) as [r| |] eqn:Hx; try done. destruct Hy as [Hw Hpol].
  cbn [mbind comp_bind].
  assert (quiet callers (rt_router t) r) as Hqu.
  { split; [|done|done|].
    - apply rtc_once. by eapply step_complete.
    - intros Hi. rewrite (complete_inactive _ _ _ _ Hi) in Hx. by injection Hx. }
  set (t1 := rt_set_held _ _).
  apply yields_bind. eapply yields_mono; [apply (release_yields callers (q_flow q)); [done|done|done|by apply held_of|]|done|].
  { split; [by apply held_ok_delete|done]. }
  intros t2 (Hqu2 & Hpo2 & Ha2 & Hrp2 & Hrep2). simpl in Hqu2.
  pose proof (quiet_trans _ _ _ _ Hqu Hqu2) as [Hrun Hw2 Hpol2 Hidle].
  destruct (send_queries_router callers t2 Hw2) as (Hrun3 & Hw3 & Hp3 & Hi3 & Hre3).
  destruct (send_queries_same t2) as (Ha3 & Hrp3 & Hre3' & Hrep3 & Hqs3 & Hch3 & Hh3).
  set (t3 := rt_send_queries t2) in *.
  destruct (note_resets_same t3) as (Hr4 & Ha4 & Hre4 & Hrep4 & Hqs4 & Hch4 & Hh4 & Hrp4).
  set (t4 := rt_note_resets t3) in *.
  set (t5 := if bool_decide (rt_released t4 = []) then t4 else rt_set_released_pending true t4).
  assert (rt_router t5 = rt_router t3 /\ rt_active t5 = rt_active t /\ rt_resets_pending t5 = rt_resets_pending t4 /\
    rt_held t5 = rt_held t2 /\ rt_queues t5 = rt_queues t2 /\ rt_channels t5 = rt_channels t2 /\
    (rt_released_pending t5 = false -> rt_released t5 = [])) as (Hr5 & Ha5 & Hrp5 & Hh5 & Hqs5 & Hch5 & Hre5).
  { unfold t5. simpl in Ha2. case_bool_decide; simpl; split_and!; try congruence. }
  cbn [yields]. rewrite Hr5. split_and!.
  - split; rewrite ?Hr5, ?Hh5, ?Hqs5, ?Hch5; [|done|apply Hpo2|apply Hpo2].
    split; [done|]. rewrite Ha5, Hi3, Hrp5. split.
    + intros H5. by rewrite (Hidle (Ha H5)), (Ha H5).
    + intros H5. by apply Hrp4.
  - etrans; [exact Hrun|]. done.
  - by rewrite Hp3, Hpol2.
Qed.

Lemma rt_step_wf (callers : Callers) t t' :
  keys_total -> rt_step callers t t' -> rt_wf t -> rt_wf t' /\ runs callers t t'.
Proof.
  intros Hk Hs Hw. destruct Hs as [t p arrived clock x Hb Hse Hx|t route p now x Hb Hx|t new clock t' Hp Hx
    |t q o now clock t' Ha Hrl Hx|t route s Hs|t route Hge|t route Hge|t|t|t queue|t queue].
  - pose proof (uplink_step_wf callers t p arrived clock Hk Hw Hb Hse) as Hy. rewrite Hx in Hy. by destruct Hy as (? & ? & _).
  - destruct Hw as [(Hr & Ha & Hrp) Hre Hh Hq]. unfold rt_downlink in Hx.
    pose proof (@downlink_yields _ _ R Empty_set (rt_router t) route p now Hr Hb) as Hy.
    destruct (downlink (rt_router t) route p now) as [[[r p'] d]| |] eqn:Hd; try done.
    injection Hx as <-. destruct Hy as (Hw' & _). simpl in *. split.
    + split; simpl; try done. split; [done|]. split.
      * intros Hi%Ha. rewrite (downlink_inactive _ _ _ _ Hi) in Hd. by simplify_eq.
      * intros Hi%Hrp. unfold has_resets in *. by rewrite (downlink_resets _ _ _ _ _ _ _ Hd).
    + apply rtc_once. by eapply step_downlink.
  - destruct Hw as [(Hr & Ha & Hrp) Hre Hh Hq]. unfold rt_set_policy in Hx.
    pose proof (@set_policy_yields _ _ R _ Empty_set (rt_router t) new clock Hk Hr Hp) as Hy.
    destruct (set_policy (rt_router t) new clock) as [r| |] eqn:Hd; try done.
    injection Hx as <-. destruct Hy as (Hw' & _).
    set (t1 := rt_set_active _ _). destruct (note_resets_same t1) as (Hr1 & Ha1 & Hre1 & Hrep1 & Hqs1 & Hch1 & Hh1 & Hrp1).
    split.
    + split; rewrite ?Hr1, ?Ha1, ?Hre1, ?Hrep1, ?Hqs1, ?Hch1, ?Hh1; try done. split; [done|].
      split; [done|]. intros Hi. by apply Hrp1.
    + rewrite Hr1. apply rtc_once. by eapply step_policy.
  - pose proof (complete_step_wf callers t q o now clock Hk Hw Ha Hrl) as Hy. rewrite Hx in Hy. by destruct Hy as (? & ? & _).
  - destruct Hw as [(Hr & Ha & Hrp) Hre Hh Hq]. split; [|apply rtc_once, step_route_state, Hs].
    split; try done. simpl. split; [by apply set_route_state_wf|].
    by destruct (route_state_same (rt_router t) route s) as [-> ->].
  - destruct Hw as [Hf Hre Hh Hq].
    assert (rt_router (rt_open_route t route).1 = rt_router t /\ rt_held (rt_open_route t route).1 = rt_held t /\
      rt_active (rt_open_route t route).1 = rt_active t /\
      rt_resets_pending (rt_open_route t route).1 = rt_resets_pending t /\
      rt_released (rt_open_route t route).1 = rt_released t /\
      rt_released_pending (rt_open_route t route).1 = rt_released_pending t) as (H1 & H2 & H3 & H4 & H5 & H6).
    { unfold rt_open_route, rt_put_queue. cbv zeta. cbn [fst].
      destruct (_ <=? _)%nat; simpl; repeat case_match; done. }
    rewrite H1. split; [|done]. split; rewrite ?H1, ?H2, ?H3, ?H4, ?H5, ?H6; try done. by apply open_queues_ok.
  - destruct Hw as [(Hr & Ha & Hrp) Hre Hh Hq].
    assert (rt_router (rt_close_route t route) = set_route_state (rt_router t) route Unavailable /\
      rt_held (rt_close_route t route) = rt_held t /\ rt_active (rt_close_route t route) = rt_active t /\
      rt_resets_pending (rt_close_route t route) = rt_resets_pending t /\
      rt_released (rt_close_route t route) = rt_released t /\
      rt_released_pending (rt_close_route t route) = rt_released_pending t) as (H1 & H2 & H3 & H4 & H5 & H6).
    { unfold rt_close_route, rt_put_queue. repeat case_match; done. }
    rewrite H1. split; [|by apply rtc_once, step_route_state].
    split; rewrite ?H1, ?H2, ?H3, ?H4, ?H5, ?H6; try done; [|by apply close_queues_ok].
    split; [by apply set_route_state_wf|]. by destruct (route_state_same (rt_router t) route Unavailable) as [-> ->].
  - destruct Hw as [(Hr & Ha & Hrp) Hre Hh Hq]. split; [|apply rtc_once; exact (step_take_resets callers (rt_router t))].
    split; try done. split; [by apply (take_resets_wf (rt_router t))|]. split; done.
  - destruct Hw as [Hf Hre Hh Hq]. unfold rt_take_released. destruct (rt_released_pending t) eqn:Hp; simpl.
    2: { split; [|done]. split; rewrite ?Hp; done. }
    split; [|by destruct (rt_released t) as [|? [|]]; simpl]. destruct (rt_released t) as [|x [|y l]]; simpl; split; simpl; rewrite ?Hp; done.
  - destruct Hw as [Hf Hre Hh Hq]. unfold route_try_recv. destruct (rt_channels t !! queue) as [c|] eqn:Hc; [|by split].
    destruct (chan_try_recv c) as [c' got] eqn:Hg. split; [|done]. split; try done. simpl.
    assert (<[queue := c']> (rt_channels t) = alter (fun c => (chan_try_recv c).1) queue (rt_channels t)) as ->.
    { apply list_eq. intros i. rewrite list_lookup_alter, list_lookup_insert. destruct (decide (queue = i)) as [<-|Hn].
      - rewrite Hc. simpl. rewrite Hg. apply lookup_lt_Some in Hc. by rewrite decide_True.
      - rewrite decide_False; [done|]. by intros [? _]. }
    apply alter_queues_ok; [| |done]; intros c0; unfold chan_try_recv; destruct (ch_packets c0) as [|x l] eqn:Hp0; simpl;
      rewrite ?Hp0; try done. unfold zlen. simpl. lia.
  - destruct Hw as [Hf Hre Hh Hq]. split; [|done]. split; try done. apply alter_queues_ok; [done|done|done].
Qed.
End Machine.

(** ** The theorems *)

Section Reachable.
Context `{!HashOrder} `{!Platform} {R : Type} `{!OwnerResolver R}.
Implicit Types t : RoutingTable R.

Lemma rt_build_wf (r : Router R) lookups :
  router_wf r -> router_is_active r = false -> has_resets r = false -> rt_wf (rt_build r lookups).
Proof.
  intros Hr Ha Hp. by split.
Qed.

(** A reachable table keeps its invariant, over a reachable router. *)
Lemma rt_reachable_wf callers (res : R) t :
  keys_total -> rt_reachable_by callers res t ->
  rt_wf t /\ rtc (step callers) (with_capacity res DEFAULT_FLOW_CAPACITY) (rt_router t).
Proof.
  intros Hk Hr.
  assert (exists t0, rtc (rt_step callers) t0 t /\ rt_wf t0 /\
    rtc (step callers) (with_capacity res DEFAULT_FLOW_CAPACITY) (rt_router t0)) as (t0 & Hs & Hw & Hrun0).
  { destruct Hr as [Hr|Hr].
    - exists (rt_new res). split; [done|]. split; [|done]. apply rt_build_wf; [apply with_capacity_wf|done|done].
    - exists (rt_with_owner_workers res). split; [done|]. split.
      + apply rt_build_wf; [apply set_deferred_wf, with_capacity_wf|done|done].
      + apply rtc_once. exact (step_defer callers (with_capacity res DEFAULT_FLOW_CAPACITY)). }
  clear Hr. induction Hs as [t|t1 t2 t3 Hs _ IH]; [done|].
  destruct (rt_step_wf callers t1 t2 Hk Hs Hw) as [Hw2 Hrun]. apply IH; [done|]. by etrans.
Qed.

(** The datapath never panics and keeps its bounds.  Whatever packets, policies, answers and
    route changes a table is given, each call returns; at most 1024 flows have packets waiting for
    their owner and 64 packets each, all of that flow; at most 1024 packets wait for each route
    session; every open queue belongs to one route.  (On a host whose app keys are total.) *)
Theorem table_never_panics (res : R) (t : RoutingTable R) (Hkeys : keys_total) (Hr : rt_reachable res t) :
  rt_wf t /\
  (forall p arrived clock, bytes_ok p -> exists x, @rt_uplink _ _ R _ Empty_set t p arrived clock = Ok x) /\
  (forall route p now, bytes_ok p -> exists x, @rt_downlink _ R Empty_set t route p now = Ok x) /\
  (forall new clock, policy_wf new -> exists t', @rt_set_policy _ _ R _ Empty_set t new clock = Ok t') /\
  (forall q o now clock, exists t', @rt_complete _ _ R _ Empty_set t q o now clock = Ok t').
Proof.
  destruct (rt_reachable_wf _ _ _ Hkeys Hr) as [Hw _]. split; [done|].
  pose proof (rtw_front _ Hw) as (Hrw & _). split_and!.
  - intros p arrived clock Hb. pose proof (uplink_step_wf any_caller t p arrived clock Hkeys Hw Hb I) as Hy.
    destruct (rt_uplink t p arrived clock); [eauto|done|done].
  - intros route p now Hb. unfold rt_downlink.
    pose proof (@downlink_yields _ _ R Empty_set (rt_router t) route p now Hrw Hb) as Hy.
    destruct (downlink (rt_router t) route p now) as [[[r p'] d]| |]; [simpl; eauto|done|done].
  - intros new clock Hp. unfold rt_set_policy.
    pose proof (@set_policy_yields _ _ R _ Empty_set (rt_router t) new clock Hkeys Hrw Hp) as Hy.
    destruct (set_policy (rt_router t) new clock); [simpl; eauto|done|done].
  - intros q o now clock. pose proof (complete_step_wf any_caller t q o now clock Hkeys Hw I (fun _ _ => I)) as Hy.
    destruct (rt_complete t q o now clock); [eauto|done|done].
Qed.

(** The table without the flags it reads outside the lock: every packet asks the router, every
    write takes the resets, every read takes the packets released. *)
Definition locked_uplink t (packet : bytes) (arrived clock : Z) : comp Empty_set (RoutingTable R * bytes * Uplinked) :=
  '(r, packet, verdict) ← Router.uplink (rt_router t) packet arrived clock;
  let t := rt_set_router r t in
  let t := if negb (router_is_active r) then rt_set_active false t else t in
  let t := rt_note_resets t in
  if bool_decide (verdict = VMain) then Ok (t, packet, UMain) else
  Ok (rt_send_queries (rt_dispatch t verdict packet).1, [], UTaken).

Definition locked_write_resets t (written : list bytes) : RoutingTable R * list bytes :=
  ((rt_take_resets t).1, written ++ (rt_take_resets t).2).

Definition locked_take_released t : RoutingTable R * option bytes :=
  (rt_set_released_pending (match rt_released t with [] | [_] => false | _ => rt_released_pending t end)
     (rt_set_released (tail (rt_released t)) t), head (rt_released t)).

(** The flags read outside the lock change nothing.  In every reachable state, sending a packet
    up, writing the resets and taking a released packet give what they would give if they always
    took the lock: the fast path of an idle table never carries a packet the router would have
    taken, and no reset and no released packet is left behind by a flag. *)
Theorem flags_are_transparent (res : R) (t : RoutingTable R) (p : bytes) (arrived clock : Z) (written : list bytes)
    (Hkeys : keys_total) (Hr : rt_reachable res t) :
  rt_uplink t p arrived clock = locked_uplink t p arrived clock /\
  rt_write_resets t written = locked_write_resets t written /\
  rt_take_released t = locked_take_released t.
Proof.
  destruct (rt_reachable_wf _ _ _ Hkeys Hr) as [[(Hrw & Ha & Hp) Hre _ _] _].
  destruct t as [active rp deferred relp r qs held rel lookups chs]; cbn [rt_active rt_resets_pending
    rt_released_pending rt_released rt_router] in *.
  split_and!.
  - unfold rt_uplink, locked_uplink. cbn [rt_active rt_router].
    destruct active; cbn [negb].
    + destruct (Router.uplink r p arrived clock) as [[[r' p'] v]| |]; try done. cbn [mbind comp_bind].
      destruct (bool_decide (v = VMain)); [done|]. by destruct (rt_dispatch _ v p').
    + rewrite (uplink_inactive r p arrived clock) by auto. rewrite bind_Ok. rewrite Ha by done.
      cbn. unfold rt_note_resets. cbn. destruct (has_resets r) eqn:Hh; [|done].
      destruct rp; [done|]. specialize (Hp eq_refl). congruence.
  - unfold rt_write_resets, locked_write_resets. cbn [rt_resets_pending]. destruct rp; cbn; [done|].
    specialize (Hp eq_refl). unfold has_resets in Hp. apply negb_false_iff, bool_decide_eq_true in Hp.
    destruct r. cbn in *. subst. by rewrite app_nil_r.
  - unfold rt_take_released, locked_take_released. cbn [rt_released_pending rt_released]. destruct relp; cbn [negb].
    + destruct rel as [|x [|y rel]]; case_bool_decide; done.
    + by rewrite Hre by done.
Qed.
End Reachable.

(** ** Where packets end *)

Section Leaks.
Context `{!HashOrder} `{!Platform} {R : Type} `{!OwnerResolver R} `{!HostView R} `{!AppFlow R}.
Implicit Types t : RoutingTable R.

Definition rt_honest : R -> RoutingTable R -> Prop :=
  rt_reachable_by app_callers.

(** What a call on the table for packets of the app's flow may do with them: those of a routed app
    are neither given to main nor kept for it, and only its own route's queue takes any; those of
    an app with no route are in no route's queue. *)
Definition stays (p : Policy) t t' : Prop :=
  rt_queues t' = rt_queues t /\
  match app_route p with
  | Some route =>
      rt_released t' = rt_released t /\
      forall q, get (rt_queues t) route <> Some (Some q) -> rt_channels t' !! q = rt_channels t !! q
  | None => rt_channels t' = rt_channels t
  end.

Lemma stays_trans p t1 t2 t3 : stays p t1 t2 -> stays p t2 t3 -> stays p t1 t3.
Proof.
  unfold stays. intros [Hq1 Hs1] [Hq2 Hs2]. split; [congruence|]. rewrite Hq1 in Hs2.
  destruct (app_route p) as [route|]; [|congruence]. destruct Hs1 as [Hr1 Hc1], Hs2 as [Hr2 Hc2].
  split; [congruence|]. intros q Hq. by rewrite Hc2, Hc1.
Qed.

Lemma dispatch_stays p t v packet :
  verdict_agrees p v -> stays p t (rt_dispatch t v packet).1.
Proof.
  intros Hv. unfold stays. split; [by apply dispatch_same|].
  destruct v as [|route'| |k']; simpl in *; try by destruct (app_route p).
  rewrite Hv. destruct (get (rt_queues t) route') as [[q'|]|] eqn:Hg; simpl; try done.
  split; [done|]. intros q Hq. rewrite list_lookup_alter, decide_False; [done|]. congruence.
Qed.

Lemma release_honest packets t now clock :
  keys_total -> honest_state (rt_router t) -> releases app_callers app_flow now clock ->
  Forall (held_packet app_flow) packets ->
  yields (@rt_release _ _ R _ Empty_set t packets now clock) (fun _ => False) (fun t' =>
    stays (policy (rt_router t)) t t').
Proof.
  intros Hk Hh Hrel. revert t Hh. induction packets as [|p ps IH]; intros t Hh Hps; simpl.
  { unfold stays. by destruct (app_route _). }
  apply Forall_cons in Hps as [Hp Hps]. pose proof Hp as [Hb (flags & frag & Hc)].
  pose proof (@uplink_honest _ _ R _ _ _ Empty_set (rt_router t) p now clock Hk Hh Hb (Hrel p Hp)) as Hy.
  destruct (Router.uplink (rt_router t) p now clock) as [[[r p'] v]| |] eqn:Hx; try done. cbn [mbind comp_bind].
  destruct Hy as (Hh' & Hpol & Hv). specialize (Hv flags frag Hc). cbn [fst snd] in *.
  set (t1 := rt_set_router r t).
  pose proof (dispatch_stays (policy (rt_router t)) t1 v p' Hv) as Hst.
  pose proof (dispatch_main t1 v p') as Hm. destruct (dispatch_same t1 v p') as (Hs1 & _).
  destruct (rt_dispatch t1 v p') as [t2 main]. cbn [fst snd] in *.
  set (t3 := match main with Some m => rt_set_released (rt_released t2 ++ [m]) t2 | None => t2 end).
  assert (stays (policy (rt_router t)) t t3 /\ rt_router t3 = r) as [Hst3 Hr3].
  { unfold t3. destruct (bool_decide_reflect (v = VMain)) as [->|Hn]; subst main; [|done].
    split; [|done]. unfold stays in *. simpl. destruct Hst as [Hq Hst]. split; [done|].
    cbn in Hv. by rewrite Hv in *. }
  eapply yields_mono; [apply IH; [by rewrite Hr3|done]|done|].
  intros t' Hst'. rewrite Hr3, Hpol in Hst'. by eapply stays_trans.
Qed.

Lemma uplink_stays t p flags frag arrived clock t' p' up :
  keys_total -> honest_state (rt_router t) -> (rt_active t = false -> router_is_active (rt_router t) = false) ->
  bytes_ok p -> app_call p arrived clock -> classify p Uplink = Ok (Flow app_flow flags frag) ->
  @rt_uplink _ _ R _ Empty_set t p arrived clock = Ok (t', p', up) ->
  stays (policy (rt_router t)) t t' /\
  match up with
  | UMain => app_route (policy (rt_router t)) = None /\ p' = p
  | UTaken => p' = []
  end.
Proof.
  intros Hkeys Hh Ha Hb Hcall Hc Hx. pose proof (hs_wf _ Hh) as Hrw. unfold rt_uplink in Hx.
  destruct (rt_active t) eqn:Hact; cbn [negb] in Hx.
  2: { injection Hx as <- <- <-. pose proof (inactive_parts _ (Ha eq_refl)) as [Hp _].
       unfold stays. by rewrite (inactive_route _ Hp). }
  pose proof (@uplink_honest _ _ R _ _ _ Empty_set (rt_router t) p arrived clock Hkeys Hh Hb Hcall) as Hy.
  pose proof (@uplink_yields _ _ R _ Empty_set (rt_router t) p arrived clock Hkeys Hrw Hb) as Hu.
  destruct (Router.uplink (rt_router t) p arrived clock) as [[[r p1] v]| |]; try done. cbn [mbind comp_bind] in Hx.
  destruct Hy as (_ & _ & Hv). specialize (Hv flags frag Hc). destruct Hu as (_ & _ & _ & _ & He). cbn [fst snd] in *.
  set (t1 := if negb (router_is_active r) then _ else _) in Hx. 
  assert (stays (policy (rt_router t)) t (rt_note_resets t1)) as Hst1.
  { unfold stays. destruct (note_resets_same t1) as (_ & _ & -> & _ & -> & -> & _).
    unfold t1. by destruct (router_is_active r), (app_route _). }
  destruct (bool_decide_reflect (v = VMain)) as [->|Hn].
  { injection Hx as <- <- <-. split; [done|]. by split. }
  pose proof (dispatch_stays (policy (rt_router t)) (rt_note_resets t1) v p1 Hv) as Hst2.
  destruct (rt_dispatch (rt_note_resets t1) v p1) as [t2 main]. injection Hx as <- <- <-. split; [|done].
  pose proof (stays_trans _ _ _ _ Hst1 Hst2) as Hst. cbn [fst] in Hst. unfold stays in *.
  by destruct (send_queries_same t2) as (_ & _ & -> & _ & -> & -> & _).
Qed.

(** No packet of a routed app reaches the main session through the table.  For the flow of an app
    ([AppFlow]), and callers as [app_callers], whatever came before: sending up a packet of the flow
    takes it out of the main path when the policy routes the app: it is queued for the app's own
    route, held or dropped, and the caller is left with nothing; and when the owner of the flow is
    known, its held packets go the same way, none of them released to main.  When the app has no
    route, its packets, held or not, enter no route's queue, and one main keeps is unchanged. *)
Theorem table_never_leaks (res : R) (t : RoutingTable R)
    (Hkeys : keys_total) (Hr : rt_honest res t) :
  (forall p flags frag arrived clock t' p' up, bytes_ok p -> app_call p arrived clock ->
     classify p Uplink = Ok (Flow app_flow flags frag) ->
     @rt_uplink _ _ R _ Empty_set t p arrived clock = Ok (t', p', up) ->
     stays (policy (rt_router t)) t t' /\
     match up with
     | UMain => app_route (policy (rt_router t)) = None /\ p' = p
     | UTaken => p' = []
     end) /\
  (forall q o now clock t', q_flow q = app_flow -> app_answer (policy (rt_router t)) o -> app_since <= now <= clock ->
     @rt_complete _ _ R _ Empty_set t q o now clock = Ok t' -> stays (policy (rt_router t)) t t').
Proof.
  destruct (rt_reachable_wf _ _ _ Hkeys Hr) as [[(Hrw & Ha & _) _ Hheld _] Hrun].
  assert (honest_state (rt_router t)) as Hh by (by eapply honest_reachable_state). clear Hr Hrun.
  split; [by intros *; apply uplink_stays|].
  intros q o now clock t' Hqf Ho Hnow Hx. unfold rt_complete in Hx.
  pose proof (@complete_honest _ R _ _ _ Empty_set (rt_router t) q o now Hkeys Hh (fun _ => Ho)) as Hy.
  destruct (Router.complete (rt_router t) q o now) as [r| |]; try done. cbn [mbind comp_bind] in Hx.
  destruct Hy as [Hh' Hpol]. set (t1 := rt_set_held _ _) in Hx. rewrite Hqf in Hx.
  assert (releases app_callers app_flow now clock) as Hrel by (intros p _; split; [|intros _ _ _]; lia).
  pose proof (release_honest (default [] (rt_held t !! app_flow)) t1 now clock Hkeys Hh' Hrel
                (held_of _ _ Hheld)) as Hst.
  cbn [rt_router] in Hst.
  destruct (rt_release t1 _ now clock) as [t2| |]; try done. cbn [mbind comp_bind] in Hx. injection Hx as <-.
  cbn [yields] in Hst. rewrite (Hpol : policy (rt_router t1) = _) in Hst. unfold stays in *.
  assert (forall t3, rt_queues (if bool_decide (rt_released t3 = []) then t3 else rt_set_released_pending true t3) = rt_queues t3
    /\ rt_released (if bool_decide (rt_released t3 = []) then t3 else rt_set_released_pending true t3) = rt_released t3
    /\ rt_channels (if bool_decide (rt_released t3 = []) then t3 else rt_set_released_pending true t3) = rt_channels t3) as Hlast
    by (intros t3; by destruct (bool_decide (rt_released t3 = []))).
  destruct (Hlast (rt_note_resets (rt_send_queries t2))) as (-> & -> & ->).
  destruct (note_resets_same (rt_send_queries t2)) as (_ & _ & -> & _ & -> & -> & _).
  by destruct (send_queries_same t2) as (_ & _ & -> & _ & -> & -> & _).
Qed.
End Leaks.

(** ** Queues left behind *)

Section Closed.
Context `{!HashOrder} `{!Platform} {R : Type} `{!OwnerResolver R}.
Implicit Types t : RoutingTable R.

(** The table let go of the channel, and what waits in it can only be read or dropped. *)
Definition left_behind (c : Channel) t (q : nat) : Prop :=
  exists c', rt_channels t !! q = Some c' /\ ch_sender c' = false /\ ch_packets c' `suffix_of` ch_packets c.

Lemma left_behind_same c t t' q : rt_channels t' = rt_channels t -> left_behind c t q -> left_behind c t' q.
Proof. unfold left_behind. by intros ->. Qed.

Lemma left_behind_alter f c t q' q channels' :
  (forall c, ch_sender c = false -> ch_sender (f c) = false) ->
  (forall c, ch_packets (f c) `suffix_of` ch_packets c) ->
  channels' = alter f q' (rt_channels t) -> left_behind c t q -> left_behind c (rt_set_channels channels' t) q.
Proof.
  intros Hs Hp -> (c' & Hc & Hsc & Hpc). unfold left_behind. simpl. rewrite list_lookup_alter.
  case_decide; [|eauto]. subst q'. rewrite Hc. simpl. exists (f c'). split; [done|]. split; [auto|].
  etrans; [apply Hp|exact Hpc].
Qed.

Lemma dispatch_left c t v p q :
  queues_ok (rt_queues t) (rt_channels t) -> left_behind c t q -> left_behind c (rt_dispatch t v p).1 q.
Proof.
  intros (_ & Hq & _) (c' & Hc & Hs & Hp). destruct v as [|route| |k]; simpl; try by exists c'.
  destruct (get (rt_queues t) route) as [[q'|]|] eqn:Hg; simpl; try by exists c'.
  exists c'. simpl. rewrite list_lookup_alter, decide_False; [done|]. intros ->.
  unfold get in Hg. destruct (0 <=? route); [|done]. apply Hq in Hg as (c2 & Hc2 & Hs2). congruence.
Qed.

Lemma release_left {E : Type} c t packets now clock t' q :
  @rt_release _ _ R _ E t packets now clock = Ok t' ->
  queues_ok (rt_queues t) (rt_channels t) -> left_behind c t q -> left_behind c t' q.
Proof.
  revert t. induction packets as [|p ps IH]; intros t; simpl; [by intros [= ->]|].
  intros ([[r p'] v] & _ & Hx)%bind_ok Hq Hl. set (t1 := rt_set_router r t) in *.
  assert (queues_ok (rt_queues (rt_dispatch t1 v p').1) (rt_channels (rt_dispatch t1 v p').1)) as Hq'
    by by apply dispatch_queues_ok.
  assert (left_behind c (rt_dispatch t1 v p').1 q) as Hl' by by apply dispatch_left.
  destruct (rt_dispatch t1 v p') as [t2 main]. cbn [fst] in *. eapply IH; [exact Hx| |]; by destruct main.
Qed.

Lemma put_queue_left c t slot queue q : left_behind c t q -> left_behind c (rt_put_queue t slot queue) q.
Proof.
  intros Hl. unfold rt_put_queue. destruct (rt_queues t !! slot) as [[old|]|]; try done.
  by eapply left_behind_alter in Hl; [exact Hl| | |reflexivity].
Qed.

Lemma open_left c t route q : left_behind c t q -> left_behind c (rt_open_route t route).1 q.
Proof.
  intros (c' & Hc & Hs & Hp). unfold rt_open_route. cbv zeta. cbn [fst]. apply put_queue_left.
  exists c'. split; [|done].
  destruct (_ <=? _)%nat; simpl; (rewrite lookup_app_l; [done|]; by apply lookup_lt_Some in Hc).
Qed.

Lemma step_left callers c t t' q : rt_wf t -> rt_step callers t t' -> left_behind c t q -> left_behind c t' q.
Proof.
  intros [_ _ _ Hq] Hs Hl. destruct Hs as [t p arrived clock x Hb Hse Hx|t route p now x Hb Hx|t new clock t' Hp Hx
    |t qu o now clock t' Ha Hrl Hx|t route s Hs|t route Hge|t route Hge|t|t|t queue|t queue].
  - unfold rt_uplink in Hx. destruct (rt_active t); cbn [negb] in Hx; [|by injection Hx as <-].
    apply bind_ok in Hx as ([[r p1] v] & _ & Hx). set (t1 := if negb (router_is_active r) then _ else _) in Hx.
    destruct (note_resets_same t1) as (_ & _ & _ & _ & Hqs & Hch & _ & _).
    assert (rt_queues t1 = rt_queues t /\ rt_channels t1 = rt_channels t) as [Hqs1 Hch1]
      by (unfold t1; by destruct (router_is_active r)).
    assert (left_behind c (rt_note_resets t1) q) as Hl1 by (eapply left_behind_same; [|exact Hl]; congruence).
    destruct (bool_decide (v = VMain)); [by injection Hx as <-|].
    assert (left_behind c (rt_dispatch (rt_note_resets t1) v p1).1 q) as Hl2.
    { apply dispatch_left; [|done]. by rewrite Hqs, Hch, Hqs1, Hch1. }
    destruct (rt_dispatch (rt_note_resets t1) v p1) as [t2 main]. injection Hx as <-. cbn [fst].
    eapply left_behind_same; [|exact Hl2]. by destruct (send_queries_same t2) as (_ & _ & _ & _ & _ & ? & _).
  - unfold rt_downlink in Hx. by apply bind_ok in Hx as ([[r p1] d] & _ & [= <-]).
  - unfold rt_set_policy in Hx. apply bind_ok in Hx as (r & _ & [= <-]).
    eapply left_behind_same; [|exact Hl].
    by destruct (note_resets_same (rt_set_active (router_is_active r) (rt_set_router r t))) as (_ & _ & _ & _ & _ & ? & _).
  - unfold rt_complete in Hx. apply bind_ok in Hx as (r & _ & Hx). apply bind_ok in Hx as (t2 & Ht2 & [= <-]).
    apply (release_left c _ _ _ _ _ q) in Ht2; [|done|done].
    eapply left_behind_same; [|exact Ht2].
    destruct (note_resets_same (rt_send_queries t2)) as (_ & _ & _ & _ & _ & Hch & _).
    destruct (send_queries_same t2) as (_ & _ & _ & _ & _ & Hch2 & _).
    case_bool_decide; simpl; congruence.
  - done.
  - by apply open_left.
  - unfold rt_close_route. destruct (get _ route); [|done]. by apply put_queue_left.
  - done.
  - eapply left_behind_same; [|exact Hl]. unfold rt_take_released. destruct (rt_released_pending t); [|done].
    cbn [negb]. by destruct (rt_released t) as [|? [|? ?]].
  - unfold route_try_recv. destruct (rt_channels t !! queue) as [c0|] eqn:Hc0; [|done].
    destruct Hl as (c' & Hc' & Hsc & Hpc).
    destruct (chan_try_recv c0) as [c1 got] eqn:Hg. unfold left_behind. cbn [fst rt_channels rt_set_channels].
    destruct (decide (queue = q)) as [->|Hn].
    + rewrite list_lookup_insert_eq by (by apply lookup_lt_Some in Hc'). exists c1. split; [done|].
      assert (c0 = c') as -> by congruence. unfold chan_try_recv in Hg.
      destruct (ch_packets c') as [|p l] eqn:Hp; injection Hg as <- _; simpl; rewrite ?Hp; [done|]. split; [done|].
      etrans; [|exact Hpc]. by apply suffix_cons_r.
    + rewrite list_lookup_insert_ne by done. by exists c'.
  - eapply left_behind_alter; [| |reflexivity|exact Hl]; [done|]. intros c0. apply suffix_nil.
Qed.

(** A session replaced never gets its successor's packets.  Opening a route again, or closing
    it, lets go of the queue its session reads; and whatever happens next, nothing is added to a
    queue let go: its reader can only drain what it held, which is then closed. *)
Theorem replaced_queue_gets_nothing (callers : Callers) (res : R)
    (t t' : RoutingTable R) (route : Z) (q : nat) (c : Channel)
    (Hkeys : keys_total) (Hr : rt_reachable_by callers res t) (Hroute : 0 <= route)
    (Hq : get (rt_queues t) route = Some (Some q)) (Hc : rt_channels t !! q = Some c)
    (Hafter : rtc (rt_step callers) (rt_open_route t route).1 t' \/ rtc (rt_step callers) (rt_close_route t route) t') :
  exists c', rt_channels t' !! q = Some c' /\ ch_sender c' = false /\ ch_packets c' `suffix_of` ch_packets c.
Proof.
  destruct (rt_reachable_wf _ _ _ Hkeys Hr) as [Hw _].
  unfold get in Hq. destruct (Z.leb_spec 0 route); [|done].
  assert (forall t0 queue, rt_queues t0 !! Z.to_nat route = Some (Some q) -> rt_channels t0 !! q = Some c ->
    left_behind c (rt_put_queue t0 (Z.to_nat route) queue) q) as Hput.
  { intros t0 queue Hq0 Hc0. unfold rt_put_queue. rewrite Hq0. exists (drop_sender c). simpl.
    rewrite list_lookup_alter_eq, Hc0. done. }
  assert (exists t0, rtc (rt_step callers) t0 t' /\ rt_wf t0 /\ left_behind c t0 q) as (t0 & Hs & Hw0 & Hl0).
  { destruct Hafter as [Hs|Hs]; eexists; (split; [exact Hs|]); split.
    - eapply rt_step_wf; [exact Hkeys|by apply (rts_open callers)|done].
    - unfold rt_open_route. cbv zeta. cbn [fst]. apply Hput.
      + apply lookup_lt_Some in Hq as Hlt. simpl. rewrite (proj2 (Nat.leb_gt _ _)) by lia. done.
      + rewrite (proj2 (Nat.leb_gt _ _)) by (simpl; by apply lookup_lt_Some in Hq). simpl.
        rewrite lookup_app_l; [done|]. by apply lookup_lt_Some in Hc.
    - eapply rt_step_wf; [exact Hkeys|by apply (rts_close callers)|done].
    - unfold rt_close_route, get. destruct (Z.leb_spec 0 route); [|lia]. simpl. rewrite Hq. by apply Hput. }
  clear Hafter. induction Hs as [t1|t1 t2 t3 Hs _ IH]; [exact Hl0|]. apply IH.
  - by eapply rt_step_wf.
  - by eapply step_left.
Qed.
End Closed.
