(* ===== verification/Controller.v ===== *)
(** * The route sessions of a tunnel (warren-app-routes/src/controller.rs)

    The controller's state and one definition per method, over the interface of
    the routing table it shares with the packet path ([RouteTable]) and of
    whatever starts sessions ([RouteSessions]).  What it does to the world
    (naming relays to the firewall, starting and stopping sessions, writing
    resets, reporting) is appended to [trace], in order. *)

From S2P Require Import Prelude AppKey Router RouterInv Routes.
Open Scope Z_scope.

(** ** The interfaces *)

(** [routes.get_mut(i)] written. *)
Definition policy_with_state (p : Policy) (route : RouteId) (state : RouteState) : Policy :=
  match get (routes p) route with
  | Some _ => mkPolicy (main p) (apps p) (<[Z.to_nat route := state]> (routes p)) (sessions p)
  | None => p
  end.

(** The routing table as the controller uses it.  [table_ok] is the table's own invariant, under
    which every call returns; the packet path shares the table, and [table_packets] is a step of it. *)
Class RouteTable `{!Platform} (T : Type) : Type := {
  table_policy : T -> Policy;
  table_ok : T -> Prop;
  table_packets : T -> T -> Prop;
  table_set_policy : T -> Policy -> Z -> comp Empty_set T;
  table_take_resets : T -> T * list bytes;
  table_set_route_state : T -> RouteId -> RouteState -> T;
  table_open_route : T -> RouteId -> T * nat;
  table_close_route : T -> RouteId -> T;
  table_packets_spec : forall t t', table_ok t -> table_packets t t' ->
    table_ok t' /\ table_policy t' = table_policy t;
  table_set_policy_spec : forall t new clock, table_ok t -> policy_wf new ->
    exists t', table_set_policy t new clock = Ok t' /\ table_ok t' /\ table_policy t' = new;
  table_take_resets_spec : forall t, table_ok t ->
    table_ok (table_take_resets t).1 /\ table_policy (table_take_resets t).1 = table_policy t;
  table_set_route_state_spec : forall t route state, table_ok t -> state_wf state -> 0 <= route ->
    table_ok (table_set_route_state t route state) /\
    table_policy (table_set_route_state t route state) = policy_with_state (table_policy t) route state;
  table_open_route_spec : forall t route, table_ok t -> 0 <= route ->
    table_ok (table_open_route t route).1 /\ table_policy (table_open_route t route).1 = table_policy t;
  table_close_route_spec : forall t route, table_ok t -> 0 <= route ->
    table_ok (table_close_route t route) /\
    table_policy (table_close_route t route) = policy_with_state (table_policy t) route Unavailable
}.

(** [trait RouteSessions]: a session is given its device (the route and the queue it reads) and its
    line to the controller (its slot and generation). *)
Class RouteSessions `{!Descriptors} (S Hd : Type) : Type :=
  start_session : S -> MultiHopConfig -> RouteId * nat -> nat * Z -> S * Hd.

(** ** The state *)

Definition BLOCKED : RouteId := MAX_ROUTE_SESSIONS.
Definition BLOCKED_SESSION : SessionId := 18446744073709551615.
Definition NO_SESSION : SessionId := 18446744073709551614.

Inductive SessionEvent : Type :=
| EvConnecting | EvConnected (addresses : SessionAddresses) | EvUnavailable (reason : RouteUnavailable) | EvWaiting.

Record Tagged : Type := mkTagged { tg_slot : nat; tg_generation : Z; tg_event : SessionEvent }.

(** What a policy handed to the table is made of: [PolicyKey]. *)
Definition PolicyKey : Type := list (str * RouteId) * list SessionId.

Section State.
Context `{!Descriptors}.

Record Slot (Hd : Type) : Type := mkSlot {
  s_circuit : MultiHopConfig;
  s_apps : list str;
  s_state : RouteSessionState;
  s_addresses : option SessionAddresses;
  s_generation : Z;
  s_session : option Hd
}.

(** What the controller does to the world. *)
Inductive Effect (Hd : Type) : Type :=
| FxStop (handle : Hd)
| FxNameRelays (relays : list RelayDescriptorSigned)
| FxStart (index : nat) (circuit : MultiHopConfig)
| FxReset (packet : bytes)
| FxReport (reports : list RouteReport).

(** The generation counts the sessions started, a [u64]. *)
Record RouteController (T S Hd : Type) : Type := mkRouteController {
  table : T;
  route_sessions : S;
  ctl_main : SessionAddresses;
  ctl_main_exit : option bytes;
  observed : bool;
  slots : list (option (Slot Hd));
  capacity : Z;
  ctl_plan : AppRoutesPlan;
  waiting : list bytes;
  blocked_apps : list str;
  main_apps : list MainRoute;
  next_generation : Z;
  reported : option (list RouteReport);
  named : list RelayDescriptorSigned;
  mapping : option PolicyKey;
  trace : list (Effect Hd)
}.
End State.
Arguments mkSlot {_ Hd}.
Arguments s_circuit {_ Hd}.
Arguments s_apps {_ Hd}.
Arguments s_state {_ Hd}.
Arguments s_addresses {_ Hd}.
Arguments s_generation {_ Hd}.
Arguments s_session {_ Hd}.
Arguments FxStop {_ Hd}.
Arguments FxNameRelays {_ Hd}.
Arguments FxStart {_ Hd}.
Arguments FxReset {_ Hd}.
Arguments FxReport {_ Hd}.
Arguments mkRouteController {_ T S Hd}.
Arguments table {_ T S Hd}.
Arguments route_sessions {_ T S Hd}.
Arguments ctl_main {_ T S Hd}.
Arguments ctl_main_exit {_ T S Hd}.
Arguments observed {_ T S Hd}.
Arguments slots {_ T S Hd}.
Arguments capacity {_ T S Hd}.
Arguments ctl_plan {_ T S Hd}.
Arguments waiting {_ T S Hd}.
Arguments blocked_apps {_ T S Hd}.
Arguments main_apps {_ T S Hd}.
Arguments next_generation {_ T S Hd}.
Arguments reported {_ T S Hd}.
Arguments named {_ T S Hd}.
Arguments mapping {_ T S Hd}.
Arguments trace {_ T S Hd}.

(** [u8::try_from(index).unwrap_or(u8::MAX)] *)
Definition route_id (index : nat) : RouteId := if Z.of_nat index <=? 255 then Z.of_nat index else 255.

Section Slots.
Context `{!Descriptors} {Hd : Type}.
Implicit Types (s : Slot Hd) (l : list (option (Slot Hd))).

Definition identity s : bytes * bytes := circuit_identity (s_circuit s).

Definition slot_route_state s : RouteState :=
  match s_state s, s_addresses s with
  | SConnected, Some addresses => Connected addresses
  | SUnavailable _, _ => Unavailable
  | _, _ => Connecting
  end.

(** Whether a slot holds this circuit: [iter().flatten().any(..)]. *)
Definition holds l (id : bytes * bytes) : bool :=
  existsb (fun o => match o with Some s => bool_decide (identity s = id) | None => false end) l.

(** [iter_mut().flatten().find(..)], its apps written. *)
Fixpoint give_apps (id : bytes * bytes) (apps : list str) l : option (list (option (Slot Hd))) :=
  match l with
  | [] => None
  | Some s :: l =>
      if bool_decide (identity s = id)
      then Some (Some (mkSlot (s_circuit s) apps (s_state s) (s_addresses s) (s_generation s) (s_session s)) :: l)
      else cons (Some s) <$> give_apps id apps l
  | None :: l => cons None <$> give_apps id apps l
  end.

(** [iter_mut().find(|slot| slot.is_none())], filled. *)
Fixpoint fill_free (new : Slot Hd) l : option (list (option (Slot Hd))) :=
  match l with
  | [] => None
  | None :: l => Some (Some new :: l)
  | Some s :: l => cons (Some s) <$> fill_free new l
  end.

(** The loop of [reserve] over the served routes: the slots and the next generation. *)
Fixpoint reserve_routes (served : list PlannedRoute) l (generation : Z) : list (option (Slot Hd)) * Z :=
  match served with
  | [] => (l, generation)
  | route :: served =>
      match give_apps (circuit_identity (circuit route)) (r_apps route) l with
      | Some l => reserve_routes served l generation
      | None =>
          match fill_free (mkSlot (circuit route) (r_apps route) SConnecting None generation None) l with
          | None => (l, generation)
          | Some l => reserve_routes served l (generation + 1)
          end
      end
  end.

(** [iter().flatten()] *)
Definition occupied l : list (Slot Hd) := omap (fun o => o) l.

(** The apps of each slot, on its route, from slot [index] on. *)
Fixpoint slot_apps (index : nat) l : list (str * RouteId) :=
  match l with
  | [] => []
  | Some s :: l => ((fun app => (app, route_id index)) <$> s_apps s) ++ slot_apps (S index) l
  | None :: l => slot_apps (S index) l
  end.
End Slots.

Section Controller.
Context `{!Platform} `{!Descriptors} {T S Hd : Type} `{!RouteTable T} `{!RouteSessions S Hd}.
Implicit Types c : RouteController T S Hd.

Definition with_table (t : T) c : RouteController T S Hd :=
  mkRouteController t (route_sessions c) (ctl_main c) (ctl_main_exit c) (observed c) (slots c) (capacity c) (ctl_plan c)
    (waiting c) (blocked_apps c) (main_apps c) (next_generation c) (reported c) (named c) (mapping c) (trace c).
Definition with_slots (l : list (option (Slot Hd))) c : RouteController T S Hd :=
  mkRouteController (table c) (route_sessions c) (ctl_main c) (ctl_main_exit c) (observed c) l (capacity c) (ctl_plan c)
    (waiting c) (blocked_apps c) (main_apps c) (next_generation c) (reported c) (named c) (mapping c) (trace c).
Definition with_main_exit (e : option bytes) c : RouteController T S Hd :=
  mkRouteController (table c) (route_sessions c) (ctl_main c) e (observed c) (slots c) (capacity c) (ctl_plan c)
    (waiting c) (blocked_apps c) (main_apps c) (next_generation c) (reported c) (named c) (mapping c) (trace c).
Definition with_capacity_ (n : Z) c : RouteController T S Hd :=
  mkRouteController (table c) (route_sessions c) (ctl_main c) (ctl_main_exit c) (observed c) (slots c) n (ctl_plan c)
    (waiting c) (blocked_apps c) (main_apps c) (next_generation c) (reported c) (named c) (mapping c) (trace c).
Definition with_plan (p : AppRoutesPlan) c : RouteController T S Hd :=
  mkRouteController (table c) (route_sessions c) (ctl_main c) (ctl_main_exit c) (observed c) (slots c) (capacity c) p
    (waiting c) (blocked_apps c) (main_apps c) (next_generation c) (reported c) (named c) (mapping c) (trace c).
Definition with_reported (r : option (list RouteReport)) c : RouteController T S Hd :=
  mkRouteController (table c) (route_sessions c) (ctl_main c) (ctl_main_exit c) (observed c) (slots c) (capacity c)
    (ctl_plan c) (waiting c) (blocked_apps c) (main_apps c) (next_generation c) r (named c) (mapping c) (trace c).
Definition with_named (l : list RelayDescriptorSigned) c : RouteController T S Hd :=
  mkRouteController (table c) (route_sessions c) (ctl_main c) (ctl_main_exit c) (observed c) (slots c) (capacity c)
    (ctl_plan c) (waiting c) (blocked_apps c) (main_apps c) (next_generation c) (reported c) l (mapping c) (trace c).
Definition with_mapping (m : option PolicyKey) c : RouteController T S Hd :=
  mkRouteController (table c) (route_sessions c) (ctl_main c) (ctl_main_exit c) (observed c) (slots c) (capacity c)
    (ctl_plan c) (waiting c) (blocked_apps c) (main_apps c) (next_generation c) (reported c) (named c) m (trace c).
Definition with_sessions_ (s : S) c : RouteController T S Hd :=
  mkRouteController (table c) s (ctl_main c) (ctl_main_exit c) (observed c) (slots c) (capacity c) (ctl_plan c)
    (waiting c) (blocked_apps c) (main_apps c) (next_generation c) (reported c) (named c) (mapping c) (trace c).
Definition log (fx : list (Effect Hd)) c : RouteController T S Hd :=
  mkRouteController (table c) (route_sessions c) (ctl_main c) (ctl_main_exit c) (observed c) (slots c) (capacity c)
    (ctl_plan c) (waiting c) (blocked_apps c) (main_apps c) (next_generation c) (reported c) (named c) (mapping c)
    (trace c ++ fx).

Definition controller_new (table : T) (sessions : S) (main : SessionAddresses) (observed : bool)
    : RouteController T S Hd :=
  mkRouteController table sessions main None observed (replicate (Z.to_nat MAX_ROUTE_SESSIONS) None)
    TOKEN_ROUTE_SESSIONS AppRoutesPlan_default [] [] [] 0 None [] None [].

(** The routes that may hold a session now, then those that wait. *)
Definition partition c (p : AppRoutesPlan) : list PlannedRoute * list PlannedRoute :=
  let live route := holds (slots c) (circuit_identity (circuit route)) in
  let routes := filter (fun r => live r = true) (p_routes p) ++ filter (fun r => live r = false) (p_routes p) in
  let n := Z.to_nat (Z.min (zlen routes) (capacity c)) in
  (take n routes, drop n routes).

Definition reserve c (p : AppRoutesPlan) : RouteController T S Hd :=
  let '(served, over_limit) := partition c p in
  let '(l, generation) := reserve_routes served (slots c) (next_generation c) in
  mkRouteController (table c) (route_sessions c) (ctl_main c) (ctl_main_exit c) (observed c) l (capacity c) (ctl_plan c)
    ((fun r => (circuit_identity (circuit r)).2) <$> over_limit)
    (p_blocked_apps p ++ concat (r_apps <$> over_limit)) (p_main_apps p)
    generation (reported c) (named c) (mapping c) (trace c).

Definition policy_routes c : list RouteState :=
  ((fun o => match o with Some s => slot_route_state s | None => Unavailable end) <$> slots c) ++ [Unavailable].

Definition policy_sessions c : list SessionId :=
  ((fun o => match o with Some s => s_generation s | None => NO_SESSION end) <$> slots c) ++ [BLOCKED_SESSION].

Definition policy_mapping c : list (str * RouteId) :=
  slot_apps 0 (slots c)
  ++ ((fun app => (app, BLOCKED)) <$> blocked_apps c)
  ++ concat ((fun m => (fun app => (app, BLOCKED)) <$> m_apps m)
               <$> filter (fun m => Some (m_exit_id m) <> ctl_main_exit c) (main_apps c)).

(** The states of the routes, from [index] on. *)
Fixpoint set_states (t : T) (index : nat) (states : list RouteState) : T :=
  match states with
  | [] => t
  | state :: states => set_states (table_set_route_state t (route_id index) state) (Datatypes.S index) states
  end.

Definition ctl_set_policy c (clock : Z) : comp Empty_set (RouteController T S Hd) :=
  let key := (policy_mapping c, policy_sessions c) in
  if bool_decide (mapping c = Some key) then Ok (with_table (set_states (table c) 0 (policy_routes c)) c) else
  match (policy ← policy_new (ctl_main c) (policy_mapping c) (policy_routes c); with_sessions policy (policy_sessions c)) with
  | Ok policy =>
      t ← table_set_policy (table c) policy clock;
      Ok (with_mapping (Some key) (with_table t c))
  | Err _ => Ok c
  | Panic => Panic
  end.

Definition ctl_write_resets c : RouteController T S Hd :=
  let '(t, resets) := table_take_resets (table c) in log (FxReset <$> resets) (with_table t c).

Definition start c (index : nat) : RouteController T S Hd :=
  let id := route_id index in
  let '(t, queue) := table_open_route (table c) id in
  let c := with_table t c in
  match slots c !! index with
  | Some (Some slot) =>
      let '(s, handle) := start_session (route_sessions c) (s_circuit slot) (id, queue) (index, s_generation slot) in
      let slot := mkSlot (s_circuit slot) (s_apps slot) (s_state slot) (s_addresses slot) (s_generation slot) (Some handle) in
      let c := with_slots (<[index := Some slot]> (slots c)) (with_sessions_ s c) in
      log [FxStart index (s_circuit slot)]
        (with_table (table_set_route_state (table c) id (slot_route_state slot)) c)
  | _ => c
  end.

(** The slots from [index] on whose session is not started, started. *)
Fixpoint start_all (indices : list nat) c : RouteController T S Hd :=
  match indices with
  | [] => c
  | index :: indices =>
      start_all indices
        (match slots c !! index with
         | Some (Some slot) => if bool_decide (s_session slot = None) then start c index else c
         | _ => c
         end)
  end.

Definition report c : RouteController T S Hd :=
  let reports :=
    ((fun s => mkRouteReport (identity s).2 (s_state s)) <$> occupied (slots c))
    ++ ((fun id => mkRouteReport id SWaiting) <$> waiting c) in
  if bool_decide (reported c = Some reports) then c else
  let c := with_reported (Some reports) c in
  if observed c then log [FxReport reports] c else c.

(** The slots whose route is not [kept], from [index] on: taken, their routes closed. *)
Fixpoint close_slots (kept : Slot Hd -> bool) (index : nat) (l : list (option (Slot Hd))) (t : T)
    : list (option (Slot Hd)) * T * list Hd :=
  match l with
  | [] => ([], t, [])
  | Some s :: l =>
      if kept s then
        let '(l, t, stopping) := close_slots kept (Datatypes.S index) l t in (Some s :: l, t, stopping)
      else
        let t := table_close_route t (route_id index) in
        let '(l, t, stopping) := close_slots kept (Datatypes.S index) l t in
        (None :: l, t, match s_session s with Some h => h :: stopping | None => stopping end)
  | None :: l => let '(l, t, stopping) := close_slots kept (Datatypes.S index) l t in (None :: l, t, stopping)
  end.

(** Takes and stops the slots that are not [kept], and waits for the sessions to be gone. *)
Definition stop_slots (kept : Slot Hd -> bool) c : RouteController T S Hd :=
  let '(l, t, stopping) := close_slots kept 0 (slots c) (table c) in
  log (FxStop <$> stopping) (with_slots l (with_table t c)).

Definition name_relays c : RouteController T S Hd :=
  let relays := (fun s => relay (s_circuit s)) <$> occupied (slots c) in
  if bool_decide (relays = named c) then c else with_named relays (log [FxNameRelays relays] c).

Definition apply c (p : AppRoutesPlan) (clock : Z) : comp Empty_set (RouteController T S Hd) :=
  let c := with_plan p c in
  let served := (fun r => circuit_identity (circuit r)) <$> (partition c p).1 in
  let c := stop_slots (fun s => bool_decide (identity s ∈ served)) c in
  let c := reserve c p in
  c ← ctl_set_policy c clock;
  let c := ctl_write_resets c in
  let c := name_relays c in
  let c := start_all (seq 0 (length (slots c))) c in
  Ok (report c).

Definition seed c (p : AppRoutesPlan) (main_exit : option bytes) (clock : Z) : comp Empty_set (RouteController T S Hd) :=
  ctl_set_policy (reserve (with_main_exit main_exit c) p) clock.

Definition set_capacity c (n : Z) (clock : Z) : comp Empty_set (RouteController T S Hd) :=
  let n := Z.min n MAX_ROUTE_SESSIONS in
  if n =? capacity c then Ok c else
  let c := with_capacity_ n c in apply c (ctl_plan c) clock.

Definition stop_all c : RouteController T S Hd := stop_slots (fun _ => false) c.

(** [Drop]: the sessions end with their handles. *)
Definition ctl_drop c : RouteController T S Hd := stop_slots (fun _ => false) c.

Definition handle_event c (tagged : Tagged) : RouteController T S Hd :=
  match slots c !! tg_slot tagged with
  | Some (Some slot) =>
      if negb (s_generation slot =? tg_generation tagged) then c else
      let '(state, addresses) :=
        match tg_event tagged with
        | EvConnecting => (SConnecting, None)
        | EvConnected addresses => (SConnected, Some addresses)
        | EvUnavailable reason => (SUnavailable reason, None)
        | EvWaiting => (SWaiting, None)
        end in
      let slot := mkSlot (s_circuit slot) (s_apps slot) state addresses (s_generation slot) (s_session slot) in
      let c := with_slots (<[tg_slot tagged := Some slot]> (slots c)) c in
      report (with_table (table_set_route_state (table c) (route_id (tg_slot tagged)) (slot_route_state slot)) c)
  | _ => c
  end.

(** ** [run]: its start, and one turn of its loop per branch taken *)

Definition run_start c (p : AppRoutesPlan) (main_exit : option bytes) (anchor : option AnchorState) (clock : Z)
    : comp Empty_set (RouteController T S Hd) :=
  let c := with_main_exit main_exit c in
  let c := match anchor with Some state => with_capacity_ (route_capacity (Some state)) c | None => c end in
  apply c p clock.

Inductive Branch : Type :=
| BrAnchor (state : AnchorState)
| BrPlan (p : AppRoutesPlan)
| BrMainExit (main_exit : option bytes)
| BrEvent (tagged : Tagged).

Definition run_turn c (branch : Branch) (clock : Z) : comp Empty_set (RouteController T S Hd) :=
  match branch with
  | BrAnchor (Anchored n) => set_capacity c (route_capacity (Some (Anchored n))) clock
  | BrAnchor (Unanchored | AnchorUnavailable) => Ok c
  | BrPlan p => apply c p clock
  | BrMainExit main_exit =>
      c ← ctl_set_policy (with_main_exit main_exit c) clock;
      Ok (ctl_write_resets c)
  | BrEvent tagged => Ok (handle_event c tagged)
  end.

(** The whole run: the turns in the order the branches were ready, then every session stopped. *)
Fixpoint run_loop c (turns : list (Branch * Z)) : comp Empty_set (RouteController T S Hd) :=
  match turns with
  | [] => Ok (stop_all c)
  | (branch, clock) :: turns => c ← run_turn c branch clock; run_loop c turns
  end.
End Controller.
