(* ===== verification/ControllerInv.v ===== *)
(** * The controller's invariant

    What every state of a controller satisfies (its slots, its sessions and the
    policy its table holds), and that each of its operations keeps it. *)

From S2P Require Import Prelude AppKey Router RouterInv Routes Controller.
Open Scope Z_scope.

(** ** Slots *)

#[local] Arguments occupied {_ _} _ : simpl never.

Section Slots.
Context `{!Descriptors} {Hd : Type}.
Implicit Types (s : Slot Hd) (l : list (option (Slot Hd))).

Definition ids_of l : list (bytes * bytes) := identity <$> occupied l.

Definition ids_unique l : Prop :=
  forall i j s s', l !! i = Some (Some s) -> l !! j = Some (Some s') -> identity s = identity s' -> i = j.

Lemma elem_of_occupied s l : s ∈ occupied l <-> exists i, l !! i = Some (Some s).
Proof.
  unfold occupied. rewrite list_elem_of_omap. split.
  - intros (o & [i Hi]%list_elem_of_lookup & ->). by exists i.
  - intros [i Hi]. exists (Some s). split; [|done]. by eapply list_elem_of_lookup_2.
Qed.

Lemma elem_of_ids id l : id ∈ ids_of l <-> exists i s, l !! i = Some (Some s) /\ identity s = id.
Proof.
  unfold ids_of. rewrite list_elem_of_fmap. setoid_rewrite elem_of_occupied. naive_solver.
Qed.

Lemma holds_spec l id : holds l id = true <-> id ∈ ids_of l.
Proof.
  unfold holds. rewrite existsb_exists, elem_of_ids. split.
  - intros ([s|] & Hin & Hb); [|done]. apply bool_decide_eq_true in Hb.
    apply list_elem_of_In, list_elem_of_lookup in Hin as [i Hi]. by exists i, s.
  - intros (i & s & Hi & <-). exists (Some s). split; [|by apply bool_decide_eq_true].
    apply list_elem_of_In. by eapply list_elem_of_lookup_2.
Qed.

Lemma holds_false l id : holds l id = false <-> id ∉ ids_of l.
Proof. rewrite <- holds_spec. destruct (holds l id); split; congruence. Qed.

Lemma ids_NoDup l : ids_unique l -> NoDup (ids_of l).
Proof.
  unfold ids_of, occupied. induction l as [|[s|] l IH]; intros Hu; simpl; [constructor| |].
  - constructor.
    + intros Hin. apply elem_of_ids in Hin as (i & s' & Hi & He).
      specialize (Hu 0%nat (Datatypes.S i) s s' eq_refl Hi (eq_sym He)). done.
    + apply IH. intros i j s1 s2 H1 H2 He. specialize (Hu (Datatypes.S i) (Datatypes.S j) s1 s2 H1 H2 He). lia.
  - apply IH. intros i j s1 s2 H1 H2 He. specialize (Hu (Datatypes.S i) (Datatypes.S j) s1 s2 H1 H2 He). lia.
Qed.

Lemma occupied_cons o l : occupied (o :: l) = match o with Some s => s :: occupied l | None => occupied l end.
Proof. by destruct o. Qed.

Lemma length_occupied l : (length (occupied l) <= length l)%nat.
Proof. induction l as [|[s|] l IH]; rewrite ?occupied_cons; simpl; lia. Qed.

Lemma occupied_insert l i o s :
  l !! i = Some o ->
  length (occupied (<[i := Some s]> l)) = (length (occupied l) + match o with None => 1 | Some _ => 0 end)%nat.
Proof.
  revert i. induction l as [|x l IH]; intros [|i] Hi; try done.
  - injection Hi as ->. cbn [insert list_insert]. rewrite !occupied_cons. destruct o; simpl; lia.
  - specialize (IH i Hi). change (<[Datatypes.S i := Some s]> (x :: l)) with (x :: <[i := Some s]> l).
    rewrite !occupied_cons. destruct x; simpl; lia.
Qed.

(** A slot's own business is kept when only its apps change. *)
Definition same_session s s' : Prop :=
  s_circuit s' = s_circuit s /\ s_state s' = s_state s /\ s_addresses s' = s_addresses s /\
  s_generation s' = s_generation s /\ s_session s' = s_session s.

Lemma give_apps_Some id apps l l' :
  give_apps id apps l = Some l' ->
  exists i s s', l !! i = Some (Some s) /\ identity s = id /\ same_session s s' /\ s_apps s' = apps /\
    l' = <[i := Some s']> l.
Proof.
  revert l'. induction l as [|[s|] l IH]; intros l'; simpl; [done| |].
  - case_bool_decide as He.
    + intros [= <-]. eexists 0%nat, s, _. split; [done|]. split; [done|]. split; [|split; [|reflexivity]]; done.
    + destruct (give_apps id apps l) as [l1|]; simpl; [|done]. intros [= <-].
      destruct (IH l1 eq_refl) as (i & s1 & s2 & Hi & Hid & Hs & Ha & ->). by exists (Datatypes.S i), s1, s2.
  - destruct (give_apps id apps l) as [l1|]; simpl; [|done]. intros [= <-].
    destruct (IH l1 eq_refl) as (i & s1 & s2 & Hi & Hid & Hs & Ha & ->). by exists (Datatypes.S i), s1, s2.
Qed.

Lemma give_apps_None id apps l : give_apps id apps l = None -> id ∉ ids_of l.
Proof.
  rewrite elem_of_ids. induction l as [|[s|] l IH]; simpl.
  - by intros _ (i & s & [=] & _).
  - case_bool_decide as He; [done|]. destruct (give_apps id apps l); simpl; [done|].
    intros _ ([|i] & s' & Hi & Hid); simpl in Hi; [congruence|]. apply IH; [done|]. by exists i, s'.
  - destruct (give_apps id apps l); simpl; [done|].
    intros _ ([|i] & s' & Hi & Hid); simpl in Hi; [congruence|]. apply IH; [done|]. by exists i, s'.
Qed.

Lemma fill_free_Some new l l' :
  fill_free new l = Some l' -> exists i, l !! i = Some None /\ l' = <[i := Some new]> l.
Proof.
  revert l'. induction l as [|[s|] l IH]; intros l'; simpl; [done| |intros [= <-]; by exists 0%nat].
  destruct (fill_free new l) as [l1|]; simpl; [|done]. intros [= <-].
  destruct (IH l1 eq_refl) as (i & Hi & ->). by exists (Datatypes.S i).
Qed.

Lemma fill_free_None new l : fill_free new l = None -> length (occupied l) = length l.
Proof.
  induction l as [|[s|] l IH]; simpl; [done| |done].
  destruct (fill_free new l); simpl; [done|]. intros _. by rewrite IH.
Qed.

(** *** Reserving *)

Definition rid (r : PlannedRoute) : bytes * bytes := circuit_identity (circuit r).

(** What reserving does to the slots: a slot keeps its session, and a free one may be taken for a
    session numbered from [g] on. *)
Definition grows (g g' : Z) (ids : list (bytes * bytes)) l l' : Prop :=
  length l' = length l /\ g <= g' /\
  (forall i s, l !! i = Some (Some s) -> exists s', l' !! i = Some (Some s') /\ same_session s s' /\
     (identity s ∉ ids -> s' = s)) /\
  (forall i s', l' !! i = Some (Some s') ->
     (exists s, l !! i = Some (Some s) /\ same_session s s') \/
     (l !! i = Some None /\ g <= s_generation s' < g' /\ identity s' ∈ ids /\
      s_session s' = None /\ s_state s' = SConnecting /\ s_addresses s' = None)) /\
  (forall i j s s', l !! i = Some None -> l' !! i = Some (Some s) -> l !! j = Some None -> l' !! j = Some (Some s') ->
     s_generation s = s_generation s' -> i = j).

Lemma same_session_refl s : same_session s s.
Proof. done. Qed.

Lemma same_session_trans s1 s2 s3 : same_session s1 s2 -> same_session s2 s3 -> same_session s1 s3.
Proof. unfold same_session. intros (?&?&?&?&?) (?&?&?&?&?). split_and!; congruence. Qed.

Lemma same_session_identity s s' : same_session s s' -> identity s' = identity s.
Proof. unfold identity. by intros (-> & _). Qed.

Lemma grows_refl g l : grows g g [] l l.
Proof.
  split_and!; try done.
  - intros i s Hi. by exists s.
  - intros i s Hi. left. by exists s.
  - intros i j s s' Hi Hi'. congruence.
Qed.

Lemma grows_trans g1 g2 g3 ids1 ids2 l1 l2 l3 :
  grows g1 g2 ids1 l1 l2 -> grows g2 g3 ids2 l2 l3 -> grows g1 g3 (ids1 ++ ids2) l1 l3.
Proof.
  intros (Hl1 & Hg1 & Hk1 & Hb1 & Hu1) (Hl2 & Hg2 & Hk2 & Hb2 & Hu2).
  assert (forall i s, l1 !! i = Some None -> l3 !! i = Some (Some s) ->
    (exists s2, l2 !! i = Some (Some s2) /\ same_session s2 s /\ g1 <= s_generation s < g2) \/
    (l2 !! i = Some None /\ g2 <= s_generation s < g3)) as Hfrom.
  { intros i s Hi Hs. destruct (Hb2 _ _ Hs) as [(s2 & H2 & Hss)|(H2 & Hg & _)]; [left|by right].
    exists s2. split; [done|]. split; [done|]. destruct (Hb1 _ _ H2) as [(s1 & H1 & _)|(_ & Hg & _)]; [congruence|].
    destruct Hss as (_ & _ & _ & -> & _). lia. }
  split_and!; [congruence|lia| | |].
  - intros i s Hi. destruct (Hk1 _ _ Hi) as (s2 & H2 & Hss & Hn1). destruct (Hk2 _ _ H2) as (s3 & H3 & Hss' & Hn2).
    exists s3. split; [done|]. split; [by eapply same_session_trans|].
    rewrite not_elem_of_app. intros [Hx Hy]. rewrite (Hn1 Hx) in *. auto.
  - intros i s3 H3. destruct (Hb2 _ _ H3) as [(s2 & H2 & Hss)|(H2 & Hg & Hid & Hrest)].
    + destruct (Hb1 _ _ H2) as [(s1 & H1 & Hss')|(H1 & Hg & Hid & Hse & Hst & Had)].
      * left. exists s1. split; [done|]. by eapply same_session_trans.
      * right. rewrite (same_session_identity _ _ Hss). destruct Hss as (_ & -> & -> & -> & ->).
        split_and!; try done; try lia. apply elem_of_app. by left.
    + right. split_and!; try lia; try apply Hrest; [|apply elem_of_app; by right].
      destruct (l1 !! i) as [[s1|]|] eqn:H1; [|done|].
      * destruct (Hk1 _ _ H1) as (s2 & H2' & _). congruence.
      * apply lookup_ge_None in H1. apply lookup_lt_Some in H2. lia.
  - intros i j s s' Hi Hs Hj Hs' He.
    destruct (Hfrom _ _ Hi Hs) as [(s2 & H2 & Hss & Hg)|[H2 Hg]], (Hfrom _ _ Hj Hs') as [(s2' & H2' & Hss' & Hg')|[H2' Hg']];
      try lia; [|by eapply Hu2].
    apply (Hu1 i j s2 s2'); try done. destruct Hss as (_ & _ & _ & <- & _), Hss' as (_ & _ & _ & <- & _). done.
Qed.

Lemma ids_of_insert_same l i s s1 :
  l !! i = Some (Some s) -> identity s1 = identity s -> ids_of (<[i := Some s1]> l) = ids_of l.
Proof.
  intros Hi He. unfold ids_of. revert i Hi. induction l as [|x l IH]; intros [|i] Hi; try done.
  - injection Hi as ->. cbn [insert list_insert]. rewrite !occupied_cons. simpl. by rewrite He.
  - specialize (IH i Hi). change (<[Datatypes.S i := Some s1]> (x :: l)) with (x :: <[i := Some s1]> l).
    rewrite !occupied_cons. destruct x; rewrite ?fmap_cons; by rewrite IH.
Qed.

Lemma grows_give g l i s s1 :
  l !! i = Some (Some s) -> same_session s s1 -> grows g g [identity s] l (<[i := Some s1]> l).
Proof.
  intros Hi Hs. split_and!; [apply length_insert|lia| | |].
  - intros j s' Hj. destruct (decide (i = j)) as [<-|Hn].
    + exists s1. rewrite list_lookup_insert_eq by (by eapply lookup_lt_Some). assert (s' = s) as -> by congruence.
      split; [done|]. split; [done|]. intros Hin. destruct Hin. by left.
    + exists s'. by rewrite list_lookup_insert_ne.
  - intros j s' [(-> & [= ->] & _)|[Hn Hj]]%list_lookup_insert_Some; left; [by exists s|by exists s'].
  - intros j j' s2 s2' Hj [(-> & [= ->] & _)|[Hn Hj2]]%list_lookup_insert_Some; congruence.
Qed.

Lemma grows_fill g l i new :
  l !! i = Some None -> s_generation new = g -> s_session new = None -> s_state new = SConnecting ->
  s_addresses new = None -> grows g (g + 1) [identity new] l (<[i := Some new]> l).
Proof.
  intros Hi Hg Hs Hst Ha. split_and!; [apply length_insert|lia| | |].
  - intros j s' Hj. exists s'. rewrite list_lookup_insert_ne by congruence. done.
  - intros j s' [(-> & [= ->] & _)|[Hn Hj]]%list_lookup_insert_Some; [right|left; by exists s'].
    split_and!; try done; [lia|lia|by left].
  - intros j j' s2 s2' Hj [(-> & [= ->] & _)|[Hn Hj2]]%list_lookup_insert_Some Hj'
      [(<- & [= ->] & _)|[Hn' Hj2']]%list_lookup_insert_Some; congruence.
Qed.

Lemma ids_of_insert_new l i new x :
  l !! i = Some None -> x ∈ ids_of (<[i := Some new]> l) <-> x = identity new \/ x ∈ ids_of l.
Proof.
  intros Hi. rewrite !elem_of_ids. split.
  - intros (j & s & [(-> & [= ->] & _)|[Hn Hj]]%list_lookup_insert_Some & <-); [by left|right; by eauto].
  - intros [->|(j & s & Hj & <-)].
    + exists i, new. by rewrite list_lookup_insert_eq by (by eapply lookup_lt_Some).
    + exists j, s. by rewrite list_lookup_insert_ne by congruence.
Qed.

Lemma ids_unique_give l i s s1 :
  ids_unique l -> l !! i = Some (Some s) -> identity s1 = identity s -> ids_unique (<[i := Some s1]> l).
Proof.
  intros Hu Hi He j j' s2 s2' [(<- & [= <-] & _)|[Hn Hj]]%list_lookup_insert_Some
    [(<- & [= <-] & _)|[Hn' Hj']]%list_lookup_insert_Some; [done| | |by apply Hu]; rewrite He; intros Hs; by eapply Hu.
Qed.

Lemma ids_unique_fill l i new :
  ids_unique l -> identity new ∉ ids_of l -> ids_unique (<[i := Some new]> l).
Proof.
  rewrite elem_of_ids. intros Hu Hnew j j' s2 s2' [(<- & [= <-] & _)|[Hn Hj]]%list_lookup_insert_Some
    [(<- & [= <-] & _)|[Hn' Hj']]%list_lookup_insert_Some Hs; [done| | |by eapply Hu]; destruct Hnew; by eauto.
Qed.

(** Each served route gets a slot with its apps, as long as there is room for the new ones. *)
Lemma reserve_routes_spec served l g :
  ids_unique l -> NoDup (rid <$> served) ->
  (length (occupied l) + length (filter (fun r => rid r ∉ ids_of l) served) <= length l)%nat ->
  let '(l', g') := reserve_routes served l g in
  grows g g' (rid <$> served) l l' /\ ids_unique l' /\
  length (occupied l') = (length (occupied l) + length (filter (fun r => rid r ∉ ids_of l) served))%nat /\
  Forall (fun r => exists i s, l' !! i = Some (Some s) /\ identity s = rid r /\ s_apps s = r_apps r) served.
Proof.
  revert l g. induction served as [|r served IH]; intros l g Hu Hnd Hroom; cbn [reserve_routes].
  { split_and!; [apply grows_refl|done|simpl; lia|constructor]. }
  apply NoDup_cons in Hnd as [Hnew Hnd]. fold (rid r).
  assert (forall l1 g1 i s, grows g g1 [rid r] l l1 -> ids_unique l1 -> l1 !! i = Some (Some s) -> identity s = rid r ->
    s_apps s = r_apps r ->
    (length (occupied l1) + length (filter (fun r => rid r ∉ ids_of l1) served)
       = length (occupied l) + length (filter (fun r => rid r ∉ ids_of l) (r :: served)))%nat ->
    let '(l', g') := reserve_routes served l1 g1 in
    grows g g' (rid r :: (rid <$> served)) l l' /\ ids_unique l' /\
    length (occupied l') = (length (occupied l) + length (filter (fun r => rid r ∉ ids_of l) (r :: served)))%nat /\
    Forall (fun r => exists i s, l' !! i = Some (Some s) /\ identity s = rid r /\ s_apps s = r_apps r) (r :: served)) as Hstep.
  { intros l1 g1 i s Hgr Hu1 Hi Hid Ha Hcount. destruct Hgr as (Hlen & Hgr).
    specialize (IH l1 g1 Hu1 Hnd ltac:(lia)). destruct (reserve_routes served l1 g1) as [l' g'].
    destruct IH as (Hgr2 & Hu2 & Hocc & Hall). split_and!; [|done|lia|].
    - apply (grows_trans g g1 g' [rid r] (rid <$> served) l l1 l'); [by split|done].
    - constructor; [|done]. destruct Hgr2 as (_ & _ & Hk & _). destruct (Hk i s Hi) as (s' & Hs' & _ & Heq).
      exists i, s. rewrite <- (Heq ltac:(by rewrite Hid)). rewrite Hs', (Heq ltac:(by rewrite Hid)). done. }
  destruct (give_apps (rid r) (r_apps r) l) as [l1|] eqn:Hg.
  - apply give_apps_Some in Hg as (i & s & s1 & Hi & Hid & Hs & Ha & ->).
    pose proof (same_session_identity _ _ Hs) as Hid1.
    apply (Hstep _ g i s1); [rewrite <- Hid; by apply grows_give|by eapply ids_unique_give| |congruence|done|].
    + by rewrite list_lookup_insert_eq by (by eapply lookup_lt_Some).
    + rewrite (occupied_insert _ _ _ _ Hi), (ids_of_insert_same _ _ _ _ Hi Hid1).
      rewrite filter_cons_False; [lia|]. intros Hn. apply Hn, elem_of_ids. by eauto.
  - apply give_apps_None in Hg as Hnot. rewrite filter_cons_True in Hroom by done. simpl in Hroom.
    destruct (fill_free _ l) as [l1|] eqn:Hf; [|apply fill_free_None in Hf; lia].
    apply fill_free_Some in Hf as (i & Hi & ->). set (new := mkSlot _ _ _ _ _ _) in *.
    apply (Hstep _ (g + 1) i new); try done.
    + by apply (grows_fill g l i new).
    + by apply ids_unique_fill.
    + by rewrite list_lookup_insert_eq by (by eapply lookup_lt_Some).
    + rewrite (occupied_insert _ _ _ _ Hi), filter_cons_True by done. simpl.
      assert (filter (fun r => rid r ∉ ids_of (<[i := Some new]> l)) served = filter (fun r => rid r ∉ ids_of l) served) as ->; [|lia].
      clear -Hnew Hi. induction served as [|x served IHs]; [done|]. apply not_elem_of_cons in Hnew as [Hne Hnew].
      rewrite !filter_cons. rewrite IHs by done. pose proof (ids_of_insert_new l i new (rid x) Hi) as Hx.
      change (identity new) with (rid r) in Hx. repeat case_decide; try done; exfalso; rewrite Hx in *; naive_solver.
Qed.
End Slots.
