(* ===== verification/ControllerSpec.v ===== *)
(** * The controller's machine

    The invariant of a running controller, what each of its operations does to
    it, and what its states promise: the apps of the plan are on their routes
    or blocked, never on the main session; the sessions run on relays the
    firewall knows, keep running while the plan keeps them, and are all
    stopped in the end. *)

From S2P Require Import Prelude AppKey Router RouterInv RouterWorld Routes Controller ControllerInv.
Open Scope Z_scope.

(** ** A policy and its routes' states *)

(** The same apps on the same sessions, whatever the states of the routes. *)
Definition keeps `{!Platform} (p q : Policy) : Prop :=
  main q = main p /\ apps q = apps p /\ sessions q = sessions p /\ length (routes q) = length (routes p).

Lemma keeps_trans `{!Platform} p1 p2 p3 : keeps p1 p2 -> keeps p2 p3 -> keeps p1 p3.
Proof. unfold keeps. intros (?&?&?&?) (?&?&?&?). split_and!; congruence. Qed.

Lemma with_state_keeps `{!Platform} p route state : keeps p (policy_with_state p route state).
Proof. unfold keeps, policy_with_state. case_match; simpl; by rewrite ?length_insert. Qed.

Lemma with_state_routes p route state :
  0 <= route -> routes (policy_with_state p route state) = <[Z.to_nat route := state]> (routes p).
Proof.
  intros Hr. unfold policy_with_state, get. destruct (Z.leb_spec 0 route); [|lia].
  destruct (routes p !! Z.to_nat route) eqn:Hl; [done|]. apply lookup_ge_None in Hl. by rewrite list_insert_ge.
Qed.

Lemma route_id_small i : (i < 256)%nat -> route_id i = Z.of_nat i.
Proof. intros Hi. unfold route_id. destruct (Z.leb_spec (Z.of_nat i) 255); lia. Qed.

Lemma route_id_nonneg i : 0 <= route_id i.
Proof. unfold route_id. case_match; lia. Qed.

Section Table.
Context `{!Platform} {T : Type} `{!RouteTable T}.

Lemma set_states_spec states (t : T) i :
  table_ok t -> Forall state_wf states -> (i + length states <= 256)%nat ->
  table_ok (set_states t i states) /\ keeps (table_policy t) (table_policy (set_states t i states)) /\
  forall j, routes (table_policy (set_states t i states)) !! j =
    if decide (i <= j < i + length states /\ j < length (routes (table_policy t)))%nat
    then states !! (j - i)%nat else routes (table_policy t) !! j.
Proof.
  revert t i. induction states as [|s states IH]; intros t i Ht Hs Hi; simpl in *.
  { split; [done|]. split; [done|]. intros j. by rewrite decide_False by lia. }
  apply Forall_cons in Hs as [Hs Hss].
  destruct (table_set_route_state_spec t (route_id i) s Ht Hs (route_id_nonneg i)) as [Ht1 Hp1].
  destruct (IH _ (Datatypes.S i) Ht1 Hss ltac:(lia)) as (Ht2 & Hk & Hj). split; [done|].
  rewrite Hp1 in Hk, Hj. split; [eapply keeps_trans; [apply with_state_keeps|exact Hk]|].
  intros j. rewrite Hj. rewrite !with_state_routes by apply route_id_nonneg.
  rewrite route_id_small, Nat2Z.id, length_insert by lia.
  destruct (decide (i = j)) as [->|Hn].
  - rewrite decide_False by lia. destruct (decide (j < length (routes (table_policy t)))%nat) as [Hl|Hl].
    + rewrite list_lookup_insert_eq by done. rewrite decide_True by lia. by rewrite Nat.sub_diag.
    + rewrite decide_False by lia. rewrite list_insert_ge by lia. done.
  - rewrite list_lookup_insert_ne by done. destruct (decide (i <= j < i + Datatypes.S (length states) /\ _)%nat).
    + rewrite decide_True by lia. by replace (j - i)%nat with (Datatypes.S (j - Datatypes.S i)) by lia.
    + rewrite decide_False by lia. done.
Qed.

Lemma set_states_all states (t : T) :
  table_ok t -> Forall state_wf states -> length states = 256%nat -> length (routes (table_policy t)) = 256%nat ->
  table_ok (set_states t 0 states) /\ keeps (table_policy t) (table_policy (set_states t 0 states)) /\
  routes (table_policy (set_states t 0 states)) = states.
Proof.
  intros Ht Hs Hl Hr. destruct (set_states_spec states t 0 Ht Hs ltac:(lia)) as (Ht' & Hk & Hj).
  split; [done|]. split; [done|]. apply list_eq. intros j. rewrite Hj. case_decide as Hd; [by rewrite Nat.sub_0_r|].
  rewrite !(proj2 (lookup_ge_None _ _)); [done|lia|lia].
Qed.
End Table.

(** ** The slots *)

#[local] Arguments occupied {_ _} _ : simpl never.

Section Books.
Context `{!Descriptors} {Hd : Type}.
Implicit Types (s : Slot Hd) (l : list (option (Slot Hd))).

(** What is on record about a slot, its session's handle apart, and what of it no event changes. *)
Definition book s := (s_circuit s, s_apps s, s_state s, s_addresses s, s_generation s).
Definition deed s := (s_circuit s, s_apps s, s_generation s).
Definition books {A : Type} (f : Slot Hd -> A) l : list (option A) := (fun o : option (Slot Hd) => f <$> o) <$> l.

Lemma books_lookup {A : Type} (f : Slot Hd -> A) l l' i s :
  books f l = books f l' -> l !! i = Some (Some s) -> exists s', l' !! i = Some (Some s') /\ f s' = f s.
Proof.
  intros Hb Hi. assert (books f l' !! i = Some (Some (f s))) as Hl.
  { rewrite <- Hb. unfold books. by rewrite list_lookup_fmap, Hi. }
  unfold books in Hl. rewrite list_lookup_fmap in Hl. destruct (l' !! i) as [[s'|]|]; try done.
  injection Hl as Hl. by exists s'.
Qed.

Lemma books_insert {A : Type} (f : Slot Hd -> A) l i s s' :
  l !! i = Some (Some s) -> f s' = f s -> books f (<[i := Some s']> l) = books f l.
Proof.
  intros Hi Hb. unfold books. rewrite list_fmap_insert. simpl. rewrite Hb.
  apply list_insert_id. by rewrite list_lookup_fmap, Hi.
Qed.

Lemma books_length {A : Type} (f : Slot Hd -> A) l l' : books f l = books f l' -> length l = length l'.
Proof. intros Hb%(f_equal length). unfold books in Hb. by rewrite !length_fmap in Hb. Qed.

(** The slots held, read through [f]. *)
Lemma books_occupied {A : Type} (f : Slot Hd -> A) l l' : books f l = books f l' -> f <$> occupied l = f <$> occupied l'.
Proof.
  revert l'. induction l as [|o l IH]; intros [|o' l'] Hb; try done.
  injection Hb as Ho Hb. specialize (IH l' Hb). rewrite !occupied_cons. destruct o, o'; try done.
  rewrite !fmap_cons, IH. by injection Ho as ->.
Qed.

(** A field of what is recorded is a function of the record. *)
Lemma books_fmap {A B : Type} (g : Slot Hd -> A) (f : Slot Hd -> B) (d : B) l l' :
  (forall s s', g s' = g s -> f s' = f s) -> books g l = books g l' ->
  (fun o => match o with Some s => f s | None => d end) <$> l = (fun o => match o with Some s => f s | None => d end) <$> l'.
Proof.
  intros Hf. revert l'. induction l as [|o l IH]; intros [|o' l'] Hb; try done.
  injection Hb as Ho Hb. rewrite !fmap_cons. f_equal; [|by apply IH].
  destruct o, o'; try done. apply Hf. by injection Ho.
Qed.

Lemma books_deed l l' : books book l = books book l' -> books deed l = books deed l'.
Proof.
  intros Hb. assert (forall k, books deed k = (fun o => match o with Some (c, a, _, _, g) => Some (c, a, g) | None => None end) <$> books book k) as Hk.
  { intros k. unfold books. rewrite <- list_fmap_compose. apply list_fmap_ext. intros i o _. by destruct o. }
  by rewrite !Hk, Hb.
Qed.

Lemma deeds_slot_apps l l' i : books deed l = books deed l' -> slot_apps i l = slot_apps i l'.
Proof.
  revert l' i. induction l as [|[s|] l IH]; intros [|[s'|] l'] i Hb; try done.
  - injection Hb as Hc Ha Hg Hb. simpl. by rewrite Ha, (IH l').
  - injection Hb as Hb. simpl. by apply IH.
Qed.

Lemma book_deed s s' : book s' = book s -> deed s' = deed s.
Proof. unfold book, deed. by intros [= -> -> _ _ ->]. Qed.

Lemma deed_identity s s' : deed s' = deed s -> identity s' = identity s.
Proof. unfold deed, identity. by intros [= -> _ _]. Qed.

Lemma deed_apps s s' : deed s' = deed s -> s_apps s' = s_apps s.
Proof. unfold deed. by intros [= _ -> _]. Qed.

Lemma deed_generation s s' : deed s' = deed s -> s_generation s' = s_generation s.
Proof. unfold deed. by intros [= _ _ ->]. Qed.

Lemma deed_circuit s s' : deed s' = deed s -> s_circuit s' = s_circuit s.
Proof. unfold deed. by intros [= -> _ _]. Qed.

Lemma book_route_state s s' : book s' = book s -> slot_route_state s' = slot_route_state s.
Proof. unfold book, slot_route_state. by intros [= _ _ -> -> _]. Qed.

(** Slots numbered below [g], no circuit and no number twice. *)
Record slots_wf l (g : Z) : Prop := {
  sw_len : length l = 255%nat;
  sw_ids : ids_unique l;
  sw_range : forall i s, l !! i = Some (Some s) -> 0 <= s_generation s < g;
  sw_unique : forall i j s s', l !! i = Some (Some s) -> l !! j = Some (Some s') -> s_generation s = s_generation s' -> i = j;
  sw_addresses : forall i s a, l !! i = Some (Some s) -> s_addresses s = Some a -> addresses_wf a
}.

(** The slots of [l'] have the deeds of [l], and addresses of their own. *)
Lemma slots_wf_deeds l l' g :
  books deed l' = books deed l -> (forall i s a, l' !! i = Some (Some s) -> s_addresses s = Some a -> addresses_wf a) ->
  slots_wf l g -> slots_wf l' g.
Proof.
  intros Hb Ha [Hlen Hid Hr Hu _].
  assert (forall i s', l' !! i = Some (Some s') -> exists s, l !! i = Some (Some s) /\ deed s = deed s') as Hl.
  { intros i s' Hi. by apply (books_lookup deed l' l). }
  split; [rewrite <- Hlen; by apply (books_length deed)| | | |done].
  - intros i j s s' (s1 & H1 & B1)%Hl (s2 & H2 & B2)%Hl He. eapply Hid; [exact H1|exact H2|].
    by rewrite (deed_identity _ _ B1), (deed_identity _ _ B2).
  - intros i s (s1 & H1 & B1)%Hl. rewrite <- (deed_generation _ _ B1). by eapply Hr.
  - intros i j s s' (s1 & H1 & B1)%Hl (s2 & H2 & B2)%Hl He. eapply Hu; [exact H1|exact H2|].
    by rewrite (deed_generation _ _ B1), (deed_generation _ _ B2).
Qed.

Lemma slots_wf_books l l' g : books book l' = books book l -> slots_wf l g -> slots_wf l' g.
Proof.
  intros Hb Hw. apply (slots_wf_deeds l); [by apply books_deed| |done].
  intros i s' a Hi Hs. destruct (books_lookup book l' l i s' Hb Hi) as (s & Hi' & Hbk).
  eapply (sw_addresses l g Hw); [exact Hi'|]. unfold book in Hbk. congruence.
Qed.

Lemma slots_wf_sub l l' g :
  length l' = length l -> (forall i s, l' !! i = Some (Some s) -> l !! i = Some (Some s)) -> slots_wf l g -> slots_wf l' g.
Proof. intros Hl Hs [Hlen Hid Hr Hu Ha]. split; [congruence| | | |]; eauto. intros i j s s'. eauto. Qed.

Lemma slots_wf_grows l l' g g' ids :
  grows g g' ids l l' -> ids_unique l' -> 0 <= g -> slots_wf l g -> slots_wf l' g'.
Proof.
  intros (Hl & Hg & _ & Hb & Hnew) Hid Hpos [Hlen _ Hr Hu Ha]. split; [congruence|done| | |].
  - intros i s' [(s & Hi & (_ & _ & _ & -> & _))|(_ & Hgen & _)]%Hb; [|lia]. specialize (Hr i s Hi). lia.
  - intros i j s1 s2 H1 H2 He.
    destruct (Hb _ _ H1) as [(x1 & Hx1 & Hs1)|(Hx1 & Hg1 & _)], (Hb _ _ H2) as [(x2 & Hx2 & Hs2)|(Hx2 & Hg2 & _)].
    + apply (Hu i j x1 x2 Hx1 Hx2). destruct Hs1 as (_ & _ & _ & <- & _), Hs2 as (_ & _ & _ & <- & _). done.
    + specialize (Hr i x1 Hx1). destruct Hs1 as (_ & _ & _ & Hs1 & _). lia.
    + specialize (Hr j x2 Hx2). destruct Hs2 as (_ & _ & _ & Hs2 & _). lia.
    + by apply (Hnew i j s1 s2).
  - intros i s a [(s0 & Hi & (_ & _ & Had & _))|(_ & _ & _ & _ & _ & Hn)]%Hb Hs; [|congruence].
    rewrite Had in Hs. by eapply Ha.
Qed.

Lemma slot_route_state_wf l g i s : slots_wf l g -> l !! i = Some (Some s) -> state_wf (slot_route_state s).
Proof.
  intros Hw Hi. unfold slot_route_state. destruct (s_state s), (s_addresses s) eqn:Ha; try done.
  by eapply (sw_addresses l g Hw).
Qed.

Lemma elem_of_slot_apps l n app r :
  (app, r) ∈ slot_apps n l <-> exists i s, l !! i = Some (Some s) /\ app ∈ s_apps s /\ r = route_id (n + i).
Proof.
  revert n. induction l as [|o l IH]; intros n; simpl.
  { split; [by intros ?%not_elem_of_nil|by intros (i & s & [=] & _)]. }
  assert ((exists i s, (o :: l) !! i = Some (Some s) /\ app ∈ s_apps s /\ r = route_id (n + i)) <->
    (exists s, o = Some s /\ app ∈ s_apps s /\ r = route_id n) \/
    (exists i s, l !! i = Some (Some s) /\ app ∈ s_apps s /\ r = route_id (Datatypes.S n + i))) as ->.
  { split.
    - intros ([|i] & s & Hi & Ha & Hr); simpl in Hi; [left|right].
      + exists s. rewrite Nat.add_0_r in Hr. naive_solver.
      + exists i, s. split; [done|]. split; [done|]. by rewrite Nat.add_succ_r in Hr.
    - intros [(s & -> & Ha & Hr)|(i & s & Hi & Ha & Hr)]; [exists 0%nat, s|exists (Datatypes.S i), s].
      + by rewrite Nat.add_0_r.
      + by rewrite Nat.add_succ_r. }
  destruct o as [s|]; [|rewrite IH; naive_solver].
  rewrite elem_of_app, IH, list_elem_of_fmap. split.
  - intros [(a & [= -> ->] & Ha)|Hr]; [left; eauto|by right].
  - intros [(s' & [= <-] & Ha & ->)|Hr]; [left; eauto|by right].
Qed.
End Books.

(** *** Closing *)

Definition closed `{!Descriptors} {Hd : Type} (kept : Slot Hd -> bool) (o : option (Slot Hd)) : option (Slot Hd) :=
  match o with Some s => if kept s then Some s else None | None => None end.

Section Closing.
Context `{!Platform} `{!Descriptors} {T Hd : Type} `{!RouteTable T}.
Implicit Types (s : Slot Hd) (l : list (option (Slot Hd))) (kept : Slot Hd -> bool).

Lemma close_slots_spec kept i l (t : T) :
  table_ok t -> (i + length l <= 255)%nat ->
  let '(l', t', stopping) := close_slots kept i l t in
  l' = closed kept <$> l /\ stopping = omap s_session (filter (fun s => kept s = false) (occupied l)) /\
  table_ok t' /\ keeps (table_policy t) (table_policy t') /\
  forall j, routes (table_policy t') !! j =
    (if bool_decide (i <= j)%nat
     then match l !! (j - i)%nat with
          | Some (Some s) => if kept s then routes (table_policy t) !! j
                             else (fun _ => Unavailable) <$> routes (table_policy t) !! j
          | _ => routes (table_policy t) !! j
          end
     else routes (table_policy t) !! j).
Proof.
  revert i t. induction l as [|o l IH]; intros i t Ht Hi; cbn [close_slots].
  { split; [done|]. split; [done|]. split; [done|]. split; [done|]. intros j. by destruct (bool_decide _). }
  simpl in Hi.
  assert (forall (x : option (Slot Hd)) t1 j, (forall j', routes (table_policy t1) !! j' =
      if bool_decide (j' = i) then routes (table_policy t1) !! j' else routes (table_policy t) !! j') ->
    (if bool_decide (Datatypes.S i <= j)%nat
     then match l !! (j - Datatypes.S i)%nat with
          | Some (Some s) => if kept s then routes (table_policy t1) !! j
                             else (fun _ => Unavailable) <$> routes (table_policy t1) !! j
          | _ => routes (table_policy t1) !! j
          end
     else routes (table_policy t1) !! j) =
    if bool_decide (j = i) then routes (table_policy t1) !! j else
    (if bool_decide (i <= j)%nat
     then match (x :: l) !! (j - i)%nat with
          | Some (Some s) => if kept s then routes (table_policy t) !! j
                             else (fun _ => Unavailable) <$> routes (table_policy t) !! j
          | _ => routes (table_policy t) !! j
          end
     else routes (table_policy t) !! j)) as Hshift.
  { intros x t1 j H1. rewrite (H1 j). destruct (decide (j = i)) as [->|Hn].
    - rewrite (bool_decide_eq_true_2 (i = i)), bool_decide_eq_false_2 by lia. done.
    - rewrite (bool_decide_eq_false_2 (j = i)) by done. destruct (decide (i <= j)%nat).
      + rewrite !bool_decide_eq_true_2 by lia.
        by replace (j - i)%nat with (Datatypes.S (j - Datatypes.S i)) by lia.
      + by rewrite !bool_decide_eq_false_2 by lia. }
  assert (forall t1 j, t1 = t -> routes (table_policy t1) !! j =
      if bool_decide (j = i) then routes (table_policy t1) !! j else routes (table_policy t) !! j) as Hsame.
  { intros t1 j ->. by destruct (bool_decide _). }
  destruct o as [s|]; [destruct (kept s) eqn:Hk|].
  - specialize (IH (Datatypes.S i) t Ht ltac:(lia)). destruct (close_slots kept _ l t) as [[l' t'] st].
    destruct IH as (-> & -> & Ht' & Hkeep & Hj). rewrite occupied_cons, filter_cons_False by congruence.
    rewrite fmap_cons. simpl. rewrite Hk. repeat (split; [done|]). intros j. rewrite Hj, (Hshift (Some s) t j (fun j => Hsame t j eq_refl)).
    destruct (decide (j = i)) as [->|Hn]; [|by rewrite (bool_decide_eq_false_2 (j = i))].
    rewrite !bool_decide_eq_true_2 by lia. by rewrite Nat.sub_diag; simpl; rewrite Hk.
  - destruct (table_close_route_spec t (route_id i) Ht (route_id_nonneg i)) as [Ht1 Hp1].
    specialize (IH (Datatypes.S i) _ Ht1 ltac:(lia)). destruct (close_slots kept _ l _) as [[l' t'] st].
    destruct IH as (-> & -> & Ht' & Hkeep & Hj). rewrite occupied_cons, filter_cons_True by done.
    rewrite fmap_cons. simpl. rewrite Hk. split; [done|]. split; [by destruct (s_session s)|]. split; [done|].
    rewrite Hp1 in Hkeep. split; [eapply keeps_trans; [apply with_state_keeps|exact Hkeep]|].
    assert (forall j, routes (table_policy (table_close_route t (route_id i))) !! j =
      if bool_decide (j = i) then (fun _ => Unavailable) <$> routes (table_policy t) !! j else routes (table_policy t) !! j) as Hr1.
    { intros j. rewrite Hp1, with_state_routes, route_id_small, Nat2Z.id by (try apply route_id_nonneg; lia).
      destruct (decide (j = i)) as [->|Hn].
      - rewrite bool_decide_eq_true_2 by done. destruct (routes (table_policy t) !! i) eqn:Hi'.
        + rewrite list_lookup_insert_eq by (by eapply lookup_lt_Some). done.
        + rewrite list_insert_ge by (by apply lookup_ge_None). by rewrite Hi'.
      - rewrite bool_decide_eq_false_2, list_lookup_insert_ne by done. done. }
    intros j. rewrite Hj, (Hshift (Some s)).
    2: { intros j'. rewrite Hr1. by destruct (bool_decide (j' = i)). }
    rewrite Hr1. destruct (decide (j = i)) as [->|Hn]; [|by rewrite (bool_decide_eq_false_2 (j = i))].
    rewrite !bool_decide_eq_true_2 by lia. by rewrite Nat.sub_diag; simpl; rewrite Hk.
  - specialize (IH (Datatypes.S i) t Ht ltac:(lia)). destruct (close_slots kept _ l t) as [[l' t'] st].
    destruct IH as (-> & -> & Ht' & Hkeep & Hj). rewrite occupied_cons. repeat (split; [done|]).
    intros j. rewrite Hj, (Hshift None t j (fun j => Hsame t j eq_refl)).
    destruct (decide (j = i)) as [->|Hn]; [|by rewrite (bool_decide_eq_false_2 (j = i))].
    rewrite !bool_decide_eq_true_2 by lia. by rewrite Nat.sub_diag.
Qed.
End Closing.

(** ** The controller *)

Section Machine.
Context `{!Platform} `{!Descriptors} {T S Hd : Type} `{!RouteTable T} `{!RouteSessions S Hd}.
Implicit Types c : RouteController T S Hd.

(** [p] gives each program the route of an app of [key] that reduces to it, and none to the others. *)
Definition says (p : Policy) (m : SessionAddresses) (key : PolicyKey) : Prop :=
  main p = m /\ sessions p = key.2 /\ length (routes p) = 256%nat /\
  forall path, match lookup_of (apps p) path with
               | Some r => exists app, (app, r) ∈ key.1 /\ reduces app path
               | None => Forall (fun ar => ~ reduces ar.1 path) key.1
               end.

Record ctl_wf c : Prop := {
  cw_slots : slots_wf (slots c) (next_generation c);
  cw_generation : 0 <= next_generation c;
  cw_capacity : 0 <= capacity c <= MAX_ROUTE_SESSIONS;
  cw_table : table_ok (table c);
  cw_main : addresses_wf (ctl_main c);
  cw_policy : forall key, mapping c = Some key -> says (table_policy (table c)) (ctl_main c) key
}.

(** The table holds the policy of the slots as they are. *)
Definition in_force c : Prop :=
  mapping c = Some (policy_mapping c, policy_sessions c) /\ routes (table_policy (table c)) = policy_routes c.

Lemma says_keeps p q m key : keeps p q -> says p m key -> says q m key.
Proof. unfold keeps, says. intros (-> & -> & -> & ->). done. Qed.

Lemma ctl_wf_table c t :
  ctl_wf c -> table_ok t -> keeps (table_policy (table c)) (table_policy t) -> ctl_wf (with_table t c).
Proof.
  intros [? ? ? ? ? Hp] Ht Hk. split; simpl; try done. intros key Hm. eapply says_keeps; [exact Hk|by apply Hp].
Qed.

Lemma policy_routes_length c : ctl_wf c -> length (policy_routes c) = 256%nat.
Proof. intros Hw. unfold policy_routes. by rewrite length_app, length_fmap, (sw_len _ _ (cw_slots c Hw)). Qed.

Lemma policy_sessions_length c : ctl_wf c -> length (policy_sessions c) = 256%nat.
Proof. intros Hw. unfold policy_sessions. by rewrite length_app, length_fmap, (sw_len _ _ (cw_slots c Hw)). Qed.

Lemma policy_routes_wf c : ctl_wf c -> Forall state_wf (policy_routes c).
Proof.
  intros Hw. unfold policy_routes. apply Forall_app. split; [|by repeat constructor].
  rewrite Forall_fmap, Forall_forall. intros o [i Hi]%list_elem_of_lookup. destruct o as [s|]; simpl; [|done].
  by eapply slot_route_state_wf; [apply (cw_slots c Hw)|].
Qed.

(** The app [app] is on the route [r]. *)
Inductive placed c (app : str) (r : RouteId) : Prop :=
| placed_slot i s : slots c !! i = Some (Some s) -> app ∈ s_apps s -> r = Z.of_nat i -> placed c app r
| placed_blocked : app ∈ blocked_apps c -> r = BLOCKED -> placed c app r
| placed_main m : m ∈ main_apps c -> Some (m_exit_id m) <> ctl_main_exit c -> app ∈ m_apps m -> r = BLOCKED -> placed c app r.

Lemma elem_of_policy_mapping c app r : ctl_wf c -> (app, r) ∈ policy_mapping c <-> placed c app r.
Proof.
  intros Hw. unfold policy_mapping. rewrite !elem_of_app, elem_of_slot_apps. split.
  - intros [(i & s & Hi & Ha & ->)|[Hb|Hm]].
    + eapply placed_slot; [done|done|]. apply route_id_small. apply lookup_lt_Some in Hi.
      pose proof (sw_len _ _ (cw_slots c Hw)). lia.
    + apply list_elem_of_fmap in Hb as (a & [= -> ->] & Ha). by apply placed_blocked.
    + apply list_elem_of_In, in_concat in Hm as (l & Hl & Hin). apply list_elem_of_In in Hl, Hin.
      apply list_elem_of_fmap in Hl as (m & -> & [Hn Hm]%list_elem_of_filter).
      apply list_elem_of_fmap in Hin as (a & [= -> ->] & Ha). by eapply placed_main.
  - intros [i s Hi Ha ->|Ha ->|m Hm Hn Ha ->].
    + left. exists i, s. split; [done|]. split; [done|]. symmetry. apply route_id_small. apply lookup_lt_Some in Hi.
      pose proof (sw_len _ _ (cw_slots c Hw)). lia.
    + right. left. apply list_elem_of_fmap. by exists app.
    + right. right. apply list_elem_of_In, in_concat. exists ((fun app => (app, BLOCKED)) <$> m_apps m).
      split; apply list_elem_of_In; apply list_elem_of_fmap; [|by exists app].
      exists m. split; [done|]. by apply list_elem_of_filter.
Qed.

Lemma policy_mapping_range c : ctl_wf c -> Forall (fun ar => 0 <= ar.2 < zlen (policy_routes c)) (policy_mapping c).
Proof.
  intros Hw. apply Forall_forall. intros [app r] Hin%elem_of_policy_mapping; [|done].
  unfold zlen. rewrite policy_routes_length by done. simpl.
  destruct Hin as [i s Hi _ ->|_ ->|m _ _ _ ->]; unfold BLOCKED, MAX_ROUTE_SESSIONS; [|lia|lia].
  apply lookup_lt_Some in Hi. pose proof (sw_len _ _ (cw_slots c Hw)). lia.
Qed.

(** Setting the policy returns, and puts it in force. *)
Lemma ctl_set_policy_spec c clock :
  keys_total -> ctl_wf c ->
  exists t, ctl_set_policy c clock = Ok (with_mapping (Some (policy_mapping c, policy_sessions c)) (with_table t c)) /\
    let c' := with_mapping (Some (policy_mapping c, policy_sessions c)) (with_table t c) in ctl_wf c' /\ in_force c'.
Proof.
  intros Hk Hw. unfold ctl_set_policy. destruct (bool_decide_reflect (mapping c = Some (policy_mapping c, policy_sessions c))) as [Hm|Hm].
  - exists (set_states (table c) 0 (policy_routes c)).
    pose proof (cw_policy c Hw _ Hm) as Hs.
    destruct (set_states_all (policy_routes c) (table c) (cw_table c Hw) (policy_routes_wf c Hw)
      (policy_routes_length c Hw) ltac:(apply Hs)) as (Ht & Hkeep & Hr).
    split; [rewrite <- Hm; by destruct c|]. split; [|by split].
    pose proof (ctl_wf_table c _ Hw Ht Hkeep) as [? ? ? ? ? Hp]. split; simpl; try done.
    intros key [= <-]. by apply Hp.
  - destruct (policy_named (ctl_main c) (policy_mapping c) (policy_routes c) (policy_sessions c) Hk (cw_main c Hw)
      (policy_routes_wf c Hw) (policy_mapping_range c Hw)) as (p & Hp & Hpw & Hmain & Hroutes & Hsess & Hlook).
    { unfold zlen. by rewrite policy_sessions_length, policy_routes_length. }
    rewrite Hp. destruct (table_set_policy_spec (table c) p clock (cw_table c Hw) Hpw) as (t & Ht & Hok & Htp).
    exists t. rewrite Ht, bind_Ok. split; [done|]. pose proof (policy_routes_length c Hw) as Hlen.
    destruct Hw as [? ? ? ? ? _]. split.
    + split; simpl; try done. intros key [= <-]. rewrite Htp. split; [done|]. split; [done|].
      split; [|done]. by rewrite Hroutes.
    + split; [done|]. simpl. by rewrite Htp, Hroutes.
Qed.

(** *** Sharing the capacity out *)

Definition live c (p : AppRoutesPlan) : list PlannedRoute := filter (fun r => rid r ∈ ids_of (slots c)) (p_routes p).
Definition fresh c (p : AppRoutesPlan) : list PlannedRoute := filter (fun r => rid r ∉ ids_of (slots c)) (p_routes p).

Lemma partition_eq c p :
  let n := Z.to_nat (Z.min (zlen (p_routes p)) (capacity c)) in
  live c p ++ fresh c p ≡ₚ p_routes p /\
  partition c p = (take n (live c p ++ fresh c p), drop n (live c p ++ fresh c p)).
Proof.
  assert (filter (fun r => holds (slots c) (circuit_identity (circuit r)) = true) (p_routes p) = live c p) as Hl.
  { apply list_filter_iff. intros r. apply holds_spec. }
  assert (filter (fun r => holds (slots c) (circuit_identity (circuit r)) = false) (p_routes p) = fresh c p) as Hf.
  { apply list_filter_iff. intros r. apply holds_false. }
  assert (live c p ++ fresh c p ≡ₚ p_routes p) as Hp.
  { unfold live, fresh. clear Hl Hf. induction (p_routes p) as [|r l IH]; [done|].
    rewrite !filter_cons. destruct (decide (rid r ∈ ids_of (slots c))) as [Hi|Hi].
    - rewrite (decide_False (P := ~ _)) by (by intros ?). simpl. by rewrite IH.
    - rewrite (decide_True (P := ~ _)) by done. by rewrite <- Permutation_middle, IH. }
  split; [exact Hp|]. unfold partition. rewrite Hl, Hf. unfold zlen. by rewrite (Permutation_length Hp).
Qed.

Lemma partition_all c p : (partition c p).1 ++ (partition c p).2 ≡ₚ p_routes p.
Proof. destruct (partition_eq c p) as [Hp ->]. simpl. by rewrite take_drop. Qed.

Lemma partition_live c p :
  0 <= capacity c -> (length (live c p) <= Z.to_nat (capacity c))%nat -> live c p `prefix_of` (partition c p).1.
Proof.
  intros Hc Hl. destruct (partition_eq c p) as [Hp ->]. simpl.
  apply Permutation_length in Hp. rewrite length_app in Hp. unfold zlen.
  rewrite take_app_ge by lia. by eexists.
Qed.

Lemma rid_NoDup (l l' : list PlannedRoute) : l ≡ₚ l' -> NoDup (rid <$> l') -> NoDup (rid <$> l).
Proof. by intros ->. Qed.

Lemma filter_everything {A : Type} (P : A -> Prop) `{!forall x, Decision (P x)} (l : list A) :
  (forall i x, l !! i = Some x -> P x) -> filter P l = l.
Proof.
  induction l as [|x l IH]; intros Hl; [done|]. rewrite filter_cons_True by (by apply (Hl 0%nat)).
  f_equal. apply IH. intros i. apply (Hl (Datatypes.S i)).
Qed.

(** The slots held fit the plan: reserving finds room for every route served. *)
Definition fits c (p : AppRoutesPlan) : Prop :=
  (forall id, id ∈ ids_of (slots c) -> id ∈ rid <$> p_routes p) /\
  (length (occupied (slots c)) <= Z.to_nat (capacity c))%nat.

Lemma live_length c p :
  ctl_wf c -> NoDup (rid <$> p_routes p) -> fits c p -> length (live c p) = length (occupied (slots c)).
Proof.
  intros Hw Hnd [Hin Hocc]. rewrite <- (length_fmap rid), <- (length_fmap identity (occupied _)).
  apply Permutation_length, NoDup_Permutation.
  - destruct (partition_eq c p) as [Hp _]. pose proof (rid_NoDup _ _ Hp Hnd) as Hall.
    rewrite fmap_app in Hall. by apply NoDup_app in Hall as [? _].
  - apply ids_NoDup. apply (sw_ids _ _ (cw_slots c Hw)).
  - intros id. rewrite list_elem_of_fmap. setoid_rewrite list_elem_of_filter. split; [by intros (r & -> & ? & _)|].
    intros Hid. destruct (list_elem_of_fmap_1 _ _ _ (Hin id Hid)) as (r & -> & Hr). by exists r.
Qed.

Lemma served_room c p :
  ctl_wf c -> NoDup (rid <$> p_routes p) -> fits c p ->
  live c p `prefix_of` (partition c p).1 /\
  (length (occupied (slots c)) + length (filter (fun r => rid r ∉ ids_of (slots c)) (partition c p).1)
     = length (partition c p).1)%nat.
Proof.
  intros Hw Hnd Hf. pose proof (live_length c p Hw Hnd Hf) as Hl.
  pose proof (partition_live c p (proj1 (cw_capacity c Hw)) ltac:(rewrite Hl; apply Hf)) as [new Hnew].
  split; [by exists new|]. rewrite Hnew, filter_app, !length_app, Hl.
  assert (filter (fun r => rid r ∉ ids_of (slots c)) (live c p) = []) as ->.
  { unfold live. generalize (ids_of (slots c)) as ids. intros ids. clear Hnd. induction (p_routes p) as [|r l IH]; [done|].
    rewrite (filter_cons (fun r => rid r ∈ ids)). case_decide as Hi; [|exact IH].
    rewrite filter_cons_False; [exact IH|]. intros Hno. exact (Hno Hi). }
  assert (filter (fun r => rid r ∉ ids_of (slots c)) new = new) as ->; [|done].
  apply filter_everything. intros i r Hr. destruct (partition_eq c p) as [_ Hpart]. rewrite Hpart in Hnew. cbn [fst] in Hnew.
  assert ((live c p ++ fresh c p) !! (length (live c p) + i)%nat = Some r) as Hin.
  { assert ((live c p ++ new) !! (length (live c p) + i)%nat = Some r) as Hn by (by rewrite lookup_app_r, Nat.add_sub' by lia).
    rewrite <- Hnew in Hn. apply lookup_take_Some in Hn. apply Hn. }
  rewrite lookup_app_r, Nat.add_sub' in Hin by lia. apply list_elem_of_lookup_2, list_elem_of_filter in Hin. apply Hin.
Qed.

(** As many routes as the capacity allows. *)
Lemma partition_length c p :
  0 <= capacity c -> length (partition c p).1 = Nat.min (length (p_routes p)) (Z.to_nat (capacity c)).
Proof.
  intros Hc. destruct (partition_eq c p) as [Hp ->]. cbn [fst]. rewrite length_take, (Permutation_length Hp). unfold zlen. lia.
Qed.

(** *** Reserving for a plan *)

(** [c] gives the routes of [p] their slots, or blocks their apps while they wait. *)
Record assigned c (p : AppRoutesPlan) : Prop := {
  as_routes : forall r, r ∈ p_routes p ->
    (exists i s, slots c !! i = Some (Some s) /\ identity s = rid r /\ s_apps s = r_apps r) \/
    (r_apps r ⊆ blocked_apps c /\ (rid r).2 ∈ waiting c);
  as_slots : forall i s, slots c !! i = Some (Some s) ->
    exists r, r ∈ p_routes p /\ identity s = rid r /\ s_apps s = r_apps r;
  as_blocked : p_blocked_apps p ⊆ blocked_apps c;
  as_waiting : forall app, app ∈ blocked_apps c ->
    app ∈ p_blocked_apps p \/ exists r, r ∈ p_routes p /\ app ∈ r_apps r /\ rid r ∉ ids_of (slots c);
  as_main : main_apps c = p_main_apps p;
  as_room : length (occupied (slots c)) = Nat.min (length (p_routes p)) (Z.to_nat (capacity c))
}.

Lemma reserve_spec c p :
  ctl_wf c -> NoDup (rid <$> p_routes p) -> fits c p ->
  let c' := reserve c p in
  (ctl_wf c' /\ assigned c' p /\ live c p `prefix_of` (partition c p).1 /\
   grows (next_generation c) (next_generation c') (rid <$> (partition c p).1) (slots c) (slots c')) /\
  table c' = table c /\ trace c' = trace c /\ named c' = named c /\ capacity c' = capacity c /\
  ctl_plan c' = ctl_plan c /\ ctl_main_exit c' = ctl_main_exit c /\ observed c' = observed c /\ reported c' = reported c.
Proof.
  intros Hw Hnd Hf. destruct (served_room c p Hw Hnd Hf) as [Hlive Hroom].
  pose proof (partition_length c p (proj1 (cw_capacity c Hw))) as Hcap.
  pose proof (partition_all c p) as Hall. pose proof (rid_NoDup _ _ Hall Hnd) as Hnd2.
  unfold reserve. cbv zeta. destruct (partition c p) as [served over]. cbn [fst snd] in *.
  rewrite fmap_app in Hnd2. apply NoDup_app in Hnd2 as (Hns & Hdis & _).
  pose proof (reserve_routes_spec served (slots c) (next_generation c) (sw_ids _ _ (cw_slots c Hw)) Hns) as Hr.
  destruct (cw_capacity c Hw) as [Hc0 Hc]. unfold MAX_ROUTE_SESSIONS in Hc.
  pose proof (sw_len _ _ (cw_slots c Hw)) as Hlen. specialize (Hr ltac:(lia)).
  destruct (reserve_routes served (slots c) (next_generation c)) as [l g]. destruct Hr as (Hg & Hid & Hocc & Hserved).
  rewrite Forall_forall in Hserved.
  assert (forall i s, l !! i = Some (Some s) -> exists r, r ∈ served /\ identity s = rid r /\ s_apps s = r_apps r) as Hslots.
  { intros i s Hi. assert (identity s ∈ rid <$> served) as (r & Hs & Hr)%list_elem_of_fmap.
    - destruct Hg as (_ & _ & _ & Hb & _). destruct (Hb i s Hi) as [(s0 & Hi0 & Hs)|(_ & _ & ? & _)]; [|done].
      rewrite (same_session_identity _ _ Hs). destruct Hlive as [new ->]. rewrite fmap_app. apply elem_of_app. left.
      destruct (list_elem_of_fmap_1 rid _ _ (proj1 Hf (identity s0) ltac:(apply elem_of_ids; eauto))) as (r & Hr & Hin).
      apply list_elem_of_fmap. exists r. split; [done|]. apply list_elem_of_filter. split; [|done].
      rewrite <- Hr. apply elem_of_ids. eauto.
    - destruct (Hserved r Hr) as (j & s' & Hj & Hs' & Ha). exists r. split; [done|]. split; [done|].
      assert (i = j) as <- by (eapply (Hid i j s s'); congruence). congruence. }
  assert (forall r, r ∈ p_routes p <-> r ∈ served \/ r ∈ over) as Hin by (intros r; by rewrite <- Hall, elem_of_app).
  split; [|done]. split; [|split; [|done]].
  - destruct Hw. split; simpl; try done; [by eapply slots_wf_grows|]. destruct Hg as (_ & ? & _). lia.
  - split; simpl.
    + intros r [Hr|Hr]%Hin; [by left; apply Hserved|right]. split.
      * intros a Ha. apply elem_of_app. right. apply list_elem_of_In, in_concat. exists (r_apps r).
        split; apply list_elem_of_In; [|done]. apply list_elem_of_fmap. by exists r.
      * apply list_elem_of_fmap. by exists r.
    + intros i s Hi. destruct (Hslots i s Hi) as (r & Hr & ?). exists r. split; [|done]. apply Hin. by left.
    + intros a Ha. apply elem_of_app. by left.
    + intros a [Ha|Ha]%elem_of_app; [by left|right]. apply list_elem_of_In, in_concat in Ha as (apps & Hl & Ha).
      apply list_elem_of_In in Hl, Ha. apply list_elem_of_fmap in Hl as (r & -> & Hr). exists r.
      split; [apply Hin; by right|]. split; [done|]. intros (i & s & Hi & He)%elem_of_ids.
      destruct (Hslots i s Hi) as (r' & Hr' & He' & _). apply (Hdis (rid r)).
      * rewrite <- He, He'. apply list_elem_of_fmap. by exists r'.
      * apply list_elem_of_fmap. by exists r.
    + done.
    + lia.
Qed.

(** *** Starting sessions *)

(** The apps' mapping follows the deeds; the routes' states are then all the table must follow. *)
Lemma in_force_deeds c c' :
  books deed (slots c') = books deed (slots c) -> blocked_apps c' = blocked_apps c -> main_apps c' = main_apps c ->
  ctl_main_exit c' = ctl_main_exit c -> mapping c' = mapping c ->
  routes (table_policy (table c')) = policy_routes c' -> in_force c -> in_force c'.
Proof.
  unfold in_force, policy_mapping, policy_sessions. intros Hb -> -> -> -> -> [-> _].
  rewrite (deeds_slot_apps _ _ 0 Hb), (books_fmap deed s_generation NO_SESSION _ _ deed_generation Hb). done.
Qed.

Lemma policy_routes_books c c' : books book (slots c') = books book (slots c) -> policy_routes c' = policy_routes c.
Proof. unfold policy_routes. intros Hb. by rewrite (books_fmap book slot_route_state Unavailable _ _ book_route_state Hb). Qed.

Lemma assigned_deeds c c' p :
  books deed (slots c') = books deed (slots c) -> blocked_apps c' = blocked_apps c -> main_apps c' = main_apps c ->
  waiting c' = waiting c -> capacity c' = capacity c -> assigned c p -> assigned c' p.
Proof.
  intros Hb Hbl Hm Hw Hc [Hr Hs Hbk Hwt Hmain Hroom].
  assert (forall i s', slots c' !! i = Some (Some s') -> exists s, slots c !! i = Some (Some s) /\ deed s = deed s') as Hback.
  { intros i s' Hi. by apply (books_lookup deed (slots c')). }
  split; rewrite ?Hbl, ?Hm, ?Hw, ?Hc; try done.
  - intros r [(i & s & Hi & He & Ha)|Hblk]%Hr; [left|by right].
    destruct (books_lookup deed _ _ i s (eq_sym Hb) Hi) as (s' & Hs' & Hbk'). exists i, s'. split; [done|].
    by rewrite (deed_identity _ _ Hbk'), (deed_apps _ _ Hbk').
  - intros i s (s0 & Hi0 & Hb0)%Hback. destruct (Hs i s0 Hi0) as (r & Hin & He & Ha). exists r. split; [done|].
    by rewrite <- (deed_identity _ _ Hb0), <- (deed_apps _ _ Hb0).
  - intros a [Ha|(r & Hin & Ha & Hn)]%Hwt; [by left|right]. exists r. split; [done|]. split; [done|].
    rewrite elem_of_ids in *. intros (i & s & (s0 & Hi0 & Hb0)%Hback & He). apply Hn. exists i, s0.
    by rewrite <- (deed_identity _ _ Hb0) in He.
  - apply books_occupied, (f_equal length) in Hb. rewrite !length_fmap in Hb. by rewrite Hb, Hroom.
Qed.

(** [c'] is [c] with sessions started for some slots that had none. *)
Record started c c' : Prop := {
  st_books : books book (slots c') = books book (slots c);
  st_same : (ctl_main_exit c' = ctl_main_exit c /\ observed c' = observed c /\ capacity c' = capacity c /\
    ctl_plan c' = ctl_plan c /\ waiting c' = waiting c /\ blocked_apps c' = blocked_apps c /\ main_apps c' = main_apps c) /\
    next_generation c' = next_generation c /\ reported c' = reported c /\ named c' = named c /\ mapping c' = mapping c;
  st_policy : routes (table_policy (table c')) = routes (table_policy (table c));
  st_handles : forall i s, slots c !! i = Some (Some s) -> s_session s <> None -> slots c' !! i = Some (Some s);
  st_trace : exists starts, trace c' = trace c ++ starts /\
    Forall (fun fx => exists i s, fx = FxStart i (s_circuit s) /\ slots c !! i = Some (Some s) /\ s_session s = None) starts
}.

Lemma started_refl c : started c c.
Proof. split; try done. exists []. by rewrite app_nil_r. Qed.

Lemma started_trans c1 c2 c3 : started c1 c2 -> started c2 c3 -> started c1 c3.
Proof.
  intros [Hb Hs Hp Hh (l & Ht & Hl)] [Hb' Hs' Hp' Hh' (l' & Ht' & Hl')]. split; try congruence.
  - destruct Hs as ((?&?&?&?&?&?&?)&?&?&?&?), Hs' as ((?&?&?&?&?&?&?)&?&?&?&?). split_and!; congruence.
  - intros i s Hi Hse. apply Hh'; [by apply Hh|done].
  - exists (l ++ l'). split; [by rewrite Ht', Ht, (assoc_L (++))|]. apply Forall_app. split; [done|].
    eapply Forall_impl; [exact Hl'|]. intros fx (i & s & -> & Hi & Hn).
    destruct (books_lookup book (slots c2) (slots c1) i s Hb Hi) as (s1 & Hi1 & Hb1). exists i, s1.
    split; [|split; [done|]].
    + f_equal. unfold book in Hb1. congruence.
    + destruct (s_session s1) as [h|] eqn:He; [|done]. rewrite (Hh i s1 Hi1 ltac:(by rewrite He)) in Hi. congruence.
Qed.

Lemma start_spec c i s :
  ctl_wf c -> in_force c -> slots c !! i = Some (Some s) -> s_session s = None ->
  ctl_wf (start c i) /\ started c (start c i) /\
  exists h, slots (start c i) = <[i := Some (mkSlot (s_circuit s) (s_apps s) (s_state s) (s_addresses s) (s_generation s) (Some h))]> (slots c).
Proof.
  intros Hw [Hm Hr] Hi Hn. unfold start. destruct (table_open_route_spec (table c) (route_id i) (cw_table c Hw) (route_id_nonneg i)) as [Ht Hp].
  destruct (table_open_route (table c) (route_id i)) as [t queue]. cbn [fst] in *. cbn [slots with_table]. rewrite Hi.
  destruct (start_session _ _ _ _) as [rs h]. cbv zeta. set (s' := mkSlot _ _ _ _ _ (Some h)).
  assert (book s' = book s) as Hb by done.
  pose proof (slot_route_state_wf _ _ i s (cw_slots c Hw) Hi) as Hsw. rewrite <- (book_route_state _ _ Hb) in Hsw.
  cbn [table with_table with_slots with_sessions_].
  destruct (table_set_route_state_spec t (route_id i) (slot_route_state s') Ht Hsw (route_id_nonneg i)) as [Ht' Hp'].
  set (t' := table_set_route_state _ _ _) in *. rewrite Hp in Hp'.
  assert (routes (table_policy t') = routes (table_policy (table c))) as Hr'.
  { pose proof (lookup_lt_Some _ _ _ Hi) as Hlt. rewrite (sw_len _ _ (cw_slots c Hw)) in Hlt.
    rewrite Hp', with_state_routes, route_id_small, Nat2Z.id by (try apply route_id_nonneg; lia).
    apply list_insert_id. rewrite Hr. unfold policy_routes. rewrite lookup_app_l by (rewrite length_fmap; by eapply lookup_lt_Some).
    rewrite list_lookup_fmap, Hi. by rewrite (book_route_state _ _ Hb). }
  pose proof (books_insert book (slots c) i s s' Hi Hb) as Hbooks. split; [|split; [|by exists h]].
  - destruct Hw as [Hs ? ? ? ? Hpol]. split; simpl; try done; [by eapply slots_wf_books|].
    intros key Hkey. eapply says_keeps; [|by apply Hpol]. rewrite Hp'. apply with_state_keeps.
  - split; simpl; try done.
    + intros j sj Hj Hse. rewrite list_lookup_insert_ne; [done|]. intros <-. congruence.
    + eexists. split; [done|]. apply Forall_singleton. by exists i, s.
Qed.

Lemma started_running c c' : started c c' -> in_force c -> in_force c'.
Proof.
  intros [Hb ((? & ? & ? & ? & ? & ? & ?) & ? & ? & ? & ?) Hp _ _] Hf.
  apply (in_force_deeds c); try done; [by apply books_deed|]. rewrite Hp, (policy_routes_books _ _ Hb). apply Hf.
Qed.

Lemma start_all_spec indices c :
  ctl_wf c -> in_force c ->
  let c' := start_all indices c in
  ctl_wf c' /\ started c c' /\
  forall i s, i ∈ indices -> slots c' !! i = Some (Some s) -> s_session s <> None.
Proof.
  revert c. induction indices as [|i indices IH]; intros c Hw Hf; cbn [start_all].
  { split; [done|]. split; [apply started_refl|]. by intros i s ?%not_elem_of_nil. }
  match goal with |- context [start_all indices ?x] => set (c1 := x) end.
  assert (ctl_wf c1 /\ started c c1 /\ forall s, slots c1 !! i = Some (Some s) -> s_session s <> None) as (Hw1 & Hs1 & Hi1).
  { subst c1. destruct (slots c !! i) as [[s|]|] eqn:Hi; [case_bool_decide as Hn| |].
    - destruct (start_spec c i s Hw Hf Hi Hn) as (? & ? & h & Hsl). split; [done|]. split; [done|].
      rewrite Hsl, list_lookup_insert_eq by (by eapply lookup_lt_Some). by intros ? [= <-].
    - split; [done|]. split; [apply started_refl|]. intros s' Hs'. congruence.
    - split; [done|]. split; [apply started_refl|]. intros s' Hs'. congruence.
    - split; [done|]. split; [apply started_refl|]. intros s' Hs'. congruence. }
  destruct (IH c1 Hw1 (started_running _ _ Hs1 Hf)) as (Hw2 & Hs2 & Hall). split; [done|].
  split; [by eapply started_trans|]. intros j s Hj Hs. apply elem_of_cons in Hj as [->|Hj]; [|by eapply Hall].
  destruct (books_lookup book _ _ i s (st_books _ _ Hs2) Hs) as (s1 & Hs1' & _).
  pose proof (st_handles _ _ Hs2 i s1 Hs1' (Hi1 s1 Hs1')) as Hkeep. assert (s = s1) as -> by congruence. by apply Hi1.
Qed.

(** *** The steps of [apply] *)

Definition relays c : list RelayDescriptorSigned := (fun s => relay (s_circuit s)) <$> occupied (slots c).

Lemma stop_slots_spec kept c :
  ctl_wf c ->
  exists t, let stops := omap s_session (filter (fun s => kept s = false) (occupied (slots c))) in
    let c' := log (FxStop <$> stops) (with_slots (closed kept <$> slots c) (with_table t c)) in
    stop_slots kept c = c' /\ ctl_wf c' /\ keeps (table_policy (table c)) (table_policy t) /\
    (in_force c -> routes (table_policy t) = policy_routes c').
Proof.
  intros Hw. pose proof (sw_len _ _ (cw_slots c Hw)) as Hlen.
  pose proof (close_slots_spec kept 0 (slots c) (table c) (cw_table c Hw) ltac:(lia)) as Hc.
  unfold stop_slots. destruct (close_slots kept 0 (slots c) (table c)) as [[l t] stops].
  destruct Hc as (-> & -> & Ht & Hk & Hj). exists t. split; [done|]. split; [|split; [done|]].
  - destruct (ctl_wf_table c t Hw Ht Hk) as [Hs ? ? ? ? Hp]. split; simpl; try done.
    eapply slots_wf_sub; [| |exact Hs]; [by rewrite length_fmap|].
    intros i s. simpl. rewrite list_lookup_fmap. destruct (slots c !! i) as [[s0|]|]; simpl; try done.
    by destruct (kept s0).
  - intros [_ Hr]. apply list_eq. intros j. rewrite Hj, bool_decide_eq_true_2, Nat.sub_0_r, Hr by lia.
    unfold policy_routes. simpl. rewrite <- list_fmap_compose.
    destruct (decide (j < length (slots c))%nat) as [Hlt|Hge].
    + rewrite !lookup_app_l by (by rewrite length_fmap). rewrite !list_lookup_fmap.
      destruct (slots c !! j) as [[s|]|]; simpl; [by destruct (kept s)|done|done].
    + rewrite !lookup_app_r by (rewrite length_fmap; lia). rewrite !length_fmap.
      by rewrite (proj2 (lookup_ge_None (slots c) j)) by lia.
Qed.

Lemma write_resets_spec c :
  ctl_wf c ->
  exists t resets, ctl_write_resets c = log (FxReset <$> resets) (with_table t c) /\
    table_ok t /\ table_policy t = table_policy (table c).
Proof.
  intros Hw. unfold ctl_write_resets. destruct (table_take_resets_spec (table c) (cw_table c Hw)) as [Ht Hp].
  destruct (table_take_resets (table c)) as [t resets]. by exists t, resets.
Qed.

Lemma name_relays_eq c :
  name_relays c = with_named (relays c) (log (if bool_decide (relays c = named c) then [] else [FxNameRelays (relays c)]) c).
Proof.
  unfold name_relays. fold (relays c). case_bool_decide as Hr; [|done].
  rewrite Hr. destruct c. unfold log, with_named. simpl. by rewrite app_nil_r.
Qed.

(** The report handed out is the state of the slots and the exits that wait. *)
Definition reports c : list RouteReport :=
  ((fun s => mkRouteReport (identity s).2 (s_state s)) <$> occupied (slots c))
  ++ ((fun id => mkRouteReport id SWaiting) <$> waiting c).

Definition report_fx c : list (Effect Hd) :=
  if bool_decide (reported c = Some (reports c)) then [] else if observed c then [FxReport (reports c)] else [].

Lemma report_eq c : report c = with_reported (Some (reports c)) (log (report_fx c) c).
Proof.
  unfold report, report_fx. fold (reports c). cbv zeta. case_bool_decide as Hr.
  - rewrite <- Hr. destruct c. unfold log, with_reported. simpl. by rewrite app_nil_r.
  - change (observed (with_reported (Some (reports c)) c)) with (observed c). destruct (observed c); [done|].
    destruct c. unfold log, with_reported. simpl. by rewrite app_nil_r.
Qed.

Lemma report_wf c : ctl_wf c -> ctl_wf (report c).
Proof. rewrite report_eq. intros [? ? ? ? ? ?]. by split. Qed.

(** A plan routes each circuit once. *)
Definition plan_ok (p : AppRoutesPlan) : Prop := NoDup (rid <$> p_routes p).

(** A running controller: the plan's routes have their slots and sessions, its apps their routes
    in the table, and the firewall knows the relays. *)
Record running c : Prop := {
  rn_wf : ctl_wf c;
  rn_plan : plan_ok (ctl_plan c);
  rn_force : in_force c;
  rn_assigned : assigned c (ctl_plan c);
  rn_started : forall i s, slots c !! i = Some (Some s) -> s_session s <> None;
  rn_named : named c = relays c
}.

Lemma report_running c : running c -> running (report c).
Proof.
  intros [Hw Hpl Hf [? ? ? ? ? ?] Hs Hn]. split; [by apply report_wf|..]; rewrite report_eq; done.
Qed.

Lemma deeds_relays c c' : books deed (slots c') = books deed (slots c) -> relays c' = relays c.
Proof.
  intros Hb%books_occupied. unfold relays.
  assert (forall k : list (Slot Hd), (fun s => relay (s_circuit s)) <$> k = (fun d => relay d.1.1) <$> (deed <$> k)) as Hk.
  { intros k. by rewrite <- list_fmap_compose. }
  by rewrite !Hk, Hb.
Qed.

(** [s'] is the session of [s], still held. *)
Definition kept_on (s s' : Slot Hd) : Prop :=
  s_circuit s' = s_circuit s /\ s_generation s' = s_generation s /\ s_state s' = s_state s /\
  s_addresses s' = s_addresses s /\ forall h, s_session s = Some h -> s_session s' = Some h.

(** What becomes of the slots when the circuits of [served] are kept and [g] is the next number. *)
Definition turnover (served : list (bytes * bytes)) (g : Z) (l l' : list (option (Slot Hd))) : Prop :=
  (forall i s, l !! i = Some (Some s) -> identity s ∈ served -> exists s', l' !! i = Some (Some s') /\ kept_on s s') /\
  (forall i s', l' !! i = Some (Some s') ->
     (exists s, l !! i = Some (Some s) /\ identity s ∈ served /\ kept_on s s') \/ g <= s_generation s').

Lemma closed_lookup kept (l : list (option (Slot Hd))) i s :
  (closed kept <$> l) !! i = Some (Some s) <-> l !! i = Some (Some s) /\ kept s = true.
Proof.
  rewrite list_lookup_fmap. destruct (l !! i) as [[s0|]|]; simpl; [|by split; [|intros []]..].
  destruct (kept s0) eqn:Hk; [|split; [done|intros [? ?]; congruence]].
  split; [by intros [= <-]|by intros [? _]].
Qed.

Lemma stopped_fits c p kept :
  ctl_wf c -> (forall s, kept s = true -> identity s ∈ rid <$> (partition c p).1) ->
  forall c', slots c' = closed kept <$> slots c -> capacity c' = capacity c -> fits c' p.
Proof.
  intros Hw Hkept c' Hs Hc. destruct (cw_capacity c Hw) as [Hc0 _].
  assert (forall id, id ∈ ids_of (slots c') -> id ∈ rid <$> (partition c p).1) as Hin.
  { intros id (i & s & Hi & <-)%elem_of_ids. rewrite Hs in Hi. apply closed_lookup in Hi as [_ Hk]. by apply Hkept. }
  split.
  - intros id Hid%Hin. rewrite <- (partition_all c p), fmap_app. apply elem_of_app. by left.
  - rewrite Hc. transitivity (length (partition c p).1); [|rewrite partition_length by done; lia].
    rewrite <- (length_fmap identity), <- (length_fmap rid (partition c p).1).
    apply submseteq_length, NoDup_submseteq; [|exact Hin].
    apply ids_NoDup. rewrite Hs. intros i j s s' [Hi _]%closed_lookup [Hj _]%closed_lookup.
    by apply (sw_ids _ _ (cw_slots c Hw)).
Qed.

(** The sessions not kept are stopped, and every route of the plan is given its slot. *)
Definition replanned c (p : AppRoutesPlan) : RouteController T S Hd :=
  reserve (stop_slots (fun s => bool_decide (identity s ∈ rid <$> (partition c p).1)) (with_plan p c)) p.

Lemma replanned_spec c p :
  ctl_wf c -> NoDup (rid <$> p_routes p) ->
  let served := rid <$> (partition c p).1 in
  let c' := replanned c p in
  ctl_wf c' /\ assigned c' p /\ turnover served (next_generation c) (slots c) (slots c') /\
  next_generation c <= next_generation c' /\ ctl_plan c' = p /\ capacity c' = capacity c /\
  ctl_main_exit c' = ctl_main_exit c /\ named c' = named c /\
  trace c' = trace c ++ (FxStop <$> omap s_session (filter (fun s => identity s ∉ served) (occupied (slots c)))).
Proof.
  intros Hw Hnd served c'. subst c'. set (kept := fun s : Slot Hd => bool_decide (identity s ∈ served)).
  change (replanned c p) with (reserve (stop_slots kept (with_plan p c)) p).
  assert (ctl_wf (with_plan p c)) as Hw0 by (destruct Hw; by split).
  destruct (stop_slots_spec kept (with_plan p c) Hw0) as (t & -> & Hw1 & Hk1 & _).
  set (c1 := log _ _) in *.
  assert (fits c1 p) as Hf1.
  { apply (stopped_fits c p kept Hw); [|done|done]. intros s Hs. by apply bool_decide_eq_true in Hs. }
  destruct (reserve_spec c1 p Hw1 Hnd Hf1) as ((Hw2 & Ha & _ & Hg) & Ht & Htr & Hn & Hc & Hp & Hme & _).
  assert (omap s_session (filter (fun s => kept s = false) (occupied (slots c))) =
    omap s_session (filter (fun s => identity s ∉ served) (occupied (slots c)))) as Hst.
  { f_equal. apply list_filter_iff. intros s. unfold kept. apply bool_decide_eq_false. }
  split; [done|]. split; [done|]. split; [|split; [apply Hg|]].
  - destruct Hg as (_ & _ & Hk & Hb & _). split.
    + intros i s Hi Hs. destruct (Hk i s) as (s' & Hs' & Hss & _).
      { apply closed_lookup. split; [done|]. by apply bool_decide_eq_true. }
      exists s'. split; [done|]. destruct Hss as (? & ? & ? & ? & Hse). split_and!; try done. intros h. by rewrite Hse.
    + intros i s' [(s & Hi & Hss)|(_ & Hgen & _)]%Hb; [left|right; apply Hgen].
      apply closed_lookup in Hi as [Hi Hs]. apply bool_decide_eq_true in Hs. exists s. split; [done|]. split; [done|].
      destruct Hss as (? & ? & ? & ? & Hse). split_and!; try done. intros h. by rewrite Hse.
  - rewrite Hp, Hc, Hme, Hn, Htr, <- Hst. done.
Qed.

(** What [apply] did: the states it led to, and what it did to the world, in order. *)
Record applied c (p : AppRoutesPlan) c' : Prop := {
  ap_running : running c';
  ap_plan : ctl_plan c' = p;
  ap_capacity : capacity c' = capacity c;
  ap_main_exit : ctl_main_exit c' = ctl_main_exit c;
  ap_generation : next_generation c <= next_generation c';
  ap_turnover : turnover (rid <$> (partition c p).1) (next_generation c) (slots c) (slots c');
  ap_trace : exists resets names starts rest,
    trace c' = trace c
      ++ (FxStop <$> omap s_session (filter (fun s => identity s ∉ rid <$> (partition c p).1) (occupied (slots c))))
      ++ (FxReset <$> resets) ++ names ++ starts ++ rest /\
    names = (if bool_decide (relays c' = named c) then [] else [FxNameRelays (relays c')]) /\
    Forall (fun fx => exists i s, fx = FxStart i (s_circuit s) /\ slots c' !! i = Some (Some s)) starts /\
    (rest = [] \/ rest = [FxReport (reports c')])
}.

Lemma apply_spec c p clock :
  keys_total -> ctl_wf c -> NoDup (rid <$> p_routes p) -> exists c', apply c p clock = Ok c' /\ applied c p c'.
Proof.
  intros Hk Hw Hnd. unfold apply. cbv zeta.
  match goal with |- context [ctl_set_policy ?x clock] => change x with (replanned c p) end.
  destruct (replanned_spec c p Hw Hnd) as (Hw2 & Ha2 & Htu & Hg & Hp2 & Hc2 & Hme2 & Hn2 & Htr2).
  set (c2 := replanned c p) in *. destruct (ctl_set_policy_spec c2 clock Hk Hw2) as (t3 & -> & Hw3 & Hf3).
  rewrite bind_Ok. set (c3 := with_mapping _ _) in *.
  destruct (write_resets_spec c3 Hw3) as (t4 & resets & -> & Ht4 & Hp4). rewrite name_relays_eq.
  set (c4 := log (FxReset <$> resets) _). set (c5 := with_named _ _).
  assert (ctl_wf c5) as Hw5.
  { destruct Hw3 as [? ? ? ? ? Hpol]. split; simpl; try done. intros key Hkey. simpl. rewrite Hp4. by apply Hpol. }
  assert (in_force c5) as Hf5.
  { destruct Hf3 as [Hm Hr]. split; [exact Hm|]. simpl. by rewrite Hp4. }
  destruct (start_all_spec (seq 0 (length (slots c5))) c5 Hw5 Hf5) as (Hw6 & Hs6 & Hall). set (c6 := start_all _ c5) in *.
  pose proof (st_books _ _ Hs6) as Hb6.
  pose proof (st_same _ _ Hs6) as ((Hme6 & Ho6 & Hc6 & Hp6 & Hwt6 & Hbl6 & Hma6) & Hg6 & Hrep6 & Hn6 & Hmap6).
  assert (running c6) as Hr6.
  { split; [done|unfold plan_ok; rewrite Hp6; simpl; by rewrite Hp2|by eapply started_running| | |].
    - rewrite Hp6. simpl. rewrite Hp2. apply (assigned_deeds c2); try done. by apply books_deed.
    - intros i s Hi. apply (Hall i s); [|done]. apply elem_of_seq. split; [lia|].
      rewrite <- (books_length _ _ _ Hb6). by eapply lookup_lt_Some.
    - rewrite Hn6, (deeds_relays c5 c6 (books_deed _ _ Hb6)). done. }
  exists (report c6). split; [done|]. pose proof (report_running c6 Hr6) as Hr7.
  destruct (st_trace _ _ Hs6) as (starts & Ht6 & Hst). rewrite report_eq in *.
  split; [done|exact (eq_trans Hp6 Hp2)|exact (eq_trans Hc6 Hc2)|exact (eq_trans Hme6 Hme2)
    |change (next_generation c <= next_generation c6); rewrite Hg6; exact Hg| |].
  - destruct Htu as [Hkeep Hback]. split.
    + intros i s Hi Hs. destruct (Hkeep i s Hi Hs) as (s2 & Hs2 & Hon).
      destruct (books_lookup book (slots c2) (slots c6) i s2 (eq_sym Hb6) Hs2) as (s6 & Hi6 & Hbk). exists s6. split; [done|].
      unfold kept_on, book in *. injection Hbk as -> _ -> -> ->. destruct Hon as (? & ? & ? & ? & Hh).
      split_and!; try done. intros h Hsome. specialize (Hh h Hsome).
      pose proof (st_handles _ _ Hs6 i s2 Hs2 ltac:(by rewrite Hh)) as Hsame. congruence.
    + intros i s6 Hi6. change (slots c6 !! i = Some (Some s6)) in Hi6.
      destruct (books_lookup book (slots c6) (slots c2) i s6 Hb6 Hi6) as (s2 & Hi2 & Hbk).
      pose proof (deed_generation _ _ (book_deed _ _ Hbk)) as Hgen.
      destruct (Hback i s2 Hi2) as [(s & Hi & Hs & Hon)|Hge]; [left|right; lia]. exists s. split; [done|]. split; [done|].
      unfold kept_on, book in *. injection Hbk as <- _ <- <- <-. destruct Hon as (? & ? & ? & ? & Hh).
      split_and!; try done. intros h Hsome. specialize (Hh h Hsome).
      pose proof (st_handles _ _ Hs6 i s2 Hi2 ltac:(by rewrite Hh)) as Hsame. congruence.
  - exists resets, (if bool_decide (relays c4 = named c4) then [] else [FxNameRelays (relays c4)]), starts, (report_fx c6).
    assert (relays (with_reported (Some (reports c6)) (log (report_fx c6) c6)) = relays c4) as Hrel.
    { exact (deeds_relays c5 c6 (books_deed _ _ Hb6)). }
    split; [|split; [|split]].
    + etrans; [exact (f_equal (fun fx => fx ++ report_fx c6) Ht6)|].
      change (trace c5) with ((trace c2 ++ (FxReset <$> resets)) ++
        (if bool_decide (relays c4 = named c4) then [] else [FxNameRelays (relays c4)])).
      rewrite Htr2. by rewrite <- !(assoc_L (++)).
    + rewrite Hrel. change (named c4) with (named c2). by rewrite Hn2.
    + eapply Forall_impl; [exact Hst|]. intros fx (i & s & -> & Hi & _).
      destruct (books_lookup book (slots c5) (slots c6) i s (eq_sym Hb6) Hi) as (s6 & Hi6 & Hbk). exists i, s6.
      split; [|done]. unfold book in Hbk. by injection Hbk as -> _ _ _ _.
    + assert (report_fx c6 = [] \/ report_fx c6 = [FxReport (reports c6)]) as Hfx; [|exact Hfx].
      unfold report_fx. repeat case_match; auto.
Qed.

(** *** The turns of [run] *)

(** A session reports addresses that are addresses. *)
Definition turn_ok (branch : Branch) : Prop :=
  match branch with
  | BrPlan p => plan_ok p
  | BrEvent (mkTagged _ _ (EvConnected addresses)) => addresses_wf addresses
  | _ => True
  end.

(** The sessions of [c'] are those of [c], in their slots, or new ones under new numbers. *)
Definition outlives c c' : Prop :=
  next_generation c <= next_generation c' /\
  forall i s', slots c' !! i = Some (Some s') ->
    (exists s, slots c !! i = Some (Some s) /\ s_circuit s' = s_circuit s /\ s_generation s' = s_generation s) \/
    next_generation c <= s_generation s'.

Lemma outlives_same c c' :
  next_generation c' = next_generation c -> books deed (slots c') = books deed (slots c) -> outlives c c'.
Proof.
  intros Hg Hb. split; [lia|]. intros i s' Hi. left.
  destruct (books_lookup deed _ _ i s' Hb Hi) as (s & Hs & Hbk). exists s. split; [done|].
  by rewrite (deed_circuit _ _ Hbk), (deed_generation _ _ Hbk).
Qed.

Lemma outlives_trans c1 c2 c3 : outlives c1 c2 -> outlives c2 c3 -> outlives c1 c3.
Proof.
  intros [Hg1 H12] [Hg2 H23]. split; [lia|]. intros i s3 Hi3.
  destruct (H23 i s3 Hi3) as [(s2 & Hi2 & -> & ->)|Hge]; [|right; lia]. by apply H12.
Qed.

Lemma applied_outlives c p c' : applied c p c' -> outlives c c'.
Proof.
  intros Ha. split; [apply (ap_generation _ _ _ Ha)|]. intros i s' Hi.
  destruct (proj2 (ap_turnover _ _ _ Ha) i s' Hi) as [(s & Hs & _ & Hc & Hg & _)|]; [left; by exists s|by right].
Qed.

Lemma main_exit_running c main_exit clock :
  keys_total -> running c ->
  exists c', (c1 ← ctl_set_policy (with_main_exit main_exit c) clock; Ok (ctl_write_resets c1)) = Ok c' /\
    running c' /\ outlives c c'.
Proof.
  intros Hk [Hw Hpl Hf Ha Hs Hn]. assert (ctl_wf (with_main_exit main_exit c)) as Hw1 by (destruct Hw; by split).
  destruct (ctl_set_policy_spec _ clock Hk Hw1) as (t & -> & Hw2 & Hf2). rewrite bind_Ok.
  set (c2 := with_mapping _ _) in *. destruct (write_resets_spec c2 Hw2) as (t' & resets & -> & Ht & Hp).
  eexists. split; [done|]. split; [|by apply outlives_same]. split; try done.
  - destruct Hw2 as [? ? ? ? ? Hpol]. split; simpl; try done. intros key Hkey. rewrite Hp. by apply Hpol.
  - destruct Hf2 as [? ?]. split; [done|]. simpl. by rewrite Hp.
  - by destruct Ha.
Qed.

Lemma event_running c tagged : running c -> turn_ok (BrEvent tagged) -> running (handle_event c tagged) /\ outlives c (handle_event c tagged).
Proof.
  intros Hr Hok. unfold handle_event. destruct tagged as [i g ev]. cbn [tg_slot tg_generation tg_event turn_ok] in *.
  assert (running c /\ outlives c c) as Hsame by (split; [done|by apply outlives_same]).
  destruct (slots c !! i) as [[s|]|] eqn:Hi; [|done|done]. destruct (s_generation s =? g); [cbn [negb]|done].
  assert (exists state addresses, match ev with
     | EvConnecting => (SConnecting, None) | EvConnected addresses => (SConnected, Some addresses)
     | EvUnavailable reason => (SUnavailable reason, None) | EvWaiting => (SWaiting, None)
     end = (state, addresses) /\ forall a, addresses = Some a -> addresses_wf a) as (state & addresses & -> & Ha).
  { destruct ev; eexists _, _; (split; [reflexivity|]); intros a [=]; by subst. }
  set (s' := mkSlot _ _ _ _ _ _). cbn [slots table with_slots with_table].
  assert (books deed (<[i := Some s']> (slots c)) = books deed (slots c)) as Hb by (by apply (books_insert deed _ _ s)).
  pose proof (sw_len _ _ (cw_slots c (rn_wf c Hr))) as Hlen. pose proof (lookup_lt_Some _ _ _ Hi) as Hlt.
  assert (slots_wf (<[i := Some s']> (slots c)) (next_generation c)) as Hsw.
  { apply (slots_wf_deeds (slots c)); [done| |apply (rn_wf c Hr)].
    intros j sj a [(<- & [= <-] & _)|[_ Hj]]%list_lookup_insert_Some; [by apply Ha|].
    by apply (sw_addresses _ _ (cw_slots c (rn_wf c Hr)) j). }
  assert (state_wf (slot_route_state s')) as Hsok.
  { apply (slot_route_state_wf _ _ i _ Hsw). by rewrite list_lookup_insert_eq. }
  destruct (table_set_route_state_spec (table c) (route_id i) _ (cw_table c (rn_wf c Hr)) Hsok (route_id_nonneg i)) as [Ht Hp].
  set (t := table_set_route_state _ _ _) in *. set (c1 := with_table t _).
  assert (running c1) as Hr1; [|split; [by apply report_running|]].
  2: { rewrite report_eq. by apply outlives_same. }
  destruct Hr as [Hw Hpl Hf Has Hst Hn]. split; [|done|..].
  - destruct Hw as [? ? ? ? ? Hpol]. split; try done. intros key Hkey. eapply says_keeps; [|by apply Hpol].
    change (table c1) with t. rewrite Hp. apply with_state_keeps.
  - apply (in_force_deeds c); try done. change (table c1) with t. rewrite Hp, with_state_routes, (proj2 Hf) by apply route_id_nonneg.
    rewrite route_id_small, Nat2Z.id by lia. unfold policy_routes. simpl.
    rewrite insert_app_l by (by rewrite length_fmap). by rewrite list_fmap_insert.
  - by apply (assigned_deeds c).
  - intros j sj [(<- & [= <-] & _)|[_ Hj]]%list_lookup_insert_Some; [exact (Hst i s Hi)|by apply (Hst j)].
  - rewrite (deeds_relays c c1 Hb). exact Hn.
Qed.

Lemma capacity_running c n clock :
  keys_total -> running c -> 0 <= n -> exists c', set_capacity c n clock = Ok c' /\ running c' /\ outlives c c'.
Proof.
  intros Hk Hr Hn. unfold set_capacity. destruct (Z.eqb_spec (Z.min n MAX_ROUTE_SESSIONS) (capacity c)).
  { exists c. split; [done|]. split; [done|by apply outlives_same]. }
  assert (ctl_wf (with_capacity_ (Z.min n MAX_ROUTE_SESSIONS) c)) as Hw.
  { destruct (rn_wf c Hr). split; try done. simpl. unfold MAX_ROUTE_SESSIONS. lia. }
  destruct (apply_spec _ (ctl_plan c) clock Hk Hw (rn_plan c Hr)) as (c' & He & Ha). exists c'.
  split; [exact He|]. split; [apply (ap_running _ _ _ Ha)|]. exact (applied_outlives _ _ _ Ha).
Qed.

(** A turn of the loop returns, and leaves the controller running. *)
Lemma turn_running c branch clock :
  keys_total -> running c -> turn_ok branch -> exists c', run_turn c branch clock = Ok c' /\ running c' /\ outlives c c'.
Proof.
  intros Hk Hr Hok. assert (running c /\ outlives c c) as Hsame by (split; [done|by apply outlives_same]).
  destruct branch as [[n| |]|p|main_exit|tagged]; cbn [run_turn]; eauto.
  - apply capacity_running; [done|done|]. pose proof (route_capacity_range (Some (Anchored n))). unfold TOKEN_ROUTE_SESSIONS in *. lia.
  - destruct (apply_spec c p clock Hk (rn_wf c Hr) Hok) as (c' & He & Ha). exists c'.
    split; [done|]. split; [apply (ap_running _ _ _ Ha)|]. exact (applied_outlives _ _ _ Ha).
  - by apply main_exit_running.
  - eexists. split; [done|]. by apply event_running.
Qed.

(** How a controller starts: new, perhaps seeded with a plan, then [run]. *)
Inductive prepared : RouteController T S Hd -> Prop :=
| prepared_new t sessions m observed : table_ok t -> addresses_wf m -> prepared (controller_new t sessions m observed)
| prepared_seed t sessions m observed p main_exit clock c :
    table_ok t -> addresses_wf m -> plan_ok p ->
    seed (controller_new t sessions m observed) p main_exit clock = Ok c -> prepared c.

Inductive run_reachable : RouteController T S Hd -> Prop :=
| run_first c p main_exit anchor clock c' :
    prepared c -> plan_ok p -> run_start c p main_exit anchor clock = Ok c' -> run_reachable c'
| run_packets c t : run_reachable c -> table_packets (table c) t -> run_reachable (with_table t c)
| run_next c branch clock c' :
    run_reachable c -> turn_ok branch -> run_turn c branch clock = Ok c' -> run_reachable c'.

Lemma controller_new_wf (t : T) (sessions : S) m observed :
  table_ok t -> addresses_wf m -> ctl_wf (controller_new t sessions m observed : RouteController T S Hd).
Proof.
  intros Ht Hm. assert (forall i (s : Slot Hd), replicate 255 None !! i <> Some (Some s)) as Hnone.
  { intros i s Hi. apply list_elem_of_lookup_2 in Hi. by apply elem_of_replicate in Hi as [? _]. }
  split; try done. split; [done|..]; simpl; unfold ids_unique; intros; exfalso; by eapply Hnone.
Qed.

Lemma prepared_wf c : keys_total -> prepared c -> ctl_wf c.
Proof.
  intros Hk [t sessions m obs Ht Hm|t sessions m obs p main_exit clock c' Ht Hm Hp Hs]; [by apply controller_new_wf|].
  pose proof (controller_new_wf t sessions m obs Ht Hm) as Hw. set (c0 := controller_new _ _ _ _ : RouteController T S Hd) in *.
  assert (ctl_wf (with_main_exit main_exit c0)) as Hw0 by (destruct Hw; by split).
  assert (occupied (slots c0) = []) as Hocc by done.
  destruct (reserve_spec (with_main_exit main_exit c0) p Hw0 Hp) as ((Hw1 & _) & _).
  { split; [|by change (length (occupied (slots c0)) <= Z.to_nat (capacity c0))%nat; rewrite Hocc; simpl; lia].
    intros id. unfold ids_of. simpl. by intros ?%not_elem_of_nil. }
  destruct (ctl_set_policy_spec _ clock Hk Hw1) as (t' & He & Hw2 & _). unfold seed in Hs. rewrite He in Hs. by injection Hs as <-.
Qed.

Lemma start_running c p main_exit anchor clock :
  keys_total -> prepared c -> plan_ok p -> exists c', run_start c p main_exit anchor clock = Ok c' /\ running c'.
Proof.
  intros Hk Hpr Hp. pose proof (prepared_wf c Hk Hpr) as Hw. unfold run_start.
  assert (forall c0, ctl_wf c0 -> exists c', apply c0 p clock = Ok c' /\ running c') as Happ.
  { intros c0 H0'. destruct (apply_spec c0 p clock Hk H0' Hp) as (c' & He & Ha). exists c'. split; [done|apply (ap_running _ _ _ Ha)]. }
  apply Happ. destruct anchor as [a|]; destruct Hw; split; try done. cbn [capacity with_capacity_].
  pose proof (route_capacity_range (Some a)). unfold TOKEN_ROUTE_SESSIONS in *. lia.
Qed.

(** The packet path changes nothing of the controller. *)
Lemma packets_running c t : running c -> table_packets (table c) t -> running (with_table t c).
Proof.
  intros [[? ? ? Ht ? Hpol] Hp [Hm Hr] [? ? ? ? ? ?] Hs Hn] Hstep.
  destruct (table_packets_spec _ _ Ht Hstep) as [Ht' He]. split; try done.
  - split; try done. intros key Hkey. simpl. rewrite He. by apply Hpol.
  - split; [done|]. simpl. by rewrite He.
Qed.

Lemma reachable_running c : keys_total -> run_reachable c -> running c.
Proof.
  intros Hk. induction 1 as [c p e a clock c' Hpr Hp Hs|c t _ IH Ht|c b clock c' _ IH Hb Ht].
  - destruct (start_running c p e a clock Hk Hpr Hp) as (c1 & He & Hr). congruence.
  - by apply packets_running.
  - destruct (turn_running c b clock Hk IH Hb) as (c1 & He & Hr & _). congruence.
Qed.
End Machine.
