(* ===== verification/ControllerRun.v ===== *)
(** * What a running controller promises

    The theorems about every controller [run] has started, whatever plans,
    main exits, anchor states and session events it was given since. *)

From S2P Require Import Prelude AppKey Router RouterInv RouterWorld Routes Controller ControllerInv ControllerSpec.
Open Scope Z_scope.

Section Promises.
Context `{!Platform} `{!Descriptors} {T S Hd : Type} `{!RouteTable T} `{!RouteSessions S Hd}.
Implicit Types c : RouteController T S Hd.

(** The route an app of the plan is due: its circuit's slot, or the blocked route while it waits,
    is refused, or was left to a main session that is on another exit. *)
Inductive due c (app : str) : RouteId -> Prop :=
| due_route i s r : r ∈ p_routes (ctl_plan c) -> app ∈ r_apps r -> slots c !! i = Some (Some s) ->
    identity s = rid r -> due c app (Z.of_nat i)
| due_waiting r : r ∈ p_routes (ctl_plan c) -> app ∈ r_apps r -> rid r ∉ ids_of (slots c) -> due c app BLOCKED
| due_blocked : app ∈ p_blocked_apps (ctl_plan c) -> due c app BLOCKED
| due_main m : m ∈ p_main_apps (ctl_plan c) -> app ∈ m_apps m -> Some (m_exit_id m) <> ctl_main_exit c -> due c app BLOCKED.

Lemma rid_inj (l : list PlannedRoute) r r' : NoDup (rid <$> l) -> r ∈ l -> r' ∈ l -> rid r = rid r' -> r = r'.
Proof.
  intros Hnd [i Hi]%list_elem_of_lookup [j Hj]%list_elem_of_lookup He.
  assert (i = j) as ->; [|congruence].
  by apply (NoDup_lookup _ i j (rid r) Hnd); rewrite list_lookup_fmap, ?Hi, ?Hj; [|rewrite He].
Qed.

Lemma placed_due c app r : running c -> placed c app r <-> due c app r.
Proof.
  intros [Hw Hp Hf Ha Hs Hn]. split.
  - intros [i s Hi Hin ->|Hin ->|m Hm Hne Hin ->].
    + destruct (as_slots _ _ Ha i s Hi) as (x & Hx & He & Hap). rewrite Hap in Hin. by eapply due_route.
    + destruct (as_waiting _ _ Ha app Hin) as [Hb|(x & Hx & Hin' & Hnot)]; [by apply due_blocked|by eapply due_waiting].
    + rewrite (as_main _ _ Ha) in Hm. by eapply due_main.
  - intros [i s x Hx Hin Hi He|x Hx Hin Hnot|Hb|m Hm Hin Hne].
    + destruct (as_slots _ _ Ha i s Hi) as (y & Hy & He' & Hap).
      assert (x = y) as -> by (apply (rid_inj _ _ _ Hp Hx Hy); congruence).
      eapply placed_slot; [exact Hi| |done]. by rewrite Hap.
    + destruct (as_routes _ _ Ha x Hx) as [(i & s & Hi & He & _)|[Hbl _]].
      * destruct Hnot. apply elem_of_ids. eauto.
      * by apply placed_blocked; [apply Hbl|].
    + by apply placed_blocked; [apply (as_blocked _ _ Ha)|].
    + eapply placed_main; try done. by rewrite (as_main _ _ Ha).
Qed.

(** C26: no app of the plan falls to the main session.  In the policy the table holds, a program has
    a route exactly when an app that is due one reduces to it, and the route is one that is due: the
    slot of its circuit, or the blocked route, which is never connected.  As many routes of the plan
    hold a slot as the capacity allows, and each slot's route is in the state its session reported. *)
Theorem planned_apps_on_their_routes c (Hkeys : keys_total) (Hr : run_reachable c) :
  let policy := table_policy (table c) in
  (forall path, match lookup_of (Router.apps policy) path with
                | Some route => exists app, reduces app path /\ due c app route
                | None => forall app route, due c app route -> ~ reduces app path
                end) /\
  (forall i s, slots c !! i = Some (Some s) -> get (routes policy) (Z.of_nat i) = Some (slot_route_state s) /\
     policy_session policy (Z.of_nat i) = Some (s_generation s)) /\
  get (routes policy) BLOCKED = Some Unavailable /\
  length (occupied (slots c)) = Nat.min (length (p_routes (ctl_plan c))) (Z.to_nat (capacity c)) /\
  NoDup (ids_of (slots c)).
Proof.
  intros policy. pose proof (reachable_running c Hkeys Hr) as Hrun. pose proof Hrun as [Hw Hp [Hm Hro] Ha Hs Hn].
  destruct (cw_policy c Hw _ Hm) as (_ & Hse & _ & Hlook). cbn [fst snd] in *.
  pose proof (sw_len _ _ (cw_slots c Hw)) as Hlen.
  assert (forall i : nat, get (routes policy) (Z.of_nat i) = routes policy !! i) as Hget.
  { intros i. unfold get. destruct (Z.leb_spec 0 (Z.of_nat i)); [by rewrite Nat2Z.id|lia]. }
  split; [|split; [|split; [|split]]].
  - intros path. specialize (Hlook path). destruct (lookup_of _ path) as [route|].
    + destruct Hlook as (app & Hin & Hred). exists app. split; [done|].
      apply placed_due; [done|]. by apply elem_of_policy_mapping.
    + intros app route Hdue Hred. rewrite Forall_forall in Hlook.
      apply (Hlook (app, route)); [|done]. apply elem_of_policy_mapping; [done|]. by apply placed_due.
  - intros i s Hi. rewrite Hget. subst policy. rewrite Hro. unfold policy_session. rewrite Hse.
    unfold get. destruct (Z.leb_spec 0 (Z.of_nat i)); [|lia]. rewrite Nat2Z.id.
    unfold policy_routes, policy_sessions. pose proof (lookup_lt_Some _ _ _ Hi).
    rewrite !lookup_app_l by (by rewrite length_fmap). by rewrite !list_lookup_fmap, Hi.
  - change BLOCKED with (Z.of_nat 255). rewrite Hget. subst policy. rewrite Hro. unfold policy_routes.
    by rewrite lookup_app_r; rewrite length_fmap, Hlen.
  - apply (as_room _ _ Ha).
  - apply ids_NoDup, (sw_ids _ _ (cw_slots c Hw)).
Qed.

(** A plan never costs a session it still wants.  Applying a plan returns and is followed: a live
    session whose circuit is still among the plan's first live ones, up to the capacity, keeps its
    slot, its generation and its handle, and a session is ended only when its circuit is not one of
    those served. *)
Theorem apply_keeps_live_sessions c (p : AppRoutesPlan) (clock : Z)
    (Hkeys : keys_total) (Hr : run_reachable c) (Hp : plan_ok p) :
  exists c' stops rest, apply c p clock = Ok c' /\ run_reachable c' /\ ctl_plan c' = p /\
    (forall i s, slots c !! i = Some (Some s) ->
       identity s ∈ rid <$> take (Z.to_nat (capacity c)) (live c p) ->
       exists s', slots c' !! i = Some (Some s') /\ kept_on s s') /\
    trace c' = trace c ++ (FxStop <$> stops) ++ rest /\
    (forall h, FxStop h ∉ rest) /\
    (forall h, h ∈ stops -> exists i s, slots c !! i = Some (Some s) /\ s_session s = Some h /\
       identity s ∉ rid <$> take (Z.to_nat (capacity c)) (live c p)).
Proof.
  pose proof (reachable_running c Hkeys Hr) as [Hw _ _ _ _ _].
  destruct (apply_spec c p clock Hkeys Hw Hp) as (c' & He & Ha).
  destruct (ap_trace _ _ _ Ha) as (resets & names & starts & rest & Htr & Hnames & Hst & Hrest).
  exists c', (omap s_session (filter (fun s => identity s ∉ rid <$> (partition c p).1) (occupied (slots c)))),
    ((FxReset <$> resets) ++ names ++ starts ++ rest).
  assert (rid <$> take (Z.to_nat (capacity c)) (live c p) ⊆ rid <$> (partition c p).1) as Hsub.
  { intros id (r & -> & Hin)%list_elem_of_fmap. apply list_elem_of_fmap. exists r. split; [done|].
    destruct (partition_eq c p) as [Hperm ->]. cbn [fst].
    apply Permutation_length in Hperm. rewrite length_app in Hperm.
    apply list_elem_of_lookup in Hin as [i [Hi Hlt]%lookup_take_Some]. apply list_elem_of_lookup. exists i.
    pose proof (lookup_lt_Some _ _ _ Hi). apply lookup_take_Some. split; [by rewrite lookup_app_l|]. unfold zlen. lia. }
  split; [done|]. split; [by apply (run_next c (BrPlan p) clock)|]. split; [apply (ap_plan _ _ _ Ha)|].
  split; [|split; [exact Htr|split]].
  - intros i s Hi Hin%Hsub. by apply (proj1 (ap_turnover _ _ _ Ha)).
  - intros h. rewrite !elem_of_app. intros [Hin|[Hin|[Hin|Hin]]].
    + by apply list_elem_of_fmap in Hin as (b & [=] & _).
    + rewrite Hnames in Hin. case_bool_decide; [by apply not_elem_of_nil in Hin|].
      by apply list_elem_of_singleton in Hin.
    + rewrite Forall_forall in Hst. by destruct (Hst _ Hin) as (i & s & [=] & _).
    + destruct Hrest as [->| ->]; [by apply not_elem_of_nil in Hin|by apply list_elem_of_singleton in Hin].
  - intros h (s & Hin & Hse)%list_elem_of_omap. apply list_elem_of_filter in Hin as [Hnot [i Hi]%elem_of_occupied].
    exists i, s. split; [done|]. split; [done|]. intros Hx%Hsub. done.
Qed.

(** C37: the firewall knows a relay before anything dials it.  Of every running controller, the relays
    last named are those of the sessions it holds; and what applying a plan does is, in this order:
    end the sessions that leave, write the resets, name the relays unless they are the ones named
    already, start sessions whose relays are all among them, report. *)
Theorem relays_named_before_dial c (p : AppRoutesPlan) (clock : Z)
    (Hkeys : keys_total) (Hr : run_reachable c) (Hp : plan_ok p) :
  (forall i s, slots c !! i = Some (Some s) -> relay (s_circuit s) ∈ named c) /\
  exists c' stops resets names starts rest, apply c p clock = Ok c' /\
    trace c' = trace c ++ (FxStop <$> stops) ++ (FxReset <$> resets) ++ names ++ starts ++ rest /\
    (named c' = named c /\ names = [] \/ names = [FxNameRelays (named c')]) /\
    Forall (fun fx => exists i circuit, fx = FxStart i circuit /\ relay circuit ∈ named c') starts /\
    (rest = [] \/ rest = [FxReport (reports c')]).
Proof.
  pose proof (reachable_running c Hkeys Hr) as Hrun.
  assert (forall c0, running c0 -> forall i s, slots c0 !! i = Some (Some s) -> relay (s_circuit s) ∈ named c0) as Hnamed.
  { intros c0 Hc0 i s Hi. rewrite (rn_named c0 Hc0). apply list_elem_of_fmap. exists s. split; [done|].
    apply elem_of_occupied. by exists i. }
  split; [by apply Hnamed|].
  destruct (apply_spec c p clock Hkeys (rn_wf c Hrun) Hp) as (c' & He & Ha).
  destruct (ap_trace _ _ _ Ha) as (resets & names & starts & rest & Htr & Hn & Hst & Hrest).
  eexists c', _, resets, names, starts, rest. split; [done|]. split; [exact Htr|]. split; [|split; [|done]].
  - rewrite (rn_named _ (ap_running _ _ _ Ha)), Hn. case_bool_decide; [by left|by right].
  - eapply Forall_impl; [exact Hst|]. intros fx (i & s & -> & Hi). exists i, (s_circuit s). split; [done|].
    by eapply (Hnamed c' (ap_running _ _ _ Ha)).
Qed.

(** One turn of a running controller, or a step of the packet path between two turns. *)
Inductive turn c : RouteController T S Hd -> Prop :=
| turn_branch branch clock c' : turn_ok branch -> run_turn c branch clock = Ok c' -> turn c c'
| turn_packets t : table_packets (table c) t -> turn c (with_table t c).

Lemma turns_running c c' : keys_total -> running c -> rtc turn c c' -> running c' /\ outlives c c'.
Proof.
  intros Hk Hr Ht. induction Ht as [c|c c1 c2 Hturn _ IH].
  - split; [done|by apply outlives_same].
  - assert (running c1 /\ outlives c c1) as [Hr1 Ho].
    { destruct Hturn as [b clock c1 Hb He|t Hp]; [|split; [by apply packets_running|by apply outlives_same]].
      destruct (turn_running c b clock Hk Hr Hb) as (c1' & He' & Hrest). by assert (c1' = c1) as -> by congruence. }
    destruct (IH Hr1) as [Hr2 Ho2]. split; [done|]. by eapply outlives_trans.
Qed.

(** A session that was replaced in its slot is no longer heard.  Whatever happened since a
    session was in a slot, either the slot still holds that very circuit under that generation, or
    nothing the session reports changes anything. *)
Theorem replaced_session_is_ignored c c' (i : nat) (s : Slot Hd)
    (Hkeys : keys_total) (Hr : run_reachable c) (Ht : rtc turn c c') (Hi : slots c !! i = Some (Some s)) :
  (exists s', slots c' !! i = Some (Some s') /\ s_generation s' = s_generation s /\ s_circuit s' = s_circuit s) \/
  (forall event, handle_event c' (mkTagged i (s_generation s) event) = c').
Proof.
  pose proof (reachable_running c Hkeys Hr) as Hrun. destruct (turns_running c c' Hkeys Hrun Ht) as [_ [_ Hout]].
  pose proof (sw_range _ _ (cw_slots c (rn_wf c Hrun)) i s Hi) as Hrange.
  destruct (slots c' !! i) as [[s'|]|] eqn:Hi'; [|right; intros event; unfold handle_event; simpl; by rewrite Hi'..].
  destruct (decide (s_generation s' = s_generation s)) as [Hg|Hg].
  - left. exists s'. split; [done|]. split; [done|].
    destruct (Hout i s' Hi') as [(s0 & Hi0 & Hc & _)|Hge]; [congruence|lia].
  - right. intros event. unfold handle_event. simpl. rewrite Hi'. destruct (Z.eqb_spec (s_generation s') (s_generation s)); done.
Qed.

Lemma all_closed (l : list (option (Slot Hd))) :
  (fun o => match o with Some s => slot_route_state s | None => Unavailable end) <$> (closed (fun _ => false) <$> l)
    = replicate (length l) Unavailable.
Proof. induction l as [|[s|] l IH]; [done|..]; rewrite !fmap_cons; cbn [closed length replicate]; f_equal; exact IH. Qed.

(** A run ends, with every session ended and every planned app still off the main session.
    Whatever turns it takes, the run returns; in the end each session it held was told to stop, its
    slots are empty, the table gives every program the route it had, and no route is connected. *)
Theorem run_ends_blocked c (turns : list (Branch * Z))
    (Hkeys : keys_total) (Hr : run_reachable c) (Hok : Forall (fun t => turn_ok t.1) turns) :
  exists c1 c', rtc turn c c1 /\ run_loop c turns = Ok c' /\
    trace c' = trace c1 ++ (FxStop <$> omap s_session (occupied (slots c1))) /\
    length (omap s_session (occupied (slots c1))) = length (occupied (slots c1)) /\
    (forall i s, slots c' !! i <> Some (Some s)) /\
    (forall path, lookup_of (Router.apps (table_policy (table c'))) path =
       lookup_of (Router.apps (table_policy (table c1))) path) /\
    routes (table_policy (table c')) = replicate 256 Unavailable.
Proof.
  pose proof (reachable_running c Hkeys Hr) as Hrun. clear Hr. revert c Hrun.
  induction Hok as [|[b clock] turns Hb _ IH]; intros c Hrun; cbn [run_loop].
  - pose proof Hrun as [Hw _ Hf _ Hs _].
    destruct (stop_slots_spec (fun _ => false) c Hw) as (t & He & Hw' & Hkeep & Hroutes).
    exists c, (stop_all c). split; [done|]. split; [done|]. unfold stop_all. rewrite He. split; [|split; [|split; [|split]]].
    + simpl. by rewrite filter_everything.
    + clear -Hs. assert (forall s, s ∈ occupied (slots c) -> s_session s <> None) as Hall.
      { intros s [i Hi]%elem_of_occupied. by eapply Hs. }
      clear Hs. induction (occupied (slots c)) as [|s l IH]; [done|]. simpl.
      destruct (s_session s) eqn:Hse; [|by destruct (Hall s ltac:(by left))]. simpl. f_equal. apply IH.
      intros s' Hin. apply Hall. by right.
    + intros i s Hi. by apply closed_lookup in Hi as [_ [=]].
    + intros path. simpl. by destruct Hkeep as (_ & -> & _).
    + simpl. rewrite (Hroutes Hf). unfold policy_routes. simpl. rewrite all_closed, (sw_len _ _ (cw_slots c Hw)). done.
  - destruct (turn_running c b clock Hkeys Hrun Hb) as (c2 & He & Hr2 & _).
    destruct (IH c2 Hr2) as (c1 & c' & Ht & Hl & Hrest). exists c1, c'.
    split; [eapply rtc_l; [by eapply turn_branch|done]|]. split; [|done]. by rewrite He, bind_Ok.
Qed.
End Promises.
