(* ===== verification/AppRoutes.v ===== *)
(** * The controller over the routing table

    The routing table of [Datapath] keeps what the controller asks of it
    ([RouteTable]), so the controller's promises hold of the real table, and the
    two halves meet: with the packet path and the controller taking turns on
    one table, no packet of a planned app leaves through the main session. *)

From S2P Require Import Prelude Net Ip Flow FlowTable Nat AppKey Reset Owner Router RouterInv RouterWorld RouterSpec Datapath DatapathSpec Routes Controller ControllerInv ControllerSpec ControllerRun.
Open Scope Z_scope.

Section Table.
Context `{!HashOrder} `{!Platform} {R : Type} `{!OwnerResolver R}.
Context (callers : Callers) (res : R).
Implicit Types t : RoutingTable R.

(** What the devices and the owner threads do to the table. *)
Inductive packet_step : RoutingTable R -> RoutingTable R -> Prop :=
| ps_uplink t p arrived clock x :
    bytes_ok p -> sends callers p arrived clock -> @rt_uplink _ _ R _ Empty_set t p arrived clock = Ok x ->
    packet_step t x.1.1
| ps_downlink t route p now x :
    bytes_ok p -> @rt_downlink _ R Empty_set t route p now = Ok x -> packet_step t x.1.1
| ps_complete t q o now clock t' :
    answers callers (policy (rt_router t)) q o -> releases callers (q_flow q) now clock ->
    @rt_complete _ _ R _ Empty_set t q o now clock = Ok t' -> packet_step t t'
| ps_take_resets t : packet_step t (rt_take_resets t).1
| ps_take_released t : packet_step t (rt_take_released t).1
| ps_recv t queue : packet_step t (route_try_recv t queue).1
| ps_drop t queue : packet_step t (route_drop t queue).

Lemma packet_step_spec t t' :
  keys_total -> rt_wf t -> packet_step t t' -> rt_step callers t t' /\ policy (rt_router t') = policy (rt_router t).
Proof.
  intros Hk Hw Hs. destruct Hs as [t p arrived clock x Hb Hse Hx|t route p now x Hb Hx|t q o now clock t' Ha Hrl Hx|t|t|t queue|t queue].
  - split; [by eapply rts_uplink|]. pose proof (uplink_step_wf callers t p arrived clock Hk Hw Hb Hse) as Hy.
    rewrite Hx in Hy. apply Hy.
  - split; [by eapply rts_downlink|]. unfold rt_downlink in Hx.
    pose proof (@downlink_yields _ _ R Empty_set (rt_router t) route p now (proj1 (rtw_front _ Hw)) Hb) as Hy.
    destruct (downlink (rt_router t) route p now) as [[[r p'] d]| |]; try done. injection Hx as <-. apply Hy.
  - split; [by eapply rts_complete|]. pose proof (complete_step_wf callers t q o now clock Hk Hw Ha Hrl) as Hy.
    rewrite Hx in Hy. apply Hy.
  - split; [apply rts_take_resets|done].
  - split; [apply rts_take_released|]. unfold rt_take_released. destruct (rt_released_pending t); simpl; [|done].
    by destruct (rt_released t) as [|? [|]].
  - split; [apply rts_recv|]. unfold route_try_recv. destruct (rt_channels t !! queue) as [c|]; [|done].
    by destruct (chan_try_recv c).
  - split; [apply rts_drop|done].
Qed.

Lemma reachable_step t t' : rt_reachable_by callers res t -> rt_step callers t t' -> rt_reachable_by callers res t'.
Proof. intros [Hr|Hr] Hs; [left|right]; by eapply rtc_r. Qed.

Lemma set_route_state_policy (r : Router R) route state :
  policy (set_route_state r route state) = policy_with_state (policy r) route state.
Proof. unfold set_route_state, route_state, policy_with_state. by destruct (get _ _). Qed.

Lemma close_route_router t route :
  rt_router (rt_close_route t route) = set_route_state (rt_router t) route Unavailable.
Proof. unfold rt_close_route, rt_put_queue. by repeat case_match. Qed.

Lemma open_route_router t route : rt_router (rt_open_route t route).1 = rt_router t.
Proof. unfold rt_open_route, rt_put_queue. cbv zeta. cbn [fst]. destruct (_ <=? _)%nat; simpl; by repeat case_match. Qed.

(** The table is what the controller needs: every law is a step of its machine. *)
Definition routing_table_routes (Hk : keys_total) : RouteTable (RoutingTable R).
Proof.
  refine {|
    table_policy t := policy (rt_router t);
    table_ok := rt_reachable_by callers res;
    table_packets := packet_step;
    table_set_policy := rt_set_policy;
    table_take_resets := rt_take_resets;
    table_set_route_state := rt_set_route_state;
    table_open_route := rt_open_route;
    table_close_route := rt_close_route
  |}.
  - intros t t' Hr Hs. destruct (rt_reachable_wf callers res t Hk Hr) as [Hw _].
    destruct (packet_step_spec t t' Hk Hw Hs) as [Hstep Hp]. split; [by eapply reachable_step|done].
  - intros t new clock Hr Hnew. destruct (rt_reachable_wf callers res t Hk Hr) as [Hw _].
    pose proof (@set_policy_yields _ _ R _ Empty_set (rt_router t) new clock Hk (proj1 (rtw_front _ Hw)) Hnew) as Hy.
    assert (exists t', @rt_set_policy _ _ R _ Empty_set t new clock = Ok t' /\ policy (rt_router t') = new) as (t' & Ht' & Hp).
    { unfold rt_set_policy. destruct (set_policy (rt_router t) new clock) as [r| |]; [|done..].
      rewrite bind_Ok. eexists. split; [done|]. unfold rt_note_resets. simpl. by destruct (has_resets r); apply Hy. }
    exists t'. split; [done|]. split; [|done]. eapply reachable_step; [done|]. by eapply rts_policy.
  - intros t Hr. split; [eapply reachable_step; [done|apply rts_take_resets]|done].
  - intros t route state Hr Hs _. split; [eapply reachable_step; [done|by apply rts_route_state]|].
    apply set_route_state_policy.
  - intros t route Hr Hge. split; [eapply reachable_step; [done|by apply rts_open]|]. by rewrite open_route_router.
  - intros t route Hr Hge. split; [eapply reachable_step; [done|by apply rts_close]|].
    rewrite close_route_router. apply set_route_state_policy.
Defined.
End Table.

(** ** From the plan to the packets *)

Section Composition.
Context `{!HashOrder} `{!Platform} {R : Type} `{!OwnerResolver R} `{!HostView R} `{!AppFlow R}.
Context `{!Descriptors} {S Hd : Type} `{!RouteSessions S Hd}.

(** The controller over the table, whose owner threads find the app's process. *)
Definition honest_routes (Hk : keys_total) (res : R) : RouteTable (RoutingTable R) :=
  routing_table_routes app_callers res Hk.

End Composition.
