(* ===== verification/AppRoutesWitness.v ===== *)
(** * The route sessions' theorems at work

    The host of [RouterWitness], a directory of two nodes, a plan that routes
    Firefox through one of them, and the controller that follows it: every
    theorem of [RoutePlan], [DatapathSpec], [ControllerRun] and [AppRoutes]
    that has hypotheses is applied where they hold. *)

From S2P Require Import Prelude BTree Net Ip Flow FlowTable Nat AppKey Reset Owner Router RouterInv RouterWorld RouterSpec RouterWitness Datapath DatapathSpec Routes RoutePlan Controller ControllerInv ControllerSpec ControllerRun AppRoutes.
Open Scope Z_scope.

#[local] Existing Instance linux_host.
#[local] Existing Instance default_order.
#[local] Existing Instance sample_resolver.
#[local] Existing Instances sample_host_view sample_app_flow.

(** ** Planning *)

(** A relay or an exit is its identifier, and a directory its nodes. *)
#[local] Instance sample_descriptors : Descriptors := {|
  RelayDescriptorSigned := bytes;
  relay_id r := r;
  relay_endpoint r := mkSocketAddr (V4 [192; 0; 2; 1]) 51820;
  relay_endpoint_v6 _ := None;
  ExitDescriptorSigned := bytes;
  exit_id e := e;
  exit_endpoint e := None;
  VerifyingKey := unit;
  NodeEntry := bytes * bytes * str;
  node_relay n := n.1.1;
  node_exit n := n.1.2;
  node_country n := n.2;
  VerifiedMultiHopDirectory := list (bytes * bytes * str);
  nodes d := d
|}.

Definition swedish_nodes : list (bytes * bytes * str) := [([1], [2], lit "se"); ([3], [4], lit "se")].
Definition sample_inputs : PlanInputs := mkPlanInputs sample_descriptors swedish_nodes false None None [].
Definition single (n : bytes * bytes * str) : MultiHopConfig :=
  @mkMultiHopConfig sample_descriptors n.1.1 n.1.2 tt n.2 (lit "") false false true.

(** The choice is a country; the rules say which of its nodes to prefer. *)
Definition preferred (prefer_last : bool) (inputs : PlanInputs) (choice : str) : option MultiHopConfig :=
  single <$> find_node (fun node => bool_decide (node_country node = choice))
               (if prefer_last then rev (nodes (directory inputs)) else nodes (directory inputs)).

#[local] Instance sample_rules : PlanRules bool (list Z).
Proof.
  refine {|
    admits prefer_last choice node := bool_decide (node_country node = choice);
    select := preferred;
    routes_entry := default_routes_entry
  |}.
Defined.

Definition sample_groups : gmap (list Z) (list str) := {[ lit "se" := [firefox] ]}.

Lemma sample_select (choice : str) :
  preferred false sample_inputs choice = if bool_decide (lit "se" = choice) then Some (single ([1], [2], lit "se")) else None.
Proof.
  change (preferred false sample_inputs choice) with
    (single <$> (if bool_decide (lit "se" = choice) then Some ([1], [2], lit "se")
                 else if bool_decide (lit "se" = choice) then Some ([3], [4], lit "se") else None)).
  by destruct (bool_decide (lit "se" = choice)).
Qed.

Lemma sample_select_last (choice : str) :
  preferred true sample_inputs choice = if bool_decide (lit "se" = choice) then Some (single ([3], [4], lit "se")) else None.
Proof.
  change (preferred true sample_inputs choice) with
    (single <$> (if bool_decide (lit "se" = choice) then Some ([3], [4], lit "se")
                 else if bool_decide (lit "se" = choice) then Some ([1], [2], lit "se") else None)).
  by destruct (bool_decide (lit "se" = choice)).
Qed.

Lemma sample_valid (choice : str) (c : MultiHopConfig) :
  preferred false sample_inputs choice = Some c -> still_valid false sample_inputs c choice = true.
Proof. rewrite sample_select. case_bool_decide as Hc; [|done]. intros [= <-]. subst choice. by vm_compute. Qed.

Lemma planned_circuits_serve_witness :
  let p : Planned (list Z) RoutePlan.Unavailable := plan false sample_groups (Some sample_inputs) ∅ in
  map_Forall (fun choice c => circuit_serves false sample_inputs c choice) (circuits p).
Proof.
  intros p. refine (proj1 (planned_circuits_serve false sample_groups ∅ sample_inputs _)).
  intros choice c Hs. apply still_valid_serves. exact (sample_valid choice c Hs).
Defined.

Lemma replan_stable_witness :
  let p : Planned (list Z) RoutePlan.Unavailable := plan false sample_groups (Some sample_inputs) ∅ in
  plan true sample_groups (Some sample_inputs) (circuits p) = p.
Proof.
  refine (replan_stable false true sample_groups ∅ sample_inputs _ _ _ _).
  - reflexivity.
  - reflexivity.
  - exact sample_valid.
  - intros choice. change (preferred false sample_inputs choice = None -> preferred true sample_inputs choice = None).
    rewrite sample_select, sample_select_last. by destruct (bool_decide _).
Defined.

(** ** The table *)

Definition first_table : RoutingTable SampleResolver := rt_new stale_resolver.
Definition routing_table : RoutingTable SampleResolver :=
  or_else (rt_set_policy first_table sample_policy (secs 1)) first_table.

Lemma routing_table_eq : @rt_set_policy _ _ _ _ Empty_set first_table sample_policy (secs 1) = Ok routing_table.
Proof.
  unfold routing_table. assert (is_ok (@rt_set_policy _ _ _ _ Empty_set first_table sample_policy (secs 1))) as Hok by (by vm_compute).
  by destruct (rt_set_policy _ _ _).
Qed.

Lemma routing_table_reachable callers : rt_reachable_by callers stale_resolver routing_table.
Proof. left. apply rtc_once. eapply rts_policy; [apply sample_policy_wf|apply routing_table_eq]. Qed.

Lemma table_never_panics_witness :
  rt_wf routing_table /\ exists x, @rt_uplink _ _ _ _ Empty_set routing_table sample_udp (secs 2) (secs 2) = Ok x.
Proof.
  destruct (table_never_panics stale_resolver routing_table linux_keys_total (routing_table_reachable _)) as (Hw & Hu & _).
  split; [exact Hw|]. apply Hu. exact sample_udp_bytes.
Defined.

Lemma flags_are_transparent_witness :
  rt_uplink routing_table sample_udp (secs 2) (secs 2) = locked_uplink routing_table sample_udp (secs 2) (secs 2).
Proof.
  exact (proj1 (flags_are_transparent stale_resolver routing_table sample_udp (secs 2) (secs 2) []
    linux_keys_total (routing_table_reachable _))).
Defined.

#[local] Abbreviation table_sent := (@rt_uplink _ _ _ _ Empty_set routing_table sample_udp (secs 2) (secs 2)) (only parsing).

Lemma table_sent_ok : exists t' p' up, table_sent = Ok (t', p', up).
Proof.
  assert (is_ok table_sent) as Hok by (by vm_compute).
  destruct table_sent as [[[t' p'] up]| |]; [by exists t', p', up|done|done].
Qed.

Lemma sample_udp_classified : classify sample_udp Uplink = Ok (Flow sample_udp_flow 0 None).
Proof. reflexivity. Qed.

Lemma table_never_leaks_witness :
  exists t' p' up, table_sent = Ok (t', p', up) /\
    stays (policy (rt_router routing_table)) routing_table t'.
Proof.
  destruct table_sent_ok as (t' & p' & up & Hx). exists t', p', up. split; [exact Hx|].
  destruct (table_never_leaks stale_resolver routing_table linux_keys_total
    (routing_table_reachable _)) as [Hup _].
  exact (proj1 (Hup sample_udp 0 None (secs 2) (secs 2) t' p' up sample_udp_bytes (sample_udp_call _ second_two)
    sample_udp_classified Hx)).
Defined.

(** Route 0 is opened, and opened again. *)
Definition open_table : RoutingTable SampleResolver := (rt_open_route routing_table 0).1.

Lemma open_table_reachable callers : rt_reachable_by callers stale_resolver open_table.
Proof. apply (reachable_step callers _ routing_table); [apply routing_table_reachable|]. by apply rts_open. Qed.

Lemma replaced_queue_gets_nothing_witness :
  exists c', rt_channels (rt_open_route open_table 0).1 !! 0%nat = Some c' /\ ch_sender c' = false /\
    ch_packets c' `suffix_of` [].
Proof.
  exact (replaced_queue_gets_nothing any_caller stale_resolver open_table (rt_open_route open_table 0).1 0 0
    (mkChannel [] true true) linux_keys_total (open_table_reachable _) ltac:(lia) ltac:(by vm_compute)
    ltac:(by vm_compute) (or_introl (rtc_refl _ _))).
Defined.

(** ** The controller *)

(** A session's handle is the slot and the generation it was started with. *)
#[local] Instance sample_sessions : RouteSessions unit (nat * Z) :=
  fun s circuit device line => (s, line).

#[local] Instance sample_table : RouteTable (RoutingTable SampleResolver) :=
  honest_routes linux_keys_total stale_resolver.

Abbreviation Ctl := (RouteController (RoutingTable SampleResolver) unit (nat * Z)) (only parsing).

Definition sample_plan : AppRoutesPlan :=
  mkAppRoutesPlan [mkPlannedRoute (single ([1], [2], lit "se")) [firefox]] [] [].
Definition moved_plan : AppRoutesPlan :=
  mkAppRoutesPlan [mkPlannedRoute (single ([3], [4], lit "se")) [firefox]] [] [].

Lemma sample_plan_ok : plan_ok sample_plan.
Proof. apply NoDup_singleton. Qed.
Lemma moved_plan_ok : plan_ok moved_plan.
Proof. apply NoDup_singleton. Qed.

Definition new_controller : Ctl := controller_new first_table tt sample_main true.
#[local] Abbreviation first_run := (run_start new_controller sample_plan None None (secs 1)) (only parsing).
Definition started_controller : Ctl := or_else first_run new_controller.

(** The session of the route connects. *)
Definition connected_event : Tagged := mkTagged 0 0 (EvConnected sample_route).
#[local] Abbreviation connected_controller := (handle_event started_controller connected_event) (only parsing).

Lemma first_run_eq : run_start new_controller sample_plan None None (secs 1) = Ok started_controller.
Proof.
  unfold started_controller.
  assert (is_ok first_run) as Hok by (by vm_compute). by destruct first_run.
Qed.

Lemma first_table_ok : table_ok first_table.
Proof. left. apply rtc_refl. Qed.

Lemma new_prepared : prepared new_controller.
Proof. apply prepared_new; [apply first_table_ok|apply sample_main_wf]. Qed.

Lemma event_reachable (c : Ctl) tagged : run_reachable c -> turn_ok (BrEvent tagged) -> run_reachable (handle_event c tagged).
Proof. intros Hr Hok. by apply (run_next c (BrEvent tagged) 0). Qed.

Lemma started_reachable : run_reachable started_controller.
Proof.
  exact (run_first new_controller sample_plan None None (secs 1) started_controller new_prepared sample_plan_ok first_run_eq).
Qed.

Lemma connected_reachable : run_reachable connected_controller.
Proof. exact (event_reachable started_controller connected_event started_reachable sample_route_wf). Qed.

Lemma connected_slot : exists s, slots connected_controller !! 0%nat = Some (Some s) /\
  identity s = ([1], [2]) /\ s_session s = Some (0%nat, 0) /\ s_generation s = 0.
Proof.
  assert (match slots connected_controller !! 0%nat with
          | Some (Some s) => bool_decide (identity s = ([1], [2])) && bool_decide (s_session s = Some (0%nat, 0))
              && bool_decide (s_generation s = 0)
          | _ => false end = true) as Hs by (by vm_compute).
  destruct (slots connected_controller !! 0%nat) as [[s|]|]; [|done|done].
  apply andb_true_iff in Hs as [[?%bool_decide_eq_true ?%bool_decide_eq_true]%andb_true_iff ?%bool_decide_eq_true].
  by exists s.
Qed.

Lemma planned_apps_on_their_routes_witness :
  length (occupied (slots connected_controller)) =
    Nat.min (length (p_routes (ctl_plan connected_controller))) (Z.to_nat (capacity connected_controller)).
Proof.
  destruct (planned_apps_on_their_routes connected_controller linux_keys_total connected_reachable) as (_ & _ & _ & Hn & _).
  exact Hn.
Defined.

Lemma apply_keeps_live_sessions_witness :
  exists c', apply connected_controller sample_plan (secs 2) = Ok c' /\
    exists s', slots c' !! 0%nat = Some (Some s') /\ s_session s' = Some (0%nat, 0).
Proof.
  destruct (apply_keeps_live_sessions connected_controller sample_plan (secs 2) linux_keys_total connected_reachable
    sample_plan_ok) as (c' & stops & rest & He & _ & _ & Hkeep & _).
  exists c'. split; [exact He|]. destruct connected_slot as (s & Hs & Hid & Hse & _).
  destruct (Hkeep 0%nat s Hs) as (s' & Hs' & Hon).
  - rewrite Hid. assert (rid <$> take (Z.to_nat (capacity connected_controller)) (live connected_controller sample_plan)
      = [([1], [2])]) as -> by (by vm_compute). by left.
  - exists s'. split; [exact Hs'|]. destruct Hon as (_ & _ & _ & _ & Hh). by apply Hh.
Defined.

Lemma relays_named_before_dial_witness :
  exists c', apply connected_controller moved_plan (secs 2) = Ok c' /\ named connected_controller = [[1]].
Proof.
  destruct (relays_named_before_dial connected_controller moved_plan (secs 2) linux_keys_total connected_reachable
    moved_plan_ok) as (_ & c' & stops & resets & names & starts & rest & He & _).
  exists c'. split; [exact He|by vm_compute].
Defined.

(** The route moves to another circuit, and the first session's last words come late. *)
Definition moved_controller : Ctl := or_else (apply connected_controller moved_plan (secs 2)) connected_controller.

Lemma moved_controller_eq : apply connected_controller moved_plan (secs 2) = Ok moved_controller.
Proof.
  unfold moved_controller. assert (is_ok (apply connected_controller moved_plan (secs 2))) as Hok by (by vm_compute).
  by destruct (apply connected_controller moved_plan (secs 2)).
Qed.

Lemma moved_slot : match slots moved_controller !! 0%nat with Some (Some s) => s_generation s = 1 | _ => False end.
Proof. by vm_compute. Qed.

Lemma replaced_session_is_ignored_witness :
  handle_event moved_controller (mkTagged 0 0 EvConnecting) = moved_controller.
Proof.
  destruct connected_slot as (s & Hs & _ & _ & Hg).
  destruct (replaced_session_is_ignored connected_controller moved_controller 0 s linux_keys_total connected_reachable
    (rtc_once _ _ (turn_branch connected_controller (BrPlan moved_plan) (secs 2) moved_controller moved_plan_ok moved_controller_eq)) Hs)
    as [(s' & Hs' & Hg' & _)|Hev].
  - exfalso. pose proof moved_slot as Hm. rewrite Hs' in Hm. rewrite Hm, Hg in Hg'. discriminate.
  - rewrite <- Hg. apply Hev.
Defined.

Lemma run_ends_blocked_witness :
  exists c', run_loop connected_controller [(BrPlan moved_plan, secs 2); (BrMainExit (Some [2]), secs 3)] = Ok c' /\
    routes (table_policy (table c')) = replicate 256 Router.Unavailable.
Proof.
  destruct (run_ends_blocked connected_controller [(BrPlan moved_plan, secs 2); (BrMainExit (Some [2]), secs 3)]
    linux_keys_total connected_reachable
    ltac:(apply Forall_cons; split; [exact moved_plan_ok|apply Forall_singleton; exact I]))
    as (c1 & c' & _ & He & _ & _ & _ & _ & Hr).
  exists c'. split; [exact He|exact Hr].
Defined.

Lemma connected_plan : ctl_plan connected_controller = sample_plan.
Proof. by vm_compute. Qed.

Lemma firefox_due : due connected_controller firefox 0.
Proof.
  destruct connected_slot as (s & Hs & Hid & _). set (r := mkPlannedRoute (single ([1], [2], lit "se")) [firefox]).
  assert (r ∈ p_routes sample_plan) as Hr by (by left). rewrite <- connected_plan in Hr.
  exact (due_route connected_controller firefox 0 s r Hr ltac:(by left) Hs Hid).
Qed.

#[local] Abbreviation firefox_sent :=
  (@rt_uplink _ _ _ _ Empty_set (table connected_controller) sample_udp (secs 2) (secs 2)) (only parsing).

Lemma firefox_sent_ok : exists t' p' up, firefox_sent = Ok (t', p', up).
Proof.
  assert (is_ok firefox_sent) as Hok by (by vm_compute).
  destruct firefox_sent as [[[t' p'] up]| |]; [by exists t', p', up|done|done].
Qed.

