(* ===== verification/Networks.v ===== *)
(** * IP networks: what the code uses of the [ipnetwork] crate

    An [IpNetwork] is an address with a prefix length; the crate is a parameter,
    a class of its documented operations.  The masks they are specified by are
    computed here, octet by octet. *)

From S2P Require Import Prelude Net.
Open Scope Z_scope.

(** ** Masks *)

(** The octet that keeps the first [n] bits of eight. *)
Definition mask_octet (n : Z) : Z := 256 - 2 ^ (8 - Z.max 0 (Z.min 8 n)).

(** The mask of the first [prefix] bits of [len] octets. *)
Fixpoint mask_octets (len : nat) (prefix : Z) : bytes :=
  match len with
  | O => []
  | S len => mask_octet prefix :: mask_octets len (prefix - 8)
  end.

Definition octet_count (a : IpAddr) : nat := match a with V4 _ => 4 | V6 _ => 16 end%nat.
Definition bit_length (a : IpAddr) : Z := 8 * Z.of_nat (octet_count a).

(** The octets of an address, those of another address of its version. *)
Definition with_octets (a : IpAddr) (o : bytes) : IpAddr := match a with V4 _ => V4 o | V6 _ => V6 o end.

Definition mask_bytes (o mask : bytes) : bytes := zip_with Z.land o mask.

(** The first [prefix] bits of an address, the others cleared. *)
Definition truncated (a : IpAddr) (prefix : Z) : IpAddr :=
  with_octets a (mask_bytes (octets a) (mask_octets (octet_count a) prefix)).

(** ** The interface *)

Class Networks : Type := {
  IpNetwork : Type;
  ip_network_eq_dec :: EqDecision IpNetwork;
  ip_network_inhabited :: Inhabited IpNetwork;
  (** [IpNetwork::new], [None] for an invalid prefix. *)
  net_new : IpAddr -> Z -> option IpNetwork;
  net_ip : IpNetwork -> IpAddr;
  net_prefix : IpNetwork -> Z;
  net_mask : IpNetwork -> IpAddr;
  net_network : IpNetwork -> IpAddr;
  net_contains : IpNetwork -> IpAddr -> bool;
  (** The documentation of the crate. *)
  net_new_valid a p : 0 <= p <= bit_length a -> exists n, net_new a p = Some n /\ net_ip n = a /\ net_prefix n = p;
  net_prefix_valid n : 0 <= net_prefix n <= bit_length (net_ip n);
  net_ext n n' : net_ip n = net_ip n' -> net_prefix n = net_prefix n' -> n = n';
  net_mask_spec n : net_mask n = with_octets (net_ip n) (mask_octets (octet_count (net_ip n)) (net_prefix n));
  net_network_spec n : net_network n = truncated (net_ip n) (net_prefix n);
  net_contains_spec n a : net_contains n a = bool_decide (truncated a (net_prefix n) = truncated (net_ip n) (net_prefix n))
}.

Section Networks.
Context `{!Networks}.

(** [IpNetwork::new(a, p).unwrap()] of a constant, which the compiler evaluates. *)
Definition net_const (a : IpAddr) (p : Z) : IpNetwork := default inhabitant (net_new a p).

Lemma net_const_spec a p :
  0 <= p <= bit_length a -> net_ip (net_const a p) = a /\ net_prefix (net_const a p) = p.
Proof. intros (n & Hn & Hip & Hp)%net_new_valid. unfold net_const. by rewrite Hn. Qed.

(** ** Masks *)

Lemma mask_octet_land m n : Z.land (mask_octet m) (mask_octet n) = mask_octet (Z.min m n).
Proof.
  unfold mask_octet.
  assert (Hall : forall a b, 0 <= a <= 8 -> 0 <= b <= 8 ->
    Z.land (256 - 2 ^ (8 - a)) (256 - 2 ^ (8 - b)) = 256 - 2 ^ (8 - Z.min a b)).
  { intros a b Ha Hb.
    assert (a = 0 \/ a = 1 \/ a = 2 \/ a = 3 \/ a = 4 \/ a = 5 \/ a = 6 \/ a = 7 \/ a = 8) by lia.
    assert (b = 0 \/ b = 1 \/ b = 2 \/ b = 3 \/ b = 4 \/ b = 5 \/ b = 6 \/ b = 7 \/ b = 8) by lia.
    destruct_or!; subst; reflexivity. }
  rewrite Hall by lia. f_equal. f_equal. lia.
Qed.

Lemma length_mask_octets len p : length (mask_octets len p) = len.
Proof. revert p. induction len; intros p; cbn; auto. Qed.

Lemma mask_bytes_twice len o m n :
  mask_bytes (mask_bytes o (mask_octets len m)) (mask_octets len n) = mask_bytes o (mask_octets len (Z.min m n)).
Proof.
  revert o m n. induction len as [|len IH]; intros [|b o] m n; cbn; try done.
  f_equal; [by rewrite <- Z.land_assoc, mask_octet_land|].
  fold (mask_bytes o (mask_octets len (m - 8))).
  fold (mask_bytes (mask_bytes o (mask_octets len (m - 8))) (mask_octets len (n - 8))).
  rewrite IH. unfold mask_bytes. f_equal. f_equal. lia.
Qed.

Lemma octet_count_with a o : octet_count (with_octets a o) = octet_count a.
Proof. by destruct a. Qed.

Lemma truncated_twice a m n : truncated (truncated a m) n = truncated a (Z.min m n).
Proof.
  unfold truncated. rewrite octet_count_with. destruct a; cbn -[mask_octets mask_bytes]; by rewrite mask_bytes_twice.
Qed.

Lemma same_length_family a m b n : truncated a m = truncated b n -> octet_count a = octet_count b.
Proof. by destruct a, b. Qed.

(** *** Containment *)

Lemma contains_iff n a :
  net_contains n a = true <-> truncated a (net_prefix n) = truncated (net_ip n) (net_prefix n).
Proof. by rewrite net_contains_spec, bool_decide_eq_true. Qed.

(** Two networks that share an address: the wider one holds the other's first address. *)
Lemma contains_common n m a :
  net_contains n a = true -> net_contains m a = true -> net_prefix n <= net_prefix m ->
  net_contains n (net_network m) = true.
Proof.
  rewrite !contains_iff, net_network_spec. intros Hn Hm Hle.
  rewrite <- Hm, <- Hn. rewrite truncated_twice. f_equal. lia.
Qed.

Lemma contains_network n : net_contains n (net_network n) = true.
Proof. rewrite contains_iff, net_network_spec, truncated_twice. f_equal. lia. Qed.

End Networks.
