(* ===== verification/Lan.v ===== *)
(** * The local networks shared outside the tunnel

    mullvad-types/src/settings/lan.rs validates the networks a user shares and
    says which networks are shared; the built-in ones are in
    talpid-types/src/net/allowed_nets.rs. *)

From S2P Require Import Prelude Net Networks.
Open Scope Z_scope.

Section Lan.
Context `{!Networks}.

(** [Ipv4Addr::new], [Ipv6Addr::new] *)
Definition v4_addr (a b c d : Z) : IpAddr := V4 [a; b; c; d].
Definition v6_addr (segments : list Z) : IpAddr := V6 (mjoin (be16 <$> segments)).

(** ** The built-in networks (allowed_nets.rs) *)

Definition ALLOWED_LAN_NETS : list IpNetwork :=
  [net_const (v4_addr 10 0 0 0) 8;
   net_const (v4_addr 172 16 0 0) 12;
   net_const (v4_addr 192 168 0 0) 16;
   net_const (v4_addr 169 254 0 0) 16;
   net_const (v6_addr [0xfe80; 0; 0; 0; 0; 0; 0; 0]) 10;
   net_const (v6_addr [0xfc00; 0; 0; 0; 0; 0; 0; 0]) 7].

Definition ALLOWED_LAN_MULTICAST_NETS : list IpNetwork :=
  [net_const (v4_addr 255 255 255 255) 32;
   net_const (v4_addr 224 0 0 0) 24;
   net_const (v4_addr 239 0 0 0) 8;
   net_const (v6_addr [0xff01; 0; 0; 0; 0; 0; 0; 0]) 16;
   net_const (v6_addr [0xff02; 0; 0; 0; 0; 0; 0; 0]) 16;
   net_const (v6_addr [0xff03; 0; 0; 0; 0; 0; 0; 0]) 16;
   net_const (v6_addr [0xff04; 0; 0; 0; 0; 0; 0; 0]) 16;
   net_const (v6_addr [0xff05; 0; 0; 0; 0; 0; 0; 0]) 16].

(** ** The networks a user shares (lan.rs) *)

Definition MIN_IPV4_PREFIX : Z := 8.
Definition MIN_IPV6_PREFIX : Z := 7.
Definition MIN_GLOBAL_UNICAST_IPV6_PREFIX : Z := 16.
Definition MAX_LAN_NETWORKS : Z := 64.

Definition IPV4_TRANSLATION_PREFIXES : list (IpAddr * Z) :=
  [(v6_addr [0x64; 0xff9b; 0; 0; 0; 0; 0; 0], 96);
   (v6_addr [0x64; 0xff9b; 1; 0; 0; 0; 0; 0], 48);
   (v6_addr [0x2002; 0; 0; 0; 0; 0; 0; 0], 16);
   (v6_addr [0x2001; 0; 0; 0; 0; 0; 0; 0], 32);
   (v6_addr [0; 0; 0; 0; 0; 0xffff; 0; 0], 96);
   (v6_addr [0; 0; 0; 0; 0; 0; 0; 0], 96)].

Definition GLOBAL_UNICAST_IPV6 : IpAddr * Z := (v6_addr [0x2000; 0; 0; 0; 0; 0; 0; 0], 3).

Inductive LanNetworkError : Type :=
| TooBroad (n : IpNetwork)
| TranslatesIpv4 (n : IpNetwork)
| TooMany.

Definition overlaps (network : IpNetwork) (prefix : IpAddr * Z) : bool :=
  let other := net_const prefix.1 prefix.2 in
  net_contains network (net_network other) || net_contains other (net_network network).

Definition check_lan_network (network : IpNetwork) : comp LanNetworkError unit :=
  match net_ip network with
  | V4 _ => if net_prefix network <? MIN_IPV4_PREFIX then Err (TooBroad network) else Ok tt
  | V6 _ =>
      if net_prefix network <? MIN_IPV6_PREFIX then Err (TooBroad network)
      else if existsb (overlaps network) IPV4_TRANSLATION_PREFIXES then Err (TranslatesIpv4 network)
      else if overlaps network GLOBAL_UNICAST_IPV6 && (net_prefix network <? MIN_GLOBAL_UNICAST_IPV6_PREFIX)
      then Err (TooBroad network)
      else Ok tt
  end.

(** [IpNetwork::new(network.network(), network.prefix()).unwrap_or(network)] *)
Definition normalized (network : IpNetwork) : IpNetwork :=
  default network (net_new (net_network network) (net_prefix network)).

(** The loop of [validate_lan_networks]. *)
Fixpoint validate_loop (validated networks : list IpNetwork) : comp LanNetworkError (list IpNetwork) :=
  match networks with
  | [] => Ok validated
  | network :: networks =>
      _ ← check_lan_network network;
      let network := normalized network in
      validate_loop (if bool_decide (network ∈ validated) then validated else validated ++ [network]) networks
  end.

Definition validate_lan_networks (networks : list IpNetwork) : comp LanNetworkError (list IpNetwork) :=
  if MAX_LAN_NETWORKS <? zlen networks then Err TooMany else validate_loop [] networks.

(** [Settings::valid_custom_lan_networks], [Settings::lan_networks], of the setting [custom]. *)
Definition valid_custom_lan_networks (custom : option (list IpNetwork)) : option (list IpNetwork) :=
  match custom with
  | Some networks => match validate_lan_networks networks with Ok validated => Some validated | _ => None end
  | None => None
  end.

Definition lan_networks_of (custom : option (list IpNetwork)) : list IpNetwork :=
  default ALLOWED_LAN_NETS (valid_custom_lan_networks custom).

(** ** What a shared network is *)

(** The host bits are clear. *)
Definition host_bits_clear (n : IpNetwork) : Prop := net_network n = net_ip n.

(** The networks of a prefix that share no address with [n]. *)
Definition apart (n : IpNetwork) (prefix : IpAddr * Z) : Prop :=
  forall a, net_contains n a = true -> net_contains (net_const prefix.1 prefix.2) a = true -> False.

(** What may be shared: no wider than the widths allowed, and apart from the prefixes that embed IPv4. *)
Definition shareable (n : IpNetwork) : Prop :=
  match net_ip n with
  | V4 _ => MIN_IPV4_PREFIX <= net_prefix n
  | V6 _ => MIN_IPV6_PREFIX <= net_prefix n /\ Forall (apart n) IPV4_TRANSLATION_PREFIXES /\
            (apart n GLOBAL_UNICAST_IPV6 \/ MIN_GLOBAL_UNICAST_IPV6_PREFIX <= net_prefix n)
  end.

(** Why a network is refused: an IPv6 network no wider than /7 is one that carries IPv4 when it shares
    an address with a prefix that embeds IPv4 addresses; every other one refused is too broad. *)
Definition offends (n : IpNetwork) (e : LanNetworkError) : Prop :=
  match e with
  | TooBroad m => m = n /\
      match net_ip n with
      | V4 _ => net_prefix n < MIN_IPV4_PREFIX
      | V6 _ => net_prefix n < MIN_IPV6_PREFIX \/
          Forall (apart n) IPV4_TRANSLATION_PREFIXES /\ ~ apart n GLOBAL_UNICAST_IPV6 /\
          net_prefix n < MIN_GLOBAL_UNICAST_IPV6_PREFIX
      end
  | TranslatesIpv4 m => m = n /\
      match net_ip n with
      | V4 _ => False
      | V6 _ => MIN_IPV6_PREFIX <= net_prefix n /\ Exists (fun p => ~ apart n p) IPV4_TRANSLATION_PREFIXES
      end
  | TooMany => False
  end.

(** An address of one of the networks. *)
Definition shared (nets : list IpNetwork) (a : IpAddr) : bool := existsb (fun n => net_contains n a) nets.

Lemma overlaps_iff n p : overlaps n p = true <-> ~ apart n p.
Proof.
  unfold overlaps, apart. set (m := net_const p.1 p.2). rewrite orb_true_iff. split.
  - intros [Hc|Hc] Hn; [apply (Hn (net_network m))|apply (Hn (net_network n))]; auto using contains_network.
  - intros Hn. destruct (net_contains n (net_network m)) eqn:H1; [by left|].
    destruct (net_contains m (net_network n)) eqn:H2; [by right|]. destruct Hn. intros a Ha Hb.
    destruct (Z.le_ge_cases (net_prefix n) (net_prefix m)).
    + by rewrite (contains_common n m a) in H1.
    + by rewrite (contains_common m n a) in H2 by done.
Qed.

Lemma overlaps_false n p : overlaps n p = false <-> apart n p.
Proof.
  rewrite <- not_true_iff_false, overlaps_iff. split; [|tauto].
  intros Hn a Ha Hb. apply Hn. intros Hap. by apply (Hap a).
Qed.

Lemma apart_all n ps : existsb (overlaps n) ps = false -> Forall (apart n) ps.
Proof.
  intros He. apply Forall_forall. intros p Hp%list_elem_of_In. apply overlaps_false.
  destruct (overlaps n p) eqn:Ho; [|done]. rewrite <- He. symmetry. apply existsb_exists. eauto.
Qed.

Lemma check_offends n e : check_lan_network n = Err e -> offends n e.
Proof.
  unfold check_lan_network, offends. destruct (net_ip n).
  - destruct (Z.ltb_spec (net_prefix n) MIN_IPV4_PREFIX); [|done]. by intros [= <-].
  - destruct (Z.ltb_spec (net_prefix n) MIN_IPV6_PREFIX); [intros [= <-]; auto|].
    destruct (existsb (overlaps n) IPV4_TRANSLATION_PREFIXES) eqn:He.
    + intros [= <-]. split; [done|]. split; [done|]. apply existsb_exists in He as (p & Hp & Ho%overlaps_iff).
      apply Exists_exists. exists p. split; [by apply list_elem_of_In|done].
    + destruct (overlaps n GLOBAL_UNICAST_IPV6) eqn:Ho; cbn [andb]; [|done]. apply overlaps_iff in Ho.
      destruct (Z.ltb_spec (net_prefix n) MIN_GLOBAL_UNICAST_IPV6_PREFIX); [|done].
      intros [= <-]. split; [done|]. right. split; [by apply apart_all|done].
Qed.

Lemma check_shareable n : check_lan_network n = Ok tt <-> shareable n.
Proof.
  unfold check_lan_network, shareable. destruct (net_ip n).
  - destruct (Z.ltb_spec (net_prefix n) MIN_IPV4_PREFIX); split; try done; lia.
  - destruct (Z.ltb_spec (net_prefix n) MIN_IPV6_PREFIX); [split; [done|lia]|].
    destruct (existsb (overlaps n) IPV4_TRANSLATION_PREFIXES) eqn:He.
    + split; [done|]. intros (_ & Hf & _). apply existsb_exists in He as (p & Hp & Ho%overlaps_iff).
      rewrite Forall_forall in Hf. by destruct Ho; apply Hf, list_elem_of_In.
    + pose proof (apart_all n _ He) as Hf.
      destruct (overlaps n GLOBAL_UNICAST_IPV6) eqn:Ho; cbn [andb].
      * apply overlaps_iff in Ho. destruct (Z.ltb_spec (net_prefix n) MIN_GLOBAL_UNICAST_IPV6_PREFIX).
        -- split; [done|]. intros (_ & _ & [?|?]); [done|lia].
        -- split; [auto|done].
      * apply overlaps_false in Ho. split; auto.
Qed.

Lemma check_no_panic n : no_panic (check_lan_network n).
Proof. unfold check_lan_network. by repeat case_match. Qed.

Lemma normalized_spec n :
  net_ip (normalized n) = net_network n /\ net_prefix (normalized n) = net_prefix n.
Proof.
  unfold normalized. pose proof (net_prefix_valid n) as Hp.
  assert (bit_length (net_network n) = bit_length (net_ip n)) as Hb.
  { rewrite net_network_spec. unfold truncated, bit_length. by rewrite octet_count_with. }
  rewrite <- Hb in Hp. by destruct (net_new_valid (net_network n) (net_prefix n) Hp) as (m & -> & ? & ?).
Qed.

Lemma normalized_contains n a : net_contains (normalized n) a = net_contains n a.
Proof.
  destruct (normalized_spec n) as [Hi Hp]. rewrite !net_contains_spec, Hi, Hp, net_network_spec, truncated_twice.
  by rewrite Z.min_id.
Qed.

Lemma normalized_clear n : host_bits_clear (normalized n).
Proof.
  unfold host_bits_clear. destruct (normalized_spec n) as [Hi Hp].
  rewrite net_network_spec, Hi, Hp, net_network_spec, truncated_twice. by rewrite Z.min_id.
Qed.

Lemma normalized_id n : host_bits_clear n -> normalized n = n.
Proof. intros Hc. destruct (normalized_spec n) as [Hi Hp]. apply net_ext; [|done]. by rewrite Hi. Qed.

Lemma apart_normalized n p : apart n p -> apart (normalized n) p.
Proof. intros Ha a. rewrite normalized_contains. apply Ha. Qed.

Lemma shareable_normalized n : shareable n -> shareable (normalized n).
Proof.
  unfold shareable. destruct (normalized_spec n) as [-> ->]. rewrite net_network_spec.
  unfold truncated. destruct (net_ip n); cbn [with_octets]; [done|].
  intros (? & Hf & Hg). split_and!; [done| |destruct Hg; auto using apart_normalized].
  eapply Forall_impl; [exact Hf|]. auto using apart_normalized.
Qed.

(** ** Validation *)

Definition listed (n : IpNetwork) : Prop := host_bits_clear n /\ shareable n.

Lemma validate_loop_spec networks validated :
  NoDup validated -> Forall listed validated ->
  match validate_loop validated networks with
  | Ok out =>
      Forall shareable networks /\ NoDup out /\ Forall listed out /\
      zlen out <= zlen validated + zlen networks /\
      forall a, shared out a = shared validated a || shared networks a
  | Err e => exists before n after, networks = before ++ n :: after /\ Forall shareable before /\
      check_lan_network n = Err e
  | Panic => False
  end.
Proof.
  revert validated. induction networks as [|n networks IH]; intros validated Hd Hl; cbn [validate_loop].
  - split_and!; try done; [unfold zlen; cbn; lia|]. intros a. by rewrite orb_false_r.
  - destruct (check_lan_network n) as [[]|e|] eqn:Hn.
    + rewrite bind_Ok. apply check_shareable in Hn.
      set (next := if bool_decide _ then _ else _).
      assert (NoDup next /\ Forall listed next /\ zlen next <= zlen validated + 1 /\
        forall a, shared next a = shared validated a || net_contains n a) as (Hd' & Hl' & Hz & Hs).
      { unfold next. case_bool_decide as Hm; split_and!; try done; try lia.
        - intros a. destruct (net_contains n a) eqn:Ha; [|by rewrite orb_false_r].
          rewrite orb_true_r. apply existsb_exists. exists (normalized n). rewrite normalized_contains.
          split; [by apply list_elem_of_In|done].
        - apply NoDup_app. split_and!; [done| |apply NoDup_singleton]. by intros x Hx ->%list_elem_of_singleton.
        - apply Forall_app_2; [done|]. repeat constructor; [apply normalized_clear|by apply shareable_normalized].
        - rewrite zlen_app. unfold zlen. cbn. lia.
        - intros a. unfold shared. rewrite existsb_app. cbn [existsb]. by rewrite normalized_contains, orb_false_r. }
      specialize (IH next Hd' Hl'). destruct (validate_loop next networks) as [out|e|]; [| |done].
      * destruct IH as (? & ? & ? & ? & Ha). split_and!; try done; [by constructor|rewrite zlen_cons; lia|].
        intros a. rewrite Ha, Hs. cbn [shared existsb]. by rewrite orb_assoc.
      * destruct IH as (before & m & after & -> & Hb & He). exists (n :: before), m, after. split_and!; try done.
        by constructor.
    + cbn. exists [], n, networks. split_and!; auto.
    + pose proof (check_no_panic n) as Hp. by rewrite Hn in Hp.
Qed.

Lemma validate_loop_listed validated networks :
  NoDup (validated ++ networks) -> Forall listed networks -> validate_loop validated networks = Ok (validated ++ networks).
Proof.
  revert validated. induction networks as [|n networks IH]; intros validated Hd Hl; cbn [validate_loop].
  - by rewrite app_nil_r.
  - apply Forall_cons in Hl as [[Hc Hs] Hl]. apply check_shareable in Hs. rewrite Hs, bind_Ok, normalized_id by done.
    rewrite bool_decide_eq_false_2.
    + replace (validated ++ n :: networks) with ((validated ++ [n]) ++ networks) in * by (by rewrite <- app_assoc).
      by apply IH.
    + apply NoDup_app in Hd as (_ & Hd & _). intros Hn. apply (Hd n Hn). constructor.
Qed.

(** *** The built-in networks *)

Lemma overlaps_const a p b q :
  0 <= p <= bit_length a -> 0 <= q <= bit_length b ->
  overlaps (net_const a p) (b, q) =
  bool_decide (truncated (truncated b q) p = truncated a p) || bool_decide (truncated (truncated a p) q = truncated b q).
Proof.
  intros [Hi Hp]%net_const_spec [Hi' Hq]%net_const_spec. unfold overlaps. cbn [fst snd].
  by rewrite !net_contains_spec, !net_network_spec, Hi, Hp, Hi', Hq.
Qed.

Lemma listed_const a p :
  0 <= p <= bit_length a -> truncated a p = a ->
  match a with V4 _ => 8 <= p | V6 _ => 7 <= p end ->
  match a with
  | V4 _ => True
  | V6 _ => Forall (fun t => bool_decide (truncated (truncated t.1 t.2) p = truncated a p)
                             || bool_decide (truncated (truncated a p) t.2 = truncated t.1 t.2) = false)
              (GLOBAL_UNICAST_IPV6 :: IPV4_TRANSLATION_PREFIXES)
  end -> listed (net_const a p).
Proof.
  intros Hb Ht Hmin Hf. pose proof (net_const_spec a p Hb) as [Hi Hp]. split.
  - unfold host_bits_clear. by rewrite net_network_spec, Hi, Hp.
  - unfold shareable. rewrite Hi, Hp. destruct a; [done|].
    assert (Forall (apart (net_const (V6 octets) p)) (GLOBAL_UNICAST_IPV6 :: IPV4_TRANSLATION_PREFIXES)) as Ha.
    { rewrite Forall_forall in *. intros [b q] Hq. apply overlaps_false. rewrite overlaps_const; [by apply (Hf (b, q))|done|].
      assert (Forall (fun t => 0 <= t.2 <= bit_length t.1) (GLOBAL_UNICAST_IPV6 :: IPV4_TRANSLATION_PREFIXES)) as Hr
        by (repeat constructor; done).
      rewrite Forall_forall in Hr. by apply (Hr (b, q)). }
    apply Forall_cons in Ha as [? ?]. split_and!; auto.
Qed.

Lemma allowed_nets_listed : Forall listed ALLOWED_LAN_NETS.
Proof.
  repeat constructor; (apply listed_const; [by vm_compute|reflexivity|by vm_compute|]);
    first [done|repeat constructor].
Qed.

(** C22: Validating a user's list of networks to share.  It never panics, and it accepts the list
    exactly when it has at most 64 networks and each is no wider than a /8 (IPv4), a /7 (IPv6) or a /16
    inside global unicast IPv6, and apart from the six IPv6 prefixes that embed IPv4 addresses; the list
    it returns names each network once, with its host bits clear, still as narrow and as far apart, and
    shares the very addresses the user's list names.  Otherwise it reports the first network it refuses
    and for what ([offends]): overlapping such a prefix, or its width.  Validating the result again
    changes nothing, and the networks in force are always such a list. *)
Theorem validated_networks (networks : list IpNetwork) (custom : option (list IpNetwork)) :
  match validate_lan_networks networks with
  | Ok out =>
      zlen networks <= MAX_LAN_NETWORKS /\ Forall shareable networks /\
      NoDup out /\ Forall listed out /\ (forall a, shared out a = shared networks a) /\
      validate_lan_networks out = Ok out
  | Err e =>
      MAX_LAN_NETWORKS < zlen networks /\ e = TooMany \/
      exists before n after, networks = before ++ n :: after /\ Forall shareable before /\
        ~ shareable n /\ offends n e
  | Panic => False
  end /\
  Forall listed (lan_networks_of custom) /\ zlen (lan_networks_of custom) <= MAX_LAN_NETWORKS.
Proof.
  assert (Hv : forall nets,
    match validate_lan_networks nets with
    | Ok out => zlen nets <= MAX_LAN_NETWORKS /\ Forall shareable nets /\ NoDup out /\ Forall listed out /\
        zlen out <= zlen nets /\ forall a, shared out a = shared nets a
    | Err e => MAX_LAN_NETWORKS < zlen nets /\ e = TooMany \/
        exists before n after, nets = before ++ n :: after /\ Forall shareable before /\ check_lan_network n = Err e
    | Panic => False
    end).
  { intros nets. unfold validate_lan_networks. destruct (Z.ltb_spec MAX_LAN_NETWORKS (zlen nets)); [by left|].
    pose proof (validate_loop_spec nets [] (NoDup_nil_2) (Forall_nil_2 _)) as Hs.
    destruct (validate_loop [] nets) as [out|e|]; [|by right|done]. destruct Hs as (? & ? & ? & Hz & ?). by split_and!. }
  split_and!.
  - specialize (Hv networks). destruct (validate_lan_networks networks) as [out|e|]; [| |done].
    + destruct Hv as (? & ? & ? & ? & ? & ?). split_and!; try done. unfold validate_lan_networks.
      destruct (Z.ltb_spec MAX_LAN_NETWORKS (zlen out)); [lia|]. by apply validate_loop_listed.
    + destruct Hv as [?|(before & n & after & ? & ? & Hc)]; [by left|right]. exists before, n, after.
      split_and!; [done|done|by rewrite <- check_shareable, Hc|by apply check_offends].
  - unfold lan_networks_of, valid_custom_lan_networks. destruct custom as [nets|]; [|apply allowed_nets_listed].
    specialize (Hv nets). destruct (validate_lan_networks nets); [by apply Hv|apply allowed_nets_listed..].
  - unfold lan_networks_of, valid_custom_lan_networks. destruct custom as [nets|]; [|by vm_compute].
    specialize (Hv nets). destruct (validate_lan_networks nets); [cbn; lia|by vm_compute..].
Qed.
End Lan.
