(* ===== verification/NetworksModel.v ===== *)
(** * A model of the [ipnetwork] crate

    An address with a valid prefix length: the operations of [Networks] and
    their laws, for the concrete instances of the theorems. *)

From S2P Require Import Prelude Net Networks.
Open Scope Z_scope.

Definition valid_net (n : IpAddr * Z) : Prop := 0 <= n.2 <= bit_length n.1.
#[export] Instance valid_net_dec n : Decision (valid_net n).
Proof. unfold valid_net. apply _. Defined.

Definition model_new (a : IpAddr) (p : Z) : option (dsig valid_net) :=
  match decide (valid_net (a, p)) with left H => Some (dexist (a, p) H) | right _ => None end.

Lemma model_new_valid a p :
  0 <= p <= bit_length a -> exists n, model_new a p = Some n /\ (`n).1 = a /\ (`n).2 = p.
Proof. intros Hp. unfold model_new. destruct (decide (valid_net (a, p))) as [Hv|Hv]; [|by destruct Hv]. by eexists. Qed.

#[export] Instance model_inhabited : Inhabited (dsig valid_net).
Proof. refine (populate (dexist (V4 [0; 0; 0; 0], 0) _)). by split; vm_compute. Defined.

Lemma model_ext (n n' : dsig valid_net) : (`n).1 = (`n').1 -> (`n).2 = (`n').2 -> n = n'.
Proof. intros. apply dsig_eq. by apply injective_projections. Qed.

Lemma model_prefix_valid (n : dsig valid_net) : 0 <= (`n).2 <= bit_length (`n).1.
Proof. apply (proj2_dsig n). Qed.

Definition model_nets : Networks := {|
  IpNetwork := dsig valid_net;
  ip_network_inhabited := model_inhabited;
  net_new := model_new;
  net_ip n := (`n).1;
  net_prefix n := (`n).2;
  net_mask n := with_octets (`n).1 (mask_octets (octet_count (`n).1) (`n).2);
  net_network n := truncated (`n).1 (`n).2;
  net_contains n a := bool_decide (truncated a (`n).2 = truncated (`n).1 (`n).2);
  net_new_valid := model_new_valid;
  net_prefix_valid := model_prefix_valid;
  net_ext := model_ext;
  net_mask_spec n := eq_refl;
  net_network_spec n := eq_refl;
  net_contains_spec n a := eq_refl
|}.

(** The same, opaque: computing with what mentions it does not unfold its operations. *)
Lemma sealed_nets : Networks.
Proof. exact model_nets. Qed.
