(* ===== verification/Tunnel.v ===== *)
(** * The vocabulary of the tunnel state machine

    What talpid-core's state machine handles on Linux: endpoints, firewall
    policies, DNS configurations, transitions, and the parameters of a Warren
    tunnel (talpid-types, talpid-tunnel, talpid-dns,
    talpid-core/src/firewall/mod.rs and
    talpid-core/src/tunnel_state_machine/backend_params.rs). *)

From S2P Require Import Prelude Net Networks Routes.
Open Scope Z_scope.

(** ** Endpoints (talpid-types/src/net/mod.rs) *)

Inductive TransportProtocol : Type := Udp | Tcp.

Record Endpoint : Type := mkEndpoint { address : SocketAddr; protocol : TransportProtocol }.

(** On Unix. *)
Inductive AllowedClients : Type := Root | All.

Record AllowedEndpoint : Type := mkAllowedEndpoint { endpoint : Endpoint; clients : AllowedClients }.

Definition allow_all (c : AllowedClients) : bool := match c with All => true | Root => false end.

Inductive AllowedTunnelTraffic : Type := AttNone | AttAll | AttOne (e : Endpoint) | AttTwo (e e' : Endpoint).

Inductive IpVersion : Type := IPv4 | IPv6.

Inductive IpAvailability : Type := AvIpv4 | AvIpv6 | AvIpv4AndIpv6.
Inductive Connectivity : Type := Offline | PresumeOnline | Online (availability : IpAvailability).

#[export] Instance TransportProtocol_eq_dec : EqDecision TransportProtocol.
Proof. solve_decision. Defined.
#[export] Instance Endpoint_eq_dec : EqDecision Endpoint.
Proof. solve_decision. Defined.
#[export] Instance AllowedClients_eq_dec : EqDecision AllowedClients.
Proof. solve_decision. Defined.
#[export] Instance AllowedEndpoint_eq_dec : EqDecision AllowedEndpoint.
Proof. solve_decision. Defined.

Definition is_offline (c : Connectivity) : bool := match c with Offline => true | _ => false end.

Definition availability_of (c : Connectivity) : option IpAvailability :=
  match c with
  | Online availability => Some availability
  | PresumeOnline => Some AvIpv4
  | Offline => None
  end.
Definition availability_has_ipv4 (a : IpAvailability) : bool := match a with AvIpv4 | AvIpv4AndIpv6 => true | AvIpv6 => false end.
Definition availability_has_ipv6 (a : IpAvailability) : bool := match a with AvIpv6 | AvIpv4AndIpv6 => true | AvIpv4 => false end.
Definition has_ipv4 (c : Connectivity) : bool := default false (availability_has_ipv4 <$> availability_of c).
Definition has_ipv6 (c : Connectivity) : bool := default false (availability_has_ipv6 <$> availability_of c).
Definition has_family (c : Connectivity) (v : IpVersion) : bool := match v with IPv4 => has_ipv4 c | IPv6 => has_ipv6 c end.

(** ** Error causes and transitions (talpid-types/src/tunnel.rs) *)

Inductive ParameterGenerationError : Type :=
| NoMatchingRelayEntry | NoMatchingRelayExit | NoMatchingRelay | NoMatchingBridgeRelay
| CustomTunnelHostResolutionError | IpVersionUnavailable (family : IpVersion)
| PgWarrenPubkeyMismatch (exit_id_hex pinned observed : str).

Inductive FirewallPolicyError : Type := Generic.

Inductive ErrorStateCause : Type :=
| AuthFailed (reason : option str)
| Ipv6Unavailable
| SetFirewallPolicyError (error : FirewallPolicyError)
| SetDnsError
| StartTunnelError
| WarrenTunnelFlapping
| TunnelParameterError (error : ParameterGenerationError)
| IsOffline
| WarrenPubkeyMismatch (exit_id_hex pinned observed : str).

Record TunnelEndpoint : Type := mkTunnelEndpoint {
  te_endpoint : Endpoint;
  entry_endpoint : option Endpoint;
  tunnel_interface : option str;
  daita : bool;
  te_effective_mtu : option Z;
  te_legs_bonded : Z;
  te_legs_not_delivering : Z
}.

Inductive ActionAfterDisconnect : Type := ActNothing | ActBlock | ActReconnect.

Inductive TunnelStateTransition : Type :=
| TrDisconnected (locked_down : bool)
| TrConnecting (endpoint : TunnelEndpoint)
| TrConnected (endpoint : TunnelEndpoint)
| TrDisconnecting (action : ActionAfterDisconnect)
| TrError (cause : ErrorStateCause) (block_failure : option FirewallPolicyError).

(** ** The tunnel (talpid-tunnel/src/lib.rs) *)

Record TunnelMetadata : Type := mkTunnelMetadata {
  interface : str;
  ips : list IpAddr;
  ipv4_gateway : IpAddr;
  ipv6_gateway : option IpAddr;
  daita_active : bool;
  effective_mtu : option Z;
  legs_bonded : Z;
  legs_not_delivering : Z
}.

Definition gateways (m : TunnelMetadata) : list IpAddr :=
  ipv4_gateway m :: match ipv6_gateway m with Some gateway => [gateway] | None => [] end.

Inductive TunnelEvent : Type :=
| EvAuthFailed (reason : option str)
| EvInterfaceUp (metadata : TunnelMetadata) (allowed : AllowedTunnelTraffic)
| EvUp (metadata : TunnelMetadata)
| EvDown
| EvPeerEndpoints (peers : list Endpoint).

(** ** DNS (talpid-dns/src/lib.rs) *)

Inductive InnerDnsConfig : Type := DnsDefault | DnsOverride (tunnel_config non_tunnel_config : list IpAddr).
Record DnsConfig : Type := mkDnsConfig { dns_inner : InnerDnsConfig; dns_allow_external : bool }.
Record ResolvedDnsConfig : Type := mkResolvedDnsConfig {
  tunnel_config : list IpAddr;
  non_tunnel_config : list IpAddr;
  allow_external_dns : bool
}.

#[export] Instance InnerDnsConfig_eq_dec : EqDecision InnerDnsConfig.
Proof. solve_decision. Defined.
#[export] Instance DnsConfig_eq_dec : EqDecision DnsConfig.
Proof. solve_decision. Defined.

Definition resolve (c : DnsConfig) (default_tun_config : list IpAddr) : ResolvedDnsConfig :=
  match dns_inner c with
  | DnsDefault => mkResolvedDnsConfig default_tun_config [] (dns_allow_external c)
  | DnsOverride tunnel non_tunnel => mkResolvedDnsConfig tunnel non_tunnel (dns_allow_external c)
  end.

(** [TUNNEL_GATEWAY_IP] of talpid-warren-tunnel, [10.66.0.1]. *)
Definition TUNNEL_GATEWAY_IP : IpAddr := V4 [10; 66; 0; 1].

Definition allowed_tunnel_dns (c : ResolvedDnsConfig) : list IpAddr :=
  if bool_decide (TUNNEL_GATEWAY_IP ∈ tunnel_config c) then tunnel_config c else tunnel_config c ++ [TUNNEL_GATEWAY_IP].

(** ** Firewall policies (talpid-core/src/firewall/mod.rs) *)

Section Policies.
Context `{!Networks}.

Inductive FirewallPolicy : Type :=
| FwConnecting (peer_endpoints : list AllowedEndpoint) (tunnel : option TunnelMetadata) (allow_lan : bool)
    (lan_networks : list IpNetwork) (allowed_endpoint : AllowedEndpoint) (allowed_tunnel_traffic : AllowedTunnelTraffic)
| FwConnected (peer_endpoints : list AllowedEndpoint) (tunnel : TunnelMetadata) (allow_lan : bool)
    (lan_networks : list IpNetwork) (dns_config : ResolvedDnsConfig)
| FwBlocked (allow_lan : bool) (lan_networks : list IpNetwork) (allowed_endpoint : option AllowedEndpoint).

Definition policy_peer_endpoints (p : FirewallPolicy) : option (list AllowedEndpoint) :=
  match p with
  | FwConnecting peers _ _ _ _ _ | FwConnected peers _ _ _ _ => Some peers
  | FwBlocked _ _ _ => None
  end.

Definition policy_allowed_endpoint (p : FirewallPolicy) : option AllowedEndpoint :=
  match p with
  | FwConnecting _ _ _ _ e _ => Some e
  | FwBlocked _ _ e => e
  | FwConnected _ _ _ _ _ => None
  end.

Definition policy_tunnel (p : FirewallPolicy) : option TunnelMetadata :=
  match p with
  | FwConnecting _ tunnel _ _ _ _ => tunnel
  | FwConnected _ tunnel _ _ _ => Some tunnel
  | FwBlocked _ _ _ => None
  end.

Definition policy_allowed_tunnel_traffic (p : FirewallPolicy) : AllowedTunnelTraffic :=
  match p with
  | FwConnecting _ _ _ _ _ traffic => traffic
  | FwConnected _ _ _ _ _ => AttAll
  | FwBlocked _ _ _ => AttNone
  end.

Definition policy_allow_lan (p : FirewallPolicy) : bool :=
  match p with FwConnecting _ _ lan _ _ _ | FwConnected _ _ lan _ _ | FwBlocked lan _ _ => lan end.

Definition policy_lan_networks (p : FirewallPolicy) : list IpNetwork :=
  match p with FwConnecting _ _ _ nets _ _ | FwConnected _ _ _ nets _ | FwBlocked _ nets _ => nets end.
End Policies.

(** ** Split tunnel modes (talpid-types/src/split_tunnel.rs) *)

Inductive SplitTunnelMode : Type := SplitExclude | SplitIncludeOnly.
#[export] Instance SplitTunnelMode_eq_dec : EqDecision SplitTunnelMode.
Proof. solve_decision. Defined.

(** ** The parameters of a Warren tunnel (backend_params.rs) *)

Section Backend.
Context `{!Descriptors}.

(** What the state machine reads and sets of [WarrenTunnelParameters]; [exit_addrs] is
    [exit_addr.ip_addrs()], and [follows_lan] whether the tunnel follows the LAN networks routed
    outside it. *)
Record WarrenTunnelParameters : Type := mkWarrenTunnelParameters {
  exit_addrs : list SocketAddr;
  multi_hop : option MultiHopConfig;
  enable_daita : bool;
  include_only_routes : bool;
  follows_lan : bool
}.

Record WarrenBackendInfo : Type := mkWarrenBackendInfo {
  exit_candidates : list SocketAddr;
  bi_relay_endpoint : option SocketAddr;
  bi_relay_endpoint_v6 : option SocketAddr;
  bi_exit_endpoint : option SocketAddr;
  bi_enable_daita : bool;
  bi_single_node : bool
}.

Definition from_params (p : WarrenTunnelParameters) : WarrenBackendInfo :=
  let '(relay_ep, relay_ep_v6, exit_ep) :=
    match multi_hop p with
    | Some mh => (Some (relay_endpoint (relay mh)), relay_endpoint_v6 (relay mh), exit_endpoint (Routes.exit mh))
    | None => (None, None, None)
    end in
  mkWarrenBackendInfo (exit_addrs p) relay_ep relay_ep_v6 exit_ep (enable_daita p)
    (match multi_hop p with Some mh => single_node mh | None => false end).
End Backend.

(** [BackendParams] has one variant. *)
Abbreviation BackendParams := WarrenBackendInfo (only parsing).

Definition carriers (addr : SocketAddr) : list Endpoint := [mkEndpoint addr Udp; mkEndpoint addr Tcp].

Definition get_next_hop_endpoints (info : BackendParams) : list Endpoint :=
  match bi_relay_endpoint info with
  | Some relay => concat (carriers <$> relay :: match bi_relay_endpoint_v6 info with Some a => [a] | None => [] end)
  | None => concat (carriers <$> exit_candidates info)
  end.

Definition is_multi_hop (info : BackendParams) : bool :=
  match bi_relay_endpoint info with Some _ => true | None => false end.

Definition unspecified : SocketAddr := mkSocketAddr (V4 [0; 0; 0; 0]) 0.

Definition warren_tunnel_endpoint (info : WarrenBackendInfo) : TunnelEndpoint :=
  let published addr entry := mkTunnelEndpoint (mkEndpoint addr Udp) entry None (bi_enable_daita info) None 0 0 in
  if bi_single_node info then
    published (default (default unspecified (head (exit_candidates info))) (bi_relay_endpoint info)) None
  else
    match bi_exit_endpoint info, bi_relay_endpoint info with
    | Some exit_ep, Some relay_ep => published exit_ep (Some (mkEndpoint relay_ep Udp))
    | None, Some relay_ep => published unspecified (Some (mkEndpoint relay_ep Udp))
    | _, None => published (default unspecified (head (exit_candidates info))) None
    end.

Definition get_tunnel_endpoint (info : BackendParams) : TunnelEndpoint := warren_tunnel_endpoint info.

Definition relay_peers (endpoints : list Endpoint) : list AllowedEndpoint :=
  (fun e => mkAllowedEndpoint e Root) <$> endpoints.

(** [connected_state::connected_tunnel_endpoint] *)
Definition connected_tunnel_endpoint (params : BackendParams) (metadata : TunnelMetadata) : TunnelEndpoint :=
  let e := get_tunnel_endpoint params in
  mkTunnelEndpoint (te_endpoint e) (entry_endpoint e) (Some (interface metadata)) (daita_active metadata)
    (effective_mtu metadata) (legs_bonded metadata) (legs_not_delivering metadata).
