(* ===== verification/Refusals.v ===== *)
(** * Exit refusals, the pace of the dials, and the flap detector

    talpid-core/src/tunnel_state_machine/exit_refusal.rs decides whether an
    exit that refuses the session is worth waiting for; connecting_state.rs
    paces a failed lap and counts the laps of a tunnel that flaps.  What a
    failed lap reports comes from tunnel_monitor.rs and talpid-warren-tunnel. *)

From S2P Require Import Prelude Net Networks Routes Tunnel.
Open Scope Z_scope.

(** ** The errors of a lap (talpid-warren-tunnel/src/lib.rs, tunnel_monitor.rs) *)

Record Refusal : Type := mkRefusal {
  reason : str;
  if_active : option str;
  retry_while_unverified : bool
}.

Inductive WarrenError : Type :=
| Handshake (e : str)
| TunSetup (e : str)
| BackendTransient (e : str)
| SessionRejected (refusal : Refusal)
| BackendFatal (e : str)
| NoCircuit.

Inductive MonitorError : Type :=
| EnableIpv6
| UnsupportedPlatform
| RotateLogError
| WarrenTunnelMonitoring (e : WarrenError).

Definition warren_is_recoverable (e : WarrenError) : bool :=
  match e with Handshake _ | BackendTransient _ | SessionRejected _ => true | _ => false end.

Definition session_rejection (e : WarrenError) : option Refusal :=
  match e with SessionRejected refusal => Some refusal | _ => None end.

Definition is_recoverable (e : MonitorError) : bool :=
  match e with WarrenTunnelMonitoring e => warren_is_recoverable e | _ => false end.

Definition warren_session_rejection (e : MonitorError) : option Refusal :=
  match e with WarrenTunnelMonitoring e => session_rejection e | _ => None end.

(** [From<Error> for ErrorStateCause] *)
Definition cause_of_error (e : MonitorError) : ErrorStateCause :=
  match e with
  | EnableIpv6 => Ipv6Unavailable
  | WarrenTunnelMonitoring (BackendFatal reason) => AuthFailed (Some reason)
  | _ => StartTunnelError
  end.

(** ** The refusal run (exit_refusal.rs) *)

Inductive SubscriptionStatus : Type := Active | Inactive | Unknown.

Definition UNVERIFIED_PATIENCE : Z := secs 45.
Definition STATUS_TTL : Z := secs 15.
Definition CONFIRMED_TRANSIENT_FLOOR : Z := 500000000.

(** Whether the API confirmed that the refusal clears. *)
Record LapPacing : Type := mkLapPacing { confirmed_transient : bool }.
Definition ANTI_SPIN : LapPacing := mkLapPacing false.
Definition CONFIRMED : LapPacing := mkLapPacing true.

Definition floor (pacing : LapPacing) (def : Z) : Z :=
  if confirmed_transient pacing then CONFIRMED_TRANSIENT_FLOOR else def.

Record Run : Type := mkRun {
  started : Z;
  run_refusal : Refusal;
  answer : option (SubscriptionStatus * Z)
}.

(** The run in progress. *)
Abbreviation Refusals := (option Run) (only parsing).

Definition note_attempt (r : Refusals) (rejection : option Refusal) (now : Z) : Refusals :=
  match rejection, r with
  | Some refusal, Some run => Some (mkRun (started run) refusal (answer run))
  | Some refusal, None => Some (mkRun now refusal None)
  | None, _ => None
  end.

(** An answer that may still be used. *)
Definition fresh (a : option (SubscriptionStatus * Z)) (now : Z) : option SubscriptionStatus :=
  '(status, at_) ← a; if saturating_duration_since now at_ <? STATUS_TTL then Some status else None.

Definition pending (r : Refusals) (now : Z) : option (option SubscriptionStatus) :=
  run ← r; Some (fresh (answer run) now).

Definition record_answer (r : Refusals) (status : SubscriptionStatus) (now : Z) : Refusals :=
  (fun run => mkRun (started run) (run_refusal run) (Some (status, now))) <$> r.

Inductive Verdict : Type := Retry | Surface | SurfaceWhileActive.

Definition verdict (status : SubscriptionStatus) (refusing_for : Z)
    (explained_while_active retry_unverified : bool) : Verdict :=
  match status with
  | Active => if explained_while_active && (UNVERIFIED_PATIENCE <=? refusing_for) then SurfaceWhileActive else Retry
  | Inactive => Surface
  | Unknown => if retry_unverified then Retry else if UNVERIFIED_PATIENCE <=? refusing_for then Surface else Retry
  end.

Definition decide_refusal (r : Refusals) (status : SubscriptionStatus) (now : Z)
    : option ErrorStateCause * Refusals :=
  match r with
  | None => (None, r)
  | Some run =>
      let refusal := run_refusal run in
      match verdict status (saturating_duration_since now (started run))
              (match if_active refusal with Some _ => true | None => false end) (retry_while_unverified refusal) with
      | Retry => (None, r)
      | Surface => (Some (AuthFailed (Some (reason refusal))), None)
      | SurfaceWhileActive =>
          (Some (AuthFailed (match if_active refusal with Some m => Some m | None => Some (reason refusal) end)), None)
      end
  end.

Definition pacing (r : Refusals) (now : Z) : LapPacing :=
  match run ← r; answer run with
  | Some (Active, at_) => if saturating_duration_since now at_ <? STATUS_TTL then CONFIRMED else ANTI_SPIN
  | _ => ANTI_SPIN
  end.

Definition forget (r : Refusals) : Refusals := None.

Definition run_is_open (r : Refusals) : bool := match r with Some _ => true | None => false end.

(** [block_reason_before_dialing], [asked] being what the API answers when it is asked: the state
    to park on, the run, and whether it was asked. *)
Definition block_reason_before_dialing (r : Refusals) (now : Z) (asked : SubscriptionStatus)
    : option ErrorStateCause * Refusals * bool :=
  match pending r now with
  | None => (None, r, false)
  | Some (Some status) => (decide_refusal r status now, false)
  | Some None => (decide_refusal (record_answer r asked now) asked now, true)
  end.

(** ** The pace of the laps (connecting_state.rs) *)

Definition MIN_TUNNEL_ALIVE_TIME : Z := 1000000000.
Definition FAST_RETRY_ATTEMPTS : Z := 4.
Definition MAX_RECONNECT_FLOOR : Z := secs 10.

Definition U32_MAX : Z := 4294967295.
(** [Duration::MAX] *)
Definition DURATION_MAX : Z := secs 18446744073709551615 + 999999999.

(** [1u32.checked_shl(d)] *)
Definition one_shl (d : Z) : option Z := if d <? 32 then Some (Z.shiftl 1 d) else None.

Definition reconnect_floor (retry_attempt : Z) (p : LapPacing) : Z :=
  let doublings := Z.max 0 (retry_attempt - (FAST_RETRY_ATTEMPTS - 1)) in
  let factor := default U32_MAX (one_shl doublings) in
  Z.min (Z.min DURATION_MAX (floor p MIN_TUNNEL_ALIVE_TIME * factor)) MAX_RECONNECT_FLOOR.

(** ** The flap detector (connecting_state.rs) *)

Definition FLAP_MAX : Z := 6.
Definition FLAP_WINDOW : Z := secs 25.

(** The laps still in the window. *)
Definition recent (now : Z) (laps : list Z) : list Z :=
  filter (fun t => saturating_duration_since now t < FLAP_WINDOW) laps.

Definition note_reconnect_and_is_flapping (laps : list Z) (now : Z) : bool * list Z :=
  let laps := recent now laps ++ [now] in
  (FLAP_MAX <? zlen laps, laps).

(** ** A lap of the tunnel thread *)

(** [should_retry] looks at the error alone except on Windows. *)
Definition should_retry (e : MonitorError) : bool := is_recoverable e.

(** How the monitor of a lap ended. *)
Inductive LapOutcome : Type :=
| Stopped (result : option MonitorError)
| FailedToStart (e : MonitorError).

(** The refusals, once the lap is noted, and the block reason it sends: the body of
    [start_tunnel_warren]'s thread and [wait_for_tunnel_monitor]. *)
Definition lap_end (r : Refusals) (outcome : LapOutcome) (now : Z) : option ErrorStateCause * Refusals :=
  match outcome with
  | Stopped None => (None, r)
  | Stopped (Some e) =>
      if negb (should_retry e) then (Some StartTunnelError, r)
      else (None, note_attempt r (warren_session_rejection e) now)
  | FailedToStart e =>
      if should_retry e then (None, note_attempt r (warren_session_rejection e) now)
      else (Some (cause_of_error e), r)
  end.

(** When the thread of a lap started at [start] and ended at [now] sends its block reason. *)
Definition lap_release (r : Refusals) (block_reason : option ErrorStateCause) (retry_attempt start now : Z) : Z :=
  match block_reason with
  | None => Z.max now (start + reconnect_floor retry_attempt (pacing r now))
  | Some _ => now
  end.

(** ** The refusal policy *)

(** The answer a dial is judged by: the API's last one while it is fresh, what it answers now else. *)
Definition judged_by (run : Run) (now : Z) (asked : SubscriptionStatus) : SubscriptionStatus :=
  default asked (fresh (answer run) now).

(** What a run of refusals is surfaced as, its dial judged by [status]. *)
Definition surfaced (run : Run) (now : Z) (status : SubscriptionStatus) : option str :=
  let patient := UNVERIFIED_PATIENCE <=? saturating_duration_since now (started run) in
  match status with
  | Active => if patient then if_active (run_refusal run) else None
  | Inactive => Some (reason (run_refusal run))
  | Unknown => if patient && negb (retry_while_unverified (run_refusal run)) then Some (reason (run_refusal run)) else None
  end.

Lemma decide_refusal_surfaced run status now :
  decide_refusal (Some run) status now =
    match surfaced run now status with
    | Some message => (Some (AuthFailed (Some message)), None)
    | None => (None, Some run)
    end.
Proof.
  unfold decide_refusal, surfaced, verdict.
  destruct (UNVERIFIED_PATIENCE <=? _), status, (retry_while_unverified (run_refusal run)), (if_active (run_refusal run)) eqn:Ha;
    try done; simpl; by rewrite ?Ha.
Qed.

(** What a refusal run leads to before a dial: the block reason, the run afterwards, and whether
    the API was asked. *)
Definition judged (run : Run) (now : Z) (asked : SubscriptionStatus) : option ErrorStateCause * Refusals * bool :=
  let was_asked := match fresh (answer run) now with Some _ => false | None => true end in
  match surfaced run now (judged_by run now asked) with
  | Some message => (Some (AuthFailed (Some message)), None, was_asked)
  | None => (None, Some (if was_asked then mkRun (started run) (run_refusal run) (Some (asked, now)) else run), was_asked)
  end.

Lemma block_judged (run : Run) (now : Z) (asked : SubscriptionStatus) :
  block_reason_before_dialing (Some run) now asked = judged run now asked.
Proof.
  unfold block_reason_before_dialing, judged, judged_by. cbn [pending mbind option_bind].
  destruct (fresh (answer run) now) as [status|]; cbn [default from_option].
  - unfold id. rewrite decide_refusal_surfaced. by destruct (surfaced run now status).
  - cbn [record_answer fmap option_fmap option_map]. rewrite decide_refusal_surfaced.
    unfold surfaced. cbn [run_refusal started]. by case_match.
Qed.

(** An exit's refusal is surfaced exactly when nothing can clear it: the account API says there
    is no subscription, or it has not answered for the 45 s of patience and the refusal does not
    wait on that answer; under an active subscription the refusal is never surfaced as its own
    reason, only as what it means then, and only after the patience.  A surfaced refusal ends the
    run; a dial goes on with the run as it was, the API's answer recorded when it was asked, which
    is when no answer of the last 15 s was in hand. *)
Theorem refusal_judged (run : Run) (now : Z) (asked : SubscriptionStatus) :
  block_reason_before_dialing None now asked = (None, None, false) /\
  block_reason_before_dialing (Some run) now asked = judged run now asked.
Proof. split; [done|apply block_judged]. Qed.

(** A run of laps refused one after the other, each noted, then judged before the next dial: the
    times the API is asked, until the refusal is surfaced. *)
Fixpoint asks (r : option Run) (laps : list (Refusal * Z * Z * SubscriptionStatus)) : list Z :=
  match laps with
  | [] => []
  | (refusal, noted, dialed, status) :: laps =>
      let '(cause, r, asked) := block_reason_before_dialing (note_attempt r (Some refusal) noted) dialed status in
      (if asked : bool then [dialed] else []) ++ match cause with Some _ => [] | None => asks r laps end
  end.

Definition dialed (lap : Refusal * Z * Z * SubscriptionStatus) : Z := lap.1.2.

(** The API was last asked at [t]. *)
Definition asked_at (r : option Run) (t : Z) : Prop :=
  exists run status, r = Some run /\ answer run = Some (status, t).

Lemma asks_after laps : forall r t,
  asked_at r t -> Sorted Z.le (t :: (dialed <$> laps)) ->
  Sorted (fun a b => a + STATUS_TTL <= b) (t :: asks r laps).
Proof.
  induction laps as [|[[[refusal noted] d] status] laps IH]; intros r t Hr Hs; [repeat constructor|].
  destruct Hr as (run & st & -> & Hans).
  cbn [fmap list_fmap] in Hs. change (dialed (refusal, noted, d, status)) with d in Hs.
  cbn [asks note_attempt].
  rewrite (block_judged (mkRun (started run) refusal (answer run))). unfold judged.
  cbn [answer started run_refusal]. rewrite Hans. unfold fresh. cbn [mbind option_bind].
  apply Sorted_inv in Hs as [Hs Ht]. apply HdRel_inv in Ht.
  destruct (Z.ltb_spec (saturating_duration_since d t) STATUS_TTL) as [Hf|Hf]; cbn zeta iota;
    (match goal with |- context [surfaced ?r ?n ?st] => destruct (surfaced r n st) end); cbn [app].
  - repeat constructor.
  - apply IH; [by exists (mkRun (started run) refusal (Some (st, t))), st|].
    apply Sorted_inv in Hs as [Hs Hd]. constructor; [done|].
    destruct laps as [|l laps]; constructor. cbn [fmap list_fmap] in Hd. apply HdRel_inv in Hd. lia.
  - repeat constructor. unfold saturating_duration_since in Hf. lia.
  - constructor; [apply IH; [by eexists _, _|done]|]. constructor.
    unfold saturating_duration_since, STATUS_TTL, secs in *. lia.
Qed.

(** However long an exit goes on refusing, the account API is asked at most once per 15 s. *)
Theorem api_asked_sparsely (laps : list (Refusal * Z * Z * SubscriptionStatus)) :
  Sorted Z.le (dialed <$> laps) -> Sorted (fun a b => a + STATUS_TTL <= b) (asks None laps).
Proof.
  destruct laps as [|[[[refusal noted] d] status] laps]; intros Hs; [constructor|].
  cbn [asks note_attempt]. rewrite (block_judged (mkRun noted refusal None)). unfold judged.
  cbn [fmap list_fmap] in Hs. change (dialed (refusal, noted, d, status)) with d in Hs.
  cbn [answer fresh mbind option_bind]. cbn zeta iota.
  match goal with |- context [surfaced ?r ?n ?st] => destruct (surfaced r n st) end;
    cbn [app]; [repeat constructor|]. apply asks_after; [by eexists _, _|done].
Qed.

(** ** The pace of the dials *)

(** A lap that failed takes at least half a second and at most ten to come back, a full second
    unless the API has confirmed that the refusal clears; the first four attempts come back at that
    pace, and an attempt never comes back sooner than the one before. *)
Theorem reconnect_floor_bounds (attempt : Z) (p : LapPacing) :
  0 <= attempt ->
  CONFIRMED_TRANSIENT_FLOOR <= reconnect_floor attempt p <= MAX_RECONNECT_FLOOR /\
  floor p MIN_TUNNEL_ALIVE_TIME <= reconnect_floor attempt p /\
  (attempt < FAST_RETRY_ATTEMPTS -> reconnect_floor attempt p = floor p MIN_TUNNEL_ALIVE_TIME) /\
  reconnect_floor attempt p <= reconnect_floor (attempt + 1) p /\
  (8 <= attempt -> reconnect_floor attempt p = MAX_RECONNECT_FLOOR).
Proof.
  intros Ha. unfold reconnect_floor. set (d := Z.max 0 (attempt - (FAST_RETRY_ATTEMPTS - 1))).
  set (d' := Z.max 0 (attempt + 1 - (FAST_RETRY_ATTEMPTS - 1))).
  assert (Hfloor : 500000000 <= floor p MIN_TUNNEL_ALIVE_TIME <= 1000000000).
  { unfold floor, CONFIRMED_TRANSIENT_FLOOR, MIN_TUNNEL_ALIVE_TIME. destruct (confirmed_transient p); lia. }
  assert (Hfactor : forall e, 0 <= e -> 2 ^ Z.min e 31 <= default U32_MAX (one_shl e) <= U32_MAX).
  { intros e He. unfold one_shl, U32_MAX. destruct (Z.ltb_spec e 32); cbn.
    - rewrite Z.shiftl_1_l. rewrite Z.min_l by lia. split; [done|].
      transitivity (2 ^ 31); [apply Z.pow_le_mono_r; lia|lia].
    - rewrite Z.min_r by lia. lia. }
  assert (Hd : 0 <= d <= d') by (unfold d, d'; lia).
  assert (Hmono : default U32_MAX (one_shl d) <= default U32_MAX (one_shl d')).
  { unfold one_shl, U32_MAX. destruct (Z.ltb_spec d 32), (Z.ltb_spec d' 32); cbn; try lia.
    - rewrite !Z.shiftl_1_l. apply Z.pow_le_mono_r; lia.
    - rewrite Z.shiftl_1_l. transitivity (2 ^ 31); [apply Z.pow_le_mono_r; lia|lia]. }
  pose proof (Hfactor d ltac:(lia)) as Hf.
  assert (1 <= 2 ^ Z.min d 31) by (pose proof (Z.pow_pos_nonneg 2 (Z.min d 31)); lia).
  unfold DURATION_MAX, MAX_RECONNECT_FLOOR, CONFIRMED_TRANSIENT_FLOOR, secs, U32_MAX in *.
  set (b := floor p MIN_TUNNEL_ALIVE_TIME) in *.
  set (f := default 4294967295 (one_shl d)) in *. set (f' := default 4294967295 (one_shl d')) in *.
  assert (b <= b * f) by nia. assert (b * f <= b * f') by nia.
  repeat split; try lia.
  - intros Hfast. unfold FAST_RETRY_ATTEMPTS in *. assert (d = 0) as Hd0 by (unfold d; lia).
    assert (f = 1) as Hf1 by (unfold f; by rewrite Hd0). rewrite Hf1. lia.
  - intros Hslow. unfold FAST_RETRY_ATTEMPTS in *.
    assert (2 ^ 5 <= 2 ^ Z.min d 31) by (apply Z.pow_le_mono_r; unfold d; lia). nia.
Qed.

(** ** The flap detector *)

(** The detector, over the laps since it was last cleared. *)
Definition noted (ts : list Z) : list Z := foldl (fun laps t => (note_reconnect_and_is_flapping laps t).2) [] ts.

Lemma recent_recent t t' laps :
  Forall (fun u => u <= t) laps -> t <= t' -> recent t' (recent t laps) = recent t' laps.
Proof.
  intros Hl Ht. unfold recent. rewrite list_filter_filter_l; [done|].
  intros u Hu. unfold saturating_duration_since in *. lia.
Qed.

Lemma noted_recent ts t :
  Sorted Z.le (ts ++ [t]) -> recent t (noted ts) = recent t ts /\ Forall (fun u => u <= t) ts.
Proof.
  revert t. induction ts as [|u ts IH] using rev_ind; intros t Hs; [done|].
  apply (Sorted_StronglySorted Z.le) in Hs.
  assert (Hut : u <= t).
  { eapply StronglySorted_app_1_elem_of; [exact Hs|set_solver..]. }
  assert (Hs' : Sorted Z.le (ts ++ [u])).
  { apply StronglySorted_Sorted. by apply StronglySorted_app_1_l in Hs. }
  destruct (IH u Hs') as [Hn Hf].
  unfold noted. rewrite foldl_snoc. fold (noted ts). cbn [note_reconnect_and_is_flapping snd].
  split.
  - unfold recent at 1. rewrite filter_app. fold (recent t (recent u (noted ts))). rewrite Hn.
    rewrite recent_recent by done. unfold recent. by rewrite filter_app.
  - apply Forall_app. split; [|by repeat constructor]. eapply Forall_impl; [exact Hf|]. cbn. lia.
Qed.

(** The detector says the tunnel flaps exactly when, with this one, more than six laps ended
    within the last 25 s. *)
Theorem flapping_exactly (ts : list Z) (t : Z) :
  Sorted Z.le (ts ++ [t]) ->
  (note_reconnect_and_is_flapping (noted ts) t).1 = (FLAP_MAX <? zlen (recent t (ts ++ [t]))).
Proof.
  intros Hs. cbn. destruct (noted_recent ts t Hs) as [-> _].
  unfold recent at 2. rewrite filter_app. fold (recent t ts).
  rewrite filter_cons_True; [done|]. unfold saturating_duration_since, FLAP_WINDOW, secs. lia.
Qed.
