(* ===== verification/TunnelMachine.v ===== *)
(** * The tunnel state machine (talpid-core/src/tunnel_state_machine, on Linux)

    The machine holds the firewall, the DNS and the routes of the host, and one
    of five states: disconnected (disconnected_state.rs), connecting
    (connecting_state.rs), connected (connected_state.rs), disconnecting
    (disconnecting_state.rs) and error (error_state.rs).  Its loop (mod.rs) waits
    for what the state waits for, a command, an event of the tunnel, the end of
    the tunnel's thread or a deadline, and hands it to the state.

    A handler runs in [TM], over what the states share and the log of what has
    been done to the system; the system's answers, its clock included, are
    functions of that log ([World]). *)

From S2P Require Import Prelude Net Networks Routes Tunnel Refusals.
Open Scope Z_scope.

(** ** Commands, and what the machine waits for (mod.rs) *)

Inductive LockdownMode : Type := Disabled | Enabled (persist : bool).

Definition lockdown_bool (m : LockdownMode) : bool := match m with Enabled _ => true | Disabled => false end.
(** Off Windows. *)
Definition should_persist (m : LockdownMode) : bool := true.
(** [PartialEq for LockdownMode] *)
Definition lockdown_eqb (a b : LockdownMode) : bool := eqb (lockdown_bool a) (lockdown_bool b).

Definition enforceable_mode (requested : SplitTunnelMode) (can_include : bool) : SplitTunnelMode :=
  if bool_decide (requested = SplitIncludeOnly) && negb can_include then SplitExclude else requested.

Inductive AfterDisconnect : Type := AdNothing | AdBlock (cause : ErrorStateCause) | AdReconnect (retry_attempt : Z).

Definition action (a : AfterDisconnect) : ActionAfterDisconnect :=
  match a with AdNothing => ActNothing | AdBlock _ => ActBlock | AdReconnect _ => ActReconnect end.

Inductive GraceAction : Type := GraceArm | GraceHold | GraceCancel | GraceBlock.

Definition grace_action (is_multi_hop grace_armed is_offline : bool) : GraceAction :=
  match is_offline, is_multi_hop, grace_armed with
  | false, _, _ => GraceCancel
  | true, false, _ => GraceBlock
  | true, true, false => GraceArm
  | true, true, true => GraceHold
  end.

Definition OFFLINE_GRACE : Z := secs 15.

Definition reconnects_on_connectivity (block_reason : ErrorStateCause) (c : Connectivity) : bool :=
  if is_offline c then false
  else match block_reason with
       | IsOffline => has_ipv4 c
       | TunnelParameterError (IpVersionUnavailable family) => has_family c family
       | _ => false
       end.

(** A retry counter, a [u32]. *)
Definition next_attempt (retry_attempt : Z) : Z := wrap32 (retry_attempt + 1).

Section Machine.
Context `{!Networks, !Descriptors}.

Inductive TunnelCommand : Type :=
| CmdAllowLan (allow_lan : bool) (lan_networks : list IpNetwork)
| CmdAllowEndpoint (endpoint : AllowedEndpoint)
| CmdDns (servers : DnsConfig)
| CmdLockdownMode (mode : LockdownMode)
| CmdTailnetInterfacesChanged
| CmdConnectivity (connectivity : Connectivity)
| CmdConnect
| CmdDisconnect
| CmdBlock (reason : ErrorStateCause)
| CmdSetSplitApps (mode : SplitTunnelMode).

(** [None] is the end of a channel; a cancelled close event is [Close None]. *)
Inductive EventResult : Type :=
| Command (command : option TunnelCommand)
| Event (event : option TunnelEvent)
| Close (result : option (option ErrorStateCause))
| OfflineGraceExpired.

(** ** What is done to the system, and its answers *)

(** An operation on the kernel's tables may fail before it changed them, or after. *)
Inductive Outcome : Type := Done | FailedBefore | FailedAfter.

Inductive Effect : Type :=
| FxApply (include_only : bool) (policy : FirewallPolicy) (outcome : Outcome)
| FxReset (outcome : Outcome)
| FxDnsSet (interface : str) (config : ResolvedDnsConfig) (ok : bool)
| FxDnsReset
| FxDnsResetBeforeRemoval
| FxClearRoutes
| FxForceRouteCleanup
| FxClearRoutingRules
| FxCheckDisabled (was_enabled : option bool)
| FxCheckEnabled
| FxAsked (status : SubscriptionStatus)
| FxGenerated (retry_attempt : Z)
| FxStartTunnel (parameters : WarrenTunnelParameters) (retry_attempt : Z)
| FxCloseTunnel
| FxLapEnded (outcome : LapOutcome)
| FxWoken (result : EventResult)
| FxPublished (transition : TunnelStateTransition) (heard : bool)
| FxRouteManagerStopped.

(** The most recent first. *)
Abbreviation Log := (list Effect) (only parsing).

Class World : Type := {
  clock : Log -> Z;
  can_include : bool;
  applying : Log -> bool -> FirewallPolicy -> Outcome;
  resetting : Log -> Outcome;
  dns_setting : Log -> str -> ResolvedDnsConfig -> bool;
  (** [NetworkManager::new()], and the answer of [disable_connectivity_check]. *)
  network_manager : Log -> option (option bool);
  generate_warren_tunnel_params : Log -> Z -> ParameterGenerationError + WarrenTunnelParameters;
  subscription_status : Log -> SubscriptionStatus;
  listening : Log -> bool
}.

Context `{!World}.

(** ** What the states share (mod.rs) *)

(** The thread of the tunnel: when it started, and once its lap ended, the block reason and when
    it is sent. *)
Record Lap : Type := mkLap {
  lap_start : Z;
  lap_attempt : Z;
  lap_result : option (option ErrorStateCause * Z)
}.

(** [SharedTunnelStateValues], the firewall's own fields (firewall/linux.rs), the process-global
    [RECENT_RECONNECTS] and [REFUSALS], and the tunnel's thread. *)
Record Shared : Type := mkShared {
  split_mode : SplitTunnelMode;
  fw_include_only : bool;
  reset_on_drop : bool;
  allow_lan : bool;
  lan_networks : list IpNetwork;
  lan_routes : Watch (list IpNetwork);
  lockdown_mode : LockdownMode;
  connectivity : Connectivity;
  dns_config : DnsConfig;
  allowed_endpoint : AllowedEndpoint;
  connectivity_check_was_enabled : option bool;
  recent_reconnects : list Z;
  refusals : option Run;
  lap : option Lap;
  log : Log
}.

Definition with_split (s : Shared) (m : SplitTunnelMode) (b : bool) : Shared :=
  mkShared m b (reset_on_drop s) (allow_lan s) (lan_networks s) (lan_routes s) (lockdown_mode s) (connectivity s)
    (dns_config s) (allowed_endpoint s) (connectivity_check_was_enabled s) (recent_reconnects s) (refusals s) (lap s) (log s).
Definition with_reset_on_drop (s : Shared) (b : bool) : Shared :=
  mkShared (split_mode s) (fw_include_only s) b (allow_lan s) (lan_networks s) (lan_routes s) (lockdown_mode s) (connectivity s)
    (dns_config s) (allowed_endpoint s) (connectivity_check_was_enabled s) (recent_reconnects s) (refusals s) (lap s) (log s).
Definition with_lan (s : Shared) (allow : bool) (nets : list IpNetwork) (routes : Watch (list IpNetwork)) : Shared :=
  mkShared (split_mode s) (fw_include_only s) (reset_on_drop s) allow nets routes (lockdown_mode s) (connectivity s)
    (dns_config s) (allowed_endpoint s) (connectivity_check_was_enabled s) (recent_reconnects s) (refusals s) (lap s) (log s).
Definition with_lockdown (s : Shared) (m : LockdownMode) : Shared :=
  mkShared (split_mode s) (fw_include_only s) (reset_on_drop s) (allow_lan s) (lan_networks s) (lan_routes s) m (connectivity s)
    (dns_config s) (allowed_endpoint s) (connectivity_check_was_enabled s) (recent_reconnects s) (refusals s) (lap s) (log s).
Definition with_connectivity (s : Shared) (c : Connectivity) : Shared :=
  mkShared (split_mode s) (fw_include_only s) (reset_on_drop s) (allow_lan s) (lan_networks s) (lan_routes s) (lockdown_mode s) c
    (dns_config s) (allowed_endpoint s) (connectivity_check_was_enabled s) (recent_reconnects s) (refusals s) (lap s) (log s).
Definition with_dns (s : Shared) (c : DnsConfig) : Shared :=
  mkShared (split_mode s) (fw_include_only s) (reset_on_drop s) (allow_lan s) (lan_networks s) (lan_routes s) (lockdown_mode s)
    (connectivity s) c (allowed_endpoint s) (connectivity_check_was_enabled s) (recent_reconnects s) (refusals s) (lap s) (log s).
Definition with_allowed_endpoint (s : Shared) (e : AllowedEndpoint) : Shared :=
  mkShared (split_mode s) (fw_include_only s) (reset_on_drop s) (allow_lan s) (lan_networks s) (lan_routes s) (lockdown_mode s)
    (connectivity s) (dns_config s) e (connectivity_check_was_enabled s) (recent_reconnects s) (refusals s) (lap s) (log s).
Definition with_check (s : Shared) (o : option bool) : Shared :=
  mkShared (split_mode s) (fw_include_only s) (reset_on_drop s) (allow_lan s) (lan_networks s) (lan_routes s) (lockdown_mode s)
    (connectivity s) (dns_config s) (allowed_endpoint s) o (recent_reconnects s) (refusals s) (lap s) (log s).
Definition with_laps (s : Shared) (l : list Z) : Shared :=
  mkShared (split_mode s) (fw_include_only s) (reset_on_drop s) (allow_lan s) (lan_networks s) (lan_routes s) (lockdown_mode s)
    (connectivity s) (dns_config s) (allowed_endpoint s) (connectivity_check_was_enabled s) l (refusals s) (lap s) (log s).
Definition with_refusals (s : Shared) (r : option Run) : Shared :=
  mkShared (split_mode s) (fw_include_only s) (reset_on_drop s) (allow_lan s) (lan_networks s) (lan_routes s) (lockdown_mode s)
    (connectivity s) (dns_config s) (allowed_endpoint s) (connectivity_check_was_enabled s) (recent_reconnects s) r (lap s) (log s).
Definition with_lap (s : Shared) (l : option Lap) : Shared :=
  mkShared (split_mode s) (fw_include_only s) (reset_on_drop s) (allow_lan s) (lan_networks s) (lan_routes s) (lockdown_mode s)
    (connectivity s) (dns_config s) (allowed_endpoint s) (connectivity_check_was_enabled s) (recent_reconnects s) (refusals s) l (log s).
Definition with_log (s : Shared) (l : Log) : Shared :=
  mkShared (split_mode s) (fw_include_only s) (reset_on_drop s) (allow_lan s) (lan_networks s) (lan_routes s) (lockdown_mode s)
    (connectivity s) (dns_config s) (allowed_endpoint s) (connectivity_check_was_enabled s) (recent_reconnects s) (refusals s) (lap s) l.

(** ** The monad of the handlers *)

Definition TM (A : Type) : Type := Shared -> A * Shared.

#[export] Instance TM_ret : MRet TM := fun A a s => (a, s).
#[export] Instance TM_bind : MBind TM := fun A B f m s => let '(a, s') := m s in f a s'.

Definition gets {A : Type} (f : Shared -> A) : TM A := fun s => (f s, s).
Definition modify (f : Shared -> Shared) : TM unit := fun s => (tt, f s).
Definition emit (e : Effect) : TM unit := modify (fun s => with_log s (e :: log s)).
Definition now : TM Z := gets (fun s => clock (log s)).

(** ** The methods of the shared values (mod.rs, firewall/linux.rs) *)

(** The error of [Result<(), FirewallPolicyError>]. *)
Definition failure (o : Outcome) : option FirewallPolicyError := match o with Done => None | _ => Some Generic end.

Definition apply_policy (policy : FirewallPolicy) : TM (option FirewallPolicyError) :=
  s ← gets id;
  let outcome := applying (log s) (fw_include_only s) policy in
  emit (FxApply (fw_include_only s) policy outcome);; mret (failure outcome).

Definition reset_policy : TM unit :=
  outcome ← gets (fun s => resetting (log s)); emit (FxReset outcome).

Definition set_include_only (b : bool) : TM unit := modify (fun s => with_split s (split_mode s) b).
Definition keep_policy_on_drop : TM unit := modify (fun s => with_reset_on_drop s false).

(** [dns_monitor.set], and whether it succeeded. *)
Definition dns_monitor_set (interface : str) (config : ResolvedDnsConfig) : TM bool :=
  ok ← gets (fun s => dns_setting (log s) interface config); emit (FxDnsSet interface config ok);; mret ok.

Definition reset_routes : TM unit := emit FxClearRoutes;; emit FxForceRouteCleanup;; emit FxClearRoutingRules.

Definition set_lockdown_mode (m : LockdownMode) : TM unit := modify (fun s => with_lockdown s m).

(** [lan_routes::routed], [LanRoutes::update] *)
Definition routed (allow : bool) (nets : list IpNetwork) : list IpNetwork := if allow then nets else [].
Definition lan_routes_new (allow : bool) (nets : list IpNetwork) : Watch (list IpNetwork) := mkWatch (routed allow nets) 0.
Definition lan_routes_update (w : Watch (list IpNetwork)) (allow : bool) (nets : list IpNetwork) : Watch (list IpNetwork) :=
  send_if_modified w (fun current => negb (bool_decide (current = routed allow nets))) (routed allow nets).

Definition set_allow_lan (allow : bool) (nets : list IpNetwork) : TM bool :=
  s ← gets id;
  if negb (eqb (allow_lan s) allow) || negb (bool_decide (lan_networks s = nets))
  then modify (fun s => with_lan s allow nets (lan_routes_update (lan_routes s) allow nets));; mret true
  else mret false.

Definition set_dns_config (c : DnsConfig) : TM bool :=
  s ← gets id;
  if negb (bool_decide (dns_config s = c)) then modify (fun s => with_dns s c);; mret true else mret false.

Definition disable_connectivity_check : TM unit :=
  s ← gets id;
  match connectivity_check_was_enabled s with
  | None => match network_manager (log s) with
            | Some was_enabled => modify (fun s => with_check s was_enabled);; emit (FxCheckDisabled was_enabled)
            | None => mret tt
            end
  | Some _ => mret tt
  end.

Definition reset_connectivity_check : TM unit :=
  s ← gets id;
  modify (fun s => with_check s None);;
  match connectivity_check_was_enabled s with
  | Some true => match network_manager (log s) with Some _ => emit FxCheckEnabled | None => mret tt end
  | _ => mret tt
  end.

Definition set_split_apps (requested : SplitTunnelMode) : TM bool :=
  mode_changed ← gets (fun s => negb (bool_decide (split_mode s = enforceable_mode requested can_include)));
  let mode := enforceable_mode requested can_include in
  modify (fun s => with_split s mode (fw_include_only s));;
  set_include_only (bool_decide (mode = SplitIncludeOnly));;
  mret mode_changed.

Definition include_only (s : Shared) : bool := bool_decide (split_mode s = SplitIncludeOnly).

(** [reset_flap_detector], [note_reconnect_and_is_flapping] over the global. *)
Definition reset_flap_detector : TM unit := modify (fun s => with_laps s []).
Definition note_reconnect : TM bool :=
  t ← now; s ← gets id;
  let '(flapping, laps) := note_reconnect_and_is_flapping (recent_reconnects s) t in
  modify (fun s => with_laps s laps);; mret flapping.

(** ** The states *)

(** In the three states that hold a tunnel, [close_terminated] is whether its close event was received. *)
Record Connecting : Type := mkConnecting {
  c_parameters : BackendParams;
  c_metadata : option TunnelMetadata;
  c_traffic : AllowedTunnelTraffic;
  c_terminated : bool;
  retry_attempt : Z
}.

Record Connected : Type := mkConnected {
  k_metadata : TunnelMetadata;
  k_parameters : BackendParams;
  k_terminated : bool;
  offline_grace_deadline : option Z;
  k_peers : list Endpoint
}.

Inductive TunnelState : Type :=
| Disconnected
| SConnecting (c : Connecting)
| SConnected (k : Connected)
| Disconnecting (terminated : bool) (after : AfterDisconnect)
| Error (block_reason : ErrorStateCause).

(** [unreachable!()] is [Panicked]. *)
Inductive EventConsequence : Type :=
| NewState (entered : TunnelState * TunnelStateTransition)
| SameState (state : TunnelState)
| Finished
| Panicked.

Abbreviation Entered := (TunnelState * TunnelStateTransition)%type (only parsing).

(** ** The error state (error_state.rs) *)

Definition blocked_policy (allow : bool) (nets : list IpNetwork) (e : AllowedEndpoint) : FirewallPolicy :=
  FwBlocked allow nets (Some e).

Definition error_set_firewall_policy : TM (option FirewallPolicyError) :=
  policy ← gets (fun s => blocked_policy (allow_lan s) (lan_networks s) (allowed_endpoint s));
  disable_connectivity_check;;
  apply_policy policy.

Definition error_enter (block_reason : ErrorStateCause) : TM Entered :=
  block_failure ← error_set_firewall_policy;
  mret (Error block_reason, TrError block_reason block_failure).

(** ** The disconnected state (disconnected_state.rs) *)

Definition disconnected_transition : TM Entered :=
  locked_down ← gets (fun s => lockdown_bool (lockdown_mode s)); mret (Disconnected, TrDisconnected locked_down).

Definition disconnected_set_firewall_policy (should_reset_firewall : bool) : TM unit :=
  s ← gets id;
  if lockdown_bool (lockdown_mode s)
  then apply_policy (FwBlocked (allow_lan s) (lan_networks s) (Some (allowed_endpoint s)));; mret tt
  else if should_reset_firewall then reset_policy else mret tt.

Definition disconnected_enter (should_reset_firewall : bool) : TM Entered :=
  emit FxForceRouteCleanup;;
  disconnected_set_firewall_policy should_reset_firewall;;
  reset_connectivity_check;;
  disconnected_transition.

(** ** The disconnecting state (disconnecting_state.rs) *)

Definition disconnecting_enter (terminated : bool) (after : AfterDisconnect) : TM Entered :=
  emit FxCloseTunnel;; mret (Disconnecting terminated after, TrDisconnecting (action after)).

(** ** The connecting state (connecting_state.rs) *)

Definition connecting_policy (s : Shared) (params : BackendParams) (metadata : option TunnelMetadata)
    (traffic : AllowedTunnelTraffic) : FirewallPolicy :=
  FwConnecting (relay_peers (get_next_hop_endpoints params)) metadata (allow_lan s) (lan_networks s)
    (allowed_endpoint s) traffic.

Definition connecting_set_firewall_policy (params : BackendParams) (metadata : option TunnelMetadata)
    (traffic : AllowedTunnelTraffic) : TM (option FirewallPolicyError) :=
  disable_connectivity_check;;
  policy ← gets (fun s => connecting_policy s params metadata traffic);
  apply_policy policy.

(** The account API is asked within [STATUS_TIMEOUT]: [subscription_status] answers [Unknown] past it. *)
Definition refusal_block_reason : TM (option ErrorStateCause) :=
  t ← now; s ← gets id;
  let '(cause, r, asked) := block_reason_before_dialing (refusals s) t (subscription_status (log s)) in
  modify (fun s => with_refusals s r);;
  (if asked : bool then emit (FxAsked (subscription_status (log s))) else mret tt);;
  mret cause.

Definition generate (attempt : Z) : TM (ParameterGenerationError + WarrenTunnelParameters) :=
  generated ← gets (fun s => generate_warren_tunnel_params (log s) attempt);
  emit (FxGenerated attempt);; mret generated.

(** The tunnel's routes follow the mode the firewall enforces, and the LAN's. *)
Definition prepared (s : Shared) (p : WarrenTunnelParameters) : WarrenTunnelParameters :=
  mkWarrenTunnelParameters (exit_addrs p) (multi_hop p) (enable_daita p) (include_only s) true.

Definition start_tunnel_warren (params : WarrenTunnelParameters) (attempt : Z) : TM Connecting :=
  t ← now;
  emit (FxStartTunnel params attempt);;
  modify (fun s => with_lap s (Some (mkLap t attempt None)));;
  mret (mkConnecting (from_params params) None AttNone false attempt).

Definition enter_warren (attempt : Z) : TM Entered :=
  refused ← (if attempt =? 0 then modify (fun s => with_refusals s (forget (refusals s)));; mret None
             else refusal_block_reason);
  match refused with
  | Some cause => error_enter cause
  | None =>
      generated ← generate attempt;
      match generated with
      | inl err => error_enter (TunnelParameterError err)
      | inr generated =>
          params ← gets (fun s => prepared s generated);
          failed ← connecting_set_firewall_policy (from_params params) None AttNone;
          match failed with
          | Some error => error_enter (SetFirewallPolicyError error)
          | None =>
              c ← start_tunnel_warren params attempt;
              mret (SConnecting c, TrConnecting (get_tunnel_endpoint (c_parameters c)))
          end
      end
  end.

Definition connecting_enter (attempt : Z) : TM Entered := enter_warren attempt.

Definition connecting_disconnect (c : Connecting) (after : AfterDisconnect) : TM EventConsequence :=
  entered ← disconnecting_enter (c_terminated c) after; mret (NewState entered).

Definition reset_firewall (c : Connecting) : TM EventConsequence :=
  failed ← connecting_set_firewall_policy (c_parameters c) (c_metadata c) (c_traffic c);
  match failed with
  | None => mret (SameState (SConnecting c))
  | Some error => connecting_disconnect c (AdBlock (SetFirewallPolicyError error))
  end.

Definition connecting_commands (c : Connecting) (command : option TunnelCommand) : TM EventConsequence :=
  let same := mret (SameState (SConnecting c)) in
  match command with
  | Some (CmdAllowLan allow nets) =>
      changed ← set_allow_lan allow nets; if changed : bool then reset_firewall c else same
  | Some (CmdAllowEndpoint e) =>
      s ← gets id;
      if negb (bool_decide (allowed_endpoint s = e))
      then modify (fun s => with_allowed_endpoint s e);; reset_firewall c
      else same
  | Some (CmdDns servers) => set_dns_config servers;; same
  | Some (CmdLockdownMode m) => set_lockdown_mode m;; same
  | Some CmdTailnetInterfacesChanged => reset_firewall c
  | Some (CmdConnectivity conn) =>
      modify (fun s => with_connectivity s conn);;
      if is_offline conn then connecting_disconnect c (AdBlock IsOffline) else same
  | Some CmdConnect => connecting_disconnect c (AdReconnect 0)
  | Some CmdDisconnect | None => connecting_disconnect c AdNothing
  | Some (CmdBlock r) => connecting_disconnect c (AdBlock r)
  | Some (CmdSetSplitApps m) =>
      mode_changed ← set_split_apps m;
      if mode_changed : bool then connecting_disconnect c (AdReconnect 0) else same
  end.

(** ** The connected state (connected_state.rs) *)

Definition resolve_dns (metadata : TunnelMetadata) (s : Shared) : ResolvedDnsConfig :=
  resolve (dns_config s) (gateways metadata).

Definition get_firewall_policy (k : Connected) (s : Shared) : FirewallPolicy :=
  FwConnected (relay_peers (k_peers k)) (k_metadata k) (allow_lan s) (lan_networks s) (resolve_dns (k_metadata k) s).

Definition connected_set_firewall_policy (k : Connected) : TM (option FirewallPolicyError) :=
  policy ← gets (get_firewall_policy k); apply_policy policy.

Definition connected_set_dns (k : Connected) : TM bool :=
  config ← gets (resolve_dns (k_metadata k)); dns_monitor_set (interface (k_metadata k)) config.

(** The connected state applies its policy and its DNS, from what the connecting state leaves it. *)
Definition connected_enter (c : Connecting) (metadata : TunnelMetadata) : TM Entered :=
  s ← gets id; t ← now;
  let multi_hop := is_multi_hop (c_parameters c) in
  let k := mkConnected metadata (c_parameters c) (c_terminated c)
             (if is_offline (connectivity s) && multi_hop then Some (t + OFFLINE_GRACE) else None)
             (get_next_hop_endpoints (c_parameters c)) in
  if is_offline (connectivity s) && negb multi_hop
  then disconnecting_enter (k_terminated k) (AdBlock IsOffline)
  else
    failed ← connected_set_firewall_policy k;
    match failed with
    | Some error => disconnecting_enter (k_terminated k) (AdBlock (SetFirewallPolicyError error))
    | None =>
        ok ← connected_set_dns k;
        if ok : bool
        then mret (SConnected k, TrConnected (connected_tunnel_endpoint (k_parameters k) metadata))
        else disconnecting_enter (k_terminated k) (AdBlock SetDnsError)
    end.

Definition connected_disconnect (k : Connected) (after : AfterDisconnect) : TM EventConsequence :=
  emit FxDnsResetBeforeRemoval;;
  entered ← disconnecting_enter (k_terminated k) after; mret (NewState entered).

(** [match self.set_firewall_policy(..)] *)
Definition reapply (k : Connected) : TM EventConsequence :=
  failed ← connected_set_firewall_policy k;
  match failed with
  | None => mret (SameState (SConnected k))
  | Some error => connected_disconnect k (AdBlock (SetFirewallPolicyError error))
  end.

Definition with_deadline (k : Connected) (d : option Z) : Connected :=
  mkConnected (k_metadata k) (k_parameters k) (k_terminated k) d (k_peers k).
Definition with_peers (k : Connected) (peers : list Endpoint) : Connected :=
  mkConnected (k_metadata k) (k_parameters k) (k_terminated k) (offline_grace_deadline k) peers.
Definition with_metadata (k : Connected) (m : TunnelMetadata) : Connected :=
  mkConnected m (k_parameters k) (k_terminated k) (offline_grace_deadline k) (k_peers k).

Definition connected_connectivity (k : Connected) (conn : Connectivity) : TM EventConsequence :=
  modify (fun s => with_connectivity s conn);;
  match grace_action (is_multi_hop (k_parameters k)) (bool_decide (is_Some (offline_grace_deadline k))) (is_offline conn) with
  | GraceBlock => connected_disconnect k (AdBlock IsOffline)
  | GraceArm => t ← now; mret (SameState (SConnected (with_deadline k (Some (t + OFFLINE_GRACE)))))
  | GraceHold => mret (SameState (SConnected k))
  | GraceCancel => mret (SameState (SConnected (with_deadline k None)))
  end.

Definition connected_commands (k : Connected) (command : option TunnelCommand) : TM EventConsequence :=
  let same := mret (SameState (SConnected k)) in
  match command with
  | Some (CmdAllowLan allow nets) =>
      changed ← set_allow_lan allow nets; if changed : bool then reapply k else same
  | Some (CmdAllowEndpoint e) => modify (fun s => with_allowed_endpoint s e);; same
  | Some (CmdDns servers) =>
      changed ← set_dns_config servers;
      if changed : bool then
        failed ← connected_set_firewall_policy k;
        match failed with
        | Some error => connected_disconnect k (AdBlock (SetFirewallPolicyError error))
        | None => ok ← connected_set_dns k; if ok : bool then same else connected_disconnect k (AdBlock SetDnsError)
        end
      else same
  | Some (CmdLockdownMode m) => set_lockdown_mode m;; same
  | Some CmdTailnetInterfacesChanged => reapply k
  | Some (CmdConnectivity conn) => connected_connectivity k conn
  | Some CmdConnect => connected_disconnect k (AdReconnect 0)
  | Some CmdDisconnect | None => connected_disconnect k AdNothing
  | Some (CmdBlock r) => connected_disconnect k (AdBlock r)
  | Some (CmdSetSplitApps m) =>
      mode_changed ← set_split_apps m;
      if mode_changed : bool then connected_disconnect k (AdReconnect 0) else same
  end.

Definition connected_events (k : Connected) (event : option TunnelEvent) : TM EventConsequence :=
  match event with
  | Some EvDown | None => connected_disconnect k (AdReconnect 0)
  | Some (EvPeerEndpoints peers) => reapply (with_peers k peers)
  | Some (EvUp m) =>
      let k := with_metadata k m in
      mret (NewState (SConnected k, TrConnected (connected_tunnel_endpoint (k_parameters k) m)))
  | Some _ => mret (SameState (SConnected k))
  end.

Definition connected_close_event (block_reason : option ErrorStateCause) : TM EventConsequence :=
  let leave := emit FxDnsResetBeforeRemoval;; reset_routes in
  match block_reason with
  | Some cause => reset_flap_detector;; leave;; entered ← error_enter cause; mret (NewState entered)
  | None =>
      offline ← gets (fun s => is_offline (connectivity s));
      if offline : bool then reset_flap_detector;; leave;; entered ← error_enter IsOffline; mret (NewState entered)
      else
        flapping ← note_reconnect;
        if flapping : bool
        then reset_flap_detector;; leave;; entered ← error_enter WarrenTunnelFlapping; mret (NewState entered)
        else leave;; entered ← connecting_enter 0; mret (NewState entered)
  end.

Definition connected_grace_expired (k : Connected) : TM EventConsequence :=
  offline ← gets (fun s => is_offline (connectivity s));
  if offline : bool then connected_disconnect k (AdBlock IsOffline)
  else mret (SameState (SConnected (with_deadline k None))).

(** ** The connecting state's events (connecting_state.rs) *)

Definition connecting_events (c : Connecting) (event : option TunnelEvent) : TM EventConsequence :=
  match event with
  | Some (EvAuthFailed r) => connecting_disconnect c (AdBlock (AuthFailed r))
  | Some (EvInterfaceUp m traffic) =>
      reset_firewall (mkConnecting (c_parameters c) (Some m) traffic (c_terminated c) (retry_attempt c))
  | Some (EvUp m) => entered ← connected_enter c m; mret (NewState entered)
  | Some (EvPeerEndpoints _) => mret (SameState (SConnecting c))
  | Some EvDown =>
      mret (SameState (SConnecting (mkConnecting (c_parameters c) None AttNone (c_terminated c) (retry_attempt c))))
  | None => connecting_disconnect c (AdReconnect (next_attempt (retry_attempt c)))
  end.

Definition connecting_close_event (c : Connecting) (block_reason : option ErrorStateCause) : TM EventConsequence :=
  match block_reason with
  | Some cause => reset_flap_detector;; reset_routes;; entered ← error_enter cause; mret (NewState entered)
  | None =>
      s ← gets id;
      if is_offline (connectivity s)
      then reset_flap_detector;; reset_routes;; entered ← error_enter IsOffline; mret (NewState entered)
      else if run_is_open (refusals s)
      then reset_routes;; entered ← connecting_enter (next_attempt (retry_attempt c)); mret (NewState entered)
      else
        flapping ← note_reconnect;
        if flapping : bool
        then reset_flap_detector;; reset_routes;; entered ← error_enter WarrenTunnelFlapping; mret (NewState entered)
        else reset_routes;; entered ← connecting_enter (next_attempt (retry_attempt c)); mret (NewState entered)
  end.

(** ** The disconnecting state's events (disconnecting_state.rs) *)

Definition disconnecting_commands (terminated : bool) (after : AfterDisconnect) (command : option TunnelCommand)
    : TM EventConsequence :=
  let then_ a : TM EventConsequence := mret (SameState (Disconnecting terminated a)) in
  match command with
  | Some (CmdAllowLan allow nets) => set_allow_lan allow nets;; then_ after
  | Some (CmdAllowEndpoint e) => modify (fun s => with_allowed_endpoint s e);; then_ after
  | Some (CmdDns servers) => set_dns_config servers;; then_ after
  | Some (CmdLockdownMode m) => set_lockdown_mode m;; then_ after
  | Some CmdTailnetInterfacesChanged => then_ after
  | Some (CmdConnectivity conn) =>
      modify (fun s => with_connectivity s conn);;
      then_ match after with
            | AdReconnect _ => if is_offline conn then AdBlock IsOffline else after
            | AdBlock IsOffline => if negb (is_offline conn) then AdReconnect 0 else after
            | _ => after
            end
  | Some CmdConnect => then_ match after with AdReconnect attempt => AdReconnect attempt | _ => AdReconnect 0 end
  | Some CmdDisconnect => then_ AdNothing
  | Some (CmdBlock r) => then_ match after with AdNothing => AdNothing | _ => AdBlock r end
  | None => then_ match after with AdReconnect _ => AdNothing | _ => after end
  | Some (CmdSetSplitApps m) => set_split_apps m;; then_ after
  end.

Definition after_disconnect (after : AfterDisconnect) (block_reason : option ErrorStateCause) : TM Entered :=
  match block_reason with
  | Some r => error_enter r
  | None =>
      match after with
      | AdNothing => disconnected_enter true
      | AdBlock cause => error_enter cause
      | AdReconnect attempt => connecting_enter attempt
      end
  end.

(** ** The commands of the disconnected state and of the error state *)

Definition disconnected_commands (command : option TunnelCommand) : TM EventConsequence :=
  let same := mret (SameState Disconnected) in
  match command with
  | Some (CmdAllowLan allow nets) =>
      changed ← set_allow_lan allow nets;
      (if changed : bool then disconnected_set_firewall_policy false else mret tt);; same
  | Some (CmdAllowEndpoint e) =>
      s ← gets id;
      (if negb (bool_decide (allowed_endpoint s = e))
       then modify (fun s => with_allowed_endpoint s e);; disconnected_set_firewall_policy false else mret tt);; same
  | Some (CmdDns servers) => set_dns_config servers;; same
  | Some (CmdLockdownMode m) =>
      toggled ← gets (fun s => negb (lockdown_eqb (lockdown_mode s) m));
      set_lockdown_mode m;;
      if toggled : bool
      then disconnected_set_firewall_policy true;; entered ← disconnected_transition; mret (NewState entered)
      else same
  | Some CmdTailnetInterfacesChanged => same
  | Some (CmdConnectivity conn) => modify (fun s => with_connectivity s conn);; same
  | Some CmdConnect => entered ← connecting_enter 0; mret (NewState entered)
  | Some (CmdBlock _) => same
  | Some (CmdSetSplitApps m) =>
      mode_changed ← set_split_apps m;
      (if mode_changed : bool then disconnected_set_firewall_policy false else mret tt);; same
  | None => emit FxDnsReset;; mret Finished
  | Some CmdDisconnect => same
  end.

Definition error_commands (block_reason : ErrorStateCause) (command : option TunnelCommand) : TM EventConsequence :=
  let same := mret (SameState (Error block_reason)) in
  match command with
  | Some (CmdAllowLan allow nets) =>
      changed ← set_allow_lan allow nets; (if changed : bool then error_set_firewall_policy;; mret tt else mret tt);; same
  | Some (CmdAllowEndpoint e) =>
      s ← gets id;
      (if negb (bool_decide (allowed_endpoint s = e))
       then modify (fun s => with_allowed_endpoint s e);; error_set_firewall_policy;; mret tt else mret tt);; same
  | Some (CmdDns servers) =>
      changed ← set_dns_config servers; (if changed : bool then error_set_firewall_policy;; mret tt else mret tt);; same
  | Some (CmdLockdownMode m) => set_lockdown_mode m;; error_set_firewall_policy;; same
  | Some CmdTailnetInterfacesChanged => same
  | Some (CmdConnectivity conn) =>
      modify (fun s => with_connectivity s conn);;
      if reconnects_on_connectivity block_reason conn
      then emit FxDnsReset;; entered ← connecting_enter 0; mret (NewState entered)
      else same
  | Some CmdConnect => emit FxDnsReset;; entered ← connecting_enter 0; mret (NewState entered)
  | Some CmdDisconnect | None =>
      reset_connectivity_check;; emit FxDnsReset;; entered ← disconnected_enter true; mret (NewState entered)
  | Some (CmdBlock r) => entered ← error_enter r; mret (NewState entered)
  | Some (CmdSetSplitApps m) =>
      mode_changed ← set_split_apps m; (if mode_changed : bool then error_set_firewall_policy;; mret tt else mret tt);; same
  end.

(** ** The machine (mod.rs) *)

(** [TunnelState::handle_event] of each state, once it woke on [r]. *)
Definition handle_event (state : TunnelState) (r : EventResult) : TM EventConsequence :=
  match state, r with
  | Disconnected, Command command => disconnected_commands command
  | SConnecting c, Command command => connecting_commands c command
  | SConnecting c, Event event => connecting_events c event
  | SConnecting c, Close result => connecting_close_event c (mjoin result)
  | SConnected k, Command command => connected_commands k command
  | SConnected k, Event event => connected_events k event
  | SConnected k, Close result => connected_close_event (mjoin result)
  | SConnected k, OfflineGraceExpired => connected_grace_expired k
  | Disconnecting terminated after, Command command => disconnecting_commands terminated after command
  | Disconnecting terminated after, Close result =>
      reset_routes;; entered ← after_disconnect after (mjoin result); mret (NewState entered)
  | Error block_reason, Command command => error_commands block_reason command
  | _, _ => mret Panicked
  end.

(** What [state] may wake on: its [select!]. *)
Definition waits_for (state : TunnelState) (s : Shared) (r : EventResult) : Prop :=
  match state, r with
  | _, Command _ => True
  | (SConnecting _ | SConnected _), Event _ => True
  | (SConnecting _ | SConnected _ | Disconnecting false _), Close result =>
      exists l, lap s = Some l /\
        match result with
        | Some reason => exists release, lap_result l = Some (reason, release) /\ release <= clock (FxWoken r :: log s)
        | None => lap_result l = None
        end
  | Disconnecting true _, Close result => result = Some None
  | SConnected k, OfflineGraceExpired => exists d, offline_grace_deadline k = Some d /\ d <= clock (FxWoken r :: log s)
  | _, _ => False
  end.

(** The loop of [run], and how it ended. *)
Inductive Machine : Type :=
| Running (state : TunnelState) (s : Shared)
| Exited (s : Shared)
| Aborted (s : Shared).

(** [run]'s end and the drop of the machine. *)
Definition shutdown : TM unit :=
  s ← gets id;
  (if lockdown_bool (lockdown_mode s) && should_persist (lockdown_mode s) then keep_policy_on_drop else reset_policy);;
  emit FxRouteManagerStopped;;
  s ← gets id;
  if reset_on_drop s then reset_policy else mret tt.

Definition publish (transition : TunnelStateTransition) : TM bool :=
  heard ← gets (fun s => listening (log s)); emit (FxPublished transition heard);; mret heard.

(** The close event is received once. *)
Definition receive (s : Shared) (r : EventResult) : Shared :=
  match r with Close _ => with_lap s None | _ => s end.

Definition terminate (state : TunnelState) (r : EventResult) : TunnelState :=
  match state, r with
  | SConnecting c, Close _ => SConnecting (mkConnecting (c_parameters c) (c_metadata c) (c_traffic c) true (retry_attempt c))
  | SConnected k, Close _ => SConnected (mkConnected (k_metadata k) (k_parameters k) true (offline_grace_deadline k) (k_peers k))
  | Disconnecting _ after, Close _ => Disconnecting true after
  | _, _ => state
  end.

(** One turn of the loop. *)
Definition machine_turn (state : TunnelState) (r : EventResult) (s : Shared) : Machine :=
  let '(consequence, s) := (emit (FxWoken r);; modify (fun s => receive s r);; handle_event (terminate state r) r) s in
  match consequence with
  | NewState (state, transition) =>
      let '(heard, s) := publish transition s in
      if heard : bool then Running state s else Exited (snd (shutdown s))
  | SameState state => Running state s
  | Finished => Exited (snd (shutdown s))
  | Panicked => Aborted (snd (emit FxForceRouteCleanup s))
  end.

(** The thread of the tunnel ends its lap: [note_attempt] and the pacing sleep. *)
Definition machine_lap (l : Lap) (outcome : LapOutcome) (s : Shared) : Shared :=
  let t := clock (FxLapEnded outcome :: log s) in
  let '(reason, r) := lap_end (refusals s) outcome t in
  with_log (with_refusals (with_lap s (Some (mkLap (lap_start l) (lap_attempt l)
      (Some (reason, lap_release r reason (lap_attempt l) (lap_start l) t))))) r)
    (FxLapEnded outcome :: log s).

Inductive step : Machine -> Machine -> Prop :=
| step_turn state s r : waits_for state s r -> step (Running state s) (machine_turn state r s)
| step_lap state s l outcome :
    lap s = Some l -> lap_result l = None -> step (Running state s) (Running state (machine_lap l outcome s)).

(** [InitialTunnelState] *)
Record InitialTunnelState : Type := mkInitialTunnelState {
  i_allow_lan : bool;
  i_lan_networks : list IpNetwork;
  i_lockdown_mode : LockdownMode;
  i_dns_config : DnsConfig;
  i_allowed_endpoint : AllowedEndpoint;
  i_reset_firewall : bool;
  i_initial_block : option ErrorStateCause;
  i_split_mode : SplitTunnelMode
}.

(** [TunnelStateMachine::new], [conn] being what the offline monitor first says, and the first
    transition [run] publishes. *)
Definition machine_new (i : InitialTunnelState) (conn : Connectivity) : Machine :=
  let mode := enforceable_mode (i_split_mode i) can_include in
  let s := mkShared mode (bool_decide (mode = SplitIncludeOnly)) true (i_allow_lan i) (i_lan_networks i)
             (lan_routes_new (i_allow_lan i) (i_lan_networks i)) (i_lockdown_mode i) conn (i_dns_config i)
             (i_allowed_endpoint i) None [] None None [] in
  match i_initial_block i with
  | Some cause =>
      let '(state, transition, s) := error_enter cause s in
      Running state (snd (publish transition s))
  | None => let '(state, _, s) := disconnected_enter (i_reset_firewall i) s in Running state s
  end.

Definition reachable (m : Machine) : Prop := exists i conn, rtc step (machine_new i conn) m.

End Machine.
