(* ===== verification/TunnelInv.v ===== *)
(** * The invariant of the tunnel state machine

    What the log of the system's effects says, a weakest precondition for the
    handlers, and the invariant every turn keeps: the firewall, the tunnel's
    thread, the split mode and what was published agree with the state. *)

From S2P Require Import Prelude Net Networks Routes Tunnel Refusals TunnelMachine.
Open Scope Z_scope.

Section Invariant.
Context `{!Networks, !Descriptors, W : !World}.
Implicit Types (s : Shared) (l : list Effect) (c : Connecting) (k : Connected).

(** ** Reading the log *)

(** The policy the kernel enforces, with the split mode it was compiled for. *)
Fixpoint enforced (l : list Effect) : option (bool * FirewallPolicy) :=
  match l with
  | [] => None
  | FxApply b p (Done | FailedAfter) :: _ => Some (b, p)
  | FxReset (Done | FailedAfter) :: _ => None
  | _ :: l => enforced l
  end.

(** The last thing asked of the firewall: a policy, or none. *)
Fixpoint requested (l : list Effect) : option (bool * FirewallPolicy) :=
  match l with
  | [] => None
  | FxApply b p _ :: _ => Some (b, p)
  | FxReset _ :: _ => None
  | _ :: l => requested l
  end.

(** Whether the last thing asked of the firewall took effect. *)
Fixpoint granted (l : list Effect) : bool :=
  match l with
  | [] => true
  | (FxApply _ _ FailedBefore | FxReset FailedBefore) :: _ => false
  | (FxApply _ _ _ | FxReset _) :: _ => true
  | _ :: l => granted l
  end.

Lemma granted_enforced l : granted l = true -> enforced l = requested l.
Proof.
  induction l as [|e l IH]; [done|]. cbn [granted enforced requested].
  by destruct e; try done; destruct outcome.
Qed.

(** The tunnels started whose end was not received. *)
Fixpoint tunnels (l : list Effect) : Z :=
  match l with
  | [] => 0
  | FxStartTunnel _ _ :: l => tunnels l + 1
  | FxWoken (Close _) :: l => tunnels l - 1
  | _ :: l => tunnels l
  end.

(** How many times the firewall was reset. *)
Fixpoint resets (l : list Effect) : Z :=
  match l with
  | [] => 0
  | FxReset _ :: l => resets l + 1
  | _ :: l => resets l
  end.

(** The last transition published. *)
Fixpoint shown (l : list Effect) : option TunnelStateTransition :=
  match l with
  | [] => None
  | FxPublished t _ :: _ => Some t
  | _ :: l => shown l
  end.

(** The policy in force while the tunnel of [p] connects: its relays, and no traffic in it. *)
Definition admits_tunnel (o : option (bool * FirewallPolicy)) (p : WarrenTunnelParameters) : Prop :=
  exists allow nets e, o = Some (include_only_routes p,
    FwConnecting (relay_peers (get_next_hop_endpoints (from_params p))) None allow nets e AttNone).

(** A tunnel starts when there is none and the firewall admits its relays and nothing else. *)
Fixpoint orderly (l : list Effect) : Prop :=
  match l with
  | [] => True
  | FxStartTunnel p _ :: l => tunnels l = 0 /\ admits_tunnel (enforced l) p /\ orderly l
  | FxWoken (Close _) :: l => tunnels l = 1 /\ orderly l
  | _ :: l => orderly l
  end.

(** ** Weakest preconditions *)

Definition wp {A : Type} (m : TM A) (Q : A -> Shared -> Prop) (s : Shared) : Prop := Q (m s).1 (m s).2.

Lemma wp_ret {A : Type} (a : A) Q s : Q a s -> wp (mret a) Q s.
Proof. done. Qed.

Lemma wp_bind {A B : Type} (m : TM A) (f : A -> TM B) Q s :
  wp m (fun a => wp (f a) Q) s -> wp (m ≫= f) Q s.
Proof. unfold wp, mbind, TM_bind. by destruct (m s). Qed.

Lemma wp_gets {A : Type} (f : Shared -> A) Q s : Q (f s) s -> wp (gets f) Q s.
Proof. done. Qed.

Lemma wp_modify f Q s : Q tt (f s) -> wp (modify f) Q s.
Proof. done. Qed.

Lemma wp_emit e Q s : Q tt (with_log s (e :: log s)) -> wp (emit e) Q s.
Proof. done. Qed.

Lemma wp_mono {A : Type} (m : TM A) (Q Q' : A -> Shared -> Prop) s :
  wp m Q s -> (forall a s', Q a s' -> Q' a s') -> wp m Q' s.
Proof. unfold wp. auto. Qed.

(** ** What an operation leaves as it was *)

(** The settings and the split mode are the same. *)
Definition same_settings s s' : Prop :=
  split_mode s' = split_mode s /\ fw_include_only s' = fw_include_only s /\ allow_lan s' = allow_lan s /\
  lan_networks s' = lan_networks s /\ lan_routes s' = lan_routes s /\ lockdown_mode s' = lockdown_mode s /\
  connectivity s' = connectivity s /\ dns_config s' = dns_config s /\ allowed_endpoint s' = allowed_endpoint s /\
  reset_on_drop s' = reset_on_drop s.

(** The log says the same of the firewall, the tunnels and the transitions. *)
Definition same_log l l' : Prop :=
  enforced l' = enforced l /\ requested l' = requested l /\ tunnels l' = tunnels l /\ resets l' = resets l /\
  shown l' = shown l /\ (orderly l -> orderly l').

Definition quiet s s' : Prop :=
  same_settings s s' /\ lap s' = lap s /\ recent_reconnects s' = recent_reconnects s /\ same_log (log s) (log s').

#[export] Instance same_settings_preorder : PreOrder same_settings.
Proof. split; unfold same_settings; [repeat intro; tauto|repeat intro; intuition congruence]. Qed.
#[export] Instance same_log_preorder : PreOrder same_log.
Proof. split; unfold same_log; [repeat intro; tauto|repeat intro; intuition congruence]. Qed.
#[export] Instance quiet_preorder : PreOrder quiet.
Proof.
  split; [by repeat split|].
  intros x y z (H1 & H2 & H3 & H4) (H1' & H2' & H3' & H4'). split; [by etrans|].
  split; [congruence|]. split; [congruence|by etrans].
Qed.

(** An effect the log's readings pass over. *)
Definition neutral (e : Effect) : Prop :=
  match e with
  | FxApply _ _ _ | FxReset _ | FxStartTunnel _ _ | FxPublished _ _ | FxWoken (Close _) => False
  | _ => True
  end.

Lemma same_log_neutral e l : neutral e -> same_log l (e :: l).
Proof. by destruct e as [| | | | | | | | | | | | | | |[]| |]. Qed.

Lemma quiet_emit e s : neutral e -> quiet s (with_log s (e :: log s)).
Proof. intros. repeat split; by apply same_log_neutral. Qed.

Lemma wp_disable_check Q s :
  (forall s', quiet s s' -> Q tt s') -> wp disable_connectivity_check Q s.
Proof.
  intros HQ. apply wp_bind, wp_gets. unfold id.
  destruct (connectivity_check_was_enabled s); [by apply HQ|].
  destruct (network_manager (log s)); [|by apply HQ].
  apply wp_bind, wp_modify, wp_emit, HQ. by apply (quiet_emit _ (with_check s _)).
Qed.

Lemma wp_reset_check Q s :
  (forall s', quiet s s' -> Q tt s') -> wp reset_connectivity_check Q s.
Proof.
  intros HQ. apply wp_bind, wp_gets, wp_bind, wp_modify. unfold id.
  destruct (connectivity_check_was_enabled s) as [[]|]; [|by apply HQ..].
  destruct (network_manager (log s)); [|by apply HQ].
  apply wp_emit, HQ. by apply (quiet_emit _ (with_check s _)).
Qed.

Lemma wp_reset_routes Q s :
  (forall s', quiet s s' -> Q tt s') -> wp reset_routes Q s.
Proof. intros HQ. apply wp_bind, wp_emit, wp_bind, wp_emit, wp_emit, HQ. by repeat split. Qed.

Lemma wp_apply p Q s :
  (forall o, Q (failure o) (with_log s (FxApply (fw_include_only s) p o :: log s))) -> wp (apply_policy p) Q s.
Proof. intros HQ. apply wp_bind, wp_gets, wp_bind, wp_emit, wp_ret, HQ. Qed.

(** ** The invariant *)

Definition blocked_now s : FirewallPolicy := blocked_policy (allow_lan s) (lan_networks s) (allowed_endpoint s).

(** A lap that ends without a block reason is held back by the reconnect floor. *)
Definition paced (o : option Lap) : Prop :=
  forall lp release, o = Some lp -> lap_result lp = Some (None, release) ->
  exists pacing, lap_start lp + reconnect_floor (lap_attempt lp) pacing <= release.

(** What holds in every state. *)
Record base s : Prop := {
  base_split : fw_include_only s = include_only s;
  base_laps : zlen (recent_reconnects s) <= FLAP_MAX;
  base_orderly : orderly (log s);
  base_routes : w_value (lan_routes s) = routed (allow_lan s) (lan_networks s);
  base_paced : paced (lap s)
}.

(** The firewall follows the state and the settings. *)
Definition in_force (state : TunnelState) s : Prop :=
  match state with
  | Disconnected =>
      requested (log s) = if lockdown_bool (lockdown_mode s) then Some (fw_include_only s, blocked_now s) else None
  | SConnecting c => exists metadata traffic,
      enforced (log s) = Some (fw_include_only s, connecting_policy s (c_parameters c) metadata traffic) /\
      ((metadata = c_metadata c /\ traffic = c_traffic c) \/ (c_metadata c = None /\ c_traffic c = AttNone))
  | SConnected k => exists metadata,
      enforced (log s) = Some (fw_include_only s, get_firewall_policy (with_metadata k metadata) s)
  | Disconnecting _ _ => is_Some (enforced (log s))
  | Error _ => requested (log s) = Some (fw_include_only s, blocked_now s)
  end.

(** A tunnel's thread runs in the states that hold one. *)
Definition holds_tunnel (state : TunnelState) s : Prop :=
  match state with
  | Disconnected | Error _ => lap s = None /\ tunnels (log s) = 0
  | SConnecting c => c_terminated c = false /\ is_Some (lap s) /\ tunnels (log s) = 1
  | SConnected k => k_terminated k = false /\ is_Some (lap s) /\ tunnels (log s) = 1
  | Disconnecting terminated _ => terminated = false /\ is_Some (lap s) /\ tunnels (log s) = 1
  end.

(** An offline host keeps a tunnel connected under a deadline only, and a multi-hop one only. *)
Definition graced (state : TunnelState) s : Prop :=
  match state with
  | SConnected k =>
      (is_offline (connectivity s) = true -> is_Some (offline_grace_deadline k)) /\
      (is_Some (offline_grace_deadline k) -> is_multi_hop (k_parameters k) = true)
  | _ => True
  end.

(** The transition [t] says what [state] is. *)
Definition tells (state : TunnelState) s (t : TunnelStateTransition) : Prop :=
  match state with
  | Disconnected => t = TrDisconnected (lockdown_bool (lockdown_mode s))
  | SConnecting c => t = TrConnecting (get_tunnel_endpoint (c_parameters c))
  | SConnected k => t = TrConnected (connected_tunnel_endpoint (k_parameters k) (k_metadata k))
  | Disconnecting _ _ => exists a, t = TrDisconnecting a
  | Error r => exists f, t = TrError r f /\ (f = None -> is_Some (enforced (log s)))
  end.

Definition told (state : TunnelState) s : Prop :=
  match shown (log s) with Some t => tells state s t | None => state = Disconnected end.

Record Inv (state : TunnelState) s : Prop := {
  inv_base : base s;
  inv_in_force : in_force state s;
  inv_tunnel : holds_tunnel state s;
  inv_graced : graced state s
}.

(** Between two turns, [n] being the resets of the firewall before the turn. *)
Definition kept (n : Z) (state : TunnelState) s : Prop := Inv state s /\ (state <> Disconnected -> resets (log s) = n).

Definition entered_ok (n : Z) (e : TunnelState * TunnelStateTransition) s : Prop := kept n e.1 s /\ tells e.1 s e.2.

Definition turn_ok (n : Z) (consequence : EventConsequence) s : Prop :=
  match consequence with
  | NewState e => entered_ok n e s
  | SameState state => kept n state s /\ told state s
  | Finished => Inv Disconnected s /\ resets (log s) = n
  | Panicked => False
  end.

(** ** Entering the states *)

(** No tunnel; a tunnel and a policy in force. *)
Definition vacant (n : Z) s : Prop := base s /\ lap s = None /\ tunnels (log s) = 0 /\ resets (log s) = n.
Definition occupied (n : Z) s : Prop :=
  base s /\ is_Some (lap s) /\ tunnels (log s) = 1 /\ resets (log s) = n /\ is_Some (enforced (log s)).

Lemma base_quiet s s' : quiet s s' -> base s -> base s'.
Proof.
  intros (Hs & Hlap & Hre & _ & _ & _ & _ & _ & Ho) [Hb1 Hb2 Hb3 Hb4 Hb5].
  destruct Hs as (Hm & Hf & Ha & Hn & Hr & _).
  split; unfold include_only in *; rewrite ?Hm, ?Hf, ?Ha, ?Hn, ?Hr, ?Hlap, ?Hre; auto.
Qed.

Lemma vacant_quiet n s s' : quiet s s' -> vacant n s -> vacant n s'.
Proof.
  intros Hq (Hb & Hl & Ht & Hr). split; [by eapply base_quiet|].
  destruct Hq as (_ & Hlap & _ & _ & _ & Ht' & Hr' & _). rewrite Hlap, Ht', Hr'. done.
Qed.

Lemma occupied_quiet n s s' : quiet s s' -> occupied n s -> occupied n s'.
Proof.
  intros Hq (Hb & Hl & Ht & Hr & He). split; [by eapply base_quiet|].
  destruct Hq as (_ & Hlap & _ & He' & _ & Ht' & Hr' & _). rewrite Hlap, Ht', Hr', He'. done.
Qed.

Lemma base_apply s b p o : base s -> base (with_log s (FxApply b p o :: log s)).
Proof. by intros []. Qed.

Lemma enforced_apply l b p o :
  is_Some (enforced l) \/ failure o = None -> is_Some (enforced (FxApply b p o :: l)).
Proof. destruct o; cbn; [by eauto| |by eauto]. by intros [|]. Qed.

Lemma vacant_apply n s b p o : vacant n s -> vacant n (with_log s (FxApply b p o :: log s)).
Proof. by intros ([] & Hl & Ht & Hr). Qed.

Lemma occupied_apply n s b p o : occupied n s -> occupied n (with_log s (FxApply b p o :: log s)).
Proof.
  intros (Hb & Hl & Ht & Hr & He). split; [by apply base_apply|].
  split; [done|]. split; [done|]. split; [done|]. apply enforced_apply. by left.
Qed.

Lemma failure_None o : failure o = None -> o = Done.
Proof. by destruct o. Qed.

Lemma wp_error_enter n r s : vacant n s -> wp (error_enter r) (entered_ok n) s.
Proof.
  intros Hv. apply wp_bind, wp_bind, wp_gets, wp_bind, wp_disable_check. intros s' Hq.
  apply wp_apply. intros o. apply wp_ret.
  pose proof (vacant_quiet n s s' Hq Hv) as (Hb & Hl & Ht & Hr).
  destruct Hq as ((_ & _ & Ha & Hn & _ & _ & _ & _ & He & _) & _).
  split; [split; [split|]|].
  - by apply base_apply.
  - cbn. unfold blocked_now. cbn. by rewrite Ha, Hn, He.
  - done.
  - done.
  - done.
  - eexists. split; [done|]. intros Hf%failure_None. subst. cbn. eauto.
Qed.

Lemma vacant_emit n e s : neutral e -> vacant n s -> vacant n (with_log s (e :: log s)).
Proof. intros. by eapply vacant_quiet; [apply quiet_emit|]. Qed.

Lemma wp_start params attempt n s :
  vacant n s -> include_only_routes params = include_only s ->
  enforced (log s) = Some (fw_include_only s, connecting_policy s (from_params params) None AttNone) ->
  wp (c ← start_tunnel_warren params attempt;
      mret (SConnecting c, TrConnecting (get_tunnel_endpoint (c_parameters c)))) (entered_ok n) s.
Proof.
  intros ([Hb1 Hb2 Hb3 Hb4 Hb5] & Hl & Ht & Hr) Hp He.
  apply wp_bind, wp_bind, wp_gets, wp_bind, wp_emit, wp_bind, wp_modify, wp_ret, wp_ret.
  split; [split; [split|]|]; cbn.
  - split; cbn; try done.
    + split; [done|]. split; [|done]. exists (allow_lan s), (lan_networks s), (allowed_endpoint s).
      rewrite He, Hb1, Hp. done.
    + intros lp release [= <-]. cbn. done.
  - exists None, AttNone. split; [done|]. by left.
  - split; [done|]. split; [by eexists|lia].
  - done.
  - done.
  - done.
Qed.

Lemma wp_connecting_start n a generated s :
  vacant n s ->
  wp (params ← gets (fun s => prepared s generated);
      failed ← connecting_set_firewall_policy (from_params params) None AttNone;
      match failed with
      | Some error => error_enter (SetFirewallPolicyError error)
      | None =>
          c ← start_tunnel_warren params a;
          mret (SConnecting c, TrConnecting (get_tunnel_endpoint (c_parameters c)))
      end) (entered_ok n) s.
Proof.
  intros Hv. apply wp_bind, wp_gets, wp_bind, wp_bind, wp_disable_check. intros s' Hq.
  pose proof (vacant_quiet n s s' Hq Hv) as Hv'.
  apply wp_bind, wp_gets, wp_apply. intros o.
  destruct (failure o) as [e|] eqn:Ho.
  - apply wp_error_enter. by apply vacant_apply.
  - apply failure_None in Ho as ->. eapply wp_start; [by apply vacant_apply| |done].
    destruct Hq as ((Hm & _) & _). cbn. unfold include_only. cbn. by rewrite Hm.
Qed.

Lemma wp_refused n s :
  vacant n s -> wp refusal_block_reason (fun _ => vacant n) s.
Proof.
  intros Hv. apply wp_bind, wp_gets, wp_bind, wp_gets. unfold id.
  destruct (block_reason_before_dialing _ _ _) as [[cause r] asked].
  apply wp_bind, wp_modify, wp_bind.
  assert (Hv' : vacant n (with_refusals s r)) by by apply (vacant_quiet _ s).
  destruct asked; [apply wp_emit|apply wp_ret]; apply wp_ret; [by apply vacant_emit|done].
Qed.

Lemma wp_connecting_enter n a s : vacant n s -> wp (connecting_enter a) (entered_ok n) s.
Proof.
  intros Hv. apply wp_bind.
  apply (wp_mono _ (fun _ => vacant n)).
  - destruct (a =? 0); [|by apply wp_refused].
    apply wp_bind, wp_modify, wp_ret. by apply (vacant_quiet _ s).
  - intros [cause|] s' Hv'; [by apply wp_error_enter|].
    apply wp_bind, wp_bind, wp_gets, wp_bind, wp_emit, wp_ret.
    assert (Hg : vacant n (with_log s' (FxGenerated a :: log s'))) by by apply vacant_emit.
    destruct (generate_warren_tunnel_params (log s') a) as [err|params]; [by apply wp_error_enter|].
    by apply wp_connecting_start.
Qed.

(** A policy that follows the lockdown is requested, or none. *)
Lemma wp_disconnected_policy (reset : bool) Q s :
  (forall s', same_settings s s' -> lap s' = lap s -> recent_reconnects s' = recent_reconnects s ->
    tunnels (log s') = tunnels (log s) -> shown (log s') = shown (log s) -> (orderly (log s) -> orderly (log s')) ->
    requested (log s') = (if lockdown_bool (lockdown_mode s) then Some (fw_include_only s, blocked_now s)
                          else if reset then None else requested (log s)) ->
    Q tt s') ->
  wp (disconnected_set_firewall_policy reset) Q s.
Proof.
  intros HQ. apply wp_bind, wp_gets. unfold id. destruct (lockdown_bool (lockdown_mode s)) eqn:Hl.
  - apply wp_bind, wp_apply. intros o. apply wp_ret, HQ; by repeat split.
  - destruct reset; [apply wp_bind, wp_gets, wp_emit|apply wp_ret]; apply HQ; by repeat split.
Qed.

Lemma base_settings s s' :
  same_settings s s' -> lap s' = lap s -> recent_reconnects s' = recent_reconnects s ->
  (orderly (log s) -> orderly (log s')) -> base s -> base s'.
Proof.
  intros (Hm & Hf & Ha & Hn & Hr & _) Hlap Hre Ho [].
  split; unfold include_only in *; rewrite ?Hm, ?Hf, ?Ha, ?Hn, ?Hr, ?Hlap, ?Hre; auto.
Qed.

Lemma blocked_now_same s s' : same_settings s s' -> blocked_now s' = blocked_now s.
Proof. intros (_ & _ & Ha & Hn & _ & _ & _ & _ & He & _). unfold blocked_now. by rewrite Ha, Hn, He. Qed.

Lemma wp_disconnected_enter n (reset : bool) s :
  vacant n s -> (reset = false -> requested (log s) = None) -> wp (disconnected_enter reset) (entered_ok n) s.
Proof.
  intros (Hb & Hl & Ht & Hr) Hreq. apply wp_bind, wp_emit, wp_bind, wp_disconnected_policy.
  cbn. intros s1 Hs1 Hl1 Hre1 Ht1 Hsh1 Ho1 Hr1. apply wp_bind, wp_reset_check. intros s2 Hq.
  apply wp_bind, wp_gets, wp_ret.
  pose proof (base_quiet _ _ Hq (base_settings s s1 Hs1 Hl1 Hre1 Ho1 Hb)) as Hb2.
  pose proof Hq as ((_ & Hf & _ & _ & _ & Hlk & _) & Hl2 & _ & _ & Hrq & Ht2 & _).
  pose proof Hs1 as (_ & Hf1 & _ & _ & _ & Hlk1 & _). cbn in Hf1, Hlk1.
  split; [split; [split|]|]; cbn.
  - done.
  - rewrite Hrq, Hr1, Hlk, Hlk1, Hf, Hf1.
    rewrite (blocked_now_same s1 s2) by apply Hq. rewrite (blocked_now_same s s1) by done.
    destruct (lockdown_bool (lockdown_mode s)); [done|]. destruct reset; auto.
  - rewrite Hl2, Hl1, Ht2, Ht1. done.
  - done.
  - done.
  - done.
Qed.

Lemma wp_disconnecting_enter n a s : occupied n s -> wp (disconnecting_enter false a) (entered_ok n) s.
Proof.
  intros (Hb & Hl & Ht & Hr & He). apply wp_bind, wp_emit, wp_ret.
  split; [split; [split|]|]; cbn; try done; [by destruct Hb|by eexists].
Qed.
End Invariant.
