(* ===== verification/TunnelTurn.v ===== *)
(** * Every turn of the tunnel state machine keeps its invariant

    One lemma per handler, then the turn and the runs of the machine. *)

From S2P Require Import Prelude Net Networks Routes Tunnel Refusals TunnelMachine TunnelInv.
Open Scope Z_scope.

(** [base] after a change it does not depend on. *)
Ltac rebase := match goal with Hb : base ?s |- base _ => destruct Hb; split; done end.

Section Turn.
Context `{!Networks, !Descriptors, W : !World}.
Implicit Types (s : Shared) (c : Connecting) (k : Connected) (n : Z).

(** The changes of settings keep [base]. *)
Lemma base_lan s allow nets :
  base s -> base (with_lan s allow nets (lan_routes_update (lan_routes s) allow nets)).
Proof.
  intros []. split; try done. cbn. unfold lan_routes_update, send_if_modified.
  destruct (decide (w_value (lan_routes s) = routed allow nets)) as [He|He].
  - by rewrite bool_decide_true.
  - by rewrite bool_decide_false.
Qed.

Lemma base_split_apps s m :
  base s -> base (with_split (with_split s m (fw_include_only s)) m (bool_decide (m = SplitIncludeOnly))).
Proof. intros []. by split. Qed.

Lemma wp_set_allow_lan allow nets Q s :
  ((allow_lan s = allow /\ lan_networks s = nets) -> Q false s) ->
  Q true (with_lan s allow nets (lan_routes_update (lan_routes s) allow nets)) ->
  wp (set_allow_lan allow nets) Q s.
Proof.
  intros Hf Ht. apply wp_bind, wp_gets. unfold id.
  destruct (negb _ || negb _) eqn:He; [by apply wp_bind, wp_modify, wp_ret|].
  apply wp_ret, Hf. apply orb_false_iff in He as [Ha%negb_false_iff Hn%negb_false_iff].
  split; [by apply eqb_prop|by apply bool_decide_eq_true in Hn].
Qed.

Lemma wp_set_dns servers Q s :
  (dns_config s = servers -> Q false s) -> Q true (with_dns s servers) -> wp (set_dns_config servers) Q s.
Proof.
  intros Hf Ht. apply wp_bind, wp_gets. unfold id.
  destruct (decide (dns_config s = servers)) as [He|He].
  - rewrite bool_decide_true by done. by apply wp_ret, Hf.
  - rewrite bool_decide_false by done. by apply wp_bind, wp_modify, wp_ret.
Qed.

(** The split mode, [base] holding: the firewall's own flag follows. *)
Lemma wp_set_split m Q s :
  base s ->
  (forall s' (changed : bool), base s' -> lap s' = lap s -> log s' = log s -> lockdown_mode s' = lockdown_mode s ->
    allow_lan s' = allow_lan s -> lan_networks s' = lan_networks s -> allowed_endpoint s' = allowed_endpoint s ->
    dns_config s' = dns_config s -> connectivity s' = connectivity s ->
    (changed = false -> fw_include_only s' = fw_include_only s) -> Q changed s') ->
  wp (set_split_apps m) Q s.
Proof.
  intros Hb HQ. apply wp_bind, wp_gets, wp_bind, wp_modify, wp_bind, wp_modify, wp_ret.
  apply HQ; try done; [by apply base_split_apps|].
  intros Hc%negb_false_iff%bool_decide_eq_true. cbn. rewrite <- Hc. symmetry. apply base_split, Hb.
Qed.

Lemma occupied_same n s s' :
  occupied n s -> base s' -> lap s' = lap s -> log s' = log s -> occupied n s'.
Proof. intros (_ & Ho) Hb Hl Hlog. split; [done|]. by rewrite Hl, Hlog. Qed.

(** ** Leaving a state that holds a tunnel *)

Lemma kept_occupied n state s :
  kept n state s ->
  match state with SConnecting _ | SConnected _ | Disconnecting _ _ => occupied n s | _ => True end.
Proof.
  intros [[Hb Hf Ht _] Hr]. destruct state; [done| | | |done];
    (split; [done|]); (split; [by apply Ht|]); (split; [by apply Ht|]); (split; [by apply Hr|]); cbn in Hf.
  - destruct Hf as (? & ? & -> & _). eauto.
  - destruct Hf as (? & ->). eauto.
  - done.
Qed.

Lemma wp_new n (m : TM (TunnelState * TunnelStateTransition)) s :
  wp m (entered_ok n) s -> wp (entered ← m; mret (NewState entered)) (turn_ok n) s.
Proof. intros Hm. apply wp_bind. eapply wp_mono; [exact Hm|]. intros e s' He. by apply wp_ret. Qed.

Lemma wp_connecting_disconnect n c a s :
  occupied n s -> c_terminated c = false -> wp (connecting_disconnect c a) (turn_ok n) s.
Proof. intros Ho Hc. unfold connecting_disconnect. rewrite Hc. by apply wp_new, wp_disconnecting_enter. Qed.

Lemma wp_connected_disconnect n k a s :
  occupied n s -> k_terminated k = false -> wp (connected_disconnect k a) (turn_ok n) s.
Proof.
  intros Ho Hk. unfold connected_disconnect. rewrite Hk.
  apply wp_bind, wp_emit, wp_new, wp_disconnecting_enter. eapply occupied_quiet; [by apply quiet_emit|done].
Qed.

(** ** The connecting state *)

Lemma wp_reset_firewall n c s :
  occupied n s -> c_terminated c = false -> told (SConnecting c) s -> wp (reset_firewall c) (turn_ok n) s.
Proof.
  intros Ho Hc Hs. apply wp_bind, wp_bind, wp_disable_check. intros s' Hq.
  apply wp_bind, wp_gets, wp_apply. intros o.
  pose proof (occupied_quiet _ _ _ Hq Ho) as Ho'.
  destruct (failure o) as [e|] eqn:Hfail.
  - apply wp_connecting_disconnect; [by apply occupied_apply|done].
  - apply failure_None in Hfail as ->. apply wp_ret. destruct Ho' as (Hb & Hl & Ht & Hr & He).
    split; [split; [split|]|]; cbn.
    + by apply base_apply.
    + exists (c_metadata c), (c_traffic c). split; [done|]. by left.
    + done.
    + done.
    + done.
    + destruct Hq as (_ & _ & _ & _ & _ & _ & _ & Hsh & _). unfold told in *. cbn. by rewrite Hsh.
Qed.

Lemma told_connecting c c' s :
  told (SConnecting c) s -> c_parameters c' = c_parameters c -> told (SConnecting c') s.
Proof. unfold told. intros Hs Hp. destruct (shown (log s)); [|done]. cbn in *. by rewrite Hp. Qed.

(** A change the connecting policy does not depend on. *)
Lemma same_connecting n c s s' :
  kept n (SConnecting c) s -> told (SConnecting c) s -> base s' -> lap s' = lap s -> log s' = log s ->
  fw_include_only s' = fw_include_only s -> allow_lan s' = allow_lan s -> lan_networks s' = lan_networks s ->
  allowed_endpoint s' = allowed_endpoint s ->
  wp (mret (SameState (SConnecting c))) (turn_ok n) s'.
Proof.
  intros [[Hb Hf Ht _] Hr] Hs Hb' Hl Hlog Hfw Ha Hn He. apply wp_ret.
  split; [split; [split|]|]; cbn in *; rewrite ?Hl, ?Hlog, ?Hfw; try done.
  - destruct Hf as (m & t & Hp & Hmt). exists m, t. split; [|done].
    rewrite Hp. unfold connecting_policy. by rewrite Ha, Hn, He.
  - unfold told in *. by rewrite Hlog.
Qed.

Lemma wp_connecting_commands n c command s :
  kept n (SConnecting c) s -> told (SConnecting c) s -> wp (connecting_commands c command) (turn_ok n) s.
Proof.
  intros Hk Hs. pose proof (kept_occupied _ _ _ Hk) as Ho. cbn in Ho.
  pose proof (inv_tunnel _ _ (proj1 Hk)) as (Hc & _). pose proof (proj1 Ho) as Hb.
  destruct command as [[allow nets|e|servers|m| |conn| | |r|m]|]; cbn [connecting_commands].
  - apply wp_bind, wp_set_allow_lan; [intros _; by eapply same_connecting|].
    apply wp_reset_firewall; [|done|done]. eapply occupied_same; try done. by apply base_lan.
  - apply wp_bind, wp_gets. unfold id. destruct (decide (allowed_endpoint s = e)) as [He|He].
    + rewrite bool_decide_true by done. by eapply same_connecting.
    + rewrite bool_decide_false by done. apply wp_bind, wp_modify, wp_reset_firewall; [|done|done].
      eapply occupied_same; try done. rebase.
  - apply wp_bind, wp_set_dns; [intros _; by eapply same_connecting|]. eapply same_connecting; try done. rebase.
  - apply wp_bind, wp_modify. eapply same_connecting; try done. rebase.
  - by apply wp_reset_firewall.
  - apply wp_bind, wp_modify. destruct (is_offline conn).
    + apply wp_connecting_disconnect; [|done]. eapply occupied_same; try done. rebase.
    + eapply same_connecting; try done. rebase.
  - by apply wp_connecting_disconnect.
  - by apply wp_connecting_disconnect.
  - by apply wp_connecting_disconnect.
  - apply wp_bind, wp_set_split; [done|].
    intros s' changed Hb' Hl' Hlog Hlk Ha Hn He Hd Hcon Hfw. destruct changed.
    + apply wp_connecting_disconnect; [|done]. by eapply occupied_same.
    + eapply (same_connecting n c s); try done. by apply Hfw.
  - by apply wp_connecting_disconnect.
Qed.

(** ** The connected state *)

(** A policy of [k] was applied: in force, or the tunnel is closed. *)
Lemma applied_connected k s :
  enforced (FxApply (fw_include_only s) (get_firewall_policy k s) Done :: log s) =
    Some (fw_include_only s, get_firewall_policy (with_metadata k (k_metadata k)) s).
Proof. by destruct k. Qed.

Lemma wp_connected_set_dns k Q s :
  (forall ok s', quiet s s' -> Q ok s') -> wp (connected_set_dns k) Q s.
Proof.
  intros HQ. apply wp_bind, wp_gets, wp_bind, wp_gets, wp_bind, wp_emit, wp_ret, HQ. by apply quiet_emit.
Qed.

Lemma get_firewall_policy_quiet k s s' : quiet s s' -> get_firewall_policy k s' = get_firewall_policy k s.
Proof.
  intros ((_ & _ & Ha & Hn & _ & _ & _ & Hd & _) & _). unfold get_firewall_policy, resolve_dns. by rewrite Ha, Hn, Hd.
Qed.

Lemma wp_connected_enter n c m s :
  occupied n s -> c_terminated c = false -> wp (connected_enter c m) (entered_ok n) s.
Proof.
  intros Ho Hc. apply wp_bind, wp_gets, wp_bind, wp_gets. unfold id. cbv zeta. rewrite Hc.
  set (armed := is_offline (connectivity s) && is_multi_hop (c_parameters c)).
  destruct (is_offline (connectivity s) && negb _) eqn:Hoff; [by apply wp_disconnecting_enter|].
  set (k := mkConnected _ _ _ _ _).
  apply wp_bind, wp_bind, wp_gets, wp_apply. intros o.
  destruct (failure o) as [e|] eqn:Hf; [by apply wp_disconnecting_enter, occupied_apply|].
  apply failure_None in Hf as ->.
  apply wp_bind, wp_connected_set_dns. intros ok s' Hq.
  pose proof (occupied_quiet _ _ _ Hq (occupied_apply _ _ _ _ _ Ho)) as Ho'.
  destruct ok; [|by apply wp_disconnecting_enter]. apply wp_ret.
  destruct Ho' as (Hb & Hl & Ht & Hr & He). pose proof Hq as (Hset & _ & _ & Henf & _).
  split; [split; [split|]|]; cbn.
  - done.
  - exists m. rewrite Henf. rewrite (get_firewall_policy_quiet _ _ _ Hq). cbn.
    destruct Hset as (_ & -> & _). done.
  - done.
  - destruct Hset as (_ & _ & _ & _ & _ & _ & Hcon & _). cbn in Hcon. rewrite Hcon.
    fold armed. split; [|by destruct armed eqn:Ha; [apply andb_true_iff in Ha as [_ ->]|intros [? ?]]].
    intros Hof. unfold armed. rewrite Hof in *. destruct (is_multi_hop (c_parameters c)); [by eexists|done].
  - done.
  - done.
Qed.

(** A change the connected policy does not depend on, the deadline and the metadata apart. *)
Lemma same_connected n k k' s s' :
  kept n (SConnected k) s -> base s' -> lap s' = lap s -> log s' = log s ->
  fw_include_only s' = fw_include_only s -> allow_lan s' = allow_lan s -> lan_networks s' = lan_networks s ->
  dns_config s' = dns_config s -> k_parameters k' = k_parameters k -> k_terminated k' = k_terminated k ->
  k_peers k' = k_peers k -> graced (SConnected k') s' -> kept n (SConnected k') s'.
Proof.
  intros [[Hb Hf Ht _] Hr] Hb' Hl Hlog Hfw Ha Hn Hd Hp Htm Hpe Hg.
  split; [split|]; cbn in *; rewrite ?Hl, ?Hlog, ?Hfw, ?Htm; try done.
  - destruct Hf as (m & Hm). exists m. rewrite Hm. unfold get_firewall_policy, resolve_dns. cbn. by rewrite Ha, Hn, Hd, Hpe.
  - intros _. by apply Hr.
Qed.

Lemma told_same k k' s s' :
  told (SConnected k) s -> log s' = log s -> k_parameters k' = k_parameters k -> k_metadata k' = k_metadata k ->
  told (SConnected k') s'.
Proof.
  unfold told. intros Hs -> Hp Hm. destruct (shown (log s)); [|done]. cbn in *. by rewrite Hp, Hm.
Qed.

Lemma stay_connected n k s s' :
  kept n (SConnected k) s -> told (SConnected k) s -> base s' -> lap s' = lap s -> log s' = log s ->
  fw_include_only s' = fw_include_only s -> allow_lan s' = allow_lan s -> lan_networks s' = lan_networks s ->
  dns_config s' = dns_config s -> connectivity s' = connectivity s ->
  wp (mret (SameState (SConnected k))) (turn_ok n) s'.
Proof.
  intros Hk Hs Hb Hl Hlog Hfw Ha Hn Hd Hc. apply wp_ret. split.
  - eapply same_connected; try done. pose proof (inv_graced _ _ (proj1 Hk)) as Hg. cbn in *. by rewrite Hc.
  - by eapply told_same.
Qed.

Lemma wp_reapply n k s :
  occupied n s -> k_terminated k = false -> graced (SConnected k) s -> told (SConnected k) s ->
  wp (reapply k) (turn_ok n) s.
Proof.
  intros Ho Hk Hg Hs. apply wp_bind, wp_bind, wp_gets, wp_apply. intros o.
  destruct (failure o) as [e|] eqn:Hf; [by apply wp_connected_disconnect; [apply occupied_apply|]|].
  apply failure_None in Hf as ->. apply wp_ret. destruct Ho as (Hb & Hl & Ht & Hr & _).
  split; [split; [split|]|]; cbn; try done.
  - by apply base_apply.
  - exists (k_metadata k). exact (applied_connected k s).
Qed.

Lemma wp_connected_dns n k servers s :
  kept n (SConnected k) s -> told (SConnected k) s ->
  wp (connected_commands k (Some (CmdDns servers))) (turn_ok n) s.
Proof.
  intros Hk Hs. pose proof (kept_occupied _ _ _ Hk) as Ho. cbn in Ho.
  pose proof (inv_tunnel _ _ (proj1 Hk)) as (Hc & _). pose proof (proj1 Ho) as Hb.
  apply wp_bind, wp_set_dns; [by intros _; eapply stay_connected|].
  apply wp_bind, wp_bind, wp_gets, wp_apply. intros o.
  assert (Ho' : occupied n (with_dns s servers)) by (eapply occupied_same; try done; rebase).
  destruct (failure o) as [e|] eqn:Hf; [by apply wp_connected_disconnect; [apply occupied_apply|]|].
  apply failure_None in Hf as ->. apply wp_bind, wp_connected_set_dns. intros ok s' Hq.
  pose proof (occupied_quiet _ _ _ Hq (occupied_apply _ _ _ _ _ Ho')) as Ho2.
  destruct ok; [|by apply wp_connected_disconnect]. apply wp_ret.
  destruct Ho2 as (Hb2 & Hl & Ht & Hr & He). pose proof Hq as (Hset & _ & _ & Henf & _ & _ & _ & Hsh & _).
  split; [split; [split|]|]; cbn.
  - done.
  - exists (k_metadata k). rewrite Henf. etrans; [exact (applied_connected k (with_dns s servers))|].
    rewrite (get_firewall_policy_quiet _ _ _ Hq). destruct Hset as (_ & -> & _). done.
  - done.
  - pose proof (inv_graced _ _ (proj1 Hk)) as Hg. cbn in Hg.
    destruct Hset as (_ & _ & _ & _ & _ & _ & -> & _). done.
  - done.
  - unfold told in *. by rewrite Hsh.
Qed.

Lemma wp_connected_connectivity n k conn s :
  kept n (SConnected k) s -> told (SConnected k) s -> wp (connected_connectivity k conn) (turn_ok n) s.
Proof.
  intros Hk Hs. pose proof (kept_occupied _ _ _ Hk) as Ho. cbn in Ho.
  pose proof (inv_tunnel _ _ (proj1 Hk)) as (Hc & _). pose proof (proj1 Ho) as Hb.
  pose proof (inv_graced _ _ (proj1 Hk)) as [_ Hg].
  assert (Hb' : base (with_connectivity s conn)) by rebase.
  apply wp_bind, wp_modify. unfold grace_action.
  destruct (is_offline conn) eqn:Hoff, (is_multi_hop (k_parameters k)) eqn:Hmh.
  2: by apply wp_connected_disconnect; [eapply occupied_same|].
  1: destruct (bool_decide_reflect (is_Some (offline_grace_deadline k))) as [Hd|Hd];
       [apply wp_ret|apply wp_bind, wp_gets, wp_ret]; (split; [|by eapply told_same]);
       eapply (same_connected n k _ s); try done; cbn; by rewrite ?Hoff, ?Hmh.
  all: apply wp_ret; (split; [|by eapply told_same]); eapply (same_connected n k _ s); try done; cbn;
    rewrite Hoff; split; [done|by intros [? ?]].
Qed.

Lemma wp_connected_commands n k command s :
  kept n (SConnected k) s -> told (SConnected k) s -> wp (connected_commands k command) (turn_ok n) s.
Proof.
  intros Hk Hs. pose proof (kept_occupied _ _ _ Hk) as Ho. cbn in Ho.
  pose proof (inv_tunnel _ _ (proj1 Hk)) as (Hc & _). pose proof (proj1 Ho) as Hb.
  pose proof (inv_graced _ _ (proj1 Hk)) as Hg.
  destruct command as [[allow nets|e|servers|m| |conn| | |r|m]|]; cbn [connected_commands].
  - apply wp_bind, wp_set_allow_lan; [by intros _; eapply stay_connected|].
    apply wp_reapply; try done. eapply occupied_same; try done. by apply base_lan.
  - apply wp_bind, wp_modify. eapply stay_connected; try done. rebase.
  - by apply wp_connected_dns.
  - apply wp_bind, wp_modify. eapply stay_connected; try done. rebase.
  - by apply wp_reapply.
  - by apply wp_connected_connectivity.
  - by apply wp_connected_disconnect.
  - by apply wp_connected_disconnect.
  - by apply wp_connected_disconnect.
  - apply wp_bind, wp_set_split; [done|].
    intros s' changed Hb' Hl' Hlog Hlk Ha Hn He Hd Hcon Hfw. destruct changed.
    + apply wp_connected_disconnect; [|done]. by eapply occupied_same.
    + eapply (stay_connected n k s); try done. by apply Hfw.
  - by apply wp_connected_disconnect.
Qed.

Lemma wp_connected_events n k event s :
  kept n (SConnected k) s -> told (SConnected k) s -> wp (connected_events k event) (turn_ok n) s.
Proof.
  intros Hk Hs. pose proof (kept_occupied _ _ _ Hk) as Ho. cbn in Ho.
  pose proof (inv_tunnel _ _ (proj1 Hk)) as (Hc & _). pose proof (proj1 Ho) as Hb.
  pose proof (inv_graced _ _ (proj1 Hk)) as Hg.
  destruct event as [[]|]; cbn [connected_events].
  - by eapply stay_connected.
  - by eapply stay_connected.
  - apply wp_ret. split; [by eapply same_connected|done].
  - by apply wp_connected_disconnect.
  - apply wp_reapply; [done|done|exact Hg|by eapply told_same].
  - by apply wp_connected_disconnect.
Qed.

Lemma wp_connected_grace n k s :
  kept n (SConnected k) s -> told (SConnected k) s -> wp (connected_grace_expired k) (turn_ok n) s.
Proof.
  intros Hk Hs. pose proof (kept_occupied _ _ _ Hk) as Ho. cbn in Ho.
  pose proof (inv_tunnel _ _ (proj1 Hk)) as (Hc & _). pose proof (proj1 Ho) as Hb.
  apply wp_bind, wp_gets. destruct (is_offline (connectivity s)) eqn:Hoff; [by apply wp_connected_disconnect|].
  apply wp_ret. split; [|by eapply told_same]. eapply (same_connected n k _ s); try done. cbn.
  rewrite Hoff. split; [done|by intros [? ?]].
Qed.

(** ** A tunnel that ended *)

Lemma vacant_laps n s laps : zlen laps <= FLAP_MAX -> vacant n s -> vacant n (with_laps s laps).
Proof. intros Hl ([] & Hv). split; [by split|exact Hv]. Qed.

(** [leave] is quiet: the routes, and the DNS. *)
Definition quietly (leave : TM unit) : Prop := forall Q s, (forall s', quiet s s' -> Q tt s') -> wp leave Q s.

Lemma quietly_reset_routes : quietly reset_routes.
Proof. intros Q s HQ. by apply wp_reset_routes. Qed.

Lemma quietly_emit e m : neutral e -> quietly m -> quietly (emit e;; m).
Proof.
  intros He Hm Q s HQ. apply wp_bind, wp_emit, Hm. intros s' Hq. apply HQ.
  etrans; [by apply quiet_emit|exact Hq].
Qed.

Lemma wp_end_error n leave cause s :
  quietly leave -> (exists laps, vacant n (with_laps s laps)) ->
  wp (reset_flap_detector;; leave;; entered ← error_enter cause; mret (NewState entered)) (turn_ok n) s.
Proof.
  intros Hq [laps Hv]. apply wp_bind, wp_modify, wp_bind, Hq. intros s' Hq'.
  apply wp_new, wp_error_enter. eapply vacant_quiet; [exact Hq'|].
  by apply (vacant_laps n (with_laps s laps) []).
Qed.

Lemma wp_note_reconnect n (m m' : TM EventConsequence) Q s :
  vacant n s ->
  (forall s', (exists laps, vacant n (with_laps s' laps)) -> wp m Q s') ->
  (forall s', vacant n s' -> wp m' Q s') ->
  wp (flapping ← note_reconnect; if flapping : bool then m else m') Q s.
Proof.
  intros Hv Hm Hm'. apply wp_bind, wp_bind, wp_gets, wp_bind, wp_gets. unfold id.
  destruct (note_reconnect_and_is_flapping _ _) as [flapping laps] eqn:Hn.
  apply wp_bind, wp_modify, wp_ret. destruct flapping.
  - apply Hm. exists []. by apply (vacant_laps n s []).
  - apply Hm', vacant_laps; [|done]. unfold note_reconnect_and_is_flapping in Hn. injection Hn as Hf <-. lia.
Qed.

Lemma vacant_with_laps n s : vacant n s -> exists laps, vacant n (with_laps s laps).
Proof. intros Hv. exists []. by apply vacant_laps. Qed.

Lemma wp_connected_close n block_reason s :
  vacant n s -> wp (connected_close_event block_reason) (turn_ok n) s.
Proof.
  intros Hv. assert (Hq : quietly (emit FxDnsResetBeforeRemoval;; reset_routes))
    by by apply quietly_emit, quietly_reset_routes.
  unfold connected_close_event. cbv zeta. destruct block_reason as [cause|].
  - apply wp_end_error; [done|by apply vacant_with_laps].
  - apply wp_bind, wp_gets. destruct (is_offline (connectivity s)).
    + apply wp_end_error; [done|by apply vacant_with_laps].
    + eapply wp_note_reconnect; [exact Hv|by intros; apply wp_end_error|].
      intros s' Hv'. apply wp_bind, Hq. intros s2 Hq2. apply wp_new, wp_connecting_enter. by eapply vacant_quiet.
Qed.

Lemma wp_connecting_close n c block_reason s :
  vacant n s -> wp (connecting_close_event c block_reason) (turn_ok n) s.
Proof.
  intros Hv. pose proof quietly_reset_routes as Hq.
  assert (Hagain : forall s', vacant n s' ->
    wp (reset_routes;; entered ← connecting_enter (next_attempt (retry_attempt c)); mret (NewState entered)) (turn_ok n) s').
  { intros s' Hv'. apply wp_bind, Hq. intros s2 Hq2. apply wp_new, wp_connecting_enter. by eapply vacant_quiet. }
  destruct block_reason as [cause|]; cbn [connecting_close_event].
  - apply wp_end_error; [done|by apply vacant_with_laps].
  - apply wp_bind, wp_gets. unfold id. destruct (is_offline (connectivity s)).
    + apply wp_end_error; [done|by apply vacant_with_laps].
    + destruct (run_is_open (refusals s)); [by apply Hagain|].
      eapply wp_note_reconnect; [exact Hv|by intros; apply wp_end_error|exact Hagain].
Qed.

Lemma wp_connecting_events n c event s :
  kept n (SConnecting c) s -> told (SConnecting c) s -> wp (connecting_events c event) (turn_ok n) s.
Proof.
  intros Hk Hs. pose proof (kept_occupied _ _ _ Hk) as Ho. cbn in Ho.
  pose proof (inv_tunnel _ _ (proj1 Hk)) as (Hc & _). pose proof (proj1 Ho) as Hb.
  destruct event as [[]|]; cbn [connecting_events].
  - by apply wp_connecting_disconnect.
  - apply wp_reset_firewall; [done|done|by eapply told_connecting].
  - by apply wp_new, wp_connected_enter.
  - apply wp_ret. destruct Hk as [[_ Hf Ht _] Hr].
    split; [split; [split|]|by eapply told_connecting]; try done; [|by intros _; apply Hr].
    destruct Hf as (m & t & Hp & _). exists m, t. split; [done|]. by right.
  - by eapply same_connecting.
  - by apply wp_connecting_disconnect.
Qed.

Lemma wp_after_disconnect n a block_reason s :
  vacant n s -> wp (after_disconnect a block_reason) (entered_ok n) s.
Proof.
  intros Hv. destruct block_reason as [cause|]; [by apply wp_error_enter|].
  destruct a; [by apply wp_disconnected_enter|by apply wp_error_enter|by apply wp_connecting_enter].
Qed.

(** ** The disconnecting state *)

Lemma wp_disconnecting_commands n a command s :
  kept n (Disconnecting false a) s -> told (Disconnecting false a) s ->
  wp (disconnecting_commands false a command) (turn_ok n) s.
Proof.
  intros Hk Hs. pose proof (kept_occupied _ _ _ Hk) as Ho. cbn in Ho. pose proof (proj1 Ho) as Hb.
  assert (Hstay : forall s' a', base s' -> lap s' = lap s -> log s' = log s ->
    wp (mret (SameState (Disconnecting false a'))) (turn_ok n) s').
  { intros s' a' Hb' Hl Hlog. apply wp_ret. destruct Hk as [[_ Hf Ht _] Hr].
    split; [split; [split|]|]; cbn in *; rewrite ?Hl, ?Hlog; try done; [by intros _; apply Hr|].
    unfold told in *. rewrite Hlog. by destruct (shown (log s)). }
  destruct command as [[allow nets|e|servers|m| |conn| | |r|m]|]; cbn [disconnecting_commands]; cbv zeta.
  - apply wp_bind, wp_set_allow_lan; [by intros _; apply Hstay|apply Hstay; try done]. by apply base_lan.
  - apply wp_bind, wp_modify, Hstay; try done. rebase.
  - apply wp_bind, wp_set_dns; [by intros _; apply Hstay|apply Hstay; try done]. rebase.
  - apply wp_bind, wp_modify, Hstay; try done. rebase.
  - by apply Hstay.
  - apply wp_bind, wp_modify, Hstay; try done. rebase.
  - by apply Hstay.
  - by apply Hstay.
  - by apply Hstay.
  - apply wp_bind, wp_set_split; [done|]. intros. by apply Hstay.
  - by apply Hstay.
Qed.

(** ** The disconnected state and the error state *)

Lemma told_kind state s s' :
  told state s -> shown (log s') = shown (log s) -> (forall t, tells state s t -> tells state s' t) -> told state s'.
Proof. unfold told. intros Hs ->. destruct (shown (log s)); auto. Qed.

(** After a change of the settings, the policy of the disconnected state applied again or not. *)
Lemma wp_disconnected_again n (changed reset : bool) s1 s :
  kept n Disconnected s -> told Disconnected s -> base s1 -> lap s1 = lap s -> log s1 = log s ->
  lockdown_bool (lockdown_mode s1) = lockdown_bool (lockdown_mode s) ->
  (changed = false -> fw_include_only s1 = fw_include_only s /\ blocked_now s1 = blocked_now s) ->
  wp ((if changed then disconnected_set_firewall_policy reset else mret tt);; mret (SameState Disconnected)) (turn_ok n) s1.
Proof.
  intros [[_ Hf [Hl0 Ht0] _] _] Hs Hb Hl Hlog Hlk Hsame. cbn in Hf.
  destruct changed.
  - apply wp_bind, wp_disconnected_policy. intros s2 Hs2 Hl2 Hre2 Ht2 Hsh2 Ho2 Hr2. apply wp_ret.
    pose proof Hs2 as (_ & Hfw & _ & _ & _ & Hlk2 & _).
    split; [split; [split|]|]; cbn.
    + by eapply base_settings.
    + rewrite Hr2, Hlk2, Hfw, (blocked_now_same s1 s2) by done.
      rewrite Hlk. destruct (lockdown_bool (lockdown_mode s)); [done|]. destruct reset; [done|]. by rewrite Hlog.
    + by rewrite Hl2, Hl, Ht2, Hlog.
    + done.
    + done.
    + eapply told_kind; [exact Hs|by rewrite Hsh2, Hlog|]. cbn. by rewrite Hlk2, Hlk.
  - apply wp_bind, wp_ret, wp_ret. destruct (Hsame eq_refl) as [Hfw Hbl].
    split; [split; [split|]|]; cbn; rewrite ?Hl, ?Hlog; try done.
    + by rewrite Hlk, Hfw, Hbl.
    + eapply told_kind; [exact Hs|by rewrite Hlog|]. cbn. by rewrite Hlk.
Qed.

Lemma stay_disconnected n s1 s :
  kept n Disconnected s -> told Disconnected s -> base s1 -> lap s1 = lap s -> log s1 = log s ->
  lockdown_bool (lockdown_mode s1) = lockdown_bool (lockdown_mode s) ->
  fw_include_only s1 = fw_include_only s -> blocked_now s1 = blocked_now s ->
  wp (mret (SameState Disconnected)) (turn_ok n) s1.
Proof. intros. by eapply (wp_disconnected_again n false false s1 s). Qed.

Lemma wp_lockdown_toggled n m s :
  kept n Disconnected s ->
  wp (set_lockdown_mode m;; disconnected_set_firewall_policy true;; entered ← disconnected_transition; mret (NewState entered))
    (turn_ok n) s.
Proof.
  intros [[Hb _ [Hl Ht] _] _]. apply wp_bind, wp_modify, wp_bind, wp_disconnected_policy.
  intros s2 Hs2 Hl2 Hre2 Ht2 _ Ho2 Hr2. apply wp_bind, wp_bind, wp_gets, wp_ret, wp_ret.
  pose proof Hs2 as (_ & Hfw & _ & _ & _ & Hlk2 & _).
  split; [split; [split|]|]; cbn; try done.
  - eapply base_settings; [done..|]. rebase.
  - rewrite Hr2, Hlk2, Hfw, (blocked_now_same _ s2 Hs2). by destruct (lockdown_bool _).
  - by rewrite Hl2, Ht2.
Qed.

Lemma wp_disconnected_commands n command s :
  kept n Disconnected s -> resets (log s) = n -> told Disconnected s ->
  wp (disconnected_commands command) (turn_ok n) s.
Proof.
  intros Hk Hn Hs. pose proof (inv_base _ _ (proj1 Hk)) as Hb. pose proof (inv_tunnel _ _ (proj1 Hk)) as [Hl Ht].
  assert (Hv : vacant n s) by done.
  destruct command as [[allow nets|e|servers|m| |conn| | |r|m]|]; cbn [disconnected_commands]; cbv zeta.
  - apply wp_bind, wp_set_allow_lan; [intros _; by apply (wp_disconnected_again n false false s s)|].
    eapply (wp_disconnected_again n true false _ s); try done. by apply base_lan.
  - apply wp_bind, wp_gets. unfold id. destruct (decide (allowed_endpoint s = e)) as [He|He].
    + rewrite bool_decide_true by done. by eapply (wp_disconnected_again n false false s s).
    + rewrite bool_decide_false by done. apply wp_bind, wp_bind, wp_modify.
      pose proof (wp_disconnected_again n true false (with_allowed_endpoint s e) s Hk Hs) as Ha.
      eapply wp_mono; [|intros ? ? Hx; exact Hx].
      assert (Hb' : base (with_allowed_endpoint s e)) by rebase.
      specialize (Ha Hb' eq_refl eq_refl eq_refl ltac:(done)). unfold wp in *. cbn in Ha.
      unfold mbind, TM_bind in Ha. by destruct (disconnected_set_firewall_policy false _).
  - apply wp_bind, wp_set_dns; [intros _; by eapply stay_disconnected|]. eapply stay_disconnected; try done. rebase.
  - apply wp_bind, wp_gets. unfold lockdown_eqb.
    destruct (eqb _ _) eqn:Hm; cbn [negb]; [|by apply (wp_lockdown_toggled n m s)].
    apply eqb_prop in Hm. apply wp_bind, wp_modify. eapply stay_disconnected; try done. rebase.
  - by eapply stay_disconnected.
  - apply wp_bind, wp_modify. eapply stay_disconnected; try done. rebase.
  - by apply wp_new, wp_connecting_enter.
  - by eapply stay_disconnected.
  - by eapply stay_disconnected.
  - apply wp_bind, wp_set_split; [done|].
    intros s' changed Hb' Hl' Hlog Hlk Ha Hnt He Hd Hcon Hfw.
    eapply (wp_disconnected_again n changed false s' s); try done; [by rewrite Hlk|].
    intros Hc. split; [by apply Hfw|]. unfold blocked_now. by rewrite Ha, Hnt, He.
  - apply wp_bind, wp_emit, wp_ret. destruct Hk as [[[] Hf Ht' Hg] _]. split; [|done]. by repeat split.
Qed.

Lemma wp_error_applied n r s1 s :
  kept n (Error r) s -> told (Error r) s -> base s1 -> lap s1 = lap s -> log s1 = log s ->
  wp error_set_firewall_policy (fun _ s' => turn_ok n (SameState (Error r)) s') s1.
Proof.
  intros [[_ _ [Hl0 Ht0] _] Hr0] Hs Hb Hl Hlog.
  apply wp_bind, wp_gets, wp_bind, wp_disable_check. intros s' Hq. apply wp_apply. intros o.
  pose proof Hq as (Hset & Hl' & _ & He' & _ & Ht' & Hr' & Hsh' & _).
  pose proof Hset as (_ & Hfw & Ha & Hn & _ & _ & _ & _ & He & _).
  split; [split; [split|]|]; cbn.
  - by apply base_apply, (base_quiet s1).
  - unfold blocked_now. cbn. by rewrite Ha, Hn, He.
  - by rewrite Hl', Hl, Ht', Hlog.
  - done.
  - intros _. rewrite Hr', Hlog. by apply Hr0.
  - eapply told_kind; [exact Hs|cbn; by rewrite Hsh', Hlog|]. cbn.
    intros t (f & -> & Hf). exists f. split; [done|]. intros Hnone. apply enforced_apply. left.
    rewrite He', Hlog. by apply Hf.
Qed.

Lemma stay_error n r s1 s :
  kept n (Error r) s -> told (Error r) s -> base s1 -> lap s1 = lap s -> log s1 = log s ->
  fw_include_only s1 = fw_include_only s -> blocked_now s1 = blocked_now s ->
  turn_ok n (SameState (Error r)) s1.
Proof.
  intros [[_ Hf [Hl0 Ht0] _] Hr0] Hs Hb Hl Hlog Hfw Hbl. cbn in Hf.
  split; [split; [split|]|]; cbn; rewrite ?Hl, ?Hlog, ?Hfw, ?Hbl; try done.
  eapply told_kind; [exact Hs|by rewrite Hlog|]. cbn. by rewrite Hlog.
Qed.

Lemma wp_error_again n r (changed : bool) s1 s :
  kept n (Error r) s -> told (Error r) s -> base s1 -> lap s1 = lap s -> log s1 = log s ->
  (changed = false -> fw_include_only s1 = fw_include_only s /\ blocked_now s1 = blocked_now s) ->
  wp ((if changed then error_set_firewall_policy;; mret tt else mret tt);; mret (SameState (Error r))) (turn_ok n) s1.
Proof.
  intros Hk Hs Hb Hl Hlog Hsame. destruct changed.
  - apply wp_bind, wp_bind. eapply wp_mono; [by eapply (wp_error_applied n r s1 s)|].
    intros ? s' Hok. by apply wp_ret, wp_ret.
  - apply wp_bind, wp_ret, wp_ret. destruct (Hsame eq_refl). by eapply stay_error.
Qed.

Lemma wp_error_commands n r command s :
  kept n (Error r) s -> told (Error r) s -> wp (error_commands r command) (turn_ok n) s.
Proof.
  intros Hk Hs. pose proof Hk as [[Hb Hf [Hl Ht] _] Hr].
  assert (Hv : vacant n s) by (split; [done|]; split; [done|]; split; [done|by apply Hr]).
  assert (Hagain : forall s', vacant n s' -> wp (emit FxDnsReset;; entered ← connecting_enter 0; mret (NewState entered)) (turn_ok n) s').
  { intros s' Hv'. apply wp_bind, wp_emit, wp_new, wp_connecting_enter. by apply vacant_emit. }
  assert (Hleave : wp (reset_connectivity_check;; emit FxDnsReset;; entered ← disconnected_enter true; mret (NewState entered))
                     (turn_ok n) s).
  { apply wp_bind, wp_reset_check. intros s' Hq. apply wp_bind, wp_emit, wp_new, wp_disconnected_enter; [|done].
    apply vacant_emit; [done|]. by eapply vacant_quiet. }
  destruct command as [[allow nets|e|servers|m| |conn| | |cause|m]|]; cbn [error_commands]; cbv zeta.
  - apply wp_bind, wp_set_allow_lan; [intros _; by apply (wp_error_again n r false s s)|].
    apply (wp_error_again n r true _ s); try done. by apply base_lan.
  - apply wp_bind, wp_gets. unfold id. destruct (decide (allowed_endpoint s = e)) as [He|He].
    + rewrite bool_decide_true by done. by apply (wp_error_again n r false s s).
    + rewrite bool_decide_false by done. apply wp_bind, wp_bind, wp_modify, wp_bind.
      eapply wp_mono; [apply (wp_error_applied n r _ s); try done; rebase|]. intros ? s' Hok. by apply wp_ret, wp_ret.
  - apply wp_bind, wp_set_dns; [intros _; by apply (wp_error_again n r false s s)|].
    apply (wp_error_again n r true _ s); try done. rebase.
  - apply wp_bind, wp_modify, wp_bind.
    eapply wp_mono; [apply (wp_error_applied n r _ s); try done; rebase|]. intros ? s' Hok. by apply wp_ret.
  - apply wp_ret. by eapply stay_error.
  - apply wp_bind, wp_modify. destruct (reconnects_on_connectivity r conn).
    + apply Hagain. destruct Hv as (_ & Hv). split; [rebase|exact Hv].
    + apply wp_ret. eapply (stay_error n r _ s); try done. rebase.
  - by apply Hagain.
  - exact Hleave.
  - by apply wp_new, wp_error_enter.
  - apply wp_bind, wp_set_split; [done|].
    intros s' changed Hb' Hl' Hlog Hlk Ha Hnt He Hd Hcon Hfw.
    apply (wp_error_again n r changed s' s); try done.
    intros Hc. split; [by apply Hfw|]. unfold blocked_now. by rewrite Ha, Hnt, He.
  - exact Hleave.
Qed.

(** ** The machine *)

Lemma kept_quiet n state s s' : quiet s s' -> kept n state s -> kept n state s'.
Proof.
  intros Hq [[Hb Hf Ht Hg] Hr]. pose proof (base_quiet _ _ Hq Hb) as Hb'.
  assert (Hget : forall k, get_firewall_policy k s' = get_firewall_policy k s)
    by (intros k; by apply get_firewall_policy_quiet).
  destruct Hq as ((Hm & Hfw & Ha & Hn & Hro & Hlk & Hc & Hd & He & _) & Hl & Hre & Henf & Hreq & Htu & Hres & _).
  split; [split|by rewrite Hres]; [done|..].
  - destruct state; cbn in *; unfold blocked_now, connecting_policy in *; rewrite ?Henf, ?Hreq, ?Hfw, ?Ha, ?Hn, ?Hlk, ?He; try done.
    destruct Hf as (m & ->). exists m. by rewrite Hget.
  - destruct state; cbn in *; by rewrite ?Hl, ?Htu.
  - destruct state; cbn in *; by rewrite ?Hc.
Qed.

(** What the machine is between two turns. *)
Definition machine_ok (m : Machine) : Prop :=
  match m with Running state s => Inv state s /\ told state s | Exited _ => True | Aborted _ => False end.

Lemma told_quiet state s s' : quiet s s' -> told state s -> told state s'.
Proof.
  intros ((_ & _ & _ & _ & _ & Hlk & _) & _ & _ & He & _ & _ & _ & Hsh & _) Hs.
  eapply told_kind; [exact Hs|exact Hsh|]. destruct state; cbn; rewrite ?Hlk, ?He; auto.
Qed.

Lemma received n s result :
  base s -> tunnels (log s) = 1 -> resets (log s) = n ->
  vacant n (with_lap (with_log s (FxWoken (Close result) :: log s)) None).
Proof. intros [] Ht Hr. split; [by split|]. split; [done|]. cbn. split; [lia|done]. Qed.

(** A wake-up other than the end of the tunnel. *)
Lemma woken n state r s Q :
  kept n state s -> told state s -> (forall result, r <> Close result) ->
  (forall s', kept n state s' -> told state s' -> resets (log s') = resets (log s) ->
    wp (handle_event state r) Q s') ->
  wp (emit (FxWoken r);; modify (fun s => receive s r);; handle_event (terminate state r) r) Q s.
Proof.
  intros Hk Hs Hr HQ. apply wp_bind, wp_emit, wp_bind, wp_modify.
  assert (Hq : quiet s (with_log s (FxWoken r :: log s))).
  { apply quiet_emit. destruct r; try done. by destruct (Hr result). }
  replace (terminate state r) with state by (destruct state, r; try done; by destruct (Hr result)).
  replace (receive _ r) with (with_log s (FxWoken r :: log s)) by (destruct r; try done; by destruct (Hr result)).
  apply HQ; [by eapply kept_quiet|by eapply told_quiet|]. by destruct r as [| |[]|].
Qed.

Lemma wp_turn state r s :
  Inv state s -> told state s -> waits_for state s r ->
  wp (emit (FxWoken r);; modify (fun s => receive s r);; handle_event (terminate state r) r)
    (turn_ok (resets (log s))) s.
Proof.
  intros Hi Hs Hw. set (n := resets (log s)). assert (Hk : kept n state s) by done.
  destruct r as [command|event|result|].
  - eapply woken; [done..|]. intros s' Hk' Hs' Hn. destruct state; cbn [handle_event].
    + by apply wp_disconnected_commands.
    + by apply wp_connecting_commands.
    + by apply wp_connected_commands.
    + destruct terminated; [by destruct Hk' as [[_ _ [? _] _] _]|]. by apply wp_disconnecting_commands.
    + by apply wp_error_commands.
  - eapply woken; [done..|]. intros s' Hk' Hs' Hn. destruct state as [| | |[]|]; try done; cbn [handle_event].
    + by apply wp_connecting_events.
    + by apply wp_connected_events.
  - apply wp_bind, wp_emit, wp_bind, wp_modify. pose proof (inv_base _ _ Hi) as Hb.
    pose proof (inv_tunnel _ _ Hi) as Ht. destruct state as [|c|k|[] a|]; try done; cbn [terminate handle_event].
    + apply wp_connecting_close, received; [done|by apply Ht|done].
    + apply wp_connected_close, received; [done|by apply Ht|done].
    + by destruct Ht.
    + apply wp_bind, wp_reset_routes. intros s' Hq. apply wp_new, wp_after_disconnect.
      eapply vacant_quiet; [exact Hq|]. apply received; [done|by apply Ht|done].
  - eapply woken; [done..|]. intros s' Hk' Hs' Hn. destruct state as [| | |[]|]; try done; cbn [handle_event].
    by apply wp_connected_grace.
Qed.

Lemma publish_kept n e s :
  entered_ok n e s -> kept n e.1 (snd (publish e.2 s)) /\ told e.1 (snd (publish e.2 s)).
Proof.
  intros [[[Hb Hf Ht Hg] Hr] Htell]. destruct e as [state t]. cbn in *. split; [|done].
  split; [split; [by destruct Hb|by destruct state..]|done].
Qed.

Lemma publish_ok n e s : entered_ok n e s -> machine_ok (Running e.1 (snd (publish e.2 s))).
Proof. intros [[Hi _] Ht]%publish_kept. done. Qed.

(** What a turn leaves before the loop may end: the state it goes to, its transition published.  Only
    the disconnected state finishes. *)
Definition turn_left (state : TunnelState) (r : EventResult) s : TunnelState * Shared :=
  let '(consequence, s) := (emit (FxWoken r);; modify (fun s => receive s r);; handle_event (terminate state r) r) s in
  match consequence with
  | NewState (state, transition) => (state, snd (publish transition s))
  | SameState state => (state, s)
  | Finished | Panicked => (Disconnected, s)
  end.

(** What a turn leads to: a state that keeps the invariant, or the shutdown of one that did. *)
Lemma turn_result state r s :
  Inv state s -> told state s -> waits_for state s r ->
  match machine_turn state r s with
  | Running state' s' => kept (resets (log s)) state' s' /\ told state' s'
  | Exited s' => let '(last, s2) := turn_left state r s in kept (resets (log s)) last s2 /\ s' = snd (shutdown s2)
  | Aborted _ => False
  end.
Proof.
  intros Hi Hs Hw. pose proof (wp_turn state r s Hi Hs Hw) as Hok. unfold wp in Hok. unfold machine_turn, turn_left.
  match type of Hok with turn_ok _ (?m _).1 _ => destruct (m s) as [consequence s'] end. cbn [fst snd] in Hok.
  destruct consequence as [[state' t]|state'| |]; try done.
  - apply publish_kept in Hok. cbn [fst snd] in Hok.
    destruct (publish t s') as [[] s2]; cbn [snd] in *; [done|]. split; [apply Hok|done].
  - destruct Hok as [Hok Hr]. split; [by split|done].
Qed.

Lemma turn_machine_ok state r s :
  Inv state s -> told state s -> waits_for state s r -> machine_ok (machine_turn state r s).
Proof.
  intros Hi Hs Hw. pose proof (turn_result state r s Hi Hs Hw) as Hok.
  destruct (machine_turn state r s); [|done|done]. by destruct Hok as [[Hi' _] Hs'].
Qed.

Lemma lap_end_paced r outcome t lp :
  paced (Some (mkLap (lap_start lp) (lap_attempt lp)
    (Some ((lap_end r outcome t).1, lap_release (lap_end r outcome t).2 (lap_end r outcome t).1 (lap_attempt lp) (lap_start lp) t)))).
Proof.
  intros l release [= <-]. cbn [lap_result lap_start lap_attempt]. intros [= Hreason <-].
  exists (pacing (lap_end r outcome t).2 t). unfold lap_release. rewrite Hreason. lia.
Qed.

Lemma machine_lap_ok state s lp outcome :
  Inv state s -> told state s -> lap s = Some lp -> machine_ok (Running state (machine_lap lp outcome s)).
Proof.
  intros [Hb Hf Ht Hg] Hs Hl.
  pose proof (lap_end_paced (refusals s) outcome (clock (FxLapEnded outcome :: log s)) lp) as Hp.
  unfold machine_lap. destruct (lap_end _ _ _) as [reason r]. cbn [fst snd] in Hp.
  split; [|by unfold told in *; cbn; destruct (shown (log s)); [destruct state|]].
  split.
  - destruct Hb. by split.
  - by destruct state.
  - destruct state; cbn in *; rewrite ?Hl in Ht;
      first [by destruct Ht as [[=] ?]|destruct Ht as (? & ? & ?); by eauto].
  - by destruct state.
Qed.

Lemma disconnected_enter_shown (reset : bool) s :
  wp (disconnected_enter reset) (fun e s' => e.1 = Disconnected /\ shown (log s') = shown (log s)) s.
Proof.
  apply wp_bind, wp_emit, wp_bind, wp_disconnected_policy. intros s1 ? ? ? ? Hsh ? ?.
  apply wp_bind, wp_reset_check. intros s2 Hq.
  pose proof Hq as (_ & _ & _ & _ & _ & _ & _ & Hsh2 & _).
  apply wp_bind, wp_gets, wp_ret. split; [done|]. by rewrite Hsh2, Hsh.
Qed.

Lemma machine_new_ok i conn : machine_ok (machine_new i conn).
Proof.
  unfold machine_new. set (s := mkShared _ _ _ _ _ _ _ _ _ _ _ _ _ _ _).
  assert (Hv : vacant 0 s) by (split; [by split|done]).
  destruct (i_initial_block i) as [cause|].
  - pose proof (wp_error_enter 0 cause s Hv) as He. unfold wp in He.
    destruct (error_enter cause s) as [[state t] s']. by apply publish_ok in He.
  - pose proof (wp_disconnected_enter 0 (i_reset_firewall i) s Hv (fun _ => eq_refl)) as He.
    pose proof (disconnected_enter_shown (i_reset_firewall i) s) as Hsh. unfold wp in He, Hsh.
    destruct (disconnected_enter _ s) as [[state t] s']. destruct He as [[Hi _] _], Hsh as [Hst Hsh]. cbn [fst snd] in *. subst state.
    split; [exact Hi|]. unfold told. by rewrite Hsh.
Qed.

(** The invariant holds in every reachable state of the machine. *)
Lemma reachable_ok m : reachable m -> machine_ok m.
Proof.
  intros (i & conn & Hr). pose proof (machine_new_ok i conn) as Hok.
  induction Hr as [|x y z Hxy _ IH]; [done|]. apply IH.
  destruct Hxy as [state s r Hw|state s lp outcome Hl _].
  - by apply turn_machine_ok; [apply Hok|apply Hok|].
  - by apply machine_lap_ok; [apply Hok|apply Hok|].
Qed.
End Turn.
