(* ===== verification/TunnelSpec.v ===== *)
(** * What the tunnel state machine promises

    The kill switch, the order in which tunnels and policies follow each other,
    what is published, how a disconnection and the end of the daemon go, and the
    bounds on an offline tunnel and on a tunnel that flaps. *)

From S2P Require Import Prelude Net Networks Routes Tunnel Refusals TunnelMachine TunnelInv TunnelTurn.
Open Scope Z_scope.

Section Spec.
Context `{!Networks, !Descriptors, W : !World}.
Implicit Types (s : Shared) (c : Connecting) (k : Connected).


(** C7: The machine never dials in the open, nor twice at once: in the whole log of a run, a tunnel
    starts when the one before has ended, and when the policy the kernel enforces admits that
    tunnel's relays, and no traffic through it yet. *)
Theorem dials_behind_firewall (state : TunnelState) s :
  reachable (Running state s) ->
  orderly (log s) /\
  tunnels (log s) = (match state with Disconnected | Error _ => 0 | _ => 1 end) /\
  (is_Some (lap s) <-> tunnels (log s) = 1).
Proof.
  intros Hr. apply reachable_ok in Hr as [[Hb _ Ht _] _]. split; [apply Hb|].
  destruct state; cbn in Ht; destruct_and?; split; try done;
    (split; [intros [? ?]|]; intros; first [done|congruence|lia]).
Qed.

(** The machine's [unreachable!()]s are: no reachable machine has aborted. *)
Theorem never_aborts m : reachable m -> forall s, m <> Aborted s.
Proof. intros Hr s ->. by apply reachable_ok in Hr. Qed.

(** C23: No gap between two policies: a turn that does not end disconnected resets the firewall at no
    point of it. *)
Theorem reset_only_to_disconnect (state state' : TunnelState) s s' (r : EventResult) :
  reachable (Running state s) -> waits_for state s r -> machine_turn state r s = Running state' s' ->
  state' <> Disconnected -> resets (log s') = resets (log s).
Proof.
  intros Hr Hw Hm Hn. apply reachable_ok in Hr as [Hi Hs].
  pose proof (turn_result state r s Hi Hs Hw) as Hok. rewrite Hm in Hok. by apply Hok.
Qed.


Lemma wp_shutdown s :
  wp shutdown (fun _ s' => lockdown_mode s' = lockdown_mode s /\
    if lockdown_bool (lockdown_mode s')
    then enforced (log s') = enforced (log s) /\ requested (log s') = requested (log s) /\ resets (log s') = resets (log s)
    else requested (log s') = None) s.
Proof.
  apply wp_bind, wp_gets, wp_bind. unfold id, should_persist.
  destruct (lockdown_bool (lockdown_mode s)) eqn:Hl; cbn [andb].
  - apply wp_modify, wp_bind, wp_emit, wp_bind, wp_gets, wp_ret. cbn. by rewrite Hl.
  - apply wp_bind, wp_gets, wp_emit, wp_bind, wp_emit, wp_bind, wp_gets. unfold id.
    destruct (reset_on_drop _); [apply wp_bind, wp_gets, wp_emit|apply wp_ret]; cbn; by rewrite Hl.
Qed.

(** C32: The end of the daemon.  When a turn ends the loop, what it left ([turn_left]: the state it
    went to, before the machine shuts down and is dropped) has its firewall as the kill switch says;
    and of that, under lockdown the policy in force stays in force, nothing else being asked and no
    reset done, while without lockdown the last thing asked is to remove every policy.  The lockdown
    setting is the one the turn left. *)
Theorem shutdown_follows_lockdown (state : TunnelState) s s' (r : EventResult) :
  reachable (Running state s) -> waits_for state s r -> machine_turn state r s = Exited s' ->
  let '(last, s2) := turn_left state r s in
  in_force last s2 /\ (last <> Disconnected -> resets (log s2) = resets (log s)) /\
  lockdown_mode s' = lockdown_mode s2 /\
  if lockdown_bool (lockdown_mode s2)
  then enforced (log s') = enforced (log s2) /\ requested (log s') = requested (log s2) /\
    resets (log s') = resets (log s2)
  else requested (log s') = None /\ (granted (log s') = true -> enforced (log s') = None).
Proof.
  intros Hr Hw Hm. apply reachable_ok in Hr as [Hi Hs].
  pose proof (turn_result state r s Hi Hs Hw) as Hok. rewrite Hm in Hok.
  destruct (turn_left state r s) as [last s2]. destruct Hok as [[[_ Hf _ _] Hn] ->]. split; [done|]. split; [done|].
  destruct (wp_shutdown s2) as [Hl Hsh]. split; [exact Hl|]. rewrite Hl in Hsh.
  destruct (lockdown_bool (lockdown_mode s2)); [exact Hsh|]. split; [exact Hsh|].
  intros Hg. by rewrite (granted_enforced _ Hg).
Qed.

(** ** Disconnecting *)

(** Someone listens to the transitions. *)
Definition heard : Prop := forall l, listening l = true.

(** A turn that enters a state, someone listening, and a turn that stays. *)
Lemma turn_entered state r s (P : TunnelState -> Prop) :
  heard ->
  wp (emit (FxWoken r);; modify (fun s => receive s r);; handle_event (terminate state r) r)
    (fun consequence _ => exists e, consequence = NewState e /\ P e.1) s ->
  exists state' s', P state' /\ machine_turn state r s = Running state' s'.
Proof.
  intros Hh Hm. unfold wp in Hm. unfold machine_turn.
  match type of Hm with context [(?m s).1] => destruct (m s) as [consequence s1] end.
  destruct Hm as ([state' t] & Hc & HP). cbn [fst] in *. subst consequence.
  assert (Hp : publish t s1 = (true, (publish t s1).2)).
  { rewrite (surjective_pairing (publish t s1)). f_equal. apply Hh. }
  rewrite Hp. by exists state', (publish t s1).2.
Qed.

Lemma turn_stays state r s (P : TunnelState -> Prop) :
  wp (emit (FxWoken r);; modify (fun s => receive s r);; handle_event (terminate state r) r)
    (fun consequence _ => exists state', consequence = SameState state' /\ P state') s ->
  exists state' s', P state' /\ machine_turn state r s = Running state' s'.
Proof.
  intros Hm. unfold wp in Hm. unfold machine_turn.
  match type of Hm with context [(?m s).1] => destruct (m s) as [consequence s1] end.
  destruct Hm as (state' & Hc & HP). cbn [fst] in *. subst consequence. by exists state', s1.
Qed.

Lemma error_enter_state r s : wp (error_enter r) (fun e _ => e.1 = Error r) s.
Proof.
  apply wp_bind, wp_bind, wp_gets, wp_bind, wp_disable_check. intros s' _. by apply wp_apply.
Qed.

Lemma wp_new_state (m : TM (TunnelState * TunnelStateTransition)) (P : TunnelState -> Prop) s :
  wp m (fun e _ => P e.1) s ->
  wp (entered ← m; mret (NewState entered)) (fun consequence _ => exists e, consequence = NewState e /\ P e.1) s.
Proof. intros Hm. apply wp_bind. eapply wp_mono; [exact Hm|]. intros e s' He. apply wp_ret. by exists e. Qed.

Lemma disconnected_entered (reset : bool) s : wp (disconnected_enter reset) (fun e _ => e.1 = Disconnected) s.
Proof. eapply wp_mono; [apply disconnected_enter_shown|]. by intros e s' [He _]. Qed.

(** [machine_turn] on a command. *)
Lemma turn_command_entered state command s (P : TunnelState -> Prop) :
  heard ->
  (forall s', wp (handle_event state (Command command)) (fun consequence _ => exists e, consequence = NewState e /\ P e.1) s') ->
  exists state' s', P state' /\ machine_turn state (Command command) s = Running state' s'.
Proof.
  intros Hh Hm. apply turn_entered; [done|]. apply wp_bind, wp_emit, wp_bind, wp_modify.
  replace (terminate state (Command command)) with state by (by destruct state). apply Hm.
Qed.

Lemma turn_command_stays state command s (P : TunnelState -> Prop) :
  (forall s', wp (handle_event state (Command command)) (fun consequence _ => exists state', consequence = SameState state' /\ P state') s') ->
  exists state' s', P state' /\ machine_turn state (Command command) s = Running state' s'.
Proof.
  intros Hm. apply turn_stays. apply wp_bind, wp_emit, wp_bind, wp_modify.
  replace (terminate state (Command command)) with state by (by destruct state). apply Hm.
Qed.

Lemma disconnecting_enter_state t a s : wp (disconnecting_enter t a) (fun e _ => e.1 = Disconnecting t a) s.
Proof. by apply wp_bind, wp_emit, wp_ret. Qed.

(** The answer to a Disconnect. *)
Lemma disconnect_turn state s :
  heard -> Inv state s ->
  exists state' s', machine_turn state (Command (Some CmdDisconnect)) s = Running state' s' /\
    state' = match state with Disconnected | Error _ => Disconnected | _ => Disconnecting false AdNothing end.
Proof.
  intros Hh Hi. pose proof (inv_tunnel _ _ Hi) as Ht. destruct state as [|c|k|t a|r]; cbn in Ht.
  - destruct (turn_command_stays Disconnected (Some CmdDisconnect) s (fun st => st = Disconnected)) as (st & s' & -> & He);
      [|by exists Disconnected, s']. intros s'. apply wp_ret. by eexists.
  - destruct Ht as (Hc & _).
    destruct (turn_command_entered (SConnecting c) (Some CmdDisconnect) s (fun st => st = Disconnecting false AdNothing) Hh)
      as (st & s' & -> & He); [|by exists (Disconnecting false AdNothing), s'].
    intros s'. cbn [handle_event connecting_commands]. unfold connecting_disconnect. rewrite Hc.
    apply (wp_new_state _ (fun st => st = Disconnecting false AdNothing)), disconnecting_enter_state.
  - destruct Ht as (Hc & _).
    destruct (turn_command_entered (SConnected k) (Some CmdDisconnect) s (fun st => st = Disconnecting false AdNothing) Hh)
      as (st & s' & -> & He); [|by exists (Disconnecting false AdNothing), s'].
    intros s'. cbn [handle_event connected_commands]. unfold connected_disconnect. rewrite Hc.
    apply wp_bind, wp_emit, (wp_new_state _ (fun st => st = Disconnecting false AdNothing)), disconnecting_enter_state.
  - destruct Ht as (-> & _).
    destruct (turn_command_stays (Disconnecting false a) (Some CmdDisconnect) s (fun st => st = Disconnecting false AdNothing))
      as (st & s' & -> & He); [|by exists (Disconnecting false AdNothing), s'].
    intros s'. apply wp_ret. by eexists.
  - destruct (turn_command_entered (Error r) (Some CmdDisconnect) s (fun st => st = Disconnected) Hh)
      as (st & s' & -> & He); [|by exists Disconnected, s'].
    intros s'. apply wp_bind, wp_reset_check. intros s2 _. apply wp_bind, wp_emit, (wp_new_state _ (fun st => st = Disconnected)), disconnected_entered.
Qed.

(** C31: Disconnect is never lost.  In every reachable state, a Disconnect leaves the machine
    disconnected, or waiting for the end of its tunnel with nothing to do after it; there, no command
    but Connect changes that; when the tunnel ends the machine is disconnected, unless the tunnel
    ended on an error of its own, which it then shows until the next Disconnect, which leaves it
    disconnected. *)
Theorem disconnect_is_reached (state : TunnelState) s :
  heard -> reachable (Running state s) ->
  exists state1 s1, machine_turn state (Command (Some CmdDisconnect)) s = Running state1 s1 /\
    (state1 = Disconnected \/
     (state1 = Disconnecting false AdNothing /\
      (forall command s', command <> Some CmdConnect ->
         exists s2, machine_turn state1 (Command command) s' = Running state1 s2) /\
      (forall result s', waits_for state1 s' (Close result) -> reachable (Running state1 s') ->
         match mjoin result with
         | None => exists s2, machine_turn state1 (Close result) s' = Running Disconnected s2
         | Some cause => exists s2 s3,
             machine_turn state1 (Close result) s' = Running (Error cause) s2 /\
             machine_turn (Error cause) (Command (Some CmdDisconnect)) s2 = Running Disconnected s3
         end))).
Proof.
  intros Hh [Hi _]%reachable_ok. destruct (disconnect_turn state s Hh Hi) as (state1 & s1 & He & Hst).
  exists state1, s1. split; [done|].
  assert (Hcases : state1 = Disconnected \/ state1 = Disconnecting false AdNothing) by (destruct state; auto).
  destruct Hcases as [->| ->]; [by left|right]. clear -Hh. split; [done|]. split.
  - intros command s' Hc.
    destruct (turn_command_stays (Disconnecting false AdNothing) command s' (fun st => st = Disconnecting false AdNothing))
      as (st & s2 & -> & He); [|by exists s2]. intros s2.
    destruct command as [[]|]; cbn [handle_event disconnecting_commands]; cbv zeta; try done;
      try (apply wp_ret; by eexists); apply wp_bind;
      [apply wp_set_allow_lan; [intros _|]|apply wp_modify|apply wp_set_dns; [intros _|]
      |apply wp_modify|apply wp_modify|apply wp_bind, wp_gets, wp_bind, wp_modify, wp_bind, wp_modify, wp_ret];
      apply wp_ret; by eexists.
  - intros result s' Hw Hr. apply reachable_ok in Hr as [Hi Hs].
    assert (Hclose : forall P : TunnelState -> Prop,
      (forall s1, wp (after_disconnect AdNothing (mjoin result)) (fun e _ => P e.1) s1) ->
      exists state2 s2, P state2 /\ machine_turn (Disconnecting false AdNothing) (Close result) s' = Running state2 s2).
    { intros P HP. apply turn_entered; [done|]. apply wp_bind, wp_emit, wp_bind, wp_modify.
      cbn [terminate handle_event]. apply wp_bind, wp_reset_routes. intros s2 _. apply wp_new_state, HP. }
    destruct (mjoin result) as [cause|].
    + destruct (Hclose (fun st => st = Error cause)) as (st & s2 & -> & He); [intros s1; apply error_enter_state|].
      pose proof (turn_machine_ok _ _ _ Hi Hs Hw) as Hok. rewrite He in Hok.
      destruct (disconnect_turn (Error cause) s2 Hh (proj1 Hok)) as (st & s3 & He3 & ->). by exists s2, s3.
    + destruct (Hclose (fun st => st = Disconnected)) as (st & s2 & -> & He); [intros s1; apply disconnected_entered|].
      by exists s2.
Qed.

(** ** An offline host *)

(** What a turn does to the deadline of [k], woken at [t]. *)
Definition deadline_kept (t : Z) k (consequence : EventConsequence) : Prop :=
  forall k', (consequence = SameState (SConnected k') \/ exists tr, consequence = NewState (SConnected k', tr)) ->
  match offline_grace_deadline k, offline_grace_deadline k' with
  | Some d, Some d' => d' = d
  | None, Some d' => d' = t + OFFLINE_GRACE
  | _, None => True
  end.

Lemma deadline_same t k k' :
  offline_grace_deadline k' = offline_grace_deadline k -> deadline_kept t k (SameState (SConnected k')).
Proof. intros Hk k2 [[= <-]|[tr [=]]]. rewrite Hk. by destruct (offline_grace_deadline k). Qed.

Lemma deadline_left t k (P : TunnelState -> Prop) (m : TM EventConsequence) s :
  (forall k', ~ P (SConnected k')) ->
  wp m (fun consequence _ => exists e, consequence = NewState e /\ P e.1) s ->
  wp m (fun consequence _ => deadline_kept t k consequence) s.
Proof.
  intros HP Hm. eapply wp_mono; [exact Hm|]. intros c s' ([state tr] & -> & He) k' [[=]|[tr' [= -> ->]]].
  by destruct (HP k').
Qed.

Lemma deadline_disconnect t k k' a s :
  wp (connected_disconnect k' a) (fun consequence _ => deadline_kept t k consequence) s.
Proof.
  apply (deadline_left t k (fun st => st = Disconnecting (k_terminated k') a)); [done|].
  apply wp_bind, wp_emit, (wp_new_state _ (fun st => st = Disconnecting (k_terminated k') a)), disconnecting_enter_state.
Qed.

Lemma deadline_reapply t k k' s :
  offline_grace_deadline k' = offline_grace_deadline k ->
  wp (reapply k') (fun consequence _ => deadline_kept t k consequence) s.
Proof.
  intros Hk. apply wp_bind, wp_bind, wp_gets, wp_apply. intros o.
  destruct (failure o); [apply deadline_disconnect|]. by apply wp_ret, deadline_same.
Qed.

Lemma deadline_commands k command s :
  wp (connected_commands k command) (fun consequence _ => deadline_kept (clock (log s)) k consequence) s.
Proof.
  set (t := clock (log s)).
  assert (Hsame : forall s', wp (mret (SameState (SConnected k))) (fun consequence _ => deadline_kept t k consequence) s')
    by (intros s'; by apply wp_ret, deadline_same).
  destruct command as [[allow nets|e|servers|m| |conn| | |r|m]|]; cbn [connected_commands]; cbv zeta;
    try (by apply deadline_disconnect || by apply deadline_reapply).
  - apply wp_bind, wp_set_allow_lan; [by intros _|by apply deadline_reapply].
  - by apply wp_bind, wp_modify.
  - apply wp_bind, wp_set_dns; [by intros _|]. apply wp_bind, wp_bind, wp_gets, wp_apply. intros o.
    destruct (failure o); [apply deadline_disconnect|]. apply wp_bind, wp_connected_set_dns.
    intros [] s' _; [apply Hsame|apply deadline_disconnect].
  - by apply wp_bind, wp_modify.
  - apply wp_bind, wp_modify. unfold grace_action.
    destruct (is_offline conn), (is_multi_hop (k_parameters k)), (bool_decide_reflect (is_Some (offline_grace_deadline k))) as [Hd|Hd];
      try apply deadline_disconnect; try (apply wp_ret; by apply deadline_same).
    + apply wp_bind, wp_gets, wp_ret. intros k' [[= <-]|[tr [=]]]. cbn.
      destruct (offline_grace_deadline k); [by destruct Hd|done].
    + apply wp_ret. intros k' [[= <-]|[tr [=]]]. cbn. by destruct (offline_grace_deadline k).
    + apply wp_ret. intros k' [[= <-]|[tr [=]]]. cbn. by destruct (offline_grace_deadline k).
    + apply wp_ret. intros k' [[= <-]|[tr [=]]]. cbn. by destruct (offline_grace_deadline k).
    + apply wp_ret. intros k' [[= <-]|[tr [=]]]. cbn. by destruct (offline_grace_deadline k).
  - apply wp_bind, wp_bind, wp_gets, wp_bind, wp_modify, wp_bind, wp_modify, wp_ret.
    match goal with |- context [if ?b then _ else _] => destruct b end; [apply deadline_disconnect|apply Hsame].
Qed.

(** What the dial of an attempt enters: the connecting state at that attempt, or the error the dial
    met: an account refused (the first attempt does not ask), no parameters, or a policy refused. *)
Definition dialed_state (attempt : Z) (state : TunnelState) : Prop :=
  match state with
  | SConnecting c => retry_attempt c = attempt
  | Error (AuthFailed _) => attempt <> 0
  | Error (TunnelParameterError _ | SetFirewallPolicyError _) => True
  | _ => False
  end.

Lemma refusal_cause r now asked :
  match (block_reason_before_dialing r now asked).1.1 with Some cause => exists message, cause = AuthFailed message | None => True end.
Proof.
  destruct r as [run|]; [|done]. unfold block_reason_before_dialing. cbn [pending mbind option_bind].
  destruct (fresh _ _); cbn [record_answer fmap option_fmap option_map]; rewrite decide_refusal_surfaced;
    match goal with |- context [surfaced ?r ?n ?st] => destruct (surfaced r n st) end; cbn; by eauto.
Qed.

Lemma connecting_entered a s : wp (connecting_enter a) (fun e _ => dialed_state a e.1) s.
Proof.
  assert (Herr : forall r s', dialed_state a (Error r) -> wp (error_enter r) (fun e _ => dialed_state a e.1) s').
  { intros r s' Hd. eapply wp_mono; [apply error_enter_state|]. by intros e s2 ->. }
  apply wp_bind.
  apply (wp_mono _ (fun refused _ => match refused with
    Some cause => a <> 0 /\ exists message, cause = AuthFailed message | None => True end)).
  { destruct (Z.eqb_spec a 0) as [|Hne]; [by apply wp_bind, wp_modify, wp_ret|]. apply wp_bind, wp_gets, wp_bind, wp_gets. unfold id.
    pose proof (refusal_cause (refusals s) (clock (log s)) (subscription_status (log s))) as Hc.
    destruct (block_reason_before_dialing _ _ _) as [[[cause|] r] []]; apply wp_bind, wp_modify, wp_bind;
      [by split|by split|done..]. }
  intros [cause|] s' Hc; [apply Herr; by destruct Hc as [? [message ->]]|].
  apply wp_bind, wp_bind, wp_gets, wp_bind, wp_emit, wp_ret.
  destruct (generate_warren_tunnel_params _ _); [by apply Herr|].
  apply wp_bind, wp_gets, wp_bind, wp_bind, wp_disable_check. intros s2 _. apply wp_bind, wp_gets, wp_apply. intros o.
  destruct (failure o); [by apply Herr|]. by apply wp_bind, wp_bind, wp_gets, wp_bind, wp_emit, wp_bind, wp_modify, wp_ret, wp_ret.
Qed.

Lemma deadline_close t k block_reason s :
  wp (connected_close_event block_reason) (fun consequence _ => deadline_kept t k consequence) s.
Proof.
  apply (deadline_left t k (fun st => forall k', st <> SConnected k')); [intros k' Hk; by destruct (Hk k')|].
  assert (Hq : quietly (emit FxDnsResetBeforeRemoval;; reset_routes)) by by apply quietly_emit, quietly_reset_routes.
  assert (Herr : forall cause s', wp (reset_flap_detector;; (emit FxDnsResetBeforeRemoval;; reset_routes);;
      entered ← error_enter cause; mret (NewState entered))
      (fun consequence _ => exists e, consequence = NewState e /\ forall k', e.1 <> SConnected k') s').
  { intros cause s'. apply wp_bind, wp_modify, wp_bind, Hq. intros s2 _.
    apply (wp_new_state _ (fun st => forall k', st <> SConnected k')).
    eapply wp_mono; [apply error_enter_state|]. by intros e s3 ->. }
  unfold connected_close_event. cbv zeta. destruct block_reason; [apply Herr|]. apply wp_bind, wp_gets.
  destruct (is_offline _); [apply Herr|]. apply wp_bind. apply (wp_mono _ (fun _ _ => True)); [done|].
  intros [] s' _; [apply Herr|]. apply wp_bind, Hq. intros s2 _.
  apply (wp_new_state _ (fun st => forall k', st <> SConnected k')).
  eapply wp_mono; [apply connecting_entered|]. by intros [[] ?] s3 He k'.
Qed.

Lemma deadline_events t k event s :
  wp (connected_events k event) (fun consequence _ => deadline_kept t k consequence) s.
Proof.
  destruct event as [[]|]; cbn [connected_events]; try (by apply deadline_disconnect || by apply deadline_reapply);
    apply wp_ret; try by apply deadline_same.
  intros k' [[=]|[tr [= <- _]]]. cbn. by destruct (offline_grace_deadline k).
Qed.

Lemma deadline_expired t k s :
  wp (connected_grace_expired k) (fun consequence _ => deadline_kept t k consequence) s.
Proof.
  apply wp_bind, wp_gets. destruct (is_offline _); [apply deadline_disconnect|].
  apply wp_ret. intros k' [[= <-]|[tr [=]]]. cbn. by destruct (offline_grace_deadline k).
Qed.

Lemma deadline_turn k r s :
  wp (emit (FxWoken r);; modify (fun s => receive s r);; handle_event (terminate (SConnected k) r) r)
    (fun consequence _ => deadline_kept (clock (FxWoken r :: log s)) k consequence) s.
Proof.
  apply wp_bind, wp_emit, wp_bind, wp_modify. destruct r as [command|event|result|]; cbn [terminate handle_event receive].
  - apply deadline_commands.
  - apply deadline_events.
  - apply deadline_close.
  - apply deadline_expired.
Qed.

(** C35: An offline host never keeps a tunnel for long: connected while offline, the tunnel is a
    multi-hop one and has a deadline, set fifteen seconds after the turn that armed it and moved by
    no later turn; past it, and still offline, the machine closes the tunnel and blocks. *)
Theorem offline_grace_bounded k s :
  reachable (Running (SConnected k) s) ->
  (is_offline (connectivity s) = true ->
     is_multi_hop (k_parameters k) = true /\
     exists d, offline_grace_deadline k = Some d /\
       (heard -> exists s', machine_turn (SConnected k) OfflineGraceExpired s =
          Running (Disconnecting false (AdBlock IsOffline)) s')) /\
  (forall r k' s', waits_for (SConnected k) s r -> machine_turn (SConnected k) r s = Running (SConnected k') s' ->
     match offline_grace_deadline k, offline_grace_deadline k' with
     | Some d, Some d' => d' = d
     | None, Some d' => d' = clock (FxWoken r :: log s) + OFFLINE_GRACE
     | _, None => is_offline (connectivity s') = false
     end).
Proof.
  intros [Hi Hs]%reachable_ok. pose proof (inv_graced _ _ Hi) as [Hg1 Hg2]. pose proof (inv_tunnel _ _ Hi) as [Hk _].
  split.
  - intros Hoff. pose proof (Hg1 Hoff) as Hd. split; [by apply Hg2|]. destruct Hd as [d Hd]. exists d. split; [done|].
    intros Hh.
    destruct (turn_entered (SConnected k) OfflineGraceExpired s (fun st => st = Disconnecting false (AdBlock IsOffline)) Hh)
      as (st & s' & -> & He); [|by exists s'].
    apply wp_bind, wp_emit, wp_bind, wp_modify, wp_bind, wp_gets. cbn [receive connectivity with_log]. rewrite Hoff.
    unfold connected_disconnect. rewrite Hk.
    apply wp_bind, wp_emit, (wp_new_state _ (fun st => st = Disconnecting false (AdBlock IsOffline))), disconnecting_enter_state.
  - intros r k' s' Hw Hm. pose proof (deadline_turn k r s) as Hd.
    pose proof (turn_result _ _ _ Hi Hs Hw) as Hok. rewrite Hm in Hok. destruct Hok as [[[_ _ _ [Hg' _]] _] _].
    assert (Hoff : offline_grace_deadline k' = None -> is_offline (connectivity s') = false).
    { intros Hn. destruct (is_offline (connectivity s')); [|done]. rewrite Hn in Hg'. by destruct (Hg' eq_refl). }
    unfold wp in Hd. unfold machine_turn in Hm.
    match type of Hd with deadline_kept _ _ (?m _).1 => destruct (m s) as [consequence s1] end. cbn [fst] in Hd.
    specialize (Hd k').
    assert (Hdl : match offline_grace_deadline k, offline_grace_deadline k' with
       | Some d, Some d' => d' = d
       | None, Some d' => d' = clock (FxWoken r :: log s) + OFFLINE_GRACE
       | _, None => True end).
    { apply Hd. destruct consequence as [[st tr]|st| |]; try done.
      - destruct (publish tr s1) as [[] s2]; [|done]. injection Hm as -> ->. right. by eexists.
      - injection Hm as -> ->. by left. }
    destruct (offline_grace_deadline k), (offline_grace_deadline k'); auto.
Qed.

(** ** A tunnel that flaps *)

(** A lap that ended by itself, the detector consulted. *)
Lemma lap_ended (leave : TM unit) a s :
  quietly leave ->
  wp (flapping ← note_reconnect;
      if flapping : bool then reset_flap_detector;; leave;; entered ← error_enter WarrenTunnelFlapping; mret (NewState entered)
      else leave;; entered ← connecting_enter a; mret (NewState entered))
    (fun consequence _ => exists e, consequence = NewState e /\
       if FLAP_MAX <=? zlen (recent (clock (log s)) (recent_reconnects s))
       then e.1 = Error WarrenTunnelFlapping else dialed_state a e.1) s.
Proof.
  intros Hq. apply wp_bind, wp_bind, wp_gets, wp_bind, wp_gets. unfold id, note_reconnect_and_is_flapping.
  apply wp_bind, wp_modify, wp_ret.
  set (laps := recent (clock (log s)) (recent_reconnects s)). rewrite zlen_app.
  change (zlen [clock (log s)]) with 1.
  destruct (Z.ltb_spec FLAP_MAX (zlen laps + 1)), (Z.leb_spec FLAP_MAX (zlen laps)); try lia.
  - apply wp_bind, wp_modify, wp_bind, Hq. intros s2 _.
    apply (wp_new_state _ (fun st => st = Error WarrenTunnelFlapping)), error_enter_state.
  - apply wp_bind, Hq. intros s2 _. apply (wp_new_state _ (dialed_state a)), connecting_entered.
Qed.

(** C36: A tunnel that flaps is given up.  Take a host that is online, and a tunnel that ends on its
    own with no reason to block, while connected, or while connecting with no run of the exit's
    refusals open.  When fewer than six laps ended within the last 25 s the tunnel is dialed again, at
    the next attempt after a failed one and at the first after a connection, and the machine enters
    the connecting state at that attempt or the error the dial itself met; with the sixth it enters the
    error state of a flapping tunnel, which blocks.  No state remembers more than six laps. *)
Theorem flapping_gives_up (state : TunnelState) s (result : option (option ErrorStateCause)) :
  heard -> reachable (Running state s) -> waits_for state s (Close result) -> mjoin result = None ->
  is_offline (connectivity s) = false ->
  match state with SConnecting _ => run_is_open (refusals s) = false | SConnected _ => True | _ => False end ->
  zlen (recent_reconnects s) <= FLAP_MAX /\
  exists state' s', machine_turn state (Close result) s = Running state' s' /\
    if FLAP_MAX <=? zlen (recent (clock (FxWoken (Close result) :: log s)) (recent_reconnects s))
    then state' = Error WarrenTunnelFlapping
    else dialed_state (match state with SConnecting c => next_attempt (retry_attempt c) | _ => 0 end) state'.
Proof.
  intros Hh [Hi Hs]%reachable_ok Hw Hres Hon Hst. split; [apply Hi|].
  set (a := match state with SConnecting c => _ | _ => 0 end).
  destruct (turn_entered state (Close result) s (fun st =>
    if FLAP_MAX <=? zlen (recent (clock (FxWoken (Close result) :: log s)) (recent_reconnects s))
    then st = Error WarrenTunnelFlapping else dialed_state a st) Hh) as (st & s' & Hst' & He); [|by exists st, s'].
  apply wp_bind, wp_emit, wp_bind, wp_modify.
  destruct state as [|c|k| |]; try done; cbn [terminate handle_event]; rewrite Hres;
    cbn [connecting_close_event connected_close_event]; cbv zeta; apply wp_bind, wp_gets; unfold id;
    cbn [receive with_lap with_log connectivity refusals]; rewrite Hon, ?Hst.
  - apply (lap_ended reset_routes (next_attempt (retry_attempt c)) (with_lap (with_log s _) None)), quietly_reset_routes.
  - apply (lap_ended (emit FxDnsResetBeforeRemoval;; reset_routes) 0 (with_lap (with_log s _) None)).
    by apply quietly_emit, quietly_reset_routes.
Qed.

(** The machine dials at a pace: a tunnel that ends without a reason to block is heard of no
    sooner than the reconnect floor of its attempt after it started, in whatever state it is
    awaited; so is the next dial. *)
Theorem dials_are_paced (state : TunnelState) s :
  reachable (Running state s) -> waits_for state s (Close (Some None)) ->
  match state with Disconnecting true _ => False | _ => True end ->
  exists lp pacing, lap s = Some lp /\
    lap_start lp + reconnect_floor (lap_attempt lp) pacing <= clock (FxWoken (Close (Some None)) :: log s).
Proof.
  intros [[[_ _ _ _ Hp] _ _ _] _]%reachable_ok Hw Hst.
  assert (Hlap : exists l, lap s = Some l /\ exists release, lap_result l = Some (None, release) /\
    release <= clock (FxWoken (Close (Some None)) :: log s)).
  { destruct state as [| | |[]|]; done. }
  destruct Hlap as (lp & Hl & release & Hr & Hc). destruct (Hp lp release Hl Hr) as [pacing Hpace].
  exists lp, pacing. split; [done|lia].
Qed.

(** ** The errors of a lap *)

(** A tunnel that ends with a cause to block. *)
Lemma turn_blocks state result s cause :
  heard -> mjoin result = Some cause ->
  match state with SConnecting _ | SConnected _ => True | _ => False end ->
  exists s', machine_turn state (Close result) s = Running (Error cause) s'.
Proof.
  intros Hh Hres Hst.
  destruct (turn_entered state (Close result) s (fun st => st = Error cause) Hh) as (st & s' & -> & He); [|by exists s'].
  apply wp_bind, wp_emit, wp_bind, wp_modify.
  destruct state; try done; cbn [terminate handle_event]; rewrite Hres; cbn [connecting_close_event connected_close_event];
    cbv zeta; apply wp_bind, wp_modify, wp_bind.
  - apply wp_reset_routes. intros s2 _. apply (wp_new_state _ (fun st => st = Error cause)), error_enter_state.
  - apply wp_bind, wp_emit, wp_reset_routes. intros s2 _.
    apply (wp_new_state _ (fun st => st = Error cause)), error_enter_state.
Qed.

(** The clock never goes back. *)
Definition monotonic : Prop := forall e l, clock l <= clock (e :: l).

(** C33: What becomes of an error that is not worth retrying, in any state that dials or is connected:
    the machine blocks.  An exit that refuses a session for good while the tunnel starts is shown
    with the exit's reason; one that refuses it later, the tunnel running, is shown as a tunnel that
    failed to start, its reason lost. *)
Theorem fatal_errors_block (state : TunnelState) s lp (e : MonitorError) (started : bool) :
  heard -> monotonic -> reachable (Running state s) -> lap s = Some lp -> lap_result lp = None ->
  is_recoverable e = false ->
  match state with SConnecting _ | SConnected _ => True | _ => False end ->
  exists s1 s2, step (Running state s) (Running state s1) /\
    log s1 = FxLapEnded (if started then Stopped (Some e) else FailedToStart e) :: log s /\
    step (Running state s1) (Running (Error (if started then StartTunnelError
      else match e with
           | WarrenTunnelMonitoring (BackendFatal reason) => AuthFailed (Some reason)
           | EnableIpv6 => Ipv6Unavailable
           | _ => StartTunnelError
           end)) s2).
Proof.
  intros Hh Hmono Hr Hl Hres He Hst. fold (cause_of_error e).
  set (outcome := if started then Stopped (Some e) else FailedToStart e).
  set (cause := if started then StartTunnelError else cause_of_error e).
  assert (Hend : lap_end (refusals s) outcome (clock (FxLapEnded outcome :: log s)) = (Some cause, refusals s)).
  { unfold outcome, cause, lap_end, should_retry. destruct started; by rewrite He. }
  set (s1 := machine_lap lp outcome s).
  destruct (turn_blocks state (Some (Some cause)) s1 cause Hh eq_refl Hst) as (s2 & Hturn).
  assert (Hs1 : log s1 = FxLapEnded outcome :: log s /\ lap s1 = Some (mkLap (lap_start lp) (lap_attempt lp)
       (Some (Some cause, clock (FxLapEnded outcome :: log s))))).
  { unfold s1, machine_lap. by rewrite Hend. }
  destruct Hs1 as [Hlog Hlap]. exists s1, s2. split; [by apply step_lap|]. split; [done|].
  rewrite <- Hturn. apply step_turn. destruct state; try done;
    (eexists; split; [exact Hlap|]; eexists; split; [done|]; rewrite Hlog; apply Hmono).
Qed.
End Spec.
