(* ===== verification/TunnelWitness.v ===== *)
(** * A run of the tunnel state machine

    A host whose operations succeed and whose clock counts the effects in
    seconds, a tunnel over a two-hop circuit, and the machine's theorems applied
    along its run. *)

From S2P Require Import Prelude Net Networks NetworksModel Routes Tunnel Refusals TunnelMachine TunnelInv TunnelTurn TunnelSpec.
Open Scope Z_scope.

#[local] Existing Instance sealed_nets.

#[local] Instance host_descriptors : Descriptors := {|
  RelayDescriptorSigned := Z;
  relay_id i := [i];
  relay_endpoint i := mkSocketAddr (V4 [192; 0; 2; i]) 443;
  relay_endpoint_v6 _ := None;
  ExitDescriptorSigned := Z;
  exit_id i := [i];
  exit_endpoint _ := None;
  VerifyingKey := unit;
  NodeEntry := Z * str;
  node_relay := fst;
  node_exit := fst;
  node_country := snd;
  VerifiedMultiHopDirectory := list (Z * str);
  nodes dir := dir
|}.

Definition circuit : MultiHopConfig := mkMultiHopConfig _ (1 : RelayDescriptorSigned) (2 : ExitDescriptorSigned) tt [] [] false false false.

#[local] Instance host : World := {|
  clock l := secs (zlen l);
  can_include := true;
  applying _ _ _ := Done;
  resetting _ := Done;
  dns_setting _ _ _ := true;
  network_manager _ := None;
  generate_warren_tunnel_params _ _ := inr (mkWarrenTunnelParameters [] (Some circuit) false false false);
  subscription_status _ := Active;
  listening _ := true
|}.

Definition api : AllowedEndpoint := mkAllowedEndpoint (mkEndpoint (mkSocketAddr (V4 [198; 51; 100; 1]) 443) Tcp) Root.
Definition initial : InitialTunnelState :=
  mkInitialTunnelState false [] (Enabled true) (mkDnsConfig DnsDefault false) api true None SplitExclude.
Definition tun : TunnelMetadata := mkTunnelMetadata [119; 48] [V4 [10; 66; 0; 2]] (V4 [10; 66; 0; 1]) None false None 1 0.

(** The machine after a wake-up, after the end of a lap. *)
Definition after (m : Machine) (r : EventResult) : Machine :=
  match m with Running state s => machine_turn state r s | _ => m end.
Definition lapped (m : Machine) (outcome : LapOutcome) : Machine :=
  match m with
  | Running state s => match lap s with Some lp => Running state (machine_lap lp outcome s) | None => m end
  | _ => m
  end.

Definition state_of (m : Machine) : TunnelState := match m with Running state _ => state | _ => Disconnected end.
Definition shared_of (m : Machine) : Shared := match m with Running _ s | Exited s | Aborted s => s end.

Lemma after_reachable m r :
  reachable m -> match m with Running state s => waits_for state s r | _ => False end -> reachable (after m r).
Proof.
  intros (i & conn & Hm) Hw. exists i, conn. eapply rtc_r; [exact Hm|]. destruct m; try done. by apply step_turn.
Qed.

Lemma lapped_reachable m outcome :
  reachable m ->
  match m with Running _ s => match lap s with Some lp => lap_result lp = None | None => False end | _ => False end ->
  reachable (lapped m outcome).
Proof.
  intros (i & conn & Hm) Hw. exists i, conn. eapply rtc_r; [exact Hm|]. destruct m as [state s| |]; try done.
  cbn. destruct (lap s) as [lp|] eqn:Hl; [|done]. by apply step_lap.
Qed.

(** Connect; the tunnel comes up; the host goes offline; the tunnel ends; it is dialed again. *)
Definition m0 : Machine := machine_new initial (Online AvIpv4).
Definition m1 : Machine := after m0 (Command (Some CmdConnect)).
Definition m2 : Machine := after m1 (Event (Some (EvUp tun))).
Definition m3 : Machine := after m2 (Command (Some (CmdConnectivity Offline))).
Definition m4 : Machine := lapped m2 (Stopped None).

Lemma m0_reachable : reachable m0.
Proof. by exists initial, (Online AvIpv4). Qed.
Lemma m1_reachable : reachable m1.
Proof. apply after_reachable; [exact m0_reachable|]. by vm_compute. Qed.
Lemma m2_reachable : reachable m2.
Proof. apply after_reachable; [exact m1_reachable|]. by vm_compute. Qed.
Lemma m3_reachable : reachable m3.
Proof. apply after_reachable; [exact m2_reachable|]. by vm_compute. Qed.
Lemma m4_reachable : reachable m4.
Proof. apply lapped_reachable; [exact m2_reachable|]. by vm_compute. Qed.

(** [m] is running: the state and the shared values it runs in. *)
Lemma running m : match m with Running _ _ => True | _ => False end -> m = Running (state_of m) (shared_of m).
Proof. by destruct m. Qed.

Lemma m4_lap : lap (shared_of m4) = Some (mkLap (secs 5) 0 (Some (None, secs 12))).
Proof. by vm_compute. Qed.

Definition prepared_info : WarrenBackendInfo := from_params (mkWarrenTunnelParameters [] (Some circuit) false false true).
Definition k2 : Connected := mkConnected tun prepared_info false None (get_next_hop_endpoints prepared_info).

Lemma m2_state : state_of m2 = SConnected k2.
Proof. by vm_compute. Qed.
Lemma m4_state : state_of m4 = SConnected k2.
Proof. by vm_compute. Qed.

Lemma m4_ended : waits_for (state_of m4) (shared_of m4) (Close (Some None)).
Proof.
  rewrite m4_state. exists (mkLap (secs 5) 0 (Some (None, secs 12))). split; [exact m4_lap|].
  exists (secs 12). split; [done|]. apply Z.leb_le. by vm_compute.
Qed.

Lemma reached_running m :
  reachable m -> match m with Running _ _ => True | _ => False end -> reachable (Running (state_of m) (shared_of m)).
Proof. intros Hm Hr. by rewrite <- (running m Hr). Qed.

Lemma m2_running : reachable (Running (state_of m2) (shared_of m2)).
Proof. apply reached_running; [exact m2_reachable|]. by vm_compute. Qed.
Lemma m3_running : reachable (Running (state_of m3) (shared_of m3)).
Proof. apply reached_running; [exact m3_reachable|]. by vm_compute. Qed.
Lemma m4_running : reachable (Running (state_of m4) (shared_of m4)).
Proof. apply reached_running; [exact m4_reachable|]. by vm_compute. Qed.

(** ** The theorems along the run *)

Lemma host_heard : heard.
Proof. done. Qed.

Lemma host_monotonic : monotonic.
Proof. intros e l. cbn [clock host]. rewrite zlen_cons. unfold secs. lia. Qed.


Lemma dials_behind_firewall_witness :
  orderly (log (shared_of m2)) /\ tunnels (log (shared_of m2)) = 1.
Proof.
  destruct (dials_behind_firewall (state_of m2) (shared_of m2) m2_running) as (Ho & Ht & _). by split.
Defined.


Lemma reset_only_to_disconnect_witness :
  state_of m3 <> Disconnected /\ resets (log (shared_of m3)) = resets (log (shared_of m2)).
Proof.
  assert (Hn : state_of m3 <> Disconnected) by by vm_compute.
  split; [exact Hn|].
  apply (reset_only_to_disconnect (state_of m2) (state_of m3) (shared_of m2) (shared_of m3)
           (Command (Some (CmdConnectivity Offline))) m2_running); [by vm_compute|by vm_compute|exact Hn].
Defined.

Lemma shutdown_follows_lockdown_witness :
  exists s', machine_turn (state_of m0) (Command None) (shared_of m0) = Exited s' /\
    lockdown_mode s' = lockdown_mode (turn_left (state_of m0) (Command None) (shared_of m0)).2 /\
    in_force Disconnected (turn_left (state_of m0) (Command None) (shared_of m0)).2.
Proof.
  exists (shared_of (machine_turn (state_of m0) (Command None) (shared_of m0))). split; [by vm_compute|].
  assert (Hr : reachable (Running (state_of m0) (shared_of m0))).
  { apply reached_running; [exact m0_reachable|by vm_compute]. }
  pose proof (shutdown_follows_lockdown (state_of m0) (shared_of m0)
    (shared_of (machine_turn (state_of m0) (Command None) (shared_of m0))) (Command None) Hr
    ltac:(by vm_compute) ltac:(by vm_compute)) as Hsh.
  assert (Hd : (turn_left (state_of m0) (Command None) (shared_of m0)).1 = Disconnected) by by vm_compute.
  destruct (turn_left (state_of m0) (Command None) (shared_of m0)) as [last s2]. cbn [fst] in Hd. subst last.
  destruct Hsh as (Hf & _ & Hl & _). by split.
Defined.

Lemma disconnect_is_reached_witness :
  exists state1 s1, machine_turn (state_of m2) (Command (Some CmdDisconnect)) (shared_of m2) = Running state1 s1.
Proof.
  destruct (disconnect_is_reached (state_of m2) (shared_of m2) host_heard m2_running) as (state1 & s1 & He & _).
  by exists state1, s1.
Defined.

Lemma offline_grace_bounded_witness :
  exists k d, state_of m3 = SConnected k /\ offline_grace_deadline k = Some d.
Proof.
  destruct (state_of m3) as [| |k| |] eqn:He; try (by vm_compute in He).
  exists k. pose proof m3_running as Hr. rewrite He in Hr.
  destruct (proj1 (offline_grace_bounded k (shared_of m3) Hr) ltac:(by vm_compute)) as (_ & d & Hd & _).
  by exists d.
Defined.

Lemma flapping_gives_up_witness :
  zlen (recent_reconnects (shared_of m4)) <= FLAP_MAX /\
  exists state' s', machine_turn (state_of m4) (Close (Some None)) (shared_of m4) = Running state' s' /\
    dialed_state (match state_of m4 with SConnecting c => next_attempt (retry_attempt c) | _ => 0 end) state'.
Proof.
  destruct (flapping_gives_up (state_of m4) (shared_of m4) (Some None) host_heard m4_running m4_ended eq_refl
    ltac:(by vm_compute) ltac:(by rewrite m4_state)) as (Hl & state' & s' & He & Hd).
  split; [exact Hl|]. exists state', s'. split; [exact He|].
  assert (Hf : FLAP_MAX <=? zlen (recent (clock (FxWoken (Close (Some None)) :: log (shared_of m4)))
    (recent_reconnects (shared_of m4))) = false) by by vm_compute.
  rewrite Hf in Hd. exact Hd.
Defined.

(** A ban decided while the tunnel runs. *)
Definition banned : MonitorError := WarrenTunnelMonitoring (BackendFatal [66; 65; 78]).

Lemma fatal_errors_block_witness :
  exists s1 s2, step (Running (state_of m2) (shared_of m2)) (Running (state_of m2) s1) /\
    step (Running (state_of m2) s1) (Running (Error StartTunnelError) s2).
Proof.
  destruct (fatal_errors_block (state_of m2) (shared_of m2) (mkLap (secs 5) 0 None) banned true host_heard host_monotonic
    m2_running ltac:(by vm_compute) eq_refl eq_refl ltac:(by rewrite m2_state)) as (s1 & s2 & H1 & _ & H2).
  by exists s1, s2.
Defined.

(** ** The refusals *)

Definition expired : Refusal := mkRefusal [69; 88; 80] None false.

Lemma api_asked_sparsely_witness :
  asks None [(expired, secs 1, secs 2, Active); (expired, secs 3, secs 4, Active); (expired, secs 18, secs 20, Active)] =
    [secs 2; secs 20] /\
  Sorted (fun a b => a + STATUS_TTL <= b)
    (asks None [(expired, secs 1, secs 2, Active); (expired, secs 3, secs 4, Active); (expired, secs 18, secs 20, Active)]).
Proof.
  split; [by vm_compute|]. apply api_asked_sparsely. unfold secs. repeat constructor; vm_compute; by intros [=].
Defined.

Lemma reconnect_floor_bounds_witness :
  reconnect_floor 5 ANTI_SPIN = secs 4 /\
  CONFIRMED_TRANSIENT_FLOOR <= reconnect_floor 5 ANTI_SPIN <= MAX_RECONNECT_FLOOR.
Proof. split; [by vm_compute|]. apply (reconnect_floor_bounds 5 ANTI_SPIN). lia. Defined.
