(* ===== verification/Tailnet.v ===== *)
(** * Tailscale interfaces beside the tunnel (talpid-core/src/firewall/tailnet.rs, on Linux)

    Which interfaces of the host carry a tailnet, what the firewall lets
    through on them, and the routes that lead there. *)

From S2P Require Import Prelude BTree Net Networks Lan.
Open Scope Z_scope.

Section Tailnet.
Context `{!Networks}.

Definition TAILNET_V4 : IpNetwork := net_const (v4_addr 100 64 0 0) 10.
Definition TAILNET_V6 : IpNetwork := net_const (v6_addr [0xfd7a; 0x115c; 0xa1e0; 0; 0; 0; 0; 0]) 48.

Record HostInterface : Type := mkHostInterface {
  hi_name : str;
  hi_up : bool;
  hi_tunnel : bool;
  hi_addresses : list IpAddr
}.

Inductive PassDirection : Type := PassOut | PassIn.

Record TailnetPass : Type := mkTailnetPass {
  pass_interface : str;
  pass_direction : PassDirection;
  pass_net : IpNetwork
}.

Definition is_tailscale_ula (address : IpAddr) : bool := net_contains TAILNET_V6 address.

(** The filter of [coexisting_tailnet_interfaces]. *)
Definition coexists (own_interface : option str) (i : HostInterface) : bool :=
  hi_tunnel i && negb (bool_decide (Some (hi_name i) = own_interface)) && hi_up i
  && existsb is_tailscale_ula (hi_addresses i).

Definition coexisting_tailnet_interfaces (interfaces : list HostInterface) (own_interface : option str) : gset str :=
  list_to_set (hi_name <$> filter (fun i => coexists own_interface i = true) interfaces).

Definition tailnet_passes (interfaces : gset str) : list TailnetPass :=
  interface ← btree_elems interfaces;
  net ← [TAILNET_V4; TAILNET_V6];
  direction ← [PassOut; PassIn];
  [mkTailnetPass interface direction net].

(** ** What changed *)

(** [SetTracker], the last set observed. *)
Record SetTracker : Type := mkSetTracker { st_last : gset str }.

Definition observe (t : SetTracker) (current : gset str) : bool * SetTracker :=
  if bool_decide (st_last t = current) then (false, t) else (true, mkSetTracker current).

(** [read_host_interfaces], once the interfaces are read, and [current_coexisting_tailnet_interfaces]. *)
Definition current_coexisting_tailnet_interfaces (host : option (list HostInterface)) (own_interface : option str) : gset str :=
  match host with Some interfaces => coexisting_tailnet_interfaces interfaces own_interface | None => ∅ end.

(** ** The routes on Linux *)

Definition LINUX_TAILNET_TABLE : str := lit "101".
Definition LINUX_TAILNET_RULE_PREF : str := lit "48".

(** The words of an [ip] command, the networks as [Display] writes them. *)
Definition linux_route_plan (show : IpNetwork -> str) (interface : option str) : list (list str) :=
  let ranges := [(lit "-4", show TAILNET_V4); (lit "-6", show TAILNET_V6)] in
  let removals := '(family, net) ← ranges;
    [[family; lit "rule"; lit "del"; lit "to"; net; lit "lookup"; LINUX_TAILNET_TABLE; lit "pref"; LINUX_TAILNET_RULE_PREF];
     [family; lit "route"; lit "del"; net; lit "table"; LINUX_TAILNET_TABLE]] in
  match interface with
  | None => removals
  | Some interface =>
      removals
      ++ ('(family, net) ← ranges;
          [[family; lit "route"; lit "replace"; net; lit "dev"; interface; lit "table"; LINUX_TAILNET_TABLE]])
      ++ ('(family, net) ← ranges;
          [[family; lit "rule"; lit "add"; lit "to"; net; lit "lookup"; LINUX_TAILNET_TABLE; lit "pref"; LINUX_TAILNET_RULE_PREF]])
  end.

(** [apply_linux_routes], the commands it runs with [run] and whether it succeeded: [run] is [None]
    when a command could not be started, else whether it exited with success. *)
Fixpoint apply_plan (run : list (list str) -> list str -> option bool) (ran : list (list str)) (plan : list (list str))
    : bool * list (list str) :=
  match plan with
  | [] => (true, ran)
  | args :: plan =>
      match run ran args with
      | None => (false, ran ++ [args])
      | Some success =>
          if negb success && negb (bool_decide (lit "del" ∈ args)) then (false, ran ++ [args])
          else apply_plan run (ran ++ [args]) plan
      end
  end.

Definition apply_linux_routes show run (interface : option str) : bool * list (list str) :=
  apply_plan run [] (linux_route_plan show interface).

(** ** Which interfaces, and what passes on them *)

Lemma elem_of_coexisting (interfaces : list HostInterface) own name :
  name ∈ coexisting_tailnet_interfaces interfaces own <->
  exists i, i ∈ interfaces /\ hi_name i = name /\ hi_tunnel i = true /\ Some name <> own /\ hi_up i = true /\
    exists a, a ∈ hi_addresses i /\ net_contains TAILNET_V6 a = true.
Proof.
  unfold coexisting_tailnet_interfaces. rewrite elem_of_list_to_set, list_elem_of_fmap. split.
  - intros (i & -> & [Hc Hi]%list_elem_of_filter). unfold coexists in Hc.
    rewrite !andb_true_iff, negb_true_iff, bool_decide_eq_false in Hc. destruct Hc as (((? & ?) & ?) & Ha).
    apply existsb_exists in Ha as (a & Ha & ?). exists i. split_and!; try done.
    exists a. split; [by apply list_elem_of_In|done].
  - intros (i & Hi & <- & Ht & Hn & Hu & a & Ha & Hc). exists i. split; [done|].
    apply list_elem_of_filter. split; [|done]. unfold coexists. rewrite Ht, Hu, bool_decide_eq_false_2 by done. cbn.
    apply existsb_exists. exists a. split; [by apply list_elem_of_In|done].
Qed.

Lemma elem_of_passes (interfaces : gset str) pass :
  pass ∈ tailnet_passes interfaces <->
  pass_interface pass ∈ interfaces /\ (pass_net pass = TAILNET_V4 \/ pass_net pass = TAILNET_V6).
Proof.
  unfold tailnet_passes. rewrite list_elem_of_bind. setoid_rewrite elem_of_btree_elems.
  setoid_rewrite list_elem_of_bind. split.
  - intros (i & (n & (d & Hp & Hd)%list_elem_of_bind & Hn) & Hi).
    apply list_elem_of_singleton in Hp as ->. cbn. split; [done|]. set_solver.
  - intros [Hi Hn]. destruct pass as [i d n]. cbn in Hi, Hn. exists i. split; [|done]. exists n. split; [|set_solver].
    apply list_elem_of_bind. exists d. split; [by apply list_elem_of_singleton|]. destruct d; repeat constructor.
Qed.
End Tailnet.
