(* ===== verification/Nft.v ===== *)
(** * nftables, as far as the client's rules use it

    The kernel's evaluation of a rule: its expressions run in order over one
    register, the first that does not match (or that finds nothing to load)
    breaks the rule, and a verdict ends the chain.  A mark set by a rule that
    breaks later stays set.  What is read here is the kernel's documented
    behaviour (nftables' manual and nf_tables' expressions); the rules
    themselves are the client's ([Firewall]). *)

From S2P Require Import Prelude Net Tunnel.
Open Scope Z_scope.

(** What a register holds: a number (a mark, an interface, a protocol) or bytes of the packet. *)
Inductive Value : Type := Num (n : Z) | Bytes (b : bytes).
#[export] Instance Value_eq_dec : EqDecision Value.
Proof. solve_decision. Defined.

Inductive Field : Type :=
| Ipv4Saddr | Ipv4Daddr | Ipv6Saddr | Ipv6Daddr
| UdpSport | UdpDport | TcpSport | TcpDport
| Icmpv6Type | Icmpv6Code.

Inductive RejectionType : Type := IcmpPortUnreach | TcpRst.
#[export] Instance RejectionType_eq_dec : EqDecision RejectionType.
Proof. solve_decision. Defined.
Inductive Verdict : Type := Accept | Drop | Reject (kind : RejectionType).
#[export] Instance Verdict_eq_dec : EqDecision Verdict.
Proof. solve_decision. Defined.

Inductive Expr : Type :=
| MetaIif | MetaOif | MetaNfproto | MetaL4proto | MetaMark | MetaSkuid | MetaCgroup
| CtMark | CtState
| SocketCgroupV2 (level : Z)
| Payload (field : Field)
| Immediate (v : Value)
| MetaMarkSet | CtMarkSet
| Bitwise (mask : Value)
| Cmp (equal : bool) (v : Value)
| Masquerade
| Counter
| RuleVerdict (v : Verdict).

Abbreviation Rule := (list Expr) (only parsing).

(** A packet at a hook.  [p_iif] and [p_oif] are 0 when there is no such interface; [p_transport] is
    [None] without a transport header (a later fragment); [p_skuid], [p_cgroup] and [p_cgroupv2] are
    what is known of its socket, [p_cgroupv2] by ancestor level; [p_ct_mark] is [None] when the
    packet is not tracked. *)
Record Packet : Type := mkPacket {
  p_iif : Z;
  p_oif : Z;
  p_version : IpVersion;
  p_l4proto : option Z;
  p_network : bytes;
  p_transport : option bytes;
  p_mark : Z;
  p_skuid : option Z;
  p_cgroup : option Z;
  p_cgroupv2 : Z -> option Z;
  p_ct_mark : option Z;
  p_ct_state : Z;
  p_masqueraded : bool
}.

Definition with_mark (p : Packet) (m : Z) : Packet :=
  mkPacket (p_iif p) (p_oif p) (p_version p) (p_l4proto p) (p_network p) (p_transport p) m (p_skuid p) (p_cgroup p)
    (p_cgroupv2 p) (p_ct_mark p) (p_ct_state p) (p_masqueraded p).
Definition with_ct_mark (p : Packet) (m : option Z) : Packet :=
  mkPacket (p_iif p) (p_oif p) (p_version p) (p_l4proto p) (p_network p) (p_transport p) (p_mark p) (p_skuid p) (p_cgroup p)
    (p_cgroupv2 p) m (p_ct_state p) (p_masqueraded p).
Definition with_oif (p : Packet) (oif : Z) : Packet :=
  mkPacket (p_iif p) oif (p_version p) (p_l4proto p) (p_network p) (p_transport p) (p_mark p) (p_skuid p) (p_cgroup p)
    (p_cgroupv2 p) (p_ct_mark p) (p_ct_state p) (p_masqueraded p).
Definition masqueraded (p : Packet) : Packet :=
  mkPacket (p_iif p) (p_oif p) (p_version p) (p_l4proto p) (p_network p) (p_transport p) (p_mark p) (p_skuid p) (p_cgroup p)
    (p_cgroupv2 p) (p_ct_mark p) (p_ct_state p) true.

Definition NFPROTO_IPV4 : Z := 2.
Definition NFPROTO_IPV6 : Z := 10.
Definition IPPROTO_TCP : Z := 6.
Definition IPPROTO_UDP : Z := 17.
Definition IPPROTO_ICMPV6 : Z := 58.

Definition nfproto (v : IpVersion) : Z := match v with IPv4 => NFPROTO_IPV4 | IPv6 => NFPROTO_IPV6 end.

(** Where a field is: in the network or the transport header, from and to which byte. *)
Definition load_field (p : Packet) (f : Field) : option bytes :=
  match f with
  | Ipv4Saddr => get_slice (p_network p) 12 16
  | Ipv4Daddr => get_slice (p_network p) 16 20
  | Ipv6Saddr => get_slice (p_network p) 8 24
  | Ipv6Daddr => get_slice (p_network p) 24 40
  | UdpSport | TcpSport => t ← p_transport p; get_slice t 0 2
  | UdpDport | TcpDport => t ← p_transport p; get_slice t 2 4
  | Icmpv6Type => t ← p_transport p; get_slice t 0 1
  | Icmpv6Code => t ← p_transport p; get_slice t 1 2
  end.

Definition compared (equal : bool) (a b : Value) : bool :=
  if equal then bool_decide (a = b) else negb (bool_decide (a = b)).

Inductive Step : Type :=
| Next (p : Packet) (r : Value)
| Broke (p : Packet)
| Ends (v : Verdict) (p : Packet).

Definition load (p : Packet) (v : option Value) : Step := match v with Some v => Next p v | None => Broke p end.

Definition eval_expr (e : Expr) (p : Packet) (r : Value) : Step :=
  match e with
  | MetaIif => Next p (Num (p_iif p))
  | MetaOif => Next p (Num (p_oif p))
  | MetaNfproto => Next p (Num (nfproto (p_version p)))
  | MetaL4proto => load p (Num <$> p_l4proto p)
  | MetaMark => Next p (Num (p_mark p))
  | MetaSkuid => load p (Num <$> p_skuid p)
  | MetaCgroup => load p (Num <$> p_cgroup p)
  | CtMark => load p (Num <$> p_ct_mark p)
  | CtState => Next p (Num (p_ct_state p))
  | SocketCgroupV2 level => load p (Num <$> p_cgroupv2 p level)
  | Payload f => load p (Bytes <$> load_field p f)
  | Immediate v => Next p v
  | MetaMarkSet => match r with Num m => Next (with_mark p m) r | Bytes _ => Broke p end
  | CtMarkSet =>
      match r with
      | Num m => Next (match p_ct_mark p with Some _ => with_ct_mark p (Some m) | None => p end) r
      | Bytes _ => Broke p
      end
  | Bitwise mask =>
      match r, mask with
      | Num n, Num m => Next p (Num (Z.land n m))
      | Bytes b, Bytes m => Next p (Bytes (zip_with Z.land b m))
      | _, _ => Broke p
      end
  | Cmp equal v => if compared equal r v then Next p r else Broke p
  | Masquerade => Ends Accept (masqueraded p)
  | Counter => Next p r
  | RuleVerdict v => Ends v p
  end.

Fixpoint run_rule (rule : Rule) (p : Packet) (r : Value) : option Verdict * Packet :=
  match rule with
  | [] => (None, p)
  | e :: rule =>
      match eval_expr e p r with
      | Next p r => run_rule rule p r
      | Broke p => (None, p)
      | Ends v p => (Some v, p)
      end
  end.

(** The rules of a chain, in order; [None] when they leave the packet to the chain's policy. *)
Fixpoint run_rules (rules : list Rule) (p : Packet) : option Verdict * Packet :=
  match rules with
  | [] => (None, p)
  | rule :: rules =>
      let '(v, p) := run_rule rule p (Num 0) in
      match v with Some v => (Some v, p) | None => run_rules rules p end
  end.

(** ** Addresses and ports of a packet *)

Definition saddr (p : Packet) : option IpAddr :=
  match p_version p with IPv4 => V4 <$> load_field p Ipv4Saddr | IPv6 => V6 <$> load_field p Ipv6Saddr end.
Definition daddr (p : Packet) : option IpAddr :=
  match p_version p with IPv4 => V4 <$> load_field p Ipv4Daddr | IPv6 => V6 <$> load_field p Ipv6Daddr end.

Definition l4proto (t : TransportProtocol) : Z := match t with Udp => IPPROTO_UDP | Tcp => IPPROTO_TCP end.

Definition sport (p : Packet) : option bytes := t ← p_transport p; get_slice t 0 2.
Definition dport (p : Packet) : option bytes := t ← p_transport p; get_slice t 2 4.

(** ** Rules that only test

    A list of expressions is a guard when it changes nothing and goes on exactly when its condition
    holds, whatever the register held. *)
Definition guards (es : Rule) (c : Packet -> bool) : Prop :=
  forall p r k, exists r', run_rule (es ++ k) p r = if c p then run_rule k p r' else (None, p).

Lemma compared_num a b : compared true (Num a) (Num b) = (a =? b).
Proof.
  unfold compared. destruct (Z.eqb_spec a b) as [->|Hn]; [by rewrite bool_decide_eq_true_2|].
  rewrite bool_decide_eq_false_2; [done|]. by injection 1.
Qed.

Lemma compared_not_num a b : compared false (Num a) (Num b) = negb (a =? b).
Proof. rewrite <- compared_num. done. Qed.

Lemma compared_bytes a b : compared true (Bytes a) (Bytes b) = bool_decide (a = b).
Proof. unfold compared. apply bool_decide_ext. naive_solver. Qed.

Lemma guards_nil : guards [] (fun _ => true).
Proof. intros p r k. by exists r. Qed.

Lemma guards_app a b ca cb : guards a ca -> guards b cb -> guards (a ++ b) (fun p => ca p && cb p).
Proof.
  intros Ha Hb p r k. destruct (Ha p r (b ++ k)) as [r1 Hr1]. destruct (Hb p r1 k) as [r2 Hr2].
  exists r2. rewrite <- app_assoc, Hr1. destruct (ca p); [exact Hr2|done].
Qed.

Lemma guards_ext es c c' : (forall p, c p = c' p) -> guards es c -> guards es c'.
Proof. intros Heq Hg p r k. destruct (Hg p r k) as [r' Hr]. exists r'. by rewrite <- Heq. Qed.

(** A load and a comparison. *)
Lemma guards_cmp e (f : Packet -> option Value) b v :
  (forall p r, eval_expr e p r = load p (f p)) ->
  guards [e; Cmp b v] (fun p => match f p with Some x => compared b x v | None => false end).
Proof.
  intros He p r k. cbn [app run_rule]. rewrite He. unfold load. destruct (f p) as [x|]; [|by exists r].
  cbn [run_rule eval_expr]. exists x. by destruct (compared b x v).
Qed.

Lemma guards_mask e (f : Packet -> option Value) m b v (g : Value -> Value) :
  (forall p r, eval_expr e p r = load p (f p)) ->
  (forall p x, f p = Some x -> eval_expr (Bitwise m) p x = Next p (g x)) ->
  guards [e; Bitwise m; Cmp b v]
    (fun p => match f p with Some x => compared b (g x) v | None => false end).
Proof.
  intros He Hg p r k. cbn [app run_rule]. rewrite He. unfold load. destruct (f p) as [x|] eqn:Hx; [|by exists r].
  rewrite (Hg p x Hx). cbn [run_rule eval_expr]. exists (g x). by destruct (compared b (g x) v).
Qed.

Lemma run_rules_app a b p :
  run_rules (a ++ b) p = match run_rules a p with (Some v, p) => (Some v, p) | (None, p) => run_rules b p end.
Proof.
  revert p. induction a as [|rule a IH]; intros p; cbn [app run_rules]; [done|].
  destruct (run_rule rule p (Num 0)) as [[v|] p']; [done|apply IH].
Qed.

Definition first_of {A : Type} (a b : option A) : option A := match a with Some _ => a | None => b end.
Definition verdict_if (b : bool) (v : Verdict) : option Verdict := if b then Some v else None.

Lemma first_none {A : Type} (a : option A) : first_of a None = a.
Proof. by destruct a. Qed.

Lemma first_same a b v : first_of (verdict_if a v) (verdict_if b v) = verdict_if (a || b) v.
Proof. by destruct a. Qed.

(** [rules] change nothing, and judge each packet as [f] does. *)
Definition judges (rules : list Rule) (f : Packet -> option Verdict) : Prop :=
  forall p, run_rules rules p = (f p, p).

Lemma judges_nil : judges [] (fun _ => None).
Proof. done. Qed.

Lemma judges_app a b f g : judges a f -> judges b g -> judges (a ++ b) (fun p => first_of (f p) (g p)).
Proof. intros Ha Hb p. rewrite run_rules_app, Ha. destruct (f p); [done|apply Hb]. Qed.

Lemma judges_ext rules f g : (forall p, f p = g p) -> judges rules f -> judges rules g.
Proof. intros Heq Hf p. by rewrite <- Heq. Qed.

Lemma judges_cons rule rules f g : judges [rule] f -> judges rules g -> judges (rule :: rules) (fun p => first_of (f p) (g p)).
Proof. apply (judges_app [rule] rules). Qed.

(** A guard, then a verdict, counted or not. *)
Lemma judges_rule es counted v c :
  guards es c -> judges [es ++ (if (counted : bool) then [Counter] else []) ++ [RuleVerdict v]] (fun p => verdict_if (c p) v).
Proof.
  intros Hg p. cbn [run_rules]. destruct (Hg p (Num 0) ((if counted then [Counter] else []) ++ [RuleVerdict v])) as [r ->].
  destruct (c p); [|done]. by destruct counted.
Qed.
