(* ===== verification/Firewall.v ===== *)
(** * The firewall's rules on Linux (talpid-core/src/firewall/linux.rs)

    [PolicyBatch] builds the nftables rules of a policy; here a batch is the
    rules in the order they are added, each with its chain, and building one
    fails when the name of an interface has no index.  [set_app_lock] builds the
    table of the apps locked to the tunnel. *)

From S2P Require Import Prelude BTree Net Networks Lan Tunnel Tailnet Nft.
Open Scope Z_scope.

(** ** Constants *)

(** [split_tunnel::MARK], [INCLUDE_CT_MARK], [INCLUDE_FWMARK] *)
Definition MARK : Z := 0xf41.
Definition INCLUDE_CT_MARK : Z := 0xf42.
Definition INCLUDE_FWMARK : Z := 0x696e636c.

Definition DHCPV4_SERVER_PORT : Z := 67.
Definition DHCPV4_CLIENT_PORT : Z := 68.
Definition DHCPV6_SERVER_PORT : Z := 547.
Definition DHCPV6_CLIENT_PORT : Z := 546.
Definition ROOT_UID : Z := 0.
Definition LOCKED_CGROUP_LEVEL : Z := 2.

Definition DHCPV6_SERVER_ADDRS : list IpAddr :=
  [v6_addr [0xff02; 0; 0; 0; 0; 0; 1; 2]; v6_addr [0xff05; 0; 0; 0; 0; 0; 1; 3]].
Definition ROUTER_SOLICITATION_OUT_DST_ADDR : IpAddr := v6_addr [0xff02; 0; 0; 0; 0; 0; 0; 2].

(** [Ipv4Addr::BROADCAST], [States::ESTABLISHED] *)
Definition BROADCAST : IpAddr := v4_addr 255 255 255 255.
Definition ESTABLISHED : Z := 2.

(** ** Chains *)

Inductive Chain : Type := InChain | OutChain | ForwardChain | PreroutingChain | MangleChain | NatChain | PostroutingChain.
#[export] Instance Chain_eq_dec : EqDecision Chain.
Proof. solve_decision. Defined.

(** The policies [PolicyBatch::new] sets; a chain without one accepts. *)
Definition chain_policy (c : Chain) : Verdict :=
  match c with InChain | OutChain | ForwardChain => Drop | _ => Accept end.

Abbreviation Batch := (list (Chain * Rule)) (only parsing).

Inductive Direction : Type := In | Out.
#[export] Instance Direction_eq_dec : EqDecision Direction.
Proof. solve_decision. Defined.
Inductive End : Type := Src | Dst.

Inductive FwError : Type := LookupIfaceIndexError (name : str).

(** What the firewall asks of the system: [iface_index], [ADD_COUNTERS], the feature [cgroup2], and
    the host's interfaces as [read_host_interfaces] reads them. *)
Class Host : Type := {
  iface_index : str -> option Z;
  ADD_COUNTERS : bool;
  feature_cgroup2 : bool;
  read_host_interfaces : option (list HostInterface)
}.

Section Rules.
Context `{!Networks, !Host}.

Definition IPV6_LINK_LOCAL : IpNetwork := net_const (v6_addr [0xfe80; 0; 0; 0; 0; 0; 0; 0]) 10.
Definition SOLICITED_NODE_MULTICAST : IpNetwork := net_const (v6_addr [0xff02; 0; 0; 0; 0; 1; 0xff00; 0]) 104.

(** [Firewall]; a cgroup is its inode. *)
Record Firewall : Type := mkFirewall {
  fwmark : Z;
  excluded_cgroup2 : option Z;
  net_cls : option Z;
  included_cgroup2 : option Z;
  firewall_include_only : bool
}.

(** ** The parts of a rule *)

Definition counter : Rule := if ADD_COUNTERS then [Counter] else [].

Definition add_verdict (v : Verdict) : Rule := counter ++ [RuleVerdict v].

Definition iface_of (d : Direction) : Expr := match d with In => MetaIif | Out => MetaOif end.

Definition check_iface (d : Direction) (iface : str) : comp FwError Rule :=
  i ← ok_or (iface_index iface) (LookupIfaceIndexError iface); Ok [iface_of d; Cmp true (Num i)].

Definition check_not_iface (d : Direction) (iface : str) : comp FwError Rule :=
  i ← ok_or (iface_index iface) (LookupIfaceIndexError iface); Ok [iface_of d; Cmp false (Num i)].

Definition l3proto (a : IpAddr) : Z := match a with V4 _ => NFPROTO_IPV4 | V6 _ => NFPROTO_IPV6 end.
Definition check_l3proto (a : IpAddr) : Rule := [MetaNfproto; Cmp true (Num (l3proto a))].
Definition check_l4proto (t : TransportProtocol) : Rule := [MetaL4proto; Cmp true (Num (l4proto t))].

Definition addr_field (a : IpAddr) (e : End) : Field :=
  match a, e with
  | V4 _, Src => Ipv4Saddr | V4 _, Dst => Ipv4Daddr
  | V6 _, Src => Ipv6Saddr | V6 _, Dst => Ipv6Daddr
  end.

(** The address itself, once its protocol is checked. *)
Definition check_addr (e : End) (a : IpAddr) : Rule := [Payload (addr_field a e); Cmp true (Bytes (octets a))].

Definition check_ip (e : End) (a : IpAddr) : Rule :=
  check_l3proto a ++ check_addr e a.

Definition check_net (e : End) (net : IpNetwork) : Rule :=
  check_l3proto (net_ip net)
  ++ [Payload (addr_field (net_ip net) e); Bitwise (Bytes (octets (net_mask net))); Cmp true (Bytes (octets (net_ip net)))].

Definition port_field (t : TransportProtocol) (e : End) : Field :=
  match t, e with Udp, Src => UdpSport | Udp, Dst => UdpDport | Tcp, Src => TcpSport | Tcp, Dst => TcpDport end.

Definition check_port (t : TransportProtocol) (e : End) (port : Z) : Rule :=
  check_l4proto t ++ [Payload (port_field t e); Cmp true (Bytes (be16 port))].

Definition check_endpoint (e : End) (endpoint : Endpoint) : Rule :=
  check_ip e (ip (address endpoint)) ++ check_port (protocol endpoint) e (port (address endpoint)).

Definition check_icmpv6 (type code : Z) : Rule :=
  [MetaL4proto; Cmp true (Num IPPROTO_ICMPV6); Payload Icmpv6Type; Cmp true (Bytes [type]);
   Payload Icmpv6Code; Cmp true (Bytes [code])].

Definition check_ct_established : Rule := [CtState; Bitwise (Num ESTABLISHED); Cmp false (Num 0)].

Definition check_ct_included : Rule := [CtMark; Cmp true (Num INCLUDE_CT_MARK)].

Definition check_ct_excluded : Rule := [CtMark; Cmp true (Num MARK)].
Definition check_ct_not_included : Rule := [CtMark; Cmp false (Num INCLUDE_CT_MARK)].
Definition check_mark (mark : Z) : Rule := [MetaMark; Cmp true (Num mark)].
Definition check_root : Rule := [MetaSkuid; Cmp true (Num ROOT_UID)].
Definition check_cgroup2 (level inode : Z) : Rule := [SocketCgroupV2 level; Cmp true (Num inode)].
Definition check_net_cls (net_cls : Z) : Rule := [MetaCgroup; Cmp true (Num net_cls)].

Definition set_mark (mark : Z) : Rule := [Immediate (Num mark); MetaMarkSet].
Definition set_ct_mark (mark : Z) : Rule := [Immediate (Num mark); CtMarkSet].

Definition set_include_marks : Rule :=
  set_ct_mark INCLUDE_CT_MARK ++ set_mark INCLUDE_FWMARK ++ counter.

Definition allow_interface_rule (d : Direction) (iface : str) : comp FwError Rule :=
  c ← check_iface d iface; Ok (c ++ add_verdict Accept).

(** Every table is of the [Inet] family, so the network protocol is checked. *)
Definition allow_tunnel_dns_rule (iface : str) (t : TransportProtocol) (host : IpAddr) : comp FwError Rule :=
  c ← check_iface Out iface;
  Ok (c ++ check_port t Dst 53 ++ check_l3proto host
      ++ check_addr Dst host ++ add_verdict Accept).

(** A loop that adds rules and may fail. *)
Fixpoint each {A : Type} (l : list A) (f : A -> comp FwError Batch) : comp FwError Batch :=
  match l with [] => Ok [] | x :: l => a ← f x; b ← each l f; Ok (a ++ b) end.

(** The rule of each of the chains. *)
Definition on (chains : list Chain) (r : Rule) : Batch := (fun c => (c, r)) <$> chains.

(** ** The rules of every policy *)

Definition add_loopback_rules : comp FwError Batch :=
  o ← allow_interface_rule Out (lit "lo"); i ← allow_interface_rule In (lit "lo");
  Ok [(OutChain, o); (InChain, i)].

Definition add_dhcp_client_rules : Batch :=
  on [OutChain; ForwardChain]
    (check_port Udp Src DHCPV4_CLIENT_PORT ++ check_ip Dst BROADCAST ++ check_port Udp Dst DHCPV4_SERVER_PORT
     ++ add_verdict Accept)
  ++ on [InChain; ForwardChain]
    (check_port Udp Src DHCPV4_SERVER_PORT ++ check_port Udp Dst DHCPV4_CLIENT_PORT ++ add_verdict Accept)
  ++ (chain ← [OutChain; ForwardChain]; server ← DHCPV6_SERVER_ADDRS;
      on [chain] (check_net Src IPV6_LINK_LOCAL ++ check_port Udp Src DHCPV6_CLIENT_PORT ++ check_ip Dst server
                  ++ check_port Udp Dst DHCPV6_SERVER_PORT ++ add_verdict Accept))
  ++ on [InChain; ForwardChain]
    (check_net Src IPV6_LINK_LOCAL ++ check_port Udp Src DHCPV6_SERVER_PORT ++ check_net Dst IPV6_LINK_LOCAL
     ++ check_port Udp Dst DHCPV6_CLIENT_PORT ++ add_verdict Accept).

Definition add_ndp_rules : Batch :=
  on [OutChain; ForwardChain] (check_ip Dst ROUTER_SOLICITATION_OUT_DST_ADDR ++ check_icmpv6 133 0 ++ add_verdict Accept)
  ++ on [InChain; ForwardChain] (check_net Src IPV6_LINK_LOCAL ++ check_icmpv6 134 0 ++ add_verdict Accept)
  ++ on [InChain; ForwardChain] (check_net Src IPV6_LINK_LOCAL ++ check_icmpv6 137 0 ++ add_verdict Accept)
  ++ on [OutChain; ForwardChain] (check_net Dst SOLICITED_NODE_MULTICAST ++ check_icmpv6 135 0 ++ add_verdict Accept)
  ++ on [OutChain; ForwardChain] (check_net Dst IPV6_LINK_LOCAL ++ check_icmpv6 135 0 ++ add_verdict Accept)
  ++ on [InChain; ForwardChain] (check_net Src IPV6_LINK_LOCAL ++ check_icmpv6 135 0 ++ add_verdict Accept)
  ++ on [OutChain; ForwardChain] (check_net Dst IPV6_LINK_LOCAL ++ check_icmpv6 136 0 ++ add_verdict Accept)
  ++ on [InChain; ForwardChain] (check_icmpv6 136 0 ++ add_verdict Accept).

(** ** Exclusion (split tunneling) *)

(** The DNS of a policy that is up. *)
Definition connected_dns (policy : FirewallPolicy) : option (str * ResolvedDnsConfig) :=
  match policy with FwConnected _ tunnel _ _ dns => Some (interface tunnel, dns) | _ => None end.

Definition add_actual_split_tunneling_rules (policy : FirewallPolicy) (mark : Z) (selector : Rule) : comp FwError Batch :=
  dns ← (match connected_dns policy with
         | Some (tunnel, dns) =>
             each (allowed_tunnel_dns dns) (fun server =>
               u ← allow_tunnel_dns_rule tunnel Udp server; t ← allow_tunnel_dns_rule tunnel Tcp server;
               Ok [(MangleChain, u); (MangleChain, t)])
         | None => Ok []
         end);
  let marking := selector ++ set_ct_mark MARK ++ set_mark mark ++ counter in
  let accepted := on [InChain; OutChain; ForwardChain] (check_ct_excluded ++ add_verdict Accept) in
  blocked ← (match connected_dns policy with
             | Some (tunnel, _) =>
                 c ← check_iface Out tunnel; Ok [(NatChain, c ++ check_ct_excluded ++ add_verdict Drop)]
             | None => Ok []
             end);
  lo ← ok_or (iface_index (lit "lo")) (LookupIfaceIndexError (lit "lo"));
  let masquerade := [MetaOif; Cmp false (Num lo)] ++ check_ct_excluded ++ [Masquerade] ++ counter in
  replies ← (match connected_dns policy with
             | Some (tunnel, _) =>
                 c ← check_not_iface In tunnel;
                 Ok [(PreroutingChain, c ++ check_ct_excluded ++ set_mark mark ++ counter)]
             | None => Ok []
             end);
  Ok (dns ++ [(MangleChain, marking)] ++ accepted ++ blocked ++ [(NatChain, masquerade)] ++ replies).

Definition add_split_tunneling_rules (policy : FirewallPolicy) (firewall : Firewall) : comp FwError Batch :=
  match (if feature_cgroup2 then excluded_cgroup2 firewall else None), net_cls firewall with
  | Some cgroup2, _ =>
      add_actual_split_tunneling_rules policy (fwmark firewall) (check_cgroup2 1 cgroup2)
  | None, Some net_cls => add_actual_split_tunneling_rules policy (fwmark firewall) (check_net_cls net_cls)
  | None, None => Ok []
  end.

(** ** Include-only *)

Inductive IncludeRule : Type :=
| TunnelDnsAsIncluded (server : IpAddr)
| MarkIncludedSockets
| RemarkIncludedConnections
| RejectIncluded
| AcceptIncludedDns (server : IpAddr)
| RejectIncludedOtherDns
| AcceptIncluded
| DropIncludedOffTunnel (tunnel : option str)
| DropIncludedArrivingOffTunnel (tunnel : option str)
| DropArrivalsForIncludedSockets (tunnel : option str)
| RemarkIncludedReplies (tunnel : str)
| MasqueradeIncludedIntoTunnel (tunnel : str)
| BlockTunnelAddressProbes (tunnel : TunnelMetadata)
| AcceptNotIncluded.

Definition include_only_head (policy : FirewallPolicy) : list IncludeRule :=
  let connected := connected_dns policy in
  let tunnel := fst <$> connected in
  (match connected with Some (_, dns) => TunnelDnsAsIncluded <$> allowed_tunnel_dns dns | None => [] end)
  ++ [MarkIncludedSockets; RemarkIncludedConnections]
  ++ (match connected with
      | Some (_, dns) =>
          (if negb (allow_external_dns dns)
           then (AcceptIncludedDns <$> allowed_tunnel_dns dns) ++ [RejectIncludedOtherDns] else [])
          ++ [AcceptIncluded]
      | None => [RejectIncluded]
      end)
  ++ [DropIncludedOffTunnel tunnel; DropIncludedArrivingOffTunnel tunnel; DropArrivalsForIncludedSockets tunnel]
  ++ (match tunnel with
      | Some tunnel => [RemarkIncludedReplies tunnel; MasqueradeIncludedIntoTunnel tunnel]
      | None => []
      end).

Definition include_only_tail (policy : FirewallPolicy) : list IncludeRule :=
  (match policy_tunnel policy with Some tunnel => [BlockTunnelAddressProbes tunnel] | None => [] end)
  ++ [AcceptNotIncluded].

(** [check_not_iface], for the tunnel there is. *)
Definition off_tunnel (d : Direction) (tunnel : option str) : comp FwError Rule :=
  match tunnel with Some tunnel => check_not_iface d tunnel | None => Ok [] end.

Definition add_block_cve_2019_14899 (tunnel : TunnelMetadata) : Batch :=
  (fun tunnel_ip => (InChain, check_ip Dst tunnel_ip ++ add_verdict Drop)) <$> ips tunnel.

Definition add_include_only_rule (rule : IncludeRule) (included : option Z) : comp FwError Batch :=
  let reject := add_verdict (Reject IcmpPortUnreach) in
  match rule with
  | TunnelDnsAsIncluded server => Ok [(MangleChain, check_ip Dst server ++ set_include_marks)]
  | MarkIncludedSockets =>
      Ok match included with
         | Some cgroup => [(MangleChain, check_cgroup2 1 cgroup ++ set_include_marks)]
         | None => []
         end
  | RemarkIncludedConnections => Ok [(MangleChain, check_ct_included ++ set_mark INCLUDE_FWMARK)]
  | RejectIncluded => Ok [(OutChain, check_ct_included ++ reject)]
  | AcceptIncludedDns server =>
      Ok ((fun t => (OutChain, check_ct_included ++ check_port t Dst 53 ++ check_ip Dst server ++ add_verdict Accept)) <$> [Udp; Tcp])
  | RejectIncludedOtherDns => Ok ((fun t => (OutChain, check_ct_included ++ check_port t Dst 53 ++ reject)) <$> [Udp; Tcp])
  | AcceptIncluded => Ok [(OutChain, check_ct_included ++ add_verdict Accept)]
  | DropIncludedOffTunnel tunnel =>
      lo ← check_not_iface Out (lit "lo"); off ← off_tunnel Out tunnel;
      Ok [(PostroutingChain, lo ++ off ++ check_ct_included ++ add_verdict Drop)]
  | DropIncludedArrivingOffTunnel tunnel =>
      off ← off_tunnel In tunnel; Ok [(InChain, off ++ check_ct_included ++ add_verdict Drop)]
  | DropArrivalsForIncludedSockets tunnel =>
      match included with
      | None => Ok []
      | Some cgroup =>
          off ← off_tunnel In tunnel; Ok [(InChain, off ++ check_cgroup2 1 cgroup ++ add_verdict Drop)]
      end
  | RemarkIncludedReplies tunnel =>
      c ← check_iface In tunnel; Ok [(PreroutingChain, c ++ check_ct_included ++ set_mark INCLUDE_FWMARK)]
  | MasqueradeIncludedIntoTunnel tunnel =>
      c ← check_iface Out tunnel; Ok [(NatChain, c ++ check_ct_included ++ [Masquerade])]
  | BlockTunnelAddressProbes tunnel => Ok (add_block_cve_2019_14899 tunnel)
  | AcceptNotIncluded =>
      Ok (on [OutChain; ForwardChain; InChain] (check_ct_not_included ++ add_verdict Accept))
  end.

(** ** The rules of a policy *)

Definition add_allow_tunnel_endpoint_rules (e : AllowedEndpoint) (mark : Z) : Batch :=
  [(PreroutingChain, check_endpoint Src (endpoint e) ++ set_mark mark ++ counter);
   (InChain, check_endpoint Src (endpoint e) ++ check_ct_established ++ add_verdict Accept);
   (OutChain, check_endpoint Dst (endpoint e) ++ check_mark mark ++ add_verdict Accept);
   (OutChain, check_endpoint Dst (endpoint e) ++ check_root ++ add_verdict Accept)]
  ++ (if allow_all (clients e)
      then [(MangleChain, check_endpoint Dst (endpoint e)
              ++ set_ct_mark MARK ++ set_mark mark)]
      else []).

Definition root_only (c : AllowedClients) : Rule :=
  if negb (allow_all c) then check_root else [].

Definition add_allow_endpoint_rules (e : AllowedEndpoint) : Batch :=
  [(InChain, check_endpoint Src (endpoint e) ++ check_ct_established ++ root_only (clients e) ++ add_verdict Accept);
   (OutChain, check_endpoint Dst (endpoint e) ++ root_only (clients e) ++ add_verdict Accept)].

Definition add_allow_tunnel_dns_rule (iface : str) (t : TransportProtocol) (host : IpAddr) : comp FwError Batch :=
  each [OutChain; ForwardChain] (fun chain => r ← allow_tunnel_dns_rule iface t host; Ok [(chain, r)]).

Definition add_allow_local_dns_rule (tunnel : str) (t : TransportProtocol) (host : IpAddr) : comp FwError Batch :=
  each [(OutChain, Out); (ForwardChain, Out); (InChain, In); (ForwardChain, In)] (fun '(chain, d) =>
    let e := match d with In => Src | Out => Dst end in
    c ← check_not_iface d tunnel;
    Ok [(chain, c ++ check_port t e 53 ++ check_l3proto host ++ check_addr e host
           ++ (match d with In => check_ct_established | Out => [] end) ++ add_verdict Accept)]).

Definition add_drop_dns_rule : Batch :=
  chain ← [OutChain; ForwardChain];
  [(chain, check_port Udp Dst 53 ++ add_verdict (Reject IcmpPortUnreach));
   (chain, check_port Tcp Dst 53 ++ add_verdict (Reject TcpRst))].

Definition add_allow_in_tunnel_endpoint_rules (tunnel : str) (e : Endpoint) : comp FwError Batch :=
  each [(OutChain, Out, Dst); (InChain, In, Src)] (fun '(chain, d, end_) =>
    c ← check_iface d tunnel;
    Ok [(chain, c ++ check_ip end_ (ip (address e)) ++ check_port (protocol e) end_ (port (address e)) ++ add_verdict Accept)]).

Definition add_allow_tailnet_rules (interfaces : gset str) : comp FwError Batch :=
  let set : gset str := list_to_set (filter (fun name => is_Some (iface_index name)) (btree_elems interfaces)) in
  each (tailnet_passes set) (fun pass =>
    let '(chain, d, end_) := match pass_direction pass with PassOut => (OutChain, Out, Dst) | PassIn => (InChain, In, Src) end in
    c ← check_iface d (pass_interface pass);
    Ok [(chain, c ++ check_net end_ (pass_net pass) ++ add_verdict Accept)]).

Definition add_allow_tunnel_rules (tunnel : str) : comp FwError Batch :=
  o ← allow_interface_rule Out tunnel; f ← allow_interface_rule Out tunnel; i ← allow_interface_rule In tunnel;
  c ← check_iface In tunnel;
  Ok [(OutChain, o); (ForwardChain, f); (InChain, i); (ForwardChain, c ++ check_ct_established ++ add_verdict Accept)].

Definition add_dhcp_server_rules : Batch :=
  [(OutChain, check_port Udp Src DHCPV4_SERVER_PORT ++ check_port Udp Dst DHCPV4_CLIENT_PORT ++ add_verdict Accept);
   (InChain, check_port Udp Src DHCPV4_CLIENT_PORT
     ++ check_endpoint Dst (mkEndpoint (mkSocketAddr BROADCAST DHCPV4_SERVER_PORT) Udp) ++ add_verdict Accept)].

Definition add_allow_lan_rules (nets : list IpNetwork) : Batch :=
  (chain ← [OutChain; ForwardChain];
   ((fun net => (chain, check_net Dst net ++ add_verdict Accept)) <$> nets)
   ++ ((fun net => (chain, check_net Dst net ++ add_verdict Accept)) <$> ALLOWED_LAN_MULTICAST_NETS))
  ++ ((fun net => (InChain, check_net Src net ++ add_verdict Accept)) <$> nets)
  ++ add_dhcp_server_rules.

(** [tailnet_interfaces] *)
Definition tailnet_interfaces (policy : FirewallPolicy) : gset str :=
  match policy_tunnel policy with
  | Some tunnel => current_coexisting_tailnet_interfaces read_host_interfaces (Some (interface tunnel))
  | None => ∅
  end.

(** The first part of [add_policy_specific_rules], before the local network's. *)
Definition policy_rules (policy : FirewallPolicy) (mark : Z) : comp FwError Batch :=
  match policy with
  | FwConnecting peers tunnel allow_lan _ allowed traffic =>
      tailnet ← add_allow_tailnet_rules (tailnet_interfaces policy);
      in_tunnel ← (match tunnel with
                   | Some tunnel =>
                       rules ← (match traffic with
                                | AttAll => add_allow_tunnel_rules (interface tunnel)
                                | AttNone => Ok []
                                | AttOne e => add_allow_in_tunnel_endpoint_rules (interface tunnel) e
                                | AttTwo e e' =>
                                    a ← add_allow_in_tunnel_endpoint_rules (interface tunnel) e;
                                    b ← add_allow_in_tunnel_endpoint_rules (interface tunnel) e';
                                    Ok (a ++ b)
                                end);
                       Ok (rules ++ if (allow_lan : bool) then add_block_cve_2019_14899 tunnel else [])
                   | None => Ok []
                   end);
      Ok ((e ← peers; add_allow_tunnel_endpoint_rules e mark) ++ add_allow_endpoint_rules allowed ++ tailnet
          ++ add_drop_dns_rule ++ in_tunnel)
  | FwConnected peers tunnel allow_lan _ dns =>
      tunnel_dns ← each (allowed_tunnel_dns dns) (fun server =>
        u ← add_allow_tunnel_dns_rule (interface tunnel) Udp server;
        t ← add_allow_tunnel_dns_rule (interface tunnel) Tcp server; Ok (u ++ t));
      local_dns ← each (non_tunnel_config dns) (fun server =>
        u ← add_allow_local_dns_rule (interface tunnel) Udp server;
        t ← add_allow_local_dns_rule (interface tunnel) Tcp server; Ok (u ++ t));
      tailnet ← add_allow_tailnet_rules (tailnet_interfaces policy);
      in_tunnel ← add_allow_tunnel_rules (interface tunnel);
      Ok ((e ← peers; add_allow_tunnel_endpoint_rules e mark) ++ tunnel_dns ++ local_dns ++ tailnet
          ++ (if negb (allow_external_dns dns) then add_drop_dns_rule else [])
          ++ in_tunnel ++ (if (allow_lan : bool) then add_block_cve_2019_14899 tunnel else []))
  | FwBlocked _ _ allowed =>
      Ok ((match allowed with Some e => add_allow_endpoint_rules e | None => [] end) ++ add_drop_dns_rule)
  end.

Definition add_policy_specific_rules (policy : FirewallPolicy) (mark : Z) (include_only : bool) : comp FwError Batch :=
  rules ← policy_rules policy mark;
  tail ← (if include_only then each (include_only_tail policy) (fun rule => add_include_only_rule rule None) else Ok []);
  Ok (rules ++ (if policy_allow_lan policy then add_allow_lan_rules (policy_lan_networks policy) else []) ++ tail
      ++ on [OutChain; ForwardChain] (add_verdict (Reject IcmpPortUnreach))).

Definition finalize (policy : FirewallPolicy) (firewall : Firewall) : comp FwError Batch :=
  loopback ← add_loopback_rules;
  apps ← (if firewall_include_only firewall
          then each (include_only_head policy) (fun rule => add_include_only_rule rule (included_cgroup2 firewall))
          else add_split_tunneling_rules policy firewall);
  specific ← add_policy_specific_rules policy (fwmark firewall) (firewall_include_only firewall);
  Ok (loopback ++ apps ++ add_dhcp_client_rules ++ add_ndp_rules ++ specific).

(** ** The apps locked to the tunnel *)

Inductive LockRule : Type := AcceptLoopback | AcceptLan (net : IpNetwork) | LockReject | LockDrop.

Definition lock_rules (tunnel_up : bool) (lan : list IpNetwork) (d : Direction) : list LockRule :=
  if tunnel_up then []
  else [AcceptLoopback] ++ (AcceptLan <$> lan) ++ [match d with Out => LockReject | In => LockDrop end].

Definition lock_lan (allow_lan : bool) : list IpNetwork :=
  if negb allow_lan then [] else ALLOWED_LAN_NETS ++ ALLOWED_LAN_MULTICAST_NETS.

(** The rules of one of the lock table's chains. *)
Definition lock_chain (locked : Z) (rules : list LockRule) (d : Direction) (chain : Chain) : comp FwError Batch :=
  each rules (fun lock_rule =>
    let end_ := match d with Out => Dst | In => Src end in
    checked ← (match lock_rule with
               | AcceptLoopback => c ← check_iface d (lit "lo"); Ok (c, Accept)
               | AcceptLan net => Ok (check_net end_ net, Accept)
               | LockReject => Ok ([], Reject IcmpPortUnreach)
               | LockDrop => Ok ([], Drop)
               end);
    Ok [(chain, check_cgroup2 LOCKED_CGROUP_LEVEL locked ++ checked.1 ++ add_verdict checked.2)]).

(** [set_app_lock], the lock table's two chains. *)
Definition set_app_lock (locked : Z) (tunnel_up allow_lan : bool) : comp FwError Batch :=
  each [(Out, OutChain); (In, InChain)] (fun '(d, chain) =>
    lock_chain locked (lock_rules tunnel_up (lock_lan allow_lan) d) d chain).

(** The lock table's chains accept what their rules leave. *)
Definition lock_policy : Verdict := Accept.

End Rules.

#[global] Arguments add_verdict : simpl never.
#[global] Arguments counter : simpl never.
#[global] Arguments check_l3proto : simpl never.
#[global] Arguments check_addr : simpl never.
#[global] Arguments check_ip : simpl never.
#[global] Arguments check_net : simpl never.
#[global] Arguments check_port : simpl never.
#[global] Arguments check_endpoint : simpl never.
#[global] Arguments check_icmpv6 : simpl never.
#[global] Arguments check_ct_established : simpl never.
#[global] Arguments check_ct_included : simpl never.
#[global] Arguments check_ct_excluded : simpl never.
#[global] Arguments check_ct_not_included : simpl never.
#[global] Arguments check_mark : simpl never.
#[global] Arguments check_root : simpl never.
#[global] Arguments check_cgroup2 : simpl never.
#[global] Arguments check_net_cls : simpl never.
#[global] Arguments set_mark : simpl never.
#[global] Arguments set_ct_mark : simpl never.
#[global] Arguments set_include_marks : simpl never.
#[global] Arguments v4_addr : simpl never.
#[global] Arguments v6_addr : simpl never.
#[global] Arguments BROADCAST : simpl never.
#[global] Arguments ROUTER_SOLICITATION_OUT_DST_ADDR : simpl never.
