(* ===== verification/FirewallSpec.v ===== *)
(** * What the firewall's rules let through

    Each check of a rule is a condition on the packet; the rules each part of a
    policy adds to a chain judge packets as a function says; and the chains of a
    whole policy refine the decision written here. *)

From S2P Require Import Prelude BTree Net Networks Lan Tunnel Tailnet Nft Firewall.
From Stdlib Require Import Btauto.
Open Scope Z_scope.

(** ** Conditions on a packet *)

Definition addr_at (e : End) (p : Packet) : option IpAddr := match e with Src => saddr p | Dst => daddr p end.
Definition port_at (e : End) (p : Packet) : option bytes := match e with Src => sport p | Dst => dport p end.

Definition at_addr (e : End) (a : IpAddr) (p : Packet) : bool := bool_decide (addr_at e p = Some a).
Definition at_port (t : TransportProtocol) (e : End) (port : Z) (p : Packet) : bool :=
  bool_decide (p_l4proto p = Some (l4proto t)) && bool_decide (port_at e p = Some (be16 port)).
Definition at_endpoint (e : End) (x : Endpoint) (p : Packet) : bool :=
  at_addr e (ip (address x)) p && at_port (protocol x) e (port (address x)) p.
Definition icmpv6 (type : Z) (p : Packet) : bool :=
  bool_decide (p_l4proto p = Some IPPROTO_ICMPV6)
  && bool_decide (load_field p Icmpv6Type = Some [type]) && bool_decide (load_field p Icmpv6Code = Some [0]).
Definition established (p : Packet) : bool := negb (Z.land (p_ct_state p) ESTABLISHED =? 0).
Definition ct_marked (m : Z) (p : Packet) : bool := bool_decide (p_ct_mark p = Some m).
Definition iface_at (d : Direction) (p : Packet) : Z := match d with In => p_iif p | Out => p_oif p end.

(** DNS, over either transport. *)
Definition dns (p : Packet) : bool := at_port Udp Dst 53 p || at_port Tcp Dst 53 p.
Definition refuse_dns (p : Packet) : Verdict := if at_port Udp Dst 53 p then Reject IcmpPortUnreach else Reject TcpRst.

Section Guards.
Context `{!Networks, !Host}.

(** In the network, its address taken as written: a network with host bits matches nothing. *)
Definition in_net (e : End) (n : IpNetwork) (p : Packet) : bool :=
  match addr_at e p with Some a => bool_decide (truncated a (net_prefix n) = net_ip n) | None => false end.
Definition in_nets (e : End) (nets : list IpNetwork) (p : Packet) : bool := existsb (fun n => in_net e n p) nets.

(** On the interface of that name. *)
Definition on_iface (d : Direction) (iface : str) (p : Packet) : bool :=
  bool_decide (iface_index iface = Some (iface_at d p)).

(** *** A check is a guard *)

Lemma guards_l3proto a : guards (check_l3proto a) (fun p => nfproto (p_version p) =? l3proto a).
Proof.
  eapply guards_ext; [|apply (guards_cmp MetaNfproto (fun p => Some (Num (nfproto (p_version p))))); done].
  intros p. apply compared_num.
Qed.

Lemma l3proto_version a p :
  (nfproto (p_version p) =? l3proto a) = match a, p_version p with V4 _, IPv4 | V6 _, IPv6 => true | _, _ => false end.
Proof. by destruct a, (p_version p). Qed.

Lemma guards_ip e a : guards (check_ip e a) (at_addr e a).
Proof.
  unfold check_ip, check_addr. eapply guards_ext; [|apply guards_app; [apply guards_l3proto|];
    apply (guards_cmp _ (fun p => Bytes <$> load_field p (addr_field a e))); done].
  intros p. cbn beta. rewrite l3proto_version. unfold at_addr, addr_at, saddr, daddr.
  destruct a, (p_version p), e; cbn [addr_field andb]; destruct (load_field p _); cbn [fmap option_fmap option_map];
    rewrite ?compared_bytes; try (apply bool_decide_ext; naive_solver); by rewrite bool_decide_eq_false_2.
Qed.

Lemma guards_net e n : guards (check_net e n) (in_net e n).
Proof.
  eapply guards_ext; [|apply guards_app; [apply guards_l3proto|];
    apply (guards_mask _ (fun p => Bytes <$> load_field p (addr_field (net_ip n) e)) _ _ _
             (fun v => match v with Bytes b => Bytes (mask_bytes b (octets (net_mask n))) | v => v end)); [done|]].
  - intros p. cbn beta. rewrite l3proto_version, net_mask_spec. unfold in_net, addr_at, saddr, daddr, truncated.
    destruct (net_ip n), (p_version p), e; cbn [addr_field with_octets andb]; destruct (load_field p _);
      cbn [fmap option_fmap option_map]; rewrite ?compared_bytes; cbn -[mask_octets mask_bytes bool_decide];
      try done; try (apply bool_decide_ext; naive_solver); by rewrite bool_decide_eq_false_2.
  - intros p x Hx. destruct (load_field p _); [|done]. by injection Hx as <-.
Qed.

(** The tests of what the kernel may not know of a packet. *)
Lemma guards_optional e (f : Packet -> option Z) (n : Z) :
  (forall p r, eval_expr e p r = load p (Num <$> f p)) ->
  guards [e; Cmp true (Num n)] (fun p => bool_decide (f p = Some n)).
Proof.
  intros He. eapply guards_ext; [|by apply (guards_cmp e (fun p => Num <$> f p))].
  intros p. cbn beta. destruct (f p) as [x|]; cbn [fmap option_fmap option_map]; [|by rewrite bool_decide_eq_false_2].
  rewrite compared_num. destruct (Z.eqb_spec x n) as [->|]; [by rewrite bool_decide_eq_true_2|].
  rewrite bool_decide_eq_false_2; [done|]. by injection 1.
Qed.

Lemma guards_l4proto n : guards [MetaL4proto; Cmp true (Num n)] (fun p => bool_decide (p_l4proto p = Some n)).
Proof. by apply guards_optional. Qed.

Lemma guards_payload f b : guards [Payload f; Cmp true (Bytes b)] (fun p => bool_decide (load_field p f = Some b)).
Proof.
  eapply guards_ext; [|apply (guards_cmp (Payload f) (fun p => Bytes <$> load_field p f)); done].
  intros p. cbn beta. destruct (load_field p f); cbn [fmap option_fmap option_map]; [|by rewrite bool_decide_eq_false_2].
  rewrite compared_bytes. apply bool_decide_ext. naive_solver.
Qed.

Lemma guards_port t e port : guards (check_port t e port) (at_port t e port).
Proof.
  eapply guards_ext; [|apply (guards_app [_; _] [_; _]); [apply guards_l4proto|apply guards_payload]].
  intros p. by destruct t, e.
Qed.

Lemma guards_endpoint e x : guards (check_endpoint e x) (at_endpoint e x).
Proof. apply guards_app; [apply guards_ip|apply guards_port]. Qed.

Lemma guards_icmpv6 type : guards (check_icmpv6 type 0) (icmpv6 type).
Proof.
  eapply guards_ext; [|apply (guards_app [_; _; _; _] [_; _]);
    [apply (guards_app [_; _] [_; _]); [apply guards_l4proto|apply guards_payload]|apply guards_payload]].
  done.
Qed.

Lemma guards_established : guards check_ct_established established.
Proof.
  eapply guards_ext; [|apply (guards_mask CtState (fun p => Some (Num (p_ct_state p))) _ _ _
    (fun v => match v with Num n => Num (Z.land n ESTABLISHED) | v => v end)); [done|]].
  - intros p. apply compared_not_num.
  - intros p x [= <-]. done.
Qed.

Lemma guards_ct_mark m : guards [CtMark; Cmp true (Num m)] (ct_marked m).
Proof. by apply guards_optional. Qed.

Lemma guards_included : guards check_ct_included (ct_marked INCLUDE_CT_MARK).
Proof. apply guards_ct_mark. Qed.

Lemma guards_excluded : guards check_ct_excluded (ct_marked MARK).
Proof. apply guards_ct_mark. Qed.

Definition from_uid (uid : Z) (p : Packet) : bool := bool_decide (p_skuid p = Some uid).
Definition in_cgroup (level cgroup : Z) (p : Packet) : bool := bool_decide (p_cgroupv2 p level = Some cgroup).

Lemma guards_root : guards check_root (from_uid ROOT_UID).
Proof. by apply guards_optional. Qed.

Lemma guards_cgroup level cgroup : guards (check_cgroup2 level cgroup) (in_cgroup level cgroup).
Proof. by apply guards_optional. Qed.

(** A tracked packet of another mark: an untracked one does not pass. *)
Definition ct_not_marked (m : Z) (p : Packet) : bool := match p_ct_mark p with Some x => negb (x =? m) | None => false end.

Lemma guards_not_included : guards check_ct_not_included (ct_not_marked INCLUDE_CT_MARK).
Proof.
  eapply guards_ext; [|by apply (guards_cmp CtMark (fun p => Num <$> p_ct_mark p))].
  intros p. unfold ct_not_marked. destruct (p_ct_mark p); cbn [fmap option_fmap option_map]; [|done]. apply compared_not_num.
Qed.

Lemma guards_mark m : guards (check_mark m) (fun p => p_mark p =? m).
Proof.
  eapply guards_ext; [|apply (guards_cmp MetaMark (fun p => Some (Num (p_mark p)))); done].
  intros p. apply compared_num.
Qed.

Lemma on_iface_index d iface i p : iface_index iface = Some i -> on_iface d iface p = (iface_at d p =? i).
Proof.
  intros Hi. unfold on_iface. rewrite Hi. destruct (Z.eqb_spec (iface_at d p) i) as [->|Hn]; [by rewrite bool_decide_eq_true_2|].
  rewrite bool_decide_eq_false_2; [done|]. by injection 1 as ->.
Qed.

Lemma check_iface_ok d iface r : check_iface d iface = Ok r -> guards r (on_iface d iface).
Proof.
  unfold check_iface. destruct (iface_index iface) as [i|] eqn:Hi; [|done]. intros [= <-].
  eapply guards_ext; [|apply (guards_cmp (iface_of d) (fun p => Some (Num (iface_at d p)))); by destruct d].
  intros p. cbn beta. rewrite (on_iface_index _ _ i) by done. apply compared_num.
Qed.

Lemma check_not_iface_ok d iface r : check_not_iface d iface = Ok r -> guards r (fun p => negb (on_iface d iface p)).
Proof.
  unfold check_not_iface. destruct (iface_index iface) as [i|] eqn:Hi; [|done]. intros [= <-].
  eapply guards_ext; [|apply (guards_cmp (iface_of d) (fun p => Some (Num (iface_at d p)))); by destruct d].
  intros p. cbn beta. rewrite (on_iface_index _ _ i) by done. apply compared_not_num.
Qed.
End Guards.

(** ** Rules and chains *)

(** [rule] changes nothing, and gives [v] exactly to the packets of [c]. *)
Definition verdicts (rule : Rule) (c : Packet -> bool) (v : Verdict) : Prop :=
  forall p r, run_rule rule p r = (verdict_if (c p) v, p).

(** The rules of a chain, in the order they were added. *)
Definition same_chain (a b : Chain) : bool :=
  match a, b with
  | InChain, InChain | OutChain, OutChain | ForwardChain, ForwardChain | PreroutingChain, PreroutingChain
  | MangleChain, MangleChain | NatChain, NatChain | PostroutingChain, PostroutingChain => true
  | _, _ => false
  end.

Fixpoint rules_on (c : Chain) (b : list (Chain * Rule)) : list Rule :=
  match b with
  | [] => []
  | (c', rule) :: b => if same_chain c c' then rule :: rules_on c b else rules_on c b
  end.

Section Judging.
Context `{!Networks, !Host}.

Lemma verdicts_verdict v : verdicts (add_verdict v) (fun _ => true) v.
Proof. intros p r. unfold add_verdict, counter. by destruct ADD_COUNTERS. Qed.

Lemma verdicts_app es rule c d v : guards es c -> verdicts rule d v -> verdicts (es ++ rule) (fun p => c p && d p) v.
Proof. intros Hg Hv p r. destruct (Hg p r rule) as [r' ->]. destruct (c p); [apply Hv|done]. Qed.

Lemma verdicts_ext rule c d v : (forall p, c p = d p) -> verdicts rule c v -> verdicts rule d v.
Proof. intros Heq Hv p r. by rewrite <- Heq. Qed.

Lemma judges_one rule c v : verdicts rule c v -> judges [rule] (fun p => verdict_if (c p) v).
Proof. intros Hv p. cbn [run_rules]. rewrite Hv. by destruct (c p). Qed.

Lemma judges_all {A : Type} (l : list A) (rule : A -> Rule) (c : A -> Packet -> bool) v :
  (forall x, x ∈ l -> verdicts (rule x) (c x) v) ->
  judges (rule <$> l) (fun p => verdict_if (existsb (fun x => c x p) l) v).
Proof.
  induction l as [|x l IH]; intros Hv; [apply judges_nil|].
  eapply judges_ext; [|apply judges_cons; [apply judges_one, Hv; constructor|apply IH; intros; apply Hv; by constructor]].
  intros p. cbn. by destruct (c x p).
Qed.

Lemma judges_same rules rules' f c v d :
  judges rules (fun p => verdict_if (c p) v) -> judges rules' (fun p => verdict_if (d p) v) ->
  (forall p, f p = verdict_if (c p || d p) v) -> judges (rules ++ rules') f.
Proof.
  intros Hr Hr' Hf. eapply judges_ext; [|apply judges_app; [exact Hr|exact Hr']].
  intros p. rewrite Hf. cbn. by destruct (c p).
Qed.

Lemma same_chain_iff a b : same_chain a b = true <-> a = b.
Proof. by destruct a, b. Qed.

Lemma rules_on_app c a b : rules_on c (a ++ b) = rules_on c a ++ rules_on c b.
Proof. induction a as [|[c' r] a IH]; [done|]. cbn [app rules_on]. rewrite IH. by destruct (same_chain c c'). Qed.

Lemma rules_on_own {A : Type} c (l : list A) (rule : A -> Rule) : rules_on c ((fun x => (c, rule x)) <$> l) = rule <$> l.
Proof.
  induction l as [|x l IH]; [done|]. cbn [fmap list_fmap rules_on].
  rewrite (proj2 (same_chain_iff c c) eq_refl). by f_equal.
Qed.

Lemma rules_on_other {A : Type} c c' (l : list A) (rule : A -> Rule) : c <> c' -> rules_on c ((fun x => (c', rule x)) <$> l) = [].
Proof.
  intros Hc. induction l as [|x l IH]; [done|]. cbn [fmap list_fmap rules_on].
  destruct (same_chain c c') eqn:Hs; [by apply same_chain_iff in Hs|exact IH].
Qed.

Lemma rules_on_bind {A : Type} c (l : list A) (f : A -> list (Chain * Rule)) :
  rules_on c (l ≫= f) = l ≫= (fun x => rules_on c (f x)).
Proof. induction l as [|x l IH]; [done|]. cbn [mbind list_bind]. by rewrite rules_on_app, <- IH. Qed.

(** A loop's rules, each round judging as [g] says. *)
Lemma judges_each {A : Type} c (l : list A) f b (g : A -> Packet -> bool) v :
  each l f = Ok b ->
  (forall x r, x ∈ l -> f x = Ok r -> judges (rules_on c r) (fun p => verdict_if (g x p) v)) ->
  judges (rules_on c b) (fun p => verdict_if (existsb (fun x => g x p) l) v).
Proof.
  revert b. induction l as [|x l IH]; intros b Hb Hg; cbn [each] in Hb; [by injection Hb as <-|].
  apply bind_ok in Hb as (r & Hr & (r' & Hr' & [= <-])%bind_ok). rewrite rules_on_app.
  eapply judges_same; [eapply Hg; [constructor|done]|apply IH; [done|intros; eapply Hg; [by constructor|done]]|done].
Qed.

Lemma each_app {A : Type} (l l' : list A) f : each (l ++ l') f = (a ← each l f; b ← each l' f; Ok (a ++ b)).
Proof.
  induction l as [|x l IH]; cbn [app each]; [by destruct (each l' f)|].
  rewrite IH. destruct (f x) as [a|e|]; [|done|done]. rewrite !bind_Ok. destruct (each l f); [|done|done]. rewrite !bind_Ok.
  destruct (each l' f); [|done|done]. rewrite !bind_Ok. by rewrite app_assoc.
Qed.

Lemma each_nothing {A : Type} c (l : list A) f b :
  each l f = Ok b -> (forall x r, x ∈ l -> f x = Ok r -> rules_on c r = []) -> rules_on c b = [].
Proof.
  revert b. induction l as [|x l IH]; intros b Hb Hg; cbn [each] in Hb; [by injection Hb as <-|].
  apply bind_ok in Hb as (r & Hr & (r' & Hr' & [= <-])%bind_ok). rewrite rules_on_app.
  rewrite (Hg x r), (IH r'); [done|done| |constructor|done]. intros y s Hy. apply Hg. by constructor.
Qed.
End Judging.

#[export] Hint Resolve guards_ip guards_net guards_port guards_endpoint guards_icmpv6 guards_established guards_included
  guards_excluded guards_not_included guards_mark guards_root guards_cgroup guards_l3proto guards_nil
  check_iface_ok check_not_iface_ok : firewall.

(** The outcomes of the parts of a computation that succeeded. *)
Ltac simplify_bind :=
  cbn beta in *; repeat match goal with
  | H : (_ ≫= _) = Ok _ |- _ => apply bind_ok in H as (? & ? & H)
  | H : Ok _ = Ok _ |- _ => apply Ok_inj in H; subst
  end.

(** A rule made of checks and a verdict. *)
Ltac rule_verdict :=
  repeat first
    [ apply verdicts_verdict
    | eapply verdicts_app; [solve [eauto with firewall nocore]|] ].

(** The rules of a part, once they are explicit. *)
Ltac judge_rules :=
  repeat first
    [ apply judges_nil
    | apply judges_one; rule_verdict
    | eapply judges_cons; [apply judges_one; rule_verdict|] ].

(** Two ways to write the verdict of rules that all give the same one. *)
Ltac same_verdict :=
  intros ?p; cbn beta; repeat (rewrite ?first_none, ?first_same; cbn beta); f_equal; cbn [existsb]; btauto.

(** ** What each part lets out *)

Section Output.
Context `{!Networks, !Host}.

Abbreviation lo := (lit "lo") (only parsing).

(** A DHCP client's request, IPv4 or IPv6. *)
Definition dhcp_request (p : Packet) : bool :=
  at_port Udp Src DHCPV4_CLIENT_PORT p && at_addr Dst BROADCAST p && at_port Udp Dst DHCPV4_SERVER_PORT p
  || existsb (fun server => in_net Src IPV6_LINK_LOCAL p && at_port Udp Src DHCPV6_CLIENT_PORT p && at_addr Dst server p
                            && at_port Udp Dst DHCPV6_SERVER_PORT p) DHCPV6_SERVER_ADDRS.

(** Router and neighbor solicitations, and neighbor advertisements on the link. *)
Definition ndp_out (p : Packet) : bool :=
  at_addr Dst ROUTER_SOLICITATION_OUT_DST_ADDR p && icmpv6 133 p
  || (in_net Dst SOLICITED_NODE_MULTICAST p || in_net Dst IPV6_LINK_LOCAL p) && icmpv6 135 p
  || in_net Dst IPV6_LINK_LOCAL p && icmpv6 136 p.

(** To a relay, from root or marked by the client. *)
Definition to_peer (mark : Z) (e : AllowedEndpoint) (p : Packet) : bool :=
  at_endpoint Dst (endpoint e) p && ((p_mark p =? mark) || from_uid ROOT_UID p).

(** To the API endpoint, from the clients it is open to. *)
Definition to_allowed (e : AllowedEndpoint) (p : Packet) : bool :=
  at_endpoint Dst (endpoint e) p && (allow_all (clients e) || from_uid ROOT_UID p).

(** DNS to a resolver in the tunnel, or to a local one outside it. *)
Definition to_tunnel_dns (iface : str) (server : IpAddr) (p : Packet) : bool :=
  on_iface Out iface p && dns p && at_addr Dst server p.
Definition to_local_dns (iface : str) (server : IpAddr) (p : Packet) : bool :=
  negb (on_iface Out iface p) && dns p && at_addr Dst server p.

(** Into the tailnet, on the interface of a coexisting Tailscale. *)
Definition to_tailnet (interfaces : gset str) (p : Packet) : bool :=
  existsb (fun name => on_iface Out name p) (elements interfaces) && (in_net Dst TAILNET_V4 p || in_net Dst TAILNET_V6 p).

(** To the local network, to a local multicast group, or a DHCP server's answer. *)
Definition to_lan (nets : list IpNetwork) (p : Packet) : bool :=
  in_nets Dst nets p || in_nets Dst ALLOWED_LAN_MULTICAST_NETS p
  || at_port Udp Src DHCPV4_SERVER_PORT p && at_port Udp Dst DHCPV4_CLIENT_PORT p.

Lemma check_ip_split e a k : check_l3proto a ++ check_addr e a ++ k = check_ip e a ++ k.
Proof. apply app_assoc. Qed.

Lemma out_loopback b :
  add_loopback_rules = Ok b -> judges (rules_on OutChain b) (fun p => verdict_if (on_iface Out lo p) Accept).
Proof.
  unfold add_loopback_rules, allow_interface_rule. intros Hb. simplify_bind. cbn.
  eapply judges_ext; [|judge_rules]. same_verdict.
Qed.


Lemma out_dhcp : judges (rules_on OutChain add_dhcp_client_rules) (fun p => verdict_if (dhcp_request p) Accept).
Proof. cbn. eapply judges_ext; [|judge_rules]. unfold dhcp_request, DHCPV6_SERVER_ADDRS. same_verdict. Qed.

Lemma out_ndp : judges (rules_on OutChain add_ndp_rules) (fun p => verdict_if (ndp_out p) Accept).
Proof. cbn. eapply judges_ext; [|judge_rules]. unfold ndp_out. same_verdict. Qed.

Lemma out_peers peers mark :
  judges (rules_on OutChain (e ← peers; add_allow_tunnel_endpoint_rules e mark))
    (fun p => verdict_if (existsb (fun e => to_peer mark e p) peers) Accept).
Proof.
  rewrite rules_on_bind. induction peers as [|e peers IH]; [apply judges_nil|]. cbn [mbind list_bind].
  eapply judges_same; [|exact IH|done]. unfold add_allow_tunnel_endpoint_rules. rewrite rules_on_app.
  destruct (allow_all (clients e)); cbn; eapply judges_ext; [|judge_rules| |judge_rules]; unfold to_peer; same_verdict.
Qed.

Lemma out_endpoint e :
  judges (rules_on OutChain (add_allow_endpoint_rules e)) (fun p => verdict_if (to_allowed e p) Accept).
Proof.
  unfold add_allow_endpoint_rules, root_only, to_allowed. destruct (allow_all (clients e)); cbn;
    (eapply judges_ext; [|judge_rules]); same_verdict.
Qed.

Lemma out_drop_dns : judges (rules_on OutChain add_drop_dns_rule) (fun p => if dns p then Some (refuse_dns p) else None).
Proof.
  cbn. eapply judges_ext; [|judge_rules]. intros p. unfold dns, refuse_dns, verdict_if. rewrite !andb_true_r.
  by destruct (at_port Udp Dst 53 p), (at_port Tcp Dst 53 p).
Qed.

Lemma out_tunnel_dns iface servers b :
  each servers (fun server =>
    u ← add_allow_tunnel_dns_rule iface Udp server; t ← add_allow_tunnel_dns_rule iface Tcp server; Ok (u ++ t)) = Ok b ->
  judges (rules_on OutChain b) (fun p => verdict_if (existsb (fun server => to_tunnel_dns iface server p) servers) Accept).
Proof.
  intros Hb. eapply judges_each; [exact Hb|]. intros server r _ Hr.
  unfold add_allow_tunnel_dns_rule, allow_tunnel_dns_rule in Hr. cbn [each] in Hr. simplify_bind. cbn.
  rewrite !check_ip_split. eapply judges_ext; [|judge_rules]. unfold to_tunnel_dns, dns. same_verdict.
Qed.

Lemma out_local_dns iface servers b :
  each servers (fun server =>
    u ← add_allow_local_dns_rule iface Udp server; t ← add_allow_local_dns_rule iface Tcp server; Ok (u ++ t)) = Ok b ->
  judges (rules_on OutChain b) (fun p => verdict_if (existsb (fun server => to_local_dns iface server p) servers) Accept).
Proof.
  intros Hb. eapply judges_each; [exact Hb|]. intros server r _ Hr.
  unfold add_allow_local_dns_rule in Hr. cbn [each] in Hr. simplify_bind. cbn.
  rewrite !check_ip_split. eapply judges_ext; [|judge_rules]. unfold to_local_dns, dns. same_verdict.
Qed.

Lemma out_tailnet interfaces b :
  add_allow_tailnet_rules interfaces = Ok b ->
  judges (rules_on OutChain b) (fun p => verdict_if (to_tailnet interfaces p) Accept).
Proof.
  unfold add_allow_tailnet_rules. intros Hb.
  eapply judges_ext; [|eapply (judges_each _ _ _ _ (fun pass p => match pass_direction pass with
    PassOut => on_iface Out (pass_interface pass) p && in_net Dst (pass_net pass) p | PassIn => false end) Accept); [exact Hb|]].
  - intros p. cbn beta. f_equal. apply eq_true_iff_eq. rewrite existsb_exists. unfold to_tailnet. rewrite andb_true_iff, existsb_exists. split.
    + intros ([i d n] & [Hi Hn]%list_elem_of_In%elem_of_passes & Hp). destruct d; [|done]. cbn in *.
      apply andb_true_iff in Hp as [Hp1 Hp2]. split.
      * exists i. split; [|done]. apply list_elem_of_In, elem_of_elements.
        rewrite elem_of_list_to_set, list_elem_of_filter, elem_of_btree_elems in Hi. apply Hi.
      * destruct Hn as [-> | ->]; rewrite Hp2; [done|by rewrite orb_true_r].
    + intros [(i & Hi%list_elem_of_In%elem_of_elements & Hp) Hn].
      assert (i ∈ (list_to_set (filter (fun name => is_Some (iface_index name)) (btree_elems interfaces)) : gset str)) as Hset.
      { rewrite elem_of_list_to_set, list_elem_of_filter, elem_of_btree_elems. split; [|done].
        unfold on_iface in Hp. apply bool_decide_eq_true in Hp. rewrite Hp. eauto. }
      apply orb_true_iff in Hn as [Hn|Hn];
        [exists (mkTailnetPass i PassOut TAILNET_V4)|exists (mkTailnetPass i PassOut TAILNET_V6)];
        (split; [apply list_elem_of_In, elem_of_passes; cbn; auto|cbn; by rewrite Hp, Hn]).
  - intros [i d n] r _ Hr. destruct d; cbn in Hr; simplify_bind; cbn; (eapply judges_ext; [|judge_rules]); same_verdict.
Qed.

Lemma out_tunnel iface b :
  add_allow_tunnel_rules iface = Ok b -> judges (rules_on OutChain b) (fun p => verdict_if (on_iface Out iface p) Accept).
Proof.
  unfold add_allow_tunnel_rules, allow_interface_rule. intros Hb. simplify_bind. cbn.
  eapply judges_ext; [|judge_rules]. same_verdict.
Qed.

Lemma out_in_tunnel iface e b :
  add_allow_in_tunnel_endpoint_rules iface e = Ok b ->
  judges (rules_on OutChain b) (fun p => verdict_if (on_iface Out iface p && at_endpoint Dst e p) Accept).
Proof.
  unfold add_allow_in_tunnel_endpoint_rules. intros Hb. cbn [each] in Hb. simplify_bind. cbn.
  eapply judges_ext; [|judge_rules]. unfold at_endpoint. same_verdict.
Qed.

Lemma out_probes tunnel : rules_on OutChain (add_block_cve_2019_14899 tunnel) = [].
Proof. by apply rules_on_other. Qed.

Lemma out_no_probes (lan : bool) tunnel : rules_on OutChain (if lan then add_block_cve_2019_14899 tunnel else []) = [].
Proof. destruct lan; [apply out_probes|done]. Qed.

Lemma out_lan nets : judges (rules_on OutChain (add_allow_lan_rules nets)) (fun p => verdict_if (to_lan nets p) Accept).
Proof.
  unfold add_allow_lan_rules. cbn [mbind list_bind app]. rewrite !rules_on_app, !rules_on_own, !rules_on_other by done.
  rewrite app_nil_l, !app_nil_r. cbn [rules_on].
  assert (forall l e, judges ((fun net => check_net e net ++ add_verdict Accept) <$> l) (fun p => verdict_if (in_nets e l p) Accept)) as Hn.
  { intros l e. apply judges_all. intros n _. eapply verdicts_ext; [|rule_verdict]. intros p. cbn beta. btauto. }
  eapply (judges_same _ _ _ _ _ (fun p => _)); [eapply judges_same; [apply Hn|apply Hn|done]| |].
  - cbn. eapply judges_ext; [|judge_rules]. intros p. cbn beta. reflexivity.
  - intros p. unfold to_lan. f_equal. btauto.
Qed.

(** ** The output chain of a policy *)

(** Some cgroup tells the excluded apps. *)
Definition excludes (fw : Firewall) : bool :=
  match (if feature_cgroup2 then excluded_cgroup2 fw else None), net_cls fw with None, None => false | _, _ => true end.

(** The verdict on an included app's packet. *)
Definition included_verdict (policy : FirewallPolicy) (p : Packet) : Verdict :=
  match connected_dns policy with
  | None => Reject IcmpPortUnreach
  | Some (_, d) =>
      if negb (allow_external_dns d) && dns p && negb (existsb (fun server => at_addr Dst server p) (allowed_tunnel_dns d))
      then Reject IcmpPortUnreach else Accept
  end.

(** What the apps' own rules say, included ones or excluded ones. *)
Definition apps_verdict (fw : Firewall) (policy : FirewallPolicy) (p : Packet) : option Verdict :=
  if firewall_include_only fw then
    (if ct_marked INCLUDE_CT_MARK p then Some (included_verdict policy p) else None)
  else verdict_if (excludes fw && ct_marked MARK p) Accept.

(** What a policy lets into its tunnel while connecting. *)
Definition tunnel_traffic (iface : str) (traffic : AllowedTunnelTraffic) (p : Packet) : bool :=
  on_iface Out iface p &&
  match traffic with
  | AttNone => false
  | AttAll => true
  | AttOne e => at_endpoint Dst e p
  | AttTwo e e' => at_endpoint Dst e p || at_endpoint Dst e' p
  end.

(** What the policy says: its relays and its endpoint, DNS, and its tunnel. *)
Definition policy_verdict (mark : Z) (policy : FirewallPolicy) (p : Packet) : option Verdict :=
  match policy with
  | FwConnecting peers tunnel _ _ allowed traffic =>
      if existsb (fun e => to_peer mark e p) peers || to_allowed allowed p || to_tailnet (tailnet_interfaces policy) p then Some Accept
      else if dns p then Some (refuse_dns p)
      else match tunnel with Some t => verdict_if (tunnel_traffic (interface t) traffic p) Accept | None => None end
  | FwConnected peers tunnel _ _ d =>
      if existsb (fun e => to_peer mark e p) peers
         || existsb (fun server => to_tunnel_dns (interface tunnel) server p) (allowed_tunnel_dns d)
         || existsb (fun server => to_local_dns (interface tunnel) server p) (non_tunnel_config d)
         || to_tailnet (tailnet_interfaces policy) p then Some Accept
      else if dns p && negb (allow_external_dns d) then Some (refuse_dns p)
      else verdict_if (on_iface Out (interface tunnel) p) Accept
  | FwBlocked _ _ allowed =>
      if match allowed with Some e => to_allowed e p | None => false end then Some Accept
      else if dns p then Some (refuse_dns p) else None
  end.

Definition output_verdict (fw : Firewall) (policy : FirewallPolicy) (p : Packet) : Verdict :=
  if on_iface Out lo p then Accept else
  match apps_verdict fw policy p with
  | Some v => v
  | None =>
      if dhcp_request p || ndp_out p then Accept else
      match policy_verdict (fwmark fw) policy p with
      | Some v => v
      | None =>
          if policy_allow_lan policy && to_lan (policy_lan_networks policy) p
             || firewall_include_only fw && ct_not_marked INCLUDE_CT_MARK p
          then Accept else Reject IcmpPortUnreach
      end
  end.

Lemma out_split policy fw b :
  add_split_tunneling_rules policy fw = Ok b ->
  judges (rules_on OutChain b) (fun p => verdict_if (excludes fw && ct_marked MARK p) Accept).
Proof.
  assert (Hactual : forall mark selector b, add_actual_split_tunneling_rules policy mark selector = Ok b ->
    judges (rules_on OutChain b) (fun p => verdict_if (ct_marked MARK p) Accept)).
  { intros mark selector b' Hb. unfold add_actual_split_tunneling_rules in Hb. simplify_bind. rewrite !rules_on_app.
    match goal with |- judges (rules_on _ ?dns ++ _ ++ _ ++ rules_on _ ?blocked ++ _ ++ rules_on _ ?replies) _ =>
      assert (rules_on OutChain dns = []) as ->; [|assert (rules_on OutChain blocked = []) as ->;
        [|assert (rules_on OutChain replies = []) as ->]] end.
    - destruct (connected_dns policy) as [[tunnel d]|]; [|by simplify_bind].
      eapply each_nothing; [done|]. intros server r _ Hr. by simplify_bind.
    - destruct (connected_dns policy) as [[tunnel d]|]; by simplify_bind.
    - destruct (connected_dns policy) as [[tunnel d]|]; by simplify_bind.
    - cbn. eapply judges_ext; [|judge_rules]. same_verdict. }
  unfold add_split_tunneling_rules, excludes. intros Hb.
  destruct (if feature_cgroup2 then excluded_cgroup2 fw else None); [|destruct (net_cls fw)];
    [by eapply Hactual in Hb..|]. simplify_bind. apply judges_nil.
Qed.

(** The include-only rules of the other chains. *)
Definition elsewhere (rule : IncludeRule) : Prop :=
  match rule with
  | RejectIncluded | AcceptIncludedDns _ | RejectIncludedOtherDns | AcceptIncluded
  | BlockTunnelAddressProbes _ | AcceptNotIncluded => False
  | _ => True
  end.

Lemma out_elsewhere (l : list IncludeRule) included b :
  each l (fun rule => add_include_only_rule rule included) = Ok b -> Forall elsewhere l -> rules_on OutChain b = [].
Proof.
  intros Hl Hf. eapply each_nothing; [exact Hl|]. rewrite Forall_forall in Hf. intros rule r Hr%Hf Hrule.
  destruct rule; try done; cbn in Hrule; simplify_bind; try done; destruct included; simplify_bind; done.
Qed.

Lemma out_included_dns (servers : list IpAddr) included b :
  each ((AcceptIncludedDns <$> servers) ++ [RejectIncludedOtherDns]) (fun rule => add_include_only_rule rule included) = Ok b ->
  judges (rules_on OutChain b) (fun p =>
    if ct_marked INCLUDE_CT_MARK p && dns p
    then Some (if existsb (fun server => at_addr Dst server p) servers then Accept else Reject IcmpPortUnreach) else None).
Proof.
  rewrite each_app. intros Hb. simplify_bind. rewrite rules_on_app.
  match goal with H : each (AcceptIncludedDns <$> _) _ = Ok ?x |- _ => rename H into Hservers; rename x into a end.
  assert (judges (rules_on OutChain a) (fun p =>
    verdict_if (existsb (fun server => ct_marked INCLUDE_CT_MARK p && dns p && at_addr Dst server p) servers) Accept)) as Ha.
  { revert a Hservers. induction servers as [|server servers IH]; intros a Ha; cbn [fmap list_fmap each] in Ha; simplify_bind; [apply judges_nil|].
    rewrite rules_on_app. eapply judges_same; [|by apply IH|]; [|intros p; cbn [existsb]; reflexivity].
    cbn [add_include_only_rule] in *. simplify_bind. cbn. eapply judges_ext; [|judge_rules]. unfold dns. same_verdict. }
  eapply judges_ext; [|apply judges_app; [exact Ha|cbn [each add_include_only_rule] in *; simplify_bind; cbn; judge_rules]].
  intros p. cbn beta. rewrite ?first_same, !andb_true_r.
  assert (Heq : existsb (fun server => ct_marked INCLUDE_CT_MARK p && dns p && at_addr Dst server p) servers =
    ct_marked INCLUDE_CT_MARK p && dns p && existsb (fun server => at_addr Dst server p) servers).
  { clear. induction servers as [|server servers IH]; cbn [existsb]; [by rewrite andb_false_r|]. rewrite IH. btauto. }
  rewrite Heq. unfold dns. clear. by destruct (ct_marked _ p), (at_port Udp Dst 53 p), (at_port Tcp Dst 53 p), (existsb _ servers).
Qed.

Lemma out_head policy included b :
  each (include_only_head policy) (fun rule => add_include_only_rule rule included) = Ok b ->
  judges (rules_on OutChain b) (fun p => if ct_marked INCLUDE_CT_MARK p then Some (included_verdict policy p) else None).
Proof.
  unfold include_only_head, included_verdict. rewrite each_app. intros (marks & Hmarks & (r & Hr & [= <-])%bind_ok)%bind_ok.
  rewrite each_app in Hr. apply bind_ok in Hr as (sockets & Hsockets & (r' & Hr & [= <-])%bind_ok).
  rewrite each_app in Hr. apply bind_ok in Hr as (verdicts & Hverdicts & (r & Hr & [= <-])%bind_ok).
  rewrite each_app in Hr. apply bind_ok in Hr as (drops & Hdrops & (replies & Hreplies & [= <-])%bind_ok).
  apply out_elsewhere in Hmarks; [|destruct (connected_dns policy) as [[]|]; [apply Forall_fmap, Forall_forall; by intros|done]].
  apply out_elsewhere in Hsockets; [|by repeat constructor]. apply out_elsewhere in Hdrops; [|by repeat constructor].
  apply out_elsewhere in Hreplies; [|by destruct (connected_dns policy); repeat constructor].
  rewrite !rules_on_app, Hmarks, Hsockets, Hdrops, Hreplies, !app_nil_r. cbn [app].
  destruct (connected_dns policy) as [[tunnel d]|].
  - rewrite each_app in Hverdicts. apply bind_ok in Hverdicts as (about & Habout & (rest & Hrest & [= <-])%bind_ok).
    cbn [each add_include_only_rule] in Hrest. simplify_bind. rewrite rules_on_app. destruct (allow_external_dns d); cbn [negb] in *.
    + cbn [each] in Habout. simplify_bind. cbn. eapply judges_ext; [|judge_rules]. intros p. cbn beta. rewrite andb_true_r. by destruct (ct_marked _ p).
    + eapply judges_ext; [|apply judges_app; [by eapply out_included_dns|cbn; judge_rules]].
      intros p. cbn beta. rewrite andb_true_r. by destruct (ct_marked _ p), (dns p), (existsb _ _).
  - cbn [each add_include_only_rule] in Hverdicts. simplify_bind. cbn. eapply judges_ext; [|judge_rules].
    intros p. cbn beta. rewrite andb_true_r. by destruct (ct_marked _ p).
Qed.

Lemma out_tail policy b :
  each (include_only_tail policy) (fun rule => add_include_only_rule rule None) = Ok b ->
  judges (rules_on OutChain b) (fun p => verdict_if (ct_not_marked INCLUDE_CT_MARK p) Accept).
Proof.
  unfold include_only_tail. intros Hb.
  destruct (policy_tunnel policy) as [tunnel|]; cbn [each app] in Hb; simplify_bind; cbn [add_include_only_rule] in *; simplify_bind;
    rewrite ?rules_on_app, ?out_probes; cbn; (eapply judges_ext; [|judge_rules]); same_verdict.
Qed.

Lemma out_policy mark policy b :
  policy_rules policy mark = Ok b -> judges (rules_on OutChain b) (policy_verdict mark policy).
Proof.
  destruct policy as [peers tunnel lan nets allowed traffic|peers tunnel lan nets d|lan nets allowed]; cbn [policy_rules]; intros Hb.
  - simplify_bind. rewrite !rules_on_app.
    assert (judges (rules_on OutChain x0) (fun p =>
      match tunnel with Some t => verdict_if (tunnel_traffic (interface t) traffic p) Accept | None => None end)) as Ht.
    { destruct tunnel as [tunnel|]; [|simplify_bind; apply judges_nil]. simplify_bind. rewrite rules_on_app.
      rewrite out_no_probes, app_nil_r. destruct traffic; simplify_bind.
      - eapply judges_ext; [|apply judges_nil]. intros p. unfold tunnel_traffic. by rewrite andb_false_r.
      - eapply judges_ext; [|by eapply out_tunnel]. intros p. unfold tunnel_traffic. by rewrite andb_true_r.
      - by eapply out_in_tunnel.
      - rewrite rules_on_app. eapply judges_same; [by eapply out_in_tunnel..|]. intros p. unfold tunnel_traffic. f_equal. btauto. }
    eapply judges_ext; [|apply judges_app; [apply out_peers|apply judges_app; [apply out_endpoint|apply judges_app;
      [by eapply out_tailnet|apply judges_app; [apply out_drop_dns|exact Ht]]]]].
    intros p. cbn beta. unfold policy_verdict, first_of, verdict_if. by repeat case_match; destruct_or?; simplify_eq.
  - simplify_bind. rewrite !rules_on_app, out_no_probes, app_nil_r.
    assert (judges (rules_on OutChain (if negb (allow_external_dns d) then add_drop_dns_rule else []))
      (fun p => if dns p && negb (allow_external_dns d) then Some (refuse_dns p) else None)) as Hd.
    { destruct (allow_external_dns d); cbn [negb]; [eapply judges_ext; [|apply judges_nil]|eapply judges_ext; [|apply out_drop_dns]];
        intros p; by rewrite ?andb_true_r, ?andb_false_r. }
    eapply judges_ext; [|apply judges_app; [apply out_peers|apply judges_app; [by eapply out_tunnel_dns|apply judges_app;
      [by eapply out_local_dns|apply judges_app; [by eapply out_tailnet|apply judges_app; [exact Hd|by eapply out_tunnel]]]]]].
    intros p. cbn beta. unfold policy_verdict, first_of, verdict_if. by repeat case_match; destruct_or?; simplify_eq.
  - simplify_bind. rewrite !rules_on_app. destruct allowed as [e|].
    + eapply judges_ext; [|apply judges_app; [apply out_endpoint|apply out_drop_dns]].
      intros p. unfold policy_verdict, first_of, verdict_if. by repeat case_match.
    + eapply judges_ext; [|apply judges_app; [apply judges_nil|apply out_drop_dns]]. done.
Qed.

(** The output chain of a policy, part by part. *)
Lemma out_chain (policy : FirewallPolicy) (fw : Firewall) b :
  finalize policy fw = Ok b -> judges (rules_on OutChain b) (fun p => Some (output_verdict fw policy p)).
Proof.
  unfold finalize, add_policy_specific_rules. intros Hb. simplify_bind. rewrite !rules_on_app.
  assert (judges (rules_on OutChain x0) (apps_verdict fw policy)) as Ha.
  { unfold apps_verdict. destruct (firewall_include_only fw); [by eapply out_head|by eapply out_split]. }
  assert (judges (rules_on OutChain (if policy_allow_lan policy then add_allow_lan_rules (policy_lan_networks policy) else []))
    (fun p => verdict_if (policy_allow_lan policy && to_lan (policy_lan_networks policy) p) Accept)) as Hl.
  { destruct (policy_allow_lan policy); [apply out_lan|apply judges_nil]. }
  assert (judges (rules_on OutChain x3) (fun p => verdict_if (firewall_include_only fw && ct_not_marked INCLUDE_CT_MARK p) Accept)) as Ht.
  { destruct (firewall_include_only fw); [|simplify_bind; apply judges_nil]. by eapply out_tail. }
  eapply judges_ext; [|apply judges_app; [by eapply out_loopback|apply judges_app; [exact Ha|apply judges_app;
    [apply out_dhcp|apply judges_app; [apply out_ndp|apply judges_app; [by eapply out_policy|apply judges_app;
      [exact Hl|apply judges_app; [exact Ht|cbn; apply judges_one; rule_verdict]]]]]]]].
  intros p. cbn beta. unfold output_verdict, first_of, verdict_if. by repeat case_match; destruct_or?; simplify_eq.
Qed.

(** C9: The output chain of a policy gives every packet the verdict of [output_verdict]. *)
Theorem output_filtered (policy : FirewallPolicy) (fw : Firewall) b :
  finalize policy fw = Ok b -> judges (rules_on OutChain b) (fun p => Some (output_verdict fw policy p)).
Proof. apply out_chain. Qed.
End Output.
