(* ===== verification/FirewallPath.v ===== *)
(** * The path of a packet through the firewall

    A packet a local program sends goes through the mangle chain, the output
    chain, routing again when its mark changed, and the postrouting chain.  Who
    gets out, in both split modes, and what a locked program reaches. *)

From S2P Require Import Prelude BTree Net Networks Lan Tunnel Tailnet Nft Firewall FirewallSpec.
From Stdlib Require Import Btauto.
Open Scope Z_scope.

(** A packet at a chain: the chain's rules, then its policy. *)
Definition at_chain (b : list (Chain * Rule)) (c : Chain) (p : Packet) : Verdict * Packet :=
  let '(v, p) := run_rules (rules_on c b) p in (default (chain_policy c) v, p).

(** A packet sent by a program of the host, routed by [route] when it is marked anew: what leaves, on
    which interface.  The nat chain comes after and sees the first packet of a connection only. *)
Definition sent (b : list (Chain * Rule)) (route : Packet -> Z) (p : Packet) : option Packet :=
  let '(v, p1) := at_chain b MangleChain p in
  if negb (bool_decide (v = Accept)) then None else
  let '(v, p2) := at_chain b OutChain p1 in
  if negb (bool_decide (v = Accept)) then None else
  let p3 := if p_mark p2 =? p_mark p then p2 else with_oif p2 (route p2) in
  let '(v, p4) := at_chain b PostroutingChain p3 in
  if negb (bool_decide (v = Accept)) then None else Some p4.

(** The packet that opens a connection: the nat chain sees it last. *)
Definition opened (b : list (Chain * Rule)) (route : Packet -> Z) (p : Packet) : option Packet :=
  p ← sent b route p; let '(v, p) := at_chain b NatChain p in if bool_decide (v = Accept) then Some p else None.

Section Path.
Context `{!Networks, !Host}.

(** ** Rules that mark *)

(** [rule] goes on with the packet [f] makes of it. *)
Definition marks (rule : Rule) (f : Packet -> Packet) : Prop := forall p r, run_rule rule p r = (None, f p).

(** [with_marks ct m]: the connection and the packet are marked. *)
Definition with_marks (ct m : Z) (p : Packet) : Packet :=
  with_mark (match p_ct_mark p with Some _ => with_ct_mark p (Some ct) | None => p end) m.

Lemma marks_guarded es c rule f : guards es c -> marks rule f -> marks (es ++ rule) (fun p => if c p then f p else p).
Proof. intros Hg Hm p r. destruct (Hg p r rule) as [r' ->]. destruct (c p); [apply Hm|done]. Qed.

Lemma marks_set_mark m : marks (set_mark m) (fun p => with_mark p m).
Proof. done. Qed.

Lemma marks_counter : marks counter id.
Proof. intros p r. unfold counter. by destruct ADD_COUNTERS. Qed.

Lemma marks_both ct m rule : marks rule id -> marks (set_ct_mark ct ++ set_mark m ++ rule) (with_marks ct m).
Proof. intros Hm p r. unfold set_ct_mark, set_mark. cbn. by rewrite Hm. Qed.

Lemma marks_rules rule rules f p : marks rule f -> run_rules (rule :: rules) p = run_rules rules (f p).
Proof. intros Hm. cbn [run_rules]. by rewrite Hm. Qed.

(** ** What other chains of a policy hold *)

(** The chains the parts common to every policy leave alone. *)
Definition rerouting (c : Chain) : Prop := c = MangleChain \/ c = PostroutingChain \/ c = NatChain.

Lemma plain_parts c : rerouting c ->
  rules_on c add_dhcp_client_rules = [] /\ rules_on c add_ndp_rules = [] /\ rules_on c add_drop_dns_rule = [] /\
  (forall e, rules_on c (add_allow_endpoint_rules e) = []) /\ (forall t, rules_on c (add_block_cve_2019_14899 t) = []) /\
  (forall nets, rules_on c (add_allow_lan_rules nets) = []).
Proof.
  intros [-> | [-> | ->]]; (split_and!; try done; [intros; by apply rules_on_other|]);
    intros nets; unfold add_allow_lan_rules; cbn [mbind list_bind app]; by rewrite !rules_on_app, !rules_on_other.
Qed.

(** Relays no program but the client's own may reach. *)
Definition root_relays (policy : FirewallPolicy) : Prop :=
  match policy with
  | FwConnecting peers _ _ _ _ _ | FwConnected peers _ _ _ _ => Forall (fun e => allow_all (clients e) = false) peers
  | FwBlocked _ _ _ => True
  end.

Lemma peers_elsewhere c peers mark : rerouting c -> Forall (fun e => allow_all (clients e) = false) peers ->
  rules_on c (e ← peers; add_allow_tunnel_endpoint_rules e mark) = [].
Proof.
  intros Hc Hp. rewrite rules_on_bind. induction Hp as [|e peers He _ IH]; [done|]. cbn [mbind list_bind].
  unfold add_allow_tunnel_endpoint_rules at 1. rewrite He, IH. by destruct Hc as [-> | [-> | ->]].
Qed.
Lemma tailnet_elsewhere c interfaces b : rerouting c -> add_allow_tailnet_rules interfaces = Ok b -> rules_on c b = [].
Proof.
  intros Hc Hb. eapply each_nothing; [exact Hb|]. intros [i d n] r _ Hr. destruct d; cbn in Hr; simplify_bind; by destruct Hc as [-> | [-> | ->]].
Qed.

Lemma dns_elsewhere c iface servers b : rerouting c ->
  each servers (fun server =>
    u ← add_allow_tunnel_dns_rule iface Udp server; t ← add_allow_tunnel_dns_rule iface Tcp server; Ok (u ++ t)) = Ok b \/
  each servers (fun server =>
    u ← add_allow_local_dns_rule iface Udp server; t ← add_allow_local_dns_rule iface Tcp server; Ok (u ++ t)) = Ok b ->
  rules_on c b = [].
Proof.
  intros Hc [Hb|Hb]; (eapply each_nothing; [exact Hb|]); intros server r _ Hr;
    unfold add_allow_tunnel_dns_rule, add_allow_local_dns_rule in Hr; cbn [each] in Hr; simplify_bind; by destruct Hc as [-> | [-> | ->]].
Qed.

Lemma tunnel_elsewhere c iface b : rerouting c -> add_allow_tunnel_rules iface = Ok b -> rules_on c b = [].
Proof. unfold add_allow_tunnel_rules. intros Hc Hb. simplify_bind. by destruct Hc as [-> | [-> | ->]]. Qed.

Lemma in_tunnel_elsewhere c iface e b : rerouting c -> add_allow_in_tunnel_endpoint_rules iface e = Ok b -> rules_on c b = [].
Proof.
  unfold add_allow_in_tunnel_endpoint_rules. intros Hc Hb. cbn [each] in Hb. simplify_bind. by destruct Hc as [-> | [-> | ->]].
Qed.

(** Each part of a policy's rules that was built, away from a chain it leaves alone. *)
Ltac elsewhere c :=
  repeat match goal with
  | H : add_allow_tailnet_rules _ = Ok ?x |- context [rules_on c ?x] => erewrite (tailnet_elsewhere c _ x) by eassumption
  | H : add_allow_tunnel_rules _ = Ok ?x |- context [rules_on c ?x] => erewrite (tunnel_elsewhere c _ x) by eassumption
  | H : add_allow_in_tunnel_endpoint_rules _ _ = Ok ?x |- context [rules_on c ?x] =>
      erewrite (in_tunnel_elsewhere c _ _ x) by eassumption
  | H : each _ _ = Ok ?x |- context [rules_on c ?x] => erewrite (dns_elsewhere c _ _ x) by eauto
  end.

Lemma policy_elsewhere c policy mark b :
  rerouting c -> root_relays policy -> policy_rules policy mark = Ok b -> rules_on c b = [].
Proof.
  intros Hc Hroot Hb. destruct (plain_parts c Hc) as (_ & _ & Hdns & Hend & Hprobes & _).
  destruct policy as [peers tunnel lan nets allowed traffic|peers tunnel lan nets d|lan nets allowed]; cbn [policy_rules] in Hb;
    simplify_bind; rewrite !rules_on_app, ?Hdns, ?Hend, ?(peers_elsewhere c) by done; elsewhere c.
  - cbn [app]. destruct tunnel as [tunnel|]; simplify_bind; [|done]. rewrite rules_on_app.
    destruct traffic; simplify_bind; rewrite ?rules_on_app; elsewhere c; destruct lan; by rewrite ?Hprobes.
  - destruct (allow_external_dns d), lan; cbn [negb]; by rewrite ?Hdns, ?Hprobes.
  - destruct allowed; [by rewrite Hend|done].
Qed.

(** ** Include-only *)

(** The included apps' marks: the tunnel's resolvers and the included sockets, then the packets of
    connections marked before. *)
Definition include_marked (fw : Firewall) (policy : FirewallPolicy) (p : Packet) : Packet :=
  let resolver := match connected_dns policy with
                  | Some (_, d) => existsb (fun server => at_addr Dst server p) (allowed_tunnel_dns d)
                  | None => false
                  end in
  let included := match included_cgroup2 fw with Some cgroup => in_cgroup 1 cgroup p | None => false end in
  let p := if resolver || included then with_marks INCLUDE_CT_MARK INCLUDE_FWMARK p else p in
  if ct_marked INCLUDE_CT_MARK p then with_mark p INCLUDE_FWMARK else p.

Lemma marks_include rule : rule = set_include_marks -> marks rule (with_marks INCLUDE_CT_MARK INCLUDE_FWMARK).
Proof. intros ->. apply marks_both, marks_counter. Qed.

Lemma with_marks_twice ct m p : with_marks ct m (with_marks ct m p) = with_marks ct m p.
Proof. unfold with_marks. cbn. by destruct (p_ct_mark p) eqn:Hp; cbn; rewrite ?Hp. Qed.

(** The tests of the mangle chain do not see its marks. *)
Lemma at_addr_marks e a ct m p : at_addr e a (with_marks ct m p) = at_addr e a p.
Proof. unfold at_addr, with_marks. by destruct e, (p_ct_mark p). Qed.
Lemma in_cgroup_marks level cgroup ct m p : in_cgroup level cgroup (with_marks ct m p) = in_cgroup level cgroup p.
Proof. unfold in_cgroup, with_marks. by destruct (p_ct_mark p). Qed.

(** Rules that mark what they match alike. *)
Lemma run_marking {A : Type} (l : list A) (rule : A -> Rule) (c : A -> Packet -> bool) ct m rules p :
  (forall x, marks (rule x) (fun p => if c x p then with_marks ct m p else p)) ->
  (forall x p, c x (with_marks ct m p) = c x p) ->
  run_rules ((rule <$> l) ++ rules) p
  = run_rules rules (if existsb (fun x => c x p) l then with_marks ct m p else p).
Proof.
  intros Hm Hc. revert p. induction l as [|x l IH]; intros p; [done|]. cbn [fmap list_fmap app existsb].
  rewrite (marks_rules _ _ _ _ (Hm x)), IH. destruct (c x p) eqn:Hx; cbn [orb]; [|done].
  rewrite with_marks_twice. by destruct (existsb _ l).
Qed.

Lemma loopback_elsewhere c b : rerouting c -> add_loopback_rules = Ok b -> rules_on c b = [].
Proof. unfold add_loopback_rules. intros Hc Hb. simplify_bind. by destruct Hc as [-> | [-> | ->]]. Qed.

Lemma specific_elsewhere c policy mark include_only b :
  rerouting c -> root_relays policy -> add_policy_specific_rules policy mark include_only = Ok b -> rules_on c b = [].
Proof.
  intros Hc Hroot Hb. unfold add_policy_specific_rules in Hb. simplify_bind.
  destruct (plain_parts c Hc) as (_ & _ & _ & _ & Hprobes & Hlan). rewrite !rules_on_app.
  erewrite policy_elsewhere by eassumption.
  replace (rules_on c (if policy_allow_lan policy then _ else _)) with (@nil Rule) by (by destruct (policy_allow_lan policy); rewrite ?Hlan).
  match goal with H : _ = Ok ?x |- context [rules_on c ?x] => assert (rules_on c x = []) as -> end.
  - destruct include_only; [|by simplify_bind]. unfold include_only_tail in *.
    destruct (policy_tunnel policy) as [t|]; cbn [each app] in *; simplify_bind; cbn [add_include_only_rule] in *; simplify_bind;
      rewrite ?rules_on_app, ?Hprobes; by destruct Hc as [-> | [-> | ->]].
  - by destruct Hc as [-> | [-> | ->]].
Qed.

(** What a batch holds on a chain only the apps' rules use. *)
Lemma finalize_apps c policy fw b :
  rerouting c -> root_relays policy -> finalize policy fw = Ok b ->
  exists apps,
    (if firewall_include_only fw
     then each (include_only_head policy) (fun rule => add_include_only_rule rule (included_cgroup2 fw))
     else add_split_tunneling_rules policy fw) = Ok apps /\
    rules_on c b = rules_on c apps.
Proof.
  intros Hc Hroot Hb. unfold finalize in Hb. simplify_bind.
  destruct (plain_parts c Hc) as (Hdhcp & Hndp & _). eexists. split; [eassumption|].
  rewrite !rules_on_app, Hdhcp, Hndp.
  match goal with Hl : add_loopback_rules = Ok ?l, Hs : add_policy_specific_rules _ _ _ = Ok ?r |- _ =>
    rewrite (loopback_elsewhere c l Hc Hl), (specific_elsewhere c _ _ _ r Hc Hroot Hs) end.
  by rewrite !app_nil_r.
Qed.

(** A loop's rules on a chain are those of its rounds. *)
Definition round_on (c : Chain) (m : comp FwError (list (Chain * Rule))) : list Rule :=
  match m with Ok b => rules_on c b | _ => [] end.

Lemma each_on {A : Type} c (l : list A) f b : each l f = Ok b -> rules_on c b = x ← l; round_on c (f x).
Proof.
  revert b. induction l as [|x l IH]; intros b Hb; cbn [each] in Hb; [by simplify_bind|]. simplify_bind.
  rewrite rules_on_app. cbn [mbind list_bind]. f_equal; [|by apply IH].
  match goal with H : f x = _ |- _ => by rewrite H end.
Qed.

Lemma bind_none {A : Type} (l : list A) (f : A -> list Rule) : (forall x, f x = []) -> l ≫= f = [].
Proof. intros Hf. induction l as [|x l IH]; [done|]. cbn [mbind list_bind]. by rewrite Hf. Qed.

Lemma bind_one {A : Type} (l : list A) (f : A -> list Rule) g : (forall x, f x = [g x]) -> l ≫= f = g <$> l.
Proof. intros Hf. induction l as [|x l IH]; [done|]. cbn [mbind list_bind fmap list_fmap]. rewrite Hf. cbn. by f_equal. Qed.

Lemma bind_fmap {A B : Type} (l : list A) (h : A -> B) (f : B -> list Rule) : (h <$> l) ≫= f = l ≫= (f ∘ h).
Proof. induction l as [|x l IH]; [done|]. cbn [mbind list_bind fmap list_fmap]. by f_equal. Qed.

(** The include-only rules on the mangle chain and on the postrouting chain. *)
Definition mangling (included : option Z) (rule : IncludeRule) : list Rule :=
  match rule with
  | TunnelDnsAsIncluded server => [check_ip Dst server ++ set_include_marks]
  | MarkIncludedSockets =>
      match included with Some cgroup => [check_cgroup2 1 cgroup ++ set_include_marks] | None => [] end
  | RemarkIncludedConnections => [check_ct_included ++ set_mark INCLUDE_FWMARK]
  | _ => []
  end.

Ltac rounds :=
  repeat match goal with |- match ?m ≫= _ with _ => _ end = _ => destruct m; [rewrite bind_Ok|done|done] end; try done.

Lemma on_mangle included rule : round_on MangleChain (add_include_only_rule rule included) = mangling included rule.
Proof.
  destruct rule; cbn; try done; try (by destruct included); try (by apply rules_on_other); unfold round_on; rounds.
  destruct included; [rounds|done].
Qed.

Lemma on_postrouting included rule :
  match rule with DropIncludedOffTunnel _ => True | _ => round_on PostroutingChain (add_include_only_rule rule included) = [] end.
Proof.
  destruct rule; cbn; try done; try (by destruct included); try (by apply rules_on_other); unfold round_on; rounds.
  destruct included; [rounds|done].
Qed.

Lemma include_mangle included policy b :
  each (include_only_head policy) (fun rule => add_include_only_rule rule included) = Ok b ->
  rules_on MangleChain b =
    ((fun server => check_ip Dst server ++ set_include_marks) <$>
       match connected_dns policy with Some (_, d) => allowed_tunnel_dns d | None => [] end)
    ++ ((fun cgroup => check_cgroup2 1 cgroup ++ set_include_marks) <$> option_list included)
    ++ [check_ct_included ++ set_mark INCLUDE_FWMARK].
Proof.
  intros Hb%(each_on MangleChain). rewrite Hb, (list_bind_ext _ (mangling included) _ _ (on_mangle included) eq_refl).
  unfold include_only_head. rewrite !bind_app. f_equal.
  - destruct (connected_dns policy) as [[t d]|]; [|done]. rewrite bind_fmap.
    by apply (bind_one _ _ (fun server => check_ip Dst server ++ set_include_marks)).
  - assert (forall servers, (AcceptIncludedDns <$> servers) ≫= mangling included = []) as Hdns.
    { intros servers. rewrite bind_fmap. by apply bind_none. }
    destruct (connected_dns policy) as [[t d]|]; cbn [fmap option_fmap option_map fst];
      [destruct (allow_external_dns d); cbn [negb]; rewrite ?bind_app, ?Hdns|]; by destruct included.
Qed.

Definition off_postrouting (rule : IncludeRule) : Prop := match rule with DropIncludedOffTunnel _ => False | _ => True end.

Lemma silent_postrouting included l b :
  each l (fun rule => add_include_only_rule rule included) = Ok b -> Forall off_postrouting l -> rules_on PostroutingChain b = [].
Proof.
  intros Hb Hl. eapply each_nothing; [exact Hb|]. rewrite Forall_forall in Hl. intros rule r Hin%Hl Hr.
  pose proof (on_postrouting included rule) as Hp. rewrite Hr in Hp. by destruct rule.
Qed.

Lemma include_postrouting included policy b :
  each (include_only_head policy) (fun rule => add_include_only_rule rule included) = Ok b ->
  judges (rules_on PostroutingChain b) (fun p => verdict_if
    (negb (on_iface Out (lit "lo") p) && match connected_dns policy with Some (t, _) => negb (on_iface Out t p) | None => true end
     && ct_marked INCLUDE_CT_MARK p) Drop).
Proof.
  unfold include_only_head. rewrite !each_app. intros Hb. simplify_bind. rewrite !rules_on_app.
  assert (forall servers, Forall off_postrouting (TunnelDnsAsIncluded <$> servers) /\
    Forall off_postrouting (AcceptIncludedDns <$> servers)) as Hdns.
  { intros servers. split; apply Forall_fmap, Forall_forall; by intros. }
  repeat match goal with H : each _ _ = Ok ?x |- context [rules_on PostroutingChain ?x] =>
    rewrite (silent_postrouting _ _ x H) by
      (destruct (connected_dns policy) as [[t d]|]; try destruct (negb _); rewrite ?Forall_app; naive_solver (repeat constructor))
  end.
  cbn [each add_include_only_rule] in *. simplify_bind. destruct included; simplify_bind; cbn; unfold off_tunnel in *;
    destruct (connected_dns policy) as [[t d]|]; cbn [fmap option_fmap option_map fst] in *; simplify_bind;
    (eapply judges_ext; [|judge_rules]); same_verdict.
Qed.

(** What the mangle chain makes of a packet. *)
Lemma include_mangled policy fw b p :
  firewall_include_only fw = true -> root_relays policy -> finalize policy fw = Ok b ->
  at_chain b MangleChain p = (Accept, include_marked fw policy p).
Proof.
  intros Hio Hroot Hb. destruct (finalize_apps MangleChain _ _ _ (or_introl eq_refl) Hroot Hb) as (apps & Happs & Hon).
  rewrite Hio in Happs. unfold at_chain. rewrite Hon, (include_mangle _ _ _ Happs).
  assert (Hincl : forall es c, guards es c ->
    marks (es ++ set_include_marks) (fun p => if c p then with_marks INCLUDE_CT_MARK INCLUDE_FWMARK p else p)).
  { intros es c Hg. apply marks_guarded; [done|]. by apply marks_include. }
  rewrite (run_marking _ _ (fun server => at_addr Dst server) INCLUDE_CT_MARK INCLUDE_FWMARK), 
    (run_marking _ _ (fun cgroup => in_cgroup 1 cgroup) INCLUDE_CT_MARK INCLUDE_FWMARK);
    [|intros; apply Hincl, guards_cgroup|intros; apply in_cgroup_marks|intros; apply Hincl, guards_ip|intros; apply at_addr_marks].
  rewrite (marks_rules _ _ _ _ (marks_guarded _ _ _ _ guards_included (marks_set_mark INCLUDE_FWMARK))). cbn [run_rules].
  unfold include_marked. cbn [default chain_policy]. f_equal.
  assert (forall (r : bool), (if existsb (fun cgroup => in_cgroup 1 cgroup (if r then with_marks INCLUDE_CT_MARK INCLUDE_FWMARK p else p))
      (option_list (included_cgroup2 fw))
    then with_marks INCLUDE_CT_MARK INCLUDE_FWMARK (if r then with_marks INCLUDE_CT_MARK INCLUDE_FWMARK p else p)
    else if r then with_marks INCLUDE_CT_MARK INCLUDE_FWMARK p else p)
    = if r || match included_cgroup2 fw with Some cgroup => in_cgroup 1 cgroup p | None => false end
      then with_marks INCLUDE_CT_MARK INCLUDE_FWMARK p else p) as Hone.
  { intros r. destruct (included_cgroup2 fw) as [cgroup|]; [change (option_list (Some cgroup)) with [cgroup]|by destruct r].
    destruct r; cbn [existsb]; rewrite ?in_cgroup_marks, ?with_marks_twice; by destruct (in_cgroup 1 cgroup p). }
  rewrite Hone. by destruct (connected_dns policy) as [[t d]|].
Qed.

(** An app of the included group, its connections tracked: marked. *)
Lemma include_marked_app fw policy p cgroup :
  included_cgroup2 fw = Some cgroup -> p_cgroupv2 p 1 = Some cgroup -> is_Some (p_ct_mark p) ->
  include_marked fw policy p = with_mark (with_ct_mark p (Some INCLUDE_CT_MARK)) INCLUDE_FWMARK.
Proof.
  intros Hf Hp [m Hm]. unfold include_marked. rewrite Hf.
  assert (in_cgroup 1 cgroup p = true) as -> by (by apply bool_decide_eq_true_2). rewrite orb_true_r.
  unfold with_marks. rewrite Hm. unfold ct_marked. cbn. by rewrite bool_decide_true.
Qed.

Lemma judges_at_chain b c f p : judges (rules_on c b) f -> at_chain b c p = (default (chain_policy c) (f p), p).
Proof. intros Hf. unfold at_chain. by rewrite Hf. Qed.

(** Include-only: what an included app sends and the client lets out leaves on the loopback or in the
    tunnel that is up, marked for it. *)
Lemma included_sent policy fw b route p p' cgroup :
  firewall_include_only fw = true -> included_cgroup2 fw = Some cgroup -> root_relays policy ->
  finalize policy fw = Ok b ->
  p_cgroupv2 p 1 = Some cgroup -> is_Some (p_ct_mark p) -> sent b route p = Some p' ->
  p_mark p' = INCLUDE_FWMARK /\ p_ct_mark p' = Some INCLUDE_CT_MARK /\ p_network p' = p_network p /\
  (on_iface Out (lit "lo") p' = true \/
   exists tunnel d, connected_dns policy = Some (tunnel, d) /\ on_iface Out tunnel p' = true).
Proof.
  intros Hio Hcg Hroot Hb Happ Hct. unfold sent. rewrite (include_mangled _ _ _ _ Hio Hroot Hb).
  rewrite (include_marked_app _ _ _ _ Hcg Happ Hct). rewrite bool_decide_eq_true_2 by done. cbn [negb].
  rewrite (judges_at_chain _ _ _ _ (out_chain _ _ _ Hb)). cbn [default].
  destruct (bool_decide _); cbn [negb]; [|done].
  destruct (finalize_apps PostroutingChain _ _ _ (or_intror (or_introl eq_refl)) Hroot Hb) as (apps & Happs & Hon).
  rewrite Hio in Happs. unfold at_chain. rewrite Hon, (include_postrouting _ _ _ Happs). 
  set (q := if _ =? _ then _ else _).
  assert (p_mark q = INCLUDE_FWMARK /\ p_ct_mark q = Some INCLUDE_CT_MARK /\ p_network q = p_network p) as (Hm & Hq & Hn)
    by (unfold q; by destruct (_ =? _)).
  assert (ct_marked INCLUDE_CT_MARK q = true) as -> by (by apply bool_decide_eq_true_2). rewrite andb_true_r.
  destruct (on_iface Out (lit "lo") q) eqn:Hlo; cbn [negb andb verdict_if].
  - intros [= <-]. auto.
  - destruct (connected_dns policy) as [[t d]|]; cbn [verdict_if]; [|done]. destruct (on_iface Out t q) eqn:Ht; cbn; [|done].
    intros [= <-]. eauto 10.
Qed.

(** ** Exclusion *)

(** The packets of the excluded apps, as the mangle chain tells them. *)
Definition selected (fw : Firewall) (p : Packet) : bool :=
  match (if feature_cgroup2 then excluded_cgroup2 fw else None), net_cls fw with
  | Some cgroup, _ => in_cgroup 1 cgroup p
  | None, Some c => bool_decide (p_cgroup p = Some c)
  | None, None => false
  end.

(** To a resolver in the tunnel that is up. *)
Definition connected_resolver (policy : FirewallPolicy) (p : Packet) : bool :=
  match connected_dns policy with
  | Some (tunnel, d) => existsb (fun server => to_tunnel_dns tunnel server p) (allowed_tunnel_dns d)
  | None => false
  end.

Lemma guards_net_cls c : guards (check_net_cls c) (fun p => bool_decide (p_cgroup p = Some c)).
Proof. by apply guards_optional. Qed.

(** The nat chain's decision on a packet of an excluded connection. *)
Definition split_nat (policy : FirewallPolicy) (p : Packet) : Verdict * Packet :=
  if negb (ct_marked MARK p) then (Accept, p)
  else if match connected_dns policy with Some (tunnel, _) => on_iface Out tunnel p | None => false end then (Drop, p)
  else (Accept, if on_iface Out (lit "lo") p then p else masqueraded p).

Lemma resolvers_judged policy b :
  (match connected_dns policy with
   | Some (tunnel, dns) =>
       each (allowed_tunnel_dns dns) (fun server =>
         u ← allow_tunnel_dns_rule tunnel Udp server; t ← allow_tunnel_dns_rule tunnel Tcp server;
         Ok [(MangleChain, u); (MangleChain, t)])
   | None => Ok []
   end) = Ok b ->
  judges (rules_on MangleChain b) (fun p => verdict_if (connected_resolver policy p) Accept) /\
  rules_on PostroutingChain b = [] /\ rules_on NatChain b = [].
Proof.
  unfold connected_resolver. destruct (connected_dns policy) as [[tunnel d]|]; intros Hb; [|by simplify_bind].
  split_and!; [|eapply each_nothing; [exact Hb|]; intros server r _ Hr; by simplify_bind..].
  eapply (judges_each _ _ _ _ (to_tunnel_dns tunnel)); [exact Hb|]. intros server r _ Hr. unfold allow_tunnel_dns_rule in Hr. simplify_bind. cbn.
  rewrite !check_ip_split. eapply judges_ext; [|judge_rules]. unfold to_tunnel_dns, dns. same_verdict.
Qed.

Lemma run_masquerade es c rules p :
  guards es c ->
  run_rules ((es ++ [Masquerade] ++ counter) :: rules) p = if c p then (Some Accept, masqueraded p) else run_rules rules p.
Proof. intros Hg. cbn [run_rules]. destruct (Hg p (Num 0) ([Masquerade] ++ counter)) as [r ->]. by destruct (c p). Qed.

Lemma run_judged rules f rules' p : judges rules f -> 
  run_rules (rules ++ rules') p = match f p with Some v => (Some v, p) | None => run_rules rules' p end.
Proof. intros Hf. rewrite run_rules_app, Hf. by destruct (f p). Qed.

Lemma actual_chains policy mark selector c b :
  guards selector c -> add_actual_split_tunneling_rules policy mark selector = Ok b ->
  rules_on PostroutingChain b = [] /\
  (forall p, run_rules (rules_on MangleChain b) p =
    if connected_resolver policy p then (Some Accept, p) else (None, if c p then with_marks MARK mark p else p)) /\
  (forall p, at_chain b NatChain p = split_nat policy p).
Proof.
  intros Hg Hb. unfold add_actual_split_tunneling_rules in Hb. simplify_bind.
  match goal with H : _ = Ok ?x |- context [?x ++ [(MangleChain, _)] ++ _] => apply resolvers_judged in H as (Hm & Hp & Hn) end.
  match goal with |- context [_ ++ on _ _ ++ ?blocked ++ [(NatChain, _)] ++ ?replies] =>
    assert (rules_on PostroutingChain blocked = [] /\ rules_on MangleChain blocked = [] /\
      judges (rules_on NatChain blocked) (fun p => verdict_if
        (match connected_dns policy with Some (t, _) => on_iface Out t p | None => false end && ct_marked MARK p) Drop))
      as (Hbp & Hbm & Hbn);
    [|assert (rules_on PostroutingChain replies = [] /\ rules_on MangleChain replies = [] /\ rules_on NatChain replies = [])
        as (Hrp & Hrm & Hrn)] end.
  - destruct (connected_dns policy) as [[t d]|]; simplify_bind; cbn; [|done]. split_and!; [done..|].
    eapply judges_ext; [|judge_rules]. same_verdict.
  - by destruct (connected_dns policy) as [[t d]|]; simplify_bind.
  - rewrite !rules_on_app, Hp, Hbp, Hrp. split_and!; [done| |]; intros p.
    + rewrite (run_judged _ _ _ _ Hm), Hbm, Hrm. destruct (connected_resolver policy p); [done|]. cbn [verdict_if].
      cbn [rules_on same_chain on app fmap list_fmap].
      rewrite (marks_rules _ _ _ _ (marks_guarded _ _ _ _ Hg (marks_both MARK mark _ marks_counter))). done.
    + unfold at_chain. rewrite !rules_on_app, Hn, Hrn. cbn [rules_on same_chain on app fmap list_fmap].
      rewrite (run_judged _ _ _ _ Hbn). unfold split_nat.
      match goal with H : ok_or _ _ = Ok ?lo |- _ =>
        assert (check_not_iface Out (lit "lo") = Ok [MetaOif; Cmp false (Num lo)]) as Hlo by (unfold check_not_iface; by rewrite H) end.
      match goal with |- context [run_rules [?rule] p] => change rule with (([MetaOif; Cmp false (Num x1)] ++ check_ct_excluded) ++ [Masquerade] ++ counter) end.
      rewrite (run_masquerade _ _ _ _ (guards_app _ _ _ _ (check_not_iface_ok _ _ _ Hlo) guards_excluded)).
      destruct (ct_marked MARK p), (on_iface Out (lit "lo") p), (connected_dns policy) as [[t d]|]; try done; by destruct (on_iface Out t p).
Qed.

Lemma split_chains policy fw b :
  firewall_include_only fw = false -> root_relays policy -> finalize policy fw = Ok b ->
  rules_on PostroutingChain b = [] /\
  (forall p, at_chain b MangleChain p =
    (Accept, if negb (connected_resolver policy p) && selected fw p then with_marks MARK (fwmark fw) p else p)) /\
  (excludes fw = true -> forall p, at_chain b NatChain p = split_nat policy p).
Proof.
  intros Hio Hroot Hb. destruct (finalize_apps NatChain _ _ _ (or_intror (or_intror eq_refl)) Hroot Hb) as (apps'' & Happs'' & Hn).
  destruct (finalize_apps PostroutingChain _ _ _ (or_intror (or_introl eq_refl)) Hroot Hb) as (apps & Happs & Hp).
  destruct (finalize_apps MangleChain _ _ _ (or_introl eq_refl) Hroot Hb) as (apps' & Happs' & Hm).
  rewrite Hio in Happs, Happs', Happs''. rewrite Happs in Happs', Happs''. apply Ok_inj in Happs' as <-, Happs'' as <-.
  assert (forall p, at_chain b NatChain p = at_chain apps NatChain p) as Hnat by (intros p; unfold at_chain; by rewrite Hn).
  unfold at_chain at 1. rewrite Hp, Hm. unfold excludes. unfold add_split_tunneling_rules in Happs. unfold selected.
  destruct (if feature_cgroup2 then excluded_cgroup2 fw else None) as [cg|]; [|destruct (net_cls fw) as [nc|]].
  3: { apply Ok_inj in Happs as <-. split_and!; [done| |done]. intros p. by rewrite andb_false_r. }
  all: (eapply actual_chains in Happs as (Hpost & Hmangle & Hsplit); [|apply guards_cgroup || apply guards_net_cls]);
    (split_and!; [done|intros p; rewrite Hmangle; by destruct (connected_resolver policy p)|intros _ p; by rewrite Hnat]).
Qed.

(** ** The theorems on packets out *)

(** Full tunnel: what no excluded app sends leaves exactly when the output chain accepts it, as it is. *)
Lemma ordinary_sent policy fw b route p :
  firewall_include_only fw = false -> root_relays policy -> finalize policy fw = Ok b -> selected fw p = false ->
  sent b route p = if bool_decide (output_verdict fw policy p = Accept) then Some p else None.
Proof.
  intros Hio Hroot Hb Hsel. destruct (split_chains _ _ _ Hio Hroot Hb) as (Hpost & Hmangle & _).
  unfold sent. rewrite Hmangle, Hsel, andb_false_r. rewrite bool_decide_eq_true_2 by done. cbn [negb].
  rewrite (judges_at_chain _ _ _ _ (out_chain _ _ _ Hb)). cbn [default].
  destruct (bool_decide _); cbn [negb]; [|done]. unfold at_chain. rewrite Hpost. cbn.
  by rewrite Z.eqb_refl.
Qed.

(** C10: Full tunnel: an excluded app's packet, its connection tracked, is let out marked, wherever it was
    going, unless it is DNS for the tunnel's own resolvers; the packet that opens the connection is
    masqueraded, and never leaves in the tunnel. *)
Theorem excluded_apps_leave_outside policy fw b route p :
  firewall_include_only fw = false -> root_relays policy -> finalize policy fw = Ok b ->
  selected fw p = true -> connected_resolver policy p = false -> is_Some (p_ct_mark p) ->
  let marked := with_mark (with_ct_mark p (Some MARK)) (fwmark fw) in
  let q := if fwmark fw =? p_mark p then marked else with_oif marked (route marked) in
  sent b route p = Some q /\
  opened b route p =
    if match connected_dns policy with Some (tunnel, _) => on_iface Out tunnel q | None => false end then None
    else Some (if on_iface Out (lit "lo") q then q else masqueraded q).
Proof.
  intros Hio Hroot Hb Hsel Hdns [ct Hct] marked q. destruct (split_chains _ _ _ Hio Hroot Hb) as (Hpost & Hmangle & Hnat).
  assert (Hex : excludes fw = true).
  { unfold selected in Hsel. unfold excludes. by destruct (if feature_cgroup2 then _ else _), (net_cls fw). }
  assert (Hq : ct_marked MARK q = true) by (apply bool_decide_eq_true_2; unfold q; by destruct (_ =? _)).
  assert (Hsent : sent b route p = Some q).
  { unfold sent. rewrite Hmangle, Hsel, Hdns. cbn [negb andb]. rewrite bool_decide_eq_true_2 by done. cbn [negb].
    assert (with_marks MARK (fwmark fw) p = marked) as -> by (unfold with_marks; by rewrite Hct).
    rewrite (judges_at_chain _ _ _ _ (out_chain _ _ _ Hb)). cbn [default].
    assert (output_verdict fw policy marked = Accept) as ->.
    { unfold output_verdict, apps_verdict. rewrite Hio, Hex. assert (ct_marked MARK marked = true) as -> by (by apply bool_decide_eq_true_2).
      by destruct (on_iface _ _ _). }
    rewrite bool_decide_eq_true_2 by done. cbn [negb]. unfold at_chain. rewrite Hpost. done. }
  split; [done|]. unfold opened. rewrite Hsent. cbn [mbind option_bind]. rewrite (Hnat Hex). unfold split_nat. rewrite Hq. cbn [negb].
  by destruct (match connected_dns policy with Some _ => _ | None => _ end).
Qed.
End Path.
