(* ===== verification/FirewallLock.v ===== *)
(** * Building the rules, and the apps locked to the tunnel

    What can make the rules of a policy fail, and what the lock table lets the
    locked apps do. *)

From S2P Require Import Prelude BTree Net Networks Lan Tunnel Tailnet Nft Firewall FirewallSpec.
From Stdlib Require Import Btauto.
Open Scope Z_scope.

Section Failing.
Context `{!Networks, !Host}.

(** [m] succeeds, or fails for one of the interfaces [names], which has no index. *)
Definition fails_on {A : Type} (names : list str) (m : comp FwError A) : Prop :=
  match m with Ok _ => True | Err (LookupIfaceIndexError n) => n ∈ names /\ iface_index n = None | Panic => False end.

Lemma fails_bind {A B : Type} names (m : comp FwError A) (f : A -> comp FwError B) :
  fails_on names m -> (forall x, m = Ok x -> fails_on names (f x)) -> fails_on names (m ≫= f).
Proof. destruct m as [x|[n]|]; [|done|done]. intros _ Hf. rewrite bind_Ok. by apply Hf. Qed.

Lemma fails_ok {A : Type} names (x : A) : fails_on names (Ok x).
Proof. done. Qed.

Lemma fails_each {A : Type} names (l : list A) f :
  (forall x, x ∈ l -> fails_on names (f x)) -> fails_on names (each l f).
Proof.
  induction l as [|x l IH]; intros Hf; [done|]. cbn [each]. apply fails_bind; [apply Hf; constructor|intros a _].
  apply fails_bind; [apply IH; intros; apply Hf; by constructor|by intros].
Qed.

Lemma fails_each_all {A : Type} names (l : list A) f :
  (forall x, fails_on names (f x)) -> fails_on names (each l f).
Proof. intros Hf. by apply fails_each. Qed.

Lemma fails_lookup names n : n ∈ names -> fails_on names (ok_or (iface_index n) (LookupIfaceIndexError n)).
Proof. intros Hn. unfold ok_or. by destruct (iface_index n) eqn:Hi. Qed.

Lemma fails_iface names d n : n ∈ names -> fails_on names (check_iface d n).
Proof. intros Hn. apply fails_bind; [by apply fails_lookup|done]. Qed.
Lemma fails_not_iface names d n : n ∈ names -> fails_on names (check_not_iface d n).
Proof. intros Hn. apply fails_bind; [by apply fails_lookup|done]. Qed.
Lemma fails_off names d (tunnel : option str) :
  match tunnel with Some n => n ∈ names | None => True end -> fails_on names (off_tunnel d tunnel).
Proof. destruct tunnel; [apply fails_not_iface|done]. Qed.
End Failing.

Section Building.
Context `{!Networks, !Host}.

(** The interfaces whose index a policy's rules need. *)
Definition needs (policy : FirewallPolicy) : list str :=
  lit "lo" ::
  match policy with
  | FwConnected _ tunnel _ _ _ => [interface tunnel]
  | FwConnecting _ (Some tunnel) _ _ _ traffic => match traffic with AttNone => [] | _ => [interface tunnel] end
  | _ => []
  end.

Lemma connected_needed policy tunnel d : connected_dns policy = Some (tunnel, d) -> tunnel ∈ needs policy.
Proof. destruct policy; [done| |done]. cbn. intros [= <- <-]. set_solver. Qed.

Lemma tailnet_found names interfaces : fails_on names (add_allow_tailnet_rules interfaces).
Proof.
  unfold add_allow_tailnet_rules. apply fails_each. intros pass Hpass.
  apply elem_of_passes in Hpass as [[[i Hi] _]%elem_of_list_to_set%list_elem_of_filter _].
  unfold check_iface. rewrite Hi. by destruct (pass_direction pass).
Qed.

(** The parts of a computation, down to the lookups. *)
Ltac lookups :=
  repeat first
    [ apply tailnet_found | apply fails_ok
    | apply fails_iface | apply fails_not_iface | apply fails_lookup | apply fails_off
    | apply fails_bind; [|intros ? _]
    | apply fails_each_all; intros ?
    | match goal with |- fails_on _ (match ?x with (_, _) => _ end) => destruct x end ].

Lemma policy_fails policy mark : fails_on (needs policy) (policy_rules policy mark).
Proof.
  destruct policy as [peers [tunnel|] lan nets allowed traffic|peers tunnel lan nets d|lan nets allowed]; cbn [policy_rules].
  - apply fails_bind; [apply tailnet_found|intros tailnet _].
    destruct traffic; unfold add_allow_in_tunnel_endpoint_rules, add_allow_tunnel_rules, allow_interface_rule; lookups; cbn; set_solver.
  - apply fails_bind; [apply tailnet_found|intros tailnet _; lookups].
  - unfold add_allow_tunnel_dns_rule, allow_tunnel_dns_rule, add_allow_local_dns_rule, add_allow_tunnel_rules, allow_interface_rule.
    lookups; cbn; set_solver.
  - done.
Qed.

(** The interfaces an include-only rule asks for are among [names]. *)
Definition asks (names : list str) (rule : IncludeRule) : Prop :=
  match rule with
  | DropIncludedOffTunnel (Some t) | DropIncludedArrivingOffTunnel (Some t) | DropArrivalsForIncludedSockets (Some t)
  | RemarkIncludedReplies t | MasqueradeIncludedIntoTunnel t => t ∈ names
  | _ => True
  end.

Lemma include_fails rule included names :
  lit "lo" ∈ names -> asks names rule -> fails_on names (add_include_only_rule rule included).
Proof.
  intros Hlo Hr. destruct rule; cbn [add_include_only_rule]; try destruct included; lookups; try done; destruct tunnel; done.
Qed.

Lemma include_each_fails names rules included :
  lit "lo" ∈ names -> Forall (asks names) rules ->
  fails_on names (each rules (fun rule => add_include_only_rule rule included)).
Proof. rewrite Forall_forall. intros Hlo Hr. apply fails_each. intros rule Hrule. by apply include_fails, Hr. Qed.

Lemma head_asks policy : Forall (asks (needs policy)) (include_only_head policy).
Proof.
  pose proof (connected_needed policy) as Hc. unfold include_only_head.
  assert (forall servers, Forall (asks (needs policy)) (TunnelDnsAsIncluded <$> servers) /\
    Forall (asks (needs policy)) (AcceptIncludedDns <$> servers)) as Hdns.
  { intros servers. split; apply Forall_fmap, Forall_forall; by intros. }
  destruct (connected_dns policy) as [[t d]|]; cbn [fmap option_fmap option_map fst]; [specialize (Hc t d eq_refl)|by repeat constructor].
  rewrite !Forall_app, !Forall_cons. split_and!; try done; try apply Hdns; try apply Forall_nil_2.
  destruct (negb _); [|apply Forall_nil_2]. apply Forall_app. split; [apply Hdns|by repeat constructor].
Qed.

Lemma finalize_fails policy fw : fails_on (needs policy) (finalize policy fw).
Proof.
  assert (lit "lo" ∈ needs policy) as Hlo by (cbn; set_solver). pose proof (connected_needed policy) as Hc.
  unfold finalize, add_loopback_rules, allow_interface_rule, add_policy_specific_rules. lookups; try done.
  - destruct (firewall_include_only fw); [by apply include_each_fails, head_asks|]. unfold add_split_tunneling_rules, add_actual_split_tunneling_rules.
    destruct (if feature_cgroup2 then _ else _); [|destruct (net_cls fw); [|done]];
      destruct (connected_dns policy) as [[t d]|]; unfold allow_tunnel_dns_rule; lookups; eauto.
  - apply policy_fails.
  - destruct (firewall_include_only fw); [|done]. apply include_each_fails; [done|].
    unfold include_only_tail. destruct (policy_tunnel policy); by repeat constructor.
Qed.

Lemma lookup_found d n r : check_iface d n = Ok r -> is_Some (iface_index n).
Proof. unfold check_iface. destruct (iface_index n); [by eauto|done]. Qed.

Lemma tunnel_found n b : add_allow_tunnel_rules n = Ok b -> is_Some (iface_index n).
Proof. unfold add_allow_tunnel_rules, allow_interface_rule. intros Hb. simplify_bind. eauto using lookup_found. Qed.

Lemma endpoint_found n e b : add_allow_in_tunnel_endpoint_rules n e = Ok b -> is_Some (iface_index n).
Proof. unfold add_allow_in_tunnel_endpoint_rules. cbn [each]. intros Hb. simplify_bind. eauto using lookup_found. Qed.

Lemma finalize_found policy fw b : finalize policy fw = Ok b -> Forall (fun n => is_Some (iface_index n)) (needs policy).
Proof.
  unfold finalize, add_loopback_rules, allow_interface_rule, add_policy_specific_rules. intros Hb. simplify_bind.
  constructor; [eauto using lookup_found|].
  destruct policy as [peers [tunnel|] lan nets allowed traffic|peers tunnel lan nets d|lan nets allowed]; cbn [policy_rules] in *;
    simplify_bind; try done; [destruct traffic; simplify_bind; try done|]; constructor; eauto using tunnel_found, endpoint_found.
Qed.

Lemma finalize_built policy fw :
  Forall (fun n => is_Some (iface_index n)) (needs policy) -> exists b, finalize policy fw = Ok b.
Proof.
  intros Hn. pose proof (finalize_fails policy fw) as Hf. destruct (finalize policy fw) as [b|[n]|]; [by eauto| |done].
  destruct Hf as [Hin Hno]. rewrite Forall_forall in Hn. specialize (Hn n Hin). rewrite Hno in Hn. by destruct Hn.
Qed.

(** The rules of a policy are built exactly when the loopback has an index, and the policy's tunnel too
    when some of its rules name it; when they are not, the error is the lookup of one of these two.
    Neither a resolver, nor a network, nor a tailnet interface that went away, makes them fail. *)
Theorem rules_are_built policy fw :
  ((exists b, finalize policy fw = Ok b) <-> Forall (fun n => is_Some (iface_index n)) (needs policy)) /\
  (~ Forall (fun n => is_Some (iface_index n)) (needs policy) ->
   exists n, finalize policy fw = Err (LookupIfaceIndexError n) /\ n ∈ needs policy /\ iface_index n = None).
Proof.
  split; [split; [intros [b Hb]; by eapply finalize_found|apply finalize_built]|]. intros Hn.
  pose proof (finalize_fails policy fw) as Hf. pose proof (finalize_found policy fw) as Hok.
  destruct (finalize policy fw) as [b|[n]|]; [|by eauto|done]. by destruct Hn; eapply Hok.
Qed.

(** ** The apps locked to the tunnel *)

(** What the lock table decides, out or in; [None] leaves the packet to the policy's own rules. *)
Definition lock_verdict (locked : Z) (tunnel_up allow_lan : bool) (d : Direction) (p : Packet) : option Verdict :=
  if in_cgroup LOCKED_CGROUP_LEVEL locked p && negb tunnel_up then
    Some (if on_iface d (lit "lo") p
             || allow_lan && in_nets (match d with In => Src | Out => Dst end) (ALLOWED_LAN_NETS ++ ALLOWED_LAN_MULTICAST_NETS) p
          then Accept else match d with Out => Reject IcmpPortUnreach | In => Drop end)
  else None.

(** The rules for the shared networks. *)
Lemma lock_lan_judged locked d c nets b :
  lock_chain locked (AcceptLan <$> nets) d c = Ok b ->
  judges (rules_on c b) (fun p => verdict_if
    (in_cgroup LOCKED_CGROUP_LEVEL locked p && in_nets (match d with In => Src | Out => Dst end) nets p) Accept).
Proof.
  unfold lock_chain. revert b. induction nets as [|net nets IH]; intros b Hb; cbn [fmap list_fmap each] in Hb; simplify_bind.
  - eapply judges_ext; [|apply judges_nil]. intros p. cbn. by rewrite andb_false_r.
  - cbn [app rules_on]. rewrite (proj2 (same_chain_iff c c) eq_refl). cbn [fst snd].
    eapply (judges_same [_]); [apply judges_one; rule_verdict|apply IH; eassumption|].
    intros p. unfold in_nets. cbn [existsb]. f_equal. btauto.
Qed.

Lemma lock_elsewhere locked rules d c c' b : c <> c' -> lock_chain locked rules d c' = Ok b -> rules_on c b = [].
Proof.
  intros Hc Hb. eapply each_nothing; [exact Hb|]. intros rule r _ Hr. cbn zeta in Hr. simplify_bind. cbn.
  destruct (same_chain c c') eqn:Hs; [by apply same_chain_iff in Hs|done].
Qed.

Lemma lock_chain_judged locked up lan d c b :
  lock_chain locked (lock_rules up (lock_lan lan) d) d c = Ok b -> judges (rules_on c b) (lock_verdict locked up lan d).
Proof.
  unfold lock_rules. destruct up.
  - intros [= <-]. eapply judges_ext; [|apply judges_nil]. intros p. unfold lock_verdict. by rewrite andb_false_r.
  - unfold lock_chain. rewrite !each_app. intros Hb. simplify_bind. rewrite !rules_on_app.
    match goal with H : each (AcceptLan <$> _) _ = Ok ?x |- _ => pose proof (lock_lan_judged locked d c _ _ H) as Hlan end.
    cbn [each] in *. simplify_bind. destruct d; simplify_bind;
      cbn [app rules_on fst snd]; rewrite (proj2 (same_chain_iff c c) eq_refl);
      (eapply judges_ext; [|apply judges_app; [apply judges_one; rule_verdict|apply judges_app; [exact Hlan|apply judges_one; rule_verdict]]]);
      intros p; unfold lock_verdict, lock_lan; unfold in_nets; destruct lan; cbn [negb andb];
      rewrite ?andb_true_r, ?andb_false_r, ?orb_false_r; destruct (in_cgroup _ _ p), (on_iface _ _ p); try done; cbn [andb orb verdict_if first_of];
      by destruct (existsb _ _).
Qed.

(** C11: The lock: while the tunnel is down a locked app reaches the loopback and, when the user shares it,
    the local network, both ways, and nothing else; the table says nothing of any other packet, nor of
    any packet once the tunnel is up. *)
Theorem locked_apps_wait_for_tunnel locked up lan b :
  set_app_lock locked up lan = Ok b ->
  judges (rules_on OutChain b) (lock_verdict locked up lan Out) /\ judges (rules_on InChain b) (lock_verdict locked up lan In).
Proof.
  unfold set_app_lock. cbn [each]. intros Hb. simplify_bind. rewrite !rules_on_app, !app_nil_r.
  match goal with Ho : lock_chain _ _ Out _ = Ok ?o, Hi : lock_chain _ _ In _ = Ok ?i |- _ =>
    pose proof (lock_elsewhere _ _ _ InChain OutChain o ltac:(done) Ho) as ->;
    pose proof (lock_elsewhere _ _ _ OutChain InChain i ltac:(done) Hi) as -> end.
  rewrite app_nil_r. split; by apply lock_chain_judged.
Qed.
End Building.
