(* ===== verification/NoLeak.v ===== *)
(** * What leaves the host while the client runs

    The tunnel state machine and the rules of the firewall together: what the
    machine keeps in force in each of its states, and what the kernel lets out
    of the host under it. *)

From S2P Require Import Prelude BTree Net Networks Lan Routes Tunnel Refusals TunnelMachine TunnelInv TunnelTurn.
From S2P Require Import Tailnet Nft Firewall FirewallSpec FirewallPath.
Open Scope Z_scope.

Section NoLeak.
Context `{!Networks, !Descriptors, W : !World, !Host}.
Implicit Types (s : Shared) (c : Connecting) (k : Connected).

Abbreviation lo := (lit "lo") (only parsing).

(** A packet of neither the client, which is root or marks what it sends, nor an excluded app. *)
Definition ordinary (fw : Firewall) (p : Packet) : bool :=
  negb (selected fw p) && negb (ct_marked MARK p) && negb (from_uid ROOT_UID p) && negb (p_mark p =? fwmark fw).

(** The kernel's rules are [b]: those of the policy the machine last brought into force. *)
Definition installed s (fw : Firewall) (policy : FirewallPolicy) (b : list (Chain * Rule)) : Prop :=
  enforced (log s) = Some (firewall_include_only fw, policy) /\ finalize policy fw = Ok b.

(** The link's own configuration. *)
Definition link_local (p : Packet) : bool := dhcp_request p || ndp_out p.

(** To the API, when it is open to every program. *)
Definition to_open_endpoint (e : AllowedEndpoint) (p : Packet) : bool := at_endpoint Dst (endpoint e) p && allow_all (clients e).

(** To the local network the user shares: its networks, the local multicast groups, and the answers
    of a DHCP server. *)
Definition to_shared_lan s (p : Packet) : bool := allow_lan s && to_lan (lan_networks s) p.

Lemma ordinary_parts fw p :
  ordinary fw p = true ->
  selected fw p = false /\ ct_marked MARK p = false /\ from_uid ROOT_UID p = false /\ (p_mark p =? fwmark fw) = false.
Proof. unfold ordinary. rewrite !andb_true_iff, !negb_true_iff. tauto. Qed.

(** The relays of the machine's policies are the client's own. *)
Lemma relay_peers_root (endpoints : list Endpoint) : Forall (fun e => allow_all (clients e) = false) (relay_peers endpoints).
Proof. unfold relay_peers. apply Forall_fmap, Forall_forall. by intros. Qed.

(** An ordinary packet cannot go to the relays. *)
Lemma no_peer fw p endpoints :
  ordinary fw p = true -> existsb (fun e => to_peer (fwmark fw) e p) (relay_peers endpoints) = false.
Proof.
  intros (_ & _ & Hroot & Hmark)%ordinary_parts. unfold relay_peers. induction endpoints as [|e l IH]; [done|].
  cbn [fmap list_fmap existsb]. rewrite IH. unfold to_peer. by rewrite Hroot, Hmark, andb_false_r.
Qed.

Lemma open_endpoint fw e p : ordinary fw p = true -> to_allowed e p = to_open_endpoint e p.
Proof. intros (_ & _ & Hroot & _)%ordinary_parts. unfold to_allowed. by rewrite Hroot, orb_false_r. Qed.

(** The packets the machine's rules let out in the full tunnel. *)
Lemma sent_accepted policy fw b route p p' :
  firewall_include_only fw = false -> root_relays policy -> finalize policy fw = Ok b -> ordinary fw p = true ->
  sent b route p = Some p' ->
  p' = p /\
  (on_iface Out lo p = true \/ link_local p = true \/
   policy_verdict (fwmark fw) policy p = Some Accept \/
   policy_verdict (fwmark fw) policy p = None /\ policy_allow_lan policy && to_lan (policy_lan_networks policy) p = true).
Proof.
  intros Hio Hroot Hb Hp. destruct (ordinary_parts _ _ Hp) as (Hsel & Hct & _).
  rewrite (ordinary_sent _ _ _ _ _ Hio Hroot Hb Hsel).
  destruct (decide (output_verdict fw policy p = Accept)) as [Ha|Ha];
    [rewrite bool_decide_eq_true_2 by done|by rewrite bool_decide_eq_false_2 by done].
  intros [= <-]. split; [done|].
  unfold output_verdict, apps_verdict in Ha. rewrite Hio, Hct, andb_false_r in Ha. cbn [verdict_if] in Ha.
  fold (link_local p) in Ha. destruct (on_iface Out lo p); [by left|]. destruct (link_local p); [by right; left|].
  right; right. destruct (policy_verdict (fwmark fw) policy p); [left; by subst|right].
  rewrite orb_false_r in Ha. split; [done|]. by destruct (policy_allow_lan policy && _).
Qed.

(** The policy of the state, once the last request to the firewall was granted. *)
Lemma installed_policy state s fw policy b :
  reachable (Running state s) -> installed s fw policy b ->
  match state with
  | Disconnected | Error _ => requested (log s) = enforced (log s) -> policy = blocked_now s
  | SConnecting c => exists metadata traffic,
      policy = connecting_policy s (c_parameters c) metadata traffic /\
      ((metadata = c_metadata c /\ traffic = c_traffic c) \/ (c_metadata c = None /\ c_traffic c = AttNone))
  | SConnected k => exists metadata, policy = get_firewall_policy (with_metadata k metadata) s
  | Disconnecting _ _ => True
  end.
Proof.
  intros Hr [He _]. apply reachable_ok in Hr as [Hi _]. pose proof (inv_in_force _ _ Hi) as Hf.
  destruct state; cbn in Hf |- *; rewrite He in *.
  - intros Hreq. rewrite Hreq in Hf. destruct (lockdown_bool _); [congruence|done].
  - destruct Hf as (m & t & [= _ ->] & Hmt). eauto.
  - destruct Hf as (m & [= _ ->]). eauto.
  - done.
  - intros Hreq. rewrite Hreq in Hf. congruence.
Qed.

(** C2: Blocked, in the full tunnel (no include-only mode).  In a reachable error state, or
    disconnected under lockdown, once the firewall granted the last request and its rules are in the
    kernel, what leaves of an ordinary program (not the client's, not an excluded app's) leaves as it
    is, and only on the loopback, for the link's own configuration (DHCP, NDP), to the API's endpoint
    when it is open to every program, or, DNS excepted, to the local network the user shares. *)
Theorem blocked_states_leak_nothing state s fw policy b route p p' :
  reachable (Running state s) -> match state with Disconnected | Error _ => True | _ => False end ->
  requested (log s) = enforced (log s) -> installed s fw policy b -> firewall_include_only fw = false ->
  ordinary fw p = true -> sent b route p = Some p' ->
  p' = p /\
  on_iface Out lo p || link_local p || to_open_endpoint (allowed_endpoint s) p || (negb (dns p) && to_shared_lan s p) = true.
Proof.
  intros Hr Hst Hreq Hin Hio Hp Hs. pose proof (installed_policy _ _ _ _ _ Hr Hin) as Hpol.
  assert (policy = blocked_now s) as -> by (destruct state; try done; auto). destruct Hin as [_ Hb].
  apply (sent_accepted (blocked_now s) _ _ _ _ _ Hio I Hb Hp) in Hs as (-> & Hways). split; [done|].
  cbn [blocked_now blocked_policy policy_verdict policy_allow_lan policy_lan_networks] in Hways.
  rewrite (open_endpoint fw) in Hways by done. unfold to_shared_lan.
  destruct (on_iface Out lo p); [done|]. destruct (link_local p); [done|]. destruct (to_open_endpoint _ p); [done|].
  destruct (dns p); cbn [negb andb orb]; destruct Hways as [?|[?|[Hv|[? ?]]]]; try done.
  unfold refuse_dns in Hv. by destruct (at_port _ _ _ _).
Qed.



(** C5: Include-only mode.  In a reachable state other than disconnecting whose rules are in the
    kernel (so not disconnected without lockdown), and, disconnected or in the error state, once the
    firewall granted the last request: a packet an included app sends on a tracked connection keeps
    its family, and leaves, if at all, on the loopback or, connected, in the tunnel of the policy in
    force. *)
Theorem included_apps_never_leak state s fw policy b route p p' cgroup :
  reachable (Running state s) ->
  match state with
  | Disconnecting _ _ => False
  | Disconnected | Error _ => requested (log s) = enforced (log s)
  | SConnecting _ | SConnected _ => True
  end ->
  installed s fw policy b -> firewall_include_only fw = true -> included_cgroup2 fw = Some cgroup ->
  p_cgroupv2 p 1 = Some cgroup -> is_Some (p_ct_mark p) -> sent b route p = Some p' ->
  p_network p' = p_network p /\
  (on_iface Out lo p' = true \/
   exists k t, state = SConnected k /\ policy_tunnel policy = Some t /\ on_iface Out (interface t) p' = true).
Proof.
  intros Hr Hst Hin Hio Hcg Happ Hct Hs. pose proof (installed_policy _ _ _ _ _ Hr Hin) as Hpol. destruct Hin as [_ Hb].
  assert (root_relays policy) as Hroot.
  { destruct state; try done; [|destruct Hpol as (m & t & -> & _); apply relay_peers_root
      |destruct Hpol as (m & ->); apply relay_peers_root|]; by rewrite (Hpol Hst). }
  destruct (included_sent _ _ _ _ _ _ _ Hio Hcg Hroot Hb Happ Hct Hs) as (_ & _ & Hn & [Hlo|(t & d & Hd & Ht)]); (split; [done|]); [by left|].
  right. destruct policy as [| |]; try done. injection Hd as <- <-.
  destruct state as [|c|k| |]; try done; [by specialize (Hpol Hst)|by destruct Hpol as (? & ? & ? & _)| |by specialize (Hpol Hst)].
  exists k, tunnel. done.
Qed.

(** The output chain on the tracked packets of the programs that are not included. *)
Lemma bystander_verdict policy fw p :
  firewall_include_only fw = true -> ct_not_marked INCLUDE_CT_MARK p = true ->
  output_verdict fw policy p =
    if negb (on_iface Out lo p) && negb (link_local p) && dns p
       && negb (bool_decide (policy_verdict (fwmark fw) policy p = Some Accept))
       && negb (match connected_dns policy with Some (_, d) => allow_external_dns d | None => false end)
    then refuse_dns p else Accept.
Proof.
  intros Hio Hct. assert (ct_marked INCLUDE_CT_MARK p = false) as Hno.
  { unfold ct_not_marked in Hct. unfold ct_marked. destruct (p_ct_mark p) as [m|]; [|done].
    rewrite bool_decide_eq_false_2; [done|]. intros [= ->]. by rewrite Z.eqb_refl in Hct. }
  unfold output_verdict, apps_verdict. rewrite Hio, Hct, Hno, orb_true_r. fold (link_local p).
  destruct (on_iface Out lo p); [done|]. destruct (link_local p); [done|]. cbn [negb andb].
  assert (refuse_dns p <> Accept) as Href by (unfold refuse_dns; by destruct (at_port _ _ _ _)).
  assert (bool_decide (Some (refuse_dns p) = Some Accept) = false) as Hr by (rewrite bool_decide_eq_false; congruence).
  destruct policy as [peers tunnel lan nets allowed traffic|peers tunnel lan nets d|lan nets allowed];
    cbn [policy_verdict connected_dns negb]; rewrite ?andb_true_r.
  - destruct (_ || _ || _); [by rewrite bool_decide_eq_true_2, andb_false_r|].
    destruct (dns p); cbn [andb]; [by rewrite Hr|]. destruct tunnel as [t|]; [|done]. by destruct (tunnel_traffic _ _ p).
  - destruct (_ || _ || _ || _); [by rewrite bool_decide_eq_true_2, andb_false_r|].
    destruct (dns p), (allow_external_dns d); cbn [negb andb]; rewrite ?Hr, ?andb_false_r; try done;
      by destruct (on_iface Out (interface tunnel) p).
  - destruct (match allowed with Some e => _ | None => _ end); [by rewrite bool_decide_eq_true_2, andb_false_r|].
    destruct (dns p); cbn [andb]; [by rewrite Hr|done].
Qed.

(** To the address of a resolver of the tunnel that is up: such a packet counts as an included app's. *)
Definition at_resolver (policy : FirewallPolicy) (p : Packet) : bool :=
  match connected_dns policy with
  | Some (_, d) => existsb (fun server => at_addr Dst server p) (allowed_tunnel_dns d)
  | None => false
  end.

(** A packet of a program that is not included, on a connection conntrack does not count as one's. *)
Definition bystander (fw : Firewall) (p : Packet) : bool :=
  negb (match included_cgroup2 fw with Some cgroup => in_cgroup 1 cgroup p | None => false end)
  && ct_not_marked INCLUDE_CT_MARK p.

(** C21: Include-only, the other programs: under the rules built for any policy, what a program that is
    not included sends on a tracked connection passes the output chain and leaves the host as it is,
    but for DNS: off the loopback the chain refuses it, and nothing leaves, unless a connected policy
    allows external resolvers, the packet goes where the policy itself lets it, or it is the link's own
    configuration.  (A packet to a resolver of the tunnel counts as an included app's, so it is not
    spoken of here.) *)
Theorem bystanders_lose_only_dns policy fw b route p :
  firewall_include_only fw = true -> root_relays policy -> finalize policy fw = Ok b ->
  bystander fw p = true -> at_resolver policy p = false ->
  let refused := negb (on_iface Out lo p) && negb (link_local p) && dns p
    && negb (bool_decide (policy_verdict (fwmark fw) policy p = Some Accept))
    && negb (match connected_dns policy with Some (_, d) => allow_external_dns d | None => false end) in
  at_chain b OutChain p = (if refused then refuse_dns p else Accept, p) /\
  sent b route p = if refused then None else Some p.
Proof.
  intros Hio Hroot Hb Hby Hres refused. unfold bystander in Hby.
  apply andb_true_iff in Hby as [Hcg%negb_true_iff Hct].
  assert (ct_marked INCLUDE_CT_MARK p = false) as Hno.
  { unfold ct_not_marked in Hct. unfold ct_marked. destruct (p_ct_mark p) as [m|]; [|done].
    rewrite bool_decide_eq_false_2; [done|]. intros [= ->]. by rewrite Z.eqb_refl in Hct. }
  assert (at_chain b OutChain p = (if refused then refuse_dns p else Accept, p)) as Hout.
  { rewrite (judges_at_chain _ _ _ _ (out_chain _ _ _ Hb)). cbn [default]. by rewrite bystander_verdict. }
  split; [exact Hout|].
  assert (include_marked fw policy p = p) as Hsame.
  { unfold include_marked, at_resolver in *. rewrite Hcg, Hres. cbn [orb]. by rewrite Hno. }
  unfold sent. rewrite (include_mangled _ _ _ _ Hio Hroot Hb), Hsame. rewrite bool_decide_eq_true_2 by done. cbn [negb].
  rewrite Hout. destruct refused.
  - rewrite bool_decide_eq_false_2; [done|]. unfold refuse_dns. by destruct (at_port _ _ _ _).
  - rewrite bool_decide_eq_true_2 by done. cbn [negb]. rewrite Z.eqb_refl.
    destruct (finalize_apps PostroutingChain _ _ _ (or_intror (or_introl eq_refl)) Hroot Hb) as (apps & Happs & Hon).
    rewrite Hio in Happs. unfold at_chain. rewrite Hon, (include_postrouting _ _ _ Happs), Hno, andb_false_r. done.
Qed.
End NoLeak.
