(* ===== verification/FirewallWitness.v ===== *)
(** * A host behind the firewall

    A host with a loopback and one more interface, on which the machine of
    [TunnelWitness] runs: the firewall's theorems applied to its policies. *)

From S2P Require Import Prelude BTree Net Networks NetworksModel Lan Routes Tunnel Refusals TunnelMachine TunnelInv TunnelTurn.
From S2P Require Import TunnelWitness Tailnet Nft Firewall FirewallSpec FirewallPath FirewallLock NoLeak.
Open Scope Z_scope.

#[local] Existing Instance sealed_nets.
#[local] Existing Instance host_descriptors.
#[local] Existing Instance host.

(** The loopback is interface 1, every other name interface 2. *)
#[local] Instance interfaces : Host := {|
  iface_index n := Some (if bool_decide (n = lit "lo") then 1 else 2);
  ADD_COUNTERS := false;
  feature_cgroup2 := true;
  read_host_interfaces := None
|}.

(** The cgroup of the excluded apps is 7, of the included ones 8; the client marks with 5. *)
Definition fw_full : Firewall := mkFirewall 5 (Some 7) None (Some 8) false.
Definition fw_include : Firewall := mkFirewall 5 (Some 7) None (Some 8) true.

(** A packet out on interface [oif], its socket in [cgroup]. *)
Definition packet (oif cgroup : Z) : Packet :=
  mkPacket 0 oif IPv4 (Some IPPROTO_TCP) [] None 0 (Some 1000) None (fun _ => Some cgroup) (Some 0) 8 false.

Lemma found policy : Forall (fun n => is_Some (iface_index n)) (needs policy).
Proof. apply Forall_forall. intros n _. cbn. eauto. Qed.

Definition rules_of (policy : FirewallPolicy) (fw : Firewall) : list (Chain * Rule) :=
  match finalize policy fw with Ok b => b | _ => [] end.

Lemma rules_of_built policy fw : finalize policy fw = Ok (rules_of policy fw).
Proof. destruct (finalize_built policy fw (found policy)) as [b Hb]. unfold rules_of. by rewrite Hb. Qed.

Definition blocked : FirewallPolicy := FwBlocked false [] None.

(** A blocked host: the loopback is open, the other interface is not. *)
Lemma output_filtered_witness :
  run_rules (rules_on OutChain (rules_of blocked fw_full)) (packet 1 0) = (Some Accept, packet 1 0) /\
  run_rules (rules_on OutChain (rules_of blocked fw_full)) (packet 2 0) = (Some (Reject IcmpPortUnreach), packet 2 0).
Proof.
  split; rewrite (output_filtered blocked fw_full _ (rules_of_built _ _)); by vm_compute.
Defined.

(** An excluded app sends past the same policy, on the interface [route] gives its mark. *)
Lemma excluded_apps_leave_outside_witness :
  sent (rules_of blocked fw_full) (fun _ => 2) (packet 1 7)
  = Some (with_oif (with_mark (with_ct_mark (packet 1 7) (Some MARK)) 5) 2).
Proof.
  eapply (excluded_apps_leave_outside blocked fw_full _ (fun _ => 2) (packet 1 7));
    [done|done|apply rules_of_built|by vm_compute|by vm_compute|by eexists].
Defined.

Definition lock_of (up : bool) : list (Chain * Rule) := match set_app_lock 9 up false with Ok b => b | _ => [] end.

Lemma lock_of_built : set_app_lock 9 false false = Ok (lock_of false).
Proof. reflexivity. Qed.

Lemma locked_apps_wait_for_tunnel_witness :
  run_rules (rules_on OutChain (lock_of false)) (packet 2 9) = (Some (Reject IcmpPortUnreach), packet 2 9) /\
  run_rules (rules_on InChain (lock_of false)) (packet 2 9) = (Some Drop, packet 2 9).
Proof.
  split; [rewrite (proj1 (locked_apps_wait_for_tunnel 9 false false _ lock_of_built))
         |rewrite (proj2 (locked_apps_wait_for_tunnel 9 false false _ lock_of_built))]; by vm_compute.
Defined.

(** ** The machine's states *)

Definition policy_of (m : Machine) : FirewallPolicy :=
  match enforced (log (shared_of m)) with Some (_, policy) => policy | None => blocked end.

Definition fw_of (m : Machine) : Firewall := if fw_include_only (shared_of m) then fw_include else fw_full.

Lemma m0_running : reachable (Running (state_of m0) (shared_of m0)).
Proof. apply reached_running; [exact m0_reachable|by vm_compute]. Qed.
Lemma m1_running : reachable (Running (state_of m1) (shared_of m1)).
Proof. apply reached_running; [exact m1_reachable|by vm_compute]. Qed.

Lemma installed_of m :
  enforced (log (shared_of m)) = Some (firewall_include_only (fw_of m), policy_of m) ->
  installed (shared_of m) (fw_of m) (policy_of m) (rules_of (policy_of m) (fw_of m)).
Proof. intros He. split; [done|apply rules_of_built]. Qed.

Lemma sent_out m p :
  fw_include_only (shared_of m) = false -> root_relays (policy_of m) -> ordinary fw_full p = true ->
  bool_decide (output_verdict fw_full (policy_of m) p = Accept) = true ->
  sent (rules_of (policy_of m) (fw_of m)) p_oif p = Some p.
Proof.
  intros Hf Hroot Hp Ho. unfold fw_of. rewrite Hf.
  rewrite (ordinary_sent (policy_of m) fw_full), Ho; [done|done|done|apply rules_of_built|].
  by apply ordinary_parts in Hp as [? _].
Qed.

(** Locked down before it ever connects: only the loopback. *)
Lemma blocked_states_leak_nothing_witness :
  sent (rules_of (policy_of m0) (fw_of m0)) p_oif (packet 1 0) = Some (packet 1 0) /\
  on_iface Out (lit "lo") (packet 1 0) || link_local (packet 1 0)
  || to_open_endpoint (allowed_endpoint (shared_of m0)) (packet 1 0)
  || (negb (dns (packet 1 0)) && to_shared_lan (shared_of m0) (packet 1 0)) = true.
Proof.
  assert (sent (rules_of (policy_of m0) (fw_of m0)) p_oif (packet 1 0) = Some (packet 1 0)) as Hs
    by (apply sent_out; by vm_compute).
  split; [exact Hs|].
  eapply (blocked_states_leak_nothing (state_of m0) (shared_of m0) (fw_of m0) (policy_of m0) _ p_oif (packet 1 0));
    [exact m0_running|by vm_compute|by vm_compute|apply installed_of; by vm_compute|by vm_compute|by vm_compute|exact Hs].
Defined.

(** Dialing: still the loopback only. *)
Lemma m1_connecting : exists c, state_of m1 = SConnecting c.
Proof. eexists. by vm_compute. Qed.



(** The same run in include-only mode: an included app is routed into the tunnel. *)
Definition i2 : Machine :=
  after (after (machine_new (mkInitialTunnelState false [] (Enabled true) (mkDnsConfig DnsDefault false) api true None SplitIncludeOnly)
                  (Online AvIpv4)) (Command (Some CmdConnect))) (Event (Some (EvUp tun))).

Lemma i2_running : reachable (Running (state_of i2) (shared_of i2)).
Proof.
  apply reached_running; [|by vm_compute]. apply after_reachable; [apply after_reachable; [by eexists _, _|]|]; by vm_compute.
Qed.

Lemma included_apps_never_leak_witness :
  exists p', sent (rules_of (policy_of i2) (fw_of i2)) (fun _ => 2) (packet 3 8) = Some p' /\
  p_network p' = p_network (packet 3 8) /\
  (on_iface Out (lit "lo") p' = true \/
   exists k t, state_of i2 = SConnected k /\ policy_tunnel (policy_of i2) = Some t /\ on_iface Out (interface t) p' = true).
Proof.
  assert (exists p', sent (rules_of (policy_of i2) (fw_of i2)) (fun _ => 2) (packet 3 8) = Some p') as [p' Hs].
  { eexists. vm_compute. reflexivity. }
  exists p'. split; [exact Hs|].
  apply (included_apps_never_leak (state_of i2) (shared_of i2) (fw_of i2) (policy_of i2) (rules_of (policy_of i2) (fw_of i2))
           (fun _ => 2) (packet 3 8) p' 8 i2_running);
    [by vm_compute|apply installed_of; by vm_compute|by vm_compute|by vm_compute|by vm_compute|by eexists|exact Hs].
Defined.

(** DNS to a resolver on the local network, sent by a program that is not included: refused while
    blocked, although the rest of the program's traffic leaves. *)
Definition query : Packet :=
  mkPacket 0 2 IPv4 (Some IPPROTO_UDP) [] (Some (be16 40000 ++ be16 53)) 0 (Some 1000) None (fun _ => None) (Some 0) 8 false.

Lemma bystanders_lose_only_dns_witness :
  sent (rules_of blocked fw_include) (fun _ => 2) query = None /\
  sent (rules_of blocked fw_include) (fun _ => 2) (packet 2 0) = Some (packet 2 0).
Proof.
  split.
  - exact (proj2 (bystanders_lose_only_dns blocked fw_include (rules_of blocked fw_include) (fun _ => 2) query
      eq_refl I (rules_of_built _ _) ltac:(by vm_compute) eq_refl)).
  - exact (proj2 (bystanders_lose_only_dns blocked fw_include (rules_of blocked fw_include) (fun _ => 2) (packet 2 0)
      eq_refl I (rules_of_built _ _) ltac:(by vm_compute) eq_refl)).
Defined.
