(* ===== verification/Decimal.v ===== *)
(** * Decimal numbers: what the code uses of [Display] and [FromStr] for [u32] *)

From S2P Require Import Prelude.
Open Scope Z_scope.

Definition is_digit (b : Z) : bool := (48 <=? b) && (b <=? 57).
Definition is_nonzero_digit (b : Z) : bool := (49 <=? b) && (b <=? 57).

(** The digits of a number, [fuel] of them at most. *)
Fixpoint decimal_digits (fuel : nat) (n : Z) : str :=
  match fuel with
  | O => []
  | S fuel => if n <? 10 then [48 + n] else decimal_digits fuel (n / 10) ++ [48 + n mod 10]
  end.

(** [n.to_string()]: a number has no more digits than bits. *)
Definition decimal (n : Z) : str := decimal_digits (S (Z.to_nat (Z.log2 n))) n.

Definition digits_value (s : str) : Z := fold_left (fun n b => n * 10 + (b - 48)) s 0.

(** [s.parse().ok()] of the unsigned integers below [bound]. *)
Definition parse_uint (bound : Z) (s : str) : option Z :=
  let digits := match s with 43 :: digits => digits | _ => s end in
  if bool_decide (digits = []) || negb (forallb is_digit digits) then None
  else let n := digits_value digits in if n <? bound then Some n else None.
Definition parse_u32 : str -> option Z := parse_uint 4294967296.

(** ** Lemmas *)

(** What a number is printed as: no zero first, but for zero itself. *)
Definition numeral (s : str) : Prop :=
  s = [48] \/ exists b t, s = b :: t /\ is_nonzero_digit b = true /\ forallb is_digit t = true.

Lemma digits_value_app s b : digits_value (s ++ [b]) = digits_value s * 10 + (b - 48).
Proof. unfold digits_value. by rewrite fold_left_app. Qed.

Lemma is_digit_iff b : is_digit b = true <-> 48 <= b <= 57.
Proof. unfold is_digit. rewrite andb_true_iff. lia. Qed.
Lemma is_nonzero_digit_iff b : is_nonzero_digit b = true <-> 49 <= b <= 57.
Proof. unfold is_nonzero_digit. rewrite andb_true_iff. lia. Qed.

Lemma digits_value_bound s : forallb is_digit s = true -> 0 <= digits_value s < 10 ^ zlen s.
Proof.
  induction s as [|b s IH] using rev_ind; intros Hs; [done|]. rewrite forallb_app in Hs.
  apply andb_true_iff in Hs as [Hs Hb]. cbn in Hb. rewrite andb_true_r in Hb. apply is_digit_iff in Hb. specialize (IH Hs).
  rewrite digits_value_app, zlen_app. replace (zlen [b]) with 1 by done.
  rewrite Z.pow_add_r by (pose proof (zlen_nonneg s); lia). lia.
Qed.

(** Enough fuel gives the number back. *)
Lemma decimal_digits_spec fuel n :
  0 <= n < 2 ^ Z.of_nat fuel -> (0 < fuel)%nat ->
  numeral (decimal_digits fuel n) /\ digits_value (decimal_digits fuel n) = n.
Proof.
  revert n. induction fuel as [|fuel IH]; intros n Hn Hf; [lia|]. cbn [decimal_digits].
  destruct (Z.ltb_spec n 10).
  - split; [|unfold digits_value; cbn; lia]. destruct (Z.eq_dec n 0) as [->|]; [by left|right].
    exists (48 + n), []. split; [done|]. split; [apply is_nonzero_digit_iff; lia|done].
  - rewrite Nat2Z.inj_succ, Z.pow_succ_r in Hn by lia.
    assert (0 <= n / 10 < 2 ^ Z.of_nat fuel) as Hq by (split; [apply Z.div_pos|apply Z.div_lt_upper_bound]; lia).
    destruct fuel as [|fuel]; [cbn in Hq; lia|]. destruct (IH _ Hq) as [Hnum Hval]; [lia|].
    pose proof (Z.mod_pos_bound n 10). split.
    + right. destruct Hnum as [Hz|(b & t & He & Hb & Ht)].
      * rewrite Hz in Hval. unfold digits_value in Hval. cbn in Hval.
        assert (10 <= n) by lia. assert (1 <= n / 10) by (apply Z.div_le_lower_bound; lia). lia.
      * rewrite He. exists b, (t ++ [48 + n mod 10]). split; [done|]. split; [done|].
        rewrite forallb_app, Ht. cbn. rewrite andb_true_r. apply is_digit_iff. lia.
    + rewrite digits_value_app, Hval. pose proof (Z.div_mod n 10). lia.
Qed.

Lemma decimal_spec n : 0 <= n -> numeral (decimal n) /\ digits_value (decimal n) = n.
Proof.
  intros Hn. apply decimal_digits_spec; [|lia]. split; [done|].
  destruct (Z.eq_dec n 0) as [->|]; [by vm_compute|]. pose proof (Z.log2_spec n). pose proof (Z.log2_nonneg n).
  rewrite Nat2Z.inj_succ, Z2Nat.id by done. lia.
Qed.

Lemma numeral_digits s : numeral s -> forallb is_digit s = true /\ s <> [].
Proof.
  intros [->|(b & t & -> & Hb & Ht)]; [done|]. split; [|done]. cbn. rewrite Ht, andb_true_r.
  apply is_digit_iff. apply is_nonzero_digit_iff in Hb. lia.
Qed.

(** The value of a numeral is as long as the numeral. *)
Lemma digits_value_lead b t :
  forallb is_digit t = true -> digits_value (b :: t) = (b - 48) * 10 ^ zlen t + digits_value t.
Proof.
  induction t as [|c t IH] using rev_ind; intros Ht; [change (zlen (A:=Z) []) with 0; unfold digits_value; cbn [fold_left]; lia|].
  rewrite forallb_app in Ht. apply andb_true_iff in Ht as [Ht _].
  rewrite app_comm_cons, !digits_value_app, IH, zlen_app by done. replace (zlen [c]) with 1 by done.
  rewrite Z.pow_add_r by (pose proof (zlen_nonneg t); lia). lia.
Qed.

(** Digits are determined by their number and their value. *)
Lemma digits_value_inj s t :
  length s = length t -> forallb is_digit s = true -> forallb is_digit t = true -> digits_value s = digits_value t -> s = t.
Proof.
  revert t. induction s as [|a s IH] using rev_ind; intros t Hl Hs Ht Hv.
  - by destruct t.
  - destruct t as [|b t _] using rev_ind; [rewrite length_app in Hl; cbn in Hl; lia|].
    rewrite !length_app in Hl. cbn in Hl. rewrite !forallb_app in *. cbn in Hs, Ht.
    rewrite andb_true_r in Hs, Ht. apply andb_true_iff in Hs as [Hs Ha%is_digit_iff], Ht as [Ht Hb%is_digit_iff].
    rewrite !digits_value_app in Hv. assert (a = b) as -> by lia. f_equal. apply IH; [lia|done..|lia].
Qed.

Lemma numeral_inj s t : numeral s -> numeral t -> digits_value s = digits_value t -> s = t.
Proof.
  assert (forall b u, is_nonzero_digit b = true -> forallb is_digit u = true ->
    10 ^ zlen u <= digits_value (b :: u) < 10 ^ (zlen u + 1)) as Hb.
  { intros b u Hb%is_nonzero_digit_iff Hu. rewrite digits_value_lead by done. pose proof (digits_value_bound u Hu).
    pose proof (zlen_nonneg u). rewrite Z.pow_add_r by lia. nia. }
  intros Hs Ht Hv. pose proof (numeral_digits _ Hs) as [Hds _]. pose proof (numeral_digits _ Ht) as [Hdt _].
  apply digits_value_inj; try done. destruct Hs as [->|(b & u & -> & Hnb & Hu)], Ht as [->|(c & w & -> & Hnc & Hw)]; try done.
  - specialize (Hb c w Hnc Hw). change (digits_value [48]) with 0 in Hv. pose proof (zlen_nonneg w). assert (0 < 10 ^ zlen w) by (apply Z.pow_pos_nonneg; lia). lia.
  - specialize (Hb b u Hnb Hu). change (digits_value [48]) with 0 in Hv. pose proof (zlen_nonneg u). assert (0 < 10 ^ zlen u) by (apply Z.pow_pos_nonneg; lia). lia.
  - pose proof (Hb b u Hnb Hu). pose proof (Hb c w Hnc Hw). pose proof (zlen_nonneg u). pose proof (zlen_nonneg w).
    assert (zlen u < zlen w + 1) by (apply (Z.pow_lt_mono_r_iff 10); lia).
    assert (zlen w < zlen u + 1) by (apply (Z.pow_lt_mono_r_iff 10); lia).
    cbn. unfold zlen in *. lia.
Qed.

Lemma numeral_decimal s : numeral s -> decimal (digits_value s) = s.
Proof.
  intros Hs. pose proof (numeral_digits s Hs) as [Hd _]. pose proof (digits_value_bound s Hd).
  destruct (decimal_spec (digits_value s)) as [Hn Hv]; [lia|]. by apply numeral_inj.
Qed.

Lemma decimal_inj m n : 0 <= m -> 0 <= n -> decimal m = decimal n -> m = n.
Proof. intros Hm%decimal_spec Hn%decimal_spec He. destruct Hm as [_ <-], Hn as [_ <-]. by rewrite He. Qed.

(** A number below a power of ten has that many digits at most. *)
Lemma decimal_length n (k : nat) : 0 <= n < 10 ^ (Z.of_nat k + 1) -> (length (decimal n) <= S k)%nat.
Proof.
  intros Hn. destruct (decimal_spec n) as [[->|(b & t & He & Hb & Ht)] Hv]; [lia|cbn; lia|]. rewrite He in *.
  pose proof (digits_value_bound t Ht). rewrite digits_value_lead in Hv by done. apply is_nonzero_digit_iff in Hb.
  assert (10 ^ zlen t <= n) by nia. assert (zlen t < Z.of_nat k + 1) by (apply (Z.pow_lt_mono_r_iff 10); lia).
  cbn. unfold zlen in *. lia.
Qed.

Lemma parse_uint_decimal bound n : 0 <= n < bound -> parse_uint bound (decimal n) = Some n.
Proof.
  intros Hn. destruct (decimal_spec n) as [Hnum Hv]; [lia|].
  pose proof (numeral_digits _ Hnum) as [Hd Hne]. unfold parse_uint.
  assert (match decimal n with 43 :: digits => digits | _ => decimal n end = decimal n) as ->.
  { destruct Hnum as [->|(b & t & He & Hb & _)]; [done|]. rewrite He. apply is_nonzero_digit_iff in Hb.
    destruct b as [|b|]; try lia. by repeat (destruct b as [b|b|]; try done; try lia). }
  rewrite bool_decide_eq_false_2, Hd, Hv by done. cbn. by destruct (Z.ltb_spec n bound); [|lia].
Qed.

Lemma parse_decimal n : is_u32 n -> parse_u32 (decimal n) = Some n.
Proof. apply parse_uint_decimal. Qed.
