(* ===== verification/Regex.v ===== *)
(** * Regular expressions: what the code uses of the [regex_lite] crate

    An expression, and what the crate documents of a search: the match that
    starts leftmost, and of those the one a backtracking matcher finds first,
    preferring the left branch of an alternative and the longest run of a
    repetition.  The crate itself is the class [RegexLite]. *)

From S2P Require Import Prelude.
Open Scope Z_scope.

Inductive Re (N : Type) : Type :=
| Chars (s : str)
| OneOf (c : Z -> bool)
| Seq (a b : Re N)
| Alt (a b : Re N)
| Opt (a : Re N)
| Many1 (c : Z -> bool)
| EndOfText
| Group (name : N) (a : Re N).
Arguments Chars {N}.
Arguments OneOf {N}.
Arguments Seq {N}.
Arguments Alt {N}.
Arguments Opt {N}.
Arguments Many1 {N}.
Arguments EndOfText {N}.
Arguments Group {N}.

(** The groups captured, the last first. *)
Abbreviation Captures N := (list (N * str)) (only parsing).

(** What is left after each run of one or more characters of [c], the longest first. *)
Fixpoint runs (c : Z -> bool) (s : str) : list str :=
  match s with
  | b :: s => if c b then runs c s ++ [s] else []
  | [] => []
  end.

(** The ways to match a prefix of [s], in the order they are tried. *)
Fixpoint exec {N : Type} (r : Re N) (caps : Captures N) (s : str) : list (Captures N * str) :=
  match r with
  | Chars t => if bool_decide (take (length t) s = t) then [(caps, drop (length t) s)] else []
  | OneOf c => match s with b :: s => if c b then [(caps, s)] else [] | [] => [] end
  | Seq a b => m ← exec a caps s; exec b m.1 m.2
  | Alt a b => exec a caps s ++ exec b caps s
  | Opt a => exec a caps s ++ [(caps, s)]
  | Many1 c => (fun s => (caps, s)) <$> runs c s
  | EndOfText => match s with [] => [(caps, s)] | _ => [] end
  | Group name a => (fun m => ((name, take (length s - length m.2) s) :: m.1, m.2)) <$> exec a caps s
  end.

Fixpoint search {N : Type} (r : Re N) (s : str) : option (Captures N) :=
  match exec r [] s, s with
  | (caps, _) :: _, _ => Some caps
  | [], [] => None
  | [], _ :: s => search r s
  end.

(** The text of a group: its last capture. *)
Definition group {N : Type} `{!EqDecision N} (name : N) (caps : Captures N) : option str :=
  snd <$> list_find (fun x => bool_decide (x.1 = name)) caps ≫= fun x => Some x.2.

Class RegexLite : Type := {
  captures : forall {N : Type}, Re N -> str -> option (Captures N);
  captures_spec : forall (N : Type) (r : Re N) s, captures r s = search r s
}.

(** ** Lemmas *)

(** A match takes [t]. *)
Definition takes (P : str -> Prop) (s s' : str) : Prop := exists t, s = t ++ s' /\ P t.

Section Lemmas.
Context {N : Type}.
Implicit Types (caps : Captures N) (s : str).

Lemma elem_of_chars t caps s m : m ∈ exec (Chars t) caps s <-> m.1 = caps /\ s = t ++ m.2.
Proof.
  destruct m as [caps' s']. cbn [exec fst snd]. destruct (decide (take (length t) s = t)) as [Ht|Ht].
  - rewrite bool_decide_eq_true_2, list_elem_of_singleton by done. split.
    + intros [= -> ->]. split; [done|]. rewrite <- (take_drop (length t) s) at 1. by rewrite Ht.
    + intros [-> ->]. f_equal. by rewrite drop_app_length.
  - rewrite bool_decide_eq_false_2 by done. split; [by intros ?%not_elem_of_nil|].
    intros [_ ->]. by rewrite take_app_length in Ht.
Qed.

Lemma elem_of_one c caps s m : m ∈ exec (OneOf c) caps s <-> exists b, c b = true /\ m.1 = caps /\ s = b :: m.2.
Proof.
  destruct m as [caps' s']. cbn [exec fst snd]. destruct s as [|b s]; [split; [by intros ?%not_elem_of_nil|by intros (b & ? & ? & ?)]|].
  destruct (c b) eqn:Hc.
  - rewrite list_elem_of_singleton. split; [intros [= -> ->]; eauto|]. by intros (b' & _ & -> & [= -> ->]).
  - split; [by intros ?%not_elem_of_nil|]. intros (b' & Hb & _ & [= -> _]). congruence.
Qed.

Lemma elem_of_seq a b caps s m : m ∈ exec (Seq a b) caps s <-> exists m', m' ∈ exec a caps s /\ m ∈ exec b m'.1 m'.2.
Proof. cbn [exec]. rewrite list_elem_of_bind. naive_solver. Qed.

Lemma elem_of_alt a b caps s m : m ∈ exec (Alt a b) caps s <-> m ∈ exec a caps s \/ m ∈ exec b caps s.
Proof. cbn [exec]. apply elem_of_app. Qed.

Lemma elem_of_opt a caps s m : m ∈ exec (Opt a) caps s <-> m ∈ exec a caps s \/ m = (caps, s).
Proof. cbn [exec]. by rewrite elem_of_app, list_elem_of_singleton. Qed.

Lemma elem_of_runs c s s' : s' ∈ runs c s <-> exists t, t <> [] /\ forallb c t = true /\ s = t ++ s'.
Proof.
  induction s as [|b s IH]; cbn [runs].
  - split; [by intros ?%not_elem_of_nil|]. intros (t & Ht & _ & Hs). by destruct t.
  - destruct (c b) eqn:Hc.
    + rewrite elem_of_app, list_elem_of_singleton, IH. split.
      * intros [(t & _ & Ht & ->)| ->]; [exists (b :: t)|exists [b]]; cbn; by rewrite Hc, ?Ht.
      * intros (t & Hne & Ht & Hs). destruct t as [|b' t]; [done|]. injection Hs as <- ->. cbn in Ht. apply andb_true_iff in Ht as [_ Ht].
        destruct t as [|b' t]; [by right|left]. by exists (b' :: t).
    + split; [by intros ?%not_elem_of_nil|]. intros (t & Hne & Ht & Hs). destruct t as [|b' t]; [done|]. injection Hs as <- ->.
      cbn in Ht. by rewrite Hc in Ht.
Qed.

Lemma elem_of_many1 c caps s m :
  m ∈ exec (Many1 c) caps s <-> m.1 = caps /\ exists t, t <> [] /\ forallb c t = true /\ s = t ++ m.2.
Proof.
  destruct m as [caps' s']. cbn [exec fst snd]. rewrite list_elem_of_fmap, <- elem_of_runs. split.
  - by intros (x & [= -> ->] & Hx).
  - intros [-> Hx]. eauto.
Qed.

Lemma elem_of_end caps s m : m ∈ exec EndOfText caps s <-> m = (caps, []) /\ s = [].
Proof.
  cbn [exec]. destruct s as [|b s]; [rewrite list_elem_of_singleton; naive_solver|].
  split; [by intros ?%not_elem_of_nil|by intros [_ ?]].
Qed.

(** A group, its expression taking what [P] says and capturing nothing. *)
Lemma elem_of_group name a (P : str -> Prop) caps s m :
  (forall caps s m, m ∈ exec a caps s <-> m.1 = caps /\ exists t, s = t ++ m.2 /\ P t) ->
  m ∈ exec (Group name a) caps s <-> exists t, s = t ++ m.2 /\ P t /\ m.1 = (name, t) :: caps.
Proof.
  intros Ha. destruct m as [caps' s']. cbn [exec fst snd]. rewrite list_elem_of_fmap. setoid_rewrite Ha.
  assert (forall t u : str, take (length (t ++ u) - length u) (t ++ u) = t) as Htake.
  { intros t u. rewrite length_app. replace (length t + length u - length u)%nat with (length t) by lia. apply take_app_length. }
  split.
  - intros ([c u] & He & Hc & t & Hs & Ht). cbn [fst snd] in *. injection He as -> ->. subst c s. exists t. by rewrite Htake.
  - intros (t & -> & Ht & ->). exists (caps, s'). cbn. rewrite Htake. split; [done|]. split; [done|]. eauto.
Qed.

(** A search finds the first match of the longest suffix that has one. *)
Lemma search_spec (r : Re N) s :
  match search r s with
  | Some caps => exists p q rest more, s = p ++ q /\ exec r [] q = (caps, rest) :: more /\
      forall p' q', s = p' ++ q' -> exec r [] q' <> [] -> (length p <= length p')%nat
  | None => forall p q, s = p ++ q -> exec r [] q = []
  end.
Proof.
  induction s as [|b s IH]; cbn [search].
  - destruct (exec r [] []) as [|[caps rest] more] eqn:He.
    + intros p q [-> ->]%symmetry%app_nil. done.
    + exists [], [], rest, more. split; [done|]. split; [done|]. intros. cbn. lia.
  - destruct (exec r [] (b :: s)) as [|[caps rest] more] eqn:He.
    + destruct (search r s) as [caps|].
      * destruct IH as (p & q & rest & more & -> & Hq & Hp). exists (b :: p), q, rest, more. split; [done|]. split; [done|].
        intros [|b' p'] q' Hs Hq'; cbn in Hs; [by rewrite <- Hs, He in Hq'|]. injection Hs as _ Hs. cbn. specialize (Hp p' q' Hs Hq'). lia.
      * intros [|b' p] q Hs; cbn in Hs; [by rewrite <- Hs|]. injection Hs as _ Hs. eauto.
    + exists [], (b :: s), rest, more. split; [done|]. split; [done|]. intros. cbn. lia.
Qed.
End Lemmas.
