(* ===== verification/Version.v ===== *)
(** * The version of the application (mullvad-version/src/lib.rs)

    A version, its order, what it is printed as, and the parser, a regular
    expression of the [regex_lite] crate whose groups are read as numbers. *)

From S2P Require Import Prelude Decimal Regex.
Open Scope Z_scope.

Inductive PreStableType : Type :=
| Alpha (n : Z)
| Beta (n : Z).
#[export] Instance PreStableType_eq_dec : EqDecision PreStableType.
Proof. solve_decision. Defined.

Record Version : Type := mkVersion {
  major : Z;
  minor : Z;
  patch : option Z;
  pre_stable : option PreStableType;
  dev : option str
}.
#[export] Instance Version_eq_dec : EqDecision Version.
Proof. solve_decision. Defined.

(** ** The order *)

(** [Ordering::then] *)
Definition then_ (a b : comparison) : comparison := match a with Eq => b | _ => a end.

(** [PreStableType::cmp] *)
Definition pre_stable_cmp (self other : PreStableType) : comparison :=
  match self, other with
  | Alpha a, Alpha b => Z.compare a b
  | Beta a, Beta b => Z.compare a b
  | Alpha _, Beta _ => Lt
  | Beta _, Alpha _ => Gt
  end.

Definition is_dev (v : Version) : bool := match dev v with Some _ => true | None => false end.
Definition is_stable (v : Version) : bool := match pre_stable v with None => negb (is_dev v) | Some _ => false end.
Definition is_beta (v : Version) : bool := match pre_stable v with Some (Beta _) => true | _ => false end.

Definition partial_cmp (self other : Version) : option comparison :=
  let type_ordering :=
    match pre_stable self, pre_stable other with
    | None, None => Eq
    | Some _, None => Lt
    | None, Some _ => Gt
    | Some self_pre_stable, Some other_pre_stable => pre_stable_cmp self_pre_stable other_pre_stable
    end in
  let dev_ordering :=
    match dev self, dev other with
    | Some _, None => Some Gt
    | None, Some _ => Some Lt
    | Some a, Some b => if bool_decide (a = b) then Some Eq else None
    | None, None => Some Eq
    end in
  let release_ordering :=
    then_ (then_ (then_ (Z.compare (major self) (major other)) (Z.compare (minor self) (minor other)))
      (Z.compare (default 0 (patch self)) (default 0 (patch other)))) type_ordering in
  match release_ordering with
  | Eq => dev_ordering
  | _ => Some release_ordering
  end.

(** The operators [<], [>] and [>=] that [PartialOrd] gives. *)
Definition version_lt (a b : Version) : bool := match partial_cmp a b with Some Lt => true | _ => false end.
Definition version_gt (a b : Version) : bool := match partial_cmp a b with Some Gt => true | _ => false end.
Definition version_ge (a b : Version) : bool := match partial_cmp a b with Some (Gt | Eq) => true | _ => false end.

(** ** Printing and parsing *)

(** [Display::fmt] *)
Definition to_string (v : Version) : str :=
  decimal (major v) ++ lit "." ++ decimal (minor v)
  ++ match patch v with Some patch => lit "." ++ decimal patch | None => [] end
  ++ match pre_stable v with
     | Some (Alpha version) => lit "-alpha" ++ decimal version
     | Some (Beta version) => lit "-beta" ++ decimal version
     | None => []
     end
  ++ match dev v with Some commit_hash => lit "-dev-" ++ commit_hash | None => [] end.

Inductive Component : Type := Major | Minor | Patch | AlphaNumber | BetaNumber | Dev.
#[export] Instance Component_eq_dec : EqDecision Component.
Proof. solve_decision. Defined.

Definition is_hex (b : Z) : bool := is_digit b || ((97 <=? b) && (b <=? 102)).

(** [c{0,n}] *)
Fixpoint up_to (n : nat) (c : Z -> bool) : Re Component :=
  match n with
  | O => Chars []
  | S n => Opt (Seq (OneOf c) (up_to n c))
  end.

(** [0|[1-9]\d{0,n}] *)
Definition number (n : nat) : Re Component := Alt (Chars (lit "0")) (Seq (OneOf is_nonzero_digit) (up_to n is_digit)).
(** [[1-9]\d?\d?] *)
Definition revision : Re Component := Seq (OneOf is_nonzero_digit) (Seq (Opt (OneOf is_digit)) (Opt (OneOf is_digit))).

Definition VERSION_REGEX : Re Component :=
  Seq (Group Major (number 3)) (Seq (Chars (lit "."))
  (Seq (Group Minor (number 1))
  (Seq (Opt (Seq (Chars (lit ".")) (Group Patch (number 1))))
  (Seq (Opt (Alt (Seq (Chars (lit "-alpha")) (Group AlphaNumber revision))
                 (Seq (Chars (lit "-beta")) (Group BetaNumber revision))))
  (Seq (Opt (Seq (Chars (lit "-dev-")) (Group Dev (Many1 is_hex))))
  EndOfText))))).

(** [captures.name(c).unwrap().as_str().parse().unwrap()] *)
Definition component {E} (c : Component) (caps : list (Component * str)) : comp E Z :=
  match group c caps ≫= parse_u32 with Some n => Ok n | None => Panic end.
(** [captures.name(c).map(|m| m.as_str().parse().unwrap())] *)
Definition optional_component {E} (c : Component) (caps : list (Component * str)) : comp E (option Z) :=
  match group c caps with
  | Some m => match parse_u32 m with Some n => Ok (Some n) | None => Panic end
  | None => Ok None
  end.

Definition from_str `{RegexLite} (version : str) : comp str Version :=
  captures ← ok_or (captures VERSION_REGEX version) (lit "Version does not match expected format: " ++ version);
  major ← component Major captures;
  minor ← component Minor captures;
  patch ← optional_component Patch captures;
  alpha ← optional_component AlphaNumber captures;
  beta ← optional_component BetaNumber captures;
  let dev := group Dev captures in
  pre_stable ← match alpha, beta with
               | None, None => Ok None
               | Some v, None => Ok (Some (Alpha v))
               | None, Some v => Ok (Some (Beta v))
               | _, _ => Err (lit "Invalid version: " ++ version)
               end;
  Ok (mkVersion major minor patch pre_stable dev).

(** ** What is parsed *)

(** The versions the expression describes. *)
Definition canonical (v : Version) : Prop :=
  0 <= major v < 10000 /\ 0 <= minor v < 100 /\
  match patch v with Some p => 0 <= p < 100 | None => True end /\
  match pre_stable v with Some (Alpha n | Beta n) => 1 <= n < 1000 | None => True end /\
  match dev v with Some h => h <> [] /\ forallb is_hex h = true | None => True end.

(** What is captured of a version, the last group first. *)
Definition captures_of (v : Version) : list (Component * str) :=
  match dev v with Some h => [(Dev, h)] | None => [] end
  ++ match pre_stable v with
     | Some (Alpha n) => [(AlphaNumber, decimal n)]
     | Some (Beta n) => [(BetaNumber, decimal n)]
     | None => []
     end
  ++ match patch v with Some p => [(Patch, decimal p)] | None => [] end
  ++ [(Minor, decimal (minor v)); (Major, decimal (major v))].

(** The decimals of the numbers from [lo] up to [hi]. *)
Definition decimals (lo hi : Z) (t : str) : Prop := exists n, t = decimal n /\ lo <= n < hi.
(** An expression that captures nothing and matches what [P] holds of. *)
Definition matches (r : Re Component) (P : str -> Prop) : Prop :=
  forall caps s m, m ∈ exec r caps s <-> m.1 = caps /\ exists t, s = t ++ m.2 /\ P t.

Lemma matches_up_to n c : matches (up_to n c) (fun t => forallb c t = true /\ (length t <= n)%nat).
Proof.
  induction n as [|n IH]; intros caps s m; cbn [up_to].
  - rewrite elem_of_chars. split; [intros [Hm Hs]; split; [done|by exists []]|].
    intros (Hm & t & -> & _ & Ht). by destruct t; [|cbn in Ht; lia].
  - rewrite elem_of_opt, elem_of_seq. split.
    + intros [(m' & (b & Hb & Hc & Hs)%elem_of_one & Hm)| ->].
      * apply IH in Hm as (Hm & t & Ht & Hd & Hl). split; [congruence|]. exists (b :: t). subst s. rewrite Ht. cbn. rewrite Hb, Hd. repeat split. lia.
      * split; [done|]. exists []. cbn. repeat split. lia.
    + intros (Hm & [|b t] & -> & Ht & Hl); [right; destruct m; cbn in *; congruence|left].
      cbn in Ht, Hl. apply andb_true_iff in Ht as [Hb Ht]. exists (caps, t ++ m.2). split.
      * apply elem_of_one. eauto.
      * apply IH. split; [done|]. exists t. repeat split; [done|lia].
Qed.

(** A digit that is not zero and [n] digits at most after it. *)
Lemma decimals_spec n (b : Z) (t : str) :
  is_nonzero_digit b = true -> forallb is_digit t = true -> (length t <= n)%nat -> decimals 1 (10 ^ (Z.of_nat n + 1)) (b :: t).
Proof.
  intros Hb Ht Hl. exists (digits_value (b :: t)). split; [symmetry; apply numeral_decimal; right; eauto|].
  rewrite digits_value_lead by done. apply is_nonzero_digit_iff in Hb. pose proof (digits_value_bound t Ht). unfold zlen in *.
  assert (10 ^ Z.of_nat (length t) <= 10 ^ Z.of_nat n) by (apply Z.pow_le_mono_r; lia).
  assert (0 < 10 ^ Z.of_nat (length t)) by (apply Z.pow_pos_nonneg; lia).
  rewrite Z.pow_add_r by lia. nia.
Qed.
Lemma decimals_inv n k t :
  decimals 1 (10 ^ (Z.of_nat n + 1)) t -> k = n -> exists b u, t = b :: u /\ is_nonzero_digit b = true /\ forallb is_digit u = true /\ (length u <= k)%nat.
Proof.
  intros (x & -> & Hx) ->. destruct (decimal_spec x) as [[Hz|(b & u & He & Hb & Hu)] Hv]; [lia| |].
  - rewrite Hz in Hv. change (digits_value [48]) with 0 in Hv. lia.
  - exists b, u. split; [done|]. split; [done|]. split; [done|]. pose proof (decimal_length x n) as Hl. rewrite He in Hl. cbn in Hl. lia.
Qed.

Lemma matches_number n : matches (number n) (decimals 0 (10 ^ (Z.of_nat n + 1))).
Proof.
  intros caps s m. unfold number. rewrite elem_of_alt, elem_of_chars, elem_of_seq.
  assert (0 < 10 ^ (Z.of_nat n + 1)) by (apply Z.pow_pos_nonneg; lia). split.
  - intros [[Hm Hs]|(m' & (b & Hb & Hc & Hs)%elem_of_one & (Hm & t & Ht & Hd & Hl)%matches_up_to)].
    + split; [done|]. exists (lit "0"). split; [done|]. exists 0. repeat split; lia.
    + split; [congruence|]. exists (b :: t). subst s. rewrite Ht. split; [done|].
      destruct (decimals_spec n b t) as (k & He & Hk); try done. exists k. split; [done|lia].
  - intros (Hm & t & -> & x & -> & Hx). destruct (Z.eq_dec x 0) as [->|Hz]; [by left|right].
    destruct (decimals_inv n n (decimal x)) as (b & u & He & Hb & Hu & Hl); [exists x; split; [done|lia]|done|].
    rewrite He. exists (caps, u ++ m.2). split; [apply elem_of_one; eauto|]. apply matches_up_to. eauto.
Qed.

Lemma matches_opt_one c : matches (Opt (OneOf c)) (fun t => forallb c t = true /\ (length t <= 1)%nat).
Proof.
  intros caps s m. rewrite elem_of_opt, elem_of_one. split.
  - intros [(b & Hb & Hm & ->)| ->]; [split; [done|]; exists [b]; cbn; by rewrite Hb|split; [done|]; exists []; cbn; split; [done|]; split; [done|lia]].
  - intros (Hm & [|b [|b' t]] & -> & Ht & Hl); [right; destruct m; cbn in *; congruence| |cbn in Hl; lia].
    left. cbn in Ht. rewrite andb_true_r in Ht. by exists b.
Qed.

Lemma matches_revision : matches revision (decimals 1 1000).
Proof.
  intros caps s m. unfold revision. rewrite elem_of_seq. split.
  - intros (m' & (b & Hb & Hc & Hs)%elem_of_one & (m'' & H1 & H2)%elem_of_seq).
    apply matches_opt_one in H1 as (H1 & t & Ht & Hd & Hl), H2 as (H2 & u & Hu & He & Hk).
    split; [congruence|]. exists (b :: t ++ u). subst s. rewrite Ht, Hu, app_assoc. split; [done|].
    apply (decimals_spec 2); [done|by rewrite forallb_app, Hd, He|rewrite length_app; lia].
  - intros (Hm & t & -> & Ht). destruct (decimals_inv 2 2 _ Ht eq_refl) as (b & u & -> & Hb & Hu & Hl).
    exists (caps, u ++ m.2). split; [apply elem_of_one; eauto|]. apply elem_of_seq.
    destruct u as [|c u]; [|cbn in Hu; apply andb_true_iff in Hu as [Hc Hu]].
    + exists (caps, m.2). split; apply matches_opt_one; (split; [done|]); exists []; repeat split; cbn; lia.
    + exists (caps, u ++ m.2). split; apply matches_opt_one; (split; [done|]); [exists [c]|exists u]; cbn; rewrite ?Hc; repeat split; try done; cbn in Hl; lia.
Qed.

Lemma matches_hex : matches (Many1 is_hex) (fun t => t <> [] /\ forallb is_hex t = true).
Proof. intros caps s m. rewrite elem_of_many1. naive_solver. Qed.

(** A group after a literal, both optional. *)
Definition suffix (l : str) (o : option str) : str := match o with Some t => l ++ t | None => [] end.
Definition captured (c : Component) (o : option str) : list (Component * str) := match o with Some t => [(c, t)] | None => [] end.

Lemma elem_of_prefixed l c r P caps s m :
  matches r P ->
  m ∈ exec (Seq (Chars l) (Group c r)) caps s <-> exists t, P t /\ s = l ++ t ++ m.2 /\ m.1 = (c, t) :: caps.
Proof.
  intros Hr. rewrite elem_of_seq. setoid_rewrite elem_of_chars. setoid_rewrite (elem_of_group c r P _ _ _ Hr). split.
  - intros ([caps' s'] & [Hc Hs] & t & Ht & HP & Hm). cbn [fst snd] in *. subst. eauto.
  - intros (t & HP & -> & Hm). exists (caps, t ++ m.2). eauto 10.
Qed.

Lemma elem_of_optional l c r P caps s m :
  matches r P ->
  m ∈ exec (Opt (Seq (Chars l) (Group c r))) caps s <->
  exists o, (match o with Some t => P t | None => True end) /\ s = suffix l o ++ m.2 /\ m.1 = captured c o ++ caps.
Proof.
  intros Hr. rewrite elem_of_opt, (elem_of_prefixed l c r P) by done. split.
  - intros [(t & HP & Hs & Hm)| ->]; [exists (Some t); cbn; by rewrite <- app_assoc|by exists None].
  - intros ([t|] & HP & Hs & Hm); [left|right]; cbn in *; [exists t; by rewrite <- app_assoc in Hs|]. subst. by destruct m.
Qed.

Lemma elem_of_pre_stable caps s m :
  m ∈ exec (Opt (Alt (Seq (Chars (lit "-alpha")) (Group AlphaNumber revision)) (Seq (Chars (lit "-beta")) (Group BetaNumber revision)))) caps s <->
  exists o, match o with Some (Alpha n | Beta n) => 1 <= n < 1000 | None => True end /\
    s = match o with Some (Alpha n) => lit "-alpha" ++ decimal n | Some (Beta n) => lit "-beta" ++ decimal n | None => [] end ++ m.2 /\
    m.1 = match o with Some (Alpha n) => [(AlphaNumber, decimal n)] | Some (Beta n) => [(BetaNumber, decimal n)] | None => [] end ++ caps.
Proof.
  rewrite elem_of_opt, elem_of_alt, !(elem_of_prefixed _ _ _ _ _ _ _ matches_revision). split.
  - intros [[(t & (n & -> & Hn) & Hs & Hm)|(t & (n & -> & Hn) & Hs & Hm)]| ->];
      [exists (Some (Alpha n))|exists (Some (Beta n))|by exists None]; by rewrite <- app_assoc.
  - intros ([[n|n]|] & Hn & Hs & Hm); [left; left|left; right|right].
    1-2: exists (decimal n); rewrite <- app_assoc in Hs; split; [by exists n|done].
    cbn in *. subst. by destruct m.
Qed.

Lemma elem_of_main c n caps s m :
  m ∈ exec (Group c (number n)) caps s <-> exists k, 0 <= k < 10 ^ (Z.of_nat n + 1) /\ s = decimal k ++ m.2 /\ m.1 = (c, decimal k) :: caps.
Proof.
  rewrite (elem_of_group c (number n) _ _ _ _ (matches_number n)). split.
  - intros (t & -> & (k & -> & Hk) & Hm). eauto.
  - intros (k & Hk & -> & Hm). exists (decimal k). split; [done|]. split; [by exists k|done].
Qed.

(** The expression matches a text exactly when it is a version's, and captures that version. *)
Lemma version_regex_spec q m :
  m ∈ exec VERSION_REGEX [] q <-> exists v, canonical v /\ q = to_string v /\ m = (captures_of v, []).
Proof.
  unfold VERSION_REGEX. rewrite elem_of_seq. setoid_rewrite elem_of_main.
  setoid_rewrite elem_of_seq. setoid_rewrite elem_of_chars. setoid_rewrite elem_of_seq. setoid_rewrite elem_of_main.
  setoid_rewrite elem_of_seq. setoid_rewrite (elem_of_optional _ _ _ _ _ _ _ (matches_number 1)).
  setoid_rewrite elem_of_seq. setoid_rewrite elem_of_pre_stable.
  setoid_rewrite elem_of_seq. setoid_rewrite (elem_of_optional _ _ _ _ _ _ _ matches_hex). setoid_rewrite elem_of_end. split.
  - intros ([c1 s1] & (a & Ha & -> & H1) & [c2 s2] & [H2 H2'] & [c3 s3] & (b & Hb & H3 & H3') & [c4 s4] & (p & Hp & H4 & H4') &
      [c5 s5] & (o & Ho & H5 & H5') & [c6 s6] & (d & Hd & H6 & H6') & -> & H7). cbn [fst snd] in *. subst.
    assert (exists k, p = decimal <$> k /\ match k with Some k => 0 <= k < 100 | None => True end) as (k & -> & Hk).
    { destruct p as [p|]; [destruct Hp as (k & -> & Hk); by exists (Some k)|by exists None]. }
    exists (mkVersion a b k o d). split; [split; [done|]; split; [done|]; split; [done|]; split; done|]. unfold to_string, captures_of. cbn [major minor patch pre_stable dev].
    rewrite app_nil_r. split; [by destruct k, d|]. f_equal. by destruct k, d, o as [[|]|].
  - intros ([a b p o d] & (Ha & Hb & Hp & Ho & Hd) & -> & ->). cbn [major minor patch pre_stable dev] in *. unfold to_string, captures_of. cbn [major minor patch pre_stable dev].
    set (s5 := match d with Some commit_hash => lit "-dev-" ++ commit_hash | None => [] end).
    set (s4 := match o with Some (Alpha version) => lit "-alpha" ++ decimal version | Some (Beta version) => lit "-beta" ++ decimal version | None => [] end ++ s5).
    set (s3 := match p with Some patch => lit "." ++ decimal patch | None => [] end ++ s4).
    set (s2 := decimal b ++ s3). set (c1 := [(Major, decimal a)]). set (c2 := (Minor, decimal b) :: c1). set (c3 := captured Patch (decimal <$> p) ++ c2).
    exists (c1, lit "." ++ s2). split; [by exists a|]. exists (c1, s2). split; [done|].
    exists (c2, s3). split; [by exists b|]. exists (c3, s4). split; [exists (decimal <$> p); split; [destruct p as [p|]; [by exists p|done]|by destruct p]|].
    eexists (_, s5). split; [exists o; split; [exact Ho|split; reflexivity]|]. cbn [fst snd].
    eexists (_, []). split; [exists d; split; [exact Hd|]; split; [symmetry; apply app_nil_r|reflexivity]|]. subst c3 c2 c1.
    split; [|done]. f_equal. by destruct d, o as [[|]|], p.
Qed.

(** A run of digits ends where the next character is none. *)
Definition stops (r : str) : Prop := match r with b :: _ => is_digit b = false | [] => True end.

Lemma decimal_span a b r s : 0 <= a -> 0 <= b -> stops r -> stops s -> decimal a ++ r = decimal b ++ s -> a = b /\ r = s.
Proof.
  assert (forall t u r s, forallb is_digit t = true -> forallb is_digit u = true -> stops r -> stops s -> t ++ r = u ++ s -> t = u /\ r = s) as Hspan.
  { induction t as [|x t IH]; intros [|y u] r' s' Ht Hu Hr Hs He; cbn in *.
    - done.
    - subst r'. cbn in Hr. by rewrite Hr in Hu.
    - subst s'. cbn in Hs. by rewrite Hs in Ht.
    - injection He as -> He. apply andb_true_iff in Ht as [_ Ht], Hu as [_ Hu]. destruct (IH u r' s') as [-> ->]; done. }
  intros Ha Hb Hr Hs He. apply Hspan in He as [He ->]; [|by apply numeral_digits, decimal_spec..|done|done].
  split; [by apply decimal_inj|done].
Qed.

Definition dev_text (d : option str) : str := suffix (lit "-dev-") d.
Definition pre_stable_text (o : option PreStableType) : str :=
  match o with Some (Alpha n) => lit "-alpha" ++ decimal n | Some (Beta n) => lit "-beta" ++ decimal n | None => [] end.

Lemma literals : lit "." = [46] /\ lit "-alpha" = [45; 97; 108; 112; 104; 97] /\ lit "-beta" = [45; 98; 101; 116; 97] /\ lit "-dev-" = [45; 100; 101; 118; 45].
Proof. done. Qed.

Lemma pre_stable_text_inj o o' d d' :
  match o with Some (Alpha n | Beta n) => 1 <= n < 1000 | None => True end ->
  match o' with Some (Alpha n | Beta n) => 1 <= n < 1000 | None => True end ->
  pre_stable_text o ++ dev_text d = pre_stable_text o' ++ dev_text d' -> o = o' /\ d = d'.
Proof.
  destruct literals as (_ & Ha & Hb & Hd). unfold pre_stable_text, dev_text, suffix. rewrite Ha, Hb, Hd. intros Ho Ho' He.
  assert (stops (dev_text d) /\ stops (dev_text d')) as [Hs Hs'] by (destruct d, d'; done). unfold dev_text, suffix in Hs, Hs'. rewrite Hd in Hs, Hs'.
  assert (match d with Some t => [45; 100; 101; 118; 45] ++ t | None => [] end = match d' with Some t => [45; 100; 101; 118; 45] ++ t | None => [] end -> d = d') as Hdev.
  { destruct d, d'; try done. intros Heq. injection Heq as ->. done. }
  destruct o as [[n|n]|], o' as [[n'|n']|]; cbn in He; try (destruct d, d'; discriminate He); try (by split; [|apply Hdev]).
  all: injection He as He; apply decimal_span in He as [-> He]; try done; try lia; by split; [|apply Hdev].
Qed.

Lemma to_string_inj v w : canonical v -> canonical w -> to_string v = to_string w -> v = w.
Proof.
  destruct v as [a b p o d], w as [a' b' p' o' d']. intros (Ha & Hb & Hp & Ho & _) (Ha' & Hb' & Hp' & Ho' & _).
  cbn [major minor patch pre_stable] in *. unfold to_string. cbn [major minor patch pre_stable dev].
  fold (pre_stable_text o) (pre_stable_text o') (suffix (lit "-dev-") d) (suffix (lit "-dev-") d'). fold (dev_text d) (dev_text d').
  assert (forall o d, stops (pre_stable_text o ++ dev_text d)) as Hs by (intros [[|]|] [|]; done).
  assert (forall p o d, stops (match p with Some p => lit "." ++ decimal p | None => [] end ++ pre_stable_text o ++ dev_text d)) as Hsp
    by (intros [|] [[|]|] [|]; done).
  intros He. apply decimal_span in He as [-> He]; [|lia..|done|done].
  apply app_inv_head in He. apply decimal_span in He as [-> He]; [|lia..|apply Hsp|apply Hsp].
  assert (p = p' /\ pre_stable_text o ++ dev_text d = pre_stable_text o' ++ dev_text d') as [-> Ht].
  { destruct p as [p|], p' as [p'|]; [|destruct o' as [[|]|], d'; discriminate He|destruct o as [[|]|], d; discriminate He|done].
    rewrite <- !app_assoc in He. apply app_inv_head in He. apply decimal_span in He as [-> He]; [done|lia..|apply Hs|apply Hs]. }
  by apply pre_stable_text_inj in Ht as [-> ->].
Qed.

(** What is read of the groups of a version. *)
Lemma from_captures `{RegexLite} s v :
  canonical v -> captures VERSION_REGEX s = Some (captures_of v) -> from_str s = Ok v.
Proof.
  intros Hv Hc. unfold from_str. rewrite Hc. destruct v as [a b p o d]. destruct Hv as (Ha & Hb & Hp & Ho & _).
  assert (forall E n (x : Component) caps, 0 <= n < 10000 -> group x caps = Some (decimal n) -> @component E x caps = Ok n) as Hcomp.
  { intros E n x caps Hn Hg. unfold component. rewrite Hg. change (Some (decimal n) ≫= parse_u32) with (parse_u32 (decimal n)). rewrite parse_decimal; [done|unfold is_u32; lia]. }
  assert (forall E (n : option Z) (x : Component) caps, match n with Some n => 0 <= n < 10000 | None => True end -> group x caps = decimal <$> n ->
    @optional_component E x caps = Ok n) as Hopt.
  { intros E [n|] x caps Hn Hg; unfold optional_component; rewrite Hg; [|done]. change (decimal <$> Some n) with (Some (decimal n)). cbv beta iota. rewrite parse_decimal; [done|unfold is_u32; lia]. }
  cbn [ok_or]. rewrite bind_Ok. cbn [major minor patch pre_stable dev] in *.
  rewrite (Hcomp _ a Major), bind_Ok; [|done|by destruct d, o as [[|]|], p]. rewrite (Hcomp _ b Minor), bind_Ok; [|lia|by destruct d, o as [[|]|], p].
  rewrite (Hopt _ p Patch), bind_Ok; [|destruct p; lia|by destruct d, o as [[|]|], p].
  rewrite (Hopt _ (match o with Some (Alpha n) => Some n | _ => None end) AlphaNumber), bind_Ok; [|destruct o as [[|]|]; try done; lia|by destruct d, o as [[|]|], p].
  rewrite (Hopt _ (match o with Some (Beta n) => Some n | _ => None end) BetaNumber), bind_Ok; [|destruct o as [[|]|]; try done; lia|by destruct d, o as [[|]|], p].
  destruct o as [[|]|]; rewrite bind_Ok; repeat f_equal; by destruct d, p.
Qed.

Lemma from_str_no_panic `{RegexLite} s : no_panic (from_str s).
Proof.
  pose proof (search_spec VERSION_REGEX s) as Hs. rewrite <- captures_spec in Hs. destruct (captures VERSION_REGEX s) as [caps|] eqn:Hc.
  - destruct Hs as (p & q & rest & more & _ & He & _). assert ((caps, rest) ∈ exec VERSION_REGEX [] q) as Hin by (rewrite He; left).
    apply version_regex_spec in Hin as (v & Hv & _ & [= -> ->]). by rewrite (from_captures s v).
  - unfold from_str. by rewrite Hc.
Qed.

(** A version is read from the longest suffix of the text that is one: the parser never panics, what comes before that suffix is ignored, a text is refused exactly when no suffix is a version, and what a version prints as is read back as that version. *)
Theorem from_str_reads_suffix `{RegexLite} (s : str) :
  match from_str s with
  | Ok v => canonical v /\ exists p, s = p ++ to_string v /\
      forall p' v', canonical v' -> s = p' ++ to_string v' -> (length p <= length p')%nat
  | Err e => e = lit "Version does not match expected format: " ++ s /\ forall p v, canonical v -> s <> p ++ to_string v
  | Panic => False
  end /\ (forall v, canonical v -> s = to_string v -> from_str s = Ok v).
Proof.
  pose proof (search_spec VERSION_REGEX s) as Hs. rewrite <- captures_spec in Hs.
  assert (forall v, canonical v -> (captures_of v, []) ∈ exec VERSION_REGEX [] (to_string v)) as Hmatch by (intros v Hv; apply version_regex_spec; eauto).
  destruct (captures VERSION_REGEX s) as [caps|] eqn:Hc.
  - destruct Hs as (p & q & rest & more & Hs & He & Hp). assert ((caps, rest) ∈ exec VERSION_REGEX [] q) as Hin by (rewrite He; left).
    apply version_regex_spec in Hin as (v & Hv & Hq & [= -> ->]). rewrite (from_captures s v) by done. split.
    + split; [done|]. exists p. split; [congruence|]. intros p' v' Hv' Hs'. apply (Hp p' (to_string v')); [done|].
      intros Hn. specialize (Hmatch v' Hv'). rewrite Hn in Hmatch. by apply not_elem_of_nil in Hmatch.
    + intros w Hw Hsw. f_equal. apply to_string_inj; [done..|]. rewrite <- Hsw, <- Hq.
      assert (length p <= 0)%nat as Hl. { apply (Hp [] s); [done|]. intros Hn. specialize (Hmatch w Hw). rewrite <- Hsw, Hn in Hmatch. by apply not_elem_of_nil in Hmatch. }
      destruct p; [done|cbn in Hl; lia].
  - unfold from_str. rewrite Hc. cbn. split; [split; [done|]|].
    + intros p v Hv ->. specialize (Hmatch v Hv). rewrite (Hs p (to_string v)) in Hmatch by done. by apply not_elem_of_nil in Hmatch.
    + intros v Hv ->. specialize (Hmatch v Hv). rewrite (Hs [] (to_string v)) in Hmatch by done. by apply not_elem_of_nil in Hmatch.
Qed.

(** ** The order is one *)

(** The lexicographic order of lists of one length. *)
Fixpoint lex (a b : list Z) : comparison :=
  match a, b with
  | x :: a, y :: b => then_ (Z.compare x y) (lex a b)
  | _, _ => Eq
  end.

Lemma lex_opp a b : lex b a = CompOpp (lex a b).
Proof. revert b. induction a as [|x a IH]; intros [|y b]; cbn; try done. rewrite (Z.compare_antisym x y), IH. by destruct (x ?= y). Qed.

Lemma lex_eq a b : length a = length b -> lex a b = Eq <-> a = b.
Proof.
  revert b. induction a as [|x a IH]; intros [|y b] Hl; cbn in *; try done. injection Hl as Hl. specialize (IH b Hl).
  destruct (Z.compare_spec x y); cbn; split; intros He; try done; try (injection He; lia); [|injection He as ->; by apply IH].
  f_equal; [done|by apply IH].
Qed.

Lemma lex_trans o a b c : length a = length b -> length b = length c -> lex a b = o -> lex b c = o -> lex a c = o.
Proof.
  revert b c. induction a as [|x a IH]; intros [|y b] [|z c] Hl Hl' H1 H2; cbn in *; try done.
  injection Hl as Hl. injection Hl' as Hl'. specialize (IH b c Hl Hl').
  destruct (Z.compare_spec x y), (Z.compare_spec y z), (Z.compare_spec x z); cbn in *; subst; try done; try lia; auto.
Qed.

(** What of a version the order looks at first, the missing patch read as 0. *)
Definition release (v : Version) : list Z :=
  let p := match pre_stable v with Some (Alpha n) => (0, n) | Some (Beta n) => (1, n) | None => (2, 0) end in
  [major v; minor v; default 0 (patch v); p.1; p.2].
Definition dev_ordering (a b : Version) : option comparison :=
  match dev a, dev b with
  | Some _, None => Some Gt
  | None, Some _ => Some Lt
  | Some a, Some b => if bool_decide (a = b) then Some Eq else None
  | None, None => Some Eq
  end.

Lemma partial_cmp_lex a b :
  partial_cmp a b = match lex (release a) (release b) with Eq => dev_ordering a b | o => Some o end.
Proof.
  unfold partial_cmp, release, dev_ordering. cbn [lex fst snd]. destruct (major a ?= major b), (minor a ?= minor b); cbn [then_]; try done.
  destruct (default 0 (patch a) ?= default 0 (patch b)); cbn [then_]; try done.
  destruct (pre_stable a) as [[x|x]|], (pre_stable b) as [[y|y]|]; cbn; try done; by destruct (x ?= y).
Qed.

Lemma release_inj a b : release a = release b <-> major a = major b /\ minor a = minor b /\ default 0 (patch a) = default 0 (patch b) /\ pre_stable a = pre_stable b.
Proof.
  unfold release. split; [|by intros (-> & -> & -> & ->)]. intros He. injection He as -> -> -> Hr Hn. repeat split.
  destruct (pre_stable a) as [[|]|], (pre_stable b) as [[|]|]; cbn in *; congruence.
Qed.

Lemma lex_release a b : lex (release a) (release b) = Eq <-> release a = release b.
Proof. by apply lex_eq. Qed.

(** Versions of no development build are totally ordered. *)
Lemma partial_cmp_no_dev a b : dev a = None -> dev b = None -> partial_cmp a b = Some (lex (release a) (release b)).
Proof. intros Ha Hb. rewrite partial_cmp_lex. unfold dev_ordering. rewrite Ha, Hb. by destruct (lex _ _). Qed.

(** Versions are partially ordered: comparing them the other way gives the opposite, the relation is transitive both ways, two versions rank the same exactly when they differ at most by a patch of 0 that one does not write, and the only versions that cannot be compared are two development builds of one release. *)
Theorem versions_are_ordered (a b c : Version) :
  partial_cmp b a = CompOpp <$> partial_cmp a b /\
  (partial_cmp a b = Some Eq <-> major a = major b /\ minor a = minor b /\ default 0 (patch a) = default 0 (patch b) /\
     pre_stable a = pre_stable b /\ dev a = dev b) /\
  (partial_cmp a b = None <-> major a = major b /\ minor a = minor b /\ default 0 (patch a) = default 0 (patch b) /\
     pre_stable a = pre_stable b /\ is_Some (dev a) /\ is_Some (dev b) /\ dev a <> dev b) /\
  (forall o, partial_cmp a b = Some o -> partial_cmp b c = Some o -> partial_cmp a c = Some o).
Proof.
  pose proof lex_release as Heq.
  assert (forall a b, dev_ordering a b = Some Eq <-> dev a = dev b) as Hdev.
  { intros x y. unfold dev_ordering. destruct (dev x), (dev y); try done. case_bool_decide; naive_solver. }
  split; [|split; [|split]].
  - rewrite !partial_cmp_lex, (lex_opp (release a)). destruct (lex (release a) (release b)); cbn; try done. unfold dev_ordering.
    destruct (dev a), (dev b); try done. do 2 case_bool_decide; done || congruence.
  - rewrite partial_cmp_lex. pose proof (release_inj a b). specialize (Heq a b). specialize (Hdev a b).
    destruct (lex (release a) (release b)); naive_solver.
  - rewrite partial_cmp_lex. pose proof (release_inj a b). specialize (Heq a b). unfold dev_ordering.
    destruct (lex (release a) (release b)); [|naive_solver..]. destruct (dev a) as [h|], (dev b) as [k|]; try case_bool_decide; naive_solver.
  - intros o. rewrite !partial_cmp_lex. intros H1 H2.
    destruct (lex (release a) (release b)) eqn:Hab, (lex (release b) (release c)) eqn:Hbc; try congruence.
    + apply Heq in Hab, Hbc. rewrite Hab, Hbc, (proj2 (Heq c c) eq_refl). unfold dev_ordering in *.
      destruct (dev a) as [x|], (dev b) as [y|], (dev c) as [z|]; try congruence; repeat case_bool_decide; congruence.
    + apply Heq in Hab. by rewrite Hab, Hbc.
    + apply Heq in Hab. by rewrite Hab, Hbc.
    + apply Heq in Hbc. by rewrite <- Hbc, Hab.
    + by rewrite (lex_trans Lt (release a) (release b) (release c)).
    + apply Heq in Hbc. by rewrite <- Hbc, Hab.
    + by rewrite (lex_trans Gt (release a) (release b) (release c)).
Qed.
