(* ===== verification/Update.v ===== *)
(** * The update manifest (mullvad-update/src)

    The signed manifest and its verification (format/deserializer.rs), the
    rollouts (version/rollout.rs), what is offered of the releases it lists and
    whether the running version may go on (version/info.rs), and the answers
    the phones take from it (warren-jni/src/version_check.rs,
    warren-ios/src/warren_version_ffi.rs).

    The JSON and signature libraries, SHA-256, the generator of random numbers
    and the hexadecimal decoder are classes.  A [Rollout] is a finite [f32]
    that is not negative, in units of 2^-149, its last place. *)

From S2P Require Import Prelude Decimal Regex Version.
Open Scope Z_scope.

(** ** The manifest *)

Inductive Architecture : Type := X86 | Arm64.
#[export] Instance Architecture_eq_dec : EqDecision Architecture.
Proof. solve_decision. Defined.

Record Installer : Type := mkInstaller {
  installer_architecture : Architecture;
  installer_urls : list str;
  installer_size : Z;
  installer_sha256 : str;
  installer_package_format : option str
}.

Abbreviation Rollout := Z (only parsing).
Definition IGNORE : Rollout := 0.
Definition SUPPORTED_VERSION : Rollout := 2 ^ 126.
Definition FULLY_ROLLED_OUT : Rollout := 2 ^ 149.

Record Release : Type := mkRelease {
  release_version : Version;
  release_changelog : str;
  release_changelog_translations : gmap str str;
  release_installers : list Installer;
  release_rollout : Rollout
}.

Record Response : Type := mkResponse {
  metadata_version : Z;
  metadata_expiry : Z;
  minimum_supported_version : option Version;
  releases : list Release
}.

Abbreviation VerifyingKey := bytes (only parsing).
Inductive ResponseSignature : Type :=
| Ed25519 (keyid : VerifyingKey) (sig : bytes)
| OtherSignature (keyid sig : str).

(** What the libraries do with the bytes of a manifest. *)
Class ManifestFormat : Type := {
  JsonValue : Type;
  (* [serde_json::from_slice] of a [PartialSignedResponse] *)
  partial_from_slice : bytes -> option (list ResponseSignature * JsonValue);
  (* [json_canon::to_vec] *)
  canon_to_vec : JsonValue -> option bytes;
  (* [serde_json::from_slice] of a value *)
  value_from_slice : bytes -> option JsonValue;
  (* [serde_json::from_value] of a [Response] *)
  response_from_value : JsonValue -> option Response;
  (* [VerifyingKey::verify_strict] *)
  verify_strict : VerifyingKey -> bytes -> bytes -> bool
}.

Inductive UpdateError : Type :=
| InvalidVersionJson
| UnrecognizedKey
| CanonicalizationFailed
| SignatureVerificationFailed
| InvalidCanonicalJson
| InvalidResponse
| MetadataExpired (valid_until : Z)
| MetadataTooOld (version at_least : Z)
| DuplicateVersions
| InvalidChecksumHex
| InvalidChecksumLength
| NoStableVersion.

Record SignedResponse : Type := mkSignedResponse {
  signatures : list ResponseSignature;
  signed : Response
}.

Section Manifest.
Context `{ManifestFormat}.

(** The first signature made with a key of [valid_keys]. *)
Fixpoint first_matching (valid_keys : list VerifyingKey) (sigs : list ResponseSignature) : option (VerifyingKey * bytes) :=
  match sigs with
  | Ed25519 keyid sig :: sigs => if bool_decide (keyid ∈ valid_keys) then Some (keyid, sig) else first_matching valid_keys sigs
  | OtherSignature _ _ :: sigs => first_matching valid_keys sigs
  | [] => None
  end.

Definition deserialize_and_verify (keys : list VerifyingKey) (bytes : bytes) : comp UpdateError (list ResponseSignature * JsonValue) :=
  partial_data ← ok_or (partial_from_slice bytes) InvalidVersionJson;
  key_sig ← ok_or (first_matching keys partial_data.1) UnrecognizedKey;
  canon_data ← ok_or (canon_to_vec partial_data.2) CanonicalizationFailed;
  if negb (verify_strict key_sig.1 canon_data key_sig.2) then Err SignatureVerificationFailed else
  signed ← ok_or (value_from_slice canon_data) InvalidCanonicalJson;
  Ok (partial_data.1, signed).

Definition deserialize_and_verify_at_time (keys : list VerifyingKey) (bytes : bytes) (current_time : Z) (min_metadata_version : Z)
    : comp UpdateError SignedResponse :=
  partial_data ← deserialize_and_verify keys bytes;
  signed_response ← ok_or (response_from_value partial_data.2) InvalidResponse;
  if metadata_expiry signed_response <=? current_time then Err (MetadataExpired (metadata_expiry signed_response)) else
  if metadata_version signed_response <? min_metadata_version
  then Err (MetadataTooOld (metadata_version signed_response) min_metadata_version) else
  Ok (mkSignedResponse partial_data.1 signed_response).
End Manifest.

(** ** Rollouts *)

Class RolloutHash : Type := {
  Sha256 : bytes -> bytes;
  Sha256_length : forall b, length (Sha256 b) = 32%nat;
  (* [SmallRng::from_seed(seed).random_range(lo..=hi)] *)
  random_range : bytes -> Rollout -> Rollout -> Rollout;
  random_range_in : forall seed lo hi, lo <= hi -> lo <= random_range seed lo hi <= hi
}.

(** [Rollout::try_from], of a finite number *)
Definition rollout_try_from (rollout : Rollout) : option Rollout :=
  if (0 <=? rollout) && (rollout <=? FULLY_ROLLED_OUT) then Some rollout else None.

(** [Rollout::threshold], its two [expect]s panicking *)
Definition threshold {E} `{RolloutHash} (rollout_threshold_seed : Z) (version : Version) : comp E Rollout :=
  let hash := Sha256 (decimal rollout_threshold_seed ++ to_string version) in
  if zlen hash <? 32 then Panic else
  match rollout_try_from (random_range (take 32 hash) SUPPORTED_VERSION FULLY_ROLLED_OUT) with
  | Some threshold => Ok threshold
  | None => Panic
  end.

(** ** What is offered *)

Record VersionParameters : Type := mkVersionParameters {
  architecture : Architecture;
  rollout : Rollout;
  allow_empty : bool;
  lowest_metadata_version : Z;
  package_format : option str
}.

Record Metadata : Type := mkMetadata {
  version : Version;
  urls : list str;
  size : Z;
  changelog : str;
  changelog_translations : gmap str str;
  sha256 : bytes
}.
#[export] Instance Metadata_eq_dec : EqDecision Metadata.
Proof. solve_decision. Defined.

Record VersionInfo : Type := mkVersionInfo {
  stable : Metadata;
  beta : option Metadata
}.

(** [hex::decode] *)
Class HexDecode : Type := { hex_decode : str -> option bytes }.

(** [Iterator::max_by]: the last of the greatest. *)
Definition max_by {A} (cmp : A -> A -> comparison) (l : list A) : option A :=
  match l with
  | [] => None
  | x :: l => Some (fold_left (fun x y => match cmp x y with Gt => x | _ => y end) l x)
  end.

(** [a.partial_cmp(&b).unwrap_or(Ordering::Equal)] *)
Definition cmp_or_equal (a b : Version) : comparison := default Eq (partial_cmp a b).

Section Info.
Context `{HexDecode}.

(** The installer of this system: for its architecture and its package format. *)
Definition installs (params : VersionParameters) (i : Installer) : bool :=
  bool_decide (architecture params = installer_architecture i) && bool_decide (package_format params = installer_package_format i).

(** What a release becomes, nothing where it has no installer and that is not allowed. *)
Definition metadata_of (params : VersionParameters) (r : Release) : option (comp UpdateError Metadata) :=
  match List.find (installs params) (release_installers r) with
  | None =>
      if allow_empty params
      then Some (Ok (mkMetadata (release_version r) [] 0 (release_changelog r) (release_changelog_translations r) (replicate 32 0)))
      else None
  | Some i =>
      Some (hash ← ok_or (hex_decode (installer_sha256 i)) InvalidChecksumHex;
            if negb (bool_decide (length hash = 32%nat)) then Err InvalidChecksumLength else
            Ok (mkMetadata (release_version r) (installer_urls i) (installer_size i) (release_changelog r)
                  (release_changelog_translations r) hash))
  end.

(** [try_collect]: the first error, or every value. *)
Fixpoint try_collect {E A} (l : list (comp E A)) : comp E (list A) :=
  match l with
  | [] => Ok []
  | m :: l => a ← m; as_ ← try_collect l; Ok (a :: as_)
  end.

(** The releases rolled out to this client, the development builds left out. *)
Definition rolled_out (params : VersionParameters) (r : Release) : bool :=
  (rollout params <=? release_rollout r) && negb (is_dev (release_version r)).

Definition no_pre_stable (v : Version) : bool := match pre_stable v with None => true | Some _ => false end.
Definition max_version (l : list Metadata) : option Metadata := max_by (fun a b => cmp_or_equal (version a) (version b)) l.

Definition try_from_response (params : VersionParameters) (response : Response) : comp UpdateError VersionInfo :=
  if negb (bool_decide (NoDup (release_version <$> releases response))) then Err DuplicateVersions else
  available_versions ← try_collect (omap (metadata_of params) (List.filter (rolled_out params) (releases response)));
  stable ← ok_or (max_version (List.filter (fun m => no_pre_stable (version m)) available_versions)) NoStableVersion;
  let beta := max_version (List.filter (fun m => version_gt (version m) (version stable))
                             (List.filter (fun m => is_beta (version m)) available_versions)) in
  Ok (mkVersionInfo stable beta).
End Info.

(** ** Whether the running version may go on *)

Definition is_version_supported (current_version : Version) (response : Response) : bool :=
  existsb (fun r => bool_decide (release_version r = current_version)) (releases response).

Definition is_current_version_supported (current_version : Version) (response : Response) : bool :=
  if is_dev current_version then true else
  match minimum_supported_version response with
  | Some minimum => version_ge current_version minimum
  | None =>
      is_version_supported current_version response
      || forallb (fun r => version_gt current_version (release_version r)) (releases response)
  end.

(** The upgrade the desktop suggests (mullvad-daemon/src/version/router.rs). *)
Definition recommended_version_upgrade (current_version : Version) (version_info : VersionInfo) (beta_program : bool) : option Metadata :=
  let version_details := if beta_program then default (stable version_info) (beta version_info) else stable version_info in
  if version_gt (version version_details) current_version then Some version_details else None.

(** ** The phones *)

Record VersionVerdict : Type := mkVersionVerdict {
  supported : bool;
  latest : option Version
}.

(** [VersionVerdict::UNKNOWN] *)
Definition UNKNOWN : VersionVerdict := mkVersionVerdict true None.

Definition newest_stable_above (current : Version) (signed : Response) : option Version :=
  max_by cmp_or_equal
    (List.filter (fun v => version_gt v current)
       (List.filter (fun v => no_pre_stable v && negb (is_dev v)) (release_version <$> releases signed))).

Definition version_verdict (current : Version) (signed : Response) : VersionVerdict :=
  mkVersionVerdict (is_current_version_supported current signed) (newest_stable_above current signed).

(** The fold of the iOS client: the latest is kept while it is at least the next. *)
Definition newer_or_kept (acc : option Version) (v : Version) : option Version :=
  match acc with
  | Some a => if version_ge a v then Some a else Some v
  | None => Some v
  end.

Definition MIN_VERIFY_METADATA_VERSION : Z := 0.

(** The answer of the iOS client, before it is printed; [Err tt] where it is [None]. *)
Definition verify_manifest `{ManifestFormat, RegexLite} (keys : list VerifyingKey) (now : Z) (manifest : bytes) (current_version : str)
    : comp unit VersionVerdict :=
  verified ← map_err (fun _ => tt) (deserialize_and_verify_at_time keys manifest now MIN_VERIFY_METADATA_VERSION);
  let response := signed verified in
  supported ← match from_str current_version with
              | Ok current => Ok (is_current_version_supported current response)
              | Err _ => Ok true
              | Panic => Panic
              end;
  Ok (mkVersionVerdict supported (fold_left newer_or_kept (release_version <$> releases response) None)).
