(* ===== verification/UpdateSpec.v ===== *)
(** * The theorems of the update manifest

    What is offered of a manifest is the newest release this client may have,
    a version is refused exactly when something can replace it, and the phones
    are told of the newest release. *)

From S2P Require Import Prelude Decimal Regex Version Update.
Open Scope Z_scope.

(** ** The greatest element *)

Lemma lex_le_trans a b c :
  length a = length b -> length b = length c -> lex a b <> Gt -> lex b c <> Gt -> lex a c <> Gt.
Proof.
  intros Hl Hl' H1 H2. destruct (lex a b) eqn:Hab; [apply lex_eq in Hab as ->; done| |done].
  destruct (lex b c) eqn:Hbc; [apply lex_eq in Hbc as <-; [by rewrite Hab|done]| |done].
  by rewrite (lex_trans Lt a b c).
Qed.

Section MaxBy.
Context {A : Type} (cmp : A -> A -> comparison) (P : A -> Prop) (key : A -> Version).
Hypothesis Hcmp : forall x y, P x -> P y -> cmp x y = lex (release (key x)) (release (key y)).

(** The result is of the list, and no element of the list is greater. *)
Lemma max_by_spec l :
  Forall P l ->
  match max_by cmp l with
  | Some x => x ∈ l /\ forall y, y ∈ l -> lex (release (key y)) (release (key x)) <> Gt
  | None => l = []
  end.
Proof.
  destruct l as [|x l]; [done|]. intros [Hx Hl]%Forall_cons. cbn [max_by].
  assert (forall l x seen, P x -> Forall P l -> x ∈ seen -> (forall y, y ∈ seen -> lex (release (key y)) (release (key x)) <> Gt) ->
    let m := fold_left (fun x y => match cmp x y with Gt => x | _ => y end) l x in
    m ∈ seen ++ l /\ forall y, y ∈ seen ++ l -> lex (release (key y)) (release (key m)) <> Gt) as Hfold.
  { clear x l Hx Hl. induction l as [|z l IH]; intros x seen Hx Hl Hin Hmax; cbn [fold_left]; [by rewrite app_nil_r|].
    apply Forall_cons in Hl as [Hz Hl]. rewrite cons_middle, app_assoc.
    assert (lex (release (key z)) (release (key x)) = CompOpp (cmp x z)) as Hopp by (rewrite Hcmp by done; apply lex_opp).
    destruct (cmp x z) eqn:Hc; cbn [CompOpp] in Hopp.
    - apply IH; [done..|set_solver|]. intros y [Hy|Hy%list_elem_of_singleton]%elem_of_app.
      + apply lex_le_trans with (release (key x)); [done..|by apply Hmax|]. by rewrite <- Hcmp, Hc.
      + subst. by rewrite (proj2 (lex_release (key z) (key z))).
    - apply IH; [done..|set_solver|]. intros y [Hy|Hy%list_elem_of_singleton]%elem_of_app.
      + apply lex_le_trans with (release (key x)); [done..|by apply Hmax|]. by rewrite <- Hcmp, Hc.
      + subst. by rewrite (proj2 (lex_release (key z) (key z))).
    - apply IH; [done..|set_solver|]. intros y [Hy|Hy%list_elem_of_singleton]%elem_of_app; [by apply Hmax|]. subst. by rewrite Hopp. }
  apply (Hfold l x [x] Hx Hl); [set_solver|]. intros y ->%list_elem_of_singleton. by rewrite (proj2 (lex_release (key x) (key x))).
Qed.
End MaxBy.

(** Of versions of no development build. *)
Lemma version_ge_lex v w : dev v = None -> dev w = None -> version_ge v w = true <-> lex (release w) (release v) <> Gt.
Proof.
  intros Hv Hw. unfold version_ge. rewrite partial_cmp_no_dev by done. rewrite (lex_opp (release v)).
  by destruct (lex (release v) (release w)).
Qed.

Definition newest {A} (key : A -> Version) (P : A -> Prop) (x : A) : Prop :=
  P x /\ forall y, P y -> version_ge (key x) (key y) = true.

(** [max_by] over the elements of a list that are of no development build. *)
Lemma max_by_newest {A} (cmp : A -> A -> comparison) (key : A -> Version) (P : A -> Prop) l :
  (forall x y, cmp x y = cmp_or_equal (key x) (key y)) ->
  (forall x, x ∈ l <-> P x) -> (forall x, P x -> dev (key x) = None) ->
  match max_by cmp l with
  | Some x => newest key P x
  | None => forall x, ~ P x
  end.
Proof.
  intros Hcmp Hl Hdev. pose proof (max_by_spec cmp P key) as Hmax.
  assert (forall x y, P x -> P y -> cmp x y = lex (release (key x)) (release (key y))) as Hlex.
  { intros x y Hx Hy. rewrite Hcmp. unfold cmp_or_equal. rewrite partial_cmp_no_dev by auto. done. }
  assert (Forall P l) as Hall by (apply Forall_forall; intros x; apply Hl).
  specialize (Hmax Hlex l Hall). destruct (max_by cmp l) as [x|].
  - destruct Hmax as [Hx Hge]. apply Hl in Hx. split; [done|]. intros y Hy. apply version_ge_lex; [auto..|]. by apply Hge, Hl.
  - subst. intros x Hx%Hl. by apply not_elem_of_nil in Hx.
Qed.

(** ** What is offered *)
Section Offered.
Context `{HexDecode}.

(** A release of the manifest this client may have, as what it becomes. *)
Definition eligible (params : VersionParameters) (response : Response) (m : Metadata) : Prop :=
  exists r, r ∈ releases response /\ rolled_out params r = true /\ metadata_of params r = Some (Ok m).

Lemma try_collect_spec {E A} (l : list (comp E A)) :
  match try_collect l with
  | Ok as_ => l = Ok <$> as_
  | Err e => Err e ∈ l
  | Panic => Panic ∈ l
  end.
Proof.
  induction l as [|m l IH]; cbn [try_collect]; [done|]. destruct m as [a|e|]; cbn; [|left|left].
  destruct (try_collect l) as [as_|e|]; cbn; [by rewrite IH|by right|by right].
Qed.

Lemma metadata_of_version params r m : metadata_of params r = Some (Ok m) -> version m = release_version r.
Proof.
  unfold metadata_of. destruct (List.find _ _) as [i|].
  - intros [= Hm]. destruct (hex_decode _) as [h|]; [|done]. cbn in Hm. by destruct (bool_decide _); simplify_eq/=.
  - destruct (allow_empty params); [|done]. by intros [= <-].
Qed.

Lemma metadata_of_no_panic params r : metadata_of params r <> Some Panic.
Proof.
  unfold metadata_of. destruct (List.find _ _) as [i|]; [|by destruct (allow_empty params)].
  destruct (hex_decode _) as [h|]; [|done]. cbn. by destruct (bool_decide _).
Qed.

Lemma metadata_of_error params r e : metadata_of params r = Some (Err e) -> e = InvalidChecksumHex \/ e = InvalidChecksumLength.
Proof.
  unfold metadata_of. destruct (List.find _ _) as [i|]; [|by destruct (allow_empty params)].
  destruct (hex_decode _) as [h|]; cbn; [destruct (bool_decide _); cbn|]; intros [= <-]; auto.
Qed.

Lemma eligible_no_dev params response m : eligible params response m -> dev (version m) = None.
Proof.
  intros (r & _ & Hr & Hm%metadata_of_version). rewrite Hm. unfold rolled_out in Hr. apply andb_true_iff in Hr as [_ Hr].
  unfold is_dev in Hr. by destruct (dev (release_version r)).
Qed.

(** The releases that are collected, whatever comes of each. *)
Lemma collected_spec params response o :
  o ∈ omap (metadata_of params) (List.filter (rolled_out params) (releases response)) <->
  exists r, r ∈ releases response /\ rolled_out params r = true /\ metadata_of params r = Some o.
Proof. rewrite list_elem_of_omap. setoid_rewrite list_elem_of_In. setoid_rewrite filter_In. naive_solver. Qed.

Lemma available_spec params response ms m :
  try_collect (omap (metadata_of params) (List.filter (rolled_out params) (releases response))) = Ok ms ->
  m ∈ ms <-> eligible params response m.
Proof.
  intros Hms. pose proof (try_collect_spec (omap (metadata_of params) (List.filter (rolled_out params) (releases response)))) as Hall.
  rewrite Hms in Hall. unfold eligible. rewrite <- collected_spec, Hall, list_elem_of_fmap. split; [eauto|]. by intros (m' & [= <-] & Hm).
Qed.

Lemma max_by_elem {A} (cmp : A -> A -> comparison) l x : max_by cmp l = Some x -> x ∈ l.
Proof.
  destruct l as [|y l]; [done|]. cbn [max_by]. intros [= <-]. revert y. induction l as [|z l IH]; intros y; cbn [fold_left]; [left|].
  destruct (cmp y z); [specialize (IH z)|specialize (IH z)|specialize (IH y)]; set_solver.
Qed.

(** The versions offered are among those this client may have. *)
Lemma offered_eligible params response info :
  try_from_response params response = Ok info -> eligible params response (stable info) /\ forall b, beta info = Some b -> eligible params response b.
Proof.
  unfold try_from_response. destruct (negb _); [done|]. pose proof (available_spec params response) as Hms.
  destruct (try_collect _) as [ms|e|]; [|done|done]. rewrite bind_Ok. unfold max_version.
  assert (forall (f : Metadata -> bool) l m, m ∈ List.filter f l -> m ∈ l) as Hf by (intros f l m; rewrite !list_elem_of_In, filter_In; tauto).
  destruct (max_by _ (List.filter (fun m => no_pre_stable (version m)) ms)) as [s|] eqn:Hs; [|done]. cbn [ok_or]. rewrite bind_Ok. intros Heq. apply Ok_inj in Heq as <-. cbn [stable beta].
  split; [apply (Hms ms); [done|]; eapply Hf, max_by_elem, Hs|].
  intros b Hb. apply (Hms ms); [done|]. by eapply Hf, Hf, max_by_elem.
Qed.

Lemma try_from_response_no_panic params response : try_from_response params response <> Panic.
Proof.
  unfold try_from_response. destruct (negb _); [done|].
  pose proof (try_collect_spec (omap (metadata_of params) (List.filter (rolled_out params) (releases response)))) as Hall.
  destruct (try_collect _) as [ms|e|]; [|done|].
  - rewrite bind_Ok. by destruct (max_version _).
  - apply collected_spec in Hall as (r & _ & _ & Hr). by apply metadata_of_no_panic in Hr.
Qed.

(** C28: What a manifest offers: the newest stable release, and the newest beta above it if there is one, of those that are rolled out to this client, are no development build, and have an installer for its architecture and package format (or none, where that is allowed); otherwise the error says why: two releases of one version, a checksum that is not 32 bytes of hexadecimal, or no stable release at all. *)
Theorem offered_versions (params : VersionParameters) (response : Response) :
  match try_from_response params response with
  | Ok info =>
      newest version (fun m => eligible params response m /\ pre_stable (version m) = None) (stable info) /\
      match beta info with
      | Some b => newest version (fun m => eligible params response m /\ is_beta (version m) = true /\
                                          version_gt (version m) (version (stable info)) = true) b
      | None => forall m, eligible params response m -> is_beta (version m) = true -> version_gt (version m) (version (stable info)) = false
      end
  | Err DuplicateVersions => ~ NoDup (release_version <$> releases response)
  | Err NoStableVersion => forall m, eligible params response m -> pre_stable (version m) <> None
  | Err e => (e = InvalidChecksumHex \/ e = InvalidChecksumLength) /\
      exists r, r ∈ releases response /\ rolled_out params r = true /\ metadata_of params r = Some (Err e)
  | Panic => False
  end.
Proof.
  unfold try_from_response. case_bool_decide as Hdup; cbn [negb]; [|done].
  pose proof (try_collect_spec (omap (metadata_of params) (List.filter (rolled_out params) (releases response)))) as Hall.
  pose proof (available_spec params response) as Hav. pose proof (collected_spec params response) as Hin.
  destruct (try_collect _) as [ms|e|].
  - assert (forall m, m ∈ ms <-> eligible params response m) as Hms by (intros m; by apply Hav).
    assert (forall (f : Metadata -> bool) l m, m ∈ List.filter f l <-> m ∈ l /\ f m = true) as Hf by (intros; rewrite !list_elem_of_In; apply filter_In).
    rewrite bind_Ok. unfold max_version.
    pose proof (max_by_newest (fun a b => cmp_or_equal (version a) (version b)) version
      (fun m => eligible params response m /\ pre_stable (version m) = None) (List.filter (fun m => no_pre_stable (version m)) ms)) as Hstable.
    destruct (max_by _ (List.filter (fun m => no_pre_stable (version m)) ms)) as [s|]; cbn [ok_or mbind comp_bind].
    + split.
      * apply Hstable; [done| |by intros x [Hx%eligible_no_dev _]]. intros x. rewrite Hf, Hms. unfold no_pre_stable. destruct (pre_stable (version x)); naive_solver.
      * cbn [beta stable]. pose proof (max_by_newest (fun a b => cmp_or_equal (version a) (version b)) version
          (fun m => eligible params response m /\ is_beta (version m) = true /\ version_gt (version m) (version s) = true)
          (List.filter (fun m => version_gt (version m) (version s)) (List.filter (fun m => is_beta (version m)) ms))) as Hbeta.
        destruct (max_by _ (List.filter (fun m => version_gt (version m) (version s)) _)) as [b|].
        -- apply Hbeta; [done| |by intros x [Hx%eligible_no_dev _]]. intros x. rewrite !Hf, Hms. naive_solver.
        -- intros m Hm Hb. apply not_true_is_false. intros Hgt. eapply Hbeta; [done| |by intros x [Hx%eligible_no_dev _]|by split].
           intros x. rewrite !Hf, Hms. naive_solver.
    + intros m Hm Hp. eapply Hstable; [done| |by intros x [Hx%eligible_no_dev _]|by split].
      intros x. rewrite Hf, Hms. unfold no_pre_stable. destruct (pre_stable (version x)); naive_solver.
  - cbn. apply Hin in Hall as (r & Hr & Hro & Hm). pose proof (metadata_of_error params r e Hm) as [-> | ->]; eauto 8.
  - apply Hin in Hall as (r & _ & _ & Hm). by apply metadata_of_no_panic in Hm.
Qed.
End Offered.

(** ** Who must update *)

Lemma partial_cmp_release a b : dev a = None -> partial_cmp a b = Some Eq -> release a = release b /\ dev b = None.
Proof.
  rewrite partial_cmp_lex. intros Ha. destruct (lex (release a) (release b)) eqn:Hl; try done. apply lex_release in Hl.
  unfold dev_ordering. rewrite Ha. by destruct (dev b).
Qed.
Lemma partial_cmp_Some a b : dev a = None -> is_Some (partial_cmp a b).
Proof.
  intros Ha. rewrite partial_cmp_lex. destruct (lex _ _); [|by eexists..]. unfold dev_ordering. rewrite Ha. by destruct (dev b); eexists.
Qed.
Lemma partial_cmp_swap a b : partial_cmp b a = CompOpp <$> partial_cmp a b.
Proof.
  rewrite !partial_cmp_lex, (lex_opp (release a)). destruct (lex (release a) (release b)); cbn; try done. unfold dev_ordering.
  destruct (dev a), (dev b); try done. do 2 case_bool_decide; done || congruence.
Qed.
Lemma version_gt_swap a b : version_gt a b = version_lt b a.
Proof. unfold version_gt, version_lt. rewrite (partial_cmp_swap a b). by destruct (partial_cmp a b) as [[| |]|]. Qed.

(** C29: The running version is made to update exactly when it is no development build and either the manifest sets a minimum above it, or it sets none, does not list it, and lists a release above it, or one of the same rank written otherwise (1.0 for 1.0.0), which no update can replace. *)
Theorem forced_update (current : Version) (response : Response) :
  is_current_version_supported current response = false <->
  dev current = None /\
  match minimum_supported_version response with
  | Some minimum => version_lt current minimum = true
  | None =>
      current ∉ release_version <$> releases response /\
      exists r, r ∈ releases response /\
        (version_gt (release_version r) current = true \/
         partial_cmp (release_version r) current = Some Eq /\ release_version r <> current)
  end.
Proof.
  unfold is_current_version_supported, is_dev. destruct (dev current) as [h|] eqn:Hd; [naive_solver|].
  destruct (minimum_supported_version response) as [minimum|].
  - unfold version_ge, version_lt. destruct (partial_cmp_Some current minimum Hd) as [o Ho]. rewrite Ho. destruct o; naive_solver.
  - unfold is_version_supported. rewrite orb_false_iff. split.
    + intros [Hex Hall]. split; [done|].
      assert (current ∉ release_version <$> releases response) as Hnot.
      { intros (r & Hr & Hin)%list_elem_of_fmap. apply not_true_iff_false in Hex. apply Hex, existsb_exists. exists r.
        split; [by apply list_elem_of_In|]. by apply bool_decide_eq_true. }
      split; [done|]. apply not_true_iff_false in Hall.
      destruct (List.find (fun r => negb (version_gt current (release_version r))) (releases response)) as [r|] eqn:Hf.
      * apply find_some in Hf as [Hr Hn]. exists r. split; [by apply list_elem_of_In|]. apply negb_true_iff in Hn.
        destruct (partial_cmp_Some current (release_version r) Hd) as [o Ho]. unfold version_gt in *.
        rewrite (partial_cmp_swap current), Ho in *. destruct o; cbn; [right|by left|done].
        split; [done|]. intros He. apply Hnot, list_elem_of_fmap. exists r. split; [done|by apply list_elem_of_In].
      * destruct Hall. apply forallb_forall. intros r Hr. pose proof (find_none _ _ Hf r Hr) as Hn. by apply negb_false_iff in Hn.
    + intros (_ & Hnot & r & Hr & Hgt). split.
      * apply not_true_iff_false. intros (r' & Hr' & He%bool_decide_eq_true)%existsb_exists. apply Hnot, list_elem_of_fmap.
        exists r'. split; [done|by apply list_elem_of_In].
      * apply not_true_iff_false. intros Hall. rewrite forallb_forall in Hall. specialize (Hall r). rewrite <- list_elem_of_In in Hall.
        specialize (Hall Hr). unfold version_gt in *. rewrite (partial_cmp_swap current) in Hgt.
        destruct (partial_cmp current (release_version r)) as [[| |]|]; naive_solver.
Qed.

(** ** What the phones are told *)

Lemma deserialize_no_panic `{ManifestFormat} keys bytes now low : deserialize_and_verify_at_time keys bytes now low <> Panic.
Proof.
  unfold deserialize_and_verify_at_time, deserialize_and_verify. destruct (partial_from_slice bytes) as [p|]; [|done]. cbn [ok_or]. rewrite bind_Ok.
  destruct (first_matching keys p.1) as [ks|]; [|done]. cbn [ok_or]. rewrite bind_Ok. destruct (canon_to_vec p.2) as [c|]; [|done]. cbn [ok_or]. rewrite bind_Ok.
  destruct (negb _); [done|]. destruct (value_from_slice c) as [v|]; [|done]. cbn [ok_or]. rewrite !bind_Ok. cbn [snd].
  destruct (response_from_value v) as [r|]; [|done]. cbn [ok_or]. rewrite bind_Ok. destruct (_ <=? _); [done|]. by destruct (_ <? _).
Qed.

(** The invariant of the iOS fold: no version seen is above the one kept. *)
Lemma newer_or_kept_step (seen : list Version) a v :
  (forall w, w ∈ seen -> version_gt w a = false) ->
  forall w, w ∈ seen ++ [v] -> version_gt w (if version_ge a v then a else v) = false.
Proof.
  assert (forall x, version_gt x x = false) as Hrefl.
  { intros x. unfold version_gt. rewrite partial_cmp_lex, (proj2 (lex_release x x)) by done. unfold dev_ordering.
    destruct (dev x); [by rewrite bool_decide_eq_true_2|done]. }
  intros Hseen w [Hw|Hw%list_elem_of_singleton]%elem_of_app.
  - destruct (version_ge a v) eqn:Hge; [by apply Hseen|]. specialize (Hseen w Hw).
    unfold version_ge, version_gt in *. rewrite !partial_cmp_lex in *.
    destruct (lex (release a) (release v)) eqn:Hav; [| |done].
    + apply lex_release in Hav. rewrite <- Hav in *. destruct (lex (release w) (release a)); [|done|done].
      unfold dev_ordering in *. destruct (dev a), (dev v), (dev w); try done; repeat case_bool_decide; done.
    + destruct (lex (release w) (release a)) eqn:Hwa; [| |done].
      * apply lex_release in Hwa. by rewrite Hwa, Hav.
      * by rewrite (lex_trans Lt (release w) (release a) (release v)).
  - subst w. destruct (version_ge a v) eqn:Hge; [|done]. unfold version_ge, version_gt in *.
    rewrite (partial_cmp_swap a v). by destruct (partial_cmp a v) as [[| |]|].
Qed.

Lemma newer_or_kept_fold l :
  match fold_left newer_or_kept l None with
  | Some v => v ∈ l /\ forall w, w ∈ l -> version_gt w v = false
  | None => l = []
  end.
Proof.
  induction l as [|v l IH] using rev_ind; [done|]. rewrite fold_left_app. cbn [fold_left newer_or_kept].
  destruct (fold_left newer_or_kept l None) as [a|].
  - destruct IH as [Ha Hmax]. pose proof (newer_or_kept_step l a v Hmax) as Hstep. cbn [newer_or_kept].
    destruct (version_ge a v); (split; [set_solver|done]).
  - subst. cbn. split; [set_solver|]. intros w Hw%list_elem_of_singleton. subst.
    pose proof (newer_or_kept_step [] v v) as Hs. specialize (Hs ltac:(set_solver) v ltac:(set_solver)). by destruct (version_ge v v).
Qed.

(** What the phones are told: on Android, the newest stable release above the running version, if one is; on iOS, from a manifest that verifies, a listed release that no other is above, and whether the version may go on, which a version that cannot be read may. *)
Theorem phones_offer_newest `{ManifestFormat, RegexLite} (current : Version) (response : Response) (keys : list bytes) (now : Z)
    (manifest : bytes) (current_version : str) :
  match latest (version_verdict current response) with
  | Some v => newest (fun v => v) (fun v => v ∈ release_version <$> releases response /\ is_stable v = true /\ version_gt v current = true) v
  | None => forall v, v ∈ release_version <$> releases response -> is_stable v = true -> version_gt v current = false
  end /\
  match deserialize_and_verify_at_time keys manifest now MIN_VERIFY_METADATA_VERSION with
  | Ok verified => exists supported latest,
      verify_manifest keys now manifest current_version = Ok (mkVersionVerdict supported latest) /\
      (supported = false <-> exists v, from_str current_version = Ok v /\ is_current_version_supported v (signed verified) = false) /\
      match latest with
      | Some v => v ∈ release_version <$> releases (signed verified) /\ forall w, w ∈ release_version <$> releases (signed verified) -> version_gt w v = false
      | None => releases (signed verified) = []
      end
  | _ => verify_manifest keys now manifest current_version = Err tt
  end.
Proof.
  split.
  - unfold version_verdict, newest_stable_above. cbn [latest].
    assert (forall (f : Version -> bool) l v, v ∈ List.filter f l <-> v ∈ l /\ f v = true) as Hf by (intros; rewrite !list_elem_of_In; apply filter_In).
    pose proof (max_by_newest cmp_or_equal (fun v => v)
      (fun v => v ∈ release_version <$> releases response /\ is_stable v = true /\ version_gt v current = true)
      (List.filter (fun v => version_gt v current) (List.filter (fun v => no_pre_stable v && negb (is_dev v)) (release_version <$> releases response)))) as Hmax.
    assert (forall v, no_pre_stable v && negb (is_dev v) = is_stable v) as Hst by (intros v; unfold no_pre_stable, is_stable; by destruct (pre_stable v)).
    assert (forall v, is_stable v = true -> dev v = None) as Hdev.
    { intros v. unfold is_stable, is_dev. destruct (pre_stable v), (dev v); done. }
    destruct (max_by _ _) as [v|].
    + apply Hmax; [done| |intros x (_ & Hx & _); auto]. intros x. rewrite !Hf, Hst. naive_solver.
    + intros v Hv Hs. apply not_true_is_false. intros Hgt. apply (fun H1 H2 H3 => Hmax H1 H2 H3 v); [done| |intros x (_ & Hx & _); auto|done].
      intros x. rewrite !Hf, Hst. naive_solver.
  - unfold verify_manifest. destruct (deserialize_and_verify_at_time keys manifest now MIN_VERIFY_METADATA_VERSION) as [verified|e|] eqn:Hv; [|done|].
    + cbn [map_err]. rewrite bind_Ok. pose proof (newer_or_kept_fold (release_version <$> releases (signed verified))) as Hfold.
      assert (fmap release_version (releases (signed verified)) = [] -> releases (signed verified) = []) as Hnil by apply fmap_nil_inv.
      pose proof (from_str_no_panic current_version) as Hnp. destruct (from_str current_version) as [v|e|]; [| |done]; rewrite bind_Ok.
      * exists (is_current_version_supported v (signed verified)), (fold_left newer_or_kept (release_version <$> releases (signed verified)) None).
        split; [done|]. split; [naive_solver|]. destruct (fold_left _ _ None); auto.
      * exists true, (fold_left newer_or_kept (release_version <$> releases (signed verified)) None).
        split; [done|]. split; [naive_solver|]. destruct (fold_left _ _ None); auto.
    + by apply deserialize_no_panic in Hv.
Qed.
