(* ===== verification/Upgrade.v ===== *)
(** * Upgrades on Linux (mullvad-update/src/linux.rs, the daemon's version/linux_upgrade.rs)

    Which package format owns the install, the script that upgrades it, and
    the job that runs the script: the requests are tasks whose steps go from
    one [await] to the next, so that two of them may interleave. *)

From S2P Require Import Prelude Decimal AppKey Version Update.
Open Scope Z_scope.

(** ** What the code uses of [str] *)

(** The UTF-8 encodings of the white space characters. *)
Definition WHITE_SPACE : list str :=
  ((fun b => [b]) <$> [9; 10; 11; 12; 13; 32])
  ++ [[194; 133]; [194; 160]; [225; 154; 128]]
  ++ ((fun b => [226; 128; b]) <$> [128; 129; 130; 131; 132; 133; 134; 135; 136; 137; 138; 168; 169; 175])
  ++ [[226; 129; 159]; [227; 128; 128]].

(** [trim_start] over a set of encodings, one character a turn. *)
Fixpoint trim_start (fuel : nat) (spaces : list str) (s : str) : str :=
  match fuel, List.find (fun w => bool_decide (take (length w) s = w)) spaces with
  | S fuel, Some w => trim_start fuel spaces (drop (length w) s)
  | _, _ => s
  end.
(** [s.trim()]: no more characters than bytes. *)
Definition trim (s : str) : str :=
  let s := trim_start (length s) WHITE_SPACE s in
  reverse (trim_start (length s) (reverse <$> WHITE_SPACE) (reverse s)).

(** [s.lines()]: a last empty line is none, and a line drops the carriage return at its end. *)
Definition lines (s : str) : list str :=
  let ls := split 10 s in
  let ls := match last ls with Some [] => take (length ls - 1) ls | _ => ls end in
  (fun l => default l (strip_suffix [13] l)) <$> ls.

(** [s.split_once(sep)] *)
Fixpoint split_once (sep s : str) : option (str * str) :=
  if bool_decide (take (length sep) s = sep) then Some ([], drop (length sep) s)
  else match s with
       | [] => None
       | b :: s => p ← split_once sep s; Some (b :: p.1, p.2)
       end.

(** [s.parse::<i32>().ok()] *)
Definition parse_i32 (s : str) : option Z :=
  let '(negative, digits) := match s with 43 :: d => (false, d) | 45 :: d => (true, d) | _ => (false, s) end in
  if bool_decide (digits = []) || negb (forallb is_digit digits) then None
  else let n := if negative : bool then - digits_value digits else digits_value digits in
       if (-2147483648 <=? n) && (n <? 2147483648) then Some n else None.

(** [path.starts_with(base)], of absolute paths, component by component. *)
Definition path_components (p : str) : list str :=
  List.filter (fun c => negb (bool_decide (c = [])) && negb (bool_decide (c = lit "."))) (split SLASH p).
Definition path_starts_with (p base : str) : bool :=
  bool_decide (head p = Some SLASH) && bool_decide (take (length (path_components base)) (path_components p) = path_components base).

(** ** The package format *)

Inductive PackageFormat : Type := Deb | DebSysvinit | Rpm | Pacman.

Definition manifest_name (f : PackageFormat) : str :=
  match f with
  | Deb => lit "deb"
  | DebSysvinit => lit "deb-sysvinit"
  | Rpm => lit "rpm"
  | Pacman => lit "pacman"
  end.

Definition file_extension (f : PackageFormat) : str :=
  match f with
  | Deb | DebSysvinit => lit "deb"
  | Rpm => lit "rpm"
  | Pacman => lit "pacman"
  end.

Inductive OwnerQuery : Type := QueryDpkg | QueryRpm | QueryPacman.
(** [OwnerQuery::ALL] *)
Definition ALL : list OwnerQuery := [QueryDpkg; QueryRpm; QueryPacman].

(** [OwnerQuery::command] *)
Definition query_command (q : OwnerQuery) (path : str) : str * list str :=
  match q with
  | QueryDpkg => (lit "dpkg-query", [lit "-S"; path])
  | QueryRpm => (lit "rpm", [lit "-qf"; lit "--queryformat"; lit "%{NAME}\n"; path])
  | QueryPacman => (lit "pacman", [lit "-Qqo"; path])
  end.

(** The owner that a line names. *)
Definition line_owner (q : OwnerQuery) (line : str) : option str :=
  let line := trim line in
  match q with
  | QueryDpkg =>
      owner_path ← split_once (lit ": ") line;
      name ← head (split 58 owner_path.1);
      if negb (bool_decide (name = [])) && negb (bool_decide (32 ∈ name)) then Some name else None
  | QueryRpm | QueryPacman => if bool_decide (line = []) then None else Some line
  end.

(** [OwnerQuery::format] *)
Definition query_format (q : OwnerQuery) (stdout package : str) : option PackageFormat :=
  owner ← head (omap (line_owner q) (lines stdout));
  match q with
  | QueryDpkg =>
      if bool_decide (owner = package) then Some Deb else
      if bool_decide (strip_suffix (lit "-sysvinit") owner = Some package) then Some DebSysvinit else None
  | QueryRpm => if bool_decide (owner = package) then Some Rpm else None
  | QueryPacman => if bool_decide (owner = package) then Some Pacman else None
  end.

Definition detect_package_format (installed_file package : str) (run : str -> list str -> option str) : option PackageFormat :=
  if path_starts_with installed_file (lit "/nix/store") then None else
  head (omap (fun query =>
    let '(program, args) := query_command query installed_file in
    stdout ← run program args; query_format query stdout package) ALL).

(** ** The script *)

Definition UPGRADE_PATH : str := lit "/usr/local/sbin:/usr/local/bin:/usr/sbin:/usr/bin:/sbin:/bin".

(** [value.replace('\'', r"'\''")] *)
Definition escape_quotes (value : str) : str := b ← value; if b =? 39 then [39; 92; 39; 39] else [b].
Definition shell_quote (value : str) : str := [39] ++ escape_quotes value ++ [39].

(** A text between double quotes, and a line. *)
Definition dq (s : string) : str := [34] ++ lit s ++ [34].
Definition line (l : list str) : str := concat l ++ [10].

Definition install_command (format : PackageFormat) : str :=
  match format with
  | Deb | DebSysvinit =>
      line [lit "if command -v apt-get >/dev/null 2>&1; then"]
      ++ line [lit "    DEBIAN_FRONTEND=noninteractive apt-get install -y \"]
      ++ line [lit "        -o DPkg::Lock::Timeout=600 -o Dpkg::Options::=--force-confold "; dq "$package"]
      ++ line [lit "else"]
      ++ line [lit "    dpkg -i "; dq "$package"]
      ++ lit "fi"
  | Rpm =>
      line [lit "if command -v dnf >/dev/null 2>&1; then"]
      ++ line [lit "    dnf install -y "; dq "$package"]
      ++ line [lit "elif command -v zypper >/dev/null 2>&1; then"]
      ++ line [lit "    zypper --non-interactive install --allow-unsigned-rpm "; dq "$package"]
      ++ line [lit "elif command -v yum >/dev/null 2>&1; then"]
      ++ line [lit "    yum install -y "; dq "$package"]
      ++ line [lit "else"]
      ++ line [lit "    rpm -U "; dq "$package"]
      ++ lit "fi"
  | Pacman => lit "pacman -U --noconfirm " ++ dq "$package"
  end.

(** The paths are UTF-8, over which [to_string_lossy] is the identity. *)
Definition upgrade_script (format : PackageFormat) (package status log path_env : str) : str :=
  line [lit "umask 022"]
  ++ line [lit "PATH="; shell_quote path_env]
  ++ line [lit "export PATH"]
  ++ line [lit "package="; shell_quote package]
  ++ line [lit "status="; shell_quote status]
  ++ line [lit "log="; shell_quote log]
  ++ line [lit "upgrade() {"]
  ++ line [install_command format]
  ++ line [lit "}"]
  ++ line [lit "{ printf 'Upgrading from %s\n' "; dq "$package"; lit "; upgrade; } >>"; dq "$log"; lit " 2>&1"]
  ++ line [lit "code=$?"]
  ++ line [lit "printf 'exit %s\n' "; dq "$code"; lit " >"; dq "$status.tmp"; lit " && mv -f "; dq "$status.tmp"; lit " "; dq "$status"]
  ++ line [lit "exit "; dq "$code"].

#[global] Arguments upgrade_script : simpl never.

Inductive UpgradeStatus : Type :=
| Running
| Exited (code : Z).
#[export] Instance UpgradeStatus_eq_dec : EqDecision UpgradeStatus.
Proof. solve_decision. Defined.

Definition STATUS_RUNNING : str := lit "running" ++ [10].

Definition parse_status (contents : str) : option UpgradeStatus :=
  let line := trim contents in
  if bool_decide (line = trim STATUS_RUNNING) then Some Running else
  code ← strip_prefix (lit "exit ") line; Exited <$> parse_i32 code.

Example upgrade_examples :
  parse_status (lit "exit 100" ++ [10]) = Some (Exited 100) /\ parse_status STATUS_RUNNING = Some Running /\
  parse_status (lit "exit -1") = Some (Exited (-1)) /\ parse_status (lit "exit") = None /\
  query_format QueryDpkg (lit "diversion by foo from: /usr/bin/d" ++ [10] ++ lit "w-sysvinit:amd64: /usr/bin/d" ++ [10]) (lit "w") = Some DebSysvinit /\
  query_format QueryDpkg (lit "w-headless: /usr/bin/d" ++ [10]) (lit "w") = None /\
  detect_package_format (lit "/nix/store/x") (lit "w") (fun _ _ => Some (lit "w")) = None /\
  detect_package_format (lit "/usr/bin/d") (lit "w") (fun p _ => if bool_decide (p = lit "rpm") then Some (lit "w" ++ [10]) else None) = Some Rpm.
Proof. vm_compute. done. Qed.

(** ** The job *)

Inductive InstallError : Type :=
| NotPackaged
| InstallInProgress
| Verification
| LogDir
| WriteStatusFailed
| SpawnIo
| SpawnFailed.

Record Job : Type := mkJob {
  job_format : PackageFormat;
  package : str;
  expected_sha256 : bytes;
  status : str;
  log : str
}.

(** [status_path], of the product's directory name *)
Definition status_path (unix_product_dir : str) : str := lit "/run/" ++ unix_product_dir ++ lit "-upgrade.status".

(** [start], up to its call of [start_job]: the format that owns the install and the log directory are what the system answers. *)
Definition upgrade_start (unix_product_dir : str) (format : option PackageFormat) (log_dir : option str) (package : str) (expected_sha256 : bytes)
    : comp InstallError Job :=
  format ← ok_or format NotPackaged;
  log_dir ← ok_or log_dir LogDir;
  Ok (mkJob format package expected_sha256 (status_path unix_product_dir) (log_dir ++ lit "/app-upgrade.log")).

(** What a request did to the system. *)
Inductive UpgradeEffect : Type :=
| ReadPackage (path : str) (contents : bytes)
| Spawned (job : Job) (script : str).

Record Host : Type := mkHost {
  in_flight : bool;
  status_file : option str;
  jobs_running : nat;
  effects : list UpgradeEffect
}.

Inductive SpawnAnswer : Type := SpawnSuccess | SpawnExitedBadly | SpawnError.

(** What the system answers to a request: whether the status file can be read,
    the bytes of the package, the write of the status file (and what a failed
    one leaves), its permissions, the spawn, the removal of the status file. *)
Record Answers : Type := mkAnswers {
  read_ok : bool;
  package_contents : option bytes;
  write_failed : option (option str);
  permissions_ok : bool;
  spawn_answer : SpawnAnswer;
  remove_ok : bool
}.

(** Where a request is: before each of its awaits, and its end. *)
Inductive Phase : Type :=
| Begin
| ReadStatus
| VerifyPackage
| WriteStatus
| SetWorldReadable
| Spawn
| RemoveStatus (e : InstallError)
| Done (r : comp InstallError str).

Definition with_in_flight (b : bool) (h : Host) : Host := mkHost b (status_file h) (jobs_running h) (effects h).
Definition with_status (s : option str) (h : Host) : Host := mkHost (in_flight h) s (jobs_running h) (effects h).
Definition with_effect (e : UpgradeEffect) (h : Host) : Host := mkHost (in_flight h) (status_file h) (jobs_running h) (e :: effects h).

(** [start_owned_job] returned an error: the next request may start, and a
    status file that was written is removed. *)
Definition failed (e : InstallError) (wrote_status : bool) (h : Host) : Phase * Host :=
  (if wrote_status then RemoveStatus e else Done (Err e), with_in_flight false h).

(** The requests under way. *)
Abbreviation Tasks := (list (Job * Phase)) (only parsing).

Section Jobs.
Context `{RolloutHash}.

(** [start_job] and [start_owned_job], from one await to the next. *)
Definition task_step (job : Job) (a : Answers) (phase : Phase) (h : Host) : Phase * Host :=
  match phase with
  | Begin => (if in_flight h then ReadStatus else VerifyPackage, with_in_flight true h)
  | ReadStatus =>
      match (if read_ok a then status_file h else None) ≫= parse_status with
      | Some (Exited _) => (VerifyPackage, h)
      | _ => (Done (Err InstallInProgress), h)
      end
  | VerifyPackage =>
      match package_contents a with
      | Some contents =>
          let h := with_effect (ReadPackage (package job) contents) h in
          if bool_decide (expected_sha256 job = Sha256 contents) then (WriteStatus, h) else failed Verification false h
      | None => failed Verification false h
      end
  | WriteStatus =>
      match write_failed a with
      | None => (SetWorldReadable, with_status (Some STATUS_RUNNING) h)
      | Some left_ => failed WriteStatusFailed false (with_status left_ h)
      end
  | SetWorldReadable => if permissions_ok a then (Spawn, h) else failed WriteStatusFailed true h
  | Spawn =>
      match spawn_answer a with
      | SpawnSuccess =>
          let script := upgrade_script (job_format job) (package job) (status job) (log job) UPGRADE_PATH in
          (Done (Ok (status job)),
           mkHost (in_flight h) (status_file h) (S (jobs_running h)) (Spawned job script :: effects h))
      | SpawnExitedBadly => failed SpawnFailed true h
      | SpawnError => failed SpawnIo true h
      end
  | RemoveStatus e => (Done (Err e), if remove_ok a then with_status None h else h)
  | Done r => (Done r, h)
  end.

(** A request that nothing interrupts: it takes seven steps at most. *)
Fixpoint run_task (fuel : nat) (job : Job) (a : Answers) (phase : Phase) (h : Host) : Phase * Host :=
  match fuel with
  | O => (phase, h)
  | S fuel => let '(phase, h) := task_step job a phase h in run_task fuel job a phase h
  end.
Definition start_job (job : Job) (a : Answers) (h : Host) : Phase * Host := run_task 7 job a Begin h.

(** A job that ends writes its exit to the status file, as the script does. *)
Definition job_exits (code : Z) (h : Host) : Host :=
  match jobs_running h with
  | O => h
  | S n => mkHost (in_flight h) (Some (lit "exit " ++ decimal code ++ [10])) n (effects h)
  end.

(** Requests that interleave, each with its phase, and jobs that end. *)
Inductive UpgradeEvent : Type :=
| NewRequest (job : Job)
| TaskTurn (i : nat) (a : Answers)
| JobExit (code : Z).

Definition upgrade_turn (e : UpgradeEvent) (s : Tasks * Host) : Tasks * Host :=
  match e with
  | NewRequest job => (s.1 ++ [(job, Begin)], s.2)
  | TaskTurn i a =>
      match s.1 !! i with
      | Some (job, phase) => let '(phase, h) := task_step job a phase s.2 in (<[i := (job, phase)]> s.1, h)
      | None => s
      end
  | JobExit code => (s.1, job_exits code s.2)
  end.
Definition upgrade_run (evs : list UpgradeEvent) (s : Tasks * Host) : Tasks * Host := fold_left (fun s e => upgrade_turn e s) evs s.

(** Requests that do not: each runs to its end before the next. *)
Inductive SerialEvent : Type :=
| Request (job : Job) (a : Answers)
| SerialExit (code : Z).
Definition serial_turn (e : SerialEvent) (h : Host) : Host :=
  match e with
  | Request job a => (start_job job a h).2
  | SerialExit code => job_exits code h
  end.
Definition serial_run (evs : list SerialEvent) (h : Host) : Host := fold_left (fun h e => serial_turn e h) evs h.
End Jobs.
