(* ===== verification/UpgradeSpec.v ===== *)
(** * The theorems of the Linux upgrades

    What root runs is the script of a requested job, over a package whose bytes
    were read and had the hash asked for, and the shell reads the paths in it
    as they are; requests that do not overlap never run two jobs at once. *)

From S2P Require Import Prelude Decimal AppKey Version Update Upgrade.
Open Scope Z_scope.

(** ** What a POSIX shell reads of a word

    Text between single quotes is literal, a character after a backslash too; a
    word ends at a blank, a newline or an operator.  Words with expansions are
    left out. *)
Definition ends_word (b : Z) : bool := bool_decide (b ∈ [9; 10; 32; 38; 40; 41; 59; 60; 62; 124]).
Definition expands (b : Z) : bool := bool_decide (b ∈ [34; 36; 96]).

Fixpoint sh_word (quoted : bool) (s : str) : option (str * str) :=
  match s with
  | [] => if quoted then None else Some ([], [])
  | b :: s' =>
      if quoted then
        if b =? 39 then sh_word false s' else w ← sh_word true s'; Some (b :: w.1, w.2)
      else if b =? 39 then sh_word true s'
      else if b =? 92 then match s' with c :: s'' => w ← sh_word false s''; Some (c :: w.1, w.2) | [] => None end
      else if ends_word b then Some ([], s)
      else if expands b then None
      else w ← sh_word false s'; Some (b :: w.1, w.2)
  end.

Lemma sh_word_quote v rest : sh_word false (shell_quote v ++ 10 :: rest) = Some (v, 10 :: rest).
Proof.
  assert (sh_word true (escape_quotes v ++ 39 :: 10 :: rest) = Some (v, 10 :: rest)) as Hq.
  { induction v as [|b v IH]; [done|]. unfold escape_quotes in *. cbn [mbind list_bind].
    destruct (b =? 39) eqn:Hb; rewrite <- app_assoc; cbn [app sh_word]; rewrite ?Hb.
    - change (39 =? 39) with true. change (92 =? 39) with false. change (92 =? 92) with true. cbv iota. rewrite IH. cbn.
      apply Z.eqb_eq in Hb. by subst.
    - by rewrite IH. }
  unfold shell_quote. rewrite <- !app_assoc. cbn [app sh_word]. by change (39 =? 39) with true.
Qed.

(** What follows the assignments of a script, the same whatever the paths. *)
Definition script_body (format : PackageFormat) : str :=
  line [lit "upgrade() {"]
  ++ line [install_command format]
  ++ line [lit "}"]
  ++ line [lit "{ printf 'Upgrading from %s\n' "; dq "$package"; lit "; upgrade; } >>"; dq "$log"; lit " 2>&1"]
  ++ line [lit "code=$?"]
  ++ line [lit "printf 'exit %s\n' "; dq "$code"; lit " >"; dq "$status.tmp"; lit " && mv -f "; dq "$status.tmp"; lit " "; dq "$status"]
  ++ line [lit "exit "; dq "$code"].

(** The shell assigns [value] to [name] on the line that starts a text, and goes on with [rest]. *)
Definition assigns (name value text rest : str) : Prop :=
  exists word, text = name ++ lit "=" ++ word /\ sh_word false word = Some (value, 10 :: rest).

Lemma assigns_line name value rest : assigns name value (line [name ++ lit "="; shell_quote value] ++ rest) rest.
Proof.
  exists (shell_quote value ++ 10 :: rest). split; [|apply sh_word_quote].
  unfold line. cbn [concat]. rewrite app_nil_r, <- !app_assoc. done.
Qed.

(** The paths a script reads, in the order of its lines. *)
Definition script_reads (format : PackageFormat) (package status log path_env script : str) : Prop :=
  exists t1 t2 t3 t4 t5,
    script = lit "umask 022" ++ 10 :: t1 /\ assigns (lit "PATH") path_env t1 (lit "export PATH" ++ 10 :: t2) /\
    assigns (lit "package") package t2 t3 /\ assigns (lit "status") status t3 t4 /\ assigns (lit "log") log t4 t5 /\
    t5 = script_body format.

Lemma upgrade_script_reads format package status log path_env :
  script_reads format package status log path_env (upgrade_script format package status log path_env).
Proof.
  unfold upgrade_script. do 5 eexists. split; [unfold line; cbn [concat]; rewrite app_nil_r, <- app_assoc; reflexivity|].
  split; [apply (assigns_line (lit "PATH"))|]. split; [apply (assigns_line (lit "package"))|].
  split; [apply (assigns_line (lit "status"))|]. split; [apply (assigns_line (lit "log"))|]. done.
Qed.

(** ** Requests that interleave *)
Section Interleaved.
Context `{RolloutHash}.

(** The package of a job was read, and had the hash the job names. *)
Definition package_verified (job : Job) (l : list UpgradeEffect) : Prop :=
  exists contents, ReadPackage (package job) contents ∈ l /\ Sha256 contents = expected_sha256 job.

Definition spawns_verified (requested : list Job) (l : list UpgradeEffect) : Prop :=
  forall l1 l2 job script, l = l1 ++ Spawned job script :: l2 ->
    job ∈ requested /\ package_verified job l2 /\
    script = upgrade_script (job_format job) (package job) (status job) (log job) UPGRADE_PATH.

(** The phases past the verification. *)
Definition past_verification (p : Phase) : Prop := match p with WriteStatus | SetWorldReadable | Spawn => True | _ => False end.

Definition tasks_inv (requested : list Job) (s : Tasks * Host) : Prop :=
  spawns_verified requested (effects s.2) /\
  forall job p, (job, p) ∈ s.1 -> job ∈ requested /\ (past_verification p -> package_verified job (effects s.2)).

Lemma spawns_verified_read requested path contents l :
  spawns_verified requested l -> spawns_verified requested (ReadPackage path contents :: l).
Proof. intros Hl [|e l1] l2 job script He; [done|]. injection He as _ ->. by apply (Hl l1). Qed.

Lemma package_verified_app job l e : package_verified job l -> package_verified job (e :: l).
Proof. intros (c & Hc & Hs). exists c. split; [by right|done]. Qed.

(** A step keeps the effects, or adds one. *)
Lemma task_step_inv requested job a p h :
  spawns_verified requested (effects h) -> job ∈ requested -> (past_verification p -> package_verified job (effects h)) ->
  let s := task_step job a p h in
  spawns_verified requested (effects s.2) /\ (past_verification s.1 -> package_verified job (effects s.2)) /\
  (forall job', package_verified job' (effects h) -> package_verified job' (effects s.2)).
Proof.
  intros Hl Hj Hp. destruct p; cbn [task_step past_verification] in *; cbv zeta.
  - by destruct (in_flight h).
  - by destruct (_ ≫= parse_status) as [[|code]|].
  - destruct (package_contents a) as [c|]; [|done]. case_bool_decide as Hc; cbn; (split; [by apply spawns_verified_read|]).
    + split; [intros _; exists c; split; [left|done]|intros job'; apply package_verified_app].
    + split; [done|intros job'; apply package_verified_app].
  - destruct (write_failed a); cbn; [done|]. by split; [|split; [intros _; apply Hp|]].
  - destruct (permissions_ok a); cbn; [|done]. by split; [|split; [intros _; apply Hp|]].
  - destruct (spawn_answer a); cbn; [|done|done]. split; [|split; [done|intros job'; apply package_verified_app]].
    intros [|e l1] l2 job' script He; cbn in He.
    + injection He as <- <- <-. split; [done|]. split; [by apply Hp|done].
    + injection He as _ He. by apply (Hl l1).
  - by destruct (remove_ok a).
  - done.
Qed.

Definition requested_by (e : UpgradeEvent) : list Job := match e with NewRequest job => [job] | _ => [] end.

Lemma spawns_verified_mono r r' l : spawns_verified r l -> r ⊆ r' -> spawns_verified r' l.
Proof. intros Hl Hr l1 l2 job script He. destruct (Hl l1 l2 job script He) as (Hj & Hv & Hs). split; [by apply Hr|done]. Qed.

Lemma upgrade_turn_inv requested e s :
  tasks_inv requested s -> tasks_inv (requested ++ requested_by e) (upgrade_turn e s).
Proof.
  destruct s as [ts h]. intros [Hl Ht]. cbn [fst snd] in *.
  assert (spawns_verified (requested ++ requested_by e) (effects h)) as Hl' by (eapply spawns_verified_mono; [done|set_solver]).
  destruct e as [job|i a|code]; cbn [upgrade_turn fst snd].
  - split; [done|]. cbn [fst snd]. intros job' p [Hin|Hin]%elem_of_app.
    + destruct (Ht _ _ Hin). split; [set_solver|done].
    + apply list_elem_of_singleton in Hin as [= -> ->]. cbn. split; [set_solver|done].
  - cbn [requested_by]. rewrite app_nil_r. destruct (ts !! i) as [[job p]|] eqn:Hi; [|done].
    destruct (Ht job p) as [Hj Hp]; [by apply list_elem_of_lookup_2 in Hi|].
    pose proof (task_step_inv requested job a p h Hl Hj Hp) as (H1 & H2 & H3). destruct (task_step job a p h) as [p' h'].
    cbn [fst snd] in *. split; [done|]. cbn [fst snd]. intros job' q Hin. apply list_elem_of_lookup in Hin as [j Hj'].
    destruct (decide (j = i)) as [->|Hne].
    + rewrite list_lookup_insert_eq in Hj' by (by eapply lookup_lt_Some). injection Hj' as <- <-. done.
    + rewrite list_lookup_insert_ne in Hj' by done. apply list_elem_of_lookup_2 in Hj'. destruct (Ht _ _ Hj'). split; [done|auto].
  - cbn [requested_by]. rewrite app_nil_r. unfold job_exits. by destruct (jobs_running h).
Qed.

(** C13: Whatever requests interleave, root only runs the script of a requested job, after the bytes of its package were read and had the SHA-256 the request names; and the shell that runs it reads the paths of the package, of the status file and of the log exactly as they are, whatever characters they hold (paths in UTF-8, which the client prints as they are), the rest of the script being the same for every path. *)
Theorem upgrade_runs_verified_package (evs : list UpgradeEvent) (h : Host) (l1 l2 : list UpgradeEffect) (job : Job) (script : str)
  (Hidle : effects h = [])
  (Hspawned : effects (upgrade_run evs ([], h)).2 = l1 ++ Spawned job script :: l2) :
  job ∈ concat (requested_by <$> evs) /\
  (exists contents, ReadPackage (package job) contents ∈ l2 /\ Sha256 contents = expected_sha256 job) /\
  script_reads (job_format job) (package job) (status job) (log job) UPGRADE_PATH script.
Proof.
  assert (forall requested s, tasks_inv requested s -> tasks_inv (requested ++ concat (requested_by <$> evs)) (upgrade_run evs s)) as Hrun.
  { clear. induction evs as [|e evs IH]; intros requested s Hs; cbn [upgrade_run fold_left fmap list_fmap concat]; [by rewrite app_nil_r|].
    rewrite app_assoc. apply IH. by apply upgrade_turn_inv. }
  destruct (Hrun [] ([], h)) as [Hl _].
  - split; [|by intros job' p Hin%not_elem_of_nil]. cbn [snd]. rewrite Hidle. intros k1 k2 job' script' He. by destruct k1.
  - destruct (Hl l1 l2 job script Hspawned) as (Hj & Hv & ->). split; [done|]. split; [done|]. apply upgrade_script_reads.
Qed.
End Interleaved.

(** ** Requests that do not overlap *)
Section Serial.
Context `{RolloutHash}.

(** The exit of a shell command is a byte, and is read back. *)
Lemma parse_exit code : 0 <= code < 256 -> parse_status (lit "exit " ++ decimal code ++ [10]) = Some (Exited code).
Proof.
  intros Hc. assert (forallb (fun n => bool_decide (parse_status (lit "exit " ++ decimal (Z.of_nat n) ++ [10]) = Some (Exited (Z.of_nat n)))) (seq 0 256) = true) as Hall by (vm_compute; done).
  rewrite forallb_forall in Hall. specialize (Hall (Z.to_nat code)). rewrite bool_decide_eq_true, Z2Nat.id in Hall by lia.
  apply Hall, in_seq. lia.
Qed.

(** Nothing runs and the next request may start, or one job runs and says so. *)
Definition over (h : Host) : Prop := in_flight h = true -> exists code, status_file h ≫= parse_status = Some (Exited code).
Definition serial_inv (h : Host) : Prop :=
  jobs_running h = 0%nat /\ over h \/
  jobs_running h = 1%nat /\ in_flight h = true /\ status_file h = Some STATUS_RUNNING.

(** A request while a job runs. *)
Lemma start_while_running job a h :
  in_flight h = true -> status_file h = Some STATUS_RUNNING -> start_job job a h = (Done (Err InstallInProgress), h).
Proof.
  intros Hf Hs. unfold start_job. destruct h as [f s n l]. cbn in Hf, Hs. subst.
  cbn [run_task task_step in_flight with_in_flight status_file jobs_running effects]. cbv beta iota.
  destruct (read_ok a); [|done].
  assert (Some STATUS_RUNNING ≫= parse_status = Some Running) as -> by (by vm_compute). done.
Qed.

(** What a request comes to when none runs. *)
Definition start_outcome (job : Job) (a : Answers) (h : Host) (r : Phase * Host) : Prop :=
  match r.1 with
  | Done (Ok s) => s = status job /\ jobs_running r.2 = S (jobs_running h) /\ in_flight r.2 = true /\ status_file r.2 = Some STATUS_RUNNING
  | Done (Err InstallInProgress) => read_ok a = false /\ in_flight h = true /\ r.2 = h
  | Done (Err _) => jobs_running r.2 = jobs_running h /\ in_flight r.2 = false /\
      (status_file r.2 = None \/ status_file r.2 = status_file h \/ write_failed a = Some (status_file r.2) \/ remove_ok a = false)
  | _ => False
  end.

Lemma run_done fuel job a r h : run_task fuel job a (Done r) h = (Done r, h).
Proof. by induction fuel. Qed.

(** From its verification on, a request ends within five steps. *)
Lemma run_from_verify fuel job a h h0 :
  in_flight h = true -> jobs_running h = jobs_running h0 -> status_file h = status_file h0 ->
  start_outcome job a h0 (run_task (5 + fuel) job a VerifyPackage h).
Proof.
  intros Hf Hj Hs. cbn [Nat.add run_task task_step].
  destruct (package_contents a) as [c|]; [case_bool_decide|]; cbn; rewrite ?run_done; [|unfold start_outcome; cbn; auto..].
  destruct (write_failed a) as [l|] eqn:Hw; cbn; rewrite ?run_done; [unfold start_outcome; cbn; rewrite Hw; auto 6|].
  destruct (permissions_ok a); cbn; [destruct (spawn_answer a); cbn|]; rewrite ?run_done; unfold start_outcome; cbn; [rewrite Hj, Hf; auto|..];
    destruct (remove_ok a); cbn; auto 6.
Qed.

Lemma start_when_over job a h : over h -> start_outcome job a h (start_job job a h).
Proof.
  intros Ho. unfold start_job. destruct h as [f s n l]. unfold over in Ho. cbn [in_flight status_file] in Ho.
  set (h0 := mkHost f s n l). change 7%nat with (S 6). cbn [run_task task_step in_flight h0]. fold h0. destruct f.
  - destruct Ho as [code Ho]; [done|]. change 6%nat with (S 5). cbn [run_task task_step status_file with_in_flight h0].
    destruct (read_ok a) eqn:Hr; [|done]. rewrite Ho. by apply (run_from_verify 0).
  - by apply (run_from_verify 1).
Qed.

Lemma serial_turn_inv e h :
  match e with SerialExit code => 0 <= code < 256 | Request _ _ => True end -> serial_inv h -> serial_inv (serial_turn e h).
Proof.
  destruct e as [job a|code]; cbn [serial_turn]; intros Hc [[Hn Ho]|(Hn & Hf & Hs)].
  - pose proof (start_when_over job a h Ho) as Hr. destruct (start_job job a h) as [p h']. unfold start_outcome in Hr. cbn [fst snd] in *.
    destruct p as [| | | | | |e|[s|e|]]; try done.
    + destruct Hr as (_ & Hj & Hf & Hs). right. by rewrite Hj, Hn.
    + left. destruct e; try (destruct Hr as (Hj & Hf & _); unfold over; rewrite Hj, Hf; by split).
      destruct Hr as (_ & _ & ->). done.
  - rewrite start_while_running by done. by right.
  - unfold job_exits. rewrite Hn. by left.
  - unfold job_exits. rewrite Hn. left. split; [done|]. intros _. exists code. cbn [status_file]. by apply parse_exit.
Qed.

(** When the requests do not overlap, one upgrade runs at a time: after any history of them, and of jobs that end, at most one job runs; while one does a request is refused and changes nothing; when none does a request either starts its job, reported as running, or fails, in which case the next may start and no status file is left to wait on but one that could not be written or removed. *)
Theorem one_upgrade_at_a_time (evs : list SerialEvent) (h0 : Host) (job : Job) (a : Answers)
  (Hidle : jobs_running h0 = 0%nat /\ in_flight h0 = false)
  (Hcodes : Forall (fun e => match e with SerialExit code => 0 <= code < 256 | Request _ _ => True end) evs) :
  let h := serial_run evs h0 in
  (jobs_running h = 1%nat /\ start_job job a h = (Done (Err InstallInProgress), h)) \/
  (jobs_running h = 0%nat /\ start_outcome job a h (start_job job a h)).
Proof.
  intros h. assert (serial_inv h) as [[Hn Ho]|(Hn & Hf & Hs)].
  - subst h. assert (serial_inv h0) as Hinv by (left; destruct Hidle as [-> Hf]; split; [done|]; unfold over; by rewrite Hf).
    clear Hidle. revert h0 Hinv. induction Hcodes as [|e evs He _ IH]; intros h0 Hinv; [done|]. cbn [serial_run fold_left].
    apply IH. by apply serial_turn_inv.
  - right. split; [done|]. by apply start_when_over.
  - left. split; [done|]. by apply start_while_running.
Qed.
End Serial.
