(* ===== verification/VersionRouter.v ===== *)
(** * The version checks and the upgrade they lead to (mullvad-daemon/src/version)

    The poller that fetches the manifest (check.rs), the download of an
    upgrade (downloader.rs, mullvad-update/src/client/app.rs and verify.rs) and
    the router between the poller, the front ends and the download
    (router.rs), as built on Linux.  A turn of the router's loop is a step that
    takes the branch of the [select!] it came out of. *)

From S2P Require Import Prelude Decimal Regex Version Update Upgrade.
Open Scope Z_scope.

(** ** The poller *)

Record VersionCache : Type := mkVersionCache {
  cache_version : Version;
  current_version_supported : bool;
  version_info : VersionInfo;
  last_platform_header_check : Z;
  cache_metadata_version : Z;
  etag : option str
}.

Inductive CheckError : Type :=
| UnreadableRunningVersion
| FetchFailed
| BadManifest (e : UpdateError)
| BadMetadata (e : UpdateError).

(** What a client is built with, and what it knows when it starts. *)
Record Client : Type := mkClient {
  TRUSTED_METADATA_SIGNING_PUBKEYS : list bytes;
  VERSION : str;
  native_architecture : Architecture;
  on_linux : bool;
  rollout_threshold_seed : option Z
}.

(** What a round of the poller meets: the package format of the install, the
    bytes fetched, and the time. *)
Record Round : Type := mkRound {
  installed_package_format : option PackageFormat;
  fetched : option bytes;
  fetched_at : Z
}.

Section Poller.
Context `{ManifestFormat, RegexLite, RolloutHash, HexDecode}.

(** The threshold of this client, every release but the complete ones left out while it has no seed. *)
Definition rollout_of (c : Client) (current_version : Version) : comp CheckError Rollout :=
  match rollout_threshold_seed c with
  | Some seed => threshold seed current_version
  | None => Ok FULLY_ROLLED_OUT
  end.

Definition check_once (c : Client) (lowest_metadata_version : Z) (i : Round) : comp CheckError VersionCache :=
  current_version ← map_err (fun _ => UnreadableRunningVersion) (from_str (VERSION c));
  raw_json ← ok_or (fetched i) FetchFailed;
  response ← map_err BadManifest
    (deserialize_and_verify_at_time (TRUSTED_METADATA_SIGNING_PUBKEYS c) raw_json (fetched_at i) lowest_metadata_version);
  let current_version_supported := is_current_version_supported current_version (signed response) in
  rollout ← rollout_of c current_version;
  let params := mkVersionParameters (native_architecture c) rollout (on_linux c) lowest_metadata_version
                  (manifest_name <$> installed_package_format i) in
  version_info ← map_err BadMetadata (try_from_response params (signed response));
  Ok (mkVersionCache current_version current_version_supported version_info (fetched_at i) (metadata_version (signed response)) None).

(** [version_updater_loop]: what the rounds send to the router, [None] for one
    that failed, the floor of the metadata version raised by each that did not. *)
Fixpoint version_updater_loop (c : Client) (lowest_metadata_version : Z) (rounds : list Round) : list (option VersionCache) :=
  match rounds with
  | [] => []
  | i :: rounds =>
      match check_once c lowest_metadata_version i with
      | Ok cache => Some cache :: version_updater_loop c (Z.max lowest_metadata_version (cache_metadata_version cache)) rounds
      | Err _ => None :: version_updater_loop c lowest_metadata_version rounds
      | Panic => []
      end
  end.
End Poller.

(** ** The download *)

Inductive DownloadError : Type :=
| NoUrlFound
| CreateDownloadDir
| DownloadNotPackaged
| FetchApp
| DownloadVerification.

Inductive AppUpgradeError : Type := GeneralError | DownloadFailed | VerificationFailed.

(** What is broadcast of an upgrade, the progress of its download left out. *)
Inductive AppUpgradeEvent : Type :=
| DownloadStarting
| Aborted
| VerifyingInstaller
| VerifiedInstaller
| UpgradeError (e : AppUpgradeError).

(** [bin_path] *)
Definition bin_path (app_version : Version) (package_format : PackageFormat) (cache_dir : str) : str :=
  cache_dir ++ lit "/warren-" ++ to_string app_version ++ lit "." ++ file_extension package_format.

(** What a download meets: the mirror the random choice falls on, the
    directory, the package format, whether the fetch succeeds, and the bytes
    then read back. *)
Record DownloadAnswers : Type := mkDownloadAnswers {
  choose : list str -> option str;
  download_dir : option str;
  download_format : option PackageFormat;
  fetch_ok : bool;
  downloaded_contents : option bytes
}.

(** [start] of the downloader: the events it broadcasts and the path it returns. *)
Definition download `{RolloutHash} (metadata : Metadata) (a : DownloadAnswers) : list AppUpgradeEvent * comp DownloadError str :=
  match urls metadata, choose a (urls metadata) with
  | [], _ | _, None => ([], Err NoUrlFound)
  | _, Some url =>
      match download_dir a with
      | None => ([UpgradeError GeneralError], Err CreateDownloadDir)
      | Some dir =>
          match download_format a with
          | None => ([UpgradeError GeneralError], Err DownloadNotPackaged)
          | Some format =>
              if negb (fetch_ok a) then ([DownloadStarting; UpgradeError DownloadFailed], Err FetchApp) else
              match downloaded_contents a with
              | Some contents =>
                  if bool_decide (sha256 metadata = Sha256 contents)
                  then ([DownloadStarting; VerifyingInstaller; VerifiedInstaller], Ok (bin_path (version metadata) format dir))
                  else ([DownloadStarting; VerifyingInstaller; UpgradeError VerificationFailed], Err DownloadVerification)
              | None => ([DownloadStarting; VerifyingInstaller; UpgradeError VerificationFailed], Err DownloadVerification)
              end
          end
      end
  end.

(** ** The router *)

Record SuggestedUpgrade : Type := mkSuggestedUpgrade {
  suggested_version : Version;
  suggested_changelog : str;
  suggested_changelog_translations : gmap str str;
  verified_installer_path : option str;
  manual_install_only : bool
}.
#[export] Instance SuggestedUpgrade_eq_dec : EqDecision SuggestedUpgrade.
Proof. solve_decision. Defined.

Record AppVersionInfo : Type := mkAppVersionInfo {
  is_supported : bool;
  suggested_upgrade : option SuggestedUpgrade
}.
#[export] Instance AppVersionInfo_eq_dec : EqDecision AppVersionInfo.
Proof. solve_decision. Defined.

Inductive State : Type :=
| NoVersion
| HasVersion (version_cache : VersionCache)
| Downloading (version_cache : VersionCache) (upgrading_to_version : Metadata)
| Downloaded (version_cache : VersionCache) (verified_installer_path : str) (downloaded : Metadata).

Inductive RouterError : Type := VersionRouterClosed | VersionCheckFailed | NoVerifiedInstaller.

(** The sending end of a one-shot channel. *)
Abbreviation Channel := Z (only parsing).

(** What the router did, the last first. *)
Inductive RouterEffect : Type :=
| VersionEvent (info : AppVersionInfo)
| Answered (tx : Channel) (answer : comp RouterError AppVersionInfo)
| CheckRequested
| DownloadSpawned (metadata : Metadata)
| DownloadDropped
| Broadcast (e : AppUpgradeEvent)
| DownloadReturned (metadata : Metadata) (contents : bytes) (path : str)
| InstallStarted (package : str) (expected_sha256 : bytes)
| InstallRefused (e : RouterError).

Record VersionRouter : Type := mkVersionRouter {
  state : State;
  beta_program : bool;
  version_request_channels : list Channel;
  version_check_deadline : option Z;
  pending_download_after_refresh : bool;
  router_log : list RouterEffect
}.

Definition with_state (s : State) (r : VersionRouter) : VersionRouter :=
  mkVersionRouter s (beta_program r) (version_request_channels r) (version_check_deadline r) (pending_download_after_refresh r) (router_log r).
Definition with_beta (b : bool) (r : VersionRouter) : VersionRouter :=
  mkVersionRouter (state r) b (version_request_channels r) (version_check_deadline r) (pending_download_after_refresh r) (router_log r).
Definition with_channels (cs : list Channel) (r : VersionRouter) : VersionRouter :=
  mkVersionRouter (state r) (beta_program r) cs (version_check_deadline r) (pending_download_after_refresh r) (router_log r).
Definition with_check_deadline (d : option Z) (r : VersionRouter) : VersionRouter :=
  mkVersionRouter (state r) (beta_program r) (version_request_channels r) d (pending_download_after_refresh r) (router_log r).
Definition with_pending (p : bool) (r : VersionRouter) : VersionRouter :=
  mkVersionRouter (state r) (beta_program r) (version_request_channels r) (version_check_deadline r) p (router_log r).
Definition does (fx : list RouterEffect) (r : VersionRouter) : VersionRouter :=
  mkVersionRouter (state r) (beta_program r) (version_request_channels r) (version_check_deadline r) (pending_download_after_refresh r) (reverse fx ++ router_log r).

Definition VERSION_CHECK_DEADLINE : Z := secs 90.

Definition get_version_cache (s : State) : option VersionCache :=
  match s with
  | NoVersion => None
  | HasVersion c | Downloading c _ | Downloaded c _ _ => Some c
  end.

Section Router.
(** The version of the running app, parsed. *)
Variable current_version : Version.

Definition to_app_version_info (cache : VersionCache) (beta_program : bool) (verified_installer_path : option str) : AppVersionInfo :=
  mkAppVersionInfo (current_version_supported cache)
    ((fun m => mkSuggestedUpgrade (version m) (changelog m) (changelog_translations m) verified_installer_path
                 (bool_decide (urls m = [])))
       <$> recommended_version_upgrade current_version (version_info cache) beta_program).

(** Leaving a state: the handle of a download under way is dropped. *)
Definition leave (s : State) : list RouterEffect :=
  match s with Downloading _ _ => [DownloadDropped; Broadcast Aborted] | _ => [] end.
Definition goto (s : State) (r : VersionRouter) : VersionRouter := with_state s (does (leave (state r)) r).

Definition start_download (r : VersionRouter) : VersionRouter :=
  match state r with
  | HasVersion version_cache =>
      match recommended_version_upgrade current_version (version_info version_cache) (beta_program r) with
      | Some upgrading_to_version =>
          with_state (Downloading version_cache upgrading_to_version) (does [DownloadSpawned upgrading_to_version] r)
      | None => r
      end
  | _ => r
  end.

Definition start_pending_download (r : VersionRouter) : VersionRouter :=
  if pending_download_after_refresh r then start_download (with_pending false r) else r.

(** The event of a new cache, [is_new] beside it, and the router after it. *)
Definition on_new_version (version_cache : VersionCache) (r : VersionRouter) : AppVersionInfo * bool * VersionRouter :=
  let info := to_app_version_info version_cache (beta_program r) in
  let next := start_pending_download (goto (HasVersion version_cache) r) in
  match state r with
  | NoVersion => (info None, true, next)
  | HasVersion prev_cache =>
      let prev_app_version := to_app_version_info prev_cache (beta_program r) None in
      (info None, negb (bool_decide (info None = prev_app_version)), next)
  | Downloading prev_cache upgrading_to_version =>
      if bool_decide (to_app_version_info prev_cache (beta_program r) None = info None)
      then (info None, false, with_state (Downloading version_cache upgrading_to_version) r)
      else (info None, true, next)
  | Downloaded prev_cache path downloaded =>
      if bool_decide (to_app_version_info prev_cache (beta_program r) (Some path) = info (Some path))
      then (info (Some path), false, with_state (Downloaded version_cache path downloaded) r)
      else (info None, true, next)
  end.

Definition arm_version_check_deadline (now : Z) (r : VersionRouter) : VersionRouter :=
  match version_check_deadline r with
  | None => with_check_deadline (Some (now + VERSION_CHECK_DEADLINE)) r
  | Some _ => r
  end.

(** Every waiting requester is sent [answer]. *)
Definition answer_all (answer : comp RouterError AppVersionInfo) (r : VersionRouter) : VersionRouter :=
  with_channels [] (does ((fun tx => Answered tx answer) <$> version_request_channels r) r).
Definition notify_version_requesters (info : AppVersionInfo) (r : VersionRouter) : VersionRouter := answer_all (Ok info) r.

Definition current_app_version_info (r : VersionRouter) : option AppVersionInfo :=
  match state r with
  | NoVersion => None
  | HasVersion version_cache | Downloading version_cache _ => Some (to_app_version_info version_cache (beta_program r) None)
  | Downloaded version_cache path _ => Some (to_app_version_info version_cache (beta_program r) (Some path))
  end.

Definition on_failed_version_check (r : VersionRouter) : VersionRouter :=
  start_pending_download
    (match current_app_version_info r with
     | Some info => answer_all (Ok info) r
     | None => answer_all (Err VersionCheckFailed) r
     end).

Definition set_beta_program (new_state : bool) (r : VersionRouter) : comp Empty_set VersionRouter :=
  if bool_decide (new_state = beta_program r) then Ok r else
  let previous_state := beta_program r in
  let r := with_beta new_state r in
  match get_version_cache (state r) with
  | None => Ok r
  | Some version_cache =>
      let prev_app_version := to_app_version_info version_cache previous_state None in
      let new_app_version := to_app_version_info version_cache new_state None in
      if bool_decide (new_app_version = prev_app_version) then Ok r else
      version_cache ← match state r with
                      | Downloaded c _ _ | Downloading c _ | HasVersion c => Ok c
                      | NoVersion => Panic
                      end;
      let r := goto (HasVersion version_cache) r in
      Ok (notify_version_requesters new_app_version (does [VersionEvent new_app_version] r))
  end.

(** [up]: the poller still listens. *)
Definition get_latest_version (up : bool) (now : Z) (result_tx : Channel) (r : VersionRouter) : VersionRouter :=
  if up then
    let r := arm_version_check_deadline now (does [CheckRequested] r) in
    with_channels (version_request_channels r ++ [result_tx]) r
  else does [Answered result_tx (Err VersionRouterClosed)] r.

Definition update_application (up : bool) (now : Z) (r : VersionRouter) : VersionRouter :=
  match state r with
  | HasVersion version_cache =>
      match recommended_version_upgrade current_version (version_info version_cache) (beta_program r) with
      | None => r
      | Some _ =>
          if pending_download_after_refresh r then r else
          if up then arm_version_check_deadline now (with_pending true (does [CheckRequested] r))
          else start_download r
      end
  | _ => r
  end.

Definition cancel_upgrade (r : VersionRouter) : comp Empty_set VersionRouter :=
  let r := if pending_download_after_refresh r then does [Broadcast Aborted] (with_pending false r) else r in
  let r := match state r with
           | Downloading version_cache _ => goto (HasVersion version_cache) r
           | Downloaded version_cache _ _ =>
               let info := to_app_version_info version_cache (beta_program r) None in
               let r := does [Broadcast Aborted] (goto (HasVersion version_cache) r) in
               does [VersionEvent info] (notify_version_requesters info r)
           | _ => r
           end in
  match state r with HasVersion _ | NoVersion => Ok r | _ => Panic end.

Definition install_application (r : VersionRouter) : VersionRouter :=
  match state r with
  | Downloaded _ verified_installer_path downloaded => does [InstallStarted verified_installer_path (sha256 downloaded)] r
  | _ => does [InstallRefused NoVerifiedInstaller] r
  end.

Inductive Message : Type :=
| SetBetaProgram (state : bool)
| GetLatestVersion (result_tx : Channel)
| UpdateApplication
| CancelUpdate
| GetCacheDir
| InstallApplication.

Definition handle_message (up : bool) (now : Z) (message : Message) (r : VersionRouter) : comp Empty_set VersionRouter :=
  match message with
  | SetBetaProgram state => set_beta_program state r
  | GetLatestVersion result_tx => Ok (get_latest_version up now result_tx r)
  | UpdateApplication => Ok (update_application up now r)
  | CancelUpdate => cancel_upgrade r
  | GetCacheDir => Ok r
  | InstallApplication => Ok (install_application r)
  end.

(** A download that ends: the task returned, or was cancelled or panicked. *)
Definition update_info (cache : VersionCache) (m : Metadata) (path : str) : AppVersionInfo :=
  mkAppVersionInfo (current_version_supported cache)
    (Some (mkSuggestedUpgrade (version m) (changelog m) (changelog_translations m) (Some path) false)).

Definition wait_for_update `{RolloutHash} (ended : option DownloadAnswers) (r : VersionRouter) : VersionRouter :=
  match state r with
  | Downloading version_cache upgrading_to_version =>
      match ended with
      | None => goto (HasVersion version_cache) r
      | Some a =>
          let '(events, result) := download upgrading_to_version a in
          let r := does (Broadcast <$> events) r in
          match result, downloaded_contents a with
          | Ok path, Some contents =>
              does [DownloadReturned upgrading_to_version contents path; VersionEvent (update_info version_cache upgrading_to_version path)]
                (with_state (Downloaded version_cache path upgrading_to_version) r)
          | _, _ => with_state (HasVersion version_cache) r
          end
      end
  | _ => r
  end.

Inductive RouterEvent : Type :=
| CheckResult (check_result : option VersionCache)
| DeadlineElapsed
| DownloadEnded (ended : option DownloadAnswers)
| FromDaemon (up : bool) (message : Message).

(** The branches of the [select!] that can be ready at [now]. *)
Definition ready (now : Z) (e : RouterEvent) (r : VersionRouter) : bool :=
  match e with
  | DeadlineElapsed => match version_check_deadline r with Some deadline => deadline <=? now | None => false end
  | DownloadEnded _ => match state r with Downloading _ _ => true | _ => false end
  | _ => true
  end.

Definition run_step `{RolloutHash} (now : Z) (e : RouterEvent) (r : VersionRouter) : comp Empty_set VersionRouter :=
  match e with
  | CheckResult check_result =>
      let r := with_check_deadline None r in
      match check_result with
      | Some new_version =>
          let '(app_version_info, is_new, r) := on_new_version new_version r in
          let r := notify_version_requesters app_version_info r in
          Ok (if is_new : bool then does [VersionEvent app_version_info] r else r)
      | None => Ok (on_failed_version_check r)
      end
  | DeadlineElapsed => Ok (on_failed_version_check (with_check_deadline None r))
  | DownloadEnded ended => Ok (wait_for_update ended r)
  | FromDaemon up message => handle_message up now message r
  end.

(** The router a client starts, and the turns of its loop, each at its time. *)
Definition router_new (beta_program : bool) : VersionRouter := mkVersionRouter NoVersion beta_program [] None false [].

Fixpoint run `{RolloutHash} (turns : list (Z * RouterEvent)) (r : VersionRouter) : comp Empty_set VersionRouter :=
  match turns with
  | [] => Ok r
  | (now, e) :: turns => if ready now e r then r ← run_step now e r; run turns r else run turns r
  end.
End Router.
