(* ===== verification/VersionRun.v ===== *)
(** * The version router over its runs, behind the poller

    Its invariant and what follows: what it has installed was offered, was
    downloaded and had the hash of the manifest; the path of an installer is
    told under its own version only; every request is answered. *)

From S2P Require Import Prelude Decimal Regex Version Update UpdateSpec Upgrade VersionRouter.
Open Scope Z_scope.

Section Run.
Context `{RolloutHash} (current_version : Version).
Implicit Types (r : VersionRouter) (recv : list VersionCache) (log : list RouterEffect).

(** A cache among those received suggested this upgrade. *)
Definition suggested_by recv (m : Metadata) : Prop :=
  exists cache b, cache ∈ recv /\ recommended_version_upgrade current_version (version_info cache) b = Some m.
(** The cache in force suggests the version of [m]. *)
Definition suggests (cache : VersionCache) (b : bool) (m : Metadata) : Prop :=
  exists m', recommended_version_upgrade current_version (version_info cache) b = Some m' /\ version m' = version m.
(** The path that an answer carries is that of an installer downloaded for the version it names. *)
Definition path_ok log (info : AppVersionInfo) : Prop :=
  forall s p, suggested_upgrade info = Some s -> verified_installer_path s = Some p ->
  exists m contents, DownloadReturned m contents p ∈ log /\ version m = suggested_version s.

Definition effect_ok recv log (e : RouterEffect) : Prop :=
  match e with
  | InstallStarted p sha => exists m contents, DownloadReturned m contents p ∈ log /\ sha = sha256 m
  | DownloadReturned m contents _ => sha256 m = Sha256 contents /\ suggested_by recv m
  | DownloadSpawned m => suggested_by recv m
  | VersionEvent info | Answered _ (Ok info) => path_ok log info
  | _ => True
  end.
Fixpoint log_ok recv log : Prop :=
  match log with [] => True | e :: log => effect_ok recv log e /\ log_ok recv log end.

Definition state_ok recv (b : bool) log (s : State) : Prop :=
  match s with
  | NoVersion => True
  | HasVersion c => c ∈ recv
  | Downloading c m => c ∈ recv /\ suggested_by recv m /\ suggests c b m
  | Downloaded c p m => c ∈ recv /\ suggested_by recv m /\ suggests c b m /\ exists contents, DownloadReturned m contents p ∈ log
  end.

Definition waits (r : VersionRouter) : Prop := version_request_channels r <> [] \/ pending_download_after_refresh r = true.
Definition idle_state (s : State) : Prop := match s with HasVersion _ => True | _ => False end.

Record router_inv recv r : Prop := {
  inv_state : state_ok recv (beta_program r) (router_log r) (state r);
  inv_log : log_ok recv (router_log r);
  inv_pending : pending_download_after_refresh r = true -> idle_state (state r)
}.

(** ** Logs *)

Lemma suggested_by_mono recv recv' m : suggested_by recv m -> recv ⊆ recv' -> suggested_by recv' m.
Proof. intros (c & b & Hc & Hm) Hsub. exists c, b. split; [by apply Hsub|done]. Qed.

Lemma path_ok_mono log log' info : path_ok log info -> log ⊆ log' -> path_ok log' info.
Proof. intros Hi Hsub s p Hs Hp. destruct (Hi s p Hs Hp) as (m & c & Hin & Hv). exists m, c. split; [by apply Hsub|done]. Qed.

Lemma log_ok_mono recv recv' log : log_ok recv log -> recv ⊆ recv' -> log_ok recv' log.
Proof.
  induction log as [|e log IH]; [done|]. intros [He Hl] Hsub. split; [|by apply IH].
  destruct e; try done; cbn in *; [by eapply suggested_by_mono|]. destruct He. split; [done|by eapply suggested_by_mono].
Qed.

Lemma state_ok_mono recv recv' b log log' s :
  state_ok recv b log s -> recv ⊆ recv' -> log ⊆ log' -> state_ok recv' b log' s.
Proof.
  intros Hs Hr Hl. destruct s; cbn in *; [done|by apply Hr| |].
  - destruct Hs as (Hc & Hm & Hg). split; [by apply Hr|]. split; [by eapply suggested_by_mono|done].
  - destruct Hs as (Hc & Hm & Hg & k & Hk). split; [by apply Hr|]. split; [by eapply suggested_by_mono|]. split; [done|]. exists k. by apply Hl.
Qed.

(** An effect that is right in every log that extends [log]. *)
Definition harmless recv log (e : RouterEffect) : Prop := forall log', log ⊆ log' -> effect_ok recv log' e.

Lemma log_ok_app recv fx log : Forall (harmless recv log) fx -> log_ok recv log -> log_ok recv (fx ++ log).
Proof. intros Hf Hl. induction Hf as [|e fx He _ IH]; [done|]. split; [apply He; set_solver|done]. Qed.

(** Doing what is harmless keeps the invariant. *)
Lemma does_inv recv fx r : router_inv recv r -> Forall (harmless recv (router_log r)) fx -> router_inv recv (does fx r).
Proof.
  intros [Hs Hl Hp] Hf. constructor; [|by apply log_ok_app; [apply Forall_reverse|]|done].
  eapply state_ok_mono; [done|done|cbn; set_solver].
Qed.

Lemma leave_harmless recv log s : Forall (harmless recv log) (leave s).
Proof. destruct s; repeat constructor; by intros log' _. Qed.

Lemma goto_has recv c r : router_inv recv r -> c ∈ recv -> router_inv recv (goto (HasVersion c) r).
Proof.
  intros Hinv Hc. destruct (does_inv recv (leave (state r)) r Hinv (leave_harmless _ _ _)) as [Hs Hl Hp]. by constructor.
Qed.

Lemma router_inv_mono recv recv' r : router_inv recv r -> recv ⊆ recv' -> router_inv recv' r.
Proof. intros [Hs Hl Hp] Hsub. constructor; [by eapply state_ok_mono|by eapply log_ok_mono|done]. Qed.

(** Answers that carry the path of no installer. *)
Lemma no_path_ok cache b log : path_ok log (to_app_version_info current_version cache b None).
Proof.
  intros s p Hs Hp. unfold to_app_version_info in Hs. cbn in Hs.
  destruct (recommended_version_upgrade _ _ _); simplify_eq/=.
Qed.

Lemma path_suggested cache b m p contents log :
  suggests cache b m -> DownloadReturned m contents p ∈ log -> path_ok log (to_app_version_info current_version cache b (Some p)).
Proof.
  intros (m' & Hm' & Hv) Hin s q Hs Hq. unfold to_app_version_info in Hs. cbn in Hs. rewrite Hm' in Hs. simplify_eq/=. eauto.
Qed.
(** ** The operations *)

Lemma start_download_inv recv r : router_inv recv r -> pending_download_after_refresh r = false -> router_inv recv (start_download current_version r).
Proof.
  intros Hinv Hp. unfold start_download. destruct (state r) as [|c| |] eqn:Hs; try done.
  destruct (recommended_version_upgrade _ _ _) as [m|] eqn:Hm; [|done].
  pose proof (inv_state _ _ Hinv) as Hc. rewrite Hs in Hc. cbn in Hc. assert (suggested_by recv m) as Hsug by (by exists c, (beta_program r)).
  destruct (does_inv recv [DownloadSpawned m] r Hinv) as [_ Hl _]; [repeat constructor; by intros log' _|].
  constructor; [|done|cbn; by rewrite Hp]. cbn. split; [done|]. split; [done|]. by exists m.
Qed.

Lemma with_pending_false recv r : router_inv recv r -> router_inv recv (with_pending false r).
Proof. intros [Hs Hl Hp]. by constructor. Qed.

Lemma start_pending_inv recv r : router_inv recv r -> router_inv recv (start_pending_download current_version r).
Proof.
  intros Hinv. unfold start_pending_download. destruct (pending_download_after_refresh r); [|done].
  apply start_download_inv; [by apply with_pending_false|done].
Qed.

Definition answer_ok log (answer : comp RouterError AppVersionInfo) : Prop := match answer with Ok info => path_ok log info | _ => True end.

Lemma answer_all_inv recv answer r : router_inv recv r -> answer_ok (router_log r) answer -> router_inv recv (answer_all answer r).
Proof.
  intros Hinv Ha. unfold answer_all. destruct (does_inv recv ((fun tx => Answered tx answer) <$> version_request_channels r) r Hinv) as [Hs Hl Hp]; [|by constructor].
  apply Forall_fmap, Forall_forall. intros tx _ log' Hsub. cbn. destruct answer; [by eapply path_ok_mono|done..].
Qed.

Lemma event_inv recv info r : router_inv recv r -> path_ok (router_log r) info -> router_inv recv (does [VersionEvent info] r).
Proof. intros Hinv Hi. apply does_inv; [done|]. repeat constructor. intros log' Hsub. by eapply path_ok_mono. Qed.

(** Equal answers suggest equal versions. *)
Lemma suggests_eq cache cache' b b' m p q :
  to_app_version_info current_version cache b p = to_app_version_info current_version cache' b' q -> suggests cache b m -> suggests cache' b' m.
Proof.
  unfold to_app_version_info, suggests. intros He (m' & Hm & Hv). rewrite Hm in He.
  destruct (recommended_version_upgrade current_version (version_info cache') b') as [m''|]; [|by simplify_eq/=].
  exists m''. simplify_eq/=. split; [done|]. congruence.
Qed.

Lemma on_new_version_inv recv cache r :
  router_inv recv r ->
  let n := on_new_version current_version cache r in
  router_inv (recv ++ [cache]) n.2 /\ path_ok (router_log n.2) n.1.1.
Proof.
  intros Hinv. apply (router_inv_mono _ (recv ++ [cache])) in Hinv; [|set_solver].
  assert (cache ∈ recv ++ [cache]) as Hc by set_solver.
  assert (router_inv (recv ++ [cache]) (start_pending_download current_version (goto (HasVersion cache) r))) as Hnext
    by (by apply start_pending_inv, goto_has).
  unfold on_new_version. pose proof (inv_state _ _ Hinv) as Hs. destruct (state r) as [|c|c m|c p m] eqn:Hst; cbn [state_ok fst snd] in *.
  - split; [done|apply no_path_ok].
  - split; [done|apply no_path_ok].
  - destruct Hs as (_ & Hsug & Hsgs). case_bool_decide as He; cbn [fst snd]; (split; [|apply no_path_ok]); [|done].
    constructor; [|exact (inv_log _ _ Hinv)|cbn; pose proof (inv_pending _ _ Hinv) as Hp; by rewrite Hst in Hp].
    cbn. split; [done|]. split; [done|]. by eapply suggests_eq.
  - destruct Hs as (_ & Hsug & Hsgs & contents & Hk). case_bool_decide as He; cbn [fst snd]; [|by split; [|apply no_path_ok]].
    assert (suggests cache (beta_program r) m) as Hsg by (by eapply suggests_eq). split.
    + constructor; [|exact (inv_log _ _ Hinv)|cbn; pose proof (inv_pending _ _ Hinv) as Hp; by rewrite Hst in Hp]. cbn. eauto.
    + cbn. by eapply path_suggested.
Qed.

Lemma failed_check_inv recv r : router_inv recv r -> router_inv recv (on_failed_version_check current_version r).
Proof.
  intros Hinv. unfold on_failed_version_check. apply start_pending_inv.
  assert (match current_app_version_info current_version r with Some info => path_ok (router_log r) info | None => True end) as Hi.
  { unfold current_app_version_info. pose proof (inv_state _ _ Hinv) as Hs. destruct (state r); try done; try apply no_path_ok.
    destruct Hs as (_ & _ & Hsg & contents & Hk). by eapply path_suggested. }
  destruct (current_app_version_info current_version r); by apply answer_all_inv.
Qed.

Lemma with_check_deadline_inv recv d r : router_inv recv r -> router_inv recv (with_check_deadline d r).
Proof. intros [Hs Hl Hp]. by constructor. Qed.
Lemma arm_inv recv now r : router_inv recv r -> router_inv recv (arm_version_check_deadline now r).
Proof. unfold arm_version_check_deadline. destruct (version_check_deadline r); [done|apply with_check_deadline_inv]. Qed.
Lemma with_channels_inv recv cs r : router_inv recv r -> router_inv recv (with_channels cs r).
Proof. intros [Hs Hl Hp]. by constructor. Qed.
Lemma plain_inv recv e r : router_inv recv r -> (forall log, effect_ok recv log e) -> router_inv recv (does [e] r).
Proof. intros Hinv He. apply does_inv; [done|]. repeat constructor. by intros log' _. Qed.

Lemma set_beta_inv recv b r : router_inv recv r -> yields (set_beta_program current_version b r) (fun _ => False) (router_inv recv).
Proof.
  intros Hinv. unfold set_beta_program. case_bool_decide as Hb; [done|].
  assert (get_version_cache (state r) = None -> router_inv recv (with_beta b r)) as Hnone.
  { intros Hc. destruct Hinv as [Hs Hl Hp]. constructor; [|done|done]. cbn. by destruct (state r). }
  assert (forall c, get_version_cache (state r) = Some c -> to_app_version_info current_version c b None = to_app_version_info current_version c (beta_program r) None ->
    router_inv recv (with_beta b r)) as Hsame.
  { intros c Hc He. destruct Hinv as [Hs Hl Hp]. constructor; [|done|done]. cbn. destruct (state r); cbn in Hc; [done|injection Hc as ->; cbn in Hs |- *..]; [done| |].
    - destruct Hs as (Hin & Hsug & Hsg). split; [done|]. split; [done|]. eapply suggests_eq; [|done]. by symmetry.
    - destruct Hs as (Hin & Hsug & Hsg & k). split; [done|]. split; [done|]. split; [|done]. eapply suggests_eq; [|done]. by symmetry. }
  cbn [state with_beta]. destruct (get_version_cache (state r)) as [c|] eqn:Hc; [|by apply Hnone]. case_bool_decide as He; [by apply (Hsame c)|].
  assert (exists p, goto (HasVersion c) (with_beta b r) = with_beta b p /\ router_inv recv p /\ idle_state (state p) /\ get_version_cache (state p) = Some c) as (p & Hp & Hpi & Hid & Hpc).
  { exists (goto (HasVersion c) r). split; [done|]. split; [|done]. apply goto_has; [done|]. pose proof (inv_state _ _ Hinv) as Hs.
    destruct (state r); cbn in *; simplify_eq; tauto. }
  assert (router_inv recv (notify_version_requesters (to_app_version_info current_version c b None)
    (does [VersionEvent (to_app_version_info current_version c b None)] (goto (HasVersion c) (with_beta b r))))) as Hok.
  { rewrite Hp. apply answer_all_inv; [|apply no_path_ok]. apply event_inv; [|apply no_path_ok].
    destruct Hpi as [Hs Hl Hq]. constructor; [|done|done]. cbn. by destruct (state p). }
  destruct (state r); cbn in Hc; simplify_eq; exact Hok.
Qed.

Lemma cancel_inv recv r : router_inv recv r -> yields (cancel_upgrade current_version r) (fun _ => False) (router_inv recv).
Proof.
  intros Hinv. unfold cancel_upgrade.
  set (r1 := if pending_download_after_refresh r then does [Broadcast Aborted] (with_pending false r) else r).
  assert (router_inv recv r1) as H1.
  { subst r1. destruct (pending_download_after_refresh r); [|done]. apply plain_inv; [by apply with_pending_false|done]. }
  clearbody r1. clear Hinv. cbv zeta. pose proof (inv_state _ _ H1) as Hs. destruct (state r1) as [|c|c m|c p m] eqn:Hst; cbn in Hs.
  - by rewrite Hst.
  - by rewrite Hst.
  - change (router_inv recv (goto (HasVersion c) r1)). apply goto_has; tauto.
  - cbn. apply event_inv; [|apply no_path_ok]. apply answer_all_inv; [|apply no_path_ok].
    apply plain_inv; [|done]. apply goto_has; tauto.
Qed.

Lemma update_application_inv recv up now r : router_inv recv r -> router_inv recv (update_application current_version up now r).
Proof.
  intros Hinv. unfold update_application. destruct (state r) as [|c| |] eqn:Hst; try done.
  destruct (recommended_version_upgrade _ _ _) as [m|]; [|done]. destruct (pending_download_after_refresh r) eqn:Hp; [done|].
  destruct up; [|by apply start_download_inv]. apply arm_inv.
  destruct (plain_inv recv CheckRequested r Hinv) as [Hs Hl _]; [done|]. constructor; [done|done|]. cbn. by rewrite Hst.
Qed.

Lemma install_inv recv r : router_inv recv r -> router_inv recv (install_application r).
Proof.
  intros Hinv. unfold install_application. pose proof (inv_state _ _ Hinv) as Hs.
  destruct (state r) as [| | |c p m]; try by apply plain_inv. cbn in Hs. destruct Hs as (_ & _ & _ & k & Hk).
  apply does_inv; [done|]. repeat constructor. intros log' Hsub. exists m, k. split; [by apply Hsub|done].
Qed.

Lemma get_latest_inv recv up now tx r : router_inv recv r -> router_inv recv (get_latest_version up now tx r).
Proof.
  intros Hinv. unfold get_latest_version. destruct up; [|by apply plain_inv]. apply with_channels_inv, arm_inv. by apply plain_inv.
Qed.

(** What a download returns has the hash of the release. *)
Lemma download_verified m a path :
  (download m a).2 = Ok path -> exists contents, downloaded_contents a = Some contents /\ sha256 m = Sha256 contents /\ urls m <> [].
Proof.
  unfold download. destruct (urls m) as [|u us] eqn:Hu; [done|]. destruct (choose a (u :: us)); [|done]. destruct (download_dir a); [|done].
  destruct (download_format a); [|done]. destruct (fetch_ok a); cbn [negb]; [|done]. destruct (downloaded_contents a) as [c|]; [|done].
  case_bool_decide; [|done]. eauto.
Qed.

Lemma wait_for_update_inv recv ended r : router_inv recv r -> router_inv recv (wait_for_update ended r).
Proof.
  intros Hinv. unfold wait_for_update. pose proof (inv_state _ _ Hinv) as Hs. destruct (state r) as [| |c m|] eqn:Hst; try done.
  cbn in Hs. destruct Hs as (Hc & Hsug & Hsg). destruct ended as [a|]; [|by apply goto_has].
  pose proof (download_verified m a) as Hd. destruct (download m a) as [events result]. cbn [snd] in Hd.
  assert (router_inv recv (does (Broadcast <$> events) r)) as H1.
  { apply does_inv; [done|]. apply Forall_fmap, Forall_forall. by intros e _ log' _. }
  assert (pending_download_after_refresh r = true -> False) as Hp by (intros Hp; pose proof (inv_pending _ _ Hinv Hp) as Hid; by rewrite Hst in Hid).
  assert (router_inv recv (with_state (HasVersion c) (does (Broadcast <$> events) r))) as Hfail.
  { destruct H1 as [_ Hl _]. by constructor. }
  destruct result as [path|e|]; [|done..]. destruct (Hd path eq_refl) as (contents & Ha & Hsha & _). rewrite Ha.
  set (r1 := does (Broadcast <$> events) r) in *. destruct H1 as [_ Hl _].
  constructor; [| |intros Hq; by destruct (Hp Hq)].
  - cbn. split; [done|]. split; [done|]. split; [done|]. exists contents. set_solver.
  - cbn. split; [|split; [done|done]]. intros s p Hs Hq. injection Hs as <-. injection Hq as <-. exists m, contents. split; [left|done].
Qed.

Definition received (e : RouterEvent) : list VersionCache := match e with CheckResult (Some cache) => [cache] | _ => [] end.

Lemma run_step_inv recv now e r :
  router_inv recv r -> yields (run_step current_version now e r) (fun _ => False) (router_inv (recv ++ received e)).
Proof.
  intros Hinv. destruct e as [[cache|]| |ended|up message]; cbn [run_step received]; rewrite ?app_nil_r.
  - pose proof (on_new_version_inv recv cache (with_check_deadline None r) (with_check_deadline_inv _ _ _ Hinv)) as [H1 H2].
    destruct (on_new_version current_version cache (with_check_deadline None r)) as [[info is_new] r1]. cbn [fst snd] in *.
    assert (router_inv (recv ++ [cache]) (notify_version_requesters info r1)) as H3 by (by apply answer_all_inv).
    cbn. destruct is_new; [|done]. apply event_inv; [done|]. eapply path_ok_mono; [done|]. cbn. set_solver.
  - by apply failed_check_inv, with_check_deadline_inv.
  - by apply failed_check_inv, with_check_deadline_inv.
  - by apply wait_for_update_inv.
  - destruct message; cbn [handle_message].
    + by apply set_beta_inv.
    + by apply get_latest_inv.
    + by apply update_application_inv.
    + by apply cancel_inv.
    + done.
    + by apply install_inv.
Qed.

Lemma run_inv recv turns r :
  router_inv recv r -> yields (run current_version turns r) (fun _ => False) (router_inv (recv ++ concat ((fun t => received t.2) <$> turns))).
Proof.
  revert recv r. induction turns as [|[now e] turns IH]; intros recv r Hinv; cbn [run fmap list_fmap concat snd]; [by rewrite app_nil_r|].
  rewrite app_assoc. destruct (ready now e r).
  - apply yields_bind. eapply yields_mono; [by apply run_step_inv|done|]. intros r' Hr'. by apply IH.
  - apply IH. eapply router_inv_mono; [done|set_solver].
Qed.
End Run.

(** ** Behind the poller *)
Section Poller.
Context `{ManifestFormat, RegexLite, RolloutHash, HexDecode}.

(** The manifest of a round: signed by a trusted key, not expired, recent enough. *)
Definition trusted_manifest (c : Client) (i : Round) (low : Z) (response : Response) : Prop :=
  exists raw key sig sigs json canon v,
    fetched i = Some raw /\ partial_from_slice raw = Some (sigs, json) /\ Ed25519 key sig ∈ sigs /\
    key ∈ TRUSTED_METADATA_SIGNING_PUBKEYS c /\ canon_to_vec json = Some canon /\ verify_strict key canon sig = true /\
    value_from_slice canon = Some v /\ response_from_value v = Some response /\
    fetched_at i < metadata_expiry response /\ low <= metadata_version response.

Lemma first_matching_spec keys sigs key sig : first_matching keys sigs = Some (key, sig) -> Ed25519 key sig ∈ sigs /\ key ∈ keys.
Proof.
  induction sigs as [|[k s|k s] sigs IH]; cbn [first_matching]; [done| |].
  - case_bool_decide as Hk; [|intros Hf%IH; split; [right|]; tauto]. intros Heq. injection Heq as <- <-. split; [left|done].
  - intros Hf%IH. split; [right|]; tauto.
Qed.

Lemma manifest_trusted c i low raw sr :
  fetched i = Some raw -> deserialize_and_verify_at_time (TRUSTED_METADATA_SIGNING_PUBKEYS c) raw (fetched_at i) low = Ok sr ->
  trusted_manifest c i low (signed sr).
Proof.
  intros Hraw. unfold deserialize_and_verify_at_time, deserialize_and_verify.
  destruct (partial_from_slice raw) as [[sigs json]|] eqn:Hp; [|done]. cbn [ok_or]. rewrite bind_Ok. cbn [fst snd].
  destruct (first_matching _ sigs) as [[key sig]|] eqn:Hf; [|done]. cbn [ok_or]. rewrite bind_Ok. cbn [fst snd].
  destruct (canon_to_vec json) as [canon|] eqn:Hc; [|done]. cbn [ok_or]. rewrite bind_Ok.
  destruct (verify_strict key canon sig) eqn:Hv; cbn [negb]; [|done].
  destruct (value_from_slice canon) as [v|] eqn:Hval; [|done]. cbn [ok_or]. rewrite !bind_Ok. cbn [snd fst].
  destruct (response_from_value v) as [response|] eqn:Hr; [|done]. cbn [ok_or]. rewrite bind_Ok.
  destruct (Z.leb_spec (metadata_expiry response) (fetched_at i)); [done|].
  destruct (Z.ltb_spec (metadata_version response) low); [done|]. intros [= <-]. cbn [signed].
  apply first_matching_spec in Hf as [Hsig Hkey]. exists raw, key, sig, sigs, json, canon, v. by repeat split.
Qed.

Lemma threshold_in {E} seed v : exists t, @threshold E _ seed v = Ok t /\ SUPPORTED_VERSION <= t <= FULLY_ROLLED_OUT.
Proof.
  unfold threshold. unfold zlen. rewrite Sha256_length. change (Z.of_nat 32 <? 32) with false. cbv iota.
  set (t := random_range _ _ _). assert (SUPPORTED_VERSION <= t <= FULLY_ROLLED_OUT) as Ht by (by apply random_range_in).
  unfold rollout_try_from. assert (0 <= SUPPORTED_VERSION) by done.
  destruct (Z.leb_spec 0 t); [|lia]. destruct (Z.leb_spec t FULLY_ROLLED_OUT); [|lia]. by exists t.
Qed.

Lemma rollout_of_in c v : exists t, rollout_of c v = Ok t /\ SUPPORTED_VERSION <= t <= FULLY_ROLLED_OUT.
Proof. unfold rollout_of. destruct (rollout_threshold_seed c); [apply threshold_in|by exists FULLY_ROLLED_OUT]. Qed.

(** What a round that succeeds hands to the router. *)
Definition round_result (c : Client) (i : Round) (low : Z) (cache : VersionCache) : Prop :=
  exists response rollout,
    trusted_manifest c i low response /\ SUPPORTED_VERSION <= rollout /\
    from_str (VERSION c) = Ok (cache_version cache) /\
    current_version_supported cache = is_current_version_supported (cache_version cache) response /\
    cache_metadata_version cache = metadata_version response /\
    try_from_response (mkVersionParameters (native_architecture c) rollout (on_linux c) low (manifest_name <$> installed_package_format i)) response
      = Ok (version_info cache).

Lemma check_once_spec c low i :
  match check_once c low i with Ok cache => round_result c i low cache | Err _ => True | Panic => False end.
Proof.
  unfold check_once. pose proof (from_str_no_panic (VERSION c)) as Hnp. destruct (from_str (VERSION c)) as [v|e|] eqn:Hv; [|done|done].
  cbn [map_err]. rewrite bind_Ok. destruct (fetched i) as [raw|] eqn:Hraw; [|done]. cbn [ok_or]. rewrite bind_Ok.
  destruct (deserialize_and_verify_at_time _ raw _ low) as [sr|e|] eqn:Hd; [|done|by apply deserialize_no_panic in Hd].
  cbn [map_err]. rewrite bind_Ok. destruct (rollout_of_in c v) as (t & Ht & Hlo & _). rewrite Ht, bind_Ok.
  set (params := mkVersionParameters _ t _ _ _). destruct (try_from_response params (signed sr)) as [info|e|] eqn:Hi.
  - cbn [map_err]. rewrite bind_Ok. exists (signed sr), t. split; [by eapply manifest_trusted|]. by repeat split.
  - done.
  - by apply try_from_response_no_panic in Hi.
Qed.

(** The rounds of the poller, each with the floor it runs under. *)
Lemma loop_spec c low rounds k i o :
  rounds !! k = Some i -> version_updater_loop c low rounds !! k = Some o ->
  exists low', low <= low' /\
    (forall j cache, (j < k)%nat -> version_updater_loop c low rounds !! j = Some (Some cache) -> cache_metadata_version cache <= low') /\
    match o with Some cache => round_result c i low' cache | None => True end.
Proof.
  revert low k. induction rounds as [|i' rounds IH]; intros low k Hi Ho; [done|]. cbn [version_updater_loop] in *.
  pose proof (check_once_spec c low i') as Hcheck. destruct (check_once c low i') as [cache'|e|]; [| |done].
  - destruct k as [|k]; cbn in Hi, Ho.
    + injection Hi as ->. injection Ho as <-. exists low. split; [lia|]. split; [lia|done].
    + destruct (IH _ k Hi Ho) as (low' & Hl & Hbefore & Hres). exists low'. split; [lia|]. split; [|done].
      intros [|j] cache Hj Hc; cbn in Hc; [injection Hc as <-; lia|]. apply (Hbefore j); [lia|done].
  - destruct k as [|k]; cbn in Hi, Ho.
    + injection Hi as ->. injection Ho as <-. exists low. split; [lia|]. split; [lia|done].
    + destruct (IH _ k Hi Ho) as (low' & Hl & Hbefore & Hres). exists low'. split; [lia|]. split; [|done].
      intros [|j] cache Hj Hc; cbn in Hc; [done|]. apply (Hbefore j); [lia|done].
Qed.

Lemma loop_length c low rounds : length (version_updater_loop c low rounds) = length rounds.
Proof.
  revert low. induction rounds as [|i rounds IH]; intros low; [done|]. cbn [version_updater_loop].
  pose proof (check_once_spec c low i) as Hcheck. destruct (check_once c low i); [| |done]; cbn; by rewrite IH.
Qed.

(** C14: Every round of the poller sends the router a result, and one that succeeds a manifest that a trusted key signed, that has not expired, and whose metadata version is no lower than any accepted before it; with it, whether the running version may go on, and the versions the manifest offers to this architecture and package format, of the releases whose rollout reaches a threshold above zero. *)
Theorem checks_never_roll_back (c : Client) (low : Z) (rounds : list Round) (j k : nat) (i : Round) (cache cache' : VersionCache)
  (Hround : rounds !! k = Some i)
  (Hk : version_updater_loop c low rounds !! k = Some (Some cache)) :
  length (version_updater_loop c low rounds) = length rounds /\
  (exists low', low <= low' /\ round_result c i low' cache) /\
  ((j < k)%nat -> version_updater_loop c low rounds !! j = Some (Some cache') -> cache_metadata_version cache' <= cache_metadata_version cache).
Proof.
  split; [apply loop_length|]. destruct (loop_spec c low rounds k i _ Hround Hk) as (low' & Hl & Hbefore & Hres).
  split; [by exists low'|]. intros Hj Hc. specialize (Hbefore j cache' Hj Hc).
  destruct Hres as (response & t & (raw & key & sig & sigs & json & canon & v & Ht) & _ & _ & _ & -> & _). destruct Ht as (_&_&_&_&_&_&_&_&_&Hlow). lia.
Qed.

(** A release this client was offered: in a trusted manifest, rolled out to it, for its system, and no development build. *)
Definition offered (c : Client) (rounds : list Round) (m : Metadata) : Prop :=
  exists i low response rollout,
    i ∈ rounds /\ trusted_manifest c i low response /\ SUPPORTED_VERSION <= rollout /\
    eligible (mkVersionParameters (native_architecture c) rollout (on_linux c) low (manifest_name <$> installed_package_format i)) response m.

Lemma suggested_offered c rounds low current_version (recv : list VersionCache) m :
  (forall cache, cache ∈ recv -> Some cache ∈ version_updater_loop c low rounds) ->
  suggested_by current_version recv m -> offered c rounds m /\ version_gt (version m) current_version = true.
Proof.
  intros Hrecv (cache & b & Hc & Hm). apply Hrecv, list_elem_of_lookup in Hc as [k Hk].
  assert (is_Some (rounds !! k)) as [i Hi] by (apply lookup_lt_is_Some; rewrite <- (loop_length c low rounds); by eapply lookup_lt_Some).
  destruct (loop_spec c low rounds k i _ Hi Hk) as (low' & _ & _ & response & t & Htrust & Ht & _ & _ & _ & Hinfo).
  apply offered_eligible in Hinfo as [Hs Hb]. unfold recommended_version_upgrade in Hm.
  set (details := if b then default (stable (version_info cache)) (beta (version_info cache)) else stable (version_info cache)) in Hm.
  destruct (version_gt (version details) current_version) eqn:Hgt; [|done]. injection Hm as <-. split; [|done].
  exists i, low', response, t. split; [by apply list_elem_of_lookup_2 in Hi|]. split; [done|]. split; [done|].
  subst details. destruct b; [|done]. destruct (beta (version_info cache)) as [x|]; [by apply Hb|done].
Qed.

Lemma log_ok_split current_version recv log l1 e l2 :
  log_ok current_version recv log -> log = l1 ++ e :: l2 -> effect_ok current_version recv l2 e /\ log_ok current_version recv l2.
Proof. intros Hl ->. induction l1 as [|x l1 IH]; cbn in Hl; [done|]. apply IH, Hl. Qed.

Lemma log_ok_elem current_version recv log e : log_ok current_version recv log -> e ∈ log -> exists l2, effect_ok current_version recv l2 e.
Proof. intros Hl (l1 & l2 & He)%list_elem_of_split. exists l2. by eapply log_ok_split. Qed.

(** C12: Whatever the front ends, the checks and the downloads do, the router goes on, and all it ever hands to the installer is the file of a release above the running version that a trusted manifest offered to this client, downloaded and read back with the SHA-256 of the manifest, which the installer is asked to check again; and the path of an installer is only ever told under the version it was downloaded for. *)
Theorem installs_only_offered_upgrades (c : Client) (rounds : list Round) (current_version : Version) (beta_program : bool)
    (turns : list (Z * RouterEvent))
  (Hversion : from_str (VERSION c) = Ok current_version)
  (Hchecks : forall cache, cache ∈ concat ((fun t => received t.2) <$> turns) ->
     Some cache ∈ version_updater_loop c MIN_VERIFY_METADATA_VERSION rounds) :
  exists r, run current_version turns (router_new beta_program) = Ok r /\
    (forall l1 l2 p sha, router_log r = l1 ++ InstallStarted p sha :: l2 ->
       exists m contents, DownloadReturned m contents p ∈ l2 /\ sha = sha256 m /\ sha256 m = Sha256 contents /\
         offered c rounds m /\ version_gt (version m) current_version = true) /\
    (forall l1 l2 e info, router_log r = l1 ++ e :: l2 -> (e = VersionEvent info \/ exists tx, e = Answered tx (Ok info)) ->
       path_ok l2 info).
Proof.
  pose proof (run_inv current_version [] turns (router_new beta_program)) as Hrun. cbn [app] in Hrun.
  assert (router_inv current_version [] (router_new beta_program)) as Hnew by (by constructor). specialize (Hrun Hnew).
  destruct (run current_version turns (router_new beta_program)) as [r|e|]; cbn in Hrun; [|done|done].
  destruct Hrun as [_ Hl _]. exists r. split; [done|]. split.
  - intros l1 l2 p sha He. destruct (log_ok_split _ _ _ _ _ _ Hl He) as [(m & contents & Hin & Hsha) Hl2].
    destruct (log_ok_elem _ _ _ _ Hl2 Hin) as (l3 & Hc & Hsug). exists m, contents. split; [done|]. split; [done|]. split; [done|].
    by eapply suggested_offered.
  - intros l1 l2 e info He Hinfo. destruct (log_ok_split _ _ _ _ _ _ Hl He) as [Hok _]. by destruct Hinfo as [-> |[tx ->]].
Qed.
End Poller.

(** ** Every request is answered *)
Section Answers.
Context `{RolloutHash} (current_version : Version).
Implicit Types (r : VersionRouter) (asks : list (Z * Channel)).

Definition answered (log : list RouterEffect) : list Channel :=
  omap (fun e => match e with Answered tx _ => Some tx | _ => None end) log.
(** The requests among the turns, each with its time. *)
Definition asked (turns : list (Z * RouterEvent)) : list (Z * Channel) :=
  omap (fun t => match t.2 with FromDaemon _ (GetLatestVersion tx) => Some (t.1, tx) | _ => None end) turns.

Record books asks (last : Z) r : Prop := {
  books_asked : asks.*2 ≡ₚ version_request_channels r ++ answered (router_log r);
  books_armed : waits r -> is_Some (version_check_deadline r);
  books_bound : forall d, version_check_deadline r = Some d -> d <= last + VERSION_CHECK_DEADLINE /\
    forall tx, tx ∈ version_request_channels r -> exists t, (t, tx) ∈ asks /\ d <= t + VERSION_CHECK_DEADLINE;
  books_idle : pending_download_after_refresh r = true -> idle_state (state r)
}.

(** What leaves the requests and the deadline alone. *)
Definition same_books r r' : Prop :=
  version_request_channels r' = version_request_channels r /\ version_check_deadline r' = version_check_deadline r /\
  answered (router_log r') = answered (router_log r).

Lemma same_books_trans r1 r2 r3 : same_books r1 r2 -> same_books r2 r3 -> same_books r1 r3.
Proof. unfold same_books. intuition congruence. Qed.

Lemma books_keep asks last r r' :
  books asks last r -> same_books r r' ->
  (pending_download_after_refresh r' = true -> pending_download_after_refresh r = true /\ idle_state (state r')) -> books asks last r'.
Proof.
  intros [Ha Hw Hb Hi] (Hc & Hd & Hl) Hp. constructor.
  - by rewrite Hc, Hl.
  - unfold waits in *. rewrite Hc, Hd. intros [Hn|Hn]; apply Hw; [by left|right; by apply Hp].
  - intros d. rewrite Hc, Hd. apply Hb.
  - intros Hn. by apply Hp.
Qed.

Definition quiet (fx : list RouterEffect) : Prop := Forall (fun e => match e with Answered _ _ => False | _ => True end) fx.
Lemma does_same fx r : quiet fx -> same_books r (does fx r).
Proof.
  intros Hq. split; [done|]. split; [done|]. cbn. unfold answered. rewrite omap_app. assert (quiet (reverse fx)) as Hr by (by apply Forall_reverse).
  replace (omap _ (reverse fx)) with (@nil Channel); [done|]. symmetry. induction Hr as [|e l He _ IH]; [done|]. by destruct e.
Qed.
Lemma goto_same s r : same_books r (goto s r).
Proof. unfold goto. apply (same_books_trans _ (does (leave (state r)) r)); [|done]. apply does_same. destruct (state r); repeat constructor. Qed.
Lemma start_download_same r : same_books r (start_download current_version r) /\
  pending_download_after_refresh (start_download current_version r) = pending_download_after_refresh r.
Proof. unfold start_download. destruct (state r); try done. by destruct (recommended_version_upgrade _ _ _). Qed.
Lemma start_pending_same r : same_books r (start_pending_download current_version r) /\
  pending_download_after_refresh (start_pending_download current_version r) = false.
Proof.
  unfold start_pending_download. destruct (pending_download_after_refresh r) eqn:Hp; [|done].
  destruct (start_download_same (with_pending false r)) as [Hs Hq]. split; [|done]. by apply (same_books_trans _ (with_pending false r)).
Qed.

(** A download that was put off starts, if there is still something to download. *)
Definition goes_on r : Prop :=
  match state r with
  | Downloading _ _ => True
  | HasVersion c => recommended_version_upgrade current_version (version_info c) (beta_program r) = None
  | _ => False
  end.
Lemma start_pending_goes_on r : pending_download_after_refresh r = true -> idle_state (state r) -> goes_on (start_pending_download current_version r).
Proof.
  intros Hp Hi. unfold start_pending_download, start_download, goes_on. rewrite Hp. cbn.
  destruct (state r) as [|c| |] eqn:Hs; try done. destruct (recommended_version_upgrade _ _ _) eqn:Hm; cbn; [done|]. by rewrite Hs.
Qed.

(** What ends a check: everyone is answered, and nobody waits. *)
Definition settled r r' : Prop :=
  version_request_channels r' = [] /\ pending_download_after_refresh r' = false /\ version_check_deadline r' = None /\
  answered (router_log r') ≡ₚ version_request_channels r ++ answered (router_log r) /\
  (pending_download_after_refresh r = true -> goes_on r').

Lemma answer_all_answered answer r :
  answered (router_log (answer_all answer r)) ≡ₚ version_request_channels r ++ answered (router_log r).
Proof.
  unfold answer_all. cbn. unfold answered. rewrite omap_app. f_equiv.
  assert (forall l : list Channel, omap (fun e => match e with Answered tx _ => Some tx | _ => None end) ((fun tx => Answered tx answer) <$> l) = l) as Hl
    by (induction l as [|x l IH]; cbn; [done|by f_equal]).
  rewrite <- (Hl (version_request_channels r)) at 2. by rewrite reverse_Permutation.
Qed.

Lemma check_settles now e r r' :
  (pending_download_after_refresh r = true -> idle_state (state r)) ->
  (exists result, e = CheckResult result) \/ e = DeadlineElapsed ->
  run_step current_version now e r = Ok r' -> settled r r'.
Proof.
  intros Hidle He.
  assert (forall r1, on_failed_version_check current_version (with_check_deadline None r) = r1 -> settled r r1) as Hfailed.
  { intros r1 <-. unfold on_failed_version_check. set (r0 := with_check_deadline None r).
    assert (forall answer, settled r (start_pending_download current_version (answer_all answer r0))) as Hs.
    { intros answer. destruct (start_pending_same (answer_all answer r0)) as [(Hc & Hd & Hl) Hp]. split; [by rewrite Hc|]. split; [done|]. split; [by rewrite Hd|].
      split; [rewrite Hl; apply (answer_all_answered answer r0)|]. intros Hq. apply start_pending_goes_on; [done|by apply Hidle]. }
    destruct (current_app_version_info current_version r0); apply Hs. }
  destruct He as [[[cache|] ->]| ->]; cbn [run_step]; [|intros [= <-]; by apply Hfailed..].
  set (r0 := with_check_deadline None r).
  assert (exists info is_new r1, on_new_version current_version cache r0 = (info, is_new, r1) /\ same_books r0 r1 /\
    pending_download_after_refresh r1 = false /\ (pending_download_after_refresh r = true -> goes_on r1)) as (info & is_new & r1 & -> & (Hc & Hd & Hl) & Hp & Hg).
  { destruct (start_pending_same (goto (HasVersion cache) r0)) as [Hsame Hpend]. pose proof (same_books_trans _ _ _ (goto_same _ _) Hsame) as Hs.
    assert (pending_download_after_refresh r = true -> goes_on (start_pending_download current_version (goto (HasVersion cache) r0))) as Hg
      by (intros Hq; by apply start_pending_goes_on).
    unfold on_new_version. change (state r0) with (state r). destruct (state r) as [|c|c m|c p m] eqn:Hst; try (do 3 eexists; split; [reflexivity|]; done).
    - case_bool_decide; (do 3 eexists; split; [reflexivity|]); [|done]. split; [done|]. cbn. destruct (pending_download_after_refresh r); [by destruct Hidle|done].
    - case_bool_decide; (do 3 eexists; split; [reflexivity|]); [|done]. split; [done|]. cbn. destruct (pending_download_after_refresh r); [by destruct Hidle|done]. }
  intros [= <-]. assert (settled r (notify_version_requesters info r1)) as Hs.
  { split; [done|]. split; [done|]. split; [exact Hd|]. split; [|done].
    unfold notify_version_requesters. rewrite answer_all_answered, Hl, Hc. done. }
  destruct is_new; [|done]. destruct Hs as (H1 & H2 & H3 & H4 & H5). by repeat split.
Qed.

Lemma books_later asks last now r : books asks last r -> last <= now -> books asks now r.
Proof. intros [Ha Hw Hb Hi] Hl. constructor; [done|done| |done]. intros d Hd. destruct (Hb d Hd). split; [lia|done]. Qed.

Lemma answer_all_books asks last answer r : books asks last r -> books asks last (answer_all answer r).
Proof.
  intros [Ha Hw Hb Hi]. constructor; [by rewrite Ha, answer_all_answered| | |done].
  - intros [Hn|Hn]; [done|]. apply Hw. by right.
  - intros d Hd. split; [by apply Hb|]. intros tx Htx. by apply not_elem_of_nil in Htx.
Qed.

Lemma settled_books asks last r r' : books asks last r -> settled r r' -> books asks last r'.
Proof.
  intros [Ha _ _ _] (Hc & Hp & Hd & Hl & _). constructor.
  - by rewrite Ha, Hc, Hl.
  - intros [Hn|Hn]; congruence.
  - intros d. by rewrite Hd.
  - by rewrite Hp.
Qed.

Lemma arm_books asks last now r :
  books asks last r -> last <= now -> forall r', version_request_channels r' = version_request_channels r -> answered (router_log r') = answered (router_log r) ->
  version_check_deadline r' = version_check_deadline r -> (pending_download_after_refresh r' = true -> idle_state (state r')) ->
  (waits r -> is_Some (version_check_deadline r)) -> books asks now (arm_version_check_deadline now r').
Proof.
  intros Hb Hl r' Hc Ha Hd Hi Hw. apply (books_later _ _ now) in Hb; [|done]. destruct Hb as [Hb1 _ Hb3 _].
  unfold arm_version_check_deadline. rewrite Hd. destruct (version_check_deadline r) as [d|] eqn:Hdr.
  - constructor; [by rewrite Hc, Ha|by rewrite Hd|by intros d'; rewrite Hd, Hc; apply Hb3|done].
  - constructor; cbn -[answered]; [by rewrite Hc, Ha|done| |done]. intros d [= <-]. split; [done|]. rewrite Hc. intros tx Htx.
    assert (waits r) as Hwr by (left; intros Hn; rewrite Hn in Htx; by apply not_elem_of_nil in Htx). by destruct (Hw Hwr).
Qed.

Lemma ask_books asks last now tx r : books asks last r -> last <= now -> books (asks ++ [(now, tx)]) now (get_latest_version true now tx r).
Proof.
  intros Hb Hl. unfold get_latest_version. set (r0 := does [CheckRequested] r).
  assert (books asks now (arm_version_check_deadline now r0)) as Hr0.
  { apply (arm_books asks last now r); try done; [exact (books_idle _ _ _ Hb)|exact (books_armed _ _ _ Hb)]. }
  assert (exists d, version_check_deadline (arm_version_check_deadline now r0) = Some d) as [d Hd].
  { unfold arm_version_check_deadline. destruct (version_check_deadline r0) eqn:He; [by eexists|]. by eexists. }
  set (r1 := arm_version_check_deadline now r0) in *. destruct Hr0 as [H1 H2 H3 H4]. constructor; cbn -[answered].
  - rewrite fmap_app, H1. cbn. rewrite <- !app_assoc. f_equiv. by rewrite Permutation_app_comm.
  - intros _. by rewrite Hd.
  - intros d' Hd'. destruct (H3 d' Hd') as [Hn Hc]. split; [done|]. intros x [Hx|Hx%list_elem_of_singleton]%elem_of_app.
    + destruct (Hc x Hx) as (t & Ht & Hb'). exists t. split; [set_solver|done].
    + subst. exists now. split; [set_solver|done].
  - done.
Qed.

Lemma books_quiet asks last r r' :
  books asks last r -> pending_download_after_refresh r = false -> same_books r r' ->
  pending_download_after_refresh r' = pending_download_after_refresh r -> books asks last r'.
Proof. intros Hb Hp Hs Hq. apply (books_keep _ _ r); [done..|]. by rewrite Hq, Hp. Qed.

Lemma wait_books asks last ended r : books asks last r -> books asks last (wait_for_update ended r).
Proof.
  intros Hb. unfold wait_for_update. destruct (state r) as [| |c m|] eqn:Hst; try done.
  assert (pending_download_after_refresh r = false) as Hp.
  { destruct (pending_download_after_refresh r) eqn:Hp; [|done]. pose proof (books_idle _ _ _ Hb Hp) as Hi. by rewrite Hst in Hi. }
  assert (forall r', same_books r r' -> pending_download_after_refresh r' = pending_download_after_refresh r -> books asks last r') as Hkeep.
  { intros r' Hs Hq. by apply (books_quiet _ _ r). }
  destruct ended as [a|]; [|apply Hkeep; [apply goto_same|done]]. destruct (download m a) as [events result].
  assert (same_books r (does (Broadcast <$> events) r)) as H1 by (by apply does_same, Forall_fmap, Forall_forall).
  destruct result as [path|e|], (downloaded_contents a) as [contents|]; apply Hkeep; try done.
Qed.

Lemma beta_books asks last b r r' : books asks last r -> set_beta_program current_version b r = Ok r' -> books asks last r'.
Proof.
  intros Hb. unfold set_beta_program. case_bool_decide; [by intros [= <-]|].
  assert (books asks last (with_beta b r)) as Hb' by (destruct Hb; by constructor).
  cbn [state with_beta]. destruct (get_version_cache (state r)) as [c|] eqn:Hc; [|by intros [= <-]]. case_bool_decide; [by intros [= <-]|].
  assert (forall info, books asks last (notify_version_requesters info (does [VersionEvent info] (goto (HasVersion c) (with_beta b r))))) as Hok.
  { intros info. apply answer_all_books. apply (books_keep _ _ (with_beta b r)); [done| |done].
    apply (same_books_trans _ _ _ (goto_same (HasVersion c) _)). by apply does_same; repeat constructor. }
  destruct (state r); cbn in Hc; simplify_eq; cbn [mbind comp_bind]; intros [= <-]; apply Hok.
Qed.

Lemma cancel_books asks last r r' : books asks last r -> cancel_upgrade current_version r = Ok r' -> books asks last r'.
Proof.
  intros Hb. unfold cancel_upgrade. set (r1 := if pending_download_after_refresh r then _ else r).
  assert (books asks last r1 /\ pending_download_after_refresh r1 = false) as [H1 Hp].
  { subst r1. destruct (pending_download_after_refresh r) eqn:Hp; [|done]. split; [|done]. apply (books_keep _ _ r); [done| |done].
    apply (same_books_trans _ (with_pending false r)); [done|]. by apply does_same; repeat constructor. }
  clearbody r1. cbv zeta. destruct (state r1) as [|c|c m|c p m] eqn:Hst.
  - rewrite Hst. by intros [= <-].
  - rewrite Hst. by intros [= <-].
  - intros [= <-]. by apply (books_quiet _ _ r1); [| |apply goto_same|].
  - cbn. intros [= <-]. set (r2 := does [Broadcast Aborted] (goto (HasVersion c) r1)).
    assert (books asks last r2) as H2.
    { apply (books_quiet _ _ r1); [done|done| |done]. apply (same_books_trans _ _ _ (goto_same (HasVersion c) _)). by apply does_same; repeat constructor. }
    pose proof (answer_all_books _ _ (Ok (to_app_version_info current_version c (beta_program r1) None)) _ H2) as H3.
    by apply (books_quiet _ _ _ _ H3); [|apply does_same; repeat constructor|].
Qed.

Lemma step_books asks last now e r r' :
  books asks last r -> last <= now -> run_step current_version now e r = Ok r' -> books (asks ++ asked [(now, e)]) now r'.
Proof.
  intros Hb Hl Hr. pose proof (books_later _ _ _ _ Hb Hl) as Hn.
  destruct e as [res| |ended|up message]; cbn [asked omap list_omap snd]; rewrite ?app_nil_r.
  - eapply settled_books, check_settles; [done|exact (books_idle _ _ _ Hn)|left; by exists res|done].
  - eapply settled_books, check_settles; [done|exact (books_idle _ _ _ Hn)|by right|done].
  - injection Hr as <-. by apply wait_books.
  - cbn [run_step] in Hr. destruct message; cbn [handle_message fst] in *; rewrite ?app_nil_r.
    + by eapply beta_books.
    + injection Hr as <-. destruct up; [by eapply ask_books|]. unfold get_latest_version.
      destruct Hn as [H1 H2 H3 H4]. constructor; cbn -[answered]; [|done| |done].
      * rewrite fmap_app, H1, <- app_assoc. f_equiv. exact (Permutation_app_comm (answered (router_log r)) [_]).
      * intros d Hd. destruct (H3 d Hd) as [Hd' Hc]. split; [done|]. intros x Hx. destruct (Hc x Hx) as (t & Ht & Ht'). exists t. split; [set_solver|done].
    + injection Hr as <-. unfold update_application. destruct (state r) as [|c| |] eqn:Hst; try done.
      destruct (recommended_version_upgrade _ _ _) as [m|] eqn:Hm; [|done]. destruct (pending_download_after_refresh r) eqn:Hp; [done|].
      destruct up.
      * apply (arm_books asks last now r); try done; [cbn; by rewrite Hst|exact (books_armed _ _ _ Hb)].
      * destruct (start_download_same r) as [Hs Hq]. apply (books_keep _ _ r); [done..|]. rewrite Hq, Hp. done.
    + by eapply cancel_books.
    + by injection Hr as <-.
    + injection Hr as <-. unfold install_application. destruct (state r); (apply (books_keep _ _ r); [done|by apply does_same; repeat constructor|]); intros Hq;
        (split; [done|]); exact (books_idle _ _ _ Hn Hq).
Qed.

(** Time does not go back from a turn to the next. *)
Fixpoint in_time (last : Z) (turns : list (Z * RouterEvent)) : Prop :=
  match turns with [] => True | (now, _) :: turns => last <= now /\ in_time now turns end.

Lemma asked_app t1 t2 : asked (t1 ++ t2) = asked t1 ++ asked t2.
Proof. apply omap_app. Qed.

Lemma run_books asks last turns r r' :
  books asks last r -> in_time last turns -> run current_version turns r = Ok r' ->
  exists last', books (asks ++ asked turns) last' r'.
Proof.
  revert asks last r. induction turns as [|[now e] turns IH]; intros asks last r Hb Ht Hr; cbn [run] in Hr.
  - injection Hr as <-. exists last. by rewrite app_nil_r.
  - destruct Ht as [Hl Ht]. change ((now, e) :: turns) with ([(now, e)] ++ turns). rewrite asked_app, app_assoc.
    destruct (ready now e r) eqn:Hready.
    + apply bind_ok in Hr as (r1 & Hr1 & Hr). eapply IH; [|done|done]. by eapply step_books.
    + eapply IH; [|done|done]. assert (asked [(now, e)] = []) as ->; [|rewrite app_nil_r; by eapply books_later].
      by destruct e.
Qed.

(** C27: Every request for the latest version is answered, once: at any time the requests made are those answered and those that wait; while one waits, or a download put off does, a deadline is set at most 90 s after it was made; and the next result of a check, or the deadline, answers all that wait and starts the download if there is still one to make. *)
Theorem requests_are_answered (beta_program : bool) (start : Z) (turns : list (Z * RouterEvent)) (r : VersionRouter)
  (Htime : in_time start turns)
  (Hrun : run current_version turns (router_new beta_program) = Ok r) :
  (asked turns).*2 ≡ₚ version_request_channels r ++ answered (router_log r) /\
  (waits r -> exists d, version_check_deadline r = Some d /\
     forall tx, tx ∈ version_request_channels r -> exists t, (t, tx) ∈ asked turns /\ d <= t + VERSION_CHECK_DEADLINE) /\
  (forall now e r', (exists result, e = CheckResult result) \/ e = DeadlineElapsed -> run_step current_version now e r = Ok r' -> settled r r').
Proof.
  destruct (run_books [] start turns (router_new beta_program) r) as [last Hb]; [|done|done|].
  - constructor; [done| |done|done]. by intros [?|?].
  - cbn [app] in Hb. split; [exact (books_asked _ _ _ Hb)|]. split.
    + intros Hw. destruct (books_armed _ _ _ Hb Hw) as [d Hd]. exists d. split; [done|]. by apply (books_bound _ _ _ Hb d Hd).
    + intros now e r' He Hstep. eapply check_settles; [exact (books_idle _ _ _ Hb)|done|done].
Qed.
End Answers.
