(* ===== verification/UpdateWitness.v ===== *)
(** * The theorems of the updates at concrete inputs

    A client with a small manifest format, on which every hypothesis of the
    theorems of the versions, the manifest, the router and the upgrades holds;
    and what the code does where it departs from what it says. *)

From S2P Require Import Prelude Decimal Regex Version Update UpdateSpec Upgrade UpgradeSpec VersionRouter VersionRun.
Open Scope Z_scope.

#[local] Instance searching : RegexLite := { captures := @search; captures_spec := fun _ _ _ => eq_refl }.

(** The first 32 bytes, zeros after a shorter text. *)
Definition first_bytes (b : bytes) : bytes := take 32 (b ++ replicate 32 0).
Lemma first_bytes_length b : length (first_bytes b) = 32%nat.
Proof. unfold first_bytes. rewrite length_take, length_app, length_replicate. lia. Qed.
Definition least (_ : bytes) (lo _ : Rollout) : Rollout := lo.
Lemma least_in seed lo hi : lo <= hi -> lo <= least seed lo hi <= hi.
Proof. unfold least. lia. Qed.

#[local] Instance hashes : RolloutHash := {
  Sha256 := first_bytes;
  Sha256_length := first_bytes_length;
  random_range := least;
  random_range_in := least_in
}.

#[local] Instance as_is : HexDecode := { hex_decode := Some }.

Definition v (major minor patch : Z) : Version := mkVersion major minor (Some patch) None None.
Definition one_zero : Version := mkVersion 1 0 None None None.

(** ** Versions *)

Lemma from_str_reads_suffix_witness :
  from_str (lit "2026.3-beta12") = Ok (mkVersion 2026 3 None (Some (Beta 12)) None) /\
  from_str (lit "1.2.3-alpha4-dev-e5483d") = Ok (mkVersion 1 2 (Some 3) (Some (Alpha 4)) (Some (lit "e5483d"))).
Proof.
  split; (apply (proj2 (from_str_reads_suffix _)); [|by vm_compute]);
    (split; [cbn; lia|split; [cbn; lia|split; [cbn; done || lia|split; [cbn; lia|by vm_compute]]]]).
Defined.

(** What comes before a version is ignored, a fourth number too. *)
Lemma version_is_not_anchored :
  from_str (lit "warren-1.0.0") = Ok (v 1 0 0) /\ from_str (lit "1.2.3.4") = Ok (v 2 3 4) /\ from_str (lit "01.0") = Ok one_zero.
Proof. by vm_compute. Qed.

(** ** Who must update *)

(** A running 1.0.0 is made to update by a manifest that lists 1.0, and nothing is offered in its place. *)
Lemma same_version_is_blocked :
  let release := mkRelease one_zero [] ∅ [] FULLY_ROLLED_OUT in
  let response := mkResponse 1 10 None [release] in
  let params := mkVersionParameters X86 SUPPORTED_VERSION true 0 None in
  partial_cmp (v 1 0 0) one_zero = Some Eq /\
  is_current_version_supported (v 1 0 0) response = false /\
  exists info, try_from_response params response = Ok info /\
    recommended_version_upgrade (v 1 0 0) info false = None /\ recommended_version_upgrade (v 1 0 0) info true = None.
Proof.
  cbv zeta. split; [done|]. split; [by vm_compute|].
  eexists. split; [vm_compute; reflexivity|]. split; by vm_compute.
Qed.

(** ** Upgrades *)

Definition package_bytes : bytes := [1; 2; 3].
Definition sample_job : Job := mkJob Deb (lit "/var/cache/o'neil.deb") (Sha256 package_bytes) (lit "/run/w-upgrade.status") (lit "/var/log/app-upgrade.log").
Definition good : Answers := mkAnswers true (Some package_bytes) None true SpawnSuccess true.
Definition idle_host : Host := mkHost false None 0 [].

Definition one_request : list UpgradeEvent := [NewRequest sample_job] ++ replicate 5 (TaskTurn 0 good).

Lemma upgrade_runs_verified_package_witness :
  exists script, effects (upgrade_run one_request ([], idle_host)).2 = [] ++ Spawned sample_job script :: [ReadPackage (package sample_job) package_bytes] /\
    script_reads Deb (package sample_job) (status sample_job) (log sample_job) UPGRADE_PATH script.
Proof.
  eexists. assert (effects (upgrade_run one_request ([], idle_host)).2
    = [] ++ Spawned sample_job (upgrade_script Deb (package sample_job) (status sample_job) (log sample_job) UPGRADE_PATH)
      :: [ReadPackage (package sample_job) package_bytes]) as He by (vm_compute; reflexivity).
  split; [exact He|].
  exact (proj2 (proj2 (upgrade_runs_verified_package one_request idle_host [] _ sample_job _ eq_refl He))).
Defined.

Lemma one_upgrade_at_a_time_witness :
  jobs_running (serial_run [Request sample_job good; Request sample_job good] idle_host) = 1%nat /\
  start_job sample_job good (serial_run [Request sample_job good; Request sample_job good] idle_host)
    = (Done (Err InstallInProgress), serial_run [Request sample_job good; Request sample_job good] idle_host).
Proof.
  destruct (one_upgrade_at_a_time [Request sample_job good; Request sample_job good] idle_host sample_job good) as [Hone|[Hnone _]].
  - by split.
  - by repeat constructor.
  - exact Hone.
  - exfalso. revert Hnone. vm_compute. discriminate.
Defined.

(** Two requests that overlap after a job has ended both find its exit in the
    status file, and both start a package manager. *)
Definition race : list UpgradeEvent :=
  [NewRequest sample_job] ++ replicate 5 (TaskTurn 0 good) ++ [JobExit 100; NewRequest sample_job; NewRequest sample_job]
  ++ [TaskTurn 1 good; TaskTurn 1 good; TaskTurn 2 good; TaskTurn 2 good]
  ++ replicate 4 (TaskTurn 1 good) ++ replicate 4 (TaskTurn 2 good).

Lemma overlapping_retries_run_two_upgrades : jobs_running (upgrade_run race ([], idle_host)).2 = 2%nat.
Proof. by vm_compute. Qed.

(** ** A client, its manifests and a day of its router *)

Definition trusted_key : bytes := [9].
Definition package_of (r : Version) : Release :=
  mkRelease r (lit "notes") ∅
    [mkInstaller X86 [lit "https://updates/w.rpm"] 3 (first_bytes [0]) (Some (lit "rpm"));
     mkInstaller X86 [lit "https://updates/w.deb"] 3 (first_bytes package_bytes) (Some (lit "deb"))] FULLY_ROLLED_OUT.
(** The manifest of a metadata version: each publishes a release more. *)
Definition manifest_of (n : Z) : Response :=
  mkResponse n 100 None (package_of <$> (v 1 0 0 :: ((fun k => v 1 (Z.of_nat k) 0) <$> seq 1 (Z.to_nat n)))).

#[local] Instance manifests : ManifestFormat := {
  JsonValue := Z;
  partial_from_slice raw :=
    match raw with
    | [n] => Some ([OtherSignature [] []; Ed25519 [8] []; Ed25519 trusted_key (trusted_key ++ [n])], n)
    | _ => None
    end;
  canon_to_vec n := Some [n];
  value_from_slice s := head s;
  response_from_value n := Some (manifest_of n);
  verify_strict key message sig := bool_decide (sig = key ++ message)
}.

Definition client : Client := mkClient [trusted_key] (lit "1.0.0") X86 true (Some 5).
Definition round (n : option Z) (at_ : Z) : Round := mkRound (Some Deb) ((fun n => [n]) <$> n) at_.
(** The third round is replayed an old manifest, the fourth one that has expired. *)
Definition rounds : list Round := [round (Some 2) 0; round None 5; round (Some 1) 6; round (Some 3) 200; round (Some 3) 7].
Definition results : list (option VersionCache) := version_updater_loop client MIN_VERIFY_METADATA_VERSION rounds.
Definition cache_at (k : nat) : VersionCache :=
  match results !! k with Some (Some c) => c | _ => mkVersionCache one_zero true (mkVersionInfo (mkMetadata one_zero [] 0 [] ∅ []) None) 0 0 None end.

Lemma results_are : map (option_map cache_metadata_version) results = [Some 2; None; None; None; Some 3].
Proof. by vm_compute. Qed.

Lemma checks_never_roll_back_witness :
  results !! 4%nat = Some (Some (cache_at 4)) /\ cache_metadata_version (cache_at 0) <= cache_metadata_version (cache_at 4).
Proof.
  assert (results !! 4%nat = Some (Some (cache_at 4))) as Hk by (vm_compute; reflexivity). split; [exact Hk|].
  apply (checks_never_roll_back client MIN_VERIFY_METADATA_VERSION rounds 0 4 (round (Some 3) 7) (cache_at 4) (cache_at 0) eq_refl Hk); [lia|].
  vm_compute. reflexivity.
Defined.

Definition downloaded_package : DownloadAnswers := mkDownloadAnswers head (Some (lit "/cache")) (Some Deb) true (Some package_bytes).
Definition day : list (Z * RouterEvent) :=
  [(0, FromDaemon true (GetLatestVersion 1)); (1, CheckResult (Some (cache_at 0))); (2, FromDaemon true UpdateApplication);
   (3, FromDaemon true (GetLatestVersion 2)); (4, CheckResult (Some (cache_at 4))); (5, DownloadEnded (Some downloaded_package));
   (6, FromDaemon true InstallApplication)].

(** The router after the day. *)
Definition evening : VersionRouter := match run (v 1 0 0) day (router_new false) with Ok r => r | _ => router_new false end.

Lemma run_day : run (v 1 0 0) day (router_new false) = Ok evening.
Proof. vm_compute. reflexivity. Qed.

Lemma sent_by_poller k : results !! k = Some (Some (cache_at k)) -> Some (cache_at k) ∈ version_updater_loop client MIN_VERIFY_METADATA_VERSION rounds.
Proof. intros Hk. by apply list_elem_of_lookup_2 in Hk. Qed.

(** The checks of the day are the poller's. *)
Lemma day_checks cache :
  cache ∈ concat ((fun t => received t.2) <$> day) -> Some cache ∈ version_updater_loop client MIN_VERIFY_METADATA_VERSION rounds.
Proof.
  assert (concat ((fun t => received t.2) <$> day) = [cache_at 0; cache_at 4]) as -> by reflexivity.
  intros [->|[->|Hc%not_elem_of_nil]%elem_of_cons]%elem_of_cons; [apply sent_by_poller; vm_compute; reflexivity..|done].
Qed.

(** What the day installs: version 1.3.0, which the last manifest published, at its path. *)
Lemma installs_only_offered_upgrades_witness :
  head (router_log evening) = Some (InstallStarted (lit "/cache/warren-1.3.0.deb") (first_bytes package_bytes)) /\
  exists m contents, DownloadReturned m contents (lit "/cache/warren-1.3.0.deb") ∈ tail (router_log evening) /\
    first_bytes package_bytes = sha256 m /\ first_bytes contents = sha256 m /\ offered client rounds m /\ version_gt (version m) (v 1 0 0) = true.
Proof.
  assert (head (router_log evening) = Some (InstallStarted (lit "/cache/warren-1.3.0.deb") (first_bytes package_bytes))) as Hhead by (vm_compute; reflexivity).
  split; [exact Hhead|].
  destruct (installs_only_offered_upgrades client rounds (v 1 0 0) false day) as (r & Hr & Hinstalls & _).
  - vm_compute. reflexivity.
  - exact day_checks.
  - rewrite run_day in Hr. apply Ok_inj in Hr as <-. destruct (router_log evening) as [|e l] eqn:Hl; [done|]. cbn in Hhead. injection Hhead as ->.
    destruct (Hinstalls [] l _ _ eq_refl) as (m & contents & Hin & Hsha & Hsame & Hoff & Hgt).
    exists m, contents. split; [exact Hin|]. split; [exact Hsha|]. split; [symmetry; exact Hsame|]. split; [exact Hoff|exact Hgt].
Defined.

(** Two requests were made and answered; between them, one waits. *)
Definition morning : VersionRouter := match run (v 1 0 0) (take 4 day) (router_new false) with Ok r => r | _ => router_new false end.

Lemma requests_are_answered_witness :
  version_request_channels morning = [2] /\ version_check_deadline morning = Some (2 + VERSION_CHECK_DEADLINE) /\
  (asked (take 4 day)).*2 ≡ₚ version_request_channels morning ++ answered (router_log morning).
Proof.
  assert (run (v 1 0 0) (take 4 day) (router_new false) = Ok morning) as Hrun by (vm_compute; reflexivity).
  split; [vm_compute; reflexivity|]. split; [vm_compute; reflexivity|].
  refine (proj1 (requests_are_answered (v 1 0 0) false 0 (take 4 day) morning _ Hrun)).
  cbn. lia.
Defined.
