(* ===== verification/PeerFence.v ===== *)
(** * The relays the firewall names (talpid-warren-tunnel/src/peer_fence.rs)

    The fence, and the tasks that share it: the worker that opens the firewall
    for a migration before it dials, the tasks that narrow it once a session
    has landed, and the route sessions.  The fence's lock is held until the
    firewall took the set computed under it; a step goes from one await to the
    next, and which task is given the lock next is left open.  The tunnel is up: the fence outlives its tasks. *)

From S2P Require Import Prelude Net Networks Routes Tunnel.
Open Scope Z_scope.

Section PeerFence.
Context `{!Networks} `{!Descriptors}.

Record Peers : Type := mkPeers {
  landed : list Endpoint;
  pending : list Endpoint;
  routes : list Endpoint
}.

(** [Peers::named]: each endpoint once, in order. *)
Definition named (p : Peers) : list Endpoint :=
  fold_left (fun named endpoint => if bool_decide (endpoint ∈ named) then named else named ++ [endpoint])
    (landed p ++ pending p ++ routes p) [].

Definition relay_endpoints (relay : RelayDescriptorSigned) : list Endpoint :=
  addr ← relay_endpoint relay :: match relay_endpoint_v6 relay with Some addr => [addr] | None => [] end;
  carriers addr.

(** [PeerFence::new], and what each operation makes of the peers. *)
Definition fence_new (in_use : RelayDescriptorSigned) : Peers := mkPeers (relay_endpoints in_use) [] [].

Definition open_for (target : RelayDescriptorSigned) (p : Peers) : Peers :=
  mkPeers (landed p)
    (fold_left (fun pending endpoint =>
       if bool_decide (endpoint ∈ landed p) || bool_decide (endpoint ∈ pending) then pending else pending ++ [endpoint])
      (relay_endpoints target) (pending p))
    (routes p).

Definition landed_on (relay : RelayDescriptorSigned) (p : Peers) : Peers := mkPeers (relay_endpoints relay) [] (routes p).

Definition name_routes (relays : list RelayDescriptorSigned) (p : Peers) : Peers :=
  mkPeers (landed p) (pending p) (relay ← relays; relay_endpoints relay).

(** ** The tasks *)

(** What the holder of the lock does once the firewall took the set: the
    worker of the migrations hands the target to the supervisor, which dials it. *)
Inductive Holder : Type :=
| OpeningFor (target : RelayDescriptorSigned)
| Narrowing
| NamingRoutes.

Record Fence : Type := mkFence {
  peers : Peers;
  lock : option (Holder * list Endpoint);
  applied : list Endpoint;
  targets : list RelayDescriptorSigned;
  landings : list RelayDescriptorSigned;
  dials : list (RelayDescriptorSigned * list Endpoint)
}.

(** The fence of a tunnel whose firewall names the relay it was started with. *)
Definition fence_start (in_use : RelayDescriptorSigned) : Fence :=
  mkFence (fence_new in_use) None (named (fence_new in_use)) [] [] [].

Inductive FenceEvent : Type :=
| MigrateTo (target : RelayDescriptorSigned)   (* [WarrenMigrateHandle::migrate_to] *)
| Swapped (relay : RelayDescriptorSigned)      (* [swap_observer]: spawns a task *)
| WorkerTurn                                   (* the worker takes the lock for its next target *)
| LandingTurn (i : nat)                        (* a spawned task takes the lock *)
| RoutesTurn (relays : list RelayDescriptorSigned)
| FirewallTook.                                (* the firewall applied the set of the holder *)

(** The lock is taken, the set computed and handed to the firewall. *)
Definition hold (h : Holder) (p : Peers) (f : Fence) : Fence :=
  mkFence p (Some (h, named p)) (applied f) (targets f) (landings f) (dials f).

Definition fence_step (e : FenceEvent) (f : Fence) : Fence :=
  match e with
  | MigrateTo target => mkFence (peers f) (lock f) (applied f) (targets f ++ [target]) (landings f) (dials f)
  | Swapped relay => mkFence (peers f) (lock f) (applied f) (targets f) (landings f ++ [relay]) (dials f)
  | WorkerTurn =>
      match lock f, targets f with
      | None, target :: rest =>
          hold (OpeningFor target) (open_for target (peers f))
            (mkFence (peers f) None (applied f) rest (landings f) (dials f))
      | _, _ => f
      end
  | LandingTurn i =>
      match lock f, landings f !! i with
      | None, Some relay =>
          hold Narrowing (landed_on relay (peers f))
            (mkFence (peers f) None (applied f) (targets f) (take i (landings f) ++ drop (S i) (landings f)) (dials f))
      | _, _ => f
      end
  | RoutesTurn relays =>
      match lock f with
      | None => hold NamingRoutes (name_routes relays (peers f)) f
      | Some _ => f
      end
  | FirewallTook =>
      match lock f with
      | Some (OpeningFor target, set) => mkFence (peers f) None set (targets f) (landings f) ((target, set) :: dials f)
      | Some (_, set) => mkFence (peers f) None set (targets f) (landings f) (dials f)
      | None => f
      end
  end.
Definition fence_run (evs : list FenceEvent) (f : Fence) : Fence := fold_left (fun f e => fence_step e f) evs f.

(** ** What is named *)

Lemma elem_of_named p e : e ∈ named p <-> e ∈ landed p \/ e ∈ pending p \/ e ∈ routes p.
Proof.
  rewrite <- !elem_of_app. unfold named. generalize (landed p ++ pending p ++ routes p). intros l.
  assert (forall acc, e ∈ fold_left (fun named endpoint => if bool_decide (endpoint ∈ named) then named else named ++ [endpoint]) l acc <-> e ∈ acc \/ e ∈ l) as Hl.
  { induction l as [|x l IH]; intros acc; cbn [fold_left]; [set_solver|]. rewrite IH. case_bool_decide; set_solver. }
  rewrite Hl. set_solver.
Qed.

Lemma named_NoDup p : NoDup (named p).
Proof.
  unfold named. generalize (landed p ++ pending p ++ routes p). intros l.
  assert (forall acc, NoDup acc -> NoDup (fold_left (fun named endpoint => if bool_decide (endpoint ∈ named) then named else named ++ [endpoint]) l acc)) as Hl.
  { induction l as [|x l IH]; intros acc Hacc; cbn [fold_left]; [done|]. apply IH. case_bool_decide; [done|].
    apply NoDup_app. split; [done|]. split; [set_solver|apply NoDup_singleton]. }
  apply Hl, NoDup_nil_2.
Qed.

Lemma open_for_pending target p e :
  e ∈ landed p \/ e ∈ pending (open_for target p) <-> e ∈ landed p \/ e ∈ pending p \/ e ∈ relay_endpoints target.
Proof.
  unfold open_for. cbn [pending]. generalize (relay_endpoints target) (pending p). intros l.
  induction l as [|x l IH]; intros acc; cbn [fold_left]; [set_solver|]. rewrite IH.
  destruct (bool_decide (x ∈ landed p)) eqn:Hx; cbn [orb].
  - apply bool_decide_eq_true in Hx. rewrite elem_of_cons. naive_solver.
  - clear Hx. case_bool_decide; rewrite ?elem_of_app, ?list_elem_of_singleton, elem_of_cons; naive_solver.
Qed.

(** ** The fence over its runs *)

(** The firewall has the set of the peers, or is being given it. *)
Definition fence_inv (f : Fence) : Prop :=
  match lock f with
  | None => applied f = named (peers f)
  | Some (h, set) => set = named (peers f) /\
      match h with OpeningFor target => forall e, e ∈ relay_endpoints target -> e ∈ landed (peers f) \/ e ∈ pending (peers f) | _ => True end
  end.

Lemma fence_step_inv e f : fence_inv f -> fence_inv (fence_step e f).
Proof.
  destruct f as [p l a ts ls ds]. unfold fence_inv. destruct e as [target|relay| |i|relays|]; cbn [fence_step lock targets landings]; try done.
  - destruct l; [done|]. destruct ts as [|t rest]; [done|]. intros _. cbn. split; [done|].
    intros x Hx. apply (open_for_pending t p x). tauto.
  - destruct l; [done|]. by destruct (ls !! i).
  - by destruct l.
  - destruct l as [[[t| |] set]|]; cbn; tauto.
Qed.

Definition is_landing (e : FenceEvent) : bool := match e with LandingTurn _ => true | _ => false end.

(** Endpoints the firewall names, and that only a landing drops. *)
Definition kept (f : Fence) (es : list Endpoint) : Prop :=
  forall e, e ∈ es -> e ∈ applied f /\ (e ∈ landed (peers f) \/ e ∈ pending (peers f)).

Lemma kept_step e f es : is_landing e = false -> fence_inv f -> kept f es -> kept (fence_step e f) es.
Proof.
  intros He Hinv Hk x Hx. destruct (Hk x Hx) as [Ha Hp]. destruct e as [target|relay| |i|relays|]; cbn [fence_step is_landing] in *; try done.
  - destruct (lock f); [done|]. destruct (targets f) as [|t rest]; [done|]. cbn [hold applied peers]. split; [done|].
    change (landed (open_for t (peers f))) with (landed (peers f)). apply open_for_pending. tauto.
  - by destruct (lock f).
  - unfold fence_inv in Hinv. destruct (lock f) as [[[t| |] set]|]; cbn; [..|done]; destruct Hinv as [-> _]; split; try done; apply elem_of_named; tauto.
Qed.

Lemma fence_run_inv evs f : fence_inv f -> fence_inv (fence_run evs f).
Proof. revert f. induction evs as [|e evs IH]; intros f Hf; [done|]. by apply IH, fence_step_inv. Qed.

Lemma fence_start_inv in_use : fence_inv (fence_start in_use).
Proof. done. Qed.

(** The set the firewall has when a dial starts names its relay. *)
Definition dials_named (f : Fence) : Prop :=
  forall target set e, (target, set) ∈ dials f -> e ∈ relay_endpoints target -> e ∈ set.

Lemma fence_step_dials e f : fence_inv f -> dials_named f -> dials_named (fence_step e f).
Proof.
  destruct f as [p l a ts ls ds]. unfold fence_inv, dials_named. cbn [lock peers dials]. intros Hinv Hd.
  destruct e as [target|relay| |i|relays|]; cbn [fence_step lock targets landings]; try done.
  - destruct l; [done|]. by destruct ts.
  - destruct l; [done|]. by destruct (ls !! i).
  - by destruct l.
  - destruct l as [[[t| |] set]|]; cbn [dials]; try done. intros t' set' x [Heq|Hin]%elem_of_cons Hx; [|by eapply Hd].
    injection Heq as -> ->. destruct Hinv as [-> Ht]. apply elem_of_named. destruct (Ht x Hx); tauto.
Qed.

Lemma kept_run evs f es : forallb (fun e => negb (is_landing e)) evs = true -> fence_inv f -> kept f es -> kept (fence_run evs f) es.
Proof.
  revert f. induction evs as [|e evs IH]; intros f He Hinv Hk; [done|]. cbn in He. apply andb_true_iff in He as [He Hevs].
  apply negb_true_iff in He. apply IH; [done|by apply fence_step_inv|by apply kept_step].
Qed.

(** C15: The firewall names what the tunnel may reach and no more: whatever the order of the migrations, the landings and the route sessions, the set it has, or is being given, is the relay landed on, those being migrated to and those of the routes, each endpoint once; every migration is dialed under a set that names its relay at both its addresses over both carriers; and the relay stays named until a landing is reported. *)
Theorem migrations_dial_named_relays (in_use : RelayDescriptorSigned) (evs : list FenceEvent) :
  let f := fence_run evs (fence_start in_use) in
  let set := match lock f with Some (_, set) => set | None => applied f end in
  NoDup set /\
  (forall e, e ∈ set <-> e ∈ landed (peers f) \/ e ∈ pending (peers f) \/ e ∈ routes (peers f)) /\
  (forall target set e, (target, set) ∈ dials f -> e ∈ relay_endpoints target -> e ∈ set) /\
  (forall target given later, lock f = Some (OpeningFor target, given) ->
     forallb (fun e => negb (is_landing e)) later = true ->
     forall e, e ∈ relay_endpoints target -> e ∈ applied (fence_run (FirewallTook :: later) f)).
Proof.
  intros f set. pose proof (fence_run_inv evs _ (fence_start_inv in_use)) as Hinv. fold f in Hinv.
  assert (set = named (peers f)) as ->.
  { subst set. unfold fence_inv in Hinv. destruct (lock f) as [[h given]|]; [by destruct Hinv|done]. }
  split; [apply named_NoDup|]. split; [apply elem_of_named|]. split.
  - assert (dials_named (fence_start in_use)) as Hd by (intros t given e Hin; by apply not_elem_of_nil in Hin).
    subst f. clear Hinv. revert Hd. pose proof (fence_start_inv in_use) as Hinv. revert Hinv. generalize (fence_start in_use).
    induction evs as [|e evs IH]; intros f Hinv Hd; [exact Hd|]. apply IH; [by apply fence_step_inv|by apply fence_step_dials].
  - intros target given later Hl Hlater e He. cbn [fence_run fold_left].
    apply (kept_run later (fence_step FirewallTook f) (relay_endpoints target)); [done|by apply fence_step_inv| |done].
    intros x Hx. unfold fence_inv in Hinv. cbn [fence_step]. rewrite Hl in *. cbn. destruct Hinv as [-> Ht].
    specialize (Ht x Hx). split; [apply elem_of_named; tauto|done].
Qed.

(** A landing whose task runs after a later migration was opened takes the
    relay of that migration away while it is dialed. *)
Lemma late_landing_closes_migration (in_use a b : RelayDescriptorSigned) (e : Endpoint) :
  e ∈ relay_endpoints b -> e ∉ relay_endpoints a ->
  let f := fence_run [Swapped a; MigrateTo b; WorkerTurn; FirewallTook; LandingTurn 0; FirewallTook] (fence_start in_use) in
  map fst (dials f) = [b] /\ e ∉ applied f.
Proof.
  intros Hb Ha f. split; [done|].
  change (applied f) with (named (landed_on a (open_for b (fence_new in_use)))). rewrite elem_of_named.
  cbn [landed pending routes landed_on open_for fence_new].
  intros [He|[He|He]]; [done|by apply not_elem_of_nil in He..].
Qed.
End PeerFence.
