(* ===== verification/Preflight.v ===== *)
(** * Pinned ports before a migration commits (talpid-warren-tunnel/src/natpmp_preflight.rs)

    The packets a reservation travels in, built and read here rather than by
    a socket, and the gate that reserves every pinned port on the candidate
    exit.  The exchange is a tree of what it sends and awaits, so that the
    gate's deadline may cut it between any two awaits. *)

From S2P Require Import Prelude Net Ip Checksum Reset.
Open Scope Z_scope.

(** ** The packets *)

Definition GATEWAY_IP : bytes := [10; 66; 0; 1].
Definition NATPMP_PORT : Z := 5351.
Definition PREFLIGHT_SRC_PORT : Z := 5350.
Definition IPV4_HEADER_LEN : Z := 20.
Definition UDP_HEADER_LEN : Z := 8.

(** [chunks_exact(2).remainder()] *)
Fixpoint remainder (data : bytes) : bytes :=
  match data with _ :: _ :: data => remainder data | _ => data end.

(** The sums of a packet do not leave a [u32]. *)
Definition ones_complement_sum {E : Type} (data : bytes) (seed : Z) : comp E Z :=
  let sum := foldl Z.add seed (words data) in
  let sum := match remainder data with [last] => sum + u16_be last 0 | _ => sum end in
  fold_carries 3 sum.

Definition checksum {E : Type} (data : bytes) : comp E Z :=
  sum ← ones_complement_sum data 0; Ok (65535 - sum mod 65536).

Definition udp_checksum {E : Type} (src dst udp_segment : bytes) : comp E Z :=
  let pseudo := src ++ dst ++ [0; PROTO_UDP] ++ be16 (zlen udp_segment) in
  seed ← ones_complement_sum pseudo 0;
  sum ← ones_complement_sum udp_segment seed;
  Ok (65535 - sum mod 65536).

Definition encapsulate {E : Type} (src payload : bytes) : comp E bytes :=
  let total_len := IPV4_HEADER_LEN + UDP_HEADER_LEN + zlen payload in
  let pkt := zeros (Z.to_nat total_len) in
  pkt ← copy_at pkt 0 [69];
  pkt ← copy_at pkt 1 [0];
  pkt ← copy_at pkt 2 (be16 total_len);
  pkt ← copy_at pkt 8 [64];
  pkt ← copy_at pkt 9 [PROTO_UDP];
  pkt ← copy_at pkt 12 src;
  pkt ← copy_at pkt 16 GATEWAY_IP;
  header ← slice pkt 0 IPV4_HEADER_LEN;
  ip_csum ← checksum header;
  pkt ← copy_at pkt 10 (be16 ip_csum);
  pkt ← copy_at pkt (IPV4_HEADER_LEN + 0) (be16 PREFLIGHT_SRC_PORT);
  pkt ← copy_at pkt (IPV4_HEADER_LEN + 2) (be16 NATPMP_PORT);
  pkt ← copy_at pkt (IPV4_HEADER_LEN + 4) (be16 (UDP_HEADER_LEN + zlen payload));
  pkt ← copy_at pkt (IPV4_HEADER_LEN + UDP_HEADER_LEN) payload;
  segment ← slice pkt IPV4_HEADER_LEN total_len;
  udp_csum ← udp_checksum src GATEWAY_IP segment;
  let udp_csum := if udp_csum =? 0 then 65535 else udp_csum in
  copy_at pkt (IPV4_HEADER_LEN + 6) (be16 udp_csum).

Definition deencapsulate {E : Type} (pkt : bytes) : comp E (option bytes) :=
  if zlen pkt <? IPV4_HEADER_LEN + UDP_HEADER_LEN then Ok None else
  b0 ← index pkt 0;
  let ihl := Z.land b0 15 * 4 in
  b9 ← index pkt 9;
  if negb (Z.shiftr b0 4 =? 4) || (ihl <? IPV4_HEADER_LEN) || negb (b9 =? PROTO_UDP) then Ok None else
  b12 ← index pkt 12; b13 ← index pkt 13; b14 ← index pkt 14; b15 ← index pkt 15;
  if negb (bool_decide ([b12; b13; b14; b15] = GATEWAY_IP)) then Ok None else
  match get_slice pkt ihl (zlen pkt) with
  | None => Ok None
  | Some udp =>
      if zlen udp <? UDP_HEADER_LEN then Ok None else
      u0 ← index udp 0; u1 ← index udp 1; u2 ← index udp 2; u3 ← index udp 3;
      if negb (u16_be u0 u1 =? NATPMP_PORT) || negb (u16_be u2 u3 =? PREFLIGHT_SRC_PORT) then Ok None else
      payload ← slice udp UDP_HEADER_LEN (zlen udp);
      Ok (Some payload)
  end.

(** ** Lemmas on the packets *)

Lemma ones_complement_sum_wsum {E : Type} data seed :
  @ones_complement_sum E data seed = fold_carries 3 (seed + wsum data).
Proof.
  unfold ones_complement_sum. f_equal. revert seed.
  induction data as [|a|a b l IH] using bytes_ind2; intros seed; cbn [words remainder foldl wsum]; [lia|lia|].
  rewrite IH. lia.
Qed.

(** What a folded sum leaves completes it. *)
Lemma complements {E : Type} s :
  0 < s < 4294967296 ->
  exists r, @fold_carries E 3 s = Ok r /\ is_u16 r /\ 0 < r /\ r ≡₁ s /\
    is_u16 (65535 - r mod 65536) /\ 65535 - r mod 65536 + s ≡₁ 0.
Proof.
  intros Hs. destruct (@fold_carries_ok E s) as (r & Hr & Hu & [j Hj] & Hp); [unfold is_u32; lia|].
  specialize (Hp ltac:(lia)). unfold is_u16 in Hu. exists r. rewrite Z.mod_small by lia. split_and!; try done; try lia; try (unfold is_u16; lia).
  - by exists j.
  - exists (1 - j). lia.
Qed.

(** A write into the front of a buffer leaves the rest of it. *)
Lemma copy_at_front {E : Type} (h rest : bytes) a new :
  0 <= a -> a + zlen new <= zlen h ->
  @copy_at E (h ++ rest) a new = (h ← copy_at h a new; Ok (h ++ rest)).
Proof.
  intros Ha Hl. pose proof (zlen_nonneg rest). rewrite !copy_at_ok by (rewrite ?zlen_app; lia). cbn. f_equal.
  unfold overwrite. rewrite <- !app_assoc. unfold zlen in *. rewrite take_app_le, drop_app_le by lia. done.
Qed.

Lemma copy_at_rest {E : Type} (h rest new : bytes) :
  zlen rest = zlen new -> @copy_at E (h ++ rest) (zlen h) new = Ok (h ++ new).
Proof.
  intros Hl. pose proof (zlen_nonneg h). rewrite copy_at_ok by (rewrite ?zlen_app; lia). f_equal.
  unfold overwrite, zlen in *. rewrite Nat2Z.id, take_app_length. f_equal.
  rewrite drop_ge by (rewrite length_app; lia). by rewrite app_nil_r.
Qed.

Lemma slice_front {E : Type} (h rest : bytes) a b :
  0 <= a <= b -> b <= zlen h -> @slice E (h ++ rest) a b = slice h a b.
Proof.
  intros Ha Hb. pose proof (zlen_nonneg rest). rewrite !slice_ok by (rewrite ?zlen_app; lia). f_equal.
  unfold sub, zlen in *. rewrite drop_app_le by lia. rewrite take_app_le; [done|rewrite length_drop; lia].
Qed.

Lemma slice_back {E : Type} (h rest : bytes) a b :
  0 <= a <= zlen h -> b = zlen h + zlen rest -> @slice E (h ++ rest) a b = Ok (drop (Z.to_nat a) h ++ rest).
Proof.
  intros Ha ->. pose proof (zlen_nonneg rest). rewrite slice_ok by (rewrite ?zlen_app; lia). f_equal.
  unfold sub, zlen in *. rewrite drop_app_le by lia. apply take_ge. rewrite length_app, length_drop. lia.
Qed.

(** The checksum of a segment completes its sum, its pseudo header's included. *)
Lemma udp_checksum_completes {E : Type} src dst segment :
  bytes_ok src -> zlen src = 4 -> bytes_ok dst -> zlen dst = 4 -> bytes_ok segment -> zlen segment < 65536 ->
  exists c, @udp_checksum E src dst segment = Ok c /\ is_u16 (if c =? 0 then 65535 else c) /\ 0 < (if c =? 0 then 65535 else c) /\ (if c =? 0 then 65535 else c) + (wsum src + wsum dst + 17 + zlen segment + wsum segment) ≡₁ 0.
Proof.
  intros Hs Hls Hd Hld Hg Hlg. unfold udp_checksum. rewrite ones_complement_sum_wsum.
  pose proof (wsum_nonneg src Hs). pose proof (wsum_nonneg dst Hd). pose proof (wsum_nonneg segment Hg). pose proof (zlen_nonneg segment).
  assert (wsum (src ++ dst ++ [0; PROTO_UDP] ++ be16 (zlen segment)) = wsum src + (wsum dst + (17 + zlen segment))) as ->.
  { rewrite !wsum_app by (rewrite ?Hls, ?Hld; reflexivity). rewrite wsum_be16 by (unfold is_u16; lia). done. }
  destruct (@complements E (0 + (wsum src + (wsum dst + (17 + zlen segment))))) as (r & -> & Hru & Hr0 & [j Hj] & _); [lia|].
  rewrite bind_Ok, ones_complement_sum_wsum. unfold is_u16 in Hru.
  destruct (@complements E (r + wsum segment)) as (t & -> & _ & _ & _ & Hc & [k Hk]); [lia|]. rewrite bind_Ok.
  eexists. split; [done|]. unfold is_u16 in *. destruct (Z.eqb_spec (65535 - t mod 65536) 0) as [Hz|]; (split; [lia|]); (split; [lia|]).
  - rewrite Hz in Hk. exists (k - j + 1). lia.
  - exists (k - j). lia.
Qed.

(** The bytes of a reservation's packet. *)
Definition datagram (src payload : bytes) (ip_csum udp_csum : Z) : bytes :=
  ([69; 0] ++ be16 (28 + zlen payload) ++ [0; 0; 0; 0; 64; 17] ++ be16 ip_csum ++ src ++ GATEWAY_IP
     ++ be16 PREFLIGHT_SRC_PORT ++ be16 NATPMP_PORT ++ be16 (8 + zlen payload) ++ be16 udp_csum) ++ payload.

(** Runs the next write, which ends in the front of the buffer. *)
Ltac front_write :=
  match goal with
  | |- context [@copy_at ?E (?h ++ ?rest) ?a ?new] =>
      rewrite (copy_at_front h rest a new) by (unfold zlen; cbn [length]; lia);
      let r := eval vm_compute in (@copy_at E h a new) in
      replace (@copy_at E h a new) with r by (vm_compute; reflexivity); rewrite !bind_Ok
  end.

Lemma encapsulate_datagram {E : Type} src payload :
  bytes_ok src -> zlen src = 4 -> bytes_ok payload -> zlen payload < 65000 ->
  exists ip_csum udp_csum, @encapsulate E src payload = Ok (datagram src payload ip_csum udp_csum) /\
    is_u16 ip_csum /\ is_u16 udp_csum /\
    verifies (wsum (take 20 (datagram src payload ip_csum udp_csum))) = true /\
    verifies (wsum src + wsum GATEWAY_IP + 17 + (8 + zlen payload)
                + wsum (drop 20 (datagram src payload ip_csum udp_csum))) = true.
Proof.
  intros Hs (s0 & s1 & s2 & s3 & ->)%four_bytes Hp Hl. pose proof (zlen_nonneg payload).
  pose proof (wsum_nonneg payload Hp) as Hw.
  unfold encapsulate, datagram, IPV4_HEADER_LEN, UDP_HEADER_LEN, GATEWAY_IP, PROTO_UDP.
  change (be16 PREFLIGHT_SRC_PORT) with [20; 230]. change (be16 NATPMP_PORT) with [20; 231].
  change (20 + 8 + zlen payload) with (28 + zlen payload).
  assert (zeros (Z.to_nat (28 + zlen payload)) = zeros 28 ++ zeros (length payload)) as ->.
  { unfold zeros, zlen in *. rewrite Z2Nat.inj_add, Nat2Z.id by lia. apply replicate_add. }
  destruct (be16_pair (28 + zlen payload)) as (t0 & t1 & -> & Ht & ? & ?). specialize (Ht ltac:(unfold is_u16; lia)).
  destruct (be16_pair (8 + zlen payload)) as (v0 & v1 & Ev & Hv & ? & ?). specialize (Hv ltac:(unfold is_u16; lia)). rewrite Ev.
  unfold zeros at 1. cbn [replicate]. do 7 front_write.
  rewrite slice_front by (unfold zlen; cbn [length]; lia). rewrite slice_ok by (unfold zlen; cbn [length]; lia). rewrite bind_Ok.
  match goal with |- context [sub ?l ?a ?b] => let r := eval vm_compute in (sub l a b) in change (sub l a b) with r end.
  unfold checksum. rewrite ones_complement_sum_wsum.
  match goal with |- context [@fold_carries _ 3 ?s] => destruct (@complements E s) as (r & -> & _ & _ & _ & Hc & Hsum) end.
  { cbn [wsum]. unfold u16_be in *. byte_facts. lia. }
  rewrite !bind_Ok. revert Hc Hsum. generalize (65535 - r mod 65536) as c. intros c Hc Hsum.
  destruct (be16_pair c) as (c0 & c1 & Ec & Hcc & ? & ?). specialize (Hcc Hc). rewrite Ec. do 4 front_write.
  match goal with |- context [@copy_at ?E (?h ++ ?rest) _ payload] =>
    change (@copy_at E (h ++ rest) (20 + 8) payload) with (@copy_at E (h ++ rest) (zlen h) payload);
    rewrite (copy_at_rest h rest payload) by (unfold zeros, zlen; by rewrite length_replicate) end.
  rewrite bind_Ok, slice_back by (unfold zlen; cbn [length]; lia). rewrite bind_Ok.
  match goal with |- context [drop (Z.to_nat 20) ?l] => let r := eval vm_compute in (drop (Z.to_nat 20) l) in change (drop (Z.to_nat 20) l) with r end.
  match goal with |- context [@udp_checksum E ?s ?d ?g] => destruct (@udp_checksum_completes E s d g) as (u & -> & Hu & Hu0 & Husum) end; try done.
  { buffer_ok. }
  { apply Forall_app. split; [buffer_ok|done]. }
  { rewrite zlen_app. unfold zlen at 1. cbn [length]. lia. }
  rewrite bind_Ok. revert Hu Hu0 Husum. generalize (if u =? 0 then 65535 else u) as w. intros w Hu Hu0 Husum.
  exists c, w. destruct (be16_pair w) as (w0 & w1 & Ew & Hww & ? & ?). specialize (Hww Hu). rewrite Ec, Ew. front_write.
  split; [done|]. split; [done|]. split; [done|]. rewrite zlen_app in Husum. unfold zlen at 1 in Husum. cbn [length] in Husum.
  destruct Hsum as [k Hk], Husum as [j Hj].
  match goal with |- context [take 20 ?l] => change (take 20 l) with [69; 0; t0; t1; 0; 0; 0; 0; 64; 17; c0; c1; s0; s1; s2; s3; 10; 66; 0; 1] end.
  match goal with |- context [drop 20 ?l] => change (drop 20 l) with ([20; 230; 20; 231; v0; v1; w0; w1] ++ payload) end.
  cbn [app wsum] in *. split; apply verifies_intro; [|exists k| |exists j]; unfold u16_be in *; byte_facts; lia.
Qed.

(** What a packet of twenty bytes and more is read as. *)
Lemma deencapsulate_head {E : Type} b0 b1 b2 b3 b4 b5 b6 b7 b8 b9 b10 b11 b12 b13 b14 b15 b16 b17 b18 b19 rest :
  is_byte b0 ->
  @deencapsulate E ([b0; b1; b2; b3; b4; b5; b6; b7; b8; b9; b10; b11; b12; b13; b14; b15; b16; b17; b18; b19] ++ rest)
  = Ok (if (8 <=? zlen rest) && (b0 / 16 =? 4) && (5 <=? b0 mod 16) && (b9 =? 17) && bool_decide ([b12; b13; b14; b15] = GATEWAY_IP)
        then match drop (Z.to_nat (b0 mod 16 * 4 - 20)) rest with
             | u0 :: u1 :: u2 :: u3 :: _ :: _ :: _ :: _ :: d =>
                 if (u16_be u0 u1 =? 5351) && (u16_be u2 u3 =? 5350) then Some d else None
             | _ => None
             end
        else None).
Proof.
  intros Hb. set (h := [b0; b1; b2; b3; b4; b5; b6; b7; b8; b9; b10; b11; b12; b13; b14; b15; b16; b17; b18; b19]).
  assert (zlen h = 20) as Hh by done. pose proof (zlen_nonneg rest) as Hr.
  unfold deencapsulate, IPV4_HEADER_LEN, UDP_HEADER_LEN, PROTO_UDP. rewrite zlen_app, Hh.
  destruct (Z.ltb_spec (20 + zlen rest) (20 + 8)); destruct (Z.leb_spec 8 (zlen rest)); try lia; cbn [andb]; [done|].
  rewrite !index_ok by (rewrite zlen_app, Hh; lia). rewrite !bind_Ok.
  change (byte_at (h ++ rest) 0) with b0. change (byte_at (h ++ rest) 9) with b9.
  change (byte_at (h ++ rest) 12) with b12. change (byte_at (h ++ rest) 13) with b13.
  change (byte_at (h ++ rest) 14) with b14. change (byte_at (h ++ rest) 15) with b15.
  change 15 with (Z.ones 4) at 1 2. rewrite !Z.land_ones, Z.shiftr_div_pow2 by lia. change (2 ^ 4) with 16.
  destruct (Z.eqb_spec (b0 / 16) 4); cbn [negb orb andb]; [|done].
  destruct (Z.ltb_spec (b0 mod 16 * 4) 20); destruct (Z.leb_spec 5 (b0 mod 16)); try lia; cbn [negb orb andb]; [done|].
  destruct (Z.eqb_spec b9 17); cbn [negb andb]; [|done].
  destruct (bool_decide ([b12; b13; b14; b15] = GATEWAY_IP)); cbn [negb andb]; [|done].
  pose proof (Z.mod_pos_bound b0 16 ltac:(lia)). unfold get_slice.
  assert (sub (h ++ rest) (b0 mod 16 * 4) (20 + zlen rest) = drop (Z.to_nat (b0 mod 16 * 4 - 20)) rest) as Hsub.
  { unfold sub, zlen in *. rewrite (drop_app_ge h rest) by lia. rewrite take_ge by (rewrite length_drop; lia). f_equal. lia. }
  destruct (Z.leb_spec (b0 mod 16 * 4) (20 + zlen rest)) as [Hle|Hle]; cycle 1.
  { rewrite andb_false_r. cbn [andb]. rewrite drop_ge by (unfold zlen in *; lia). done. }
  destruct (Z.leb_spec 0 (b0 mod 16 * 4)); [|lia]. rewrite zlen_app, Hh, Z.leb_refl, Hsub. cbn [andb].
  generalize (drop (Z.to_nat (b0 mod 16 * 4 - 20)) rest) as udp. clear. intros udp.
  destruct udp as [|u0 [|u1 [|u2 [|u3 [|u4 [|u5 [|u6 [|u7 d]]]]]]]]; try done.
  pose proof (zlen_nonneg d). destruct (Z.ltb_spec (zlen (u0 :: u1 :: u2 :: u3 :: u4 :: u5 :: u6 :: u7 :: d)) 8); [rewrite !zlen_cons in *; lia|].
  rewrite !index_ok by (rewrite !zlen_cons; lia). rewrite !bind_Ok. rewrite slice_ok by (rewrite ?zlen_cons in *; lia). rewrite bind_Ok.
  change (u16_be _ _ =? NATPMP_PORT) with (u16_be u0 u1 =? 5351). change (u16_be _ _ =? PREFLIGHT_SRC_PORT) with (u16_be u2 u3 =? 5350).
  destruct (u16_be u0 u1 =? 5351), (u16_be u2 u3 =? 5350); cbn [negb orb andb]; try done. do 2 f_equal.
  unfold sub, zlen. apply take_ge. change (Z.to_nat 8) with 8%nat. cbn [drop length]. lia.
Qed.

(** A datagram from the gateway's NAT-PMP port to the one reservations leave
    from: any service, identification, lifetime, checksums, destination and
    options. *)
Definition from_gateway (p payload : bytes) : Prop :=
  exists ihl front csum dst options lengths,
    p = [64 + ihl] ++ front ++ [17] ++ csum ++ GATEWAY_IP ++ dst ++ options
          ++ be16 NATPMP_PORT ++ be16 PREFLIGHT_SRC_PORT ++ lengths ++ payload /\
    5 <= ihl < 16 /\ zlen front = 8 /\ zlen csum = 2 /\ zlen dst = 4 /\ zlen options = ihl * 4 - 20 /\ zlen lengths = 4.

Lemma u16_be_pair a b v : is_byte a -> is_byte b -> is_u16 v -> (u16_be a b = v <-> [a; b] = be16 v).
Proof.
  unfold is_byte, is_u16, u16_be, be16. intros Ha Hb Hv. split.
  - intros <-. rewrite (Z.add_comm (a * 256)), Z.div_add, Z.div_small, Z.mod_add, !Z.mod_small by lia. do 2 f_equal; lia.
  - intros [= -> ->]. Z.div_mod_to_equations. lia.
Qed.

Lemma deencapsulate_spec {E : Type} p payload :
  bytes_ok p -> exists r, @deencapsulate E p = Ok r /\ (r = Some payload <-> from_gateway p payload).
Proof.
  intros Hp. destruct (Z.ltb_spec (zlen p) 28) as [Hl|Hl].
  { exists None. split; [unfold deencapsulate; change (IPV4_HEADER_LEN + UDP_HEADER_LEN) with 28; by destruct (Z.ltb_spec (zlen p) 28); [|lia]|].
    split; [done|]. intros (ihl & front & csum & dst & options & lengths & -> & Hi & Hf & Hc & Hd & Ho & Hn).
    unfold be16, GATEWAY_IP, zlen in *. rewrite !length_app in Hl. cbn [length] in Hl. lia. }
  do 20 (destruct p as [|? p]; [unfold zlen in Hl; cbn in Hl; lia|]). rename p into rest.
  match goal with |- context [?a :: ?b :: ?c :: ?d :: ?e :: ?f :: ?g :: ?h :: ?i :: ?j :: ?k :: ?l :: ?m :: ?n :: ?o :: ?p :: ?q :: ?r :: ?s :: ?t :: rest] =>
    change (a :: b :: c :: d :: e :: f :: g :: h :: i :: j :: k :: l :: m :: n :: o :: p :: q :: r :: s :: t :: rest)
      with ([a; b; c; d; e; f; g; h; i; j; k; l; m; n; o; p; q; r; s; t] ++ rest) end.
  rewrite deencapsulate_head by (by inversion Hp). eexists. split; [done|]. split.
  - intros Hr. destruct (_ && _) eqn:Hg in Hr; [|done]. rewrite !andb_true_iff in Hg.
    destruct Hg as [[[[_ H4%Z.eqb_eq] H5%Z.leb_le] ->%Z.eqb_eq] Hgw%bool_decide_eq_true]. injection Hgw as -> -> -> ->.
    assert (is_byte z) as Hz by (by inversion Hp). pose proof (Z.mod_pos_bound z 16 ltac:(lia)). pose proof (Z.div_mod z 16 ltac:(lia)).
    set (n := Z.to_nat (z mod 16 * 4 - 20)) in *. pose proof (take_drop n rest) as Hrest. rewrite <- Hrest in Hp.
    assert (bytes_ok (drop n rest)) as Hu by (do 20 apply Forall_inv_tail in Hp; by apply Forall_app in Hp as [_ Hp]).
    destruct (drop n rest) as [|u0 [|u1 [|u2 [|u3 [|u4 [|u5 [|u6 [|u7 d]]]]]]]] eqn:Eu; try done.
    destruct (_ && _) eqn:Hports in Hr; [|done]. injection Hr as ->. apply andb_true_iff in Hports as [Hs%Z.eqb_eq Ht%Z.eqb_eq].
    apply u16_be_pair in Hs, Ht; try (byte_facts; done || lia); try (unfold is_u16; lia).
    exists (z mod 16), [z0; z1; z2; z3; z4; z5; z6; z7], [z9; z10], [z15; z16; z17; z18], (take n rest), [u4; u5; u6; u7].
    split; [|split; [lia|]; split_and!; try done].
    + unfold NATPMP_PORT, PREFLIGHT_SRC_PORT. rewrite <- Hs, <- Ht, <- Hrest at 1. cbn [app GATEWAY_IP]. f_equal. lia.
    + assert (length (drop n rest) <> 0%nat) as Hne by (by rewrite Eu). rewrite length_drop in Hne.
      unfold zlen. rewrite length_take. lia.
  - intros (ihl & front & csum & dst & options & lengths & Heq & Hi & Hf & Hc & Hd & Ho & Hn).
    apply four_bytes in Hd as (d0 & d1 & d2 & d3 & ->). apply four_bytes in Hn as (l0 & l1 & l2 & l3 & ->).
    destruct csum as [|c0 [|c1 [|]]]; try (unfold zlen in Hc; cbn in Hc; lia).
    do 8 (destruct front as [|? front]; [unfold zlen in Hf; cbn in Hf; lia|]). destruct front; [|unfold zlen in Hf; cbn in Hf; lia].
    cbn [app GATEWAY_IP] in Heq. injection Heq as -> -> -> -> -> -> -> -> -> -> -> -> -> -> -> -> -> -> -> -> ->.
    replace ((64 + ihl) / 16) with 4 by (Z.div_mod_to_equations; lia). replace ((64 + ihl) mod 16) with ihl by (Z.div_mod_to_equations; lia).
    rewrite bool_decide_eq_true_2 by done. rewrite zlen_app, Ho.
    destruct (Z.leb_spec 5 ihl); [|lia]. pose proof (zlen_nonneg payload).
    match goal with |- context [8 <=? ?x] => destruct (Z.leb_spec 8 x) as [_|Hlt] end; [|unfold zlen in *; cbn in Hlt; lia].
    cbn [Z.eqb Pos.eqb andb]. rewrite drop_app_ge by (unfold zlen in *; lia). replace (Z.to_nat (ihl * 4 - 20) - length options)%nat with 0%nat by (unfold zlen in *; lia). by rewrite drop_0.
Qed.

(** ** The exchange with the candidate *)

(** The NAT-PMP messages are another crate's: the tunnel's protocols and those
    of the wire, their legs, and what a [Map] request and response carry. *)
Inductive ResultCode : Type := Success | SuggestedPortUnavailable | OtherResult (code : Z).

Class NatPmpProtocol : Type := {
  NatPmpProto : Type;
  MapProto : Type;
  MapProto_eq_dec :: EqDecision MapProto;
  legs : NatPmpProto -> list MapProto;
  serialize_map : MapProto -> Z -> Z -> Z -> bytes;     (* internal port, suggested external port, lifetime *)
  parse_map : bytes -> option (MapProto * ResultCode * Z * Z)  (* external port, internal port *)
}.

(** A request is bytes, and fits a packet. *)
Class NatPmpLaws `{!NatPmpProtocol} : Prop := {
  serialize_bytes proto internal external lifetime : bytes_ok (serialize_map proto internal external lifetime);
  serialize_short proto internal external lifetime : zlen (serialize_map proto internal external lifetime) < 65000
}.

(** What the exchange sends and awaits next. *)
Inductive Talk (A : Type) : Type :=
| Done (a : A)
| Crash
| Send (packet : bytes) (next : bool -> Talk A)
| Recv (next : option bytes -> Talk A).
Arguments Done {A}. Arguments Crash {A}. Arguments Send {A}. Arguments Recv {A}.

#[export] Instance talk_ret : MRet Talk := @Done.
#[export] Instance talk_bind : MBind Talk := fun A B f =>
  fix bind m :=
    match m with
    | Done a => f a
    | Crash => Crash
    | Send packet next => Send packet (fun sent => bind (next sent))
    | Recv next => Recv (fun answer => bind (next answer))
    end.

Definition lift {A : Type} (m : comp Empty_set A) : Talk A := match m with Ok a => Done a | Err e => match e with end | Panic => Crash end.

(** The candidate session: whether each send succeeds, what each receive
    answers ([None] on a timeout or a closed session), what went out. *)
Record Wire : Type := mkWire { sends : list bool; arrivals : list (option bytes); sent : list bytes }.

Definition send (packet : bytes) (w : Wire) : bool * Wire :=
  match sends w with
  | true :: rest => (true, mkWire rest (arrivals w) (sent w ++ [packet]))
  | false :: rest => (false, mkWire rest (arrivals w) (sent w))
  | [] => (false, w)
  end.
Definition recv (w : Wire) : option bytes * Wire :=
  match arrivals w with
  | answer :: rest => (answer, mkWire (sends w) rest (sent w))
  | [] => (None, w)
  end.

(** The exchange to its end, and [tokio::time::timeout] over it: [awaits] of
    them complete before the deadline ([None] when it passed). *)
Fixpoint run {A : Type} (t : Talk A) (w : Wire) : comp Empty_set A * Wire :=
  match t with
  | Done a => (Ok a, w)
  | Crash => (Panic, w)
  | Send packet next => let '(sent, w) := send packet w in run (next sent) w
  | Recv next => let '(answer, w) := recv w in run (next answer) w
  end.
Fixpoint run_within {A : Type} (awaits : nat) (t : Talk A) (w : Wire) : comp Empty_set (option A) * Wire :=
  match t, awaits with
  | Done a, _ => (Ok (Some a), w)
  | Crash, _ => (Panic, w)
  | _, O => (Ok None, w)
  | Send packet next, S awaits => let '(sent, w) := send packet w in run_within awaits (next sent) w
  | Recv next, S awaits => let '(answer, w) := recv w in run_within awaits (next answer) w
  end.

Section Gate.
Context `{!NatPmpProtocol}.

(** *** The rules *)

Record NatPmpRule : Type := mkNatPmpRule {
  protocol : NatPmpProto;
  suggested_external_port : Z;
  rule_internal_port : Z;
  sticky_suggestion : bool
}.

(** The fields of the configuration the rules come from. *)
Record NatPmpConfig : Type := mkNatPmpConfig { enabled : bool; rules : list NatPmpRule; legacy : NatPmpRule }.

Definition effective_rules (cfg : NatPmpConfig) : list NatPmpRule :=
  if negb (bool_decide (rules cfg = [])) then rules cfg
  else if negb (rule_internal_port (legacy cfg) =? 0) || negb (suggested_external_port (legacy cfg) =? 0)
  then [legacy cfg] else [].

Record PinnedRule : Type := mkPinnedRule { proto : MapProto; internal_port : Z; external_port : Z; lifetime_secs : Z }.

Definition RESERVE_LIFETIME : Z := 120.

Definition pinned_rules (cfg : NatPmpConfig) : list PinnedRule :=
  if negb (enabled cfg) then []
  else r ← filter (fun r => suggested_external_port r <> 0 /\ sticky_suggestion r = false) (effective_rules cfg);
       (fun leg => mkPinnedRule leg (rule_internal_port r) (suggested_external_port r) RESERVE_LIFETIME) <$> legs (protocol r).

(** *** Reservations *)

Inductive ReserveOutcome : Type := Reserved (external_port : Z) | Conflict | Unavailable.

Definition matching (rule : PinnedRule) (payload : bytes) : option ReserveOutcome :=
  '(reply_proto, result_code, reply_external, reply_internal) ← parse_map payload;
  if negb (reply_internal =? internal_port rule) || negb (bool_decide (reply_proto = proto rule)) then None
  else Some match result_code with
            | Success => if reply_external =? external_port rule then Reserved reply_external else Conflict
            | SuggestedPortUnavailable => Conflict
            | OtherResult _ => Unavailable
            end.

Fixpoint read_reply (rule : PinnedRule) (attempts : nat) : Talk ReserveOutcome :=
  match attempts with
  | O => Done Unavailable
  | S attempts =>
      Recv (fun answer =>
        match answer with
        | None => Done Unavailable
        | Some pkt =>
            payload ← lift (deencapsulate pkt);
            match payload ≫= matching rule with Some outcome => Done outcome | None => read_reply rule attempts end
        end)
  end.

Definition reserve_one (src : bytes) (rule : PinnedRule) (attempts : nat) : Talk ReserveOutcome :=
  packet ← lift (encapsulate src (serialize_map (proto rule) (internal_port rule) (external_port rule) (lifetime_secs rule)));
  Send packet (fun sent => if sent then read_reply rule attempts else Done Unavailable).

Fixpoint release_all (src : bytes) (rules : list PinnedRule) : Talk unit :=
  match rules with
  | [] => Done tt
  | rule :: rules =>
      packet ← lift (encapsulate src (serialize_map (proto rule) (internal_port rule) 0 0));
      Send packet (fun _ => release_all src rules)
  end.

Fixpoint reserve_from (src : bytes) (attempts_per_rule : nat) (granted rules : list PinnedRule) : Talk bool :=
  match rules with
  | [] => Done true
  | rule :: rules =>
      outcome ← reserve_one src rule attempts_per_rule;
      match outcome with
      | Reserved _ => reserve_from src attempts_per_rule (granted ++ [rule]) rules
      | Conflict | Unavailable => _ ← release_all src granted; Done false
      end
  end.
Definition reserve_all (src : bytes) (rules : list PinnedRule) (attempts_per_rule : nat) : Talk bool :=
  reserve_from src attempts_per_rule [] rules.

Definition DEFAULT_ATTEMPTS_PER_RULE : nat := 8.

(** [awaits] of the exchange's awaits complete before [PRE_SWAP_GATE_DEADLINE]. *)
Definition pre_swap_gate (awaits : nat) (src : option bytes) (rules : list PinnedRule) (w : Wire) : comp Empty_set bool * Wire :=
  match rules, src with
  | [], _ => (Ok true, w)
  | _, None => (Ok false, w)
  | _, Some src =>
      let '(verdict, w) := run_within awaits (reserve_all src rules DEFAULT_ATTEMPTS_PER_RULE) w in
      (verdict ← verdict; Ok (default false verdict), w)
  end.
End Gate.

(** ** Lemmas on the exchange *)

Lemma run_bind {A B : Type} (t : Talk A) (f : A -> Talk B) w :
  run (t ≫= f) w = match run t w with
                   | (Ok a, w) => run (f a) w
                   | (Err e, w) => match e with end
                   | (Panic, w) => (Panic, w)
                   end.
Proof.
  revert w. induction t as [a| |packet next IH|next IH]; intros w; [done|done|..]; cbn -[send recv].
  - destruct (send packet w) as [ok w']. apply IH.
  - destruct (recv w) as [answer w']. apply IH.
Qed.

(** The awaits an exchange takes. *)
Fixpoint awaits_of {A : Type} (t : Talk A) (w : Wire) : nat :=
  match t with
  | Done _ | Crash => 0
  | Send packet next => let '(sent, w) := send packet w in S (awaits_of (next sent) w)
  | Recv next => let '(answer, w) := recv w in S (awaits_of (next answer) w)
  end.

Lemma awaits_bind {A B : Type} (t : Talk A) (f : A -> Talk B) w :
  awaits_of (t ≫= f) w = (awaits_of t w + match run t w with (Ok a, w) => awaits_of (f a) w | _ => 0 end)%nat.
Proof.
  revert w. induction t as [a| |packet next IH|next IH]; intros w; [done|done|..]; cbn -[send recv].
  - destruct (send packet w) as [ok w']. rewrite (IH ok). done.
  - destruct (recv w) as [answer w']. rewrite (IH answer). done.
Qed.

Lemma send_sent packet w : sent w `prefix_of` sent (send packet w).2.
Proof. unfold send. destruct (sends w) as [|[|] rest]; cbn; [done|by apply prefix_app_r|done]. Qed.
Lemma recv_sent w : sent (recv w).2 = sent w.
Proof. unfold recv. by destruct (arrivals w). Qed.

Lemma run_sent {A : Type} (t : Talk A) w : sent w `prefix_of` sent (run t w).2.
Proof.
  revert w. induction t as [a| |packet next IH|next IH]; intros w; [done|done|..]; cbn -[send recv].
  - pose proof (send_sent packet w) as Hp. destruct (send packet w) as [ok w']. etrans; [apply Hp|apply IH].
  - pose proof (recv_sent w) as Hp. destruct (recv w) as [answer w']. cbn in Hp. rewrite <- Hp. apply IH.
Qed.

(** A deadline leaves the first packets of the exchange, and none that lets it end. *)
Lemma run_within_run {A : Type} (t : Talk A) n w :
  (sent (run_within n t w).2 `prefix_of` sent (run t w).2) /\
  (run_within n t w = ((a ← (run t w).1; Ok (Some a)), (run t w).2) \/ (run_within n t w).1 = Ok None) /\
  ((awaits_of t w <= n)%nat -> run_within n t w = ((a ← (run t w).1; Ok (Some a)), (run t w).2)).
Proof.
  revert n w. induction t as [a| |packet next IH|next IH]; intros n w; [destruct n; by auto..| |];
    (destruct n as [|n]; [split; [apply (run_sent (Send _ _)) || apply (run_sent (Recv _))|split; [by right|]]|]);
    cbn -[send recv].
  - destruct (send packet w). lia.
  - destruct (send packet w) as [ok w']. destruct (IH ok n w') as (H1 & H2 & H3). split_and!; [done..|intros; apply H3; lia].
  - destruct (recv w). lia.
  - destruct (recv w) as [answer w']. destruct (IH answer n w') as (H1 & H2 & H3). split_and!; [done..|intros; apply H3; lia].
Qed.

(** The packets that go out when the sends answer [oks]. *)
Fixpoint delivered (oks : list bool) (packets : list bytes) : list bytes :=
  match oks, packets with
  | true :: oks, packet :: packets => packet :: delivered oks packets
  | false :: oks, _ :: packets => delivered oks packets
  | _, _ => []
  end.

Lemma delivered_app oks p1 p2 : delivered oks (p1 ++ p2) = delivered oks p1 ++ delivered (drop (length p1) oks) p2.
Proof. revert oks. induction p1 as [|p p1 IH]; intros [|[|] oks]; cbn; rewrite ?IH; try done. Qed.

Section Replies.
Context `{!NatPmpProtocol} `{!NatPmpLaws} (src : bytes) (src_bytes : bytes_ok src) (src_short : zlen src = 4).

(** The packets of a rule. *)
Definition packet_of (payload : bytes) : bytes := match @encapsulate Empty_set src payload with Ok p => p | _ => [] end.
Definition request (r : PinnedRule) : bytes :=
  packet_of (serialize_map (proto r) (internal_port r) (external_port r) (lifetime_secs r)).
Definition release (r : PinnedRule) : bytes := packet_of (serialize_map (proto r) (internal_port r) 0 0).

(** What arrived grants the rule its port. *)
Definition grants (r : PinnedRule) (arrived : option bytes) : Prop :=
  exists p payload, arrived = Some p /\ from_gateway p payload /\
    parse_map payload = Some (proto r, Success, external_port r, internal_port r).

Definition arrivals_ok (w : Wire) : Prop := Forall (fun a => forall p, a = Some p -> bytes_ok p) (arrivals w).

Lemma lift_encapsulate proto internal external lifetime :
  @encapsulate Empty_set src (serialize_map proto internal external lifetime)
  = Ok (packet_of (serialize_map proto internal external lifetime)).
Proof.
  destruct (@encapsulate_datagram Empty_set src (serialize_map proto internal external lifetime)) as (c & u & He & _);
    [done|done|apply serialize_bytes|apply serialize_short|]. unfold packet_of. by rewrite He.
Qed.

Lemma matching_reserved r payload port :
  matching r payload = Some (Reserved port) -> parse_map payload = Some (proto r, Success, external_port r, internal_port r).
Proof.
  unfold matching. destruct (parse_map payload) as [[[[q code] external] internal]|]; [|done]. cbn.
  destruct (Z.eqb_spec internal (internal_port r)) as [->|]; [|done]. case_bool_decide; [subst q|done]. cbn.
  destruct code; try done. by destruct (Z.eqb_spec external (external_port r)) as [->|].
Qed.

Lemma recv_arrivals w : exists consumed, arrivals w = consumed ++ arrivals (recv w).2 /\ (length consumed <= 1)%nat /\
  sent (recv w).2 = sent w /\ sends (recv w).2 = sends w /\ forall p, (recv w).1 = Some p -> consumed = [Some p].
Proof. unfold recv. destruct (arrivals w) as [|a rest] eqn:Ha; [exists []|exists [a]]; cbn; rewrite ?Ha; split_and!; try done; try lia. by intros p ->. Qed.

Lemma read_reply_run r attempts w :
  arrivals_ok w ->
  exists outcome consumed,
    run (read_reply r attempts) w = (Ok outcome, (run (read_reply r attempts) w).2) /\
    (awaits_of (read_reply r attempts) w <= attempts)%nat /\
    (let w' := (run (read_reply r attempts) w).2 in
     arrivals w = consumed ++ arrivals w' /\ sent w' = sent w /\ sends w' = sends w /\
     forall port, outcome = Reserved port -> exists a, a ∈ consumed /\ grants r a).
Proof.
  revert w. induction attempts as [|attempts IH]; intros w Hw; [by exists Unavailable, []|].
  cbn [read_reply run awaits_of]. destruct (recv_arrivals w) as (consumed & Ha & _ & Hs & Hn & Hc).
  destruct (recv w) as [answer w'] eqn:Er. cbn [fst snd] in *.
  destruct answer as [p|]; [|exists Unavailable, consumed; cbn; split_and!; try done; lia].
  rewrite (Hc p eq_refl) in Ha. pose proof Hw as Hw0. unfold arrivals_ok in Hw0. rewrite Ha in Hw0. apply Forall_cons in Hw0 as [Hp Hw'].
  destruct (@deencapsulate_spec Empty_set p []) as (payload & Hd & _); [by apply Hp|]. rewrite Hd. cbn [lift]. rewrite run_bind, awaits_bind. cbn [run awaits_of].
  destruct (payload ≫= matching r) as [outcome|] eqn:Em.
  - exists outcome, [Some p]. cbn. split_and!; try done; [lia|]. intros port ->. exists (Some p). split; [by apply list_elem_of_here|].
    apply bind_Some in Em as (d & -> & Em). exists p, d. split; [done|]. split; [|by eapply matching_reserved].
    destruct (@deencapsulate_spec Empty_set p d) as (r' & Hd' & Hiff); [by apply Hp|]. rewrite Hd in Hd'. injection Hd' as <-. by apply Hiff.
  - destruct (IH w' Hw') as (outcome & later & Hr & Hl & Ha' & Hs' & Hn' & Hg). exists outcome, (Some p :: later).
    split; [done|]. split; [lia|]. rewrite Ha, Ha', Hs', Hs, Hn'. split_and!; try done. intros port Ho.
    destruct (Hg port Ho) as (a & Hin & Hgr). exists a. split; [by apply list_elem_of_further|done].
Qed.

Lemma send_spec packet w :
  sent (send packet w).2 = sent w ++ delivered (sends w) [packet] /\ sends (send packet w).2 = drop 1 (sends w) /\
  arrivals (send packet w).2 = arrivals w /\ ((send packet w).1 = true -> packet ∈ delivered (sends w) [packet]).
Proof.
  unfold send. destruct (sends w) as [|[|] [|[|] rest]] eqn:Hs; cbn; rewrite ?app_nil_r, ?Hs; split_and!; try done;
    intros _; apply list_elem_of_here.
Qed.

Lemma reserve_one_run r attempts w :
  arrivals_ok w ->
  exists outcome consumed w', run (reserve_one src r attempts) w = (Ok outcome, w') /\
    (awaits_of (reserve_one src r attempts) w <= S attempts)%nat /\
    arrivals w = consumed ++ arrivals w' /\ sent w' = sent w ++ delivered (sends w) [request r] /\ sends w' = drop 1 (sends w) /\
    forall port, outcome = Reserved port ->
      request r ∈ delivered (sends w) [request r] /\ exists a, a ∈ consumed /\ grants r a.
Proof.
  intros Hw. unfold reserve_one. rewrite lift_encapsulate. cbn [lift]. rewrite run_bind, awaits_bind. cbn [run awaits_of].
  fold (request r). destruct (send_spec (request r) w) as (Hs & Hn & Ha & Ht). destruct (send (request r) w) as [ok w1]. cbn [fst snd] in *.
  destruct ok; [|exists Unavailable, [], w1; cbn; rewrite Ha; split_and!; try done; lia].
  destruct (read_reply_run r attempts w1) as (outcome & consumed & Hr & Hl & Ha' & Hs' & Hn' & Hg); [unfold arrivals_ok; by rewrite Ha|].
  exists outcome, consumed, (run (read_reply r attempts) w1).2. rewrite <- Ha, Hs', Hn'. split_and!; try done; [lia|].
  intros port Ho. split; [by apply Ht|by eapply Hg].
Qed.

Lemma release_all_run rs w :
  exists w', run (release_all src rs) w = (Ok tt, w') /\ awaits_of (release_all src rs) w = length rs /\
    arrivals w' = arrivals w /\ sent w' = sent w ++ delivered (sends w) (release <$> rs).
Proof.
  revert w. induction rs as [|r rs IH]; intros w; [exists w; cbn; split_and!; try done; by destruct (sends w) as [|[] ?]; cbn; rewrite app_nil_r|].
  cbn [release_all]. rewrite lift_encapsulate. cbn [lift]. rewrite run_bind, awaits_bind. cbn [run awaits_of]. fold (release r).
  destruct (send_spec (release r) w) as (Hs & Hn & Ha & _). destruct (send (release r) w) as [ok w1]. cbn [fst snd] in *.
  destruct (IH w1) as (w' & Hr & Hl & Ha' & Hs'). exists w'. split; [done|]. split; [cbn; lia|]. split; [congruence|].
  rewrite Hs', Hs, Hn, <- app_assoc. f_equal. change (release <$> r :: rs) with ([release r] ++ (release <$> rs)). by rewrite delivered_app.
Qed.

(** The packets of a pre-flight whose rules before [rest] are reserved. *)
Definition packets_of (granted reserved rest : list PinnedRule) : list bytes :=
  (request <$> reserved) ++ match rest with [] => [] | r :: _ => request r :: (release <$> granted ++ reserved) end.

Lemma reserve_from_run attempts granted rs w :
  arrivals_ok w ->
  exists b reserved rest consumed w',
    run (reserve_from src attempts granted rs) w = (Ok b, w') /\
    (awaits_of (reserve_from src attempts granted rs) w <= (2 + attempts) * length rs + length granted)%nat /\
    rs = reserved ++ rest /\ (b = true <-> rest = []) /\ arrivals w = consumed ++ arrivals w' /\
    sent w' = sent w ++ delivered (sends w) (packets_of granted reserved rest) /\
    Forall (fun r => request r ∈ sent w' /\ exists a, a ∈ consumed /\ grants r a) reserved.
Proof.
  revert granted w. induction rs as [|r rs IH]; intros granted w Hw; cbn [reserve_from].
  { exists true, [], [], [], w. cbn. split_and!; try done; [lia|]. destruct (sends w) as [|[] ?]; cbn; by rewrite app_nil_r. }
  rewrite run_bind, awaits_bind. destruct (reserve_one_run r attempts w Hw) as (outcome & consumed & w1 & Hr & Hl & Ha & Hs & Hn & Hg).
  rewrite Hr. assert (arrivals_ok w1) as Hw1 by (unfold arrivals_ok in *; rewrite Ha in Hw; by apply Forall_app in Hw as [_ ?]).
  assert ((exists port, outcome = Reserved port) \/ ~ exists port, outcome = Reserved port) as [[port ->]|Ho] by (destruct outcome; naive_solver).
  - destruct (Hg port eq_refl) as [Hq (a & Hin & Hgr)].
    destruct (IH (granted ++ [r]) w1 Hw1) as (b & reserved & rest & later & w' & Hr' & Hl' & -> & Hb & Ha' & Hs' & Hf).
    exists b, (r :: reserved), rest, (consumed ++ later), w'. rewrite !length_app in Hl'. cbn [length] in *.
    split_and!; [done|cbv beta iota; rewrite length_app, Nat.mul_succ_r; lia|done|done|rewrite Ha, Ha'; by rewrite app_assoc|..].
    + rewrite Hs', Hs, Hn, <- app_assoc. f_equal. unfold packets_of. rewrite <- (app_assoc granted).
      change ((request <$> r :: reserved) ++ ?x) with ([request r] ++ (request <$> reserved) ++ x). by rewrite (delivered_app _ [request r]).
    + constructor.
      * split; [rewrite Hs', Hs; set_solver|]. exists a. split; [|done]. apply elem_of_app. by left.
      * eapply Forall_impl; [exact Hf|]. cbn. intros x [? (a' & ? & ?)]. split; [done|]. exists a'. split; [|done]. apply elem_of_app. by right.
  - exists false, [], (r :: rs), consumed. destruct (release_all_run granted w1) as (w' & Hr' & Hl' & Ha' & Hs').
    exists w'. destruct outcome as [port| |]; [by destruct Ho; exists port|..]; rewrite run_bind, awaits_bind, Hr'; cbn [run awaits_of];
      (split_and!; [done|cbv beta iota; cbn [length]; rewrite ?Nat.mul_succ_r; lia|done|done|by rewrite Ha'|..|by apply Forall_nil]);
      rewrite Hs', Hs, Hn, <- app_assoc; f_equal;
      change (packets_of granted [] (r :: rs)) with ([request r] ++ (release <$> granted ++ []));
      by rewrite app_nil_r, (delivered_app _ [request r]).
Qed.
End Replies.

(** ** Properties *)

(** C30: What a reservation sends is a well-formed IPv4 UDP datagram from the reservation port to the gateway's NAT-PMP port, with checksums that verify and the request as its payload; and what is read back as a reply is exactly the payload of a datagram of the gateway's NAT-PMP port to the reservation port, with whatever options, and of nothing else. *)
Theorem preflight_packets (src payload : bytes) (p : bytes) (Hsrc : bytes_ok src) (Hlen : zlen src = 4)
    (Hpayload : bytes_ok payload) (Hshort : zlen payload < 65000) (Hp : bytes_ok p) :
  let layout := mkLayout FamilyV4 PROTO_UDP 20 (28 + zlen payload) None in
  (exists packet, @encapsulate Empty_set src payload = Ok packet /\ locate packet = Ok layout /\
     checksums_verify packet layout = true /\ src_of layout packet = V4 src /\ dst_of layout packet = V4 GATEWAY_IP /\
     sub packet 20 24 = be16 PREFLIGHT_SRC_PORT ++ be16 NATPMP_PORT /\ drop 28 packet = payload) /\
  (exists reply, @deencapsulate Empty_set p = Ok reply /\ forall d, reply = Some d <-> from_gateway p d).
Proof.
  intros layout. split.
  - destruct (@encapsulate_datagram Empty_set src payload) as (c & u & He & Hc & Hu & Hv & Hw); [done..|].
    pose proof (zlen_nonneg payload). exists (datagram src payload c u). split; [done|].
    apply four_bytes in Hlen as (s0 & s1 & s2 & s3 & ->). unfold datagram, GATEWAY_IP in *.
    destruct (be16_pair (28 + zlen payload)) as (t0 & t1 & Et & Ht & ? & ?). specialize (Ht ltac:(unfold is_u16; lia)). rewrite Et in *.
    destruct (be16_pair (8 + zlen payload)) as (v0 & v1 & Ev & Hvv & ? & ?). rewrite Ev in *.
    destruct (be16_pair c) as (c0 & c1 & Ec & _). destruct (be16_pair u) as (u0 & u1 & Eu & _). rewrite Ec, Eu in *.
    change (be16 PREFLIGHT_SRC_PORT) with [20; 230] in *. change (be16 NATPMP_PORT) with [20; 231] in *. cbn [app] in *.
    match goal with |- context [locate ?q] => set (packet := q) in * end.
    assert (zlen packet = 28 + zlen payload) as Hz by (unfold packet; rewrite !zlen_cons; lia).
    split; [|split; [|split_and!; done]].
    + unfold locate, locate_with. change (get packet 0) with (Some 69). cbn [ok_or mbind comp_bind].
      change (Z.shiftr 69 4) with 4. cbn [Z.eqb Pos.eqb]. unfold locate_v4. rewrite Hz.
      destruct (Z.ltb_spec (28 + zlen payload) 20); [lia|]. rewrite !index_ok by lia. rewrite !bind_Ok.
      change (byte_at packet 0) with 69. change (byte_at packet 2) with t0. change (byte_at packet 3) with t1. change (byte_at packet 6) with 0.
      change (byte_at packet 7) with 0. change (byte_at packet 9) with 17. rewrite Ht. change (Z.land 69 15 * 4) with 20.
      destruct (Z.ltb_spec (28 + zlen payload) 20); [lia|]. by destruct (Z.ltb_spec (28 + zlen payload) (28 + zlen payload)); [lia|].
    + eapply checksums_verify_v4; [done|done|exact Hv|]. change (Ip.protocol layout =? PROTO_ICMP) with false. cbn [layout Ip.protocol l4_offset end_].
      replace (28 + zlen payload - 20) with (8 + zlen payload) by lia.
      assert (sub packet 20 (28 + zlen payload) = drop 20 packet) as ->.
      { unfold sub. apply take_ge. rewrite length_drop. unfold zlen in *. lia. }
      exact Hw.
  - destruct (@deencapsulate_spec Empty_set p []) as (reply & Hr & _); [done|]. exists reply. split; [done|]. intros d.
    destruct (@deencapsulate_spec Empty_set p d) as (reply' & Hr' & Hiff); [done|]. rewrite Hr in Hr'. by injection Hr' as <-.
Qed.

(** C16: A migration commits only when the candidate exit has granted every port the user pinned: the gate never panics; it answers yes only after each leg of each pinned rule was asked for and its exact port granted in a reply of the gateway's; without a pin nothing is sent; and within ten awaits a rule it answers by itself, having asked for the rules in order up to the first that was not granted, and then released those that were. *)
Theorem swap_keeps_pinned_ports `{!NatPmpProtocol} `{!NatPmpLaws} (cfg : NatPmpConfig) (awaits : nat) (src : option bytes) (w : Wire)
    (Hsrc : forall s, src = Some s -> bytes_ok s /\ zlen s = 4) (Hw : arrivals_ok w) :
  exists b w', pre_swap_gate awaits src (pinned_rules cfg) w = (Ok b, w') /\
  (b = true -> enabled cfg = true -> forall r leg, r ∈ effective_rules cfg -> suggested_external_port r <> 0 ->
     sticky_suggestion r = false -> leg ∈ legs (protocol r) ->
     let rule := mkPinnedRule leg (rule_internal_port r) (suggested_external_port r) RESERVE_LIFETIME in
     exists s answer, src = Some s /\ request s rule ∈ sent w' /\ answer ∈ arrivals w /\ grants rule answer) /\
  (pinned_rules cfg = [] -> b = true /\ w' = w) /\
  (forall s, src = Some s -> exists reserved rest,
     let out := sent w ++ delivered (sends w) (packets_of s [] reserved rest) in
     pinned_rules cfg = reserved ++ rest /\ (b = true -> rest = []) /\ sent w' `prefix_of` out /\
     ((10 * length (pinned_rules cfg) <= awaits)%nat -> (rest = [] -> b = true) /\ sent w' = out)).
Proof.
  set (rules := pinned_rules cfg). assert (forall r leg, enabled cfg = true -> r ∈ effective_rules cfg -> suggested_external_port r <> 0 ->
    sticky_suggestion r = false -> leg ∈ legs (protocol r) ->
    mkPinnedRule leg (rule_internal_port r) (suggested_external_port r) RESERVE_LIFETIME ∈ rules) as Hin.
  { intros r leg He Hr Hx Hy Hleg. unfold rules, pinned_rules. rewrite He. cbn [negb]. apply list_elem_of_bind. exists r.
    split; [|by apply list_elem_of_filter]. apply list_elem_of_fmap. by exists leg. }
  clearbody rules. destruct rules as [|rule rules].
  { exists true, w. split; [by destruct src|]. split; [intros _ He r leg Hr Hx Hy Hleg; by eapply not_elem_of_nil in Hin|].
    split; [done|]. intros s _. exists [], []. change (packets_of s [] [] []) with (@nil bytes).
    assert (delivered (sends w) [] = []) as -> by (by destruct (sends w) as [|[] ?]). rewrite app_nil_r. by split_and!. }
  destruct src as [s|]; [|exists false, w; by split_and!]. destruct (Hsrc s eq_refl) as [Hs Hl].
  destruct (reserve_from_run s Hs Hl DEFAULT_ATTEMPTS_PER_RULE [] (rule :: rules) w Hw) as
    (b & reserved & rest & consumed & w1 & Hr & Hn & Heq & Hb & Ha & Hsent & Hg).
  destruct (run_within_run (reserve_all s (rule :: rules) DEFAULT_ATTEMPTS_PER_RULE) awaits w) as (Hpre & Hcase & Henough).
  unfold reserve_all in *. rewrite Hr in *. cbn [fst snd mbind comp_bind] in *. rewrite Hsent in Hpre.
  unfold pre_swap_gate, reserve_all. destruct (run_within awaits _ w) as [v w'] eqn:Ew. cbn [snd fst] in *.
  exists (match v with Ok (Some b) => b | _ => false end), w'. split; [by destruct Hcase as [[= -> ->]| ->]|]. split; [|split; [done|]].
  - intros Hv He r leg Hx Hy Hz Hleg. destruct Hcase as [[= -> ->]| ->]; [|done]. subst b.
    assert (rest = []) as -> by (by apply Hb). rewrite app_nil_r in Heq. subst reserved.
    rewrite Forall_forall in Hg. destruct (Hg _ (Hin r leg He Hx Hy Hz Hleg)) as (Hq & a & Hc & Hgr).
    exists s, a. split_and!; try done. rewrite Ha. apply elem_of_app. by left.
  - intros s' [= <-]. exists reserved, rest. split; [done|]. split; [|split; [done|]].
    + intros Hv. destruct Hcase as [[= -> ->]| ->]; [by apply Hb|done].
    + intros Hk. injection (Henough ltac:(etrans; [exact Hn|unfold DEFAULT_ATTEMPTS_PER_RULE; cbn [length] in *; lia])) as -> ->. split; [apply Hb|done].
Qed.

(** A deadline that passes while the second port is awaited leaves the first
    one reserved on the candidate: nothing is released. *)
Lemma overrun_releases_nothing `{!NatPmpProtocol} `{!NatPmpLaws} (src : bytes) (r1 r2 : PinnedRule) (reply d : bytes) :
  bytes_ok src -> zlen src = 4 -> bytes_ok reply -> from_gateway reply d ->
  parse_map d = Some (proto r1, Success, external_port r1, internal_port r1) ->
  pre_swap_gate 3 (Some src) [r1; r2] (mkWire [true; true] [Some reply] []) = (Ok false, mkWire [] [] [request src r1; request src r2]).
Proof.
  intros Hs Hl Hb Hr Hd. unfold pre_swap_gate, reserve_all, DEFAULT_ATTEMPTS_PER_RULE. cbn [reserve_from]. unfold reserve_one.
  rewrite !(lift_encapsulate src Hs Hl). cbn. destruct (@deencapsulate_spec Empty_set reply d Hb) as (x & -> & Hx).
  apply Hx in Hr as ->. assert (matching r1 d = Some (Reserved (external_port r1))) as Hm.
  { unfold matching. rewrite Hd. cbn. by rewrite Z.eqb_refl, bool_decide_eq_true_2, Z.eqb_refl. }
  cbn. by rewrite Hm.
Qed.

(** ** Witnesses *)

(** The messages of RFC 6886: opcode 1 maps UDP and 2 TCP, a response has the
    high bit of the opcode set. *)
Definition map_request (tcp : bool) (internal external lifetime : Z) : bytes :=
  [0; if tcp then 2 else 1; 0; 0] ++ be16 internal ++ be16 external ++ be32 lifetime.
Definition map_response (reply : bytes) : option (bool * ResultCode * Z * Z) :=
  match reply with
  | [0; op; r0; r1; _; _; _; _; i0; i1; e0; e1; _; _; _; _] =>
      if negb ((op =? 129) || (op =? 130)) then None
      else Some (op =? 130, match u16_be r0 r1 with 0 => Success | code => OtherResult code end, u16_be e0 e1, u16_be i0 i1)
  | _ => None
  end.
#[export] Instance sample_natpmp : NatPmpProtocol :=
  {| NatPmpProto := bool; MapProto := bool; legs := fun both => if both then [false; true] else [false];
     serialize_map := map_request; parse_map := map_response |}.
#[export] Instance sample_natpmp_laws : NatPmpLaws.
Proof.
  assert (forall tcp i e l, bytes_ok (map_request tcp i e l) /\ zlen (map_request tcp i e l) = 12) as Hm.
  { intros tcp i e l. split; [|done]. unfold map_request. destruct tcp; repeat (apply Forall_app; split); try apply be16_ok; try apply be32_ok; by repeat constructor. }
  split; intros tcp i e l; destruct (Hm tcp i e l) as [Hb Hz]; [done|]. cbn [serialize_map sample_natpmp]. by rewrite Hz.
Defined.

Definition sample_inner_ip : bytes := [10; 66; 3; 9].
Definition sample_ports : NatPmpConfig := mkNatPmpConfig true [mkNatPmpRule true 50000 8080 false; mkNatPmpRule false 50001 9090 true] (mkNatPmpRule false 0 0 false).

(** The gateway's answer to a mapping of port 8080 on 50000, a DNS reply before it. *)
Definition sample_reply (op : Z) : bytes :=
  [70; 0; 0; 48; 0; 0; 0; 0; 64; 17; 1; 2; 10; 66; 0; 1; 10; 66; 3; 9; 1; 1; 1; 0; 20; 231; 20; 230; 0; 24; 0; 0;
   0; op; 0; 0; 0; 0; 0; 1; 31; 144; 195; 80; 0; 0; 0; 120].
Definition sample_chatter : bytes :=
  [69; 0; 0; 32; 0; 0; 0; 0; 64; 17; 1; 2; 10; 66; 0; 1; 10; 66; 3; 9; 0; 53; 20; 230; 0; 12; 0; 0; 1; 2; 3; 4].
Definition sample_wire : Wire :=
  mkWire [true; true; true] [Some sample_chatter; Some (sample_reply 129); Some (sample_reply 130)] [].

Lemma sample_wire_ok : arrivals_ok sample_wire.
Proof. repeat (apply Forall_cons; split; [intros p [= <-]; by repeat constructor|]); by apply Forall_nil. Qed.

Lemma preflight_packets_witness :
  (exists packet, @encapsulate Empty_set sample_inner_ip (map_request true 8080 50000 120) = Ok packet /\
     drop 28 packet = map_request true 8080 50000 120) /\
  (exists reply, @deencapsulate Empty_set (sample_reply 130) = Ok reply /\ from_gateway (sample_reply 130) (drop 32 (sample_reply 130))).
Proof.
  destruct (preflight_packets sample_inner_ip (map_request true 8080 50000 120) (sample_reply 130)) as [(p & He & _ & _ & _ & _ & _ & Hd) (r & Hr & Hiff)];
    [by repeat constructor|done|by repeat constructor|done|by repeat constructor|].
  split; [by exists p|]. exists r. split; [done|]. apply Hiff. vm_compute in Hr. injection Hr as <-. vm_compute. reflexivity.
Defined.

Lemma swap_keeps_pinned_ports_witness :
  pre_swap_gate 20 (Some sample_inner_ip) (pinned_rules sample_ports) sample_wire =
    (Ok true, mkWire [true] [] [request sample_inner_ip (mkPinnedRule false 8080 50000 120); request sample_inner_ip (mkPinnedRule true 8080 50000 120)]) /\
  exists answer, answer ∈ arrivals sample_wire /\ grants (mkPinnedRule true 8080 50000 120) answer.
Proof.
  assert (pre_swap_gate 20 (Some sample_inner_ip) (pinned_rules sample_ports) sample_wire =
    (Ok true, mkWire [true] [] [request sample_inner_ip (mkPinnedRule false 8080 50000 120); request sample_inner_ip (mkPinnedRule true 8080 50000 120)])) as Hrun
    by (vm_compute; reflexivity).
  destruct (swap_keeps_pinned_ports sample_ports 20 (Some sample_inner_ip) sample_wire) as (b & w' & Hg & Hc & _);
    [intros s [= <-]; split; [by repeat constructor|done]|apply sample_wire_ok|].
  split; [exact Hrun|]. rewrite Hrun in Hg. injection Hg as <- <-.
  destruct (Hc eq_refl eq_refl (@mkNatPmpRule sample_natpmp true 50000 8080 false) true) as (s & answer & _ & _ & Ha & Hgr); [by left|done|done|by right; left|].
  exists answer. split; [exact Ha|exact Hgr].
Defined.
