(* ===== verification/Guards.v ===== *)
(** * The guards of a live session (talpid-warren-tunnel/src/drain_reactor.rs, session_liveness.rs, leg_stall.rs)

    What each of them does when its input tells of a draining exit, of a lost
    session or of a leg that delivers nothing.  Their IO is what they are
    answered; the clock and the jitter policy are the engine's. *)

From S2P Require Import Prelude.
Open Scope Z_scope.

(** ** The drain reactor *)

Record ExitDrainNotice : Type := mkExitDrainNotice { exit_id : bytes; deadline_unix_secs : Z; reason_code : Z }.
#[export] Instance ExitDrainNotice_eq_dec : EqDecision ExitDrainNotice.
Proof. solve_decision. Defined.

Inductive WarrenDrainPass : Type := Migrating | Rebuild | Stay.

(** The engine's policy against stampedes and storms. *)
Class DrainPolicy : Type := {
  Fraction : Type;
  jitter_delay : Z -> Z -> Fraction -> Z;
  within_cooldown : Z -> Z -> bool
}.

Definition ACTED_ON_MEMORY : nat := 8.

Inductive DrainEffect : Type :=
| ReportDrainedExit (exit : bytes)
| Sleep (duration : Z)
| TryMigrate (exit : bytes)
| RecordDrainEscalation (now : Z)
| Escalate (reason : Z).
#[export] Instance DrainEffect_eq_dec : EqDecision DrainEffect.
Proof. solve_decision. Defined.

Section Drain.
Context `{!DrainPolicy}.

(** What the reactor is answered over one notice. *)
Record DrainAnswers : Type := mkDrainAnswers {
  in_use_at_notice : option bytes;
  spread_now : Z;
  fraction : Fraction;
  in_use_after_spread : option bytes;
  pass : WarrenDrainPass;
  rebuild_now : Z
}.

(** The exit in use is another than the draining one. *)
Definition left_exit (in_use : option bytes) (draining : bytes) : bool :=
  match in_use with Some in_use => negb (bool_decide (in_use = draining)) | None => false end.

(** One turn of the loop: the notices acted on, the last escalation of the
    process, what the turn did, and whether the loop goes on. *)
Definition reactor_turn (acted_on : list ExitDrainNotice) (last : Z) (notice : ExitDrainNotice) (io : DrainAnswers)
    : list ExitDrainNotice * Z * list DrainEffect * bool :=
  let draining := exit_id notice in
  if left_exit (in_use_at_notice io) draining then (acted_on, last, [], true) else
  if bool_decide (notice ∈ acted_on) then (acted_on, last, [], true) else
  let acted_on := if (length acted_on =? ACTED_ON_MEMORY)%nat then tail acted_on else acted_on in
  let acted_on := acted_on ++ [notice] in
  let delay := jitter_delay (deadline_unix_secs notice) (spread_now io) (fraction io) in
  let effects := [ReportDrainedExit draining; Sleep delay] in
  if left_exit (in_use_after_spread io) draining then (acted_on, last, effects, true) else
  let effects := effects ++ [TryMigrate draining] in
  match pass io with
  | Migrating | Stay => (acted_on, last, effects, true)
  | Rebuild =>
      let now := rebuild_now io in
      if within_cooldown now last then (acted_on, last, effects, true)
      else (acted_on, now, effects ++ [RecordDrainEscalation now; Escalate (reason_code notice)], false)
  end.

Record DrainTurn : Type := mkDrainTurn { turn_notice : ExitDrainNotice; turn_io : DrainAnswers; turn_effects : list DrainEffect }.

(** [run_drain_reactor]: the loop until it returns or the channel closes. *)
Fixpoint reactor_loop (acted_on : list ExitDrainNotice) (last : Z) (inputs : list (ExitDrainNotice * DrainAnswers)) : list DrainTurn * Z :=
  match inputs with
  | [] => ([], last)
  | (notice, io) :: inputs =>
      let '(acted_on, last, effects, continues) := reactor_turn acted_on last notice io in
      let '(turns, last) := if continues then reactor_loop acted_on last inputs else ([], last) in
      (mkDrainTurn notice io effects :: turns, last)
  end.
Definition run_drain_reactor (last : Z) (inputs : list (ExitDrainNotice * DrainAnswers)) : list DrainTurn * Z :=
  reactor_loop [] last inputs.

(** The tunnels of a process, one after the other: they share the time of the last escalation. *)
Fixpoint tunnels_run (last : Z) (tunnels : list (list (ExitDrainNotice * DrainAnswers))) : list (list DrainTurn) :=
  match tunnels with
  | [] => []
  | inputs :: tunnels => let '(turns, last) := run_drain_reactor last inputs in turns :: tunnels_run last tunnels
  end.

(** *** Lemmas *)

Definition escalations (effects : list DrainEffect) : list Z := omap (fun e => match e with RecordDrainEscalation now => Some now | _ => None end) effects.
Definition escalated (turns : list DrainTurn) : list Z := turns ≫= (fun t => escalations (turn_effects t)).
Definition acted (turns : list DrainTurn) : list ExitDrainNotice :=
  omap (fun t => if bool_decide (ReportDrainedExit (exit_id (turn_notice t)) ∈ turn_effects t) then Some (turn_notice t) else None) turns.

(** Each time is past the cooldown of the one before it. *)
Fixpoint spaced (last : Z) (times : list Z) : Prop :=
  match times with [] => True | t :: times => within_cooldown t last = false /\ spaced t times end.

Lemma spaced_app last l1 l2 : spaced last (l1 ++ l2) <-> spaced last l1 /\ spaced (List.last l1 last) l2.
Proof.
  revert last. induction l1 as [|t l1 IH]; intros last0; cbn -[List.last]; [cbn; tauto|]. rewrite IH.
  assert (List.last (t :: l1) last0 = List.last l1 t) as ->; [|tauto].
  clear. revert t. induction l1 as [|u l1 IH]; intros t; [done|]. change (List.last (u :: l1) last0 = List.last (u :: l1) t). clear IH.
  revert u. induction l1 as [|v l1 IH]; intros u; [done|]. apply IH.
Qed.

(** What a turn may do. *)
Definition turn_ok (t : DrainTurn) : Prop :=
  let exit := exit_id (turn_notice t) in
  turn_effects t = [] \/
  (exists delay rest, turn_effects t = ReportDrainedExit exit :: Sleep delay :: rest /\
     left_exit (in_use_at_notice (turn_io t)) exit = false /\
     (rest <> [] -> left_exit (in_use_after_spread (turn_io t)) exit = false) /\
     (rest = [] \/ rest = [TryMigrate exit] \/
      (pass (turn_io t) = Rebuild /\
       rest = [TryMigrate exit; RecordDrainEscalation (rebuild_now (turn_io t)); Escalate (reason_code (turn_notice t))]))).

Lemma reactor_turn_spec acted_on last notice io acted_on' last' effects continues :
  reactor_turn acted_on last notice io = (acted_on', last', effects, continues) ->
  turn_ok (mkDrainTurn notice io effects) /\ spaced last (escalations effects) /\ last' = List.last (escalations effects) last /\
  (continues = false <-> escalations effects <> []) /\
  (effects = [] /\ acted_on' = acted_on \/
   ReportDrainedExit (exit_id notice) ∈ effects /\ notice ∉ acted_on /\
   acted_on' = (if (length acted_on =? ACTED_ON_MEMORY)%nat then tail acted_on else acted_on) ++ [notice]).
Proof.
  unfold reactor_turn. destruct (left_exit (in_use_at_notice io) (exit_id notice)) eqn:Ha.
  { intros [= <- <- <- <-]. split_and!; try done; by left. }
  case_bool_decide as Hn.
  { intros [= <- <- <- <-]. split_and!; try done; by left. }
  destruct (left_exit (in_use_after_spread io) (exit_id notice)) eqn:Hb; [|destruct (pass io) eqn:Hp; [|destruct (within_cooldown _ _) eqn:Hc|]];
    intros [= <- <- <- <-]; (split; [right; eexists _, _; split; [reflexivity|]; cbn; split_and!; try done; eauto|]);
    cbn; (split_and!; try done); right; (split; [by left|done]).
Qed.

(** A notice comes back only after eight others. *)
Definition remembered (h : list ExitDrainNotice) : Prop :=
  forall l1 n l2 l3, h = l1 ++ n :: l2 ++ n :: l3 -> (ACTED_ON_MEMORY <= length l2)%nat.

(** The notices kept of a history. *)
Definition memory (h : list ExitDrainNotice) : list ExitDrainNotice := drop (length h - ACTED_ON_MEMORY) h.

Lemma memory_snoc h n :
  (if (length (memory h) =? ACTED_ON_MEMORY)%nat then tail (memory h) else memory h) ++ [n] = memory (h ++ [n]).
Proof.
  unfold memory, ACTED_ON_MEMORY. rewrite !length_app, length_drop. cbn [length].
  destruct (Nat.eqb_spec (length h - (length h - 8)) 8).
  - replace (length h + 1 - 8)%nat with (S (length h - 8)) by lia. rewrite drop_app_le by lia. f_equal.
    destruct (drop (length h - 8) h) as [|x l] eqn:E; [apply (f_equal length) in E; rewrite length_drop in E; cbn in E; lia|].
    replace (S (length h - 8)) with (length h - 8 + 1)%nat by lia. by rewrite <- drop_drop, E.
  - replace (length h + 1 - 8)%nat with 0%nat by lia. replace (length h - 8)%nat with 0%nat by lia. by rewrite !drop_0.
Qed.

Lemma remembered_snoc h n : remembered h -> n ∉ memory h -> remembered (h ++ [n]).
Proof.
  intros Hh Hn l1 m l2 l3 He. destruct l3 as [|x l3 _] using rev_ind.
  - change (l1 ++ m :: l2 ++ [m]) with (l1 ++ (m :: l2) ++ [m]) in He. rewrite app_assoc in He. apply app_inj_tail in He as [-> ->].
    destruct (Nat.le_gt_cases ACTED_ON_MEMORY (length l2)) as [|Hl]; [done|]. destruct Hn. unfold memory.
    rewrite length_app. cbn [length]. rewrite drop_app_le by lia. apply elem_of_app. right. by left.
  - assert (l1 ++ m :: l2 ++ m :: l3 ++ [x] = (l1 ++ m :: l2 ++ m :: l3) ++ [x]) as E by (by rewrite <- (app_assoc l1), <- app_comm_cons, <- (app_assoc l2)).
    rewrite E in He. apply app_inj_tail in He as [-> _]. by eapply (Hh l1 m l2 l3).
Qed.

(** The turns of a tunnel. *)
Record turns_ok (last : Z) (h : list ExitDrainNotice) (turns : list DrainTurn) (last' : Z) : Prop := {
  to_turns : Forall turn_ok turns;
  to_spaced : spaced last (escalated turns);
  to_last : last' = List.last (escalated turns) last;
  to_ends : forall before t after, turns = before ++ t :: after -> escalations (turn_effects t) <> [] -> after = [];
  to_acted : remembered (h ++ acted turns)
}.

Lemma last_app (l1 l2 : list Z) d : List.last (l1 ++ l2) d = List.last l2 (List.last l1 d).
Proof.
  revert d. induction l1 as [|x l1 IH]; intros d; [done|]. destruct l2 as [|y l2]; [by rewrite app_nil_r|].
  assert (forall (l : list Z) (z d d' : Z), List.last (z :: l) d = List.last (z :: l) d') as Hd.
  { induction l as [|w l IHl]; intros; [done|]. apply IHl. }
  rewrite (Hd l2 y _ d). destruct l1 as [|z l1]; [done|]. change (List.last ((z :: l1) ++ y :: l2) d = List.last (y :: l2) d).
  by rewrite IH, (Hd l2 y _ d).
Qed.

Lemma reactor_loop_ok last inputs h :
  remembered h -> turns_ok last h (reactor_loop (memory h) last inputs).1 (reactor_loop (memory h) last inputs).2.
Proof.
  revert last h. induction inputs as [|[notice io] inputs IH]; intros last h Hh; cbn [reactor_loop].
  { split; cbn; try done; [by intros [|] ? ? ?|by rewrite app_nil_r]. }
  destruct (reactor_turn (memory h) last notice io) as [[[acted_on last1] effects] continues] eqn:Et.
  destruct (reactor_turn_spec _ _ _ _ _ _ _ _ Et) as (Hok & Hs & Hl & Hc & Ha).
  assert (exists h1, acted_on = memory h1 /\ remembered h1 /\ h1 = h ++ acted [mkDrainTurn notice io effects]) as (h1 & -> & Hr1 & Hh1).
  { destruct Ha as [[-> ->]|(Hin & Hnot & ->)].
    - exists h. split_and!; try done. cbn. by rewrite app_nil_r.
    - exists (h ++ [notice]). split; [apply memory_snoc|]. split; [by apply remembered_snoc|]. cbn. by rewrite bool_decide_eq_true_2. }
  assert (forall turns last2, turns_ok last1 h1 turns last2 -> (turns <> [] -> escalations effects = []) ->
    turns_ok last h (mkDrainTurn notice io effects :: turns) last2) as Hcons.
  { intros turns last2 [H1 H2 H3 H4 H5] He. split.
    - by constructor.
    - change (escalated (_ :: turns)) with (escalations effects ++ escalated turns). apply spaced_app. by rewrite <- Hl.
    - change (escalated (_ :: turns)) with (escalations effects ++ escalated turns). by rewrite last_app, <- Hl.
    - intros [|t0 before] t after Heq Hne; injection Heq as Ht Hafter.
      + subst t after. destruct turns; [done|]. by destruct Hne; apply He.
      + by eapply H4.
    - change (_ :: turns) with ([mkDrainTurn notice io effects] ++ turns). unfold acted. rewrite omap_app, app_assoc. fold (acted [mkDrainTurn notice io effects]) (acted turns).
      by rewrite <- Hh1. }
  destruct continues.
  - specialize (IH last1 h1 Hr1). destruct (reactor_loop (memory h1) last1 inputs) as [turns last2]. cbn [fst snd] in *. apply Hcons; [done|].
    intros _. destruct (escalations effects) as [|z l]; [done|]. exfalso. cut (true = false); [done|by apply Hc].
  - cbn [fst snd]. apply Hcons; [|done]. split; cbn; try done; [by intros [|] ? ? ?|by rewrite app_nil_r].
Qed.

(** C17: A drain moves the session off its own exit, once, and cannot storm: over every tunnel of a process, a turn reports the draining exit before anything else, tries to migrate only off the exit the session is on, or when no exit is published (the exit is then taken to be the draining one), rebuilds only when the pass asked for it, and a rebuild is the last thing its tunnel's reactor does; the rebuilds of the process are each past the cooldown of the one before; and a notice is acted on again only after eight others were. *)
Theorem drains_move_own_exit (tunnels : list (list (ExitDrainNotice * DrainAnswers))) :
  let traces := tunnels_run 0 tunnels in
  spaced 0 (traces ≫= escalated) /\
  Forall (fun turns =>
    Forall turn_ok turns /\
    (forall before t after, turns = before ++ t :: after -> escalations (turn_effects t) <> [] -> after = []) /\
    (forall l1 n l2 l3, acted turns = l1 ++ n :: l2 ++ n :: l3 -> (8 <= length l2)%nat)) traces.
Proof.
  cbn zeta. generalize 0 as last. induction tunnels as [|inputs tunnels IH]; intros last; [by split|].
  cbn [tunnels_run]. unfold run_drain_reactor.
  destruct (reactor_loop_ok last inputs []) as [H1 H2 H3 H4 H5]; [by intros [|] ? ? ?|]. change (memory []) with (@nil ExitDrainNotice) in *.
  destruct (reactor_loop [] last inputs) as [turns last1]. cbn [fst snd] in *. destruct (IH last1) as [Hs Hf]. split.
  - cbn. apply spaced_app. by rewrite <- H3.
  - constructor; [|done]. split_and!; done.
Qed.
End Drain.

(** ** Session liveness *)

Definition SESSION_LOSS_ESCALATE : Z := secs 15.

(** Where [run_session_liveness] waits: for a change while a session is
    published, or until a deadline while none is.  [Ended true] is after the
    session was reported lost. *)
Inductive Liveness : Type :=
| Watching
| Waiting (deadline : Z)
| Ended (escalated : bool).

(** What wakes the guard at [now]: a change of the published session, or the
    timer.  [has] is what [has_session] answers next, [again] what it answers
    when the outer loop asks again. *)
Inductive LivenessEvent : Type :=
| SessionChanged (now : Z) (alive has again : bool)
| TimerFired (now : Z) (has again : bool).

(** The head of the outer loop. *)
Definition liveness_arm (now : Z) (has : bool) : Liveness := if has then Watching else Waiting (now + SESSION_LOSS_ESCALATE).

Definition liveness_step (s : Liveness) (e : LivenessEvent) : Liveness :=
  match s, e with
  | Watching, SessionChanged now alive has _ => if alive then liveness_arm now has else Ended false
  | Waiting deadline, TimerFired now has again =>
      if now <? deadline then Waiting deadline else if has then liveness_arm now again else Ended true
  | Waiting deadline, SessionChanged now alive has again =>
      if alive then if has then liveness_arm now again else Waiting deadline else Ended false
  | s, _ => s
  end.
Definition run_session_liveness (start : Z) (has : bool) (events : list LivenessEvent) : Liveness :=
  fold_left liveness_step events (liveness_arm start has).

Definition at_time (e : LivenessEvent) : Z := match e with SessionChanged now _ _ _ | TimerFired now _ _ => now end.

(** The event's last reading found no session. *)
Definition found_none (e : LivenessEvent) : bool :=
  match e with SessionChanged _ alive has again => alive && negb (has && again) | TimerFired _ has again => has && negb again end.

(** An event under which the session stays lost: a change that brings none, a tick before the deadline. *)
Definition stays_lost (deadline : Z) (e : LivenessEvent) : bool :=
  match e with SessionChanged _ alive has _ => alive && negb has | TimerFired now _ _ => now <? deadline end.

(** The session was found lost fifteen seconds before the deadline, and has not come back since. *)
Definition lost_until (start : Z) (has : bool) (deadline : Z) (events : list LivenessEvent) : Prop :=
  exists before since, events = before ++ since /\ forallb (stays_lost deadline) since = true /\
    ((before = [] /\ has = false /\ deadline = start + SESSION_LOSS_ESCALATE) \/
     exists earlier e, before = earlier ++ [e] /\ found_none e = true /\ deadline = at_time e + SESSION_LOSS_ESCALATE).

Lemma liveness_snoc start has events e :
  run_session_liveness start has (events ++ [e]) = liveness_step (run_session_liveness start has events) e.
Proof. unfold run_session_liveness. by rewrite fold_left_app. Qed.

Lemma lost_now start has events e :
  found_none e = true -> lost_until start has (at_time e + SESSION_LOSS_ESCALATE) (events ++ [e]).
Proof. intros He. exists (events ++ [e]), []. rewrite app_nil_r. split_and!; try done. right. by exists events, e. Qed.

Lemma lost_still start has deadline events e :
  lost_until start has deadline events -> stays_lost deadline e = true -> lost_until start has deadline (events ++ [e]).
Proof.
  intros (before & since & -> & Hs & Hb) He. exists before, (since ++ [e]). rewrite app_assoc, forallb_app, Hs. cbn. by rewrite He.
Qed.

Lemma waiting_lost start has events deadline :
  run_session_liveness start has events = Waiting deadline -> lost_until start has deadline events.
Proof.
  revert deadline. induction events as [|e events IH] using rev_ind; intros deadline.
  - unfold run_session_liveness. cbn. unfold liveness_arm. destruct has; [done|]. intros [= <-]. exists [], []. split_and!; try done. by left.
  - rewrite liveness_snoc. destruct (run_session_liveness start has events) as [|d|b]; [| |by destruct e].
    + destruct e as [now alive h again|]; [|done]. cbn. destruct alive; [|done]. unfold liveness_arm. destruct h; [done|].
      intros [= <-]. by apply lost_now.
    + specialize (IH d eq_refl). destruct e as [now alive h again|now h again]; cbn; unfold liveness_arm.
      * destruct alive, h, again; try done; intros [= <-]; (by apply lost_now) || by apply lost_still.
      * destruct (Z.ltb_spec now d); [intros [= <-]; apply lost_still; [done|by apply Z.ltb_lt]|].
        destruct h, again; try done. intros [= <-]. by apply lost_now.
Qed.

(** A session that stays lost keeps its deadline. *)
Lemma deadline_kept start has events deadline since :
  run_session_liveness start has events = Waiting deadline -> forallb (stays_lost deadline) since = true ->
  run_session_liveness start has (events ++ since) = Waiting deadline.
Proof.
  intros Hw. induction since as [|e since IH] using rev_ind; [by rewrite app_nil_r|]. rewrite forallb_app. intros [Hs He]%andb_true_iff.
  rewrite app_assoc, liveness_snoc, IH by done. cbn in He. rewrite andb_true_r in He.
  destruct e as [now alive h again|now h again]; cbn in He |- *; [by destruct alive, h|by rewrite He].
Qed.

(** The liveness guard leaves Connected exactly when a lost session has not come back in time: it reports a loss only at a tick of its timer that finds no session, at least fifteen seconds after a reading that found none and with none found since; a change that brings no session does not put the deadline off; and a timer that fires at the deadline with no session always reports it. *)
Theorem session_loss_is_honest (start : Z) (has : bool) (events : list LivenessEvent) (e : LivenessEvent) :
  let before := run_session_liveness start has events in
  let after := run_session_liveness start has (events ++ [e]) in
  (before <> Ended true /\ after = Ended true <->
   exists deadline now again, before = Waiting deadline /\ e = TimerFired now false again /\ deadline <= now) /\
  (forall deadline, before = Waiting deadline -> lost_until start has deadline events) /\
  (forall deadline since, before = Waiting deadline -> forallb (stays_lost deadline) since = true ->
     run_session_liveness start has (events ++ since) = Waiting deadline).
Proof.
  cbn zeta. split; [|split; [by intros; apply waiting_lost|by intros; apply deadline_kept]]. rewrite liveness_snoc.
  destruct (run_session_liveness start has events) as [|d|b].
  - split; [|by intros (? & ? & ? & ? & _)]. intros [_ He]. destruct e as [now alive h again|]; [|done]. cbn in He. unfold liveness_arm in He. by destruct alive, h.
  - destruct e as [now alive h again|now h again]; cbn; unfold liveness_arm.
    + split; [|by intros (? & ? & ? & _ & ? & _)]. intros [_ He]. by destruct alive, h, again.
    + destruct (Z.ltb_spec now d).
      * split; [by intros [_ ?]|]. intros (? & ? & ? & [= <-] & [= <- _ _] & ?). lia.
      * split; [|intros (? & ? & ? & _ & [= _ -> _] & _); done]. intros [_ He]. destruct h; [by destruct again|]. by eexists _, _, _.
  - split; [|by intros (? & ? & ? & ? & _)]. intros [Hne He]. by destruct e.
Qed.

(** ** The legs of the bond *)

Record LegDatagrams : Type := mkLegDatagrams { tx : Z; rx : Z }.
(** The engine's reading of a sweep. *)
Record LegHealth : Type := mkLegHealth { legs : nat; unresponsive : list nat }.

Definition MIN_TX_FOR_STALL : Z := 10.

Definition downlink_stalled_legs (previous current : list LegDatagrams) : list nat :=
  if negb (length previous =? length current)%nat then [] else
  fst <$> filter (fun p =>
    let '(_, (before, now)) := p in
    Z.max 0 (rx now - rx before) = 0 /\ MIN_TX_FOR_STALL < Z.max 0 (tx now - tx before))
    (zip (seq 0 (length current)) (zip previous current)).

(** [u8::try_from(n).unwrap_or(u8::MAX)] *)
Definition clamp_u8 (n : nat) : Z := Z.min 255 (Z.of_nat n).

Definition leg_counts (health : LegHealth) (previous current : list LegDatagrams) : option (Z * Z) :=
  if (legs health =? 0)%nat || negb (legs health =? length current)%nat then None else
  let stalled := downlink_stalled_legs previous current in
  let not_delivering := length (filter (fun leg => leg ∈ unresponsive health \/ leg ∈ stalled) (seq 0 (length current))) in
  Some (clamp_u8 (length current), clamp_u8 not_delivering).

Record DebouncedLegCounts : Type := mkDebouncedLegCounts { published : Z * Z; candidate : option (Z * Z) }.
Definition DebouncedLegCounts_default : DebouncedLegCounts := mkDebouncedLegCounts (0, 0) None.

Definition observe (counts : option (Z * Z)) (d : DebouncedLegCounts) : option (Z * Z) * DebouncedLegCounts :=
  match counts with
  | None => (None, mkDebouncedLegCounts (published d) None)
  | Some counts =>
      if bool_decide (counts = published d) then (None, mkDebouncedLegCounts (published d) None)
      else if bool_decide (candidate d = Some counts) then (Some counts, mkDebouncedLegCounts counts None)
      else (None, mkDebouncedLegCounts (published d) (Some counts))
  end.
Definition observe_all (l : list (option (Z * Z))) : DebouncedLegCounts := fold_left (fun d counts => (observe counts d).2) l DebouncedLegCounts_default.

Lemma observe_snoc l c : observe_all (l ++ [c]) = (observe c (observe_all l)).2.
Proof. unfold observe_all. by rewrite fold_left_app. Qed.

(** The candidate is the last reading. *)
Lemma candidate_is_last l c : candidate (observe_all l) = Some c -> exists l', l = l' ++ [Some c].
Proof.
  destruct l as [|o l _] using rev_ind; [done|]. rewrite observe_snoc. unfold observe. destruct o as [c'|]; [|done].
  repeat case_bool_decide; try done. cbn. intros [= ->]. by exists l.
Qed.

(** The legs reported as not delivering are those a probe or the counters convict, never more than are bonded and within a byte; nothing is read of a bond no sweep covered; and the counts published change only to ones read on the two ticks before, so that a reading that alternates publishes nothing. *)
Theorem leg_counts_are_confirmed (health : LegHealth) (previous current : list LegDatagrams) (l : list (option (Z * Z))) (o : option (Z * Z)) :
  (leg_counts health previous current = None <-> legs health = 0%nat \/ legs health <> length current) /\
  (forall bonded dead, leg_counts health previous current = Some (bonded, dead) -> 0 < bonded <= 255 /\ 0 <= dead <= bonded) /\
  (forall leg, leg ∈ downlink_stalled_legs previous current <->
     length previous = length current /\ exists before now, previous !! leg = Some before /\ current !! leg = Some now /\
       rx now <= rx before /\ MIN_TX_FOR_STALL < tx now - tx before) /\
  (forall c, (observe o (observe_all l)).1 = Some c -> o = Some c /\ (exists l', l = l' ++ [Some c]) /\ published (observe_all l) <> c /\
     published (observe_all (l ++ [o])) = c) /\
  (published (observe_all (l ++ [o])) <> published (observe_all l) -> exists c, (observe o (observe_all l)).1 = Some c).
Proof.
  split_and!.
  - unfold leg_counts. destruct (Nat.eqb_spec (legs health) 0); cbn; [tauto|].
    destruct (Nat.eqb_spec (legs health) (length current)); cbn; [|tauto]. split; [done|tauto].
  - unfold leg_counts. intros bonded dead. destruct (Nat.eqb_spec (legs health) 0); cbn; [done|].
    destruct (Nat.eqb_spec (legs health) (length current)) as [He|]; cbn; [|done]. intros [= <- <-]. unfold clamp_u8.
    match goal with |- context [filter ?P ?s] => pose proof (length_filter P s) as Hf end. rewrite length_seq in Hf. lia.
  - intros leg. unfold downlink_stalled_legs. destruct (Nat.eqb_spec (length previous) (length current)) as [Hl|]; cbn [negb]; [|split; [intros Hin; by apply not_elem_of_nil in Hin|by intros []]].
    rewrite list_elem_of_fmap. split.
    + intros ([leg' [before now]] & -> & Hin). apply list_elem_of_filter in Hin as [[Hr Ht] Hin]. split; [done|].
      apply list_elem_of_lookup in Hin as [i Hi]. apply lookup_zip_Some in Hi as [Hs Hi]. apply lookup_zip_Some in Hi as [Hp Hc].
      apply lookup_seq in Hs as [-> _]. exists before, now. cbn. unfold MIN_TX_FOR_STALL in *. split_and!; try done; lia.
    + intros (_ & before & now & Hp & Hc & Hr & Ht). exists (leg, (before, now)). split; [done|]. apply list_elem_of_filter. split; [unfold MIN_TX_FOR_STALL in *; lia|].
      apply list_elem_of_lookup. exists leg. apply lookup_zip_Some. split; [apply lookup_seq; split; [done|by eapply lookup_lt_Some]|by apply lookup_zip_Some].
  - intros c. rewrite observe_snoc. unfold observe. destruct o as [c'|]; [|done]. repeat case_bool_decide; try done. cbn. intros [= <-].
    split; [done|]. split; [by apply candidate_is_last|]. split; [congruence|done].
  - rewrite observe_snoc. unfold observe. destruct o as [c'|]; [|done]. repeat case_bool_decide; try done. by exists c'.
Qed.
