(* ===== verification/EgressGuard.v ===== *)
(** * The guard that measures a carrier (talpid-warren-tunnel/src/carrier_egress_guard.rs)

    Whether the carrier of a session leaves the host, judged from the counters
    of its legs, once every probe interval, and what a verdict leads to (lib.rs).
    The readings and the clock are what the IO answers. *)

From S2P Require Import Prelude Net.
Open Scope Z_scope.

(** Durations are in nanoseconds. *)
Definition BOOTSTRAP_WINDOW : Z := secs 3.
Definition MIN_DEAD_WINDOW : Z := secs 1.
Definition DEAD_WINDOW_RTTS : Z := 20.
Definition PROBE_INTERVAL : Z := 250000000.
Definition MIN_SENDS_FOR_DEAD : Z := 3.
Definition MAX_TRACKED_LEGS : nat := 16.

(** [saturating_add], [saturating_sub] of a [u64]. *)
Definition saturating_add (a b : Z) : Z := Z.min 18446744073709551615 (a + b).
Definition saturating_sub (a b : Z) : Z := Z.max 0 (a - b).

Record LegRtt : Type := mkLegRtt { leg_id : Z; leg_rtt : Z }.
Definition LegRtt_default : LegRtt := mkLegRtt 0 0.

Record EgressReading : Type := mkEgressReading {
  session_id : Z;
  tx_datagrams : Z;
  acks_rx : Z;
  leg_rtts : list LegRtt;
  rtt : Z;
  legs : Z
}.

Record LegCounters : Type := mkLegCounters { ack_eliciting_tx : Z; leg_acks_rx : Z; counters_id : Z; counters_rtt : Z }.

(** The slots past the sixteenth do not exist: an insertion there does nothing. *)
Definition egress_reading_from (session_id : Z) (per_leg : list LegCounters) (rtt : Z) : EgressReading :=
  let '(_, tx, acks, slots) :=
    fold_left (fun '(i, tx, acks, slots) leg =>
      (S i, saturating_add tx (ack_eliciting_tx leg), saturating_add acks (leg_acks_rx leg),
       <[i := mkLegRtt (counters_id leg) (counters_rtt leg)]> slots))
      per_leg (0%nat, 0, 0, replicate MAX_TRACKED_LEGS LegRtt_default) in
  mkEgressReading session_id tx acks slots rtt (zlen per_leg).

Definition took_rtt_sample_since (current baseline : EgressReading) : bool :=
  existsb (fun leg => existsb (fun before => (leg_id before =? leg_id leg) && negb (leg_rtt before =? leg_rtt leg)) (leg_rtts baseline))
    (filter (fun leg => leg_id leg <> 0) (leg_rtts current)).

Inductive EgressVerdict : Type := Confirmed | Pending | Dead.

Definition dead_window (rtt : Z) : Z := Z.max MIN_DEAD_WINDOW (Z.min BOOTSTRAP_WINDOW (rtt * DEAD_WINDOW_RTTS)).

Definition assess_egress (baseline current : EgressReading) (elapsed : Z) : EgressVerdict :=
  if negb (session_id current =? 0) && negb (session_id current =? session_id baseline) then Confirmed else
  if (session_id current =? session_id baseline) && took_rtt_sample_since current baseline then Confirmed else
  let sends := saturating_sub (tx_datagrams current) (tx_datagrams baseline) in
  if (dead_window (rtt current) <=? elapsed) && (MIN_SENDS_FOR_DEAD <=? sends) then Dead else Pending.

Inductive GuardOutcome : Type := BypassConfirmed | RevertedToRoute | BindBlackholed | EscapeAlsoDead | Inconclusive.
#[export] Instance GuardOutcome_eq_dec : EqDecision GuardOutcome.
Proof. solve_decision. Defined.

Record GuardMeasurement : Type := mkGuardMeasurement { m_legs : Z; m_sends : Z; m_acks : Z; m_rtt : Z }.
Record GuardReport : Type := mkGuardReport { outcome : GuardOutcome; measurement : GuardMeasurement }.

Definition measurement_from (baseline current : EgressReading) : GuardMeasurement :=
  mkGuardMeasurement (legs current) (saturating_sub (tx_datagrams current) (tx_datagrams baseline))
    (saturating_sub (acks_rx current) (acks_rx baseline)) (rtt current).

(** What the IO answers a phase: the baseline, then a reading a round, with
    the time since the baseline.  A sleep lasts its interval or more. *)
Record PhaseIo : Type := mkPhaseIo { io_baseline : EgressReading; io_round : nat -> EgressReading * Z }.
Definition phase_ok (io : PhaseIo) : Prop := forall k, (Z.of_nat k + 1) * PROBE_INTERVAL <= (io_round io k).2.

Fixpoint phase_loop (fuel : nat) (io : PhaseIo) (k : nat) : option (EgressVerdict * GuardMeasurement) :=
  match fuel with
  | O => None
  | S fuel =>
      let '(current, elapsed) := io_round io k in
      let measured := measurement_from (io_baseline io) current in
      match assess_egress (io_baseline io) current elapsed with
      | Confirmed => Some (Confirmed, measured)
      | Dead => Some (Dead, measured)
      | Pending => if BOOTSTRAP_WINDOW <=? elapsed then Some (Pending, measured) else phase_loop fuel io (S k)
      end
  end.

(** The window closes by the twelfth round. *)
Definition PHASE_ROUNDS : nat := 12.
Definition verify_egress_phase (io : PhaseIo) : option (EgressVerdict * GuardMeasurement) := phase_loop PHASE_ROUNDS io 0.

Definition run_bootstrap_guard (io : PhaseIo) : option GuardReport :=
  '(verdict, measurement) ← verify_egress_phase io;
  Some (mkGuardReport match verdict with Confirmed => BypassConfirmed | Pending => Inconclusive | Dead => BindBlackholed end measurement).

Definition run_escape_verify_guard (io : PhaseIo) : option GuardReport :=
  '(verdict, measurement) ← verify_egress_phase io;
  Some (mkGuardReport match verdict with Confirmed => RevertedToRoute | Dead => EscapeAlsoDead | Pending => Inconclusive end measurement).

(** ** What a verdict leads to *)

Inductive CarrierRoute : Type := OffTunnel | Nested | Unroutable.
#[export] Instance CarrierRoute_eq_dec : EqDecision CarrierRoute.
Proof. solve_decision. Defined.
Record CarrierRoutes : Type := mkCarrierRoutes { bound : CarrierRoute; plain_route : CarrierRoute }.

Definition classify_carrier_route (source : option IpAddr) (tun_ip : IpAddr) : CarrierRoute :=
  match source with
  | Some src => if is_unspecified src then Unroutable else if bool_decide (src = tun_ip) then Nested else OffTunnel
  | None => Unroutable
  end.

(** Whether the verdict ends the session. *)
Definition dead_carrier_ends_the_session (outcome : GuardOutcome) : bool := match outcome with BindBlackholed => true | _ => false end.

Definition dead_carrier_blames_the_circuit (outcome : GuardOutcome) (routes : option CarrierRoutes) : bool :=
  if negb (bool_decide (outcome = EscapeAlsoDead)) then false
  else match routes with
       | Some r => bool_decide (bound r = OffTunnel) || bool_decide (plain_route r = OffTunnel)
       | None => false
       end.

(** ** Lemmas *)

(** A leg of both readings moved its round trip. *)
Definition new_sample (current baseline : EgressReading) : Prop :=
  exists leg before, leg ∈ leg_rtts current /\ before ∈ leg_rtts baseline /\ leg_id leg <> 0 /\
    leg_id before = leg_id leg /\ leg_rtt before <> leg_rtt leg.

Lemma took_rtt_sample_iff current baseline : took_rtt_sample_since current baseline = true <-> new_sample current baseline.
Proof.
  unfold took_rtt_sample_since, new_sample. rewrite existsb_exists. split.
  - intros (leg & Hl%list_elem_of_In & He). apply list_elem_of_filter in Hl as [Hid Hl]. apply existsb_exists in He as (before & Hb%list_elem_of_In & He).
    apply andb_true_iff in He as [Hi%Z.eqb_eq Hr%negb_true_iff%Z.eqb_neq]. by exists leg, before.
  - intros (leg & before & Hl & Hb & Hid & Hi & Hr). exists leg. split; [apply list_elem_of_In, list_elem_of_filter; done|].
    apply existsb_exists. exists before. split; [by apply list_elem_of_In|]. by rewrite Hi, Z.eqb_refl, (proj2 (Z.eqb_neq _ _) Hr).
Qed.

(** The carrier left the host: a session of its own, or a new sample. *)
Definition egressed (baseline current : EgressReading) : Prop :=
  (session_id current <> 0 /\ session_id current <> session_id baseline) \/
  (session_id current = session_id baseline /\ new_sample current baseline).

(** The window is over, packets that call for an answer went out. *)
Definition unanswered (baseline current : EgressReading) (elapsed : Z) : Prop :=
  dead_window (rtt current) <= elapsed /\ tx_datagrams baseline + MIN_SENDS_FOR_DEAD <= tx_datagrams current.

Lemma assess_spec baseline current elapsed :
  match assess_egress baseline current elapsed with
  | Confirmed => egressed baseline current
  | Dead => ~ egressed baseline current /\ unanswered baseline current elapsed
  | Pending => ~ egressed baseline current /\ ~ unanswered baseline current elapsed
  end.
Proof.
  unfold assess_egress, egressed, unanswered.
  assert (if took_rtt_sample_since current baseline then new_sample current baseline else ~ new_sample current baseline) as Ht.
  { destruct (took_rtt_sample_since current baseline) eqn:E; [by apply took_rtt_sample_iff|]. intros Hn%took_rtt_sample_iff. congruence. }
  destruct (took_rtt_sample_since current baseline);
    destruct (Z.eqb_spec (session_id current) 0), (Z.eqb_spec (session_id current) (session_id baseline)); cbn [negb andb]; try tauto;
    destruct (Z.leb_spec (dead_window (rtt current)) elapsed); destruct (Z.leb_spec MIN_SENDS_FOR_DEAD (saturating_sub (tx_datagrams current) (tx_datagrams baseline)));
    cbn [andb]; unfold saturating_sub, MIN_SENDS_FOR_DEAD in *; (split; [tauto|lia]).
Qed.

(** The phase ends at some round, every round before it pending. *)
Lemma phase_loop_spec fuel io k :
  phase_ok io -> (fuel + k = PHASE_ROUNDS)%nat -> (0 < fuel)%nat ->
  exists n, (k <= n < PHASE_ROUNDS)%nat /\ (forall j, (k <= j < n)%nat ->
      assess_egress (io_baseline io) (io_round io j).1 (io_round io j).2 = Pending /\ (io_round io j).2 < BOOTSTRAP_WINDOW) /\
    phase_loop fuel io k = Some (assess_egress (io_baseline io) (io_round io n).1 (io_round io n).2, measurement_from (io_baseline io) (io_round io n).1) /\
    (assess_egress (io_baseline io) (io_round io n).1 (io_round io n).2 = Pending -> BOOTSTRAP_WINDOW <= (io_round io n).2).
Proof.
  intros Hio. revert k. induction fuel as [|fuel IH]; intros k Hk Hf; [lia|]. cbn [phase_loop].
  specialize (Hio k) as Hlow. destruct (io_round io k) as [current elapsed] eqn:Er. cbn [snd] in Hlow.
  assert (forall v, assess_egress (io_baseline io) current elapsed = v -> (v = Pending -> BOOTSTRAP_WINDOW <= elapsed) ->
    exists n, (k <= n < PHASE_ROUNDS)%nat /\ (forall j, (k <= j < n)%nat ->
      assess_egress (io_baseline io) (io_round io j).1 (io_round io j).2 = Pending /\ (io_round io j).2 < BOOTSTRAP_WINDOW) /\
    Some (v, measurement_from (io_baseline io) current) = Some (assess_egress (io_baseline io) (io_round io n).1 (io_round io n).2, measurement_from (io_baseline io) (io_round io n).1) /\
    (assess_egress (io_baseline io) (io_round io n).1 (io_round io n).2 = Pending -> BOOTSTRAP_WINDOW <= (io_round io n).2)) as Hend.
  { intros v Hv Hp. exists k. rewrite Er. cbn [fst snd]. rewrite Hv. split; [lia|]. split; [intros; lia|done]. }
  destruct (assess_egress (io_baseline io) current elapsed) eqn:Ea; [by apply Hend| |by apply Hend].
  destruct (Z.leb_spec BOOTSTRAP_WINDOW elapsed); [by apply Hend|].
  unfold BOOTSTRAP_WINDOW, PROBE_INTERVAL, PHASE_ROUNDS, secs in *. destruct (IH (S k)) as (n & Hn & Hj & Hr & Hp); [lia..|].
  exists n. split; [lia|]. split; [|done]. intros j Hjk. destruct (decide (j = k)) as [->|]; [by rewrite Er|apply Hj; lia].
Qed.

(** C19: The guard ends, and judges on evidence alone: over any readings it ends within its window and twelve rounds; it confirms a carrier only on a session of its own since the baseline or a leg whose round trip moved, convicts one only when packets that call for an answer went out over the dead window and nothing showed that any arrived in this reading or one before it, and otherwise closes undecided; a repeated acknowledgement counts for nothing, and only a conviction of the bind ends the session. *)
Theorem guard_judges_on_evidence (io : PhaseIo) (Hio : phase_ok io) :
  exists (n : nat) r e, (n < PHASE_ROUNDS)%nat /\ run_bootstrap_guard io = Some r /\ run_escape_verify_guard io = Some e /\
    measurement r = measurement e /\
    (forall j, (j < n)%nat -> ~ egressed (io_baseline io) (io_round io j).1 /\ (io_round io j).2 < BOOTSTRAP_WINDOW) /\
    let current := (io_round io n).1 in
    let elapsed := (io_round io n).2 in
    (outcome r = BypassConfirmed <-> outcome e = RevertedToRoute) /\ (outcome r = BindBlackholed <-> outcome e = EscapeAlsoDead) /\
    match outcome r with
    | BypassConfirmed => egressed (io_baseline io) current
    | BindBlackholed => ~ egressed (io_baseline io) current /\ unanswered (io_baseline io) current elapsed
    | Inconclusive => outcome e = Inconclusive /\ ~ egressed (io_baseline io) current /\ BOOTSTRAP_WINDOW <= elapsed /\
        tx_datagrams current < tx_datagrams (io_baseline io) + MIN_SENDS_FOR_DEAD
    | RevertedToRoute | EscapeAlsoDead => False
    end /\
    (dead_carrier_ends_the_session (outcome r) = true <-> outcome r = BindBlackholed) /\
    dead_carrier_ends_the_session (outcome e) = false.
Proof.
  destruct (phase_loop_spec PHASE_ROUNDS io 0 Hio) as (n & Hn & Hj & Hr & Hp); [done|unfold PHASE_ROUNDS; lia|].
  unfold run_bootstrap_guard, run_escape_verify_guard, verify_egress_phase. rewrite Hr. cbn [mbind option_bind]. exists n. eexists _, _.
  split; [lia|]. split; [done|]. split; [done|]. split; [done|]. split.
  { intros j Hjn. destruct (Hj j) as [Ha Hb]; [lia|]. split; [|done]. pose proof (assess_spec (io_baseline io) (io_round io j).1 (io_round io j).2) as Hs.
    rewrite Ha in Hs. apply Hs. }
  cbn [outcome]. pose proof (assess_spec (io_baseline io) (io_round io n).1 (io_round io n).2) as Hs.
  destruct (assess_egress _ _ _) eqn:Ea; cbn in Hs |- *; (split; [done|]); (split; [done|]); (split; [|by split]); try done.
  destruct Hs as [Hs Hu]. specialize (Hp eq_refl). split; [done|]. split; [done|]. split; [done|].
  unfold unanswered, dead_window, MIN_DEAD_WINDOW, BOOTSTRAP_WINDOW, secs in *. lia.
Qed.

(** ** Witness *)

(** A session of one leg whose sends climb while its round trip stands still. *)
Definition sample_reading (sends rtt : Z) : EgressReading :=
  egress_reading_from 7 [mkLegCounters sends 40 9 rtt] rtt.
Definition sample_dead_phase : PhaseIo :=
  mkPhaseIo (sample_reading 10 25000000) (fun k => (sample_reading (11 + Z.of_nat k) 25000000, (Z.of_nat k + 1) * PROBE_INTERVAL)).

Lemma guard_judges_on_evidence_witness :
  (outcome <$> run_bootstrap_guard sample_dead_phase) = Some BindBlackholed /\
  exists n, unanswered (io_baseline sample_dead_phase) (io_round sample_dead_phase n).1 (io_round sample_dead_phase n).2.
Proof.
  destruct (guard_judges_on_evidence sample_dead_phase) as (n & r & e & _ & Hr & _ & _ & _ & Hm); [intros k; cbn; lia|].
  assert (outcome <$> run_bootstrap_guard sample_dead_phase = Some BindBlackholed) as Hb by (vm_compute; reflexivity).
  split; [exact Hb|]. exists n. rewrite Hr in Hb. injection Hb as Hb. cbn zeta in Hm. rewrite Hb in Hm. by destruct Hm as (_ & _ & [_ Hu] & _).
Defined.
