(* ===== verification/Verdicts.v ===== *)
(** * What is remembered of each network's carrier (talpid-warren-tunnel/src/carrier_verdict_cache.rs, carrier_bind_reclaim.rs)

    The verdicts of the guard of [EgressGuard], kept in a file by network, and the
    plans, the recorders and the reclaims that read and write it: each holds
    the entries it loaded, so that their writes may cross.  The file is
    written whole or not at all. *)

From S2P Require Import Prelude Decimal AppKey Upgrade EgressGuard.
Open Scope Z_scope.

Definition VERDICT_TTL : Z := 604800.
Definition MAX_ENTRIES : nat := 16.

Inductive CachedVerdict : Type := BindOk | RouteOnly.
#[export] Instance CachedVerdict_eq_dec : EqDecision CachedVerdict.
Proof. solve_decision. Defined.

Definition as_str (v : CachedVerdict) : str := match v with BindOk => lit "bind-ok" | RouteOnly => lit "route-only" end.
Definition parse (s : str) : option CachedVerdict :=
  if bool_decide (s = lit "bind-ok") then Some BindOk
  else if bool_decide (s = lit "route-only") then Some RouteOnly else None.

Record Entry : Type := mkEntry { fingerprint : str; verdict : CachedVerdict; recorded_unix : Z }.

(** ** The file *)

(** [s.split_whitespace()], [skip] bytes of a white space left to pass. *)
Fixpoint split_words (skip : nat) (word : str) (s : str) : list str :=
  let flush := if bool_decide (word = []) then [] else [word] in
  match s with
  | [] => flush
  | b :: rest =>
      match skip with
      | S skip => split_words skip word rest
      | O =>
          match List.find (fun w => bool_decide (take (length w) s = w)) WHITE_SPACE with
          | Some w => flush ++ split_words (length w - 1) [] rest
          | None => split_words 0 (word ++ [b]) rest
          end
      end
  end.
Definition split_whitespace (s : str) : list str := split_words 0 [] s.

(** [path] says whether the daemon gave a directory. *)
Record VerdictCache : Type := mkVerdictCache { path : bool; entries : list Entry }.

Definition read_entry (line : str) : option Entry :=
  match split_whitespace line with
  | fp :: v :: ts :: _ =>
      verdict ← parse v;
      recorded_unix ← parse_uint 18446744073709551616 ts;
      Some (mkEntry fp verdict recorded_unix)
  | _ => None
  end.

Definition load (dir : bool) (disk : option str) : VerdictCache :=
  mkVerdictCache dir
    (match disk with
     | Some contents => if dir then omap read_entry (lines contents) else []
     | None => []
     end).

Definition entry_line (e : Entry) : str :=
  fingerprint e ++ [32] ++ as_str (verdict e) ++ [32] ++ decimal (recorded_unix e).

(** [written] is whether the write succeeded. *)
Definition persist (c : VerdictCache) (written : bool) (disk : option str) : option str :=
  if path c && written then Some (entries c ≫= (fun e => entry_line e ++ [10])) else disk.

Definition lookup (c : VerdictCache) (fp : str) (now : Z) : option CachedVerdict :=
  e ← List.find (fun e => bool_decide (fingerprint e = fp)) (entries c);
  if Z.max 0 (now - recorded_unix e) <? VERDICT_TTL then Some (verdict e) else None.

(** [sort_by_key] by [Reverse(recorded_unix)], which is stable. *)
Definition newer (a b : Entry) : Prop := recorded_unix b <= recorded_unix a.
#[export] Instance newer_dec a b : Decision (newer a b).
Proof. unfold newer. apply _. Defined.

Definition recorded (c : VerdictCache) (fp : str) (v : CachedVerdict) (now : Z) : VerdictCache :=
  let es := filter (fun e => fingerprint e <> fp) (entries c) ++ [mkEntry fp v now] in
  let es := if (MAX_ENTRIES <? length es)%nat then take MAX_ENTRIES (merge_sort newer es) else es in
  mkVerdictCache (path c) es.
Definition record (c : VerdictCache) (fp : str) (v : CachedVerdict) (now : Z) (written : bool) (disk : option str) : option str :=
  persist (recorded c fp v now) written disk.

Definition forget (c : VerdictCache) (fp : str) (written : bool) (disk : option str) : option str :=
  let es := filter (fun e => fingerprint e <> fp) (entries c) in
  if negb (length es =? length (entries c))%nat then persist (mkVerdictCache (path c) es) written disk else disk.

(** ** Plans and recorders *)

Definition nibble (n : Z) : Z := if n <? 10 then 48 + n else 87 + n.
(** [format!("{h:016x}")] *)
Definition hex16 (h : Z) : str := (fun i => nibble (Z.shiftr h (4 * (15 - Z.of_nat i)) mod 16)) <$> seq 0 16.

(** The gateway as it is displayed. *)
Definition network_fingerprint (interface gateway : str) : str :=
  hex16 (fold_left (fun h b => (Z.lxor h b * 1099511628211) mod 18446744073709551616)
           (interface ++ [124] ++ gateway) 14695981039346656037).

Record VerdictRecorder : Type := mkVerdictRecorder { cache : VerdictCache; network : str; replayed_route_only : bool }.

Inductive CarrierProbePlan : Type := Background (r : VerdictRecorder) | SkipRouteOnly (r : VerdictRecorder) | NoBind.

Definition plan_carrier_probe (fp : str) (dir : bool) (now : Z) (disk : option str) : CarrierProbePlan :=
  let cache := load dir disk in
  match lookup cache fp now with
  | Some RouteOnly => SkipRouteOnly (mkVerdictRecorder cache fp true)
  | Some BindOk | None => Background (mkVerdictRecorder cache fp false)
  end.
(** The plan of a connect: the network of the default route is what there is to bind to. *)
Definition plan_network (net : option (str * str)) (dir : bool) (now : Z) (disk : option str) : CarrierProbePlan :=
  match net with
  | Some (interface, gateway) => plan_carrier_probe (network_fingerprint interface gateway) dir now disk
  | None => NoBind
  end.
Definition recorder_of (p : CarrierProbePlan) : option VerdictRecorder :=
  match p with Background r | SkipRouteOnly r => Some r | NoBind => None end.

(** The guard a plan spawns: the escape alone is verified where the bind was skipped. *)
Definition spawn_guard (verify_only : bool) (io : PhaseIo) : option GuardReport :=
  if verify_only then run_escape_verify_guard io else run_bootstrap_guard io.

Definition record_outcome (r : VerdictRecorder) (outcome : GuardOutcome) (now : Z) (written : bool) (disk : option str) : option str :=
  match outcome with
  | BypassConfirmed => record (cache r) (network r) BindOk now written disk
  | RevertedToRoute => if replayed_route_only r then disk else record (cache r) (network r) RouteOnly now written disk
  | BindBlackholed => record (cache r) (network r) RouteOnly now written disk
  | EscapeAlsoDead => forget (cache r) (network r) written disk
  | Inconclusive => disk
  end.

(** ** The reclaim after a migration *)

Definition verdict_for (measurement : option GuardOutcome) : option CachedVerdict :=
  match measurement with
  | None => None
  | Some BypassConfirmed => Some BindOk
  | Some RevertedToRoute | Some BindBlackholed => Some RouteOnly
  | Some EscapeAlsoDead | Some Inconclusive => None
  end.

Inductive ReclaimOutcome : Type := Skipped | NotAttempted | BindConfirmed | ReclaimBlackholed | Unproven.
Inductive ReclaimEffect : Type := RebindBound | VerifyBind | RebindUnbound | RecordVerdict (v : CachedVerdict).

(** [run_bind_reclaim], over what its IO answers. *)
Definition run_bind_reclaim (measured : option CachedVerdict) (rebound : bool) (outcome : GuardOutcome) : ReclaimOutcome * list ReclaimEffect :=
  if bool_decide (measured = Some RouteOnly) then (Skipped, []) else
  if negb rebound then (NotAttempted, [RebindBound]) else
  match verdict_for (Some outcome) with
  | Some v => (match v with BindOk => BindConfirmed | RouteOnly => ReclaimBlackholed end, [RebindBound; VerifyBind; RecordVerdict v])
  | None => (Unproven, [RebindBound; VerifyBind; RebindUnbound])
  end.

(** ** The file over the life of the daemon *)

Record VerdictStore : Type := mkVerdictStore { disk : option str; recorders : list VerdictRecorder }.

Inductive VerdictEvent : Type :=
| ConnectPlans (net : option (str * str)) (now : Z)
| GuardEnds (i : nat) (io : PhaseIo) (now : Z) (written : bool)
| ReclaimEnds (default_route : option (str * str)) (measured : option CachedVerdict) (rebound : bool) (io : PhaseIo) (now : Z) (written : bool).

Section Store.
Variable dir : bool.

Definition verdict_step (e : VerdictEvent) (s : VerdictStore) : VerdictStore :=
  match e with
  | ConnectPlans net now =>
      mkVerdictStore (disk s) (recorders s ++ option_list (recorder_of (plan_network net dir now (disk s))))
  | GuardEnds i io now written =>
      match recorders s !! i with
      | Some r =>
          match spawn_guard (replayed_route_only r) io with
          | Some report => mkVerdictStore (record_outcome r (outcome report) now written (disk s)) (take i (recorders s) ++ drop (S i) (recorders s))
          | None => s
          end
      | None => s
      end
  | ReclaimEnds default_route measured rebound io now written =>
      match run_bootstrap_guard io with
      | None => s
      | Some report =>
      mkVerdictStore
        (fold_left (fun disk effect =>
           match effect, default_route with
           | RecordVerdict v, Some (interface, gateway) => record (load dir disk) (network_fingerprint interface gateway) v now written disk
           | _, _ => disk
           end) (run_bind_reclaim measured rebound (outcome report)).2 (disk s))
        (recorders s)
      end
  end.
Definition verdict_run (events : list VerdictEvent) : VerdictStore := fold_left (fun s e => verdict_step e s) events (mkVerdictStore None []).

(** What a phase over a bound carrier says of the bind. *)
Definition bind_measured (io : PhaseIo) : option CachedVerdict :=
  match verify_egress_phase io with
  | Some (Confirmed, _) => Some BindOk
  | Some (Dead, _) => Some RouteOnly
  | Some (Pending, _) | None => None
  end.

(** What an event measured of the bind of a network: nothing where the bind was skipped. *)
Definition measured_by (e : VerdictEvent) (s : VerdictStore) : list Entry :=
  match e with
  | ConnectPlans _ _ => []
  | GuardEnds i io now _ =>
      match recorders s !! i, bind_measured io with
      | Some r, Some v => if replayed_route_only r then [] else [mkEntry (network r) v now]
      | _, _ => []
      end
  | ReclaimEnds default_route measured rebound io now _ =>
      match default_route, bind_measured io with
      | Some (interface, gateway), Some v =>
          if negb rebound || bool_decide (measured = Some RouteOnly) then [] else [mkEntry (network_fingerprint interface gateway) v now]
      | _, _ => []
      end
  end.
Fixpoint measurements (events : list VerdictEvent) (s : VerdictStore) : list Entry :=
  match events with [] => [] | e :: events => measured_by e s ++ measurements events (verdict_step e s) end.
End Store.

(** ** Lemmas on the file *)

(** A character that is printed and is no white space. *)
Definition plain (b : Z) : bool := (33 <=? b) && (b <=? 126).
Definition word (s : str) : Prop := s <> [] /\ forallb plain s = true.
Definition entry_ok (e : Entry) : Prop := word (fingerprint e) /\ 0 <= recorded_unix e < 18446744073709551616.

Lemma not_white_space b s : plain b = true -> List.find (fun w => bool_decide (take (length w) (b :: s) = w)) WHITE_SPACE = None.
Proof.
  intros Hb. assert (forallb (fun w => match w with h :: _ => negb (plain h) | [] => false end) WHITE_SPACE = true) as Hw by (vm_compute; done).
  revert Hw. generalize WHITE_SPACE. induction l as [|w l IH]; intros Hw; [done|]. cbn [forallb] in Hw. apply andb_true_iff in Hw as [Hh Hw].
  cbn [List.find]. rewrite bool_decide_eq_false_2; [by apply IH|]. destruct w as [|h w]; [done|]. cbn [length take]. intros [= -> _]. by rewrite Hb in Hh.
Qed.

Lemma split_words_word acc w s : forallb plain w = true -> split_words 0 acc (w ++ s) = split_words 0 (acc ++ w) s.
Proof.
  revert acc. induction w as [|b w IH]; intros acc Hw; [by rewrite app_nil_r|]. cbn [forallb] in Hw. apply andb_true_iff in Hw as [Hb Hw].
  cbn [app split_words]. change (b :: w ++ s) with ([b] ++ w ++ s). cbn [app]. rewrite not_white_space by done. rewrite IH by done. by rewrite <- app_assoc.
Qed.

Lemma split_words_space acc s : acc <> [] -> split_words 0 acc (32 :: s) = acc :: split_words 0 [] s.
Proof. intros Ha. cbn [split_words]. rewrite bool_decide_eq_false_2 by done. reflexivity. Qed.

Lemma plain_decimal n : 0 <= n -> word (decimal n).
Proof.
  intros Hn. destruct (decimal_spec n Hn) as [Hnum _]. destruct (numeral_digits _ Hnum) as [Hd Hne]. split; [done|].
  eapply forallb_forall. intros b Hb. rewrite forallb_forall in Hd. apply Hd, is_digit_iff in Hb. unfold plain. lia.
Qed.

Lemma read_entry_line e : entry_ok e -> read_entry (entry_line e) = Some e.
Proof.
  intros [[Hne Hw] Ht]. destruct (plain_decimal (recorded_unix e)) as [Hdne Hd]; [lia|].
  assert (word (as_str (verdict e))) as [Hvne Hv] by (by destruct (verdict e); vm_compute).
  unfold read_entry, entry_line, split_whitespace. rewrite split_words_word by done. cbn [app]. rewrite split_words_space by done.
  rewrite split_words_word by done. cbn [app]. rewrite split_words_space by done.
  rewrite <- (app_nil_r (decimal _)), split_words_word by done. cbn [app split_words]. rewrite bool_decide_eq_false_2 by done.
  assert (parse (as_str (verdict e)) = Some (verdict e)) as -> by (by destruct (verdict e); vm_compute). cbn [mbind option_bind].
  rewrite parse_uint_decimal by done. cbn. by destruct e.
Qed.

(** Lines that hold no line break. *)
Definition printed (l : str) : Prop := Forall (fun b => 32 <= b <= 126) l.

Lemma split_printed l : printed l -> split 10 l = [l].
Proof.
  induction 1 as [|b l Hb _ IH]; [done|]. cbn [split]. destruct (Z.eqb_spec b 10); [lia|]. by rewrite IH.
Qed.

Lemma lines_printed ls : Forall printed ls -> lines (ls ≫= (fun l => l ++ [10])) = ls.
Proof.
  intros Hls. assert (split 10 (ls ≫= (fun l => l ++ [10])) = ls ++ [[]]) as Hs.
  { induction Hls as [|l ls Hl _ IH]; [done|]. cbn [mbind list_bind]. rewrite <- app_assoc. cbn [app]. rewrite split_app, split_printed, IH by done. done. }
  unfold lines. rewrite Hs, last_snoc, length_app. cbn [length]. replace (length ls + 1 - 1)%nat with (length ls) by lia. rewrite take_app_length.
  clear Hs. induction Hls as [|l ls Hl _ IH]; [done|]. cbn [fmap list_fmap]. f_equal; [|exact IH].
  unfold strip_suffix. destruct (zlen [13] <=? zlen l) eqn:Hz; [|done]. cbn [andb]. case_bool_decide as Hd; [|done]. exfalso.
  assert (13 ∈ l) as Hin by (rewrite <- (take_drop (length l - length [13]) l), Hd; apply elem_of_app; right; by left).
  unfold printed in Hl. rewrite Forall_forall in Hl. specialize (Hl 13 Hin). lia.
Qed.

Lemma word_printed w : forallb plain w = true -> printed w.
Proof. rewrite forallb_forall. intros Hw. apply Forall_forall. intros b Hb. apply list_elem_of_In, Hw in Hb. unfold plain in Hb. lia. Qed.

Lemma entry_line_printed e : entry_ok e -> printed (entry_line e).
Proof.
  intros [[_ Hw] Ht]. destruct (plain_decimal (recorded_unix e)) as [_ Hd]; [lia|]. unfold entry_line.
  repeat (apply Forall_app; split); try (by apply word_printed); try (repeat constructor; lia). destruct (verdict e); apply word_printed; by vm_compute.
Qed.

Lemma load_text es : Forall entry_ok es -> entries (load true (Some (es ≫= (fun e => entry_line e ++ [10])))) = es.
Proof.
  intros Hes. cbn. assert (es ≫= (fun e => entry_line e ++ [10]) = (entry_line <$> es) ≫= (fun l => l ++ [10])) as ->.
  { clear Hes. induction es as [|e es IH]; [done|]. cbn. by rewrite IH. }
  rewrite lines_printed; [|apply Forall_fmap; eapply Forall_impl; [exact Hes|apply entry_line_printed]].
  induction Hes as [|e es He _ IH]; [done|]. cbn [fmap list_fmap omap list_omap]. rewrite read_entry_line by done. by rewrite IH.
Qed.

Lemma hex16_word h : word (hex16 h).
Proof.
  split; [done|]. apply forallb_forall. intros b Hb. apply list_elem_of_In, list_elem_of_fmap in Hb as (i & -> & _).
  pose proof (Z.mod_pos_bound (Z.shiftr h (4 * (15 - Z.of_nat i))) 16 ltac:(lia)). unfold nibble, plain.
  destruct (Z.ltb_spec (Z.shiftr h (4 * (15 - Z.of_nat i)) mod 16) 10); lia.
Qed.

(** Entries that say what was measured, each network's once. *)
Record entries_ok (measured es : list Entry) : Prop := {
  eo_ok : Forall entry_ok es;
  eo_measured : Forall (fun e => e ∈ measured) es;
  eo_once : NoDup (fingerprint <$> es);
  eo_few : (length es <= MAX_ENTRIES)%nat
}.

Lemma entries_ok_nil m : entries_ok m [].
Proof. split; [constructor..|cbn; lia]. Qed.

Lemma entries_ok_more m m' es : entries_ok m es -> entries_ok (m ++ m') es.
Proof. intros [H1 H2 H3 H4]. split; [done| |done|done]. eapply Forall_impl; [exact H2|]. intros e He. apply elem_of_app. by left. Qed.

Lemma kept_ok m fp es : entries_ok m es -> entries_ok m (filter (fun e => fingerprint e <> fp) es).
Proof.
  intros [H1 H2 H3 H4]. rewrite Forall_forall in H1, H2. split.
  - apply Forall_forall. intros e [_ He]%list_elem_of_filter. by apply H1.
  - apply Forall_forall. intros e [_ He]%list_elem_of_filter. by apply H2.
  - eapply sublist_NoDup; [exact H3|]. apply fmap_sublist, sublist_filter.
  - etrans; [apply length_filter|done].
Qed.

Lemma recorded_ok m c e : entries_ok m (entries c) -> entry_ok e -> e ∈ m ->
  entries_ok m (entries (recorded c (fingerprint e) (verdict e) (recorded_unix e))).
Proof.
  intros Hes He Hm. destruct (kept_ok m (fingerprint e) _ Hes) as [H1 H2 H3 H4]. unfold recorded. cbn [entries].
  set (es := filter _ _) in *. replace (mkEntry _ _ _) with e by (by destruct e).
  assert (Forall entry_ok (es ++ [e])) as K1 by (apply Forall_app; split; [done|by constructor]).
  assert (Forall (fun e => e ∈ m) (es ++ [e])) as K2 by (apply Forall_app; split; [done|by constructor]).
  assert (NoDup (fingerprint <$> es ++ [e])) as K3.
  { rewrite fmap_app. apply NoDup_app. split; [done|]. split; [|apply NoDup_singleton].
    intros x Hx Hin. apply list_elem_of_singleton in Hin as ->. apply list_elem_of_fmap in Hx as (e' & Hf & Hin). by apply list_elem_of_filter in Hin as [Hne _]. }
  destruct (Nat.ltb_spec MAX_ENTRIES (length (es ++ [e]))); [|by split].
  pose proof (merge_sort_Permutation newer (es ++ [e])) as Hp. split.
  - apply Forall_take. by rewrite Hp.
  - apply Forall_take. by rewrite Hp.
  - eapply sublist_NoDup; [|apply fmap_sublist, sublist_take]. by rewrite Hp.
  - rewrite length_take. lia.
Qed.

Lemma lookup_Some c fp now v : lookup c fp now = Some v ->
  exists t, mkEntry fp v t ∈ entries c /\ now - t < VERDICT_TTL.
Proof.
  unfold lookup. destruct (List.find _ _) as [e|] eqn:Hf; [|done]. cbn. apply List.find_some in Hf as [Hin Hfp%bool_decide_eq_true].
  destruct (Z.ltb_spec (Z.max 0 (now - recorded_unix e)) VERDICT_TTL); [|done]. intros [= <-]. exists (recorded_unix e).
  rewrite <- Hfp. split; [apply list_elem_of_In; by destruct e|lia].
Qed.

Section Runs.
Variable dir : bool.

Definition recorder_ok (m : list Entry) (r : VerdictRecorder) : Prop :=
  path (cache r) = dir /\ entries_ok m (entries (cache r)) /\ word (network r).
Record store_ok (m : list Entry) (s : VerdictStore) : Prop := {
  so_disk : entries_ok m (entries (load dir (disk s)));
  so_recorders : Forall (recorder_ok m) (recorders s)
}.
(** A write that keeps the file sound. *)
Definition disk_ok (m : list Entry) (disk : option str) : Prop := entries_ok m (entries (load dir disk)).

Lemma persist_ok m c written disk : path c = dir -> entries_ok m (entries c) -> disk_ok m disk -> disk_ok m (persist c written disk).
Proof.
  intros Hp Hc Hd. unfold persist, disk_ok. destruct (path c && written) eqn:Hw; [|done]. apply andb_true_iff in Hw as [Hw _]. rewrite <- Hp, Hw.
  rewrite load_text; [done|apply Hc].
Qed.

Lemma record_ok m c fp v now written disk :
  path c = dir -> entries_ok m (entries c) -> word fp -> 0 <= now < 18446744073709551616 -> mkEntry fp v now ∈ m ->
  disk_ok m disk -> disk_ok m (record c fp v now written disk).
Proof.
  intros Hp Hc Hw Ht Hm Hd. apply persist_ok; [done| |done]. by apply (recorded_ok m c (mkEntry fp v now)).
Qed.

Lemma forget_ok m c fp written disk : path c = dir -> entries_ok m (entries c) -> disk_ok m disk -> disk_ok m (forget c fp written disk).
Proof. intros Hp Hc Hd. unfold forget. case_match; [|done]. apply persist_ok; [done|by apply kept_ok|done]. Qed.

(** The clock is a [u64] of seconds. *)
Definition clock_ok (e : VerdictEvent) : Prop :=
  match e with ConnectPlans _ now | GuardEnds _ _ now _ | ReclaimEnds _ _ _ _ now _ => 0 <= now < 18446744073709551616 end.

(** What each guard records of the bind, of a replayed verdict nothing. *)
Lemma guard_outcome verify_only io report :
  spawn_guard verify_only io = Some report ->
  match outcome report with
  | BypassConfirmed => verify_only = false /\ bind_measured io = Some BindOk
  | BindBlackholed => verify_only = false /\ bind_measured io = Some RouteOnly
  | RevertedToRoute | EscapeAlsoDead => verify_only = true
  | Inconclusive => bind_measured io = None
  end.
Proof.
  unfold spawn_guard, run_escape_verify_guard, run_bootstrap_guard, bind_measured.
  destruct verify_only, (verify_egress_phase io) as [[[| |] m]|]; try done; cbn; by intros [= <-].
Qed.

Lemma recorder_more m m' r : recorder_ok m r -> recorder_ok (m ++ m') r.
Proof. intros (H1 & H2 & H3). split_and!; try done. by apply entries_ok_more. Qed.

Lemma verdict_step_ok m e s : clock_ok e -> store_ok m s -> store_ok (m ++ measured_by e s) (verdict_step dir e s).
Proof.
  intros Ht [Hd Hr]. pose proof (entries_ok_more m (measured_by e s) _ Hd) as Hd'.
  assert (Forall (recorder_ok (m ++ measured_by e s)) (recorders s)) as Hr' by (eapply Forall_impl; [exact Hr|apply recorder_more]).
  destruct e as [net now|i io now written|route measured rebound io now written]; cbn [verdict_step].
  - split; [done|]. apply Forall_app. split; [done|]. destruct net as [[interface gateway]|]; [|constructor].
    cbn [plan_network]. set (network := network_fingerprint interface gateway).
    assert (exists replayed, recorder_of (plan_carrier_probe network dir now (disk s)) =
      Some (mkVerdictRecorder (load dir (disk s)) network replayed)) as [replayed ->]
      by (unfold plan_carrier_probe; destruct (lookup _ _ _) as [[|]|]; by eexists).
    constructor; [|constructor]. split_and!; [done|done|apply hex16_word].
  - destruct (recorders s !! i) as [r|] eqn:Hi; [|by split]. destruct (spawn_guard (replayed_route_only r) io) as [report|] eqn:Hg; [|by split].
    split; cbn [disk recorders]; cycle 1.
    { apply Forall_app. split; [by apply Forall_take|by apply Forall_drop]. }
    pose proof (Forall_lookup_1 _ _ _ _ Hr' Hi) as (Hp & Hc & Hw). apply guard_outcome in Hg. unfold record_outcome.
    assert (forall v, replayed_route_only r = false -> bind_measured io = Some v ->
      disk_ok (m ++ measured_by (GuardEnds i io now written) s) (record (cache r) (network r) v now written (disk s))) as Hrec.
    { intros v Hf Hb. apply record_ok; try done. apply elem_of_app. right. cbn [measured_by]. rewrite Hi, Hb, Hf. by left. }
    destruct (outcome report); [by destruct Hg; apply Hrec|by rewrite Hg|by destruct Hg; apply Hrec|by apply forget_ok|done].
  - destruct (run_bootstrap_guard io) as [report|] eqn:Hg; [|by split]. split; cbn [disk recorders]; [|done].
    apply (guard_outcome false) in Hg. unfold run_bind_reclaim. destruct (bool_decide (measured = Some RouteOnly)) eqn:Hm; [done|].
    destruct rebound; [|done]. cbn [negb orb] in *. destruct route as [[interface gateway]|]; [|by destruct (outcome report)].
    assert (forall v, bind_measured io = Some v ->
      disk_ok (m ++ measured_by (ReclaimEnds (Some (interface, gateway)) measured true io now written) s)
        (record (load dir (disk s)) (network_fingerprint interface gateway) v now written (disk s))) as Hrec.
    { intros v Hb. apply record_ok; try done; [apply hex16_word|]. apply elem_of_app. right. cbn [measured_by]. rewrite Hb, Hm. by left. }
    destruct (outcome report); cbn [verdict_for snd fold_left]; try done; by destruct Hg; apply Hrec.
Qed.

Lemma verdict_run_ok events : Forall clock_ok events ->
  store_ok (measurements dir events (mkVerdictStore None [])) (verdict_run dir events).
Proof.
  unfold verdict_run. assert (store_ok [] (mkVerdictStore None [])) as Hs by (split; [apply entries_ok_nil|constructor]).
  change (measurements dir events (mkVerdictStore None [])) with ([] ++ measurements dir events (mkVerdictStore None [])).
  revert Hs. generalize (@nil Entry) (mkVerdictStore None []). induction events as [|e events IH]; intros m s Hs Ht; cbn [fold_left measurements].
  - by rewrite app_nil_r.
  - apply Forall_cons in Ht as [He Ht]. rewrite app_assoc. apply IH; [by apply verdict_step_ok|done].
Qed.

(** C18: A verdict is only ever a measurement, and expires: whatever the order of the connects, the guards that end and the reclaims, and whichever of their writes fail, a network is planned with a verdict only when its bind was measured to have that verdict less than a week ago (a connect that replays a verdict measures the escape and renews nothing); and the file reads back as the entries last written to it, one a network and sixteen at most. *)
Theorem verdicts_are_measured (events : list VerdictEvent) (interface gateway : str) (now : Z) (Hclock : Forall clock_ok events) :
  let s := verdict_run dir events in
  let measured := measurements dir events (mkVerdictStore None []) in
  let network := network_fingerprint interface gateway in
  (match plan_carrier_probe network dir now (disk s) with
   | SkipRouteOnly r => replayed_route_only r = true /\ exists t, mkEntry network RouteOnly t ∈ measured /\ now - t < VERDICT_TTL
   | Background r => replayed_route_only r = false
   | NoBind => False
   end) /\
  (forall v, lookup (load dir (disk s)) network now = Some v -> exists t, mkEntry network v t ∈ measured /\ now - t < VERDICT_TTL) /\
  NoDup (fingerprint <$> entries (load dir (disk s))) /\ (length (entries (load dir (disk s))) <= MAX_ENTRIES)%nat /\
  (forall c written, path c = dir -> Forall entry_ok (entries c) ->
     entries (load dir (persist c written (disk s))) = if dir && written then entries c else entries (load dir (disk s))).
Proof.
  cbn zeta. destruct (verdict_run_ok events Hclock) as [[H1 H2 H3 H4] _].
  assert (forall v, lookup (load dir (disk (verdict_run dir events))) (network_fingerprint interface gateway) now = Some v ->
    exists t, mkEntry (network_fingerprint interface gateway) v t ∈ measurements dir events (mkVerdictStore None []) /\ now - t < VERDICT_TTL) as Hl.
  { intros v Hv. apply lookup_Some in Hv as (t & Hin & Ht). exists t. split; [|done]. rewrite Forall_forall in H2. by apply H2. }
  split_and!; try done.
  - unfold plan_carrier_probe. specialize (Hl RouteOnly). destruct (lookup _ _ _) as [[|]|]; try done. split; [done|]. by apply Hl.
  - intros c written Hp Hc. unfold persist. rewrite Hp. destruct (dir && written) eqn:Hw; [|done]. apply andb_true_iff in Hw as [-> _]. by apply load_text.
Qed.
End Runs.

(** Whether the carrier is left on a bound socket; the guard that verifies one touches nothing. *)
Definition left_bound (rebound : bool) (effects : list ReclaimEffect) : bool :=
  fold_left (fun bound effect => match effect with RebindBound => rebound | RebindUnbound => false | VerifyBind | RecordVerdict _ => bound end) effects false.

(** C20: A reclaim tries the bind exactly where it is not known to black-hole, records a verdict exactly when its guard measured one, and takes an unproven bind off the wire again; the session keeps a bound socket when the bind is confirmed, and also when it is measured to black-hole, since nothing reverts it then. *)
Theorem reclaim_takes_bind_back (measured : option CachedVerdict) (rebound : bool) (io : PhaseIo) (Hio : phase_ok io) :
  exists report, run_bootstrap_guard io = Some report /\
  let '(o, effects) := run_bind_reclaim measured rebound (outcome report) in
  (RebindBound ∈ effects <-> measured <> Some RouteOnly) /\
  (forall v, RecordVerdict v ∈ effects <-> measured <> Some RouteOnly /\ rebound = true /\ bind_measured io = Some v) /\
  (left_bound rebound effects = true <-> o = BindConfirmed \/ o = ReclaimBlackholed) /\
  (o = ReclaimBlackholed <-> measured <> Some RouteOnly /\ rebound = true /\ bind_measured io = Some RouteOnly).
Proof.
  destruct (phase_loop_spec PHASE_ROUNDS io 0 Hio) as (n & _ & _ & Hr & _); [done|unfold PHASE_ROUNDS; lia|].
  unfold run_bootstrap_guard, bind_measured, verify_egress_phase. rewrite Hr. cbn [mbind option_bind]. eexists. split; [reflexivity|]. cbn [outcome].
  unfold run_bind_reclaim. case_bool_decide as Hm.
  { split_and!; try set_solver; naive_solver. }
  assert (forall v (l : list ReclaimEffect), RecordVerdict v ∈ RebindBound :: l <-> RecordVerdict v ∈ l) as Hskip by (intros; rewrite elem_of_cons; naive_solver).
  destruct rebound; cbn [negb]; [|split_and!; try set_solver; naive_solver].
  destruct (assess_egress _ _ _); cbn; split_and!; try set_solver; naive_solver.
Qed.

(** ** Witness *)

Definition hotspot : str := lit "en0".
Definition hotspot_gateway : str := lit "172.20.10.1".
(** Two connects on a network whose bind black-holes, the second one replaying the verdict over an escape that works. *)
Definition sample_alive_phase : PhaseIo :=
  mkPhaseIo (sample_reading 10 25000000) (fun k => (sample_reading (11 + Z.of_nat k) 26000000, (Z.of_nat k + 1) * PROBE_INTERVAL)).
Definition sample_connects : list VerdictEvent :=
  [ConnectPlans (Some (hotspot, hotspot_gateway)) 1000; GuardEnds 0 sample_dead_phase 1002 true;
   ConnectPlans (Some (hotspot, hotspot_gateway)) 500000; GuardEnds 0 sample_alive_phase 500002 true].

Lemma verdicts_are_measured_witness :
  (let s := verdict_run true sample_connects in
   exists r, plan_carrier_probe (network_fingerprint hotspot hotspot_gateway) true 605000 (disk s) = SkipRouteOnly r /\
   lookup (load true (disk s)) (network_fingerprint hotspot hotspot_gateway) 605802 = None) /\
  exists t, mkEntry (network_fingerprint hotspot hotspot_gateway) RouteOnly t ∈ measurements true sample_connects (mkVerdictStore None []) /\ 605000 - t < VERDICT_TTL.
Proof.
  destruct (verdicts_are_measured true sample_connects hotspot hotspot_gateway 605000) as (Hp & _); [by repeat constructor|].
  assert (lookup (load true (disk (verdict_run true sample_connects))) (network_fingerprint hotspot hotspot_gateway) 605000 = Some RouteOnly) as Hl by (vm_compute; reflexivity).
  split.
  - cbn zeta. unfold plan_carrier_probe. rewrite Hl. eexists. split; [reflexivity|vm_compute; reflexivity].
  - unfold plan_carrier_probe in Hp. rewrite Hl in Hp. by destruct Hp as [_ Hp].
Defined.

Lemma reclaim_takes_bind_back_witness :
  run_bind_reclaim None true BindBlackholed = (ReclaimBlackholed, [RebindBound; VerifyBind; RecordVerdict RouteOnly]) /\
  exists report, run_bootstrap_guard sample_dead_phase = Some report /\ outcome report = BindBlackholed.
Proof.
  split; [reflexivity|]. destruct (reclaim_takes_bind_back None true sample_dead_phase) as (report & Hr & _); [intros k; cbn; lia|].
  exists report. split; [exact Hr|]. vm_compute in Hr. by injection Hr as <-.
Defined.
