(* ===== verification/Updater.v ===== *)
(** * The directory updater (mullvad-daemon/src/warren_multi_hop_directory.rs, [spawn])

    The task that owns the main connection's circuit: its state, and one pass
    of its loop, from the settings and the directory to the circuit handed to
    the tunnel's parameters generator and to the way the change is applied.
    What a pass reads of the rest of the daemon (the fetch and its
    verification, the drained exits, the RTTs, the host's routes, the clock)
    is its input. *)

From S2P Require Import Prelude Guards Net AppKey Routes RoutePlan Selection.
Open Scope Z_scope.

(** What the updater reads of a directory besides its nodes, and the time the drain policy keeps
    away from a node. *)
Class UpdaterPolicy `{!Descriptors} : Type := {
  generation : VerifiedMultiHopDirectory -> Z;
  DRAINED_TTL_SECS : Z
}.

(** ** The entries that refused a dial *)

(** [RefusedEntries] *)
Definition RefusedEntries : Type := list (bytes * Z).

Section Refused.
Context `{!Descriptors, !UpdaterPolicy}.

Definition live (at_ now : Z) : bool := Z.max 0 (now - at_) <? DRAINED_TTL_SECS.

(** [RefusedEntries::record]; what it answers is only logged. *)
Definition record_refused (r : RefusedEntries) (current : option MultiHopConfig) (relay_id : bytes) (now : Z)
    : bool * RefusedEntries :=
  if match current with
     | Some c => negb (single_node c) && bool_decide (Routes.relay_id (relay c) = relay_id)
     | None => false
     end
  then (true, filter (fun e => e.1 <> relay_id /\ live e.2 now = true) r ++ [(relay_id, now)])
  else (false, r).

(** [RefusedEntries::active] *)
Definition active_refused (r : RefusedEntries) (now : Z) : list bytes * RefusedEntries :=
  let r := filter (fun e => live e.2 now = true) r in (r.*1, r).
End Refused.

Inductive CircuitChange : Type := Drained | RefusedEntry | Other.

Section Updater.
Context `{!Descriptors, !Discovery, !UpdaterPolicy} {E : Type}.

Definition entry_node_exit_id (dir : VerifiedMultiHopDirectory) (relay_id : bytes) : option bytes :=
  i ← node_position (has_relay relay_id) (nodes dir);
  n ← get (nodes dir) i; Some (exit_id (node_exit n)).

Definition circuit_change (dir : option VerifiedMultiHopDirectory) (prev next : option MultiHopConfig)
    (drained refused_entries : list bytes) : CircuitChange :=
  match prev with
  | None => Other
  | Some prev =>
      let '(prev_entry, prev_exit) := circuit_identity prev in
      let entry_node_drained :=
        match (dir ← dir; entry_node_exit_id dir prev_entry) with
        | Some node => bool_decide (node ∈ drained)
        | None => false
        end in
      if bool_decide (prev_exit ∈ drained) || entry_node_drained then Drained
      else if negb (single_node prev) && bool_decide (prev_entry ∈ refused_entries)
              && match next with
                 | Some next => negb (single_node next) && bool_decide ((circuit_identity next).2 = prev_exit)
                 | None => false
                 end
      then RefusedEntry else Other
  end.

(** ** The state of the task *)

(** The locals of the task, and of the parameters generator the circuit the next tunnel start
    dials and the ladder of migration candidates. *)
Record Updater : Type := mkUpdater {
  last_circuit : option MultiHopConfig;
  cached_dir : option VerifiedMultiHopDirectory;
  cached_advisory : option PathQualityAdvisory;
  highest_generation : Z;
  refused_entries : RefusedEntries;
  generator_circuit : option MultiHopConfig;
  candidates_armed : list MultiHopConfig
}.

(** [BootSeed], less whether it is stale. *)
Record BootSeed : Type := mkBootSeed { seed_directory : VerifiedMultiHopDirectory; seed_circuit : option MultiHopConfig }.

(** What the fetch came to. *)
Inductive Fetched : Type :=
| NotModified
| Updated (dir : VerifiedMultiHopDirectory)
| FetchFailed.

(** What a pass reads. *)
Record PassInput : Type := mkPassInput {
  pi_settings : MultiHopSettings;
  (** [Some] when the refresh is due: the directory's fetch, and the advisory's. *)
  pi_refresh : option (Fetched * option PathQualityAdvisory);
  (** The refusals queued, each with the clock at which it is recorded. *)
  pi_pending : list (bytes * Z);
  (** The clock at which the refusals still live are read. *)
  pi_refused_at : Z;
  pi_drained : list bytes;
  pi_entry_rtt : RttCache;
  pi_unroutable : VerifiedMultiHopDirectory -> list bytes;
  pi_locality : ClientLocality;
  pi_now : Z;
  (** The circuit of the developer's override file, if it holds a valid one. *)
  pi_file : option MultiHopConfig;
  (** Whether the live tunnel, if asked to migrate, takes the request. *)
  pi_migrates : bool;
  (** [rebuilder_waiting] *)
  pi_rebuilder : bool
}.

(** How a changed circuit is applied, besides being handed to the generator. *)
Inductive UpdaterEffect : Type :=
| NotifyMaintenance
| TryMigrate (c : MultiHopConfig)
| RemapNatPmp
| RequestReconnect
| SetRouteDirectory (dir : VerifiedMultiHopDirectory) (settings : MultiHopSettings).

(** What the daemon starts the task with: the generator carries the file the boot loaded, then the
    seed's circuit when there is a seed. *)
Definition boot (file : option MultiHopConfig) (seed : option BootSeed) : Updater :=
  match seed with
  | Some seed =>
      mkUpdater (seed_circuit seed) (Some (seed_directory seed)) None (generation (seed_directory seed)) []
        (seed_circuit seed) []
  | None => mkUpdater None None None 0 [] file []
  end.

(** [boot_seed_from], once the cached body is verified. *)
Definition boot_seed_from (dir : VerifiedMultiHopDirectory) (settings : MultiHopSettings) (unroutable : list bytes)
    (locality : ClientLocality) (now : Z) : comp E BootSeed :=
  circuit ← select_boot_circuit dir settings unroutable locality now;
  Ok (mkBootSeed dir circuit).

(** ** A pass *)

(** The refusals queued, each checked against the circuit in use. *)
Definition note_refusals (u : Updater) (pending : list (bytes * Z)) : RefusedEntries :=
  foldl (fun r p => (record_refused r (last_circuit u) p.1 p.2).2) (refused_entries u) pending.

(** The directory and the generation after a fetch: a directory older than one already trusted
    is turned away. *)
Definition refresh (u : Updater) (due : option (Fetched * option PathQualityAdvisory)) : Updater :=
  match due with
  | None => u
  | Some (fetched, advisory) =>
      let '(dir, highest) :=
        match fetched with
        | Updated dir =>
            if generation dir <? highest_generation u then (cached_dir u, highest_generation u)
            else (Some dir, generation dir)
        | NotModified | FetchFailed => (cached_dir u, highest_generation u)
        end in
      mkUpdater (last_circuit u) dir advisory highest (refused_entries u) (generator_circuit u) (candidates_armed u)
  end.

(** The circuit desired, and [skip_apply]. *)
Definition desired (unconfigured : bool) (u : Updater) (refused : list bytes) (i : PassInput)
    : comp E (option MultiHopConfig * bool) :=
  if unconfigured then Ok (None, false) else
  match cached_dir u with
  | Some dir =>
      c ← select_next_circuit dir (pi_settings i) (last_circuit u) (pi_drained i) refused (pi_unroutable i dir)
            (pi_locality i) (cached_advisory u) (pi_entry_rtt i) (pi_now i);
      Ok (c, match c, last_circuit u with None, Some _ => true | _, _ => false end)
  | None => Ok (pi_file i, match pi_file i with None => true | Some _ => false end)
  end.

(** The drained exits the apply step sees: empty unless the pass selected from a directory. *)
Definition excluded (unconfigured : bool) (u : Updater) (i : PassInput) : list bytes :=
  if unconfigured then [] else match cached_dir u with Some _ => pi_drained i | None => [] end.

Definition set_circuit (u : Updater) (c : option MultiHopConfig) (ladder : list MultiHopConfig) : Updater :=
  mkUpdater c (cached_dir u) (cached_advisory u) (highest_generation u) (refused_entries u) c ladder.

(** The apply step, for a circuit that differs from the one in use. *)
Definition apply_change (u : Updater) (i : PassInput) (excluded refused : list bytes) (next : option MultiHopConfig)
    : comp E (Updater * list UpdaterEffect * WarrenDrainPass) :=
  let change := circuit_change (cached_dir u) (last_circuit u) next excluded refused in
  alternates ← match change, next, cached_dir u with
               | Drained, Some new, Some dir =>
                   same_country_migration_alternates dir new (mh_entry_country (pi_settings i)) excluded refused
               | _, _, _ => Ok []
               end;
  let target := match change, next with (Drained | RefusedEntry), Some new => Some new | _, _ => None end in
  let migrated := match target with Some _ => pi_migrates i | None => false end in
  let effects :=
    (match change with Other => [] | _ => [NotifyMaintenance] end)
    ++ (match target with Some new => [TryMigrate new] | None => [] end)
    ++ (if migrated then [RemapNatPmp] else if pi_rebuilder i then [] else [RequestReconnect]) in
  Ok (set_circuit u next alternates, effects, if migrated then Migrating else Rebuild).

Definition pass (unconfigured : bool) (u : Updater) (i : PassInput)
    : comp E (Updater * list UpdaterEffect * WarrenDrainPass) :=
  let '(refused, kept) := active_refused (note_refusals u (pi_pending i)) (pi_refused_at i) in
  let u := mkUpdater (last_circuit u) (cached_dir u) (cached_advisory u) (highest_generation u) kept
             (generator_circuit u) (candidates_armed u) in
  let u := if unconfigured then u else refresh u (pi_refresh i) in
  '(next, skip_apply) ← desired unconfigured u refused i;
  '(u, effects, outcome) ←
     (if skip_apply || bool_decide (circuit_identity <$> next = circuit_identity <$> last_circuit u)
      then Ok (u, [], Stay) else apply_change u i (excluded unconfigured u i) refused next);
  Ok (u, effects ++ match cached_dir u with Some dir => [SetRouteDirectory dir (pi_settings i)] | None => [] end, outcome).
End Updater.
