(* ===== verification/UpdaterRun.v ===== *)
(** * What the directory updater promises

    Over the runs of the updater from its boot, whatever each pass reads: where
    the circuit the tunnel is dialed with comes from, and what one more pass
    does to it; then an instance over a small fleet. *)

From S2P Require Import Prelude Guards Net AppKey Routes RoutePlan Selection SelectionSpec SelectionRun Migration Updater SelectionWitness.
Open Scope Z_scope.

Section Run.
Context `{!Descriptors, !Discovery, !DiscoveryLaws, !UpdaterPolicy} {E : Type} (unconfigured : bool).
Implicit Types (u : Updater) (i : PassInput) (c : MultiHopConfig).

(** What a selection drew from: the directory and the constraints in force. *)
Record Draw : Type := mkDraw {
  dw_directory : VerifiedMultiHopDirectory;
  dw_settings : MultiHopSettings;
  dw_drained : list bytes;
  dw_unroutable : list bytes;
  dw_locality : ClientLocality
}.

Definition draw_candidates (d : Draw) : list (Z * Z) :=
  candidates (dw_directory d) (dw_settings d) (dw_drained d) (dw_locality d).

Definition admitted (d : Draw) (c : MultiHopConfig) : Prop :=
  exists e x entry exit,
    admissible (dw_directory d) (dw_settings d) (dw_drained d) (dw_unroutable d) (dw_locality d) c e x entry exit.

(** The draw of a pass, over the directory it ends with. *)
Definition drawn u i : option Draw :=
  if unconfigured then None else
  dir ← cached_dir u;
  Some (mkDraw dir (pi_settings i) (pi_drained i) (pi_unroutable i dir) (pi_locality i)).

(** A run of the task: the draws of its boot seed and of its passes, and the circuits of the
    override files it was given. *)
Inductive updates : list Draw -> list MultiHopConfig -> Updater -> Prop :=
| up_boot file : updates [] (option_list file) (boot file None)
| up_seed file dir settings unroutable locality now seed :
    unconfigured = false ->
    @boot_seed_from _ _ E dir settings unroutable locality now = Ok seed ->
    updates [mkDraw dir settings [] unroutable locality] (option_list file) (boot file (Some seed))
| up_pass draws files u i u' effects outcome :
    updates draws files u -> @pass _ _ _ E unconfigured u i = Ok (u', effects, outcome) ->
    updates (draws ++ option_list (drawn u' i)) (files ++ option_list (pi_file i)) u'.

(** The generator carries the circuit in use; without one, the file of the boot or nothing. *)
Definition settled (u : Updater) : Prop :=
  (forall l, last_circuit u = Some l -> generator_circuit u = Some l) /\
  (unconfigured = true -> last_circuit u = None /\ cached_dir u = None).

(** What a pass makes of the circuit of the generator. *)
Definition circuit_step u i u' : Prop :=
  match drawn u' i with
  | Some d =>
      draw_candidates d = [] /\ generator_circuit u' = generator_circuit u \/
      exists c c', admitted d c /\ generator_circuit u' = Some c' /\ circuit_identity c' = circuit_identity c /\
        (c' = c \/ generator_circuit u = Some c')
  | None =>
      generator_circuit u' = generator_circuit u \/
      exists c, pi_file i = Some c /\ generator_circuit u' = Some c
  end.

(** What goes with it: a circuit that stays is not dialed again, a change is of the circuit's
    identity, and a live move is to the circuit the generator is handed. *)
Definition dials_step u u' (effects : list UpdaterEffect) (outcome : WarrenDrainPass) : Prop :=
  (outcome = Stay -> generator_circuit u' = generator_circuit u /\ RequestReconnect ∉ effects /\
     forall c, TryMigrate c ∉ effects) /\
  (outcome <> Stay -> circuit_identity <$> last_circuit u' <> circuit_identity <$> last_circuit u) /\
  (forall c, TryMigrate c ∈ effects -> generator_circuit u' = Some c).

Lemma apply_change_ok u i ex refused next :
  exists ladder effects outcome,
    @apply_change _ _ E u i ex refused next = Ok (set_circuit u next ladder, effects, outcome) /\ outcome <> Stay /\
    (forall c, TryMigrate c ∈ effects -> next = Some c) /\ (forall dir settings, SetRouteDirectory dir settings ∉ effects).
Proof.
  unfold apply_change. set (change := circuit_change _ _ _ _ _).
  assert (exists ladder, match change, next, cached_dir u with
     | Drained, Some new, Some dir =>
         @same_country_migration_alternates _ _ E dir new (mh_entry_country (pi_settings i)) ex refused
     | _, _, _ => Ok [] end = Ok ladder) as [ladder ->].
  { destruct change; [|by eexists..]. destruct next as [new|]; [|by eexists]. destruct (cached_dir u) as [dir|]; [|by eexists].
    destruct (@migration_alternates _ _ _ E dir new (mh_entry_country (pi_settings i)) ex refused) as (_ & l & -> & _). by exists l. }
  rewrite bind_Ok. eexists ladder, _, _. split; [reflexivity|].
  split_and!; destruct change, next, (pi_migrates i), (pi_rebuilder i); try done; intros *; rewrite ?elem_of_app, ?elem_of_cons, ?elem_of_nil;
    naive_solver.
Qed.

(** What is done with the circuit a pass desires. *)
Definition finish u i (refused : list bytes) (next : option MultiHopConfig) (skip_apply : bool)
    : comp E (Updater * list UpdaterEffect * WarrenDrainPass) :=
  '(u, effects, outcome) ←
     (if skip_apply || bool_decide (circuit_identity <$> next = circuit_identity <$> last_circuit u)
      then Ok (u, [], Stay) else apply_change u i (excluded unconfigured u i) refused next);
  Ok (u, effects ++ match cached_dir u with Some dir => [SetRouteDirectory dir (pi_settings i)] | None => [] end, outcome).

Lemma finish_ok u i refused next skip_apply :
  exists u' effects outcome, finish u i refused next skip_apply = Ok (u', effects, outcome) /\
    (cached_dir u' = cached_dir u /\ highest_generation u' = highest_generation u) /\ dials_step u u' effects outcome /\
    (last_circuit u' = last_circuit u /\ generator_circuit u' = generator_circuit u /\
       (skip_apply = true \/ circuit_identity <$> next = circuit_identity <$> last_circuit u) \/
     circuit_identity <$> next <> circuit_identity <$> last_circuit u /\
       skip_apply = false /\ last_circuit u' = next /\ generator_circuit u' = next).
Proof.
  unfold finish. destruct (skip_apply || _) eqn:Hs.
  - rewrite bind_Ok. eexists _, _, _. split; [reflexivity|]. split; [done|].
    apply orb_true_iff in Hs. rewrite bool_decide_eq_true in Hs. split; [|by left]. rewrite app_nil_l.
    assert (forall x, x ∈ match cached_dir u with Some dir => [SetRouteDirectory dir (pi_settings i)] | None => [] end ->
      exists dir, x = SetRouteDirectory dir (pi_settings i)) as Hroute
      by (intros x; destruct (cached_dir u); rewrite ?elem_of_cons, ?elem_of_nil; naive_solver).
    split_and!; [intros _; split_and!; [done|by intros [? ?]%Hroute|by intros c [? ?]%Hroute]|done|by intros c [? ?]%Hroute].
  - apply orb_false_iff in Hs as [-> Hid%bool_decide_eq_false].
    destruct (apply_change_ok u i (excluded unconfigured u i) refused next) as (ladder & effects & outcome & -> & Hout & Hm & _).
    rewrite bind_Ok. eexists _, _, _. split; [reflexivity|]. split; [done|]. split; [|by right].
    split_and!; [done|done|]. intros c Hc. apply elem_of_app in Hc as [Hc|Hc]; [by apply Hm|].
    cbn [cached_dir set_circuit] in Hc. destruct (cached_dir u); rewrite ?elem_of_cons, ?elem_of_nil in Hc; naive_solver.
Qed.

(** The state the selection of a pass sees: refusals noted, directory refreshed. *)
Definition prepared u i : list bytes * Updater :=
  let '(refused, kept) := active_refused (note_refusals u (pi_pending i)) (pi_refused_at i) in
  let u := mkUpdater (last_circuit u) (cached_dir u) (cached_advisory u) (highest_generation u) kept
             (generator_circuit u) (candidates_armed u) in
  (refused, if unconfigured then u else refresh u (pi_refresh i)).

Lemma pass_finish u i :
  @pass _ _ _ E unconfigured u i =
    ('(next, skip_apply) ← desired unconfigured (prepared u i).2 (prepared u i).1 i;
     finish (prepared u i).2 i (prepared u i).1 next skip_apply).
Proof. unfold pass, prepared. by destruct (active_refused _ _). Qed.

Lemma prepared_settled u i : settled u ->
  settled (prepared u i).2 /\ last_circuit (prepared u i).2 = last_circuit u /\
  generator_circuit (prepared u i).2 = generator_circuit u.
Proof.
  intros [Hg Hu]. unfold settled, prepared. destruct (active_refused _ _) as [refused kept]. cbn [snd].
  case_eq unconfigured; intros Hun; [by destruct (Hu Hun)|]. rewrite Hun in Hu. unfold refresh.
  destruct (pi_refresh i) as [[[|dir|] advisory]|]; [|destruct (generation dir <? _)|..]; (split; [|done]); by split.
Qed.

(** A pass returns, and does to the circuit what [circuit_step] and [dials_step] say. *)
Lemma pass_ok u i : settled u ->
  exists u' effects outcome, @pass _ _ _ E unconfigured u i = Ok (u', effects, outcome) /\
    settled u' /\ circuit_step u i u' /\ dials_step u u' effects outcome.
Proof.
  intros Hset. rewrite pass_finish. destruct (prepared_settled u i Hset) as (Hs1 & Hl1 & Hg1).
  destruct (prepared u i) as [refused u1]. cbn [fst snd] in *.
  assert (exists next skip_apply, @desired _ _ E unconfigured u1 refused i = Ok (next, skip_apply) /\
    forall u' effects outcome, cached_dir u' = cached_dir u1 -> dials_step u1 u' effects outcome ->
      (last_circuit u' = last_circuit u1 /\ generator_circuit u' = generator_circuit u1 /\
         (skip_apply = true \/ circuit_identity <$> next = circuit_identity <$> last_circuit u1) \/
       circuit_identity <$> next <> circuit_identity <$> last_circuit u1 /\
         skip_apply = false /\ last_circuit u' = next /\ generator_circuit u' = next) ->
      settled u' /\ circuit_step u i u') as (next & skip_apply & -> & Hstep).
  { destruct Hs1 as [Hg Hu]. unfold desired, settled, circuit_step, drawn. case_eq unconfigured; intros Hun.
    - destruct (Hu Hun) as [Hl Hc]. exists None, false. split; [done|]. intros u' _ _ Hc' _ Hn. rewrite Hl in Hn.
      destruct Hn as [(Hl' & Hg' & _)|(Hid & _)]; [|done]. rewrite Hc', Hl', Hg'. naive_solver.
    - destruct (cached_dir u1) as [dir|].
      + pose proof (@select_admissible _ _ _ E dir (pi_settings i) (last_circuit u1) (pi_drained i) refused
          (pi_unroutable i dir) (pi_locality i) (cached_advisory u1) (pi_entry_rtt i) (pi_now i)) as Hsel.
        destruct (select_next_circuit _ _ _ _ _ _ _ _ _ _) as [next| |]; [|done..]. rewrite bind_Ok. eexists _, _.
        split; [reflexivity|]. intros u' _ _ Hc' _ Hn. rewrite Hc'. destruct next as [c|].
        * destruct Hn as [(Hl' & Hg' & [?|Hid])|(_ & _ & Hl' & Hg')]; [done| |].
          -- destruct (last_circuit u1) as [l|] eqn:Hl; [|done]. specialize (Hg l eq_refl). assert (circuit_identity l = circuit_identity c) as Hid' by (cbn in Hid; congruence).
             split_and!; [rewrite Hl', Hg'; naive_solver|done|]. right. exists c, l. rewrite Hg', Hg. split_and!; [exact Hsel|done|done|].
             right. by rewrite <- Hg1.
          -- split_and!; [by rewrite Hl', Hg'|done|]. right. exists c, c. split_and!; [exact Hsel|done|done|by left].
        * destruct Hn as [(Hl' & Hg' & _)|(Hid & Hskip & _)].
          -- split_and!; [by rewrite Hl', Hg'|done|]. left. by rewrite Hg'.
          -- by destruct (last_circuit u1).
      + eexists _, _. split; [reflexivity|]. intros u' _ _ Hc' _ Hn. rewrite Hc'.
        destruct Hn as [(Hl' & Hg' & _)|(Hid & Hskip & Hl' & Hg')].
        * split_and!; [by rewrite Hl', Hg'|done|]. left. by rewrite Hg'.
        * split_and!; [by rewrite Hl', Hg'|done|]. right. destruct (pi_file i) as [c|]; [by exists c|done]. }
  rewrite bind_Ok. destruct (finish_ok u1 i refused next skip_apply) as (u' & effects & outcome & -> & [Hc _] & Hd & Hn).
  exists u', effects, outcome. split; [done|]. destruct (Hstep u' effects outcome Hc Hd Hn) as [Hs' Hcs].
  split_and!; [done..|]. unfold dials_step in *. by rewrite <- Hg1, <- Hl1.
Qed.

Lemma seed_admitted dir settings unroutable locality now seed :
  @boot_seed_from _ _ E dir settings unroutable locality now = Ok seed ->
  forall c, seed_circuit seed = Some c -> admitted (mkDraw dir settings [] unroutable locality) c.
Proof.
  unfold boot_seed_from, select_boot_circuit.
  pose proof (@select_admissible _ _ _ E dir settings None [] [] unroutable locality None RttCache_new now) as Hsel.
  destruct (select_next_circuit _ _ _ _ _ _ _ _ _ _) as [r| |]; [|done..]. rewrite bind_Ok. intros [= <-] c [= ->]. exact Hsel.
Qed.

Lemma updates_settled draws files u : updates draws files u -> settled u.
Proof.
  induction 1 as [file|file dir settings unroutable locality now seed Hun Hs|draws files u i u' effects outcome Hr IH Hp].
  - by split.
  - split; [done|]. by rewrite Hun.
  - destruct (pass_ok u i IH) as (u2 & effects2 & outcome2 & Hp2 & Hs & _). rewrite Hp in Hp2. by injection Hp2 as <- _ _.
Qed.

Lemma updates_source draws files u : updates draws files u ->
  forall c, generator_circuit u = Some c -> c ∈ files \/ exists d, d ∈ draws /\ admitted d c.
Proof.
  induction 1 as [file|file dir settings unroutable locality now seed Hun Hs|draws files u i u' effects outcome Hr IH Hp]; intros c Hc.
  - left. cbn in Hc. subst file. by left.
  - right. eexists. split; [by left|]. by eapply seed_admitted.
  - destruct (pass_ok u i (updates_settled _ _ _ Hr)) as (u2 & effects2 & outcome2 & Hp2 & _ & Hstep & _).
    rewrite Hp in Hp2. injection Hp2 as <- _ _. unfold circuit_step in Hstep. rewrite !elem_of_app.
    assert (generator_circuit u = Some c ->
      (c ∈ files \/ c ∈ option_list (pi_file i)) \/ exists d, d ∈ draws ++ option_list (drawn u' i) /\ admitted d c) as Hold.
    { intros [?|(d & ? & ?)]%IH; [by left; left|]. right. exists d. by rewrite elem_of_app; split; [left|]. }
    destruct (drawn u' i) as [d|].
    + destruct Hstep as [[_ Hg]|(c' & c2 & Ha & Hg & _ & [->|Hg2])]; [by apply Hold; rewrite <- Hg| |].
      * right. exists d. rewrite Hc in Hg. injection Hg as ->. split; [|done]. apply elem_of_app. right. by left.
      * apply Hold. congruence.
    + destruct Hstep as [Hg|(c' & Hf & Hg)]; [by apply Hold; rewrite <- Hg|]. assert (c' = c) as -> by congruence. left. right. rewrite Hf. by left.
Qed.

(** C25: the tunnel is only dialed with a circuit the constraints of some pass admitted, and the
    constraints in force where they admit any.  In every run of the updater from its boot, the
    circuit the generator carries was picked by the boot seed or by a pass, and admitted by the
    directory and the constraints it drew from, or was read of an override file.  One more pass
    returns without panicking whatever it reads: over a directory, either no pair is a candidate
    under the constraints in force, and the circuit in use stays, admitted by them or not; or the
    circuit carried is then the one picked, which they admit, or the one in use, of that same
    entry and exit.  Without a directory it is the one in use or the override file's.  A pass that
    changes nothing dials nothing, one that changes something changes the entry or the exit, and
    a live move is to the circuit carried. *)
Theorem dialed_circuit_admitted (draws : list Draw) (files : list MultiHopConfig) (u : Updater) (i : PassInput) :
  updates draws files u ->
  (forall c, generator_circuit u = Some c -> c ∈ files \/ exists d, d ∈ draws /\ admitted d c) /\
  exists u' effects outcome, @pass _ _ _ E unconfigured u i = Ok (u', effects, outcome) /\
    match drawn u' i with
    | Some d =>
        draw_candidates d = [] /\ generator_circuit u' = generator_circuit u \/
        exists c c', admitted d c /\ generator_circuit u' = Some c' /\ circuit_identity c' = circuit_identity c /\
          (c' = c \/ generator_circuit u = Some c')
    | None =>
        generator_circuit u' = generator_circuit u \/
        exists c, pi_file i = Some c /\ generator_circuit u' = Some c
    end /\
    (outcome = Stay -> generator_circuit u' = generator_circuit u /\ RequestReconnect ∉ effects /\
       forall c, TryMigrate c ∉ effects) /\
    (outcome <> Stay -> circuit_identity <$> last_circuit u' <> circuit_identity <$> last_circuit u) /\
    (forall c, TryMigrate c ∈ effects -> generator_circuit u' = Some c).
Proof.
  intros Hr. split; [by apply updates_source|].
  destruct (pass_ok u i (updates_settled _ _ _ Hr)) as (u' & effects & outcome & Hp & _ & Hstep & Hdial).
  by exists u', effects, outcome.
Qed.

Lemma pass_directory u i u' effects outcome :
  @pass _ _ _ E unconfigured u i = Ok (u', effects, outcome) ->
  cached_dir u' = cached_dir (prepared u i).2 /\ highest_generation u' = highest_generation (prepared u i).2.
Proof.
  rewrite pass_finish. intros ([next skip_apply] & _ & Hf)%bind_ok.
  destruct (finish_ok (prepared u i).2 i (prepared u i).1 next skip_apply) as (u2 & effects2 & outcome2 & Hf2 & Hc & _).
  rewrite Hf in Hf2. by injection Hf2 as <- _ _.
Qed.

Lemma prepared_generation u i :
  highest_generation u <= highest_generation (prepared u i).2 /\
  ((forall dir, cached_dir u = Some dir -> generation dir = highest_generation u) ->
   forall dir, cached_dir (prepared u i).2 = Some dir -> generation dir = highest_generation (prepared u i).2).
Proof.
  unfold prepared. destruct (active_refused _ _) as [refused kept]. cbn [snd]. case_eq unconfigured; intros _; [done|].
  unfold refresh. destruct (pi_refresh i) as [[[|dir|] advisory]|]; [done| |done..]. cbn [highest_generation cached_dir].
  destruct (Z.ltb_spec (generation dir) (highest_generation u)); cbn; [done|]. split; [done|]. by intros _ d [= ->].
Qed.

(** The anti-rollback gate: over a pass the newest generation trusted never goes down, and the
    directory kept is one of it. *)
Theorem directory_never_rolls_back (draws : list Draw) (files : list MultiHopConfig) (u : Updater) :
  updates draws files u ->
  (forall dir, cached_dir u = Some dir -> generation dir = highest_generation u) /\
  forall i u' effects outcome, @pass _ _ _ E unconfigured u i = Ok (u', effects, outcome) ->
    highest_generation u <= highest_generation u'.
Proof.
  intros Hr. split.
  - induction Hr as [file|file dir settings unroutable locality now seed Hun Hs|draws files u i u' effects outcome Hr IH Hp].
    + done.
    + by intros d [= <-].
    + apply pass_directory in Hp as [-> ->]. by apply prepared_generation.
  - intros i u' effects outcome Hp. apply pass_directory in Hp as [_ ->]. by apply prepared_generation.
Qed.
End Run.

(** ** Over a small fleet *)

#[local] Existing Instances fleet_descriptors fleet_discovery fleet_laws.

#[local] Instance fleet_policy : UpdaterPolicy := {| generation _ := 7; DRAINED_TTL_SECS := 900 |}.

(** A machine in France; its boot seed is Japan through the far entry, and the settings then ask
    for an exit where the fleet has none. *)
Definition seeded : BootSeed := mkBootSeed fleet (circuit_of 1 0).
Definition seed_draw : Draw := mkDraw fleet two_hops [] [] near_france.
Definition asking (settings : MultiHopSettings) (drained : list bytes) : PassInput :=
  mkPassInput settings None [] 0 drained tt (fun _ => []) near_france 0 None true false.
Definition elsewhere : MultiHopSettings := mkMultiHopSettings true [] (lit "us") 0.

Example seed_of_fleet : boot_seed_from (E:=False) fleet two_hops [] near_france 0 = Ok seeded.
Proof. by vm_compute. Qed.

Definition after {E : Type} (m : comp E (Updater * list UpdaterEffect * WarrenDrainPass)) : Updater :=
  match m with Ok r => r.1.1 | _ => boot None None end.
Definition kept : Updater := after (pass (E:=False) false (boot None (Some seeded)) (asking elsewhere [])).

(** No candidate: the circuit in use stays, which the settings no longer admit. *)
Example kept_unadmitted :
  generator_circuit kept = circuit_of 1 0 /\
  candidates fleet elsewhere [] near_france = [] /\
  (exit_country <$> generator_circuit kept) = Some (lit "au").
Proof. split_and!; by vm_compute. Qed.

(** Its exit drains: a live move to another one. *)
Example drained_moves :
  match pass (E:=False) false kept (asking two_hops [[1]]) with
  | Ok (u, effects, outcome) =>
      outcome = Migrating /\ generator_circuit u <> generator_circuit kept /\
      exists c, generator_circuit u = Some c /\
        effects = [NotifyMaintenance; TryMigrate c; RemapNatPmp; SetRouteDirectory fleet two_hops]
  | _ => False
  end.
Proof. vm_compute. split; [done|]. split; [congruence|]. by eexists. Qed.

Lemma kept_updates : updates (E:=False) false [seed_draw; mkDraw fleet elsewhere [] [] near_france] [] kept.
Proof.
  assert (updates (E:=False) false [seed_draw] [] (boot None (Some seeded))) as Hseed
    by exact (@up_seed _ _ fleet_policy False false None fleet two_hops [] near_france 0 seeded eq_refl seed_of_fleet).
  assert (exists effects outcome, pass (E:=False) false (boot None (Some seeded)) (asking elsewhere []) = Ok (kept, effects, outcome))
    as (effects & outcome & Hp) by (eexists _, _; by vm_compute).
  exact (@up_pass _ _ fleet_policy False false _ _ _ _ _ _ _ Hseed Hp).
Qed.

Lemma dialed_circuit_admitted_witness :
  updates (E:=False) false [seed_draw; mkDraw fleet elsewhere [] [] near_france] [] kept /\
  (forall c, generator_circuit kept = Some c ->
     c ∈ [] \/ exists d, d ∈ [seed_draw; mkDraw fleet elsewhere [] [] near_france] /\ admitted d c) /\
  exists u' effects outcome, pass (E:=False) false kept (asking two_hops [[1]]) = Ok (u', effects, outcome).
Proof.
  split; [exact kept_updates|].
  destruct (@dialed_circuit_admitted _ _ fleet_laws _ False false _ _ kept (asking two_hops [[1]]) kept_updates)
    as [Hc (u' & effects & outcome & Hp & _)].
  split; [exact Hc|]. by exists u', effects, outcome.
Defined.
